(* ===== verification/_CoqProject ===== *)
-Q . S2P
Prelude.v
Bytes.v
Messages.v
BinConsensus.v
BinSpec.v
BinAgreement.v
BinTheorems.v
LruCache.v
LevelDb.v
LevelDbSets.v
BlockSigShare.v
ProposalVector.v
BlockConsensus.v
BlockTheorems.v
Transactions.v
Pricing.v
PendingQueue.v
ProtocolDbs.v
Blocks.v
Fragments.v
BlockStore.v
ProposalStore.v
OtherDbs.v
Schain.v
SchainTheorems.v
Headers.v
Tcp.v
ProposalServer.v
ChainHashes.v
ProposalSafety.v
Catchup.v
CatchupTheorems.v
Finalize.v
FinalizeTheorems.v
NetMessages.v
MessageTheorems.v
Network.v
NetworkTheorems.v
SgxClient.v
Crypto.v
CryptoTheorems.v
ProposalClient.v
ProposalClientTheorems.v
ProposalExchange.v
OracleSpec.v
Oracle.v
OracleTheorems.v
OracleAgreement.v
OracleExamples.v
Monitoring.v
MonitoringTheorems.v
Timeouts.v
TimeoutTheorems.v
AgentRuns.v
ConsensusKept.v
MessageLoop.v
NodeLife.v
NodeConfig.v
HealthCheck.v
