(* ===== verification/Prelude.v ===== *)
(** * skale-consensus: verification development

    A SKALE chain is a blockchain of [n] nodes of which fewer than a third are
    faulty.  For every block each node proposes a list of transactions, the
    nodes sign the availability of the proposals they have received, a binary
    consensus is run for every proposer, the first proposer whose instance
    decides 1 in an order given by the previous block wins, the nodes sign that
    choice, and the block is handed to the application (EVM).  Nodes that miss a
    proposal download it in fragments; nodes that miss blocks catch up.  On the
    same transport the nodes answer requests to read a web page (the oracle).  This
    library translates that program from its C++ source into executable
    definitions and proves what makes it correct.

    ** How the code is modelled

    - A class is a record; a method is a definition in the monad [M S A] of this
      file: it reads and writes the state [S] and returns a value or throws.
      What was written before a [throw] stays written, as in the code.
      [CHECK_STATE], [CHECK_ARGUMENT] and the usual
      [catch ( ... ) { throw_with_nested }] clauses are combinators.
    - Integers are [Z]; wrap-around of 8, 32 and 64-bit numbers is written out
      with [u8], [u32], [u64], [i64] wherever it can happen.  Byte vectors are
      lists of integers, [std::map] and [std::unordered_map] are [gmap].
    - Several methods of one object on different fields are run with [zoom].
    - Code outside the repository is a parameter: BLAKE3, Keccak, the signature
      schemes (ECDSA, threshold BLS, EdDSA), the JSON libraries, boost's decimal
      and binary conversions, LevelDB, ZeroMQ, the SGX wallet, curl, the URL
      parser, the application.  What a theorem needs of them is a hypothesis with
      a name: [bls_unique] and [sign_verifies] for signatures, [EdDSALaws] for
      session keys, [HealthyStore] for LevelDB, the length and the range of
      hashes, [parse_dump], [dump_braces], [dump_length] and the laws of
      [MessageTheorems] for JSON.  Each has an instance, which the witnesses use.
    - What the environment decides (clock, requested exit, outcomes of
      [createBlock], of downloads, of [connect], [send] and [recv], answers of the
      wallet and of web pages, random numbers) is a stream of answers in the state
      or an argument; theorems hold for all of them.
    - An exception is a value of [exn].  [UndefinedBehavior] stands for what C++
      leaves undefined (a failed assertion of RapidJSON, a null dereference): no
      handler catches it.  [OutOfFuel] is no result of the code.
    - Locks: a method that holds a lock is one step.  Runs of several nodes or
      threads are sequences of such steps: [BinAgreement] interleaves the
      messages of all nodes, [SchainTheorems] the operations of a chain,
      [ProposalSafety] connections and chain operations, [FinalizeTheorems] the
      critical sections of the download threads, [NetworkTheorems] the loops and
      calls of the network agent, [OracleTheorems] requests, messages and threads
      of the oracle, [TimeoutTheorems] the timeouts among the other threads,
      [MessageLoop] the thread that routes messages among those that post them, with
      the condition variable that it waits on: a notification reaches it only
      while it waits, and it goes on only when it was woken.
      [NodeLife]: the threads that end a node.  A connection that the proposal server handles is one step
      with respect to the operations of the chain.
    - Who speaks under which index: the code verifies the signature of a message
      for the node ID in it and finds the sender by the index in it, and never
      compares the two ([MessageTheorems.sender_index_unbound]).  So the theorems
      about votes and signatures do not assume that a message comes from the
      member whose index it names: [accepts k i] says that messages of member [k]
      get through under index [i], and the bound on the Byzantine members is one on
      the indices that they can name ([speak_within] of this file).
      [BinTheorems.unbound_index_breaks_agreement] shows that agreement and
      validity fail for one Byzantine member of four that can name every index.

    ** Files

    - [Prelude]: results, exceptions, the monad, weakest preconditions, frames,
      quorums.  [Bytes]: numbers as bytes and text.
    - [Messages]: keys and messages ([src/messages], [src/protocols]).
    - Binary consensus ([src/protocols/binconsensus]): [BinConsensus] (every
      handler of [BinConsensusInstance]), [BinSpec] (the protocol as a step
      relation and the refinement), [BinAgreement] (the network of nodes),
      [BinTheorems] (agreement, validity, invariant, one report).
    - [LruCache] ([src/thirdparty/lrucache.hpp]) with its list specification.
    - Rotating database ([src/db/CacheLevelDB.cpp]): [LevelDb] and, for the sets
      of signature shares, [LevelDbSets].
    - [BlockSigShare] ([src/db/BlockSigShareDB.cpp]), [ProposalVector]
      ([src/datastructures/BooleanProposalVector.cpp]).
    - Block consensus ([src/protocols/blockconsensus]): [BlockConsensus] and
      [BlockTheorems].
    - [Transactions] ([src/datastructures]: transactions, lists, Merkle root,
      partial hashes), [Pricing] ([src/pricing], [src/db/PriceDB.cpp]),
      [PendingQueue] ([src/pendingqueue]).
    - [ProtocolDbs] (proposal hashes, proposal vectors, data availability proofs
      and shares in [src/db]), [OtherDbs] (the remaining databases).
    - [Blocks] (proposals and committed blocks: hash, serialization, parsing,
      verification), [Fragments], [BlockStore] ([src/db/BlockDB.cpp] and catchup
      lists), [ProposalStore] ([src/db/BlockProposalDB.cpp]).
    - [Schain] ([src/chains]): committing, proposing, catchup, finalization and
      the start after a crash; [SchainTheorems], and [ChainHashes] for what the
      operations do to the proposal hashes.
    - [Headers] ([src/headers]), [Tcp] ([src/network/IO.cpp], [Buffer.cpp]).
    - [ProposalServer] ([src/blockproposal/server]), [ProposalSafety].
    - [Catchup] ([src/catchup], [src/network/ClientSocket.cpp]),
      [CatchupTheorems].
    - [Finalize] ([src/blockfinalize]), [FinalizeTheorems].
    - Transport: [NetMessages] ([src/messages/NetworkMessage.cpp] and the classes
      of messages: their JSON form, hashes, signing, parsing) and
      [MessageTheorems]; [Network] ([src/network]: sending, delaying, deferring,
      receiving) and [NetworkTheorems].
    - Cryptography: [SgxClient] ([src/sgxclient]), [Crypto]
      ([src/crypto]: keys by time, session keys, shares, threshold signatures),
      [CryptoTheorems].
    - [ProposalClient] ([src/blockproposal/pusher], [src/abstracttcpclient]),
      [ProposalClientTheorems]; [ProposalExchange] puts it together with the
      server.
    - Oracle ([src/oracle]): [OracleSpec] (requests), [Oracle] (answers, the
      collected results, client and server), [OracleTheorems], [OracleAgreement]
      and [OracleExamples].
    - [src/monitoring]: [Monitoring] (detection of a stuck chain, the monitors of
      slow functions) with [MonitoringTheorems], [Timeouts] (rebroadcasts and the
      timeout of proposals) with [TimeoutTheorems].
    - Messages to the block consensus: [AgentRuns] (runs of
      [BlockConsensusAgent] and the protocol of each binary consensus it keeps),
      [ConsensusKept] (none of the network's window is forgotten), [MessageLoop]
      (the queue and the thread of [Schain.cpp]).
    - [src/node] and [src/json]: [NodeLife] (how a node ends), [NodeConfig] (the
      configuration and the members of a chain), [HealthCheck] (the check before
      the start).

    ** What the theorems show

    - Consensus: as long as the Byzantine members can name fewer than a third of
      the indices, two honest nodes never decide differently and a unanimous value
      is the only possible decision; every run of the handler is a run of the
      protocol and ends; the winner of a block is a function of the decisions and
      the previous block, is signed at the report that completes the decisions
      and at no other one.
    - Data availability: a node signs at most one proposal per block and
      proposer other than itself, as a server and when it proposes, and only one
      that passes every check; hence two data availability proofs for one block
      and proposer are for the same proposal, under the same condition on the
      indices;
      what a node downloads is what such a proof certifies.
    - Chain: blocks are committed one after the other, the application gets
      exactly the stored blocks with their contents in order, also after a crash;
      blocks from catchup are verified, whatever the peer sends.
    - Storage: the rotating database, the cache and the databases on top keep
      what was written first, count every signer once, and read back what they
      stored, across rotations and restarts.
    - Formats: transactions, lists, proposals, blocks, fragments and headers
      survive their encodings, over any cutting of the bytes by the sockets; the
      hash of a proposal and the Merkle root bind their contents up to a
      collision.
    - Transport: what is posted to the chain was signed with a session key that
      a node certified; a broadcast that enough sockets accept in the end reaches
      two thirds of the nodes and waits in a queue for the others; deferred messages are handed over once their block comes; the
      queues are bounded; messages survive their text form.
    - Cryptography: a data availability signature that verifies has the shares of
      the required number of different indices, and enough shares merge into one;
      which group of nodes signs a block.
    - Proposal exchange: the server gets the transactions that the client has;
      the client hands on verified shares only, and sends in order.
    - Oracle: a reported result was answered under more than half as many
      different indices as signers are required, one of them by an honest node
      under the condition on the indices; agreeing answers are reported whatever the others send, requests
      and answers survive their text form.
    - The block consensus as a whole: messages are routed once and in order
      whatever errors they cause, the queue is emptied, and every binary consensus
      that the agent keeps is in a state of the protocol; while messages of the
      network's window are routed or asked about, no consensus of the window is forgotten.
    - Timeouts and restarts: broadcasts are repeated for as long as a block is
      missing; a chain that stands still with enough peers is restarted once.
    - Start and exit: a sound configuration starts the node with the right
      members; the check before the start needs two thirds of them; a requested
      exit spares the block that is being created and is completed.
    - Bounds: prices, the memory of the pending queue, the queues of the network.

    ** Fuel

    Loops over data recurse on the data.  The others have fuel that is proved or
    seen to be enough: the rounds of binary consensus [round_fuel] = 101, one
    more than the bound of the code; [removeOldDBs] the number of shards; the
    Merkle loop the number of hashes; [dropLoop] the length of the queue;
    [nextIndexLoop] 1, since only the node itself is skipped;
    [pushMissingBlocks] and [waitUntilAfter] wait for the outside world, so that
    their fuel is an argument and the theorems say what holds when it suffices;
    [sendToTwoThirds] and the threads of the proposal client recurse on the
    outcomes of [connect] and [send] (past the end of the outcomes no peer accepts
    anything, and a theorem that a broadcast ends assumes enough acceptances); [searchPow] ends at the first proof of work
    with any fuel above it; the loops of the stuck detection and of the health
    check end with the clock, and [stuck_chain_restarts] and
    [health_check_decides] say which fuel is enough; [AgentRuns] shows that the
    rounds of binary consensus never run out in any run of the agent.  Threads
    that loop until the exit are modelled by turns.

    ** Not modelled

    ZeroMQ, sockets and thread pools (they only move bytes and start threads); the
    implementations of the signature schemes; RLP and the JSON libraries; logging,
    statistics, the status server, the keys of the test configuration (no protocol
    logic); the state database of binary consensus (its writes are compiled out).
    Vendored code (cppzmq, microprofile, miniz, thirdparty except the LRU cache) and
    tests are left out.  The manifest names each part with its status. *)

From stdpp Require Import base tactics gmap list strings pretty sorting numbers fin_sets.
From Stdlib Require Import ZArith Lia.

Open Scope Z_scope.

Declare Scope cpp_scope.
Delimit Scope cpp_scope with cpp.
Open Scope cpp_scope.

(** ** Machine integers *)

(** Unsigned wrap-around of a [w]-bit C++ integer. *)
Definition wrap (w z : Z) : Z := z mod 2 ^ w.
Definition u8 (z : Z) : Z := wrap 8 z.
Definition u16 (z : Z) : Z := wrap 16 z.
Definition u32 (z : Z) : Z := wrap 32 z.
Definition u64 (z : Z) : Z := wrap 64 z.
Definition i64 (z : Z) : Z := let u := u64 z in if u <? 2 ^ 63 then u else u - 2 ^ 64.
Definition u256 (z : Z) : Z := wrap 256 z.

Notation "x <? y" := (Z.ltb x y) : cpp_scope.
Notation "x >? y" := (Z.gtb x y) : cpp_scope.

Create HintDb cpp.

Lemma wrap_small w z : 0 <= z < 2 ^ w -> wrap w z = z.
Proof. intros; unfold wrap; by apply Z.mod_small. Qed.

Lemma wrap_range w z : 0 <= w -> 0 <= wrap w z < 2 ^ w.
Proof. intros; unfold wrap; apply Z.mod_pos_bound; lia. Qed.

Lemma u64_small z : 0 <= z < 2 ^ 64 -> u64 z = z.
Proof. apply wrap_small. Qed.

Lemma u64_range z : 0 <= u64 z < 2 ^ 64.
Proof. by apply wrap_range. Qed.

Lemma u256_small z : 0 <= z < 2 ^ 256 -> u256 z = z.
Proof. apply wrap_small. Qed.

Lemma u256_range z : 0 <= u256 z < 2 ^ 256.
Proof. by apply wrap_range. Qed.

(** Sizes of containers are [size_t]; they are kept as [Z]. *)
Definition zlen {A} (l : list A) : Z := Z.of_nat (length l).

Lemma zlen_app {A} (l k : list A) : zlen (l ++ k) = zlen l + zlen k.
Proof. unfold zlen; rewrite length_app; lia. Qed.

Lemma zlen_nonneg {A} (l : list A) : 0 <= zlen l.
Proof. unfold zlen; lia. Qed.

#[export] Hint Resolve u64_range u256_range zlen_nonneg : cpp.

(** ** Exceptions *)

(** The exception classes of [src/exceptions] and of the C++ standard library
    that the modelled code throws.  Two are not C++ exceptions, and no handler
    catches them.  [OutOfFuel] marks a model run whose recursion bound was too
    small, and every theorem about a fuelled definition shows that it cannot
    happen.  [UndefinedBehavior] is the use of a library outside its contract:
    an assertion of RapidJSON, which stops the process. *)
Inductive exn :=
  | InvalidArgumentException
  | InvalidStateException
  | ParsingException
  | NetworkProtocolException
  | SerializeException
  | InvalidSignatureException
  | LevelDBException
  | FatalError
  | EngineInitException
  | ExitRequestedException
  | StdRangeError
  | StdOutOfRange
  | StdLengthError
  | StdUnderflowError
  | StdBadCast
  | JsonError
  | IOException
  | PingException
  | ConnectionRefusedException
  | CouldNotSendMessageException
  | CouldNotReadPartialDataHashesException
  | InvalidMessageFormatException
  | InvalidSchainException
  | InvalidNodeIDException
  | InvalidSchainIndexException
  | OldBlockIDException
  | OracleException (error : Z)
  | UndefinedBehavior
  | OutOfFuel.

#[export] Instance exn_eq_dec : EqDecision exn.
Proof. solve_decision. Defined.

Inductive res (A : Type) :=
  | Ok (a : A)
  | Err (e : exn).
Arguments Ok {A} a.
Arguments Err {A} e.

#[export] Instance res_eq_dec {A} `{EqDecision A} : EqDecision (res A).
Proof. solve_decision. Defined.

#[export] Instance Ok_inj {A} : Inj (=) (=) (@Ok A).
Proof. intros a b. congruence. Qed.

#[export] Instance res_ret : MRet res := fun _ a => Ok a.
#[export] Instance res_bind : MBind res := fun _ _ k c =>
  match c with Ok a => k a | Err e => Err e end.

Definition is_ok {A} (r : res A) : bool := match r with Ok _ => true | Err _ => false end.

(** [CHECK_ARGUMENT] and [CHECK_STATE] of [SkaleCommon.h] on the pure layer. *)
Definition rcheck (e : exn) (b : bool) : res unit := if b then Ok tt else Err e.

(** [catch ( ExitRequestedException& ) { throw; } catch ( ... ) {
    throw_with_nested( e ) }]. *)
Definition nest_exn (e e' : exn) : exn :=
  match e' with
  | ExitRequestedException => ExitRequestedException
  | UndefinedBehavior => UndefinedBehavior
  | OutOfFuel => OutOfFuel
  | _ => e
  end.

Definition rnested {A} (e : exn) (r : res A) : res A :=
  match r with Ok a => Ok a | Err e' => Err (nest_exn e e') end.

(** [catch ( ... ) { throw_with_nested( e ) }] without the re-throw clause. *)
Definition rnested_all {A} (e : exn) (r : res A) : res A :=
  match r with
  | Ok a => Ok a
  | Err OutOfFuel => Err OutOfFuel
  | Err UndefinedBehavior => Err UndefinedBehavior
  | Err _ => Err e
  end.

(** [catch ( SkaleException& ) { throw_with_nested( e ) }]: the exceptions of
    the standard library pass. *)
Definition rnested_skale {A} (e : exn) (r : res A) : res A :=
  match r with
  | Ok a => Ok a
  | Err ((StdRangeError | StdOutOfRange | StdLengthError | StdUnderflowError |
          StdBadCast | JsonError) as e') => Err e'
  | Err e' => Err (nest_exn e e')
  end.

(** Inversion of pure methods that return. *)
Lemma rbind_ok {A B} (r : res A) (k : A -> res B) b : (r ≫= k) = Ok b -> exists a, r = Ok a /\ k a = Ok b.
Proof. destruct r as [a|e]; [|done]. intros Hk. by exists a. Qed.

Lemma rcheck_ok {B} e (b : bool) (k : res B) x : (rcheck e b ;; k) = Ok x -> b = true /\ k = Ok x.
Proof. by destruct b. Qed.

Lemma rnested_ok {A} e (r : res A) a : rnested e r = Ok a -> r = Ok a.
Proof. by destruct r. Qed.

Lemma rnested_all_ok {A} e (r : res A) a : rnested_all e r = Ok a -> r = Ok a.
Proof. by destruct r as [|[]]. Qed.

Ltac rinv H :=
  repeat match type of H with
  | (rcheck _ _ ;; _) = Ok _ =>
      let Hc := fresh "Hc" in apply rcheck_ok in H as [Hc H]
  | (_ ≫= _) = Ok _ =>
      let x := fresh "x" in let Hx := fresh "Hx" in apply rbind_ok in H as (x & Hx & H)
  | rnested _ _ = Ok _ => apply rnested_ok in H
  | rnested_all _ _ = Ok _ => apply rnested_all_ok in H
  end.

(** ** State and exceptions *)

(** A method of a class with state [S]: it reads and writes the state and
    returns or throws.  What was written before a [throw] stays written. *)
Definition M (S A : Type) : Type := S -> res A * S.

#[export] Instance M_ret {S} : MRet (M S) := fun _ a s => (Ok a, s).
#[export] Instance M_bind {S} : MBind (M S) := fun _ _ k c s =>
  match c s with
  | (Ok a, s') => k a s'
  | (Err e, s') => (Err e, s')
  end.

Section Effects.
Context {S : Type}.

Definition throw {A} (e : exn) : M S A := fun s => (Err e, s).
Definition get : M S S := fun s => (Ok s, s).
Definition gets {A} (f : S -> A) : M S A := fun s => (Ok (f s), s).
Definition put (s : S) : M S unit := fun _ => (Ok tt, s).
Definition modify (f : S -> S) : M S unit := fun s => (Ok tt, f s).
Definition lift_res {A} (r : res A) : M S A := fun s => (r, s).
Definition check (e : exn) (b : bool) : M S unit :=
  if b then mret tt else throw e.
Definition when (b : bool) (c : M S unit) : M S unit :=
  if b then c else mret tt.
Definition nested {A} (e : exn) (c : M S A) : M S A := fun s =>
  let '(r, s') := c s in (rnested e r, s').
Definition nested_all {A} (e : exn) (c : M S A) : M S A := fun s =>
  let '(r, s') := c s in (rnested_all e r, s').
Definition nested_skale {A} (e : exn) (c : M S A) : M S A := fun s =>
  let '(r, s') := c s in (rnested_skale e r, s').
Fixpoint mapM_ {A} (f : A -> M S unit) (l : list A) : M S unit :=
  match l with
  | [] => mret tt
  | x :: l => f x ;; mapM_ f l
  end.
End Effects.

Abbreviation CHECK_STATE b := (check InvalidStateException b).
Abbreviation CHECK_ARGUMENT b := (check InvalidArgumentException b).

(** Running a method on one field of a larger object. *)
Definition zoom {S T A} (getf : S -> T) (setf : T -> S -> S) (c : M T A) : M S A :=
  fun s => let '(r, t) := c (getf s) in (r, setf t s).

(** ** Weakest preconditions *)

(** [wp c s Q]: running [c] in [s] ends in a result and a state that satisfy
    [Q]; [Q] also constrains the exceptional results. *)
Definition wp {S A} (c : M S A) (s : S) (Q : res A -> S -> Prop) : Prop :=
  Q (c s).1 (c s).2.

Section Wp.
Context {S : Type}.
Implicit Types s : S.

Lemma wp_run {A} (c : M S A) s Q r s' : wp c s Q -> c s = (r, s') -> Q r s'.
Proof. intros H E; unfold wp in H; by rewrite E in H. Qed.

Lemma wp_mono {A} (c : M S A) s (Q Q' : res A -> S -> Prop) :
  wp c s Q -> (forall r s', Q r s' -> Q' r s') -> wp c s Q'.
Proof. unfold wp; auto. Qed.

Lemma wp_and {A} (c : M S A) s (Q Q' : res A -> S -> Prop) :
  wp c s Q -> wp c s Q' -> wp c s (fun r s' => Q r s' /\ Q' r s').
Proof. done. Qed.

Lemma wp_ret {A} (a : A) s Q : wp (mret a) s Q <-> Q (Ok a) s.
Proof. done. Qed.

Lemma wp_throw {A} e s (Q : res A -> S -> Prop) : wp (throw e) s Q <-> Q (Err e) s.
Proof. done. Qed.

Lemma wp_bind {A B} (c : M S A) (k : A -> M S B) s Q :
  wp (c ≫= k) s Q <->
  wp c s (fun r s' => match r with Ok a => wp (k a) s' Q | Err e => Q (Err e) s' end).
Proof.
  unfold wp, mbind, M_bind; destruct (c s) as [[a|e] s'] eqn:E; cbn;
    by rewrite ?E.
Qed.

Lemma wp_get s Q : wp get s Q <-> Q (Ok s) s.
Proof. done. Qed.

Lemma wp_gets {A} (f : S -> A) s Q : wp (gets f) s Q <-> Q (Ok (f s)) s.
Proof. done. Qed.

Lemma wp_put s' s Q : wp (put s') s Q <-> Q (Ok tt) s'.
Proof. done. Qed.

Lemma wp_modify f s Q : wp (modify f) s Q <-> Q (Ok tt) (f s).
Proof. done. Qed.

Lemma wp_lift {A} (r : res A) s Q : wp (lift_res r) s Q <-> Q r s.
Proof. done. Qed.

Lemma wp_check e b s Q :
  wp (check e b) s Q <-> (b = true -> Q (Ok tt) s) /\ (b = false -> Q (Err e) s).
Proof. destruct b; unfold wp; cbn; naive_solver. Qed.

Lemma wp_when b c s Q :
  wp (when b c) s Q <-> (b = true -> wp c s Q) /\ (b = false -> Q (Ok tt) s).
Proof. destruct b; unfold wp; cbn; naive_solver. Qed.

Lemma wp_if {A} (b : bool) (c1 c2 : M S A) s Q :
  wp (if b then c1 else c2) s Q <->
  (b = true -> wp c1 s Q) /\ (b = false -> wp c2 s Q).
Proof. destruct b; naive_solver. Qed.

Lemma wp_nested {A} e (c : M S A) s Q :
  wp (nested e c) s Q <-> wp c s (fun r s' => Q (rnested e r) s').
Proof. unfold wp, nested; by destruct (c s). Qed.

Lemma wp_nested_all {A} e (c : M S A) s Q :
  wp (nested_all e c) s Q <-> wp c s (fun r s' => Q (rnested_all e r) s').
Proof. unfold wp, nested_all; by destruct (c s). Qed.

Lemma wp_nested_skale {A} e (c : M S A) s Q :
  wp (nested_skale e c) s Q <-> wp c s (fun r s' => Q (rnested_skale e r) s').
Proof. unfold wp, nested_skale; by destruct (c s). Qed.
End Wp.

Lemma wp_zoom {S T A} (getf : S -> T) setf (c : M T A) (s : S) Q :
  wp (zoom getf setf c) s Q <-> wp c (getf s) (fun r t => Q r (setf t s)).
Proof. unfold wp, zoom; by destruct (c (getf s)). Qed.

Create HintDb wp.
#[export] Hint Rewrite
  @wp_ret @wp_throw @wp_bind @wp_get @wp_gets @wp_put @wp_modify @wp_lift
  @wp_check @wp_when @wp_nested @wp_nested_all @wp_nested_skale : wp.

(** Pushes [wp] through the monadic structure of a method. *)
Ltac wp_simpl := autorewrite with wp; cbv beta iota.

(** The bare sequence: introduces the branches of a method one by one. *)
Ltac wp_steps :=
  repeat first
    [ progress wp_simpl
    | match goal with
      | |- _ /\ _ => split
      | |- (_ = true) -> _ => intros ?
      | |- (_ = false) -> _ => intros ?
      | |- wp (if _ then _ else _) _ _ => apply wp_if
      end ].

(** ** Frames *)

(** ** Running a computation step by step *)
Lemma wp_step {S A B} (c : M S A) (k : A -> M S B) s a s' Q :
  c s = (Ok a, s') -> wp (k a) s' Q -> wp (c ≫= k) s Q.
Proof. intros Hc Hk. rewrite wp_bind. unfold wp at 1. by rewrite Hc. Qed.

Lemma nested_run {S A} e (c : M S A) s a s' : c s = (Ok a, s') -> nested e c s = (Ok a, s').
Proof. intros Hc. unfold nested. by rewrite Hc. Qed.

Lemma lift_run {S A} (r : res A) (s : S) a : r = Ok a -> lift_res r s = (Ok a, s).
Proof. by intros ->. Qed.

Lemma check_run {S} e (s : S) : check e true s = (Ok tt, s).
Proof. done. Qed.

Lemma zoom_run {S T A} (getf : S -> T) setf (c : M T A) s r t :
  c (getf s) = (r, t) -> zoom getf setf c s = (r, setf t s).
Proof. intros Hc. unfold zoom. by rewrite Hc. Qed.

Lemma mbind_run {S A B} (c : M S A) (k : A -> M S B) (s : S) :
  (c ≫= k) s = match c s with (Ok a, s') => k a s' | (Err e, s') => (Err e, s') end.
Proof. unfold mbind, M_bind. by destruct (c s) as [[?|?] ?]. Qed.

Lemma run_step {S A B} (c : M S A) (k : A -> M S B) s a s' r :
  c s = (Ok a, s') -> k a s' = r -> (c ≫= k) s = r.
Proof. intros Hc Hk. unfold mbind, M_bind. by rewrite Hc. Qed.

(** [keeps f c]: whatever [c] does and however it ends, [f] of the state stays. *)
Definition keeps {S A X} (f : S -> X) (c : M S A) : Prop := forall s, f (c s).2 = f s.

Section Keeps.
Context {S X : Type} (f : S -> X).

Lemma keeps_ret {A} (a : A) : keeps f (mret a).
Proof. done. Qed.

Lemma keeps_throw {A} e : keeps f (throw (A := A) e).
Proof. done. Qed.

Lemma keeps_lift {A} (r : res A) : keeps f (lift_res r).
Proof. done. Qed.

Lemma keeps_get : keeps f get.
Proof. done. Qed.

Lemma keeps_gets {A} (g : S -> A) : keeps f (gets g).
Proof. done. Qed.

Lemma keeps_check e b : keeps f (check e b).
Proof. by destruct b. Qed.

Lemma keeps_bind {A B} (c : M S A) (k : A -> M S B) :
  keeps f c -> (forall a, keeps f (k a)) -> keeps f (c ≫= k).
Proof.
  intros Hc Hk s. unfold mbind, M_bind. specialize (Hc s). destruct (c s) as [[a|e] s']; [|done].
  cbn in Hc. by rewrite Hk.
Qed.

Lemma keeps_when b c : keeps f c -> keeps f (when b c).
Proof. by destruct b. Qed.

Lemma keeps_if {A} (b : bool) (c d : M S A) : keeps f c -> keeps f d -> keeps f (if b then c else d).
Proof. by destruct b. Qed.

Lemma keeps_option {A B} (o : option B) (c : B -> M S A) d :
  (forall x, keeps f (c x)) -> keeps f d ->
  keeps f (match o with Some x => c x | None => d end).
Proof. destruct o; auto. Qed.

Lemma keeps_nested {A} e (c : M S A) : keeps f c -> keeps f (nested e c).
Proof. intros Hc s. unfold nested. specialize (Hc s). by destruct (c s). Qed.

Lemma keeps_nested_all {A} e (c : M S A) : keeps f c -> keeps f (nested_all e c).
Proof. intros Hc s. unfold nested_all. specialize (Hc s). by destruct (c s). Qed.

Lemma keeps_zoom {T A} (getf : S -> T) setf (c : M T A) :
  (forall s t, f (setf t s) = f s) -> keeps f (zoom getf setf c).
Proof. intros Hs s. unfold zoom. destruct (c (getf s)). apply Hs. Qed.

Lemma keeps_wp {A} (c : M S A) s (Q : res A -> S -> Prop) :
  keeps f c -> wp c s (fun r s' => f s' = f s -> Q r s') -> wp c s Q.
Proof. intros Hc Hw. exact (Hw (Hc s)). Qed.
End Keeps.

(** [moves R c]: whatever [c] does and however it ends, the states before and
    after are related by [R]. *)
Definition moves {S A} (R : relation S) (c : M S A) : Prop := forall s, R s (c s).2.

Section Moves.
Context {S : Type} (R : relation S) `{!PreOrder R}.

Lemma moves_keeps {A X} (f : S -> X) (c : M S A) :
  (forall s s', f s' = f s -> R s s') -> keeps f c -> moves R c.
Proof. intros HR Hc s. apply HR, Hc. Qed.

Lemma moves_ret {A} (a : A) : moves R (mret a).
Proof. intros s. cbn. reflexivity. Qed.

Lemma moves_throw {A} e : moves R (throw (A := A) e).
Proof. intros s. cbn. reflexivity. Qed.

Lemma moves_lift {A} (r : res A) : moves R (lift_res r).
Proof. intros s. cbn. reflexivity. Qed.

Lemma moves_get : moves R get.
Proof. intros s. cbn. reflexivity. Qed.

Lemma moves_check e b : moves R (check e b).
Proof. intros s. destruct b; cbn; reflexivity. Qed.

Lemma moves_bind {A B} (c : M S A) (k : A -> M S B) :
  moves R c -> (forall a, moves R (k a)) -> moves R (c ≫= k).
Proof.
  intros Hc Hk s. unfold mbind, M_bind. specialize (Hc s). destruct (c s) as [[a|e] s1]; [|done].
  etrans; [exact Hc|apply Hk].
Qed.

Lemma moves_if {A} (b : bool) (c d : M S A) : moves R c -> moves R d -> moves R (if b then c else d).
Proof. by destruct b. Qed.

Lemma moves_when b c : moves R c -> moves R (when b c).
Proof. destruct b; [done|]. intros _. apply moves_ret. Qed.

Lemma moves_nested_all {A} e (c : M S A) : moves R c -> moves R (nested_all e c).
Proof. intros Hc s. unfold nested_all. specialize (Hc s). by destruct (c s). Qed.
End Moves.

(** ** Filters *)
Lemma filter_none {A} (P : A -> Prop) `{!forall x, Decision (P x)} (l : list A) :
  (forall x, x ∈ l -> ~ P x) -> filter P l = [].
Proof.
  induction l as [|a l IH]; intros Hl; [done|].
  rewrite filter_cons_False by (apply Hl; left). apply IH. intros; apply Hl; by right.
Qed.

Lemma filter_all {A} (P : A -> Prop) `{!forall x, Decision (P x)} (l : list A) :
  (forall x, x ∈ l -> P x) -> filter P l = l.
Proof.
  induction l as [|a l IH]; intros Hl; [done|].
  rewrite filter_cons_True by (apply Hl; left). f_equal. apply IH. intros; apply Hl; by right.
Qed.

(** ** Ordered maps *)

(** [std::map] iterates in key order: the items of a map keyed by integers. *)
Definition item_le {A} (x y : Z * A) : Prop := x.1 <= y.1.
#[export] Instance item_le_dec {A} : RelDecision (@item_le A).
Proof. intros x y; unfold item_le; apply _. Defined.

Definition map_items {A} (m : gmap Z A) : list (Z * A) :=
  merge_sort item_le (map_to_list m).

Lemma elem_of_map_items {A} (m : gmap Z A) k a :
  (k, a) ∈ map_items m <-> m !! k = Some a.
Proof.
  unfold map_items; rewrite (merge_sort_Permutation item_le).
  apply elem_of_map_to_list.
Qed.

Lemma map_items_perm {A} (m : gmap Z A) : map_items m ≡ₚ map_to_list m.
Proof. apply merge_sort_Permutation. Qed.

Lemma NoDup_map_items_keys {A} (m : gmap Z A) : NoDup (map_items m).*1.
Proof. rewrite map_items_perm. apply NoDup_fst_map_to_list. Qed.

Lemma length_map_items {A} (m : gmap Z A) : length (map_items m) = size m.
Proof. unfold map_items; by rewrite (merge_sort_Permutation item_le), length_map_to_list. Qed.

Lemma map_items_sorted {A} (m : gmap Z A) : Sorted item_le (map_items m).
Proof.
  apply Sorted_merge_sort; intros x y; unfold item_le; lia.
Qed.

(** Items in the order of their keys are the items of their map. *)
Lemma map_items_sorted_list {A} (l : list (Z * A)) :
  StronglySorted Z.lt l.*1 -> map_items (list_to_map l) = l.
Proof.
  intros Hs. assert (NoDup l.*1) as Hnd.
  { clear -Hs. induction Hs as [|k ks _ IH Hall]; constructor; [|done].
    intros Hin. rewrite Forall_forall in Hall. specialize (Hall k Hin). lia. }
  assert (map_items (list_to_map (M := gmap Z A) l) ≡ₚ l) as Hp
    by (rewrite map_items_perm; by apply map_to_list_to_map).
  eapply (StronglySorted_unique_strong item_le); [| | |exact Hp].
  - intros [k a] [k' a'] Hx Hy Hle Hge. cbn in Hle, Hge. assert (k = k') as <- by (unfold item_le in *; cbn in *; lia).
    rewrite Hp in Hx. apply (elem_of_list_to_map_1 (M := gmap Z)) in Hx, Hy; [|done..]. congruence.
  - apply Sorted_StronglySorted; [|apply map_items_sorted]. intros x y z. unfold item_le. lia.
  - clear -Hs. induction l as [|[k a] l IH]; [constructor|]. cbn in Hs. apply StronglySorted_inv in Hs as [Hs Hall].
    constructor; [by apply IH|]. apply list.Forall_forall.
    intros [k' a'] Hin%(list_elem_of_fmap_2 fst). pose proof (proj1 (list.Forall_forall _ _) Hall _ Hin).
    unfold item_le. cbn in *. lia.
Qed.

(** [m[k]] on a [std::map] of containers: the missing entry is empty. *)
Definition at_or_empty {A} `{Empty A} (m : gmap Z A) (k : Z) : A := default ∅ (m !! k).

Lemma at_or_empty_insert {A} `{Empty A} (m : gmap Z A) k j a :
  at_or_empty (<[k := a]> m) j = if decide (k = j) then a else at_or_empty m j.
Proof. unfold at_or_empty; rewrite lookup_insert; by case_decide. Qed.

(** ** Vote counting *)

(** The members [1 .. n] of a chain. *)
Definition members (n : Z) : gset Z := list_to_set (seqZ 1 n).

Lemma elem_of_members n i : i ∈ members n <-> 1 <= i <= n.
Proof. unfold members; rewrite elem_of_list_to_set, elem_of_seqZ; lia. Qed.

Lemma size_members n : 0 <= n -> Z.of_nat (size (members n)) = n.
Proof.
  intros; unfold members; rewrite size_list_to_set by apply NoDup_seqZ.
  rewrite length_seqZ; lia.
Qed.

Definition zsize {A} `{Size A} (x : A) : Z := Z.of_nat (size x).

Lemma zsize_subseteq (X Y : gset Z) : X ⊆ Y -> zsize X <= zsize Y.
Proof. intros H%subseteq_size; unfold zsize; lia. Qed.

(** [accepts k i]: messages of member [k] are accepted under index [i].  The members
    of [byz] can speak under these indices only. *)
Definition speak_within (byz : gset Z) (accepts : Z -> Z -> Prop) (spoken : gset Z) : Prop :=
  byz ⊆ spoken /\ forall b i, b ∈ byz -> accepts b i -> i ∈ spoken.

(** Two vote sets of more than two thirds of [n] members share a vote outside
    any set of less than a third. *)
Lemma quorum_intersection (n : Z) (X Y F : gset Z) :
  0 <= n -> X ⊆ members n -> Y ⊆ members n ->
  2 * n < 3 * zsize X -> 2 * n < 3 * zsize Y -> 3 * zsize F < n ->
  exists i, i ∈ X /\ i ∈ Y /\ i ∉ F.
Proof.
  intros Hn HX HY HsX HsY HF.
  destruct (decide ((X ∩ Y) ⊆ F)) as [Hsub|Hnot].
  - exfalso. apply zsize_subseteq in Hsub.
    assert (zsize (X ∪ Y) <= n) as Hun.
    { rewrite <- (size_members n) by done. apply zsize_subseteq; set_solver. }
    pose proof (size_union_alt X Y) as Hu.
    pose proof (size_difference_alt Y X) as Hd.
    assert (Y ∩ X = X ∩ Y) as He by (apply set_eq; set_solver).
    rewrite He in Hd.
    unfold zsize in *; lia.
  - destruct (set_choose_or_empty ((X ∩ Y) ∖ F)) as [[i Hi]|He].
    + exists i; set_solver.
    + exfalso; apply Hnot; intros i Hi.
      destruct (decide (i ∈ F)); [done|set_solver].
Qed.

(** A vote set of more than a third of [n] has a vote outside any set of less
    than a third. *)
Lemma third_honest (n : Z) (X F : gset Z) :
  n < 3 * zsize X -> 3 * zsize F < n -> exists i, i ∈ X /\ i ∉ F.
Proof.
  intros HX HF; destruct (set_choose_or_empty (X ∖ F)) as [[i Hi]|He].
  - exists i; set_solver.
  - assert (X ⊆ F) as Hs%zsize_subseteq; [|lia].
    intros i Hi; destruct (decide (i ∈ F)); [done|set_solver].
Qed.
