(* ===== verification/Bytes.v ===== *)
(** * Bytes and decimal strings

    Little-endian machine words as byte lists ([le_bytes], [le_value]: the
    [memcpy] of an integer into a buffer and the [HASH_UPDATE] of an integer),
    and the decimal text of unsigned integers: [to_string] is
    [std::to_string], [stoull] is [std::stoull] with base 10.  The lemmas give
    the round trips and the unique decomposition of the [":"]-separated
    database keys. *)

From stdpp Require Import base tactics gmap list strings pretty numbers.
From Stdlib Require Import ZArith Lia Ascii.
From S2P Require Import Prelude.

(** ** Little-endian words *)

Fixpoint le_bytes (n : nat) (z : Z) : list Z :=
  match n with
  | O => []
  | S n => (z mod 256) :: le_bytes n (z / 256)
  end.

Fixpoint le_value (l : list Z) : Z :=
  match l with
  | [] => 0
  | b :: l => b + 256 * le_value l
  end.

Definition is_byte (b : Z) : Prop := 0 <= b < 256.

Lemma length_le_bytes n z : length (le_bytes n z) = n.
Proof. revert z; induction n; intros; cbn; auto. Qed.

Lemma le_value_bytes n z : le_value (le_bytes n z) = z mod 2 ^ (8 * Z.of_nat n).
Proof.
  revert z; induction n as [|n IH]; intros z; cbn [le_bytes le_value].
  - by rewrite Z.mod_1_r.
  - rewrite IH.
    replace (8 * Z.of_nat (S n)) with (8 + 8 * Z.of_nat n) by lia.
    rewrite Z.pow_add_r by lia. change (2 ^ 8) with 256.
    rewrite Z.rem_mul_r by lia. lia.
Qed.

Lemma le_bytes_value l : Forall is_byte l -> le_bytes (length l) (le_value l) = l.
Proof.
  induction 1 as [|b l Hb Hl IH]; cbn [length le_bytes le_value]; [done|].
  unfold is_byte in Hb.
  rewrite (Z.mul_comm 256), Z.mod_add, Z.div_add, Z.mod_small, Z.div_small by lia.
  by rewrite Z.add_0_l, IH.
Qed.

Lemma le_bytes_range n z : Forall is_byte (le_bytes n z).
Proof.
  revert z; induction n; intros; cbn [le_bytes]; constructor; auto.
  unfold is_byte; apply Z.mod_pos_bound; lia.
Qed.

Lemma le_value_range l :
  Forall is_byte l -> 0 <= le_value l < 2 ^ (8 * Z.of_nat (length l)).
Proof.
  induction 1 as [|b l Hb Hl IH]; cbn [length le_value]; [done|].
  replace (8 * Z.of_nat (S (length l))) with (8 + 8 * Z.of_nat (length l)) by lia.
  rewrite Z.pow_add_r by lia. change (2 ^ 8) with 256. unfold is_byte in Hb; lia.
Qed.

(** ** Characters *)

(** The bytes of a string, as [( unsigned char* ) v.data()] reads them. *)
Definition char_code (c : ascii) : Z := Z.of_N (N_of_ascii c).

Fixpoint string_bytes (s : string) : list Z :=
  match s with
  | EmptyString => []
  | String c s => char_code c :: string_bytes s
  end.

Fixpoint bytes_string (l : list Z) : string :=
  match l with
  | [] => EmptyString
  | b :: l => String (ascii_of_N (Z.to_N b)) (bytes_string l)
  end.

Lemma bytes_string_bytes s : bytes_string (string_bytes s) = s.
Proof.
  induction s as [|c s IH]; [done|]. cbn [string_bytes bytes_string].
  unfold char_code. by rewrite N2Z.id, ascii_N_embedding, IH.
Qed.

Lemma length_string_bytes s : length (string_bytes s) = String.length s.
Proof. induction s as [|c s IH]; cbn; auto. Qed.

Fixpoint has_char (c : ascii) (s : string) : bool :=
  match s with
  | EmptyString => false
  | String d s => Ascii.eqb c d || has_char c s
  end.

Lemma has_char_app c s t : has_char c (s +:+ t) = has_char c s || has_char c t.
Proof.
  induction s as [|d s IH]; [done|]. change (String d s +:+ t) with (String d (s +:+ t)).
  cbn [has_char]. by rewrite IH, orb_assoc.
Qed.

(** A prefix that ends at the first separator is determined by the text. *)
Lemma split_at_char c s s' t t' :
  has_char c s = false -> has_char c s' = false ->
  s +:+ String c t = s' +:+ String c t' -> s = s' /\ t = t'.
Proof.
  revert s'; induction s as [|d s IH]; intros [|d' s'] H H' E; cbn in *.
  - by inversion E.
  - inversion E; subst. by rewrite Ascii.eqb_refl in H'.
  - inversion E; subst. by rewrite Ascii.eqb_refl in H.
  - apply orb_false_iff in H as [_ H]; apply orb_false_iff in H' as [_ H'].
    inversion E; subst. by destruct (IH s') as [-> ->].
Qed.

(** ** Decimal text *)

Definition to_string (z : Z) : string := pretty (Z.to_N z).

Definition digit_value (c : ascii) : option Z :=
  let n := char_code c in
  if (48 <=? n) && (n <=? 57) then Some (n - 48) else None.

Fixpoint all_digits (s : string) : bool :=
  match s with
  | EmptyString => true
  | String c s => match digit_value c with Some _ => all_digits s | None => false end
  end.

(** The digits at the front of a string, accumulated onto [acc]; [seen] tells
    whether there was one. *)
Fixpoint read_digits (s : string) (acc : Z) (seen : bool) : Z * bool :=
  match s with
  | EmptyString => (acc, seen)
  | String c s =>
      match digit_value c with
      | Some d => read_digits s (10 * acc + d) true
      | None => (acc, seen)
      end
  end.

Definition is_space_code (n : Z) : bool := (n =? 32) || ((9 <=? n) && (n <=? 13)).

Fixpoint skip_spaces (s : string) : string :=
  match s with
  | String c s' => if is_space_code (char_code c) then skip_spaces s' else s
  | EmptyString => s
  end.

(** [std::stoull( s, NULL, 10 )]: leading white space, an optional sign, then
    digits; [std::invalid_argument] without digits, [std::out_of_range] above
    64 bits.  Both are caught as [...] by the callers. *)
Definition stoull (s : string) : res Z :=
  let s := skip_spaces s in
  let '(neg, s) :=
    match s with
    | String c s' =>
        if char_code c =? 45 then (true, s')
        else if char_code c =? 43 then (false, s') else (false, s)
    | EmptyString => (false, s)
    end in
  let '(v, seen) := read_digits s 0 false in
  if negb seen then Err InvalidArgumentException
  else if 2 ^ 64 <=? v then Err StdOutOfRange
  else Ok (if (neg : bool) then u64 (- v) else v).

Lemma pretty_char_digit x :
  (x < 10)%N -> digit_value (pretty_N_char x) = Some (Z.of_N x).
Proof. intros H. repeat (destruct x as [|x]; [try done|]); by repeat (destruct x as [x|x|]; try done). Qed.

Lemma all_digits_no_char c s :
  digit_value c = None -> all_digits s = true -> has_char c s = false.
Proof.
  intros Hc; induction s as [|d s IH]; cbn; [done|].
  destruct (digit_value d) eqn:E; [|done]. intros Hs; rewrite IH by done.
  destruct (Ascii.eqb_spec c d); [congruence|done].
Qed.

Lemma pretty_go_digits x s : all_digits s = true -> all_digits (pretty_N_go x s) = true.
Proof.
  revert s; induction (N.lt_wf_0 x) as [x _ IH]; intros s Hs.
  destruct (decide (x = 0)%N) as [->|Hx]; [by rewrite pretty_N_go_0|].
  rewrite pretty_N_go_step by lia. apply IH; [apply N.div_lt; lia|].
  cbn; rewrite pretty_char_digit by (apply N.mod_lt; done). done.
Qed.

Lemma to_string_digits z : all_digits (to_string z) = true.
Proof.
  unfold to_string, pretty, pretty_N; case_decide; [done|].
  by apply pretty_go_digits.
Qed.

Lemma to_string_no_colon z : has_char ":"%char (to_string z) = false.
Proof. apply all_digits_no_char; [done|apply to_string_digits]. Qed.

Lemma to_string_inj a b : 0 <= a -> 0 <= b -> to_string a = to_string b -> a = b.
Proof. unfold to_string; intros ?? H%(inj pretty); lia. Qed.

Lemma to_string_nonempty z : to_string z <> ""%string.
Proof.
  unfold to_string, pretty, pretty_N; case_decide; [done|].
  assert (forall x s, s <> ""%string -> pretty_N_go x s <> ""%string) as Hgo.
  { intros x; induction (N.lt_wf_0 x) as [x _ IH]; intros s Hs.
    destruct (decide (x = 0)%N) as [->|Hx]; [by rewrite pretty_N_go_0|].
    rewrite pretty_N_go_step by lia. apply IH; [apply N.div_lt; lia|done]. }
  rewrite pretty_N_go_step by lia. by apply Hgo.
Qed.

Lemma read_digits_pretty x s :
  forall acc, exists k,
    0 <= k /\
    read_digits (pretty_N_go x s) acc true = read_digits s (acc * 10 ^ k + Z.of_N x) true.
Proof.
  revert s; induction (N.lt_wf_0 x) as [x _ IH]; intros s acc.
  destruct (decide (x = 0)%N) as [->|Hx].
  { rewrite pretty_N_go_0. exists 0; split; [lia|]. f_equal; lia. }
  rewrite pretty_N_go_step by lia.
  destruct (IH (x `div` 10)%N ltac:(apply N.div_lt; lia)
    (String (pretty_N_char (x `mod` 10)) s) acc) as (k & Hk & Heq).
  exists (k + 1); split; [lia|]. rewrite Heq; cbn [read_digits].
  rewrite pretty_char_digit by (apply N.mod_lt; done). f_equal.
  rewrite Z.pow_add_r, N2Z.inj_mod, N2Z.inj_div by lia.
  pose proof (Z.div_mod (Z.of_N x) 10 ltac:(lia)) as Hdm.
  change (Z.of_N 10) with 10; change (10 ^ 1) with 10.
  rewrite (Z.mul_assoc acc). lia.
Qed.

Lemma read_digits_seen s acc :
  all_digits s = true -> s <> ""%string -> read_digits s acc false = read_digits s acc true.
Proof. destruct s as [|c s]; cbn; [done|]. by destruct (digit_value c). Qed.

Lemma read_digits_to_string z :
  0 <= z -> read_digits (to_string z) 0 false = (z, true).
Proof.
  intros Hz. rewrite read_digits_seen by (auto using to_string_digits, to_string_nonempty).
  unfold to_string, pretty, pretty_N; case_decide as Hd.
  - assert (z = 0) as -> by lia. done.
  - destruct (read_digits_pretty (Z.to_N z) "" 0) as (k & Hk & ->). cbn. f_equal; lia.
Qed.

Lemma digit_not_special c d :
  digit_value c = Some d ->
  is_space_code (char_code c) = false /\ (char_code c =? 45) = false /\
  (char_code c =? 43) = false.
Proof.
  unfold digit_value, is_space_code; intros H.
  destruct ((48 <=? char_code c) && (char_code c <=? 57)) eqn:E; [|done].
  split_and!; lia.
Qed.

(** The round trip of the counters stored in the databases. *)
Lemma stoull_to_string z : 0 <= z < 2 ^ 64 -> stoull (to_string z) = Ok z.
Proof.
  intros Hz. pose proof (to_string_digits z) as Hd.
  pose proof (read_digits_to_string z ltac:(lia)) as Hr. unfold stoull.
  destruct (to_string z) as [|c s] eqn:E; [by destruct (to_string_nonempty z)|].
  cbn [all_digits] in Hd. destruct (digit_value c) eqn:Hc; [|done].
  destruct (digit_not_special _ _ Hc) as (H1 & H2 & H3).
  cbn [skip_spaces]. rewrite H1, H2, H3, Hr. cbn [negb].
  rewrite (proj2 (Z.leb_gt _ _)) by lia. done.
Qed.

#[export] Hint Resolve to_string_no_colon to_string_nonempty to_string_digits
  le_bytes_range : cpp.

(** ** Colon-separated keys *)

(** [":" + a + ":" + b ...], the tail of a database key. *)
Fixpoint colon_join (l : list string) : string :=
  match l with
  | [] => ""
  | x :: l => ":" +:+ (x +:+ colon_join l)
  end.

Lemma string_app_nil_r (s : string) : s +:+ "" = s.
Proof.
  induction s as [|c s IH]; [done|].
  change (String c s +:+ "") with (String c (s +:+ "")). by rewrite IH.
Qed.

Definition no_colon (s : string) : Prop := has_char ":"%char s = false.

Lemma colon_join_head x y l l' :
  no_colon x -> no_colon y -> x +:+ colon_join l = y +:+ colon_join l' ->
  x = y /\ colon_join l = colon_join l'.
Proof.
  unfold no_colon. intros Hx Hy. destruct l as [|a l], l' as [|b l']; cbn [colon_join].
  - by rewrite !string_app_nil_r.
  - rewrite string_app_nil_r. intros ->. rewrite !has_char_app in Hx.
    by rewrite orb_true_r in Hx.
  - rewrite string_app_nil_r. intros <-. rewrite !has_char_app in Hy.
    by rewrite orb_true_r in Hy.
  - intros Heq.
    destruct (split_at_char ":"%char x y (a +:+ colon_join l) (b +:+ colon_join l') Hx Hy Heq)
      as [-> ->].
    done.
Qed.

Lemma colon_join_inj l l' :
  Forall no_colon l -> Forall no_colon l' -> colon_join l = colon_join l' -> l = l'.
Proof.
  revert l'. induction l as [|x l IH]; intros [|y l'] Hl Hl' Heq; try done.
  inversion_clear Hl as [|? ? Hx Hl0]. inversion_clear Hl' as [|? ? Hy Hl1].
  cbn [colon_join] in Heq.
  apply (inj (String.app ":")) in Heq.
  destruct (colon_join_head x y l l' Hx Hy Heq) as [-> Heq']. f_equal. auto.
Qed.

Lemma key_inj v l l' :
  Forall no_colon l -> Forall no_colon l' -> v +:+ colon_join l = v +:+ colon_join l' -> l = l'.
Proof. intros Hl Hl' Heq%(inj (String.app v)). by apply colon_join_inj. Qed.

(** A [string] up to its first zero byte, as C functions see it. *)
Fixpoint c_str (s : string) : string :=
  match s with
  | EmptyString => EmptyString
  | String c s => if char_code c =? 0 then EmptyString else String c (c_str s)
  end.

(** ** Tokens *)
Fixpoint pieces (sep : ascii) (s : string) : list string :=
  match s with
  | EmptyString => [EmptyString]
  | String c s =>
      if Ascii.eqb c sep then EmptyString :: pieces sep s
      else match pieces sep s with
           | p :: ps => String c p :: ps
           | [] => [String c EmptyString]
           end
  end.

(** [boost::tokenizer] with a [char_separator]: empty tokens are dropped. *)
Definition boost_tokens (sep : ascii) (s : string) : list string :=
  filter (fun t => t <> ""%string) (pieces sep s).

Lemma pieces_cons c x : exists p ps, pieces c x = p :: ps.
Proof.
  destruct x as [|d x]; cbn [pieces]; [by eauto|]. destruct (Ascii.eqb d c); [by eauto|].
  destruct (pieces c x); by eauto.
Qed.

Lemma pieces_app c x y : pieces c (x +:+ String c y) = pieces c x ++ pieces c y.
Proof.
  induction x as [|d x IH]; [cbn [pieces]|].
  - change ("" +:+ String c y) with (String c y). cbn [pieces]. by rewrite Ascii.eqb_refl.
  - change (String d x +:+ String c y) with (String d (x +:+ String c y)). cbn [pieces]. rewrite IH.
    destruct (Ascii.eqb d c); [done|]. by destruct (pieces_cons c x) as (p & ps & ->).
Qed.

Lemma tokenize_app c x y : boost_tokens c (x +:+ String c y) = boost_tokens c x ++ boost_tokens c y.
Proof. unfold boost_tokens. by rewrite pieces_app, list.filter_app. Qed.

Lemma pieces_clean c x : has_char c x = false -> pieces c x = [x].
Proof.
  induction x as [|d x IH]; [done|]. cbn. intros [Hd Hx]%orb_false_iff. rewrite Ascii.eqb_sym in Hd.
  by rewrite Hd, IH.
Qed.

(** A text that is a token as it is. *)
Definition token (c : ascii) (x : string) : Prop := x <> ""%string /\ has_char c x = false.

Lemma tokenize_token c x : token c x -> boost_tokens c x = [x].
Proof. intros [Hn Hc]. unfold boost_tokens. rewrite pieces_clean by done. by rewrite filter_cons_True. Qed.
