(* ===== verification/Messages.v ===== *)
(** * Messages

    The message types, origins, keys and envelopes of [src/messages] and
    [src/protocols] that the consensus components exchange. *)

From stdpp Require Import base tactics gmap list strings.
From Stdlib Require Import ZArith Lia.
From S2P Require Import Prelude Bytes.

Inductive MsgType :=
  | CHILD_COMPLETED
  | PARENT_COMPLETED
  | MSG_BVB_BROADCAST
  | MSG_AUX_BROADCAST
  | BIN_CONSENSUS_COMMIT
  | BIN_CONSENSUS_HISTORY_DECIDE
  | BIN_CONSENSUS_HISTORY_CC
  | BIN_CONSENSUS_HISTORY_BVSELF
  | BIN_CONSENSUS_HISTORY_AUXSELF
  | BIN_CONSENSUS_HISTORY_NEW_ROUND
  | MSG_BLOCK_CONSENSUS_INIT
  | MSG_CONSENSUS_PROPOSAL
  | MSG_BLOCK_SIGN_BROADCAST
  | MSG_BLOCK_PROPOSAL
  | MSG_BLOCK_COMMIT
  | MSG_DA_PROOF
  | MSG_ORACLE_REQ_BROADCAST
  | MSG_ORACLE_RSP.

#[export] Instance MsgType_eq_dec : EqDecision MsgType.
Proof. solve_decision. Defined.

(** The value of the enumerator. *)
Definition msg_type_code (t : MsgType) : Z :=
  match t with
  | CHILD_COMPLETED => 0
  | PARENT_COMPLETED => 1
  | MSG_BVB_BROADCAST => 2
  | MSG_AUX_BROADCAST => 3
  | BIN_CONSENSUS_COMMIT => 4
  | BIN_CONSENSUS_HISTORY_DECIDE => 5
  | BIN_CONSENSUS_HISTORY_CC => 6
  | BIN_CONSENSUS_HISTORY_BVSELF => 7
  | BIN_CONSENSUS_HISTORY_AUXSELF => 8
  | BIN_CONSENSUS_HISTORY_NEW_ROUND => 9
  | MSG_BLOCK_CONSENSUS_INIT => 10
  | MSG_CONSENSUS_PROPOSAL => 11
  | MSG_BLOCK_SIGN_BROADCAST => 12
  | MSG_BLOCK_PROPOSAL => 13
  | MSG_BLOCK_COMMIT => 14
  | MSG_DA_PROOF => 15
  | MSG_ORACLE_REQ_BROADCAST => 16
  | MSG_ORACLE_RSP => 17
  end.

Inductive MessageOrigin := ORIGIN_NETWORK | ORIGIN_PARENT | ORIGIN_CHILD | ORIGIN_EXTERNAL.

#[export] Instance MessageOrigin_eq_dec : EqDecision MessageOrigin.
Proof. solve_decision. Defined.

(** [ProtocolKey]: a block and the proposer the binary consensus is about. *)
Record ProtocolKey := { pk_blockID : Z; pk_blockProposerIndex : Z }.

#[export] Instance ProtocolKey_eq_dec : EqDecision ProtocolKey.
Proof. solve_decision. Defined.

(** [operator<] on protocol keys. *)
Definition ProtocolKey_lt (l r : ProtocolKey) : bool :=
  if negb (pk_blockID l =? pk_blockID r) then pk_blockID l <? pk_blockID r
  else pk_blockProposerIndex l <? pk_blockProposerIndex r.

(** [NetworkMessage] with the fields of its [Message] base class; [None] is a
    null [sigShare]. *)
Record NetworkMessage {share : Type} := {
  nm_type : MsgType;
  nm_schainID : Z;
  nm_msgID : Z;
  nm_blockID : Z;
  nm_blockProposerIndex : Z;
  nm_round : Z;
  nm_value : Z;
  nm_timeMs : Z;
  nm_srcSchainIndex : Z;
  nm_sigShare : option share
}.
Arguments NetworkMessage : clear implicits.

(** [MessageEnvelope] and its network and internal subclasses around a network
    message. *)
Record Envelope {share : Type} := {
  env_origin : MessageOrigin;
  env_message : NetworkMessage share;
  env_srcSchainIndex : Z;
  env_arrivalTime : Z
}.
Arguments Envelope : clear implicits.

(** [ChildBVDecidedMessage]: what a binary consensus reports to its parent. *)
Record ChildBVDecidedMessage := {
  cd_msgID : Z;
  cd_key : ProtocolKey;
  cd_value : bool;
  cd_round : Z;
  cd_maxProcessingTimeMs : Z;
  cd_maxLatencyTimeMs : Z
}.

(** [Message::createProtocolKey], with the caching of the key left out. *)
Definition createProtocolKey {share} (m : NetworkMessage share) : res ProtocolKey :=
  rcheck InvalidStateException
    (bool_decide (nm_type m ∈ [PARENT_COMPLETED; MSG_BVB_BROADCAST; MSG_AUX_BROADCAST;
      BIN_CONSENSUS_COMMIT; MSG_BLOCK_SIGN_BROADCAST; MSG_ORACLE_REQ_BROADCAST;
      MSG_ORACLE_RSP])) ;;
  rcheck InvalidStateException (0 <? nm_blockID m) ;;
  mret {| pk_blockID := nm_blockID m; pk_blockProposerIndex := nm_blockProposerIndex m |}.

(** The protocol keys are totally ordered, as [std::map] needs them. *)
Lemma ProtocolKey_lt_trichotomy k l :
  k = l \/ ProtocolKey_lt k l = true \/ ProtocolKey_lt l k = true.
Proof.
  destruct k as [a b], l as [c d]; unfold ProtocolKey_lt; cbn.
  destruct (Z.eqb_spec a c), (Z.eqb_spec c a); cbn; try lia; subst.
  destruct (Z.lt_trichotomy b d) as [?|[->|?]]; auto; right; lia.
Qed.
