(* ===== verification/BinConsensus.v ===== *)
(** * Binary consensus of one block proposal

    Model of [BinConsensusInstance] ([src/protocols/binconsensus]): the vote
    tables of a node, the processing of BVB and AUX messages and of the
    parent's proposal, the common coin, the decision lottery and the change of
    round.  A method is a state-and-exception computation on [bin_state]; what
    it sends is appended to [bs_out].

    Writes to the consensus state database and to the message history are
    compiled out ([CONSENSUS_STATE_PERSISTENCE] and [CONSENSUS_DEBUG] are
    undefined in every build file) and do not appear.  The missing entry of a
    vote table is the empty set ([operator[]] inserts one).  Rounds stay below
    [101], so the additions on them do not wrap. *)

From stdpp Require Import base tactics gmap list strings.
From Stdlib Require Import ZArith Lia.
From S2P Require Import Prelude Bytes Messages.

Definition COMMON_COIN_ROUND : Z := 4.

(** What the instance sees of its surroundings: the chain parameters, and the
    hash, BLS and SGX primitives, which live in libraries outside the
    repository (BLAKE3, libBLS, sgxwallet). *)
Record bin_env {share shareset : Type} := {
  be_nodeCount : Z;
  be_schainIndex : Z;
  be_schainID : Z;
  be_blockID : Z;
  be_blockProposerIndex : Z;
  be_isSgxEnabled : bool;
  be_isSyncOnlyNode : bool;
  be_blake3 : list Z -> list Z;
  be_verifyBlsSigShare : share -> list Z -> bool;
  be_signSigShare : list Z -> Z -> Z -> share;
  be_emptyShareSet : shareset;
  be_addSigShare : shareset -> share -> shareset;
  be_isEnough : shareset -> bool;
  be_mergeRandom : shareset -> Z
}.
Arguments bin_env : clear implicits.

(** What an instance does to the outside. *)
Inductive bin_event {share : Type} :=
  | EvBroadcast (m : NetworkMessage share)
  | EvDecided (d : ChildBVDecidedMessage).
Arguments bin_event : clear implicits.

Record bin_state {share : Type} := BinState {
  bs_maxProcessingTimeMs : Z;
  bs_maxLatencyTimeMs : Z;
  bs_messageCounter : Z;
  bs_proposals : gmap Z Z;
  bs_broadcastValues : gmap Z (gset Z);
  bs_isDecided : bool;
  bs_decidedValue : Z;
  bs_decidedRound : Z;
  bs_currentRound : Z;
  bs_bvbTrueVotes : gmap Z (gset Z);
  bs_bvbFalseVotes : gmap Z (gset Z);
  bs_auxTrueVotes : gmap Z (gmap Z (option share));
  bs_auxFalseVotes : gmap Z (gmap Z (option share));
  bs_binValues : gmap Z (gset Z);
  bs_out : list (bin_event share)
}.
Arguments bin_state : clear implicits.
Arguments BinState {share}.

(** The freshly constructed instance ([_initFromDB] does nothing without state
    persistence). *)
Definition bin_init {share} : bin_state share :=
  BinState 0 0 0 ∅ ∅ false 0 0 0 ∅ ∅ ∅ ∅ ∅ [].

(** ** Field updates *)
Section Updates.
Context {share : Type}.
Implicit Types s : bin_state share.

Definition set_stats (p l : Z) s : bin_state share :=
  BinState p l (bs_messageCounter s) (bs_proposals s) (bs_broadcastValues s) (bs_isDecided
    s) (bs_decidedValue s) (bs_decidedRound s) (bs_currentRound s) (bs_bvbTrueVotes s)
    (bs_bvbFalseVotes s) (bs_auxTrueVotes s) (bs_auxFalseVotes s) (bs_binValues s) (bs_out s).
Definition set_counter (c : Z) s : bin_state share :=
  BinState (bs_maxProcessingTimeMs s) (bs_maxLatencyTimeMs s) c (bs_proposals s)
    (bs_broadcastValues s) (bs_isDecided s) (bs_decidedValue s) (bs_decidedRound s)
    (bs_currentRound s) (bs_bvbTrueVotes s) (bs_bvbFalseVotes s) (bs_auxTrueVotes s)
    (bs_auxFalseVotes s) (bs_binValues s) (bs_out s).
Definition set_proposals (pr : gmap Z Z) s : bin_state share :=
  BinState (bs_maxProcessingTimeMs s) (bs_maxLatencyTimeMs s) (bs_messageCounter s) pr
    (bs_broadcastValues s) (bs_isDecided s) (bs_decidedValue s) (bs_decidedRound s)
    (bs_currentRound s) (bs_bvbTrueVotes s) (bs_bvbFalseVotes s) (bs_auxTrueVotes s)
    (bs_auxFalseVotes s) (bs_binValues s) (bs_out s).
Definition set_broadcastValues (bv : gmap Z (gset Z)) s : bin_state share :=
  BinState (bs_maxProcessingTimeMs s) (bs_maxLatencyTimeMs s) (bs_messageCounter s)
    (bs_proposals s) bv (bs_isDecided s) (bs_decidedValue s) (bs_decidedRound s)
    (bs_currentRound s) (bs_bvbTrueVotes s) (bs_bvbFalseVotes s) (bs_auxTrueVotes s)
    (bs_auxFalseVotes s) (bs_binValues s) (bs_out s).
Definition set_decided (d : bool) (dv dr : Z) s : bin_state share :=
  BinState (bs_maxProcessingTimeMs s) (bs_maxLatencyTimeMs s) (bs_messageCounter s)
    (bs_proposals s) (bs_broadcastValues s) d dv dr (bs_currentRound s) (bs_bvbTrueVotes s)
    (bs_bvbFalseVotes s) (bs_auxTrueVotes s) (bs_auxFalseVotes s) (bs_binValues s) (bs_out s).
Definition set_round (cr : Z) s : bin_state share :=
  BinState (bs_maxProcessingTimeMs s) (bs_maxLatencyTimeMs s) (bs_messageCounter s)
    (bs_proposals s) (bs_broadcastValues s) (bs_isDecided s) (bs_decidedValue s)
    (bs_decidedRound s) cr (bs_bvbTrueVotes s) (bs_bvbFalseVotes s) (bs_auxTrueVotes s)
    (bs_auxFalseVotes s) (bs_binValues s) (bs_out s).
Definition set_bvb (bt bf : gmap Z (gset Z)) s : bin_state share :=
  BinState (bs_maxProcessingTimeMs s) (bs_maxLatencyTimeMs s) (bs_messageCounter s)
    (bs_proposals s) (bs_broadcastValues s) (bs_isDecided s) (bs_decidedValue s)
    (bs_decidedRound s) (bs_currentRound s) bt bf (bs_auxTrueVotes s) (bs_auxFalseVotes s)
    (bs_binValues s) (bs_out s).
Definition set_aux (a f : gmap Z (gmap Z (option share))) s : bin_state share :=
  BinState (bs_maxProcessingTimeMs s) (bs_maxLatencyTimeMs s) (bs_messageCounter s)
    (bs_proposals s) (bs_broadcastValues s) (bs_isDecided s) (bs_decidedValue s)
    (bs_decidedRound s) (bs_currentRound s) (bs_bvbTrueVotes s) (bs_bvbFalseVotes s) a f
    (bs_binValues s) (bs_out s).
Definition set_binValues (bin : gmap Z (gset Z)) s : bin_state share :=
  BinState (bs_maxProcessingTimeMs s) (bs_maxLatencyTimeMs s) (bs_messageCounter s)
    (bs_proposals s) (bs_broadcastValues s) (bs_isDecided s) (bs_decidedValue s)
    (bs_decidedRound s) (bs_currentRound s) (bs_bvbTrueVotes s) (bs_bvbFalseVotes s)
    (bs_auxTrueVotes s) (bs_auxFalseVotes s) bin (bs_out s).
Definition emit (e : bin_event share) s : bin_state share :=
  BinState (bs_maxProcessingTimeMs s) (bs_maxLatencyTimeMs s) (bs_messageCounter s)
    (bs_proposals s) (bs_broadcastValues s) (bs_isDecided s) (bs_decidedValue s)
    (bs_decidedRound s) (bs_currentRound s) (bs_bvbTrueVotes s) (bs_bvbFalseVotes s)
    (bs_auxTrueVotes s) (bs_auxFalseVotes s) (bs_binValues s) (bs_out s ++ [e]).
End Updates.

(** ** The methods *)
Section BinConsensusInstance.
Context {share shareset : Type}.
(** The surroundings and the reading of [Time::getCurrentTimeMs] during the
    call. *)
Context (E : bin_env share shareset) (now : Z).

Local Abbreviation state := (bin_state share).
Local Abbreviation message := (NetworkMessage share).

(** [explicit operator bool] of [bin_consensus_value], a [uint8_t]. *)
Definition truthy (v : Z) : bool := negb (v =? 0).

(** [bin_consensus_value( b )]. *)
Definition bin_value (b : bool) : Z := if b then 1 else 0.

Definition bvbVotes (s : state) (v r : Z) : gset Z :=
  at_or_empty (if truthy v then bs_bvbTrueVotes s else bs_bvbFalseVotes s) r.

Definition auxVotes (s : state) (v r : Z) : gmap Z (option share) :=
  at_or_empty (if truthy v then bs_auxTrueVotes s else bs_auxFalseVotes s) r.

Definition binValuesAt (s : state) (r : Z) : gset Z := at_or_empty (bs_binValues s) r.

Definition broadcastAt (s : state) (r : Z) : gset Z := at_or_empty (bs_broadcastValues s) r.

(** *** Thresholds *)
Definition isThird (count : Z) : bool := be_nodeCount E <? u64 (count * 3).

Definition isTwoThird (count : Z) : bool := u64 (2 * be_nodeCount E) <? u64 (count * 3).

Definition getBVBVoteCount (v r : Z) : M state Z := gets (fun s => zsize (bvbVotes s v r)).

Definition getAUXVoteCount (v r : Z) : M state Z := gets (fun s => zsize (auxVotes s v r)).

Definition totalAUXVotes (r : Z) : M state Z :=
  gets (fun s => u64 (zsize (auxVotes s 1 r) + zsize (auxVotes s 0 r))).

Definition isThirdVote (m : message) : M state bool :=
  c ← getBVBVoteCount (nm_value m) (nm_round m); mret (isThird c).

Definition isTwoThirdVote (m : message) : M state bool :=
  c ← getBVBVoteCount (nm_value m) (nm_round m); mret (isTwoThird c).

(** *** Votes *)
Definition add_bvb (r v index : Z) (s : state) : state :=
  let votes := {[index]} ∪ bvbVotes s v r in
  if truthy v then set_bvb (<[r := votes]> (bs_bvbTrueVotes s)) (bs_bvbFalseVotes s) s
  else set_bvb (bs_bvbTrueVotes s) (<[r := votes]> (bs_bvbFalseVotes s)) s.

Definition bvbVoteCore (r v index : Z) : M state bool :=
  s ← get;
  modify (add_bvb r v index) ;;
  mret (bool_decide (index ∉ bvbVotes s v r)).

Definition bvbVote (me : Envelope share) : M state bool :=
  let m := env_message me in
  bvbVoteCore (nm_round m) (nm_value m) (env_srcSchainIndex me).

(** [map::insert] keeps the entry that is already there. *)
Definition add_aux (r v index : Z) (sigShare : option share) (s : state) : state :=
  let votes :=
    match auxVotes s v r !! index with
    | Some _ => auxVotes s v r
    | None => <[index := sigShare]> (auxVotes s v r)
    end in
  if truthy v then set_aux (<[r := votes]> (bs_auxTrueVotes s)) (bs_auxFalseVotes s) s
  else set_aux (bs_auxTrueVotes s) (<[r := votes]> (bs_auxFalseVotes s)) s.

Definition auxVoteCore (r v index : Z) (sigShare : option share) : M state bool :=
  (if COMMON_COIN_ROUND <=? r then CHECK_STATE (bool_decide (is_Some sigShare))
   else CHECK_STATE (bool_decide (sigShare = None))) ;;
  s ← get;
  modify (add_aux r v index sigShare) ;;
  mret (bool_decide (auxVotes s v r !! index = None)).

Definition getCommonCoinHash (m : message) : list Z :=
  be_blake3 E (le_bytes 8 (nm_blockProposerIndex m) ++ le_bytes 8 (nm_round m) ++
    le_bytes 8 (nm_blockID m) ++ le_bytes 8 (nm_schainID m) ++
    le_bytes 4 (msg_type_code (nm_type m))).

(** [CryptoManager::verifyThresholdSigShare]: only BLS shares are checked. *)
Definition verifyThresholdSigShare (sigShare : share) (hash : list Z) : res unit :=
  rcheck InvalidStateException (negb (be_isSyncOnlyNode E)) ;;
  rnested_all InvalidStateException
    (if be_isSgxEnabled E
     then rcheck InvalidStateException (be_verifyBlsSigShare E sigShare hash)
     else mret tt).

Definition auxVote (me : Envelope share) : M state bool :=
  let m := env_message me in
  let r := nm_round m in
  nested_all InvalidStateException
    (sigShare ←
       (if COMMON_COIN_ROUND <=? r then
          match nm_sigShare m with
          | None => throw InvalidStateException
          | Some sh =>
              lift_res (verifyThresholdSigShare sh (getCommonCoinHash m)) ;;
              mret (Some sh)
          end
        else mret None);
     auxVoteCore r (nm_value m) (env_srcSchainIndex me) sigShare).

Definition auxSelfVote (r v : Z) (sigShare : option share) : M state unit :=
  auxVoteCore r v (be_schainIndex E) sigShare ;; mret tt.

(** *** Sending *)
Definition createNetworkMessageID : M state Z :=
  s ← get;
  let id := u64 (bs_messageCounter s + 1) in
  modify (set_counter id) ;;
  mret id.

Definition mkBVBroadcastMessage (r v : Z) : M state message :=
  id ← createNetworkMessageID;
  mret {| nm_type := MSG_BVB_BROADCAST; nm_schainID := be_schainID E; nm_msgID := id;
          nm_blockID := be_blockID E; nm_blockProposerIndex := be_blockProposerIndex E;
          nm_round := r; nm_value := v; nm_timeMs := now;
          nm_srcSchainIndex := be_schainIndex E; nm_sigShare := None |}.

(** The message is signed over the hash of its own fields from the common
    coin round on. *)
Definition mkAUXBroadcastMessage (r v : Z) : M state message :=
  id ← createNetworkMessageID;
  let m := {| nm_type := MSG_AUX_BROADCAST; nm_schainID := be_schainID E; nm_msgID := id;
              nm_blockID := be_blockID E; nm_blockProposerIndex := be_blockProposerIndex E;
              nm_round := r; nm_value := v; nm_timeMs := now;
              nm_srcSchainIndex := be_schainIndex E; nm_sigShare := None |} in
  mret {| nm_type := nm_type m; nm_schainID := nm_schainID m; nm_msgID := nm_msgID m;
          nm_blockID := nm_blockID m; nm_blockProposerIndex := nm_blockProposerIndex m;
          nm_round := r; nm_value := v; nm_timeMs := now;
          nm_srcSchainIndex := nm_srcSchainIndex m;
          nm_sigShare :=
            if COMMON_COIN_ROUND <=? r
            then Some (be_signSigShare E (getCommonCoinHash m) (be_blockID E) r)
            else None |}.

Definition networkBroadcastValue (m : message) : M state unit :=
  let v := nm_value m in
  let r := nm_round m in
  s ← get;
  if bool_decide (v ∈ broadcastAt s r) then mret tt
  else
    newMsg ← mkBVBroadcastMessage r v;
    modify (emit (EvBroadcast newMsg)) ;;
    modify (fun s => set_broadcastValues
      (<[r := {[bin_value (v =? 1)]} ∪ broadcastAt s r]> (bs_broadcastValues s)) s).

Definition networkBroadcastValueIfThird (m : message) : M state unit :=
  b ← isThirdVote m;
  when b (networkBroadcastValue m).

Definition auxSelfVoteAndBroadcastValue (r v : Z) : M state unit :=
  m ← mkAUXBroadcastMessage r v;
  (if COMMON_COIN_ROUND <=? r then
     match nm_sigShare m with
     | Some sh => auxSelfVote r v (Some sh)
     | None => throw InvalidStateException
     end
   else auxSelfVote r v None) ;;
  modify (emit (EvBroadcast m)).

(** *** Bin values, proposals, rounds *)
Definition insertIntoBinValues (r v : Z) : M state unit :=
  modify (fun s => set_binValues (<[r := {[v]} ∪ binValuesAt s r]> (bs_binValues s)) s).

Definition setProposal (r v : Z) : M state unit :=
  modify (fun s => set_proposals (<[r := v]> (bs_proposals s)) s).

Definition setCurrentRound (r : Z) : M state unit := modify (set_round r).

Definition setDecidedRoundAndValue (r v : Z) : M state unit := modify (set_decided true v r).

(** *** The common coin *)
Fixpoint addSigShares (set : shareset) (items : list (Z * option share)) : res shareset :=
  match items with
  | [] => Ok set
  | (_, None) :: _ => Err InvalidStateException
  | (_, Some sh) :: items =>
      let set := be_addSigShare E set sh in
      if be_isEnough E set then Ok set else addSigShares set items
  end.

Definition calculateBLSRandom (r : Z) : M state Z :=
  s ← get;
  let bin := binValuesAt s r in
  shares ← lift_res
    (if bool_decide (1 ∈ bin) && (0 <? zsize (auxVotes s 1 r))
     then addSigShares (be_emptyShareSet E) (map_items (auxVotes s 1 r))
     else Ok (be_emptyShareSet E));
  shares ← lift_res
    (if bool_decide (0 ∈ bin) && (0 <? zsize (auxVotes s 0 r))
     then addSigShares shares (map_items (auxVotes s 0 r))
     else Ok shares);
  CHECK_STATE (be_isEnough E shares) ;;
  mret (be_mergeRandom E shares).

(** The first eight bytes of the hash of ["block:round:proposer"]. *)
Definition hashRandom (r : Z) : Z :=
  let key := (to_string (be_blockID E) +:+ ":" +:+ to_string r +:+ ":" +:+
    to_string (be_blockProposerIndex E))%string in
  le_value (take 8 (be_blake3 E (string_bytes key))).

Definition computeRandom (r : Z) : M state Z :=
  if be_isSgxEnabled E && (COMMON_COIN_ROUND <=? r) then calculateBLSRandom r
  else mret (hashRandom r).

(** [_random % 2 == 0]. *)
Definition coin_value (random : Z) : bool := random mod 2 =? 0.

(** *** The decision *)
Definition decide_ (v : Z) : M state unit :=
  s ← get;
  CHECK_STATE (negb (bs_isDecided s)) ;;
  setDecidedRoundAndValue (bs_currentRound s) v ;;
  id ← createNetworkMessageID;
  s ← get;
  modify (emit (EvDecided
    {| cd_msgID := id;
       cd_key := {| pk_blockID := be_blockID E;
                    pk_blockProposerIndex := be_blockProposerIndex E |};
       cd_value := truthy v;
       cd_round := bs_currentRound s;
       cd_maxProcessingTimeMs := bs_maxProcessingTimeMs s;
       cd_maxLatencyTimeMs := bs_maxLatencyTimeMs s |})).

(** The methods between [proceedWithNextRound] and
    [addToBinValuesIfTwoThirds] call each other; [rec] stands for the call
    back to [addToBinValuesIfTwoThirds], tied by the fixpoint below. *)
Section Lottery.
Variable rec : message -> M state unit.

Definition proceedWithNextRound (value : Z) : M state unit :=
  s ← get;
  CHECK_STATE (bs_currentRound s <? 100) ;;
  total ← totalAUXVotes (bs_currentRound s);
  CHECK_STATE (isTwoThird total) ;;
  setCurrentRound (bs_currentRound s + 1) ;;
  s ← get;
  setProposal (bs_currentRound s) value ;;
  m ← mkBVBroadcastMessage (bs_currentRound s) value;
  networkBroadcastValue m ;;
  fresh ← bvbVoteCore (nm_round m) (nm_value m) (be_schainIndex E);
  if (fresh : bool) then rec m else mret tt.

Definition playDecisionLottery (hasTrue hasFalse : bool) (random : Z) : M state unit :=
  s ← get;
  CHECK_STATE (negb (bs_isDecided s)) ;;
  let common_coin_value := bin_value (coin_value random) in
  if hasTrue && hasFalse then proceedWithNextRound common_coin_value
  else
    let v := bin_value hasTrue in
    if v =? common_coin_value then decide_ v else proceedWithNextRound v.

Definition proceedWithDecisionLotteryIfAUXTwoThird (r : Z) : M state unit :=
  s ← get;
  if bs_isDecided s then mret tt
  else
    CHECK_STATE (r =? bs_currentRound s) ;;
    let hasTrue := bool_decide (1 ∈ binValuesAt s r) && (0 <? zsize (auxVotes s 1 r)) in
    let hasFalse := bool_decide (0 ∈ binValuesAt s r) && (0 <? zsize (auxVotes s 0 r)) in
    let verifiedValuesSize :=
      u64 ((if hasTrue then zsize (auxVotes s 1 r) else 0) +
           (if hasFalse then zsize (auxVotes s 0 r) else 0)) in
    when (isTwoThird verifiedValuesSize)
      (randomN ← computeRandom r;
       playDecisionLottery hasTrue hasFalse randomN).

Definition addToBinValuesBody (m : message) : M state unit :=
  let r := nm_round m in
  let v := nm_value m in
  s ← get;
  if bool_decide (v ∈ binValuesAt s r) then mret tt
  else
    b ← isTwoThirdVote m;
    when b
      (insertIntoBinValues r v ;;
       s ← get;
       let didAUXBroadcast := 1 <? zsize (binValuesAt s r) in
       when (negb didAUXBroadcast) (auxSelfVoteAndBroadcastValue r v) ;;
       s ← get;
       when (r =? bs_currentRound s) (proceedWithDecisionLotteryIfAUXTwoThird r)).
End Lottery.

Fixpoint addToBinValuesIfTwoThirds (fuel : nat) (m : message) : M state unit :=
  match fuel with
  | O => throw OutOfFuel
  | S fuel => addToBinValuesBody (addToBinValuesIfTwoThirds fuel) m
  end.

(** A call chain changes round at most 100 times ([CHECK_STATE(
    getCurrentRound() < 100 )]), so this fuel is never used up. *)
Definition round_fuel : nat := 101.

Local Abbreviation tied := (addToBinValuesIfTwoThirds round_fuel).

Definition ifAlreadyDecidedSendDelayedEstimateForNextRound (round : Z) : M state unit :=
  s ← get;
  total ← totalAUXVotes (bs_currentRound s);
  when (bs_isDecided s && (round =? bs_currentRound s + 1) && isTwoThird total)
    (proceedWithNextRound tied (bs_decidedValue s)).

(** *** Message processing *)
Definition updateStats (me : Envelope share) : M state unit :=
  s ← get;
  let processingTime := u64 (now - env_arrivalTime me) in
  let maxP := if bs_maxProcessingTimeMs s <? processingTime then processingTime
              else bs_maxProcessingTimeMs s in
  let latencyTime := Z.max 0 (env_arrivalTime me - nm_timeMs (env_message me)) in
  let maxL := if bs_maxLatencyTimeMs s <? latencyTime then latencyTime
              else bs_maxLatencyTimeMs s in
  modify (set_stats maxP maxL).

Definition processNetworkMessageImpl (me : Envelope share) : M state unit :=
  let m := env_message me in
  updateStats me ;;
  s ← get;
  CHECK_STATE (nm_round m <=? bs_currentRound s + 1) ;;
  match nm_type m with
  | MSG_BVB_BROADCAST =>
      fresh ← bvbVote me;
      if (fresh : bool) then
        networkBroadcastValueIfThird m ;;
        ifAlreadyDecidedSendDelayedEstimateForNextRound (nm_round m) ;;
        tied m
      else mret tt
  | MSG_AUX_BROADCAST =>
      fresh ← auxVote me;
      if (fresh : bool) then
        s ← get;
        when (nm_round m =? bs_currentRound s)
          (proceedWithDecisionLotteryIfAUXTwoThird tied (nm_round m))
      else mret tt
  | _ => mret tt
  end.

Definition processParentProposal (me : Envelope share) : M state unit :=
  let m := env_message me in
  CHECK_STATE (nm_round m =? 0) ;;
  setProposal (nm_round m) (nm_value m) ;;
  networkBroadcastValue m ;;
  bvbVote me ;;
  tied m.

Definition processMessage (me : Envelope share) : M state unit :=
  let m := env_message me in
  CHECK_STATE (nm_blockID m =? be_blockID E) ;;
  CHECK_STATE (nm_blockProposerIndex m =? be_blockProposerIndex E) ;;
  match env_origin me with
  | ORIGIN_NETWORK =>
      match nm_type m with
      | MSG_BVB_BROADCAST | MSG_AUX_BROADCAST => processNetworkMessageImpl me
      | _ => mret tt
      end
  | ORIGIN_PARENT => processParentProposal me
  | _ => mret tt
  end.
End BinConsensusInstance.
