(* ===== verification/BinSpec.v ===== *)
(** * The binary consensus protocol and its refinement

    [bin_step] is the protocol of Mostefaoui, Hamouna and Raynal as the source
    comments cite it, one rule per numbered line: which votes a node may
    record, when it may broadcast a value, accept it into its bin values, send
    its AUX message, change its round and decide.  The theorems show that
    every run of the modelled message handlers, exceptional ones included, is
    a sequence of protocol steps, and that the fuel of the handlers is never
    used up. *)

From stdpp Require Import base tactics gmap list strings relations.
From Stdlib Require Import ZArith Lia.
From S2P Require Import Prelude Bytes Messages BinConsensus.

Section BinSpec.
Context {share shareset : Type}.
Context (E : bin_env share shareset).

Local Abbreviation state := (bin_state share).
Local Abbreviation message := (NetworkMessage share).
Implicit Types (s : state) (m : message) (r v i : Z).

(** The hash that the shares of round [r] sign. *)
Definition coin_hash (r : Z) : list Z :=
  be_blake3 E (le_bytes 8 (be_blockProposerIndex E) ++ le_bytes 8 r ++
    le_bytes 8 (be_blockID E) ++ le_bytes 8 (be_schainID E) ++
    le_bytes 4 (msg_type_code MSG_AUX_BROADCAST)).

(** From the common coin round on a stored share is present and, with SGX,
    verified. *)
Definition share_ok (r : Z) (sh : option share) : Prop :=
  COMMON_COIN_ROUND <= r ->
  exists x, sh = Some x /\
    (be_isSgxEnabled E = true -> be_verifyBlsSigShare E x (coin_hash r) = true).

Definition random_is s r x : Prop := (computeRandom E r s).1 = Ok x.

Definition two_thirds_aux s v r : Prop := isTwoThird E (zsize (auxVotes s v r)) = true.
Definition two_thirds_bvb s v r : Prop := isTwoThird E (zsize (bvbVotes s v r)) = true.

(** Section 4.2, lines (07)-(10): the value for the next round. *)
Inductive next_estimate s v : Prop :=
  | ne_both x :
      bs_isDecided s = false ->
      1 ∈ binValuesAt s (bs_currentRound s) -> 0 ∈ binValuesAt s (bs_currentRound s) ->
      random_is s (bs_currentRound s) x -> v = bin_value (coin_value x) ->
      next_estimate s v
  | ne_single :
      bs_isDecided s = false -> v = 0 \/ v = 1 ->
      v ∈ binValuesAt s (bs_currentRound s) -> two_thirds_aux s v (bs_currentRound s) ->
      next_estimate s v
  | ne_decided :
      bs_isDecided s = true -> v = bs_decidedValue s -> next_estimate s v.

Definition is_bvb_of m r v : Prop :=
  nm_type m = MSG_BVB_BROADCAST /\ nm_round m = r /\ nm_value m = v /\
  nm_srcSchainIndex m = be_schainIndex E /\ nm_blockID m = be_blockID E /\
  nm_blockProposerIndex m = be_blockProposerIndex E /\ nm_schainID m = be_schainID E.

Definition is_aux_of m r v : Prop :=
  nm_type m = MSG_AUX_BROADCAST /\ nm_round m = r /\ nm_value m = v /\
  nm_srcSchainIndex m = be_schainIndex E /\ nm_blockID m = be_blockID E /\
  nm_blockProposerIndex m = be_blockProposerIndex E /\ nm_schainID m = be_schainID E.

Definition insert_bin r v s : state :=
  set_binValues (<[r := {[v]} ∪ binValuesAt s r]> (bs_binValues s)) s.

Definition enter_round v s : state :=
  set_proposals (<[bs_currentRound s + 1 := v]> (bs_proposals s))
    (set_round (bs_currentRound s + 1) s).

Definition mark_broadcast r v s : state :=
  set_broadcastValues
    (<[r := {[bin_value (v =? 1)]} ∪ broadcastAt s r]> (bs_broadcastValues s)) s.

(** [own v]: the parent may propose [v]; [inp src m]: the message [m] may
    arrive from [src]. *)
Inductive bin_step (own : Z -> Prop) (inp : Z -> message -> Prop) : state -> state -> Prop :=
  | bst_stats s p l : bin_step own inp s (set_stats p l s)
  | bst_counter s c : bin_step own inp s (set_counter c s)
  | bst_recv_bvb s src m :
      inp src m -> nm_type m = MSG_BVB_BROADCAST ->
      bin_step own inp s (add_bvb (nm_round m) (nm_value m) src s)
  | bst_recv_aux s src m sh :
      inp src m -> nm_type m = MSG_AUX_BROADCAST -> share_ok (nm_round m) sh ->
      bin_step own inp s (add_aux (nm_round m) (nm_value m) src sh s)
  | bst_propose s v :
      own v ->
      bin_step own inp s (set_proposals (<[0 := v]> (bs_proposals s)) s)
  | bst_enter s v :
      bs_currentRound s < 100 -> next_estimate s v -> bin_step own inp s (enter_round v s)
  | bst_self_vote s r v :
      bs_proposals s !! r = Some v ->
      bin_step own inp s (add_bvb r v (be_schainIndex E) s)
  | bst_broadcast s r v m :
      bs_proposals s !! r = Some v \/ isThird E (zsize (bvbVotes s v r)) = true ->
      v ∉ broadcastAt s r -> is_bvb_of m r v ->
      bin_step own inp s (mark_broadcast r v (emit (EvBroadcast m) s))
  | bst_bin s r v :
      v ∉ binValuesAt s r -> binValuesAt s r <> ∅ -> two_thirds_bvb s v r ->
      bin_step own inp s (insert_bin r v s)
  | bst_bin_first s r v m sh :
      binValuesAt s r = ∅ -> two_thirds_bvb s v r -> is_aux_of m r v -> share_ok r sh ->
      bin_step own inp s
        (emit (EvBroadcast m) (add_aux r v (be_schainIndex E) sh (insert_bin r v s)))
  | bst_decide s v x d :
      bs_isDecided s = false -> v ∈ binValuesAt s (bs_currentRound s) ->
      two_thirds_aux s v (bs_currentRound s) -> random_is s (bs_currentRound s) x ->
      v = bin_value (coin_value x) ->
      cd_value d = truthy v -> cd_round d = bs_currentRound s ->
      cd_key d = {| pk_blockID := be_blockID E;
                    pk_blockProposerIndex := be_blockProposerIndex E |} ->
      bin_step own inp s
        (emit (EvDecided d) (set_decided true v (bs_currentRound s) s)).

Lemma bin_step_mono (O O' : Z -> Prop) (P Q : Z -> message -> Prop) s s' :
  (forall v, O v -> O' v) -> (forall i m, P i m -> Q i m) ->
  bin_step O P s s' -> bin_step O' Q s s'.
Proof. intros HO HPQ H; destruct H; econstructor; eauto. Qed.

Lemma rtc_bin_step_mono (O O' : Z -> Prop) (P Q : Z -> message -> Prop) s s' :
  (forall v, O v -> O' v) -> (forall i m, P i m -> Q i m) ->
  rtc (bin_step O P) s s' -> rtc (bin_step O' Q) s s'.
Proof.
  intros HO HPQ; induction 1; econstructor; eauto using bin_step_mono.
Qed.

(** ** The handlers refine the protocol *)
Section Refinement.
Context (now : Z) (own : Z -> Prop) (inp : Z -> message -> Prop).
(** The enclave's shares verify ([sgxwallet] signs with the key that the
    chain registered). *)
Context (sign_ok : forall hash b r,
  be_verifyBlsSigShare E (be_signSigShare E hash b r) hash = true).

Local Abbreviation steps := (rtc (bin_step own inp)).

Definition fuel_ok (fuel : nat) s : Prop :=
  1 <= Z.of_nat fuel /\ 101 - bs_currentRound s <= Z.of_nat fuel.

(** Postcondition of a method: protocol steps from [s0], and no shortage
    of fuel. *)
Definition refines (s0 : state) (ok : Prop) {A} (res_ : res A) s : Prop :=
  steps s0 s /\ (ok -> res_ <> Err OutOfFuel).

Lemma u64_mul3 x : u64 (u64 x * 3) = u64 (x * 3).
Proof. unfold u64, wrap. by rewrite Zmult_mod_idemp_l. Qed.

Lemma isTwoThird_u64 x : isTwoThird E (u64 x) = isTwoThird E x.
Proof. unfold isTwoThird; by rewrite u64_mul3. Qed.

Lemma isTwoThird_0 : isTwoThird E 0 = false.
Proof. unfold isTwoThird. pose proof (u64_range (2 * be_nodeCount E)). change (u64 (0 * 3)) with 0. lia. Qed.

Lemma networkBroadcastValue_refines m s s0 :
  steps s0 s ->
  bs_proposals s !! nm_round m = Some (nm_value m) \/
    isThird E (zsize (bvbVotes s (nm_value m) (nm_round m))) = true ->
  wp (networkBroadcastValue E now m) s (fun (r : res unit) s' =>
    steps s0 s' /\ r = Ok tt /\ bs_currentRound s' = bs_currentRound s /\
    bs_isDecided s' = bs_isDecided s /\ bs_decidedValue s' = bs_decidedValue s /\
    bs_proposals s' = bs_proposals s).
Proof.
  intros Hst Hg. unfold networkBroadcastValue, mkBVBroadcastMessage, createNetworkMessageID.
  wp_simpl. apply wp_if; split; intros Hb; wp_simpl; cbn.
  { split_and!; done. }
  apply bool_decide_eq_false in Hb.
  split_and!; [|done..].
  eapply rtc_r; [eapply rtc_r; [exact Hst|apply (bst_counter _ _ _ (u64 (bs_messageCounter s + 1)))]|].
  match goal with |- bin_step _ _ ?a ?b => change b with
    (mark_broadcast (nm_round m) (nm_value m)
      (emit (EvBroadcast {| nm_type := MSG_BVB_BROADCAST; nm_schainID := be_schainID E;
        nm_msgID := u64 (bs_messageCounter s + 1); nm_blockID := be_blockID E;
        nm_blockProposerIndex := be_blockProposerIndex E; nm_round := nm_round m;
        nm_value := nm_value m; nm_timeMs := now; nm_srcSchainIndex := be_schainIndex E;
        nm_sigShare := None |}) a)) end.
  apply bst_broadcast; [exact Hg|exact Hb|]. by split_and!.
Qed.

Lemma add_bvb_frame r v i s :
  bs_currentRound (add_bvb r v i s) = bs_currentRound s /\
  bs_isDecided (add_bvb r v i s) = bs_isDecided s /\
  bs_decidedValue (add_bvb r v i s) = bs_decidedValue s /\
  bs_proposals (add_bvb r v i s) = bs_proposals s.
Proof. unfold add_bvb; by destruct (truthy v). Qed.

Lemma add_aux_frame r v i sh s :
  bs_currentRound (add_aux r v i sh s) = bs_currentRound s /\
  bs_isDecided (add_aux r v i sh s) = bs_isDecided s.
Proof. unfold add_aux; by destruct (truthy v). Qed.

(** What the recursive call of [addToBinValuesIfTwoThirds] must satisfy. *)
Definition rec_ok (fuel : nat) (rec : message -> M state unit) : Prop :=
  forall m s s0, steps s0 s -> wp (rec m) s (refines s0 (fuel_ok fuel s)).

Lemma proceedWithNextRound_refines fuel rec v s s0 :
  rec_ok fuel rec -> steps s0 s -> next_estimate s v ->
  wp (proceedWithNextRound E now rec v) s (refines s0 (fuel_ok (S fuel) s)).
Proof.
  intros Hrec Hst Hne.
  unfold proceedWithNextRound, totalAUXVotes, setCurrentRound, setProposal.
  wp_simpl; split; intros Hcur; [|by split].
  split; intros _; [|by split].
  unfold mkBVBroadcastMessage at 1, createNetworkMessageID at 1. wp_simpl.
  cbn [set_round bs_currentRound].
  match goal with |- wp _ ?x _ => set (s1 := x) end.
  assert (steps s0 s1) as Hst1.
  { assert (steps s0 (enter_round v s)) as Hst0.
    { eapply rtc_r; [exact Hst|]. apply (bst_enter _ _ _ v); [lia|done]. }
    eapply rtc_r; [exact Hst0|]. exact (bst_counter _ _ _ (u64 (bs_messageCounter s + 1))). }
  assert (bs_proposals s1 !! (bs_currentRound s + 1) = Some v) as Hp
    by apply lookup_insert_eq.
  eapply wp_mono; [apply networkBroadcastValue_refines; [exact Hst1|by left]|].
  cbv beta; intros r s2 (Hst2 & -> & Hc2 & _ & _ & Hp2).
  unfold bvbVoteCore. wp_simpl.
  set (s3 := add_bvb _ _ _ s2). cbn in s3.
  assert (steps s0 s3) as Hst3.
  { eapply rtc_r; [exact Hst2|]. apply bst_self_vote. by rewrite Hp2. }
  destruct (bool_decide _); wp_simpl; [|by split].
  eapply wp_mono; [apply (Hrec _ _ s0 Hst3)|].
  intros r s4 [Hst4 Hf]; split; [done|]. intros [Hf1 Hf2]; apply Hf.
  assert (bs_currentRound s3 = bs_currentRound s + 1) as Hc3.
  { unfold s3. rewrite (proj1 (add_bvb_frame _ _ _ _)), Hc2. done. }
  split; lia.
Qed.

Lemma computeRandom_pure r s : (computeRandom E r s).2 = s.
Proof.
  unfold computeRandom. case_match; [|done]. unfold calculateBLSRandom.
  cbv [mbind M_bind get lift_res check mret M_ret throw].
  repeat case_match; simplify_eq/=; done.
Qed.

Lemma computeRandom_fuel r s : (computeRandom E r s).1 <> Err OutOfFuel.
Proof.
  assert (forall set items, addSigShares E set items <> Err OutOfFuel) as Ha.
  { intros set items; revert set; induction items as [|[k [sh|]] items IH];
      intros set; cbn; [done| |done]. by case_match. }
  unfold computeRandom. case_match; [|done]. unfold calculateBLSRandom.
  cbv [mbind M_bind get lift_res check mret M_ret throw].
  repeat case_match; simplify_eq/=; try done; intros [= ->];
    by match goal with H : addSigShares _ _ _ = _ |- _ => apply Ha in H end.
Qed.

Lemma wp_computeRandom r s Q :
  (forall x, random_is s r x -> Q (Ok x) s) ->
  (forall e, e <> OutOfFuel -> Q (Err e) s) -> wp (computeRandom E r) s Q.
Proof.
  intros Hok Herr. unfold wp. rewrite computeRandom_pure.
  pose proof (computeRandom_fuel r s). unfold random_is in Hok.
  destruct ((computeRandom E r s).1) as [x|e]; [by apply Hok|].
  apply Herr; congruence.
Qed.

Lemma decide_refines v x s s0 ok :
  steps s0 s -> bs_isDecided s = false -> v ∈ binValuesAt s (bs_currentRound s) ->
  two_thirds_aux s v (bs_currentRound s) -> random_is s (bs_currentRound s) x ->
  v = bin_value (coin_value x) ->
  wp (decide_ E v) s (refines s0 ok).
Proof.
  intros Hst Hd Hb Ha Hr Hv.
  unfold decide_, setDecidedRoundAndValue, createNetworkMessageID. wp_simpl.
  split; intros; [|by split]. split; [|done].
  set (d := {| cd_msgID := u64 (bs_messageCounter s + 1);
    cd_key := {| pk_blockID := be_blockID E;
                 pk_blockProposerIndex := be_blockProposerIndex E |};
    cd_value := truthy v; cd_round := bs_currentRound s;
    cd_maxProcessingTimeMs := bs_maxProcessingTimeMs s;
    cd_maxLatencyTimeMs := bs_maxLatencyTimeMs s |}).
  assert (steps s0 (emit (EvDecided d) (set_decided true v (bs_currentRound s) s)))
    as Hst1 by (eapply rtc_r; [exact Hst|by eapply bst_decide]).
  eapply rtc_r; [exact Hst1|].
  exact (bst_counter _ _ _ (u64 (bs_messageCounter s + 1))).
Qed.

Lemma playDecisionLottery_refines fuel rec s s0 (hasTrue hasFalse : bool) x :
  rec_ok fuel rec -> steps s0 s -> bs_isDecided s = false ->
  random_is s (bs_currentRound s) x ->
  (hasTrue = true -> 1 ∈ binValuesAt s (bs_currentRound s)) ->
  (hasFalse = true -> 0 ∈ binValuesAt s (bs_currentRound s)) ->
  isTwoThird E ((if hasTrue then zsize (auxVotes s 1 (bs_currentRound s)) else 0) +
    (if hasFalse then zsize (auxVotes s 0 (bs_currentRound s)) else 0)) = true ->
  wp (playDecisionLottery E now rec hasTrue hasFalse x) s
    (refines s0 (fuel_ok (S fuel) s)).
Proof.
  intros Hrec Hst Hd Hr HT HF H23. unfold playDecisionLottery.
  wp_simpl; split; intros _; [|by split].
  destruct (hasTrue && hasFalse) eqn:Hboth.
  { apply andb_true_iff in Hboth as [-> ->].
    apply proceedWithNextRound_refines; [done..|].
    by apply ne_both with x; auto. }
  assert (bin_value hasTrue ∈ binValuesAt s (bs_currentRound s) /\
    two_thirds_aux s (bin_value hasTrue) (bs_currentRound s)) as [Hb Ha].
  { unfold two_thirds_aux. destruct hasTrue, hasFalse; cbn in *; try done.
    - rewrite Z.add_0_r in H23; auto.
    - rewrite Z.add_0_l in H23; auto.
    - change (0 + 0) with 0 in H23. by rewrite isTwoThird_0 in H23. }
  destruct (Z.eqb_spec (bin_value hasTrue) (bin_value (coin_value x))) as [Heq|Hne].
  - by apply decide_refines with x.
  - apply proceedWithNextRound_refines; [done..|].
    apply ne_single; auto. destruct hasTrue; auto.
Qed.

Lemma proceedWithDecisionLottery_refines fuel rec r s s0 :
  rec_ok fuel rec -> steps s0 s ->
  wp (proceedWithDecisionLotteryIfAUXTwoThird E now rec r) s
    (refines s0 (fuel_ok (S fuel) s)).
Proof.
  intros Hrec Hst. unfold proceedWithDecisionLotteryIfAUXTwoThird. wp_simpl.
  destruct (bs_isDecided s) eqn:Hd; wp_simpl; [by split|].
  split; intros Hcr; [|by split]. apply Z.eqb_eq in Hcr as ->.
  split; intros H23; [|by split]. rewrite isTwoThird_u64 in H23.
  apply wp_computeRandom; [|by split; [|congruence]].
  intros x Hx. apply playDecisionLottery_refines; try done;
    intros [H%bool_decide_eq_true _]%andb_true_iff; done.
Qed.

Lemma coin_hash_own r v id src :
  getCommonCoinHash E {| nm_type := MSG_AUX_BROADCAST; nm_schainID := be_schainID E;
    nm_msgID := id; nm_blockID := be_blockID E;
    nm_blockProposerIndex := be_blockProposerIndex E; nm_round := r; nm_value := v;
    nm_timeMs := now; nm_srcSchainIndex := src; nm_sigShare := None |} = coin_hash r.
Proof. done. Qed.

(** The first bin value of a round: its AUX message is sent and counted. *)
Lemma auxSelfVote_refines r v s s0 :
  steps s0 s -> binValuesAt s r = ∅ -> two_thirds_bvb s v r ->
  wp (auxSelfVoteAndBroadcastValue E now r v) (insert_bin r v s)
    (fun res_ s' => steps s0 s' /\ res_ = Ok tt /\
       bs_currentRound s' = bs_currentRound s /\ bs_isDecided s' = bs_isDecided s).
Proof.
  intros Hst Hb H23.
  unfold auxSelfVoteAndBroadcastValue, mkAUXBroadcastMessage, createNetworkMessageID.
  wp_simpl. cbn [nm_sigShare]. rewrite coin_hash_own.
  assert (steps s0 (set_counter (u64 (bs_messageCounter s + 1)) s)) as Hst1
    by (eapply rtc_r; [exact Hst|apply bst_counter]).
  assert (forall m sh, is_aux_of m r v -> share_ok r sh ->
    steps s0 (emit (EvBroadcast m) (add_aux r v (be_schainIndex E) sh
      (set_counter (u64 (bs_messageCounter (insert_bin r v s) + 1))
        (insert_bin r v s))))) as Hgo.
  { intros m sh Hm Hsh. eapply rtc_r; [exact Hst1|].
    exact (bst_bin_first own inp (set_counter (u64 (bs_messageCounter s + 1)) s)
      r v m sh Hb H23 Hm Hsh). }
  destruct (COMMON_COIN_ROUND <=? r) eqn:Hr; unfold auxSelfVote, auxVoteCore;
    rewrite Hr; wp_simpl;
    (rewrite bool_decide_eq_true_2 by eauto; split; [intros _|done]); wp_simpl;
    (split_and!; [|done| |]; [|by cbn; rewrite (proj1 (add_aux_frame _ _ _ _ _))
                             |by cbn; rewrite (proj2 (add_aux_frame _ _ _ _ _))]).
  - apply Hgo; [by split_and!|]. intros _. eexists; split; [done|]. intros _; apply sign_ok.
  - apply Hgo; [by split_and!|]. unfold share_ok; lia.
Qed.

Lemma addToBinValuesBody_refines fuel rec m s s0 :
  rec_ok fuel rec -> steps s0 s ->
  wp (addToBinValuesBody E now rec m) s (refines s0 (fuel_ok (S fuel) s)).
Proof.
  intros Hrec Hst. unfold addToBinValuesBody. wp_simpl.
  case_bool_decide as Hin; wp_simpl; [by split|].
  unfold isTwoThirdVote, getBVBVoteCount. wp_simpl. split; intros H23; [|by split].
  unfold insertIntoBinValues. wp_simpl.
  change (set_binValues _ s) with (insert_bin (nm_round m) (nm_value m) s).
  set (r := nm_round m) in *; set (v := nm_value m) in *.
  assert (binValuesAt (insert_bin r v s) r = {[v]} ∪ binValuesAt s r) as Hbin.
  { unfold binValuesAt, insert_bin; cbn. rewrite at_or_empty_insert. by case_decide. }
  rewrite Hbin.
  assert (zsize ({[v]} ∪ binValuesAt s r) = 1 + zsize (binValuesAt s r)) as Hsz.
  { unfold zsize. rewrite size_union, size_singleton by set_solver. lia. }
  rewrite Hsz. destruct (decide (binValuesAt s r = ∅)) as [He|Hne].
  - rewrite He. replace (1 <? 1 + zsize ∅) with false by done. cbn [negb].
    split; [intros _|done].
    eapply wp_mono; [by apply (auxSelfVote_refines r v s s0)|].
    cbv beta; intros res_ s1 (Hst1 & -> & Hc1 & Hd1). wp_simpl.
    split; intros Hcr; [|by split].
    eapply wp_mono; [by apply (proceedWithDecisionLottery_refines fuel)|].
    intros r' s2 [? Hf]; split; [done|]. intros Hfu; apply Hf.
    unfold fuel_ok in *. by rewrite Hc1.
  - assert (0 < zsize (binValuesAt s r)) as Hpos.
    { unfold zsize. assert (size (binValuesAt s r) <> 0%nat); [|lia].
      intros Hz%size_empty_inv. apply Hne. by apply leibniz_equiv. }
    rewrite (proj2 (Z.ltb_lt _ _)) by lia. cbn [negb].
    split; [done|intros _]. wp_simpl.
    assert (steps s0 (insert_bin r v s)) as Hst1
      by (eapply rtc_r; [exact Hst|by apply bst_bin]).
    split; intros Hcr; [|by split].
    exact (proceedWithDecisionLottery_refines fuel rec r _ _ Hrec Hst1).
Qed.

Lemma addToBinValues_refines fuel : rec_ok fuel (addToBinValuesIfTwoThirds E now fuel).
Proof.
  induction fuel as [|fuel IH]; intros m s s0 Hst; cbn [addToBinValuesIfTwoThirds].
  - wp_simpl. split; [done|]. unfold fuel_ok; lia.
  - by apply addToBinValuesBody_refines.
Qed.

Lemma step_round_mono O P s s' : bin_step O P s s' -> bs_currentRound s <= bs_currentRound s'.
Proof.
  destruct 1; cbn; rewrite ?(proj1 (add_bvb_frame _ _ _ _)),
    ?(proj1 (add_aux_frame _ _ _ _ _)); cbn; lia.
Qed.

Lemma steps_round_mono O P s s' :
  rtc (bin_step O P) s s' -> bs_currentRound s <= bs_currentRound s'.
Proof. induction 1 as [|? ? ? H%step_round_mono]; lia. Qed.

Lemma fuel_ok_round s : 0 <= bs_currentRound s -> fuel_ok round_fuel s.
Proof. unfold fuel_ok, round_fuel; lia. Qed.

(** The postcondition of a whole handler run from [s0]. *)
Definition handled (s0 : state) {A} (res_ : res A) s : Prop :=
  refines s0 (0 <= bs_currentRound s0) res_ s.

Lemma tied_refines m s s0 :
  steps s0 s -> wp (addToBinValuesIfTwoThirds E now round_fuel m) s (handled s0).
Proof.
  intros Hst. eapply wp_mono; [by apply addToBinValues_refines|].
  intros r s' [? Hf]; split; [done|]. intros; apply Hf, fuel_ok_round.
  apply steps_round_mono in Hst; lia.
Qed.

Lemma ifAlreadyDecided_refines r s s0 :
  steps s0 s ->
  wp (ifAlreadyDecidedSendDelayedEstimateForNextRound E now r) s (handled s0).
Proof.
  intros Hst. unfold ifAlreadyDecidedSendDelayedEstimateForNextRound, totalAUXVotes.
  wp_simpl. split; intros Hb; [|by split].
  apply andb_true_iff in Hb as [[Hd _]%andb_true_iff _].
  eapply wp_mono; [apply (proceedWithNextRound_refines round_fuel);
    [apply addToBinValues_refines|done|by apply ne_decided]|].
  intros r' s' [? Hf]; split; [done|]. intros; apply Hf.
  apply steps_round_mono in Hst. unfold fuel_ok, round_fuel; lia.
Qed.

Lemma auxVote_refines me s s0 :
  steps s0 s -> inp (env_srcSchainIndex me) (env_message me) ->
  nm_type (env_message me) = MSG_AUX_BROADCAST ->
  nm_schainID (env_message me) = be_schainID E ->
  nm_blockID (env_message me) = be_blockID E ->
  nm_blockProposerIndex (env_message me) = be_blockProposerIndex E ->
  wp (auxVote E me) s (fun (q : res bool) s' => steps s0 s' /\ q <> Err OutOfFuel).
Proof.
  intros Hst Hin Ht Hsc Hbi Hpi. set (m := env_message me) in *.
  assert (getCommonCoinHash E m = coin_hash (nm_round m)) as Hhash.
  { unfold getCommonCoinHash, coin_hash. by rewrite Hsc, Hbi, Hpi, Ht. }
  assert (forall sh, share_ok (nm_round m) sh ->
    steps s0 (add_aux (nm_round m) (nm_value m) (env_srcSchainIndex me) sh s)) as Hgo.
  { intros sh Hsh. eapply rtc_r; [exact Hst|]. by apply bst_recv_aux. }
  unfold auxVote, auxVoteCore. fold m. wp_simpl.
  destruct (COMMON_COIN_ROUND <=? nm_round m) eqn:Hr; wp_simpl.
  - destruct (nm_sigShare m) as [sh|]; wp_simpl; [|by split].
    rewrite Hhash. unfold verifyThresholdSigShare.
    destruct (be_isSyncOnlyNode E); [by split|]. cbn.
    destruct (be_isSgxEnabled E) eqn:Hsgx; cbn;
      [destruct (be_verifyBlsSigShare E sh _) eqn:Hv; cbn; [|by split]|];
      wp_simpl; (split; [|done]);
      apply Hgo; intros _; exists sh; split; [done| |done|]; congruence.
  - rewrite bool_decide_eq_true_2 by done. split; [intros _|done]. wp_simpl.
    split; [|done]. apply Hgo. unfold share_ok; lia.
Qed.

Lemma processNetworkMessage_refines me s s0 :
  steps s0 s -> inp (env_srcSchainIndex me) (env_message me) ->
  nm_schainID (env_message me) = be_schainID E ->
  nm_blockID (env_message me) = be_blockID E ->
  nm_blockProposerIndex (env_message me) = be_blockProposerIndex E ->
  wp (processNetworkMessageImpl E now me) s (handled s0).
Proof.
  intros Hst Hin Hsc Hbi Hpi. unfold processNetworkMessageImpl, updateStats. wp_simpl.
  match goal with |- context [set_stats ?p ?l s] =>
    assert (steps s0 (set_stats p l s)) as Hst1
      by (eapply rtc_r; [exact Hst|apply bst_stats]);
    set (s1 := set_stats p l s) in * end.
  split; intros Hround; [|by split].
  destruct (nm_type (env_message me)) eqn:Ht; try by (wp_simpl; split).
  - unfold bvbVote, bvbVoteCore. wp_simpl.
    assert (steps s0 (add_bvb (nm_round (env_message me)) (nm_value (env_message me))
      (env_srcSchainIndex me) s1)) as Hst2
      by (eapply rtc_r; [exact Hst1|by apply bst_recv_bvb]).
    set (s2 := add_bvb _ _ _ s1) in *.
    destruct (bool_decide _); wp_simpl; [|by split].
    unfold networkBroadcastValueIfThird, isThirdVote, getBVBVoteCount. wp_simpl.
    assert (forall s3, steps s0 s3 ->
      wp (ifAlreadyDecidedSendDelayedEstimateForNextRound E now
            (nm_round (env_message me)) ;;
          addToBinValuesIfTwoThirds E now round_fuel (env_message me)) s3 (handled s0))
      as Hk.
    { intros s3 Hst3. wp_simpl. eapply wp_mono; [by apply ifAlreadyDecided_refines|].
      intros [[]|e] s4 [Hst4 Hf]; [by apply tied_refines|split; [done|]].
      intros Hc [= ->]. by apply Hf. }
    split; intros Hth; [|exact (proj1 (wp_bind _ _ _ _) (Hk _ Hst2))].
    eapply wp_mono; [apply networkBroadcastValue_refines; [exact Hst2|by right]|].
    cbv beta; intros r s3 (Hst3 & -> & _). wp_simpl.
    exact (proj1 (wp_bind _ _ _ _) (Hk _ Hst3)).
  - wp_simpl. eapply wp_mono; [by eapply auxVote_refines|].
    cbv beta; intros [fresh|e] s2 [Hst2 Hf]; [|split; [done|congruence]].
    destruct fresh; wp_simpl; [|by split]. split; intros Hcr; [|by split].
    eapply wp_mono; [by apply (proceedWithDecisionLottery_refines round_fuel);
      [apply addToBinValues_refines|]|].
    intros r' s' [? Hf']; split; [done|]. intros; apply Hf'.
    apply steps_round_mono in Hst2. unfold fuel_ok, round_fuel; lia.
Qed.

Lemma processParentProposal_refines me s s0 :
  steps s0 s -> env_srcSchainIndex me = be_schainIndex E ->
  own (nm_value (env_message me)) ->
  wp (processParentProposal E now me) s (handled s0).
Proof.
  intros Hst Hsrc Hown. unfold processParentProposal, setProposal. wp_simpl.
  split; intros Hr; [|by split]. apply Z.eqb_eq in Hr. rewrite Hr.
  match goal with |- wp _ ?x _ => assert (steps s0 x) as Hst1
    by (eapply rtc_r; [exact Hst|by apply bst_propose]) end.
  eapply wp_mono; [apply networkBroadcastValue_refines; [exact Hst1|]|].
  { left; rewrite Hr; apply lookup_insert_eq. }
  cbv beta; intros r s2 (Hst2 & -> & _ & _ & _ & Hp2).
  unfold bvbVote, bvbVoteCore. wp_simpl. apply tied_refines.
  eapply rtc_r; [exact Hst2|]. rewrite Hsrc. apply bst_self_vote.
  rewrite Hp2, Hr. apply lookup_insert_eq.
Qed.
End Refinement.

(** The message that an envelope delivers. *)
Definition delivers (me : Envelope share) (i : Z) (m : message) : Prop :=
  env_origin me = ORIGIN_NETWORK /\ i = env_srcSchainIndex me /\ m = env_message me.

(** The value that an envelope of the parent proposes. *)
Definition proposes (me : Envelope share) (v : Z) : Prop :=
  env_origin me = ORIGIN_PARENT /\ v = nm_value (env_message me).

(** What the callers guarantee of an envelope: a network message carries the
    chain id ([NetworkMessage::parseMessage]), an internal one comes from the
    node itself ([InternalMessageEnvelope]). *)
Definition envelope_ok (me : Envelope share) : Prop :=
  (env_origin me = ORIGIN_NETWORK -> nm_schainID (env_message me) = be_schainID E) /\
  (env_origin me = ORIGIN_PARENT -> env_srcSchainIndex me = be_schainIndex E).

Definition sign_verifies : Prop := forall hash b r,
  be_verifyBlsSigShare E (be_signSigShare E hash b r) hash = true.

Lemma processMessage_steps now me s :
  sign_verifies -> envelope_ok me ->
  wp (processMessage E now me) s (fun (q : res unit) s' =>
    rtc (bin_step (proposes me) (delivers me)) s s' /\
    (0 <= bs_currentRound s -> q <> Err OutOfFuel)).
Proof.
  intros Hsign [Hnet Hpar]. unfold processMessage. wp_simpl.
  split; intros Hbi; [|by split]. split; intros Hpi; [|by split].
  apply Z.eqb_eq in Hbi, Hpi.
  destruct (env_origin me) eqn:Ho; wp_simpl; [| |by split..].
  - assert (wp (processNetworkMessageImpl E now me) s
      (handled (proposes me) (delivers me) s)) as Hw.
    { apply processNetworkMessage_refines; [exact Hsign|done|by split_and!|auto|done|done]. }
    destruct (nm_type (env_message me)); try exact Hw; by split.
  - apply processParentProposal_refines; [exact Hsign|done|auto|by split].
Qed.
End BinSpec.
