(* ===== verification/BinAgreement.v ===== *)
(** * Agreement of the binary consensus

    [n] nodes run the modelled [BinConsensusInstance]; fewer than a third of
    them are Byzantine and send anything.  The system steps deliver an
    envelope to an honest node and run [processMessage] on it, whatever the
    result.  The theorems: two honest nodes never decide different values for
    the same block and proposer, in whatever rounds they decide; a decision
    carries the value of the common coin and a value that an honest node
    supports; decisions are final. *)

From stdpp Require Import base tactics gmap list strings relations.
From Stdlib Require Import ZArith Lia.
From S2P Require Import Prelude Bytes Messages BinConsensus BinSpec.

(** ** How the protocol steps change the tables *)
Section Tables.
Context {share : Type}.
Implicit Types (s : bin_state share) (r v i : Z).

Lemma bvbVotes_add_bvb r v i s v' r' :
  bvbVotes (add_bvb r v i s) v' r' =
  if decide (truthy v = truthy v' /\ r = r') then {[i]} ∪ bvbVotes s v' r'
  else bvbVotes s v' r'.
Proof.
  unfold bvbVotes, add_bvb. case_decide as Hd.
  - destruct Hd as [Ht ->]. rewrite <- Ht.
    destruct (truthy v) eqn:Hv; cbn; rewrite at_or_empty_insert, decide_True by done;
      unfold bvbVotes; by rewrite Hv.
  - destruct (truthy v) eqn:Hv, (truthy v') eqn:Hv'; cbn; try done;
      rewrite at_or_empty_insert, decide_False by naive_solver; done.
Qed.

Lemma auxVotes_add_bvb r v i s v' r' : auxVotes (add_bvb r v i s) v' r' = auxVotes s v' r'.
Proof. unfold add_bvb; by destruct (truthy v). Qed.

Lemma add_bvb_rest r v i s :
  binValuesAt (add_bvb r v i s) = binValuesAt s /\ bs_out (add_bvb r v i s) = bs_out s /\
  bs_decidedRound (add_bvb r v i s) = bs_decidedRound s.
Proof. unfold add_bvb; by destruct (truthy v). Qed.

Lemma auxVotes_add_aux r v i sh s v' r' j :
  auxVotes (add_aux r v i sh s) v' r' !! j =
  if decide (truthy v = truthy v' /\ r = r' /\ i = j /\ auxVotes s v' r' !! j = None)
  then Some sh else auxVotes s v' r' !! j.
Proof.
  assert (auxVotes (add_aux r v i sh s) v' r' =
    if decide (truthy v = truthy v' /\ r = r') then
      match auxVotes s v' r' !! i with
      | Some _ => auxVotes s v' r' | None => <[i := sh]> (auxVotes s v' r') end
    else auxVotes s v' r') as ->.
  { unfold auxVotes, add_aux. case_decide as Hd.
    - destruct Hd as [Ht ->]. rewrite <- Ht.
      destruct (truthy v) eqn:Hv; cbn; rewrite at_or_empty_insert, decide_True by done;
        unfold auxVotes; by rewrite Hv.
    - destruct (truthy v) eqn:Hv, (truthy v') eqn:Hv'; cbn; try done;
        rewrite at_or_empty_insert, decide_False by naive_solver; done. }
  destruct (decide (truthy v = truthy v' /\ r = r')) as [Hd|Hd];
    [|by rewrite decide_False by naive_solver].
  destruct (decide (i = j)) as [<-|Hij].
  - destruct (auxVotes s v' r' !! i) eqn:Hl; cbn.
    + rewrite decide_False by naive_solver. done.
    + rewrite decide_True, lookup_insert_eq by naive_solver. done.
  - rewrite (decide_False (P := _ /\ _)) by naive_solver.
    destruct (auxVotes s v' r' !! i); [done|by rewrite lookup_insert_ne].
Qed.

Lemma bvbVotes_add_aux r v i sh s v' r' :
  bvbVotes (add_aux r v i sh s) v' r' = bvbVotes s v' r'.
Proof. unfold add_aux; by destruct (truthy v). Qed.

Lemma add_aux_rest r v i sh s :
  binValuesAt (add_aux r v i sh s) = binValuesAt s /\
  bs_out (add_aux r v i sh s) = bs_out s /\
  bs_decidedRound (add_aux r v i sh s) = bs_decidedRound s /\
  bs_decidedValue (add_aux r v i sh s) = bs_decidedValue s /\
  bs_proposals (add_aux r v i sh s) = bs_proposals s.
Proof. unfold add_aux; by destruct (truthy v). Qed.

Lemma binValuesAt_insert r v s r' :
  binValuesAt (insert_bin r v s) r' =
  if decide (r = r') then {[v]} ∪ binValuesAt s r' else binValuesAt s r'.
Proof.
  unfold binValuesAt, insert_bin; cbn. rewrite at_or_empty_insert.
  by case_decide; subst.
Qed.

(** The senders of a table of AUX votes. *)
Definition aux_senders s v r : gset Z := dom (auxVotes s v r).

Lemma zsize_aux_senders s v r : zsize (aux_senders s v r) = zsize (auxVotes s v r).
Proof. unfold zsize, aux_senders. by rewrite size_dom. Qed.

Lemma aux_senders_add_aux r v i sh s v' r' :
  aux_senders (add_aux r v i sh s) v' r' =
  if decide (truthy v = truthy v' /\ r = r') then {[i]} ∪ aux_senders s v' r'
  else aux_senders s v' r'.
Proof.
  apply set_eq; intros j. unfold aux_senders.
  rewrite elem_of_dom, auxVotes_add_aux.
  destruct (decide (truthy v = truthy v' /\ r = r')) as [Hd|Hd].
  - rewrite elem_of_union, elem_of_singleton, elem_of_dom.
    case_decide as Hc; [naive_solver|].
    destruct (auxVotes s v' r' !! j) eqn:Hl; [naive_solver|].
    split; [intros [? [=]]|]. intros [->|[? [=]]]. naive_solver.
  - rewrite elem_of_dom. case_decide; naive_solver.
Qed.

(** A state that has seen and done at least as much. *)
Record extends s s' : Prop := {
  ex_bvb : forall v r, bvbVotes s v r ⊆ bvbVotes s' v r;
  ex_aux : forall v r, aux_senders s v r ⊆ aux_senders s' v r;
  ex_bin : forall r, binValuesAt s r ⊆ binValuesAt s' r;
  ex_out : forall e, e ∈ bs_out s -> e ∈ bs_out s';
  ex_round : bs_currentRound s <= bs_currentRound s';
  ex_proposals : forall r v, 1 <= r <= bs_currentRound s ->
    bs_proposals s !! r = Some v -> bs_proposals s' !! r = Some v;
  ex_decided : bs_isDecided s = true ->
    bs_isDecided s' = true /\ bs_decidedValue s' = bs_decidedValue s /\
    bs_decidedRound s' = bs_decidedRound s
}.

Lemma extends_refl s : extends s s.
Proof. constructor; auto; lia. Qed.

Lemma extends_trans s1 s2 s3 : extends s1 s2 -> extends s2 s3 -> extends s1 s3.
Proof.
  intros [] []; constructor; intros; eauto; try lia; try (etrans; by eauto).
  - match goal with H : forall r v, _ -> bs_proposals s2 !! r = _ -> _ |- _ =>
      apply H; [lia|eauto] end.
  - naive_solver congruence.
Qed.

Lemma extends_add_bvb r v i s : extends s (add_bvb r v i s).
Proof.
  destruct (add_bvb_frame r v i s) as (? & ? & ? & ?), (add_bvb_rest r v i s) as (Hb & Ho & ?).
  constructor; intros;
    first [ congruence | lia | by rewrite Hb | split_and!; congruence
          | rewrite bvbVotes_add_bvb; case_decide; set_solver
          | unfold aux_senders; by rewrite auxVotes_add_bvb ].
Qed.

Lemma extends_add_aux r v i sh s : extends s (add_aux r v i sh s).
Proof.
  destruct (add_aux_frame r v i sh s) as (? & ?),
    (add_aux_rest r v i sh s) as (Hb & Ho & ? & ? & ?).
  constructor; intros;
    first [ congruence | lia | by rewrite Hb | split_and!; congruence
          | by rewrite bvbVotes_add_aux
          | rewrite aux_senders_add_aux; case_decide; set_solver ].
Qed.

Lemma extends_insert_bin r v s : extends s (insert_bin r v s).
Proof.
  constructor; intros; try done.
  rewrite binValuesAt_insert. case_decide; set_solver.
Qed.

Lemma extends_emit e s : extends s (emit e s).
Proof. constructor; intros; try done. apply elem_of_app; auto. Qed.

Lemma extends_set_proposals r v s :
  ~ (1 <= r <= bs_currentRound s) ->
  extends s (set_proposals (<[r := v]> (bs_proposals s)) s).
Proof.
  constructor; intros; try done. cbn. rewrite lookup_insert_ne; [done|lia].
Qed.
End Tables.

Lemma bin_step_extends {share shareset} (E : bin_env share shareset) own inp s s' :
  bin_step E own inp s s' -> extends s s'.
Proof.
  destruct 1.
  - by constructor.
  - by constructor.
  - apply extends_add_bvb.
  - apply extends_add_aux.
  - apply extends_set_proposals; lia.
  - constructor; intros; try done; cbn in *; [lia|].
    rewrite lookup_insert_ne; [done|lia].
  - apply extends_add_bvb.
  - eapply extends_trans; [apply extends_emit|unfold mark_broadcast; constructor; intros; cbn in *; try done].
  - apply extends_insert_bin.
  - eapply extends_trans; [apply extends_insert_bin|].
    eapply extends_trans; [apply extends_add_aux|apply extends_emit].
  - eapply extends_trans; [|apply extends_emit]. constructor; intros; try done.
    cbn in *; congruence.
Qed.


(** ** The invariant of one node *)
Section NodeInvariant.
Context {share shareset : Type}.
Context (E : bin_env share shareset).
Context (Hn : 0 < be_nodeCount E < 2 ^ 62).
Local Abbreviation n := (be_nodeCount E).
Implicit Types (s : bin_state share) (r v i : Z).

(** The share sets that [calculateBLSRandom] can build for round [r]: every
    share in them verified. *)
Inductive assembled (r : Z) : shareset -> Prop :=
  | asm_empty : assembled r (be_emptyShareSet E)
  | asm_add set sh :
      assembled r set -> be_verifyBlsSigShare E sh (coin_hash E r) = true ->
      assembled r (be_addSigShare E set sh).

Definition uses_bls r : bool := be_isSgxEnabled E && (COMMON_COIN_ROUND <=? r).

(** [c] is a value of the common coin of round [r]. *)
Definition coin_is r (c : bool) : Prop :=
  if uses_bls r
  then exists set, assembled r set /\ be_isEnough E set = true /\
         c = coin_value (be_mergeRandom E set)
  else c = coin_value (hashRandom E r).

(** Threshold BLS signatures are unique: whichever verified shares are
    merged, the signature, and so the random number, is the same. *)
Definition bls_unique : Prop := forall r set set',
  assembled r set -> assembled r set' ->
  be_isEnough E set = true -> be_isEnough E set' = true ->
  be_mergeRandom E set = be_mergeRandom E set'.

Lemma coin_is_unique r c c' : bls_unique -> coin_is r c -> coin_is r c' -> c = c'.
Proof.
  unfold coin_is; intros Hu; destruct (uses_bls r); [|congruence].
  intros (A & HA & EA & ->) (B & HB & EB & ->). by rewrite (Hu r A B).
Qed.

Definition quorum (X : gset Z) : Prop := 2 * n < 3 * zsize X.

Lemma zsize_members X : X ⊆ members n -> zsize X <= n.
Proof. intros HX%zsize_subseteq. unfold zsize in *. rewrite size_members in HX; lia. Qed.

Lemma isTwoThird_quorum X :
  X ⊆ members n -> isTwoThird E (zsize X) = true <-> quorum X.
Proof.
  intros HX%zsize_members. unfold isTwoThird, quorum.
  assert (0 <= zsize X) by (unfold zsize; lia).
  rewrite !u64_small by lia. lia.
Qed.

Lemma isThird_third X :
  X ⊆ members n -> isThird E (zsize X) = true -> n < 3 * zsize X.
Proof.
  intros HX%zsize_members. unfold isThird.
  assert (0 <= zsize X) by (unfold zsize; lia).
  rewrite !u64_small by lia. lia.
Qed.

Lemma quorum_subseteq X Y : X ⊆ Y -> quorum X -> quorum Y.
Proof. intros HX%zsize_subseteq. unfold quorum; lia. Qed.

Definition decision_ok s : Prop :=
  0 <= bs_decidedRound s <= bs_currentRound s /\
  (bs_decidedValue s = 0 \/ bs_decidedValue s = 1) /\
  bs_decidedValue s ∈ binValuesAt s (bs_decidedRound s) /\
  quorum (aux_senders s (bs_decidedValue s) (bs_decidedRound s)) /\
  coin_is (bs_decidedRound s) (truthy (bs_decidedValue s)).

(** Why a node carries [w] from round [r] into the next one. *)
Inductive justified s r w : Prop :=
  | just_votes :
      w = 0 \/ w = 1 -> w ∈ binValuesAt s r -> quorum (aux_senders s w r) ->
      justified s r w
  | just_coin :
      w = 0 \/ w = 1 -> w ∈ binValuesAt s r -> coin_is r (truthy w) -> justified s r w
  | just_decided :
      bs_isDecided s = true -> bs_decidedRound s <= r -> w = bs_decidedValue s ->
      justified s r w.

Definition sent s (t : MsgType) (m : NetworkMessage share) : Prop :=
  EvBroadcast m ∈ bs_out s /\ nm_type m = t.

(** The values that the parent may propose. *)
Context (own : Z -> Prop).

Record node_inv s : Prop := {
  ni_round : 0 <= bs_currentRound s <= 100;
  ni_bvb : forall v r, bvbVotes s v r ⊆ members n;
  ni_aux : forall v r, aux_senders s v r ⊆ members n;
  ni_share : forall v r j sh, auxVotes s v r !! j = Some sh -> share_ok E r sh;
  ni_bin : forall v r, v ∈ binValuesAt s r -> quorum (bvbVotes s v r);
  ni_aux_bin : forall m, sent s MSG_AUX_BROADCAST m -> binValuesAt s (nm_round m) <> ∅;
  ni_aux_one : forall m m', sent s MSG_AUX_BROADCAST m -> sent s MSG_AUX_BROADCAST m' ->
    nm_round m = nm_round m' -> nm_value m = nm_value m';
  ni_decided : bs_isDecided s = true -> decision_ok s;
  ni_estimate : forall r, 0 <= r < bs_currentRound s ->
    exists w, bs_proposals s !! (r + 1) = Some w /\ justified s r w;
  ni_future : forall r, bs_currentRound s < r -> 1 <= r -> bs_proposals s !! r = None;
  ni_first : forall r w, r < 1 -> bs_proposals s !! r = Some w -> own w
}.

Lemma justified_extends s s' r w : extends s s' -> justified s r w -> justified s' r w.
Proof.
  intros Hx [Hw Hb Hq|Hw Hb Hc|Hd Hr ->].
  - apply just_votes; [done|by apply (ex_bin _ _ Hx)|].
    eapply quorum_subseteq; [apply (ex_aux _ _ Hx)|done].
  - apply just_coin; [done|by apply (ex_bin _ _ Hx)|done].
  - destruct (ex_decided _ _ Hx Hd) as (? & ? & ?).
    apply just_decided; [done|congruence|congruence].
Qed.

Lemma decision_ok_extends s s' :
  extends s s' -> bs_isDecided s = true -> decision_ok s -> decision_ok s'.
Proof.
  intros Hx Hd (Hr & Hv & Hb & Hq & Hc).
  destruct (ex_decided _ _ Hx Hd) as (_ & Hval & Hrd). pose proof (ex_round _ _ Hx).
  unfold decision_ok. rewrite Hval, Hrd. split_and!; try done; try lia.
  - by apply (ex_bin _ _ Hx).
  - eapply quorum_subseteq; [apply (ex_aux _ _ Hx)|done].
Qed.

(** A random number of round [r] is a value of the coin. *)
Lemma addSigShares_assembled r set items set' :
  assembled r set -> COMMON_COIN_ROUND <= r -> be_isSgxEnabled E = true ->
  (forall k sh, (k, sh) ∈ items -> share_ok E r sh) ->
  addSigShares E set items = Ok set' -> assembled r set'.
Proof.
  intros Ha Hr Hsgx. revert set Ha.
  induction items as [|[k [sh|]] items IH]; intros set Ha Hok; cbn; [by intros [= <-]| |done].
  destruct (Hok k (Some sh)) as (x & [= <-] & Hv); [left|done|].
  assert (assembled r (be_addSigShare E set sh)) as Ha' by (apply asm_add; auto).
  case_match; [by intros [= <-]|]. apply IH; [done|]. intros; eapply Hok; right; eauto.
Qed.

Lemma random_is_coin s r x : node_inv s -> random_is E s r x -> coin_is r (coin_value x).
Proof.
  intros Hi. unfold random_is, computeRandom, coin_is, uses_bls.
  destruct (be_isSgxEnabled E && (COMMON_COIN_ROUND <=? r)) eqn:Hb; [|by intros [= <-]].
  apply andb_true_iff in Hb as [Hsgx Hr%Z.leb_le].
  assert (forall v k sh, (k, sh) ∈ map_items (auxVotes s v r) -> share_ok E r sh) as Hok.
  { intros v k sh Hk%elem_of_map_items. by eapply ni_share. }
  unfold calculateBLSRandom. cbv [mbind M_bind get lift_res check mret M_ret throw].
  destruct (if _ && _ then addSigShares _ _ _ else _) as [A|] eqn:HA; [|done].
  assert (assembled r A) as HasA.
  { revert HA. case_match; [|intros [= <-]; apply asm_empty].
    apply addSigShares_assembled; eauto using asm_empty. }
  destruct (if _ && _ then addSigShares _ A _ else _) as [B|] eqn:HB; [|done].
  assert (assembled r B) as HasB.
  { clear HA; revert HB. case_match; [|by intros [= <-]].
    apply addSigShares_assembled; eauto. }
  destruct (be_isEnough E B) eqn:He; [|done]. intros [= <-]. eauto.
Qed.

Lemma node_inv_init : node_inv bin_init.
Proof.
  assert (forall A (f : gmap Z A) r, f = ∅ -> f !! r = None) by (intros; subst; apply lookup_empty).
  constructor; cbn; intros; try lia; try done;
    unfold bvbVotes, aux_senders, auxVotes, binValuesAt, at_or_empty, sent in *; cbn in *;
    try (destruct (truthy _); rewrite ?lookup_empty in *; cbn in *; done || set_solver);
    try (rewrite lookup_empty in *; cbn in *; set_solver);
    try (destruct H0 as [?%elem_of_nil _]; done).
Qed.

Context (inp : Z -> NetworkMessage share -> Prop).
Context (Hinp : forall src m, inp src m -> src ∈ members n).
Context (Hself : be_schainIndex E ∈ members n).

Lemma step_bvb s s' v r :
  node_inv s -> bin_step E own inp s s' -> bvbVotes s' v r ⊆ members n.
Proof.
  intros Hi Hs. pose proof (ni_bvb _ Hi v r) as H.
  destruct Hs; try exact H;
    try (rewrite bvbVotes_add_bvb; case_decide; [|done]; set_solver).
  - by rewrite bvbVotes_add_aux.
  - change (bvbVotes (add_aux r0 v0 (be_schainIndex E) sh (insert_bin r0 v0 s)) v r
      ⊆ members n). by rewrite bvbVotes_add_aux.
Qed.

Lemma step_aux s s' v r :
  node_inv s -> bin_step E own inp s s' -> aux_senders s' v r ⊆ members n.
Proof.
  intros Hi Hs. pose proof (ni_aux _ Hi v r) as H.
  destruct Hs; try exact H;
    try (unfold aux_senders; rewrite auxVotes_add_bvb; exact H).
  - rewrite aux_senders_add_aux; case_decide; [|done]. set_solver.
  - change (aux_senders (add_aux r0 v0 (be_schainIndex E) sh (insert_bin r0 v0 s)) v r
      ⊆ members n). rewrite aux_senders_add_aux.
    change (aux_senders (insert_bin r0 v0 s) v r) with (aux_senders s v r).
    case_decide; [|done]. set_solver.
Qed.

Lemma step_share s s' v r j sh :
  node_inv s -> bin_step E own inp s s' -> auxVotes s' v r !! j = Some sh -> share_ok E r sh.
Proof.
  intros Hi Hs. pose proof (ni_share _ Hi v r j sh) as H.
  destruct Hs; try exact H; try (rewrite auxVotes_add_bvb; exact H).
  - rewrite auxVotes_add_aux; case_decide; naive_solver.
  - change (auxVotes (add_aux r0 v0 (be_schainIndex E) sh0 (insert_bin r0 v0 s)) v r !! j
      = Some sh -> share_ok E r sh).
    rewrite auxVotes_add_aux; case_decide; [naive_solver|exact H].
Qed.

Lemma step_bin s s' v r :
  node_inv s -> bin_step E own inp s s' -> v ∈ binValuesAt s' r -> quorum (bvbVotes s' v r).
Proof.
  intros Hi Hs Hv. pose proof (ni_bvb _ Hi v r) as Hm.
  destruct (decide (v ∈ binValuesAt s r)) as [Hold|Hnew].
  { eapply quorum_subseteq; [by eapply ex_bvb, bin_step_extends|by apply (ni_bin _ Hi)]. }
  destruct Hs; try (by destruct Hnew).
  - destruct (add_bvb_rest (nm_round m) (nm_value m) src s) as [Hb _].
    rewrite Hb in Hv. by destruct Hnew.
  - destruct (add_aux_rest (nm_round m) (nm_value m) src sh s) as [Hb _].
    rewrite Hb in Hv. by destruct Hnew.
  - destruct (add_bvb_rest r0 v0 (be_schainIndex E) s) as [Hb _].
    rewrite Hb in Hv. by destruct Hnew.
  - rewrite binValuesAt_insert in Hv. case_decide; [|by destruct Hnew]. subst r0.
    assert (v = v0) as -> by set_solver. by apply isTwoThird_quorum.
  - change (v ∈ binValuesAt (add_aux r0 v0 (be_schainIndex E) sh (insert_bin r0 v0 s)) r)
      in Hv.
    change (quorum (bvbVotes (add_aux r0 v0 (be_schainIndex E) sh (insert_bin r0 v0 s)) v r)).
    destruct (add_aux_rest r0 v0 (be_schainIndex E) sh (insert_bin r0 v0 s)) as [Hb _].
    rewrite Hb, binValuesAt_insert in Hv. case_decide; [|by destruct Hnew]. subst r0.
    assert (v = v0) as -> by set_solver. rewrite bvbVotes_add_aux. by apply isTwoThird_quorum.
Qed.

(** The AUX messages that a step sends. *)
Lemma step_sent_aux s s' m :
  bin_step E own inp s s' -> sent s' MSG_AUX_BROADCAST m ->
  sent s MSG_AUX_BROADCAST m \/
  (binValuesAt s (nm_round m) = ∅ /\ binValuesAt s' (nm_round m) <> ∅ /\
   forall m', sent s' MSG_AUX_BROADCAST m' -> sent s MSG_AUX_BROADCAST m' \/ m' = m).
Proof.
  unfold sent. intros Hs [Hin Ht]. destruct Hs; try (left; by split).
  - destruct (add_bvb_rest (nm_round m0) (nm_value m0) src s) as (_ & Ho & _).
    rewrite Ho in Hin; auto.
  - destruct (add_aux_rest (nm_round m0) (nm_value m0) src sh s) as (_ & Ho & _).
    rewrite Ho in Hin; auto.
  - destruct (add_bvb_rest r v (be_schainIndex E) s) as (_ & Ho & _). rewrite Ho in Hin; auto.
  - cbn in Hin. apply elem_of_app in Hin as [?|[= ->]%list_elem_of_singleton]; [by left|].
    destruct H1 as [Hbvb _]. congruence.
  - cbn [bs_out emit] in *.
    destruct (add_aux_rest r v (be_schainIndex E) sh (insert_bin r v s)) as (Hb & Ho & _).
    rewrite Ho in *. cbn [bs_out insert_bin set_binValues] in *.
    apply elem_of_app in Hin as [?|[= ->]%list_elem_of_singleton]; [by left|].
    right. destruct H1 as (_ & Hr & _). rewrite Hr.
    split_and!; [done| |].
    + change (binValuesAt (add_aux r v (be_schainIndex E) sh (insert_bin r v s)) r <> ∅).
      rewrite Hb, binValuesAt_insert, decide_True by done. set_solver.
    + intros m' [[?|[= ->]%list_elem_of_singleton]%elem_of_app ?]; auto.
  - cbn in Hin. apply elem_of_app in Hin as [?|Habs%list_elem_of_singleton]; [by left|done].
Qed.

Lemma step_aux_bin s s' m :
  node_inv s -> bin_step E own inp s s' -> sent s' MSG_AUX_BROADCAST m ->
  binValuesAt s' (nm_round m) <> ∅.
Proof.
  intros Hi Hs Hm. destruct (step_sent_aux _ _ _ Hs Hm) as [Hold|(_ & ? & _)]; [|done].
  apply (ni_aux_bin _ Hi) in Hold. pose proof (ex_bin _ _ (bin_step_extends _ _ _ _ _ Hs)).
  set_solver.
Qed.

Lemma step_aux_one s s' m m' :
  node_inv s -> bin_step E own inp s s' ->
  sent s' MSG_AUX_BROADCAST m -> sent s' MSG_AUX_BROADCAST m' ->
  nm_round m = nm_round m' -> nm_value m = nm_value m'.
Proof.
  intros Hi Hs Hm Hm' Hr.
  destruct (step_sent_aux _ _ _ Hs Hm) as [Hold|(He & _ & Hall)].
  - destruct (step_sent_aux _ _ _ Hs Hm') as [Hold'|(He & _ & Hall)].
    + by apply (ni_aux_one _ Hi).
    + apply (ni_aux_bin _ Hi) in Hold. rewrite <- Hr in He. by destruct Hold.
  - destruct (Hall _ Hm') as [Hold'| -> ]; [|done].
    apply (ni_aux_bin _ Hi) in Hold'. rewrite Hr in He. by destruct Hold'.
Qed.

Lemma step_decided s s' :
  node_inv s -> bin_step E own inp s s' -> bs_isDecided s' = true -> decision_ok s'.
Proof.
  intros Hi Hs Hd. destruct (bs_isDecided s) eqn:Hd0.
  { eapply decision_ok_extends; [by eapply bin_step_extends|done|by apply ni_decided]. }
  destruct Hs; try (cbn in Hd; congruence);
    try (rewrite (proj1 (proj2 (add_bvb_frame _ _ _ _))) in Hd; congruence);
    try (rewrite (proj2 (add_aux_frame _ _ _ _ _)) in Hd; congruence).
  - unfold emit, bs_isDecided in Hd. fold (bs_isDecided (add_aux r v (be_schainIndex E) sh (insert_bin r v s))) in Hd.
    rewrite (proj2 (add_aux_frame _ _ _ _ _)) in Hd. cbn in Hd; congruence.
  - pose proof (ni_round _ Hi). unfold decision_ok; cbn -[binValuesAt aux_senders coin_is].
    assert (truthy v = coin_value x) as Ht by (subst v; by destruct (coin_value x)).
    split_and!; try lia; try done.
    + subst v; destruct (coin_value x); cbn; auto.
    + change (quorum (aux_senders s v (bs_currentRound s))).
      apply isTwoThird_quorum; [apply (ni_aux _ Hi)|]. by rewrite zsize_aux_senders.
    + rewrite Ht. by eapply random_is_coin.
Qed.

(** The proposals of the rounds after the first change only on entering a
    round. *)
Lemma step_proposals s s' r :
  bin_step E own inp s s' -> 1 <= r ->
  (bs_currentRound s' = bs_currentRound s /\ bs_proposals s' !! r = bs_proposals s !! r) \/
  exists v, s' = enter_round v s /\ bs_currentRound s < 100 /\ next_estimate E s v.
Proof.
  intros Hs Hr. destruct Hs; try (left; by split); try (right; by eauto).
  - destruct (add_bvb_frame (nm_round m) (nm_value m) src s) as (-> & _ & _ & ->). auto.
  - destruct (add_aux_frame (nm_round m) (nm_value m) src sh s) as (-> & _),
      (add_aux_rest (nm_round m) (nm_value m) src sh s) as (_ & _ & _ & _ & ->). auto.
  - left; cbn. rewrite lookup_insert_ne; [done|lia].
  - destruct (add_bvb_frame r0 v (be_schainIndex E) s) as (-> & _ & _ & ->). auto.
  - left; cbn [emit bs_currentRound bs_proposals].
    destruct (add_aux_frame r0 v (be_schainIndex E) sh (insert_bin r0 v s)) as (-> & _),
      (add_aux_rest r0 v (be_schainIndex E) sh (insert_bin r0 v s)) as (_ & _ & _ & _ & ->).
    auto.
Qed.

Lemma step_round s s' : node_inv s -> bin_step E own inp s s' -> 0 <= bs_currentRound s' <= 100.
Proof.
  intros Hi Hs. pose proof (ni_round _ Hi).
  destruct (step_proposals s s' 1 Hs) as [[-> _]|(v & -> & ? & _)]; [lia|done|cbn; lia].
Qed.

Lemma next_estimate_justified s v :
  node_inv s -> next_estimate E s v -> justified s (bs_currentRound s) v.
Proof.
  intros Hi [x Hd H1 H0 Hx ->|Hd Hv Hb Ha|Hd ->].
  - assert (truthy (bin_value (coin_value x)) = coin_value x) as Ht by by destruct (coin_value x).
    apply just_coin; [destruct (coin_value x); cbn; auto|by destruct (coin_value x)|].
    rewrite Ht. by eapply random_is_coin.
  - apply just_votes; [done..|]. apply isTwoThird_quorum; [apply (ni_aux _ Hi)|].
    by rewrite zsize_aux_senders.
  - apply just_decided; [done| |done]. destruct (ni_decided _ Hi Hd) as [? _]. lia.
Qed.

Lemma step_estimate s s' r :
  node_inv s -> bin_step E own inp s s' -> 0 <= r < bs_currentRound s' ->
  exists w, bs_proposals s' !! (r + 1) = Some w /\ justified s' r w.
Proof.
  intros Hi Hs Hr. pose proof (bin_step_extends _ _ _ _ _ Hs) as Hx.
  destruct (step_proposals s s' (r + 1) Hs) as [[Hc ->]|(v & -> & _ & Hne)]; [lia| |].
  - destruct (ni_estimate _ Hi r) as (w & ? & ?); [lia|]. eauto using justified_extends.
  - cbn in Hr |- *. destruct (decide (r = bs_currentRound s)) as [->|].
    + exists v. rewrite lookup_insert_eq. split; [done|].
      eapply justified_extends; [exact Hx|]. by apply next_estimate_justified.
    + destruct (ni_estimate _ Hi r) as (w & ? & ?); [lia|]. exists w.
      rewrite lookup_insert_ne by lia. eauto using justified_extends.
Qed.

Lemma step_future s s' r :
  node_inv s -> bin_step E own inp s s' -> bs_currentRound s' < r -> 1 <= r ->
  bs_proposals s' !! r = None.
Proof.
  intros Hi Hs Hc Hr.
  destruct (step_proposals s s' r Hs) as [[Hc' ->]|(v & -> & _ & Hne)]; [done| |].
  - apply (ni_future _ Hi); lia.
  - cbn in *. rewrite lookup_insert_ne by lia. apply (ni_future _ Hi); lia.
Qed.

Lemma step_first s s' r w :
  node_inv s -> bin_step E own inp s s' -> r < 1 -> bs_proposals s' !! r = Some w -> own w.
Proof.
  intros Hi Hs Hr. pose proof (ni_first _ Hi r w Hr) as Hw. pose proof (ni_round _ Hi).
  destruct Hs; try exact Hw.
  - destruct (add_bvb_frame (nm_round m) (nm_value m) src s) as (_ & _ & _ & ->). done.
  - destruct (add_aux_rest (nm_round m) (nm_value m) src sh s) as (_ & _ & _ & _ & ->). done.
  - cbn. destruct (decide (r = 0)) as [->|]; [rewrite lookup_insert_eq; congruence|].
    by rewrite lookup_insert_ne.
  - cbn. by rewrite lookup_insert_ne by lia.
  - destruct (add_bvb_frame r0 v (be_schainIndex E) s) as (_ & _ & _ & ->). done.
  - cbn [emit bs_proposals].
    destruct (add_aux_rest r0 v (be_schainIndex E) sh (insert_bin r0 v s))
      as (_ & _ & _ & _ & ->). done.
Qed.

Lemma node_inv_step s s' : node_inv s -> bin_step E own inp s s' -> node_inv s'.
Proof.
  constructor; intros;
    eauto using step_round, step_bvb, step_aux, step_share, step_bin, step_aux_bin,
      step_aux_one, step_decided, step_estimate, step_future, step_first.
Qed.
End NodeInvariant.

(** ** The system of nodes *)

(** The surroundings of node [i]: only its index and its signing key differ
    from the other nodes'. *)
Definition node_env {share shareset} (E : bin_env share shareset)
    (sign : Z -> list Z -> Z -> Z -> share) (i : Z) : bin_env share shareset :=
  {| be_nodeCount := be_nodeCount E;
     be_schainIndex := i;
     be_schainID := be_schainID E;
     be_blockID := be_blockID E;
     be_blockProposerIndex := be_blockProposerIndex E;
     be_isSgxEnabled := be_isSgxEnabled E;
     be_isSyncOnlyNode := be_isSyncOnlyNode E;
     be_blake3 := be_blake3 E;
     be_verifyBlsSigShare := be_verifyBlsSigShare E;
     be_signSigShare := sign i;
     be_emptyShareSet := be_emptyShareSet E;
     be_addSigShare := be_addSigShare E;
     be_isEnough := be_isEnough E;
     be_mergeRandom := be_mergeRandom E |}.

Section System.
Context {share shareset : Type}.
Context (E : bin_env share shareset) (sign : Z -> list Z -> Z -> Z -> share).
(** The Byzantine members, under which index the transport lets through the
    messages of which member, and what the parents may propose. *)
Context (byz : gset Z) (accepts : Z -> Z -> Prop) (own : Z -> Z -> Prop).
Local Abbreviation n := (be_nodeCount E).
Local Abbreviation nodes := (Z -> bin_state share).
Implicit Types (g : nodes) (i j r v : Z).

Definition honest i : Prop := i ∈ members n /\ i ∉ byz.

(** A message that names the index [src] arrives: some member signed it
    ([Network] checks the signature of every message), and the transport accepts
    that member's messages under this index.  An honest member names its own index
    and signs only what it sends.  The code checks the signature for the node ID
    in the message, not for the index: which indices a Byzantine member may name is
    left to [accepts]. *)
Definition arrives g (src : Z) (m : NetworkMessage share) : Prop :=
  src ∈ members n /\ exists sender, sender ∈ members n /\ accepts sender src /\
    (sender ∉ byz -> sender = src /\ EvBroadcast m ∈ bs_out (g src)).

(** One delivery: the honest node [i] handles an envelope; the handler may
    also end in an exception. *)
Inductive sys_step g : nodes -> Prop :=
  | sys_deliver i me now g' :
      honest i -> envelope_ok (node_env E sign i) me ->
      (env_origin me = ORIGIN_NETWORK ->
         arrives g (env_srcSchainIndex me) (env_message me)) ->
      (env_origin me = ORIGIN_PARENT -> own i (nm_value (env_message me))) ->
      g' i = (processMessage (node_env E sign i) now me (g i)).2 ->
      (forall j, j <> i -> g' j = g j) ->
      sys_step g g'.

Definition sys_init : nodes := fun _ => bin_init.

Definition reachable g : Prop := rtc sys_step sys_init g.

Definition decides g i r v : Prop :=
  bs_isDecided (g i) = true /\ bs_decidedRound (g i) = r /\ bs_decidedValue (g i) = v.

(** Some honest node entered round [r] with a value of truth value [b]; the
    value of the first round comes from its parent. *)
Definition origin g r (b : bool) : Prop :=
  exists k w, honest k /\ truthy w = b /\
    (1 <= r -> bs_proposals (g k) !! r = Some w) /\ (r < 1 -> own k w).

(** What an honest node keeps needs nothing of the others. *)
Lemma node_inv_reachable g i :
  0 < n < 2 ^ 62 -> (forall i, sign_verifies (node_env E sign i)) -> reachable g -> honest i ->
  node_inv (node_env E sign i) (own i) (g i).
Proof.
  intros Hn Hs Hr. revert i. revert g Hr.
  apply (rtc_ind_r (R := sys_step) (fun g => forall i, honest i -> node_inv (node_env E sign i) (own i) (g i))).
  { intros i _. by apply node_inv_init. }
  intros g g' _ Hstep IH q Hq. destruct Hstep as [i me now g' Hi Hok Harr Hown Hg' Hrest].
  destruct (decide (q = i)) as [->|Hne]; [|rewrite Hrest by done; by apply IH].
  pose proof (processMessage_steps (node_env E sign i) now me (g i) (Hs i) Hok) as [Hst _].
  rewrite <- Hg' in Hst. pose proof (IH i Hi) as Hni. clear Hg' Hrest. revert Hni.
  induction Hst as [|s s1 s' Hs1 _ IHs]; [done|]. intros Hni. apply IHs.
  eapply (node_inv_step (node_env E sign i) Hn (own i) (arrives g)); [| |exact Hni|].
  - by intros src m [? _].
  - by destruct Hi.
  - eapply bin_step_mono; [| |exact Hs1].
    + intros v (Ho & ->). auto.
    + intros src m (Ho & -> & ->). by apply Harr.
Qed.

Context (spoken : gset Z).

(** [spoken] holds the indices under which votes may be forged. *)
Record sys_inv g : Prop := {
  si_node : forall i, honest i -> node_inv (node_env E sign i) (own i) (g i);
  si_bvb : forall i j v r, honest i -> j ∈ bvbVotes (g i) v r -> j ∉ spoken ->
    origin g r (truthy v);
  si_out : forall j m, honest j -> sent (g j) MSG_BVB_BROADCAST m ->
    origin g (nm_round m) (truthy (nm_value m));
  si_aux : forall i j v r, honest i -> j ∈ aux_senders (g i) v r -> j ∉ spoken ->
    exists m, sent (g j) MSG_AUX_BROADCAST m /\ nm_round m = r /\
      truthy (nm_value m) = truthy v
}.

Context (Hn : 0 < n < 2 ^ 62) (Hbyz : 3 * zsize spoken < n) (Hspeak : speak_within byz accepts spoken).

Lemma arrives_sent g src m : arrives g src m -> src ∉ spoken -> EvBroadcast m ∈ bs_out (g src).
Proof.
  intros (_ & sender & _ & Ha & Hs) Hn'. apply Hs. intros Hb. by apply Hn', (proj2 Hspeak sender).
Qed.

Lemma unspoken_honest j : j ∈ members n -> j ∉ spoken -> honest j.
Proof. intros Hj Hn'. split; [done|]. intros Hb. by apply Hn', (proj1 Hspeak). Qed.

Section Step.
Context (i : Z) (g g' : nodes) (Hhon : honest i) (Hrest : forall j, j <> i -> g' j = g j).
Context (Hstep : bin_step (node_env E sign i) (own i) (arrives g) (g i) (g' i)).
Context (Hinv : sys_inv g).

Lemma sys_extends j : extends (g j) (g' j).
Proof.
  destruct (decide (j = i)) as [->|Hj]; [by eapply bin_step_extends|].
  rewrite Hrest by done. apply extends_refl.
Qed.

Lemma sys_sent j t m : sent (g j) t m -> sent (g' j) t m.
Proof. intros [? ?]; split; [by apply (ex_out _ _ (sys_extends j))|done]. Qed.

Lemma origin_step r b : origin g r b -> origin g' r b.
Proof.
  intros (k & w & Hk & Hw & Hp & Ho). exists k, w. split_and!; [done..| |done].
  intros Hr. specialize (Hp Hr). apply (ex_proposals _ _ (sys_extends k)); [|done].
  split; [done|]. destruct (decide (bs_currentRound (g k) < r)) as [Hlt|]; [|lia].
  by rewrite (ni_future _ _ _ (si_node _ Hinv k Hk) r Hlt Hr) in Hp.
Qed.

Lemma node_step_inv : node_inv (node_env E sign i) (own i) (g' i).
Proof.
  eapply node_inv_step; [done| | |by apply si_node|exact Hstep]; [|].
  - by intros src m [? _].
  - by destruct Hhon.
Qed.

Lemma proposal_origin r w : bs_proposals (g i) !! r = Some w -> origin g r (truthy w).
Proof.
  intros Hp. exists i, w. split_and!; [done..|]. intros Hr.
  by apply (ni_first _ _ _ (si_node _ Hinv i Hhon) r).
Qed.

(** New BVB votes of node [i] come from honest estimates. *)
Lemma step_bvb_origin j v r :
  j ∈ bvbVotes (g' i) v r -> j ∉ spoken -> origin g' r (truthy v).
Proof.
  intros Hj Hb.
  destruct (decide (j ∈ bvbVotes (g i) v r)) as [Hold|Hnew].
  { eapply origin_step, (si_bvb _ Hinv); eauto. }
  inversion Hstep as [s p l|s c|s src m Harr Ht Heq Heq'|s src m sh ? ? ? Heq Heq'
    |s w|s w ? ?|s q w Hp Heq Heq'|s q w m ? ? ?|s q w ? ? ?|s q w m sh ? ? ? ? Heq Heq'|s w x d];
    try (match goal with H : _ = g' i |- _ => rewrite <- H in Hj end; by destruct Hnew).
  - rewrite <- Heq', bvbVotes_add_bvb in Hj. case_decide as Hd; [|by destruct Hnew].
    destruct Hd as [Htv <-]. assert (j = src) as -> by set_solver.
    pose proof (arrives_sent _ _ _ Harr Hb) as Hs. destruct Harr as [Hm _]. rewrite <- Htv. apply origin_step.
    apply (si_out _ Hinv src m); [by apply unspoken_honest|by split].
  - rewrite <- Heq', bvbVotes_add_aux in Hj. by destruct Hnew.
  - rewrite <- Heq', bvbVotes_add_bvb in Hj. case_decide as Hd; [|by destruct Hnew].
    destruct Hd as [<- ->]. by apply origin_step, proposal_origin.
  - rewrite <- Heq' in Hj.
    change (j ∈ bvbVotes (add_aux q w i sh (insert_bin q w (g i))) v r) in Hj.
    rewrite bvbVotes_add_aux in Hj. by destruct Hnew.
Qed.

(** New BVB messages of node [i] carry honest estimates: its own, or one
    that more than a third of the members voted for. *)
Lemma step_out_origin m :
  sent (g' i) MSG_BVB_BROADCAST m ->
  origin g' (nm_round m) (truthy (nm_value m)).
Proof.
  intros [Hin Ht].
  assert (EvBroadcast m ∈ bs_out (g i) ->
    origin g' (nm_round m) (truthy (nm_value m))) as Hold.
  { intros ?. apply origin_step. by apply (si_out _ Hinv i m). }
  inversion Hstep as [s p l|s c|s src m0 Harr Ht0 Heq Heq'|s src m0 sh ? ? ? Heq Heq'
    |s w|s w ? ?|s q w Hp Heq Heq'|s q w m0 Hg ? Hm0 Heq Heq'|s q w ? ? ?
    |s q w m0 sh ? ? Hm0 ? Heq Heq'|s w x d ? ? ? ? ? ? ? ? Heq Heq'];
    try (match goal with H : _ = g' i |- _ => rewrite <- H in Hin end; by apply Hold).
  - rewrite <- Heq', (proj1 (proj2 (add_bvb_rest _ _ _ _))) in Hin. by apply Hold.
  - rewrite <- Heq', (proj1 (proj2 (add_aux_rest _ _ _ _ _))) in Hin. by apply Hold.
  - rewrite <- Heq', (proj1 (proj2 (add_bvb_rest _ _ _ _))) in Hin. by apply Hold.
  - rewrite <- Heq' in Hin. cbn in Hin.
    apply elem_of_app in Hin as [?|[= ->]%list_elem_of_singleton]; [by apply Hold|].
    destruct Hm0 as (_ & Hq & Hw & _). rewrite Hq, Hw.
    apply origin_step. destruct Hg as [Hp|H3].
    + by apply proposal_origin.
    + apply isThird_third in H3; [|done|apply (ni_bvb _ _ _ (si_node _ Hinv i Hhon))].
      destruct (third_honest n _ spoken H3 Hbyz) as (j & Hj & Hjb).
      by eapply (si_bvb _ Hinv i j).
  - rewrite <- Heq' in Hin. cbn in Hin.
    rewrite (proj1 (proj2 (add_aux_rest _ _ _ _ _))) in Hin. cbn in Hin.
    apply elem_of_app in Hin as [?|[= ->]%list_elem_of_singleton]; [by apply Hold|].
    destruct Hm0 as [Hm0 _]. congruence.
  - rewrite <- Heq' in Hin. cbn in Hin.
    apply elem_of_app in Hin as [?|Habs%list_elem_of_singleton]; [by apply Hold|done].
Qed.

(** New AUX votes of node [i] were sent by their voters. *)
Lemma step_aux_sent j v r :
  j ∈ aux_senders (g' i) v r -> j ∉ spoken ->
  exists m, sent (g' j) MSG_AUX_BROADCAST m /\ nm_round m = r /\
    truthy (nm_value m) = truthy v.
Proof.
  intros Hj Hb.
  destruct (decide (j ∈ aux_senders (g i) v r)) as [Hold|Hnew].
  { destruct (si_aux _ Hinv i j v r) as (m & Hm & ? & ?); [done..|].
    exists m. eauto using sys_sent. }
  inversion Hstep as [s p l|s c|s src m0 Harr Ht0 Heq Heq'|s src m0 sh Harr Ht0 ? Heq Heq'
    |s w|s w ? ?|s q w Hp Heq Heq'|s q w m0 Hg ? Hm0 Heq Heq'|s q w ? ? ?
    |s q w m0 sh ? ? Hm0 ? Heq Heq'|s w x d ? ? ? ? ? ? ? ? Heq Heq'];
    try (match goal with H : _ = g' i |- _ => rewrite <- H in Hj end; by destruct Hnew).
  - rewrite <- Heq' in Hj. unfold aux_senders in Hj. rewrite auxVotes_add_bvb in Hj.
    by destruct Hnew.
  - rewrite <- Heq', aux_senders_add_aux in Hj. case_decide as Hd; [|by destruct Hnew].
    destruct Hd as [Htv <-]. assert (j = src) as -> by set_solver.
    exists m0. split_and!; [|done..].
    apply sys_sent; split; [by apply (arrives_sent _ _ _ Harr)|done].
  - rewrite <- Heq' in Hj. unfold aux_senders in Hj. rewrite auxVotes_add_bvb in Hj.
    by destruct Hnew.
  - pose proof Hj as Hj'. rewrite <- Heq' in Hj'.
    change (j ∈ aux_senders (add_aux q w i sh (insert_bin q w (g i))) v r) in Hj'.
    rewrite aux_senders_add_aux in Hj'. case_decide as Hd; [|by destruct Hnew].
    destruct Hd as [Htv ->].
    assert (j = i) as ->.
    { apply elem_of_union in Hj' as [->%elem_of_singleton|?]; [done|by destruct Hnew]. }
    destruct Hm0 as (Ht & Hr & Hv & _). exists m0. split_and!; [|done|by rewrite Hv].
    split; [|done]. rewrite <- Heq'. cbn. apply elem_of_app; right. by left.
Qed.

Lemma sys_inv_bin_step : sys_inv g'.
Proof.
  assert (forall j, honest j -> j = i \/ g' j = g j) as Hcase.
  { intros j _; destruct (decide (j = i)); auto. }
  constructor.
  - intros j Hj. destruct (Hcase j Hj) as [->|Hgj]; [apply node_step_inv|].
    rewrite Hgj. by apply si_node.
  - intros q j v r Hq Hj Hb. destruct (Hcase q Hq) as [->|Hgj];
      [by eapply step_bvb_origin|].
    rewrite Hgj in Hj. apply origin_step. by apply (si_bvb _ Hinv q j).
  - intros j m Hj Hm. destruct (Hcase j Hj) as [->|Hgj]; [by apply step_out_origin|].
    rewrite Hgj in Hm. apply origin_step. by apply (si_out _ Hinv j m).
  - intros q j v r Hq Hj Hb. destruct (Hcase q Hq) as [->|Hgj]; [by eapply step_aux_sent|].
    rewrite Hgj in Hj. destruct (si_aux _ Hinv q j v r) as (m & Hm & ? & ?); [done..|].
    exists m; eauto using sys_sent.
Qed.
End Step.

Lemma sys_inv_ext g g' : (forall j, g' j = g j) -> sys_inv g -> sys_inv g'.
Proof.
  intros Hg Hi.
  assert (forall r b, origin g r b -> origin g' r b) as Ho.
  { intros r b (k & w & ? & ? & ? & ?). exists k, w. by rewrite Hg. }
  constructor.
  - intros j Hj. rewrite Hg. by apply si_node.
  - intros i j v r Hq Hj Hb. rewrite Hg in Hj. by eapply Ho, (si_bvb _ Hi i j).
  - intros j m Hj Hm. rewrite Hg in Hm. by eapply Ho, (si_out _ Hi j).
  - intros i j v r Hq Hj Hb. rewrite Hg in Hj |- *. by apply (si_aux _ Hi i j).
Qed.

Lemma sys_inv_handler i (O : Z -> Prop) inp s s' :
  honest i -> (forall v, O v -> own i v) -> rtc (bin_step (node_env E sign i) O inp) s s' ->
  forall g, g i = s -> sys_inv g -> (forall src m, inp src m -> arrives g src m) ->
  forall g', g' i = s' -> (forall j, j <> i -> g' j = g j) -> sys_inv g'.
Proof.
  intros Hi HO. induction 1 as [s|s s1 s' Hstep _ IH]; intros g Hg Hinv Harr g' Hg' Hrest.
  - apply (sys_inv_ext g); [|done]. intros j. destruct (decide (j = i)); [congruence|auto].
  - set (g1 := fun j => if decide (j = i) then s1 else g j).
    assert (g1 i = s1) as Hg1 by (unfold g1; by rewrite decide_True).
    assert (forall j, j <> i -> g1 j = g j) as Hr1 by (intros; unfold g1; by rewrite decide_False).
    assert (bin_step (node_env E sign i) (own i) (arrives g) (g i) (g1 i)) as Hst.
    { rewrite Hg, Hg1. by eapply bin_step_mono. }
    apply (IH g1); [done|by eapply (sys_inv_bin_step i g)| |done|].
    + intros src m Hm. destruct (Harr _ _ Hm) as (? & q & ? & ? & Ho). split; [done|]. exists q.
      split_and!; [done|done|]. intros Hb. destruct (Ho Hb) as [-> ?]. split; [done|].
      by apply (ex_out _ _ (sys_extends i g g1 Hr1 Hst src)).
    + intros j Hj. rewrite Hr1 by done. auto.
Qed.

Context (Hsign : forall i, sign_verifies (node_env E sign i)).

Lemma sys_inv_reachable g : reachable g -> sys_inv g.
Proof.
  unfold reachable. intros H. revert g H. apply (rtc_ind_r (R := sys_step) sys_inv).
  - constructor.
    + intros i _. by apply node_inv_init.
    + intros i j v r _ Hj. exfalso. unfold bvbVotes, at_or_empty in Hj. cbn in Hj.
      destruct (truthy v); rewrite lookup_empty in Hj; cbn in Hj; set_solver.
    + intros j m _ [Hm _]. cbn in Hm. by apply elem_of_nil in Hm.
    + intros i j v r _ Hj. exfalso. unfold aux_senders, auxVotes, at_or_empty in Hj.
      cbn in Hj. destruct (truthy v); rewrite lookup_empty in Hj; cbn in Hj; set_solver.
  - intros g g' _ Hstep Hinv. destruct Hstep as [i me now g' Hi Hok Harr Hown Hg' Hrest].
    pose proof (processMessage_steps (node_env E sign i) now me (g i) (Hsign i) Hok) as [Hst _].
    rewrite <- Hg' in Hst.
    eapply sys_inv_handler; [exact Hi| |exact Hst|done|done| |done|done].
    { intros v (Ho & ->). auto. }
    intros src m (Ho & -> & ->). auto.
Qed.

(** ** Agreement *)
Context (Hbls : bls_unique E).

Lemma coin_is_node i r c : coin_is (node_env E sign i) r c -> coin_is E r c.
Proof.
  assert (forall set, assembled (node_env E sign i) r set -> assembled E r set) as Ha.
  { induction 1; [apply (asm_empty E)|by apply (asm_add E)]. }
  unfold coin_is. change (uses_bls (node_env E sign i) r) with (uses_bls E r).
  destruct (uses_bls E r); [|done]. intros (set & ? & ? & ->). eauto.
Qed.

Lemma coin_agree i j r c c' :
  coin_is (node_env E sign i) r c -> coin_is (node_env E sign j) r c' -> c = c'.
Proof. intros ?%coin_is_node ?%coin_is_node. by eapply coin_is_unique. Qed.

Lemma bit_truthy v w :
  v = 0 \/ v = 1 -> w = 0 \/ w = 1 -> truthy v = truthy w -> v = w.
Proof. intros [->| ->] [->| ->]; done. Qed.

(** A value in the bin values of an honest node is an honest estimate of that
    round. *)
Lemma bin_origin g i v r :
  sys_inv g -> honest i -> v ∈ binValuesAt (g i) r -> origin g r (truthy v).
Proof.
  intros Hinv Hi Hv. pose proof (si_node _ Hinv i Hi) as Hni.
  pose proof (ni_bin _ _ _ Hni _ _ Hv) as Hq. unfold quorum in Hq; cbn in Hq.
  destruct (third_honest n (bvbVotes (g i) v r) spoken) as (j & Hj & Hb); [lia|done|].
  by eapply (si_bvb _ Hinv i j).
Qed.

(** Two quorums of AUX votes of one round are for the same value. *)
Lemma aux_quorum_agree g i j v w r :
  sys_inv g -> honest i -> honest j ->
  quorum (node_env E sign i) (aux_senders (g i) v r) ->
  quorum (node_env E sign j) (aux_senders (g j) w r) -> truthy v = truthy w.
Proof.
  intros Hinv Hi Hj Hqi Hqj.
  destruct (quorum_intersection n (aux_senders (g i) v r) (aux_senders (g j) w r) spoken)
    as (k & Hki & Hkj & Hkb); [lia| | |done..|].
  { apply (ni_aux _ _ _ (si_node _ Hinv i Hi)). }
  { apply (ni_aux _ _ _ (si_node _ Hinv j Hj)). }
  assert (honest k) as Hk.
  { apply unspoken_honest; [|done]. by apply (ni_aux _ _ _ (si_node _ Hinv i Hi)) in Hki. }
  destruct (si_aux _ Hinv i k v r) as (m & Hm & Hmr & <-); [done..|].
  destruct (si_aux _ Hinv j k w r) as (m' & Hm' & Hmr' & <-); [done..|].
  by rewrite (ni_aux_one _ _ _ (si_node _ Hinv k Hk) m m') by congruence.
Qed.

Lemma decided_ok g i r v :
  sys_inv g -> honest i -> decides g i r v ->
  0 <= r <= bs_currentRound (g i) /\ (v = 0 \/ v = 1) /\ v ∈ binValuesAt (g i) r /\
  quorum (node_env E sign i) (aux_senders (g i) v r) /\
  coin_is (node_env E sign i) r (truthy v).
Proof.
  intros Hinv Hi (Hd & <- & <-). by apply (ni_decided _ _ _ (si_node _ Hinv i Hi)).
Qed.

(** After a decision for [v] in round [r], every estimate and every decision
    of the later rounds is [v]. *)
Definition locked g r v (k : nat) : Prop :=
  (forall j w, honest j -> decides g j (r + Z.of_nat k) w -> truthy w = truthy v) /\
  (forall j w, honest j -> bs_proposals (g j) !! (r + Z.of_nat k + 1) = Some w ->
     truthy w = truthy v).

Lemma locked_step g i r v k :
  sys_inv g -> honest i -> decides g i r v ->
  (forall r' j w, 0 <= r' < r -> honest j -> decides g j r' w ->
     forall k', locked g r' w k') ->
  (forall k', (k' < k)%nat -> locked g r v k') -> locked g r v k.
Proof.
  intros Hinv Hi Hdec Hprev IH.
  destruct (decided_ok _ _ _ _ Hinv Hi Hdec) as (Hr & Hv & Hb & Hq & Hc).
  (* A bin value of a later round is the locked value. *)
  assert (forall j w, honest j -> w ∈ binValuesAt (g j) (r + Z.of_nat k) ->
    k <> O -> truthy w = truthy v) as Hbin.
  { intros j w Hj Hw Hk0. destruct k as [|k']; [done|].
    destruct (bin_origin g j w (r + Z.of_nat (S k'))) as (q & u & Hqh & <- & Hp & _);
      [done..|].
    destruct (IH k') as [_ Hpr]; [lia|]. apply (Hpr q); [done|].
    replace (r + Z.of_nat k' + 1) with (r + Z.of_nat (S k')) by lia. apply Hp; lia. }
  assert (forall j w, honest j -> decides g j (r + Z.of_nat k) w ->
    truthy w = truthy v) as Hdecs.
  { intros j w Hj Hd.
    destruct (decided_ok _ _ _ _ Hinv Hj Hd) as (_ & _ & Hwb & _ & Hwc).
    destruct k as [|k']; [|by apply (Hbin j)].
    rewrite Z.add_0_r in Hwc. by eapply coin_agree. }
  split; [done|]. intros j w Hj Hp. pose proof (si_node _ Hinv j Hj) as Hnj.
  assert (r + Z.of_nat k < bs_currentRound (g j)) as Hlt.
  { destruct (decide (r + Z.of_nat k < bs_currentRound (g j))); [done|].
    rewrite (ni_future _ _ _ Hnj) in Hp; [done|lia|lia]. }
  destruct (ni_estimate _ _ _ Hnj (r + Z.of_nat k)) as (w' & Hp' & Hj'); [lia|].
  simplify_eq. destruct Hj' as [_ Hwb Hwq|_ Hwb Hwc|Hjd Hjr ->].
  - destruct k as [|k']; [|by apply (Hbin j)]. rewrite Z.add_0_r in Hwq.
    exact (aux_quorum_agree g j i w v r Hinv Hj Hi Hwq Hq).
  - destruct k as [|k']; [|by apply (Hbin j)]. rewrite Z.add_0_r in Hwc.
    by eapply coin_agree.
  - assert (decides g j (bs_decidedRound (g j)) (bs_decidedValue (g j))) as Hd by done.
    destruct (decided_ok _ _ _ _ Hinv Hj Hd) as (Hjr0 & _).
    destruct (decide (bs_decidedRound (g j) < r)) as [Hearly|Hlate].
    + destruct (Hprev _ _ _ (conj (proj1 Hjr0) Hearly) Hj Hd
        (Z.to_nat (r - bs_decidedRound (g j)))) as [Hd' _].
      symmetry. apply (Hd' i); [done|].
      replace (bs_decidedRound (g j) + _) with r by lia. done.
    + destruct (decide (bs_decidedRound (g j) = r + Z.of_nat k)) as [Heq|Hne].
      * apply (Hdecs j); [done|by rewrite <- Heq].
      * destruct (IH (Z.to_nat (bs_decidedRound (g j) - r))) as [Hd' _]; [lia|].
        apply (Hd' j); [done|].
        by replace (r + _) with (bs_decidedRound (g j)) by lia.
Qed.

Lemma locked_all g i r v :
  sys_inv g -> honest i -> decides g i r v -> forall k, locked g r v k.
Proof.
  intros Hinv. revert i v. induction (Z.lt_wf 0 r) as [r _ IHr]. intros i v Hi Hd k.
  induction k as [k IHk] using lt_wf_ind.
  apply (locked_step _ i); [done..| |done]. intros r' j w Hr' Hj Hdj k'.
  by eapply IHr.
Qed.

Lemma decisions_agree g i j r r' v w :
  sys_inv g -> honest i -> honest j -> decides g i r v -> decides g j r' w -> v = w.
Proof.
  intros Hinv Hi Hj Hdi Hdj.
  destruct (decided_ok _ _ _ _ Hinv Hi Hdi) as (? & Hv & _).
  destruct (decided_ok _ _ _ _ Hinv Hj Hdj) as (? & Hw & _).
  apply bit_truthy; [done..|].
  destruct (Z.le_ge_cases r r') as [Hle|Hge].
  - destruct (locked_all _ _ _ _ Hinv Hi Hdi (Z.to_nat (r' - r))) as [Hd _].
    symmetry; apply (Hd j); [done|]. by replace (r + _) with r' by lia.
  - destruct (locked_all _ _ _ _ Hinv Hj Hdj (Z.to_nat (r - r'))) as [Hd _].
    apply (Hd i); [done|]. by replace (r' + _) with r by lia.
Qed.

(** ** Validity *)

(** When the parents of the honest nodes all propose [b], so does every
    estimate of every round. *)
Lemma origin_unanimous g r b c :
  sys_inv g -> (forall k w, honest k -> own k w -> truthy w = b) ->
  origin g r c -> c = b.
Proof.
  intros Hinv Hown. revert c.
  destruct (decide (r < 1)) as [|Hr]; [by intros c (k & w & ? & <- & _ & ?); eauto|].
  assert (exists k, r = Z.of_nat k) as [k ->] by (exists (Z.to_nat r); lia).
  clear Hr. induction k as [k IH] using lt_wf_ind.
  assert (forall q w d, honest q -> w ∈ binValuesAt (g q) d -> d < Z.of_nat k ->
    truthy w = b) as Hbin.
  { intros q w d Hq Hw Hd. pose proof (bin_origin _ _ _ _ Hinv Hq Hw) as Ho.
    destruct (decide (d < 1)).
    - destruct Ho as (? & ? & ? & <- & _ & ?); eauto.
    - apply (IH (Z.to_nat d)); [lia|]. by rewrite Z2Nat.id by lia. }
  intros c (q & w & Hq & <- & Hp & Ho).
  destruct (decide (Z.of_nat k < 1)); [by eauto|]. specialize (Hp ltac:(lia)).
  pose proof (si_node _ Hinv q Hq) as Hnq.
  destruct (decide (Z.of_nat k <= bs_currentRound (g q)));
    [|rewrite (ni_future _ _ _ Hnq) in Hp; [done|lia|lia]].
  destruct (ni_estimate _ _ _ Hnq (Z.of_nat k - 1)) as (w' & Hp' & Hj); [lia|].
  replace (Z.of_nat k - 1 + 1) with (Z.of_nat k) in Hp' by lia. simplify_eq.
  destruct Hj as [_ Hwb _|_ Hwb _|Hjd Hjr ->]; try (eapply Hbin; eauto; lia).
  destruct (ni_decided _ _ _ Hnq Hjd) as (_ & _ & Hb & _). eapply Hbin; eauto; lia.
Qed.

Lemma decision_unanimous g i r v b :
  sys_inv g -> honest i -> (forall k w, honest k -> own k w -> truthy w = b) ->
  decides g i r v -> truthy v = b.
Proof.
  intros Hinv Hi Hown Hd.
  destruct (decided_ok _ _ _ _ Hinv Hi Hd) as (_ & _ & Hb & _).
  eapply origin_unanimous; [done..|]. by eapply bin_origin.
Qed.
End System.

(** ** The report to the parent *)
Section Report.
Context {share shareset : Type}.
Context (E : bin_env share shareset) (own : Z -> Prop)
  (inp : Z -> NetworkMessage share -> Prop).

Definition decided_events (s : bin_state share) : list ChildBVDecidedMessage :=
  omap (fun e => match e with EvDecided d => Some d | _ => None end) (bs_out s).

(** An undecided instance has reported nothing, a decided one exactly once,
    and the report carries its decision. *)
Definition report_ok (s : bin_state share) : Prop :=
  if bs_isDecided s then
    exists d, decided_events s = [d] /\ cd_value d = truthy (bs_decidedValue s) /\
      cd_round d = bs_decidedRound s /\
      cd_key d = {| pk_blockID := be_blockID E;
                    pk_blockProposerIndex := be_blockProposerIndex E |}
  else decided_events s = [].

Lemma report_ok_same s s' :
  bs_isDecided s' = bs_isDecided s -> bs_decidedValue s' = bs_decidedValue s ->
  bs_decidedRound s' = bs_decidedRound s -> decided_events s' = decided_events s ->
  report_ok s -> report_ok s'.
Proof. unfold report_ok. by intros -> -> -> ->. Qed.

Lemma report_ok_step s s' : bin_step E own inp s s' -> report_ok s -> report_ok s'.
Proof.
  assert (forall m s, decided_events (emit (EvBroadcast m) s) = decided_events s) as Hem.
  { intros m s0. unfold decided_events, emit; cbn. by rewrite omap_app, app_nil_r. }
  destruct 1; try (by apply report_ok_same).
  - destruct (add_bvb_frame (nm_round m) (nm_value m) src s) as (? & ? & ? & ?),
      (add_bvb_rest (nm_round m) (nm_value m) src s) as (? & Ho & ?).
    apply report_ok_same; [done..|]. unfold decided_events; by rewrite Ho.
  - destruct (add_aux_frame (nm_round m) (nm_value m) src sh s) as (? & ?),
      (add_aux_rest (nm_round m) (nm_value m) src sh s) as (? & Ho & ? & ? & ?).
    apply report_ok_same; [done..|]. unfold decided_events; by rewrite Ho.
  - destruct (add_bvb_frame r v (be_schainIndex E) s) as (? & ? & ? & ?),
      (add_bvb_rest r v (be_schainIndex E) s) as (? & Ho & ?).
    apply report_ok_same; [done..|]. unfold decided_events; by rewrite Ho.
  - by apply report_ok_same; [..|apply Hem].
  - destruct (add_aux_frame r v (be_schainIndex E) sh (insert_bin r v s)) as (? & ?),
      (add_aux_rest r v (be_schainIndex E) sh (insert_bin r v s)) as (? & Ho & ? & ? & ?).
    apply report_ok_same; [done..|]. rewrite Hem. unfold decided_events; by rewrite Ho.
  - unfold report_ok. rewrite H. intros Hnone. cbn. exists d. split_and!; try done.
    unfold decided_events in *; cbn. by rewrite omap_app, Hnone.
Qed.

Lemma report_ok_steps s s' : rtc (bin_step E own inp) s s' -> report_ok s -> report_ok s'.
Proof. induction 1; eauto using report_ok_step. Qed.

(** After the decision there is no second report. *)
Lemma decided_events_step s s' :
  bs_isDecided s = true -> bin_step E own inp s s' -> decided_events s' = decided_events s.
Proof.
  intros Hd Hs. unfold decided_events.
  destruct Hs; cbn [emit mark_broadcast set_broadcastValues bs_out]; try done;
    rewrite ?(proj1 (proj2 (add_bvb_rest _ _ _ _))),
      ?(proj1 (proj2 (add_aux_rest _ _ _ _ _))); cbn; try done;
    try (by rewrite omap_app, app_nil_r).
  congruence.
Qed.

Lemma decided_events_steps s s' :
  bs_isDecided s = true -> rtc (bin_step E own inp) s s' ->
  decided_events s' = decided_events s.
Proof.
  intros Hd Hs. induction Hs as [|s s1 s' Hs _ IH]; [done|].
  rewrite IH; [by apply decided_events_step|].
  by apply (ex_decided _ _ (bin_step_extends _ _ _ _ _ Hs)).
Qed.
End Report.
