(* ===== verification/BinTheorems.v ===== *)
(** * What the binary consensus guarantees

    The theorems on [BinConsensusInstance] that the other components and the
    users of the chain rely on, and a run of a chain of four members, one of
    them Byzantine, that the witnesses evaluate. *)

From stdpp Require Import base tactics gmap list strings relations.
From Stdlib Require Import ZArith Lia.
From S2P Require Import Prelude Bytes Messages BinConsensus BinSpec BinAgreement.

(** ** A chain of four members *)
Module Demo.
(** Hash and shares are toys; the coin is [true] in round 0 and [false] in round 1. *)
Definition env : bin_env Z Z :=
  {| be_nodeCount := 4; be_schainIndex := 1; be_schainID := 7; be_blockID := 10;
     be_blockProposerIndex := 2; be_isSgxEnabled := true; be_isSyncOnlyNode := false;
     be_blake3 := fun bytes => replicate 32 ((1 + fold_right Z.add 0 bytes) mod 2);
     be_verifyBlsSigShare := fun sh _ => 0 <? sh;
     be_signSigShare := fun _ _ _ => 1;
     be_emptyShareSet := 0;
     be_addSigShare := fun set _ => set + 1;
     be_isEnough := fun set => 3 <=? set;
     be_mergeRandom := fun _ => 4 |}.

Definition sign (i : Z) (hash : list Z) (b r : Z) : Z := Z.abs i + 1.
Definition byz : gset Z := {[4]}.

Definition envelope (o : MessageOrigin) (src : Z) (m : NetworkMessage Z) : Envelope Z :=
  {| env_origin := o; env_message := m; env_srcSchainIndex := src; env_arrivalTime := 5 |}.

Definition proposal (v : Z) : NetworkMessage Z :=
  {| nm_type := MSG_BVB_BROADCAST; nm_schainID := 7; nm_msgID := 1; nm_blockID := 10;
     nm_blockProposerIndex := 2; nm_round := 0; nm_value := v; nm_timeMs := 4;
     nm_srcSchainIndex := 0; nm_sigShare := None |}.

Definition handle (g : Z -> bin_state Z) (i : Z) (me : Envelope Z) : Z -> bin_state Z :=
  let s := (processMessage (node_env env sign i) 6 me (g i)).2 in
  fun j => if decide (j = i) then s else g j.

Definition propose (v i : Z) (g : Z -> bin_state Z) : Z -> bin_state Z :=
  handle g i (envelope ORIGIN_PARENT i (proposal v)).

(** Delivers event number [k] of [src] to [i]. *)
Definition deliver (src : Z) (k : nat) (i : Z) (g : Z -> bin_state Z) : Z -> bin_state Z :=
  match bs_out (g src) !! k with
  | Some (EvBroadcast m) =>
      if decide (nm_schainID m = 7) then handle g i (envelope ORIGIN_NETWORK src m) else g
  | _ => g
  end.

Definition exchange (k : nat) (g : Z -> bin_state Z) : Z -> bin_state Z :=
  fold_right (fun '(src, i) g => deliver src k i g) g
    [(1, 2); (1, 3); (2, 1); (2, 3); (3, 1); (3, 2)].

(** The Byzantine member sends node 1 a vote that no honest node cast. *)
Definition forged : Envelope Z := envelope ORIGIN_NETWORK 4 (proposal 0).

Definition final : Z -> bin_state Z :=
  exchange 1 (exchange 0 (handle (propose 1 3 (propose 1 2 (propose 1 1 sys_init))) 1 forged)).

Definition own (i v : Z) : Prop := v = 1.

(** The transport accepts a member's messages under its own index only. *)
Definition bound (sender src : Z) : Prop := sender = src.
(** It accepts every member's messages under every index. *)
Definition unbound (sender src : Z) : Prop := True.

Lemma bound_within : speak_within byz bound byz.
Proof. split; [done|]. by intros b src Hb <-. Qed.

Lemma honest_123 i : 1 <= i <= 3 -> honest env byz i.
Proof.
  intros Hi. split; [apply elem_of_members; cbn; lia|].
  unfold byz. rewrite elem_of_singleton. lia.
Qed.

Lemma reachable_handle accepts g i me :
  1 <= i <= 3 -> reachable env sign byz accepts own g -> envelope_ok (node_env env sign i) me ->
  (env_origin me = ORIGIN_NETWORK ->
     arrives env byz accepts g (env_srcSchainIndex me) (env_message me)) ->
  (env_origin me = ORIGIN_PARENT -> own i (nm_value (env_message me))) ->
  reachable env sign byz accepts own (handle g i me).
Proof.
  intros Hi Hg Hok Harr Hown. eapply rtc_r; [exact Hg|]. unfold handle.
  eapply (sys_deliver env sign byz accepts own g i me 6); eauto.
  - by apply honest_123.
  - by rewrite decide_True.
  - intros; by rewrite decide_False.
Qed.

Lemma reachable_propose accepts i g :
  1 <= i <= 3 -> reachable env sign byz accepts own g -> reachable env sign byz accepts own (propose 1 i g).
Proof. intros. by apply reachable_handle. Qed.

Lemma reachable_deliver src k i g :
  1 <= i <= 3 -> 1 <= src <= 3 -> reachable env sign byz bound own g ->
  reachable env sign byz bound own (deliver src k i g).
Proof.
  intros Hi Hsrc Hg. unfold deliver. destruct (bs_out (g src) !! k) as [[m|]|] eqn:Hk; try done.
  case_decide; [|done]. apply reachable_handle; try done.
  intros _. split; [by apply honest_123|]. exists src. split; [by apply honest_123|]. split; [done|].
  intros _. split; [done|]. by eapply list_elem_of_lookup_2.
Qed.

Lemma reachable_exchange k g :
  reachable env sign byz bound own g -> reachable env sign byz bound own (exchange k g).
Proof. intros; unfold exchange; cbn. by repeat apply reachable_deliver. Qed.

Lemma reachable_final : reachable env sign byz bound own final.
Proof.
  do 2 apply reachable_exchange. apply reachable_handle; [lia| |by split| |done].
  - repeat apply reachable_propose; [lia..|]. apply rtc_refl.
  - intros _. split; [apply elem_of_members; cbn; lia|]. exists 4. split; [apply elem_of_members; cbn; lia|].
    split; [done|]. unfold byz; set_solver.
Qed.

(** *** A member that speaks under every index *)

(** Votes that member 4 signs in the name of the others. *)
Definition vote (t : MsgType) (r v : Z) : NetworkMessage Z :=
  {| nm_type := t; nm_schainID := 7; nm_msgID := 1; nm_blockID := 10; nm_blockProposerIndex := 2; nm_round := r;
     nm_value := v; nm_timeMs := 4; nm_srcSchainIndex := 0; nm_sigShare := None |}.

(** All members vote for [v] in round [r], as node [i] sees it. *)
Definition forge (i r v : Z) (g : Z -> bin_state Z) : Z -> bin_state Z :=
  fold_left (fun g me => handle g i me)
    (((fun src => envelope ORIGIN_NETWORK src (vote MSG_BVB_BROADCAST r v)) <$> [1; 2; 3; 4]) ++
     ((fun src => envelope ORIGIN_NETWORK src (vote MSG_AUX_BROADCAST r v)) <$> [1; 2; 3; 4])) g.

(** Node 1 is shown votes for 1, node 2 votes for 0; all nodes propose 1. *)
Definition split_brain : Z -> bin_state Z :=
  forge 2 1 0 (forge 2 0 0 (forge 1 0 1 (propose 1 3 (propose 1 2 (propose 1 1 sys_init))))).

Lemma reachable_forge i r v g :
  1 <= i <= 3 -> reachable env sign byz unbound own g -> reachable env sign byz unbound own (forge i r v g).
Proof.
  intros Hi. unfold forge. cbn [fmap list_fmap app fold_left]. intros Hg.
  repeat (apply reachable_handle; [done| |by split| |done]); [done|..];
    intros _; (split; [apply elem_of_members; cbn; lia|]); exists 4;
    (split; [apply elem_of_members; cbn; lia|]); (split; [done|]); unfold byz; set_solver.
Qed.

Lemma reachable_split_brain : reachable env sign byz unbound own split_brain.
Proof. unfold split_brain. do 3 (apply reachable_forge; [lia|]). do 3 (apply reachable_propose; [lia|]). apply rtc_refl. Qed.

End Demo.

Section Theorems.
Context {share shareset : Type}.
Context (E : bin_env share shareset).

(** C3: every run of the message handler, returning or throwing, is a sequence
    of steps of the protocol [bin_step] on the delivered message, and from a
    state with a non-negative round it ends without exhausting the bound on
    the round changes of one call chain. *)
Theorem processMessage_refines_protocol now me s :
  sign_verifies E -> envelope_ok E me ->
  wp (processMessage E now me) s (fun (q : res unit) s' =>
    rtc (bin_step E (proposes me) (delivers me)) s s' /\
    (0 <= bs_currentRound s -> q <> Err OutOfFuel)).
Proof. apply processMessage_steps. Qed.

Context (sign : Z -> list Z -> Z -> Z -> share) (byz : gset Z) (accepts : Z -> Z -> Prop) (own : Z -> Z -> Prop).
Implicit Types g : Z -> bin_state share.

(** C1: agreement.  If the Byzantine members can make themselves heard under fewer
    than a third of the indices ([spoken] holds theirs and every index that the
    transport lets them name), any two honest nodes that decide the binary consensus
    of a block and proposer decide the same value, whatever the rounds of their
    decisions and the order of deliveries.  The code does not tie the index in a
    message to the node whose signature it checks, so that this condition does not
    follow from a bound on the number of Byzantine members: see
    [unbound_index_breaks_agreement]. *)
Theorem bin_consensus_agreement spoken g i j :
  0 < be_nodeCount E < 2 ^ 62 -> speak_within byz accepts spoken -> 3 * zsize spoken < be_nodeCount E ->
  (forall i, sign_verifies (node_env E sign i)) -> bls_unique E ->
  reachable E sign byz accepts own g -> honest E byz i -> honest E byz j ->
  bs_isDecided (g i) = true -> bs_isDecided (g j) = true ->
  bs_decidedValue (g i) = bs_decidedValue (g j).
Proof.
  intros Hn Hw Hb Hs Hu Hr Hi Hj Hdi Hdj.
  pose proof (sys_inv_reachable _ _ _ _ _ _ Hn Hb Hw Hs _ Hr) as Hinv.
  by eapply (decisions_agree E sign byz accepts own spoken Hn Hb Hw Hu g i j).
Qed.

(** C2: validity.  Under the same condition on the indices that the Byzantine
    members can name: if the parents of all honest nodes propose the same truth
    value, no honest node decides the other one. *)
Theorem bin_consensus_validity spoken g i b :
  0 < be_nodeCount E < 2 ^ 62 -> speak_within byz accepts spoken -> 3 * zsize spoken < be_nodeCount E ->
  (forall i, sign_verifies (node_env E sign i)) ->
  (forall k w, honest E byz k -> own k w -> truthy w = b) ->
  reachable E sign byz accepts own g -> honest E byz i -> bs_isDecided (g i) = true ->
  truthy (bs_decidedValue (g i)) = b.
Proof.
  intros Hn Hw Hb Hs Hown Hr Hi Hd.
  pose proof (sys_inv_reachable _ _ _ _ _ _ Hn Hb Hw Hs _ Hr) as Hinv.
  by eapply (decision_unanimous E sign byz own spoken Hn Hb g i).
Qed.

(** C4: an honest node sends at most one AUX value per round and never leaves
    the 101 rounds; what it accepts into its bin values has more than two
    thirds of the BVB votes, and its decision has more than two thirds of
    the AUX votes and equals the common coin of its round.  This holds however
    many members are Byzantine and whatever indices they name. *)
Theorem bin_consensus_node_invariant g i :
  0 < be_nodeCount E < 2 ^ 62 ->
  (forall i, sign_verifies (node_env E sign i)) ->
  reachable E sign byz accepts own g -> honest E byz i ->
  0 <= bs_currentRound (g i) <= 100 /\
  (forall m m', sent (g i) MSG_AUX_BROADCAST m -> sent (g i) MSG_AUX_BROADCAST m' ->
     nm_round m = nm_round m' -> nm_value m = nm_value m') /\
  (forall v r, v ∈ binValuesAt (g i) r -> quorum E (bvbVotes (g i) v r)) /\
  (bs_isDecided (g i) = true ->
     quorum E (aux_senders (g i) (bs_decidedValue (g i)) (bs_decidedRound (g i))) /\
     coin_is E (bs_decidedRound (g i)) (truthy (bs_decidedValue (g i)))).
Proof.
  intros Hn Hs Hr Hi.
  destruct (node_inv_reachable _ _ _ _ _ _ _ Hn Hs Hr Hi) as [? _ _ _ ? _ ? Hd _ _ _].
  split_and!; [lia|lia|done..|]. intros Hdec. destruct (Hd Hdec) as (_ & _ & _ & ? & ?).
  split; [done|]. by eapply coin_is_node.
Qed.

(** C5: an instance reports its decision to its parent exactly once; the report
    carries the decided value, the deciding round and the key of the
    consensus, and handling further messages never changes the decision. *)
Theorem bin_consensus_report now me s :
  sign_verifies E -> envelope_ok E me -> report_ok E s ->
  wp (processMessage E now me) s (fun (q : res unit) s' =>
    report_ok E s' /\
    (bs_isDecided s = true ->
       bs_isDecided s' = true /\ bs_decidedValue s' = bs_decidedValue s /\
       bs_decidedRound s' = bs_decidedRound s /\
       decided_events s' = decided_events s)).
Proof.
  intros Hs Hok Hrep. eapply wp_mono; [by apply processMessage_steps|].
  cbv beta. intros q s' [Hst _]. split; [by eapply report_ok_steps|]. intros Hd.
  assert (extends s s') as Hx.
  { clear Hd Hrep. induction Hst; [apply extends_refl|].
    eauto using extends_trans, bin_step_extends. }
  destruct (ex_decided _ _ Hx Hd) as (Hd' & ? & ?). split_and!; try done.
  by eapply decided_events_steps.
Qed.
End Theorems.

Lemma demo_sign i : sign_verifies (node_env Demo.env Demo.sign i).
Proof. intros hash b r. cbn. unfold Demo.sign. lia. Qed.

Lemma demo_bls : bls_unique Demo.env.
Proof. by intros r set set' _ _ _ _. Qed.

Lemma demo_byz : 3 * zsize Demo.byz < be_nodeCount Demo.env.
Proof. unfold Demo.byz, zsize. rewrite size_singleton. cbn. lia. Qed.

(** The condition on the indices is needed.  When the transport accepts the
    messages of every member under every index, one Byzantine member of four, with
    signatures and the coin as they should be, makes two honest nodes decide
    differently, and one of them against the unanimous proposal of all honest
    nodes. *)
Theorem unbound_index_breaks_agreement :
  3 * zsize Demo.byz < be_nodeCount Demo.env /\ (forall i, sign_verifies (node_env Demo.env Demo.sign i)) /\
  bls_unique Demo.env /\ reachable Demo.env Demo.sign Demo.byz Demo.unbound Demo.own Demo.split_brain /\
  honest Demo.env Demo.byz 1 /\ honest Demo.env Demo.byz 2 /\ (forall i v, Demo.own i v -> v = 1) /\
  bs_isDecided (Demo.split_brain 1) = true /\ bs_isDecided (Demo.split_brain 2) = true /\
  bs_decidedValue (Demo.split_brain 1) = 1 /\ bs_decidedValue (Demo.split_brain 2) = 0.
Proof.
  split_and!; [by vm_compute|apply demo_sign|apply demo_bls|apply Demo.reachable_split_brain|apply Demo.honest_123; lia
    |apply Demo.honest_123; lia|done|by vm_compute..].
Qed.

(** ** Witnesses *)

Lemma bin_consensus_agreement_witness :
  bs_decidedValue (Demo.final 1) = bs_decidedValue (Demo.final 3).
Proof.
  apply (bin_consensus_agreement Demo.env Demo.sign Demo.byz Demo.bound Demo.own Demo.byz).
  - cbn; lia.
  - apply Demo.bound_within.
  - apply demo_byz.
  - apply demo_sign.
  - apply demo_bls.
  - apply Demo.reachable_final.
  - apply Demo.honest_123; lia.
  - apply Demo.honest_123; lia.
  - vm_compute; reflexivity.
  - vm_compute; reflexivity.
Defined.

Lemma bin_consensus_validity_witness : truthy (bs_decidedValue (Demo.final 2)) = true.
Proof.
  apply (bin_consensus_validity Demo.env Demo.sign Demo.byz Demo.bound Demo.own Demo.byz).
  - cbn; lia.
  - apply Demo.bound_within.
  - apply demo_byz.
  - apply demo_sign.
  - by intros k w _ ->.
  - apply Demo.reachable_final.
  - apply Demo.honest_123; lia.
  - vm_compute; reflexivity.
Defined.

Lemma bin_consensus_node_invariant_witness :
  bs_isDecided (Demo.final 2) = true /\
  quorum Demo.env (aux_senders (Demo.final 2) 1 0) /\ coin_is Demo.env 0 true.
Proof.
  assert (bs_isDecided (Demo.final 2) = true) as Hd by (vm_compute; reflexivity).
  split; [exact Hd|].
  destruct (bin_consensus_node_invariant Demo.env Demo.sign Demo.byz Demo.bound Demo.own Demo.final 2)
    as (_ & _ & _ & H).
  - cbn; lia.
  - apply demo_sign.
  - apply Demo.reachable_final.
  - apply Demo.honest_123; lia.
  - replace 1 with (bs_decidedValue (Demo.final 2)) by (vm_compute; reflexivity).
    replace 0 with (bs_decidedRound (Demo.final 2)) by (vm_compute; reflexivity).
    exact (H Hd).
Defined.

Lemma processMessage_refines_protocol_witness :
  (processMessage Demo.env 6 (Demo.envelope ORIGIN_PARENT 1 (Demo.proposal 1)) bin_init).1
    <> Err OutOfFuel.
Proof.
  apply (processMessage_refines_protocol Demo.env 6
    (Demo.envelope ORIGIN_PARENT 1 (Demo.proposal 1)) bin_init).
  - done.
  - done.
  - cbn; lia.
Defined.

Lemma bin_consensus_report_witness :
  report_ok Demo.env (processMessage Demo.env 6 Demo.forged (Demo.final 1)).2.
Proof.
  apply (bin_consensus_report Demo.env 6 Demo.forged (Demo.final 1)).
  - done.
  - done.
  - vm_compute. eexists; split; [reflexivity|split; [reflexivity|split; reflexivity]].
Defined.
