(* ===== verification/LruCache.v ===== *)
(** * The LRU cache

    Model of [cache::lru_cache] ([src/thirdparty/lrucache.hpp], part of the
    repository): a doubly linked list of key-value nodes, most recent first,
    and a hash map from keys to list iterators.  A node has an identity, and
    the map holds identities, as the source holds iterators.

    The refinement: under the representation invariant the list alone is the
    abstract cache, and every operation is its list operation.  The class
    [Cache] is what the components that keep such caches rely on. *)

From stdpp Require Import base tactics gmap list strings.
From Stdlib Require Import ZArith Lia.
From S2P Require Import Prelude.

Record lru_cache {K V : Type} `{Countable K} := LruCache {
  lru_items : list (nat * (K * V));
  lru_map : gmap K nat;
  lru_next : nat;
  lru_max_size : Z
}.
Arguments lru_cache K V {_ _}.
Arguments LruCache {K V _ _}.

Section LruCache.
Context {K V : Type} `{Countable K}.
Local Abbreviation cache := (lru_cache K V).
Implicit Types (c : cache) (k : K) (v : V).

Definition lru_new (max_size : Z) : cache := LruCache [] ∅ 0 max_size.

(** ** The operations *)

Definition existsUnsafe k c : bool := bool_decide (is_Some (lru_map c !! k)).

(** [list::erase] of an iterator. *)
Definition erase_node (id : nat) (items : list (nat * (K * V))) : list (nat * (K * V)) :=
  filter (fun x => x.1 <> id) items.

Definition find_node (id : nat) (items : list (nat * (K * V))) : option (nat * (K * V)) :=
  head (filter (fun x => x.1 = id) items).

(** [splice( begin(), list, it )]. *)
Definition splice_front (id : nat) (items : list (nat * (K * V))) : list (nat * (K * V)) :=
  match find_node id items with
  | Some x => x :: erase_node id items
  | None => items
  end.

Definition pop_back (items : list (nat * (K * V))) : list (nat * (K * V)) :=
  take (length items - 1) items.

Definition putUnsafe k v c : cache :=
  let it := lru_map c !! k in
  let id := lru_next c in
  let items := (id, (k, v)) :: lru_items c in
  let '(items, m) :=
    match it with
    | Some old => (erase_node old items, delete k (lru_map c))
    | None => (items, lru_map c)
    end in
  let m := <[k := id]> m in
  if lru_max_size c <? Z.of_nat (size m) then
    match last items with
    | Some (_, (klast, _)) =>
        LruCache (pop_back items) (delete klast m) (S id) (lru_max_size c)
    | None => LruCache items m (S id) (lru_max_size c)
    end
  else LruCache items m (S id) (lru_max_size c).

Definition lru_put k v : M cache unit := modify (putUnsafe k v).

Definition lru_putIfDoesNotExist k v : M cache bool :=
  c ← get;
  if existsUnsafe k c then mret false
  else modify (putUnsafe k v) ;; mret true.

(** The node an iterator points to; the source dereferences it. *)
Definition lru_find k c : option V :=
  id ← lru_map c !! k; x ← find_node id (lru_items c); Some x.2.2.

Definition lru_touch k c : cache :=
  match lru_map c !! k with
  | Some id => LruCache (splice_front id (lru_items c)) (lru_map c) (lru_next c) (lru_max_size c)
  | None => c
  end.

Definition lru_get k : M cache V :=
  c ← get;
  match lru_find k c with
  | None => throw StdRangeError
  | Some v => modify (lru_touch k) ;; mret v
  end.

Definition lru_getIfExists k : M cache (option V) :=
  c ← get;
  match lru_find k c with
  | None => mret None
  | Some v => modify (lru_touch k) ;; mret (Some v)
  end.

Definition lru_exists k : M cache bool := gets (existsUnsafe k).

Definition lru_size : M cache Z := gets (fun c => Z.of_nat (size (lru_map c))).

(** What a caller does through the pointer it got for [k]: the cached object
    is shared, so a change to it is a change in its node. *)
Definition lru_modify k (f : V -> V) c : cache :=
  LruCache (map (fun x => if decide (x.2.1 = k) then (x.1, (k, f x.2.2)) else x) (lru_items c))
    (lru_map c) (lru_next c) (lru_max_size c).

(** ** The representation invariant *)

Record lru_repr c : Prop := {
  li_ids : NoDup (lru_items c).*1;
  li_keys : NoDup (lru_items c).*2.*1;
  li_map : forall k id, lru_map c !! k = Some id <-> exists v, (id, (k, v)) ∈ lru_items c;
  li_next : forall id kv, (id, kv) ∈ lru_items c -> (id < lru_next c)%nat
}.

Definition lru_inv c : Prop :=
  lru_repr c /\ Z.of_nat (length (lru_items c)) <= lru_max_size c.

(** The abstract cache: the key-value pairs, most recent first. *)
Definition lru_list c : list (K * V) := (lru_items c).*2.

Definition assoc (l : list (K * V)) k : option V :=
  snd <$> head (filter (fun x => x.1 = k) l).

Definition lru_lookup c k : option V := assoc (lru_list c) k.

Definition without k (l : list (K * V)) : list (K * V) := filter (fun x => x.1 <> k) l.

(** The abstract operations. *)
Definition spec_put (max : Z) k v (l : list (K * V)) : list (K * V) :=
  take (Z.to_nat max) ((k, v) :: without k l).

Definition spec_touch k (l : list (K * V)) : list (K * V) :=
  match assoc l k with Some v => (k, v) :: without k l | None => l end.

(** *** Lists of pairs without duplicate keys *)
Lemma filter_singleton {A B} `{EqDecision B} (f : A -> B) (l : list A) a b :
  NoDup (f <$> l) -> a ∈ l -> f a = b -> filter (fun x => f x = b) l = [a].
Proof.
  induction l as [|x l IH]; intros Hnd Ha Hf; [by apply elem_of_nil in Ha|].
  cbn in Hnd. apply NoDup_cons in Hnd as [Hx Hnd].
  apply elem_of_cons in Ha as [->|Ha].
  - rewrite filter_cons_True by done. f_equal. apply filter_none.
    intros y Hy Heq. apply Hx. apply list_elem_of_fmap. exists y; split; congruence.
  - rewrite filter_cons_False; [by apply IH|]. intros Heq. apply Hx.
    apply list_elem_of_fmap. exists a; split; congruence.
Qed.

Lemma assoc_Some l k v :
  NoDup l.*1 -> assoc l k = Some v <-> (k, v) ∈ l.
Proof.
  intros Hnd; unfold assoc; split.
  - intros Hs. destruct (filter _ l) as [|[k' v'] f] eqn:Hf; [done|]. cbn in Hs; simplify_eq.
    assert ((k', v) ∈ filter (fun x => x.1 = k) l) as Hin by (rewrite Hf; left).
    apply list_elem_of_filter in Hin as [Hk Hin]. cbn in Hk; by subst.
  - intros Hin. by rewrite (filter_singleton fst l (k, v) k).
Qed.

Lemma assoc_None l k : assoc l k = None <-> forall v, (k, v) ∉ l.
Proof.
  unfold assoc. destruct (filter _ l) as [|[k' v'] f] eqn:Hf; cbn.
  - split; [|done]. intros _ v Hin.
    assert ((k, v) ∈ filter (fun x => x.1 = k) l) as Hin' by by apply list_elem_of_filter.
    rewrite Hf in Hin'. by apply elem_of_nil in Hin'.
  - split; [done|]. intros Hno. exfalso.
    assert ((k', v') ∈ filter (fun x => x.1 = k) l) as Hin by (rewrite Hf; left).
    apply list_elem_of_filter in Hin as [Hk Hin]. cbn in Hk; subst. by eapply Hno.
Qed.

Lemma elem_of_without k l x : x ∈ without k l <-> x.1 <> k /\ x ∈ l.
Proof. unfold without. by rewrite list_elem_of_filter. Qed.

Lemma assoc_without l k k' : k <> k' -> assoc (without k l) k' = assoc l k'.
Proof.
  intros Hk. unfold assoc, without. do 2 f_equal. induction l as [|[a b] l IH]; [done|].
  destruct (decide (a = k)) as [->|Ha].
  - rewrite filter_cons_False by naive_solver. rewrite (filter_cons_False _ (k, b)); done.
  - rewrite (filter_cons_True (fun x => x.1 <> k)) by done.
    destruct (decide (a = k')) as [->|Hb].
    + rewrite !(filter_cons_True (fun x => x.1 = k')) by done. by f_equal.
    + rewrite !(filter_cons_False (fun x => x.1 = k')) by done. done.
Qed.

Lemma fmap_filter {A B} (f : A -> B) (P : A -> Prop) (Q : B -> Prop)
    `{!forall x, Decision (P x)} `{!forall x, Decision (Q x)} (l : list A) :
  (forall x, x ∈ l -> P x <-> Q (f x)) -> f <$> filter P l = filter Q (f <$> l).
Proof.
  induction l as [|a l IH]; intros Hl; [done|]. rewrite fmap_cons.
  assert (f <$> filter P l = filter Q (f <$> l)) as IH' by (apply IH; intros; apply Hl; by right).
  assert (P a <-> Q (f a)) as Ha by (apply Hl; left).
  destruct (decide (P a)) as [HP|HP].
  - rewrite filter_cons_True, (filter_cons_True Q) by tauto. rewrite fmap_cons. by f_equal.
  - rewrite filter_cons_False, (filter_cons_False Q) by tauto. done.
Qed.

Lemma NoDup_fmap_filter {A B} (f : A -> B) (P : A -> Prop) `{!forall x, Decision (P x)} l :
  NoDup (f <$> l) -> NoDup (f <$> filter P l).
Proof.
  induction l as [|a l IH]; intros Hnd; [done|].
  rewrite fmap_cons in Hnd. apply NoDup_cons in Hnd as [Ha Hnd].
  destruct (decide (P a)); [rewrite filter_cons_True by done|rewrite filter_cons_False by done; auto].
  rewrite fmap_cons. apply NoDup_cons. split; [|auto]. intros Hin; apply Ha.
  apply list_elem_of_fmap in Hin as (x & -> & [_ Hx]%list_elem_of_filter).
  apply list_elem_of_fmap. eauto.
Qed.

(** *** What the invariant gives *)
Section Facts.
Context (c : cache) (Hi : lru_repr c).

Lemma lru_nodup : NoDup (lru_list c).*1.
Proof. apply (li_keys _ Hi). Qed.

Lemma lru_map_find k id :
  lru_map c !! k = Some id ->
  exists v, (id, (k, v)) ∈ lru_items c /\ find_node id (lru_items c) = Some (id, (k, v)).
Proof.
  intros Hm. apply (li_map _ Hi) in Hm as [v Hv]. exists v. split; [done|].
  unfold find_node. by rewrite (filter_singleton fst _ (id, (k, v)) id (li_ids _ Hi)).
Qed.

Lemma lru_lookup_node k v :
  lru_lookup c k = Some v <-> exists id, (id, (k, v)) ∈ lru_items c.
Proof.
  unfold lru_lookup. rewrite assoc_Some by apply lru_nodup. unfold lru_list.
  rewrite list_elem_of_fmap. split.
  - intros ([id [k' v']] & Heq & Hin). cbn in Heq; simplify_eq. eauto.
  - intros [id Hin]. by exists (id, (k, v)).
Qed.

Lemma lru_find_lookup k : lru_find k c = lru_lookup c k.
Proof.
  unfold lru_find. destruct (lru_map c !! k) as [id|] eqn:Hm; cbn.
  - destruct (lru_map_find k id Hm) as (v & Hin & Hf). rewrite Hf; cbn. symmetry.
    apply lru_lookup_node. eauto.
  - symmetry. destruct (lru_lookup c k) as [v|] eqn:Hl; [|done].
    apply lru_lookup_node in Hl as [id Hin].
    assert (lru_map c !! k = Some id) by (apply (li_map _ Hi); eauto). congruence.
Qed.

Lemma lru_map_lookup k : is_Some (lru_map c !! k) <-> is_Some (lru_lookup c k).
Proof.
  split.
  - intros [id Hm]. destruct (lru_map_find k id Hm) as (v & Hin & _). exists v.
    apply lru_lookup_node. eauto.
  - intros [v [id Hin]%lru_lookup_node]. exists id. apply (li_map _ Hi). eauto.
Qed.

Lemma existsUnsafe_lookup k : existsUnsafe k c = bool_decide (is_Some (lru_lookup c k)).
Proof. unfold existsUnsafe. apply bool_decide_ext, lru_map_lookup. Qed.

Lemma lru_map_size : size (lru_map c) = length (lru_items c).
Proof.
  rewrite <- length_map_to_list.
  rewrite <- (length_fmap (fun x : nat * (K * V) => (x.2.1, x.1)) (lru_items c)).
  apply Permutation_length, NoDup_Permutation.
  - apply NoDup_map_to_list.
  - apply (NoDup_fmap_1 fst). rewrite <- list_fmap_compose.
    pose proof (li_keys _ Hi) as Hk. by rewrite <- list_fmap_compose in Hk.
  - intros [k id]. rewrite elem_of_map_to_list, (li_map _ Hi), list_elem_of_fmap. split.
    + intros [v Hin]. by exists (id, (k, v)).
    + intros ([id' [k' v]] & Heq & Hin). cbn in Heq; simplify_eq. eauto.
Qed.

Lemma erase_node_list id k v :
  (id, (k, v)) ∈ lru_items c -> (erase_node id (lru_items c)).*2 = without k (lru_list c).
Proof.
  intros Hin. apply fmap_filter. intros [id' [k' v']] Hin'; cbn. split; intros Hne Heq; subst.
  - assert (lru_map c !! k = Some id) as H1 by (apply (li_map _ Hi); eauto).
    assert (lru_map c !! k = Some id') as H2 by (apply (li_map _ Hi); eauto). congruence.
  - assert (lru_map c !! k = Some id) as H1 by (apply (li_map _ Hi); eauto).
    assert (lru_map c !! k' = Some id) as H2 by (apply (li_map _ Hi); eauto).
    destruct (lru_map_find _ _ H1) as (w & _ & Hw), (lru_map_find _ _ H2) as (w' & _ & Hw').
    congruence.
Qed.

Lemma elem_of_erase_node id x : x ∈ erase_node id (lru_items c) <-> x.1 <> id /\ x ∈ lru_items c.
Proof. unfold erase_node. by rewrite list_elem_of_filter. Qed.

(** *** Splicing a node to the front *)
Lemma lru_touch_list k : lru_list (lru_touch k c) = spec_touch k (lru_list c).
Proof.
  unfold lru_touch, spec_touch. fold (lru_lookup c k). rewrite <- lru_find_lookup.
  unfold lru_find. destruct (lru_map c !! k) as [id|] eqn:Hm; cbn; [|done].
  destruct (lru_map_find k id Hm) as (v & Hin & Hf). unfold splice_front, lru_list; cbn.
  rewrite Hf; cbn. by rewrite (erase_node_list id k v).
Qed.

Lemma lru_touch_repr k :
  lru_repr (lru_touch k c) /\ length (lru_items (lru_touch k c)) = length (lru_items c).
Proof.
  unfold lru_touch. destruct (lru_map c !! k) as [id|] eqn:Hm; [|done].
  destruct (lru_map_find k id Hm) as (v & Hin & Hf). unfold splice_front. rewrite Hf.
  assert ((id, (k, v)) :: erase_node id (lru_items c) ≡ₚ lru_items c) as Hperm.
  { apply NoDup_Permutation.
    - apply NoDup_cons. split; [rewrite elem_of_erase_node; naive_solver|].
      apply (NoDup_fmap_1 fst), NoDup_fmap_filter, (li_ids _ Hi).
    - apply (NoDup_fmap_1 fst), (li_ids _ Hi).
    - intros x. rewrite elem_of_cons, elem_of_erase_node. split; [naive_solver|].
      intros Hx. destruct (decide (x.1 = id)) as [Heq|]; [left|by right].
      destruct x as [id' [k' v']]; cbn in *; subst id'.
      assert (lru_map c !! k' = Some id) as Hm' by (apply (li_map _ Hi); eauto).
      assert (find_node id (lru_items c) = Some (id, (k', v'))) as Hv'; [|congruence].
      unfold find_node. by rewrite (filter_singleton fst _ (id, (k', v')) id (li_ids _ Hi)). }
  revert Hperm. generalize ((id, (k, v)) :: erase_node id (lru_items c)). intros items Hperm.
  split; [constructor; cbn|cbn; by rewrite Hperm].
  - rewrite Hperm. apply (li_ids _ Hi).
  - rewrite Hperm. apply (li_keys _ Hi).
  - intros k' id'. rewrite (li_map _ Hi). by setoid_rewrite Hperm.
  - intros id' kv Hkv. rewrite Hperm in Hkv. by apply (li_next _ Hi) in Hkv.
Qed.

(** *** Erasing a node *)
Lemma erase_repr k id :
  lru_map c !! k = Some id ->
  lru_repr (LruCache (erase_node id (lru_items c)) (delete k (lru_map c)) (lru_next c)
    (lru_max_size c)).
Proof.
  intros Hm. destruct (lru_map_find k id Hm) as (v & Hin & Hf). constructor; cbn.
  - apply NoDup_fmap_filter, (li_ids _ Hi).
  - rewrite (erase_node_list id k v) by done. apply NoDup_fmap_filter, lru_nodup.
  - intros k' id'. rewrite lookup_delete_Some, (li_map _ Hi).
    setoid_rewrite elem_of_erase_node. cbn. split.
    + intros (Hk & w & Hw). exists w. split; [|done]. intros ->. apply Hk.
      assert (find_node id (lru_items c) = Some (id, (k', w))) as Hf'; [|congruence].
      unfold find_node. by rewrite (filter_singleton fst _ (id, (k', w)) id (li_ids _ Hi)).
    + intros (w & Hid & Hw). split; [|eauto]. intros <-. apply Hid.
      assert (lru_map c !! k = Some id') by (apply (li_map _ Hi); eauto). congruence.
  - intros id' kv [_ Hkv]%elem_of_erase_node. by apply (li_next _ Hi) in Hkv.
Qed.

Lemma length_erase_node k id :
  lru_map c !! k = Some id ->
  S (length (erase_node id (lru_items c))) = length (lru_items c).
Proof.
  intros Hm. pose proof (lru_touch_repr k) as [_ Hl]. revert Hl. unfold lru_touch. rewrite Hm.
  destruct (lru_map_find k id Hm) as (v & Hin & Hf). unfold splice_front. by rewrite Hf.
Qed.

Lemma pop_back_erase i kv :
  last (lru_items c) = Some (i, kv) -> pop_back (lru_items c) = erase_node i (lru_items c).
Proof.
  pose proof (li_ids _ Hi) as Hnd. unfold pop_back, erase_node.
  induction (lru_items c) as [|y items _] using rev_ind; [done|].
  rewrite last_snoc. intros [= ->]. rewrite length_app; cbn.
  replace (length items + 1 - 1)%nat with (length items) by lia. rewrite take_app_length.
  rewrite filter_app, (filter_cons_False _ (i, kv)), filter_nil, app_nil_r by naive_solver.
  rewrite fmap_app in Hnd. apply NoDup_app in Hnd as (_ & Hdisj & _).
  symmetry. apply filter_all. intros x Hx Heq.
  apply (Hdisj x.1); [by apply list_elem_of_fmap_2|]. rewrite Heq. by left.
Qed.

(** *** Adding a node *)
Lemma push_repr k v :
  lru_map c !! k = None ->
  lru_repr (LruCache ((lru_next c, (k, v)) :: lru_items c) (<[k := lru_next c]> (lru_map c))
    (S (lru_next c)) (lru_max_size c)).
Proof.
  intros Hm. constructor; cbn.
  - apply NoDup_cons. split; [|apply (li_ids _ Hi)].
    intros ([id kv] & Heq & Hin)%list_elem_of_fmap. apply (li_next _ Hi) in Hin.
    cbn in Heq; lia.
  - apply NoDup_cons. split; [|apply (li_keys _ Hi)].
    intros ([k' v'] & Heq & ([id kv] & Heq' & Hin)%list_elem_of_fmap)%list_elem_of_fmap.
    cbn in *; subst. assert (lru_map c !! k' = Some id) by (apply (li_map _ Hi); eauto).
    congruence.
  - intros k' id'. setoid_rewrite elem_of_cons.
    destruct (decide (k = k')) as [<-|Hk].
    + rewrite lookup_insert_eq. split; [naive_solver|]. intros (w & [?|Hin]); [naive_solver|].
      assert (lru_map c !! k = Some id') by (apply (li_map _ Hi); eauto). congruence.
    + rewrite lookup_insert_ne, (li_map _ Hi) by done. naive_solver.
  - intros id kv [[= -> ->]|Hin]%elem_of_cons; [lia|]. apply (li_next _ Hi) in Hin. lia.
Qed.
End Facts.

(** ** The refinement of [put] *)
Definition put_base k c : cache :=
  match lru_map c !! k with
  | Some old =>
      LruCache (erase_node old (lru_items c)) (delete k (lru_map c)) (lru_next c) (lru_max_size c)
  | None => c
  end.

Lemma put_base_repr k c :
  lru_repr c ->
  lru_repr (put_base k c) /\ lru_map (put_base k c) !! k = None /\
  lru_list (put_base k c) = without k (lru_list c) /\
  (length (lru_items (put_base k c)) <= length (lru_items c))%nat /\
  lru_next (put_base k c) = lru_next c /\ lru_max_size (put_base k c) = lru_max_size c.
Proof.
  intros Hi. unfold put_base. destruct (lru_map c !! k) as [old|] eqn:Hm; cbn.
  - destruct (lru_map_find c Hi k old Hm) as (v & Hin & _).
    split_and!; [by apply erase_repr|apply lookup_delete_eq|by eapply erase_node_list| |done..].
    pose proof (length_erase_node c Hi k old Hm). lia.
  - split_and!; try done. symmetry. apply filter_all. intros [k' v'] Hin; cbn; intros ->.
    destruct (lru_map_lookup c Hi k) as [_ Hx]. rewrite Hm in Hx.
    destruct Hx; [|done]. exists v'. apply assoc_Some; [by apply lru_nodup|done].
Qed.

Lemma putUnsafe_refines k v c :
  lru_inv c ->
  lru_inv (putUnsafe k v c) /\
  lru_list (putUnsafe k v c) = spec_put (lru_max_size c) k v (lru_list c) /\
  lru_max_size (putUnsafe k v c) = lru_max_size c.
Proof.
  intros [Hi Hmax]. destruct (put_base_repr k c Hi) as (Hb & Hnone & Hlist & Hlen & Hnx & Hmx).
  pose proof (push_repr _ Hb k v Hnone) as Hp.
  set (p := LruCache _ _ _ _) in Hp.
  assert (putUnsafe k v c =
    if lru_max_size c <? Z.of_nat (size (lru_map p)) then
      match last (lru_items p) with
      | Some (_, (klast, _)) =>
          LruCache (pop_back (lru_items p)) (delete klast (lru_map p)) (lru_next p) (lru_max_size p)
      | None => p
      end
    else p) as ->.
  { unfold putUnsafe, p, put_base. destruct (lru_map c !! k) as [old|] eqn:Hm; cbn [lru_items
      lru_map lru_next lru_max_size]; [|done].
    destruct (lru_map_find c Hi k old Hm) as (w & Hin & _). apply (li_next _ Hi) in Hin.
    assert (erase_node old ((lru_next c, (k, v)) :: lru_items c) =
      (lru_next c, (k, v)) :: erase_node old (lru_items c)) as ->; [|done].
    unfold erase_node. rewrite filter_cons_True; [done|]. cbn. lia. }
  assert (lru_list p = (k, v) :: without k (lru_list c)) as Hpl.
  { unfold lru_list, p; cbn. f_equal. exact Hlist. }
  assert (length (lru_items p) = S (length (lru_items (put_base k c)))) as Hplen by done.
  rewrite (lru_map_size p Hp).
  assert (length (without k (lru_list c)) = length (lru_items (put_base k c))) as Hwl.
  { rewrite <- Hlist. unfold lru_list. by rewrite length_fmap. }
  unfold spec_put. rewrite <- Hpl.
  destruct (Z.ltb_spec (lru_max_size c) (Z.of_nat (length (lru_items p)))) as [Hgt|Hle].
  - destruct (last (lru_items p)) as [[i [kl vl]]|] eqn:Hlast;
      [|apply last_None in Hlast; by rewrite Hlast in Hplen].
    rewrite (pop_back_erase p Hp i (kl, vl) Hlast).
    assert (lru_map p !! kl = Some i) as Hml.
    { apply (li_map _ Hp). exists vl. by apply last_Some_elem_of. }
    pose proof (length_erase_node p Hp kl i Hml) as Hle.
    split_and!; [split; [by apply erase_repr|]| |done].
    + cbn [lru_items lru_max_size]. change (lru_max_size p) with (lru_max_size (put_base k c)).
      lia.
    + rewrite <- (pop_back_erase p Hp i (kl, vl) Hlast). unfold lru_list; cbn [lru_items].
      unfold pop_back. rewrite fmap_take. f_equal. lia.
  - split_and!; [split; [done|]| |done].
    + cbn [lru_max_size]. unfold p at 2; cbn. lia.
    + rewrite take_ge; [done|]. unfold lru_list. rewrite length_fmap. lia.
Qed.

Lemma lru_new_inv max : 0 <= max -> lru_inv (lru_new max).
Proof.
  intros. split; [|cbn; lia]. constructor; cbn.
  - constructor.
  - constructor.
  - intros k id. rewrite lookup_empty. split; [done|]. by intros (v & ?%elem_of_nil).
  - by intros id kv ?%elem_of_nil.
Qed.

Lemma lru_touch_inv k c : lru_inv c -> lru_inv (lru_touch k c).
Proof.
  intros [Hi Hm]. destruct (lru_touch_repr c Hi k) as [Hr Hl]. split; [done|]. rewrite Hl.
  unfold lru_touch. by destruct (lru_map c !! k).
Qed.

Lemma lru_putUnsafe_inv k v c : lru_inv c -> lru_inv (putUnsafe k v c).
Proof. intros Hi. by destruct (putUnsafe_refines k v c Hi). Qed.

(** ** Lookups after the operations *)
Lemma assoc_cons k v l k' :
  assoc ((k, v) :: l) k' = if decide (k = k') then Some v else assoc l k'.
Proof.
  unfold assoc. case_decide; [by rewrite filter_cons_True|by rewrite filter_cons_False].
Qed.

Lemma lru_lookup_touch c k k' : lru_inv c -> lru_lookup (lru_touch k c) k' = lru_lookup c k'.
Proof.
  intros [Hi _]. unfold lru_lookup. rewrite (lru_touch_list c Hi). unfold spec_touch.
  destruct (assoc (lru_list c) k) as [v|] eqn:Ha; [|done]. rewrite assoc_cons.
  case_decide; [congruence|]. by apply assoc_without.
Qed.

Lemma lru_lookup_put c k v :
  lru_inv c -> 1 <= lru_max_size c -> lru_lookup (putUnsafe k v c) k = Some v.
Proof.
  intros Hi Hm. unfold lru_lookup. destruct (putUnsafe_refines k v c Hi) as (_ & -> & _).
  unfold spec_put. replace (Z.to_nat (lru_max_size c)) with (S (Z.to_nat (lru_max_size c - 1))) by lia.
  cbn [take]. rewrite assoc_cons. by rewrite decide_True.
Qed.

(** Another entry keeps its value or is evicted, never changed. *)
Lemma lru_lookup_put_ne c k v k' w :
  lru_inv c -> k <> k' -> lru_lookup (putUnsafe k v c) k' = Some w -> lru_lookup c k' = Some w.
Proof.
  intros Hi Hk. destruct (putUnsafe_refines k v c Hi) as ([Hp _] & Hl & _).
  unfold lru_lookup. rewrite assoc_Some by by apply lru_nodup. rewrite Hl.
  intros Hin. apply elem_of_take in Hin as (i & Hin & _).
  apply list_elem_of_lookup_2, elem_of_cons in Hin as [|[_ Hin]%elem_of_without]; [naive_solver|].
  apply assoc_Some; [apply lru_nodup, Hi|done].
Qed.

Lemma lru_modify_list k f c :
  lru_list (lru_modify k f c) =
  map (fun x => if decide (x.1 = k) then (k, f x.2) else x) (lru_list c).
Proof.
  unfold lru_list, lru_modify; cbn. induction (lru_items c) as [|[i [k' v]] l IH]; [done|].
  cbn. by case_decide; cbn; f_equal.
Qed.

Lemma lru_modify_nodes k f c id k' v :
  (id, (k', v)) ∈ lru_items (lru_modify k f c) <->
  exists w, (id, (k', w)) ∈ lru_items c /\ v = (if decide (k' = k) then f w else w).
Proof.
  unfold lru_modify; cbn. change (map ?g ?l) with (g <$> l). rewrite list_elem_of_fmap. split.
  - intros ([id' [k'' w]] & Heq & Hin). cbn in Heq. exists w. case_decide; simplify_eq.
    + by rewrite decide_True.
    + by rewrite decide_False.
  - intros (w & Hin & ->). exists (id, (k', w)). split; [|done]. cbn. by case_decide; subst.
Qed.

Lemma lru_modify_inv k f c : lru_inv c -> lru_inv (lru_modify k f c).
Proof.
  intros [Hi Hm]. split.
  - constructor.
    + pose proof (li_ids _ Hi) as Hids. revert Hids. unfold lru_modify; cbn.
      replace ((map _ (lru_items c)).*1) with ((lru_items c).*1); [done|].
      change (map ?g ?l) with (g <$> l). rewrite <- list_fmap_compose. apply list_fmap_ext.
      intros i [id [k' v]] _. cbn. by case_decide.
    + fold (lru_list (lru_modify k f c)). rewrite lru_modify_list.
      change (map ?g ?l) with (g <$> l). rewrite <- list_fmap_compose.
      replace (_ <$> lru_list c) with ((lru_list c).*1); [by apply lru_nodup|].
      apply list_fmap_ext. intros i [k' v] _. cbn. by case_decide.
    + intros k' id. change (lru_map (lru_modify k f c)) with (lru_map c).
      rewrite (li_map _ Hi). setoid_rewrite lru_modify_nodes. naive_solver.
    + intros id [k' v] (w & Hin & _)%lru_modify_nodes. by apply (li_next _ Hi) in Hin.
  - unfold lru_modify; cbn. by rewrite length_map.
Qed.

Lemma lru_lookup_modify k f c k' :
  lru_lookup (lru_modify k f c) k' =
  if decide (k = k') then f <$> lru_lookup c k' else lru_lookup c k'.
Proof.
  unfold lru_lookup. rewrite lru_modify_list.
  induction (lru_list c) as [|[a v] l IH]; cbn [map].
  - by case_decide.
  - cbn [fst snd]. destruct (decide (a = k)) as [->|Ha]; rewrite !assoc_cons, IH;
      repeat case_decide; subst; done.
Qed.

Lemma lru_modify_max k f c : lru_max_size (lru_modify k f c) = lru_max_size c.
Proof. done. Qed.

Lemma lru_touch_max k c : lru_max_size (lru_touch k c) = lru_max_size c.
Proof. unfold lru_touch. by destruct (lru_map c !! k). Qed.

Lemma lru_put_max k v c : lru_inv c -> lru_max_size (putUnsafe k v c) = lru_max_size c.
Proof. intros Hi. by destruct (putUnsafe_refines k v c Hi) as (_ & _ & ?). Qed.

(** ** Weakest preconditions of the methods *)
Lemma wp_lru_get k c (Q : res V -> cache -> Prop) :
  lru_inv c ->
  (forall v, lru_lookup c k = Some v -> Q (Ok v) (lru_touch k c)) ->
  (lru_lookup c k = None -> Q (Err StdRangeError) c) -> wp (lru_get k) c Q.
Proof.
  intros [Hi _] Hs Hn. unfold lru_get. wp_simpl. rewrite (lru_find_lookup c Hi).
  destruct (lru_lookup c k); wp_simpl; auto.
Qed.

Lemma wp_lru_getIfExists k c (Q : res (option V) -> cache -> Prop) :
  lru_inv c -> Q (Ok (lru_lookup c k)) (lru_touch k c) -> wp (lru_getIfExists k) c Q.
Proof.
  intros [Hi _] Hs. unfold lru_getIfExists. wp_simpl. rewrite (lru_find_lookup c Hi).
  destruct (lru_lookup c k) eqn:Hl; wp_simpl; [done|].
  assert (lru_touch k c = c) as Ht; [|by rewrite Ht in Hs].
  unfold lru_touch. destruct (lru_map c !! k) eqn:Hm; [|done].
  destruct (proj1 (lru_map_lookup c Hi k)); [by rewrite Hm|congruence].
Qed.

Lemma wp_lru_exists k c (Q : res bool -> cache -> Prop) :
  lru_inv c -> Q (Ok (bool_decide (is_Some (lru_lookup c k)))) c -> wp (lru_exists k) c Q.
Proof.
  intros [Hi _] HQ. unfold lru_exists. wp_simpl. by rewrite (existsUnsafe_lookup c Hi).
Qed.

(** Entries survive: the [j]-th most recent entry is at most one place further
    back after an operation on another key. *)
Definition recent (j : nat) k v c : Prop := (k, v) ∈ take j (lru_list c).

Lemma recent_lookup j k v c : lru_inv c -> recent j k v c -> lru_lookup c k = Some v.
Proof.
  intros [Hi _] Hr. apply assoc_Some; [by apply lru_nodup|].
  apply elem_of_take in Hr as (i & Hi' & _). by eapply list_elem_of_lookup_2.
Qed.

Lemma take_without (j : nat) k (l : list (K * V)) x :
  x ∈ take j l -> x.1 <> k -> x ∈ take j (without k l).
Proof.
  revert l. induction j as [|j IH]; intros l; [cbn; by intros ?%elem_of_nil|].
  destruct l as [|y l]; [done|]. cbn [take]. intros Hx Hk. unfold without.
  destruct (decide (y.1 = k)) as [Hy|Hy].
  - rewrite filter_cons_False by naive_solver. apply elem_of_cons in Hx as [->|Hx]; [done|].
    apply IH in Hx; [|done]. apply elem_of_take in Hx as (i & ? & ?).
    apply elem_of_take. exists i. split; [done|lia].
  - rewrite filter_cons_True by done. cbn [take].
    apply elem_of_cons in Hx as [->|Hx]; [by left|]. right. by apply IH.
Qed.

Lemma recent_put j k v k' w c :
  lru_inv c -> k <> k' -> recent j k v c -> Z.of_nat (S j) <= lru_max_size c ->
  recent (S j) k v (putUnsafe k' w c).
Proof.
  intros Hi Hk Hr Hj. unfold recent. destruct (putUnsafe_refines k' w c Hi) as (_ & -> & _).
  unfold spec_put. rewrite take_take, Nat.min_l by lia. cbn [take]. right.
  by apply take_without.
Qed.
End LruCache.

(** ** What the cache guarantees *)

(** C38: the cache implements its list specification: [put] moves the pair to the
    front, drops an older value of the key and evicts the oldest entry beyond
    the maximal size; [get] and [getIfExists] return the value of the key and
    move it to the front, and fail exactly when there is none; [exists] and
    [size] read the list; the representation invariant between list and hash
    map is kept. *)
Theorem lru_cache_refinement {K V} `{Countable K} (c : lru_cache K V) (k : K) (v : V) :
  lru_inv c ->
  wp (lru_put k v) c (fun (r : res unit) c' =>
    r = Ok tt /\ lru_inv c' /\ lru_list c' = spec_put (lru_max_size c) k v (lru_list c)) /\
  wp (lru_putIfDoesNotExist k v) c (fun (r : res bool) c' =>
    lru_inv c' /\
    match assoc (lru_list c) k with
    | Some _ => r = Ok false /\ c' = c
    | None => r = Ok true /\ lru_list c' = spec_put (lru_max_size c) k v (lru_list c)
    end) /\
  wp (lru_get k) c (fun (r : res V) c' =>
    lru_inv c' /\ lru_list c' = spec_touch k (lru_list c) /\
    r = match assoc (lru_list c) k with Some w => Ok w | None => Err StdRangeError end) /\
  wp (lru_getIfExists k) c (fun (r : res (option V)) c' =>
    lru_inv c' /\ lru_list c' = spec_touch k (lru_list c) /\ r = Ok (assoc (lru_list c) k)) /\
  wp (lru_exists k) c (fun (r : res bool) c' =>
    c' = c /\ r = Ok (bool_decide (is_Some (assoc (lru_list c) k)))) /\
  wp lru_size c (fun (r : res Z) c' => c' = c /\ r = Ok (zlen (lru_list c))).
Proof.
  intros Hi. pose proof Hi as [Hr _].
  destruct (putUnsafe_refines k v c Hi) as (Hpi & Hpl & _).
  split_and!.
  - done.
  - unfold lru_putIfDoesNotExist. wp_simpl. rewrite (existsUnsafe_lookup c Hr).
    unfold lru_lookup. destruct (assoc (lru_list c) k) eqn:Ha;
      [rewrite bool_decide_eq_true_2 by eauto; by wp_simpl|].
    rewrite bool_decide_eq_false_2 by (by intros [? ?]). by wp_simpl.
  - apply wp_lru_get; [done|..].
    + intros w Hw. rewrite (lru_touch_list c Hr). unfold lru_lookup in Hw. rewrite Hw.
      split_and!; [by apply lru_touch_inv|done..].
    + intros Hw. unfold lru_lookup in Hw. unfold spec_touch. by rewrite Hw.
  - apply wp_lru_getIfExists; [done|]. rewrite (lru_touch_list c Hr).
    split_and!; [by apply lru_touch_inv|done..].
  - split; [done|]. unfold lru_exists, gets; cbn. by rewrite (existsUnsafe_lookup c Hr).
  - split; [done|]. unfold lru_size, gets, zlen; cbn.
    rewrite (lru_map_size c Hr). unfold lru_list. by rewrite length_fmap.
Qed.

Definition lru_demo : lru_cache Z Z :=
  putUnsafe 3 30 (putUnsafe 2 20 (putUnsafe 1 10 (lru_new 2))).

Lemma lru_demo_inv : lru_inv lru_demo.
Proof. repeat apply lru_putUnsafe_inv. by apply lru_new_inv. Qed.

Lemma lru_cache_refinement_witness :
  (lru_get 3 lru_demo).1 = Ok 30 /\ (lru_get 1 lru_demo).1 = Err StdRangeError.
Proof.
  split.
  - exact (proj2 (proj2 (proj1 (proj2 (proj2 (lru_cache_refinement lru_demo 3 0 lru_demo_inv)))))).
  - exact (proj2 (proj2 (proj1 (proj2 (proj2 (lru_cache_refinement lru_demo 1 0 lru_demo_inv)))))).
Defined.

(** a cached entry is found with its value until at least as many other
    entries as the cache holds have been put after it. *)
Theorem lru_entry_survives {K V} `{Countable K} (c : lru_cache K V) (k : K) (v : V)
    (later : list (K * V)) :
  lru_inv c -> Forall (fun x => x.1 <> k) later -> zlen later < lru_max_size c ->
  lru_lookup (foldl (fun c x => putUnsafe x.1 x.2 c) (putUnsafe k v c) later) k = Some v.
Proof.
  intros Hi Hne Hlen.
  assert (forall j c, lru_inv c -> recent j k v c ->
    Z.of_nat j + zlen later <= lru_max_size c ->
    lru_lookup (foldl (fun c x => putUnsafe x.1 x.2 c) c later) k = Some v) as Hgo.
  { clear c Hi Hlen. induction later as [|[k' w] later IH]; intros j c Hi Hr Hj; cbn.
    - by eapply recent_lookup.
    - apply Forall_cons in Hne as [Hk Hne]. unfold zlen in *; cbn in *.
      destruct (putUnsafe_refines k' w c Hi) as (Hi' & _ & Hm).
      eapply (IH Hne (S j)); [done| |rewrite Hm; lia]. apply recent_put; auto; lia. }
  destruct (putUnsafe_refines k v c Hi) as (Hi' & Hl & Hm).
  apply (Hgo 1%nat); [done| |rewrite Hm; lia]. unfold recent. rewrite Hl. unfold spec_put.
  rewrite take_take, Nat.min_l by (pose proof (zlen_nonneg later); lia). by left.
Qed.

Lemma lru_entry_survives_witness :
  lru_lookup (foldl (fun c x => putUnsafe x.1 x.2 c) (putUnsafe 7 70 (lru_new 3))
    [(1, 10); (2, 20)]) 7 = Some 70.
Proof.
  apply (lru_entry_survives (lru_new 3) 7 70 [(1, 10); (2, 20)]).
  - by apply lru_new_inv.
  - repeat (apply Forall_cons; split; [cbn; lia|]). by apply Forall_nil.
  - by vm_compute.
Defined.
