(* ===== verification/LevelDb.v ===== *)
(** * The rotating database

    Model of [CacheLevelDB] ([src/db/CacheLevelDB.cpp]), the base class of the
    node's databases: four LevelDB shards, the newest of which is written; a
    full shard is followed by a new one and the oldest is dropped.  LevelDB
    itself is a library outside the repository: it is the class [KVStore], a
    store with the statuses and the contents that its documentation promises.

    Locks guard every operation and are not modelled; neither are the
    statistics of reads and writes. *)

From stdpp Require Import base tactics gmap list strings.
From Stdlib Require Import ZArith Lia.
From S2P Require Import Prelude Bytes.

(** ** The store behind a shard *)

(** An opened LevelDB store.  [kv_map] is its contents; an operation returns
    its status, [Err] for any but [OK] and [NotFound]. *)
Class KVStore (D : Type) := {
  kv_map : D -> gmap string string;
  kv_open : option D -> res D;
  kv_get : D -> string -> res (option string);
  kv_write : list (string * string) -> D -> res D;
  kv_scan : D -> string -> gmap string string;
  kv_file_size : D -> Z;
  kv_open_map o d : kv_open o = Ok d -> kv_map d = from_option kv_map ∅ o;
  kv_get_map d k v : kv_get d k = Ok v -> v = kv_map d !! k;
  kv_write_map b d d' :
    kv_write b d = Ok d' -> kv_map d' = foldl (fun m kv => <[kv.1 := kv.2]> m) (kv_map d) b;
  kv_scan_map d p : kv_scan d p = filter (fun kv => String.prefix p kv.1 = true) (kv_map d)
}.

(** A store whose operations all return [OK] or [NotFound]. *)
Class HealthyStore (D : Type) `{KVStore D} := {
  healthy_open o : exists d, kv_open o = Ok d;
  healthy_get d k : kv_get d k = Ok (kv_map d !! k);
  healthy_write b d : exists d', kv_write b d = Ok d'
}.

(** The reference store: the contents themselves. *)
#[export] Program Instance map_store : KVStore (gmap string string) := {|
  kv_map m := m;
  kv_open o := Ok (default ∅ o);
  kv_get m k := Ok (m !! k);
  kv_write b m := Ok (foldl (fun m kv => <[kv.1 := kv.2]> m) m b);
  kv_scan m p := filter (fun kv => String.prefix p kv.1 = true) m;
  kv_file_size m := Z.of_nat (size m)
|}.
Next Obligation. intros [m|] d; cbn; congruence. Qed.
Next Obligation. cbn; congruence. Qed.
Next Obligation. cbn; congruence. Qed.
Next Obligation. done. Qed.

#[export] Instance map_store_healthy : HealthyStore (gmap string string).
Proof. constructor; cbn; eauto. Qed.

Definition LEVELDB_SHARDS : nat := 4.

Record level_db {D : Type} := LevelDb {
  ld_db : list (option D);
  ld_highestDBIndex : Z;
  ld_dirs : gset Z
}.
Arguments level_db : clear implicits.
Arguments LevelDb {D}.

(** What the constructor gets: the format version of the subclass, the numbers
    of signers of the chain and the size limit of a shard. *)
Record db_config := {
  dc_version : string;
  dc_totalSigners : Z;
  dc_requiredSigners : Z;
  dc_maxDBSize : Z
}.

(** ** Keys *)
Section Keys.
Context (cfg : db_config).

Definition createKey1 (blockId : Z) : string :=
  dc_version cfg +:+ ":" +:+ to_string blockId.

Definition createKey2 (blockId index : Z) : string :=
  dc_version cfg +:+ ":" +:+ to_string blockId +:+ ":" +:+ to_string index.

Definition createKey3 (blockId proposerIndex senderIndex : Z) : string :=
  dc_version cfg +:+ ":" +:+ to_string blockId +:+ ":" +:+ to_string proposerIndex +:+ ":" +:+
    to_string senderIndex.

Definition createCounterKey (blockId : Z) : string :=
  dc_version cfg +:+ ":COUNTER:" +:+ to_string blockId.
End Keys.

(** ** The operations *)
Section CacheLevelDB.
Context {D : Type} `{KVStore D}.
Context (cfg : db_config).
Local Abbreviation state := (level_db D).

Definition set_db (db : list (option D)) (s : state) : state :=
  LevelDb db (ld_highestDBIndex s) (ld_dirs s).

(** [throwExceptionOnError( status )]. *)
Definition throwExceptionOnError {A} (r : res A) : M state A :=
  match r with Ok a => mret a | Err _ => throw LevelDBException end.

(** [db.at( i )] with the check of the pointer. *)
Definition db_at (i : nat) : M state D :=
  s ← get;
  match ld_db s !! i with
  | None => throw StdOutOfRange
  | Some None => throw InvalidStateException
  | Some (Some d) => mret d
  end.

(** The loops [for ( int i = LEVELDB_SHARDS - 1; i >= 0; i-- )] that look for
    the newest shard with a key. *)
Fixpoint find_key (shards : list nat) (key : string) : M state (option (nat * string)) :=
  match shards with
  | [] => mret None
  | i :: shards =>
      d ← db_at i;
      r ← throwExceptionOnError (kv_get d key);
      match r with
      | Some v => mret (Some (i, v))
      | None => find_key shards key
      end
  end.

Definition newest_first : list nat := reverse (seq 0 LEVELDB_SHARDS).

Definition readStringUnsafe (key : string) : M state string :=
  r ← find_key newest_first key;
  mret (from_option snd ""%string r).

Definition readString (key : string) : M state string := readStringUnsafe key.

Definition keyExistsUnsafe (key : string) : M state bool :=
  r ← find_key newest_first key;
  mret (bool_decide (is_Some r)).

Definition keyExists (key : string) : M state bool := keyExistsUnsafe key.

Definition readStringFromSet (blockId index : Z) : M state string :=
  readString (createKey2 cfg blockId index).

Definition keyExistsInSet (blockId index : Z) : M state bool :=
  keyExists (createKey2 cfg blockId index).

(** A LevelDB write to shard [i]. *)
Definition write_shard (onError : exn) (i : nat) (batch : list (string * string)) : M state unit :=
  d ← db_at i;
  match kv_write batch d with
  | Ok d' => modify (fun s => set_db (<[i := Some d']> (ld_db s)) s)
  | Err _ => throw onError
  end.

(** [db.back()]. *)
Definition db_back : M state nat := gets (fun s => (length (ld_db s) - 1)%nat).

(** *** Rotation *)
Definition getActiveDBSize : M state Z :=
  s ← get;
  if bool_decide (ld_highestDBIndex s ∈ ld_dirs s) then
    i ← db_back; d ← db_at i; mret (kv_file_size d)
  else mret 0.

Definition openDB (disk : option D) : M state D :=
  nested InvalidStateException
    match kv_open disk with
    | Ok d => mret d
    | Err _ => throw InvalidStateException
    end.

(** The largest and the smallest index of the directories [db.<index>]; an
    index of [0] is skipped. *)
Definition findMaxMinDBIndex (dirs : gset Z) : Z * Z :=
  match filter (fun i => i <> 0) (elements dirs) with
  | [] => (0, 0)
  | i :: l => (foldr Z.max i l, foldr Z.min i l)
  end.

Definition verify : M state unit :=
  s ← get;
  CHECK_STATE (bool_decide (length (ld_db s) = LEVELDB_SHARDS)) ;;
  CHECK_STATE (bool_decide (Forall is_Some (ld_db s))).

(** The [while] loop that removes the directories of dropped shards. *)
Fixpoint removeOldDBs (fuel : nat) : M state unit :=
  match fuel with
  | O => throw OutOfFuel
  | S fuel =>
      s ← get;
      let minIndex := (findMaxMinDBIndex (ld_dirs s)).2 in
      if minIndex + Z.of_nat LEVELDB_SHARDS <=? ld_highestDBIndex s then
        if minIndex =? 0 then mret tt
        else
          modify (fun s => LevelDb (ld_db s) (ld_highestDBIndex s) (ld_dirs s ∖ {[minIndex]})) ;;
          removeOldDBs fuel
      else verify
  end.

Definition rotateDBsIfNeeded : M state unit :=
  nested InvalidStateException
    (size1 ← getActiveDBSize;
     if size1 <=? dc_maxDBSize cfg then mret tt
     else
       newDB ← openDB None;
       modify (fun s =>
         LevelDb (drop 1 (take LEVELDB_SHARDS (ld_db s)) ++ [Some newDB])
           (ld_highestDBIndex s + 1)
           ({[ld_highestDBIndex s + 1]} ∪ ld_dirs s)) ;;
       s ← get;
       removeOldDBs (S (size (ld_dirs s)))).

(** *** Writing *)
Definition writeString (key value : string) (overWrite : bool) : M state unit :=
  rotateDBsIfNeeded ;;
  dup ← (if overWrite then mret false else keyExistsUnsafe key);
  if (dup : bool) then mret tt
  else i ← db_back; write_shard LevelDBException i [(key, value)].

(** [writeByteArray( const char*, ... )]. *)
Definition writeByteArray (key value : string) : M state unit :=
  rotateDBsIfNeeded ;;
  dup ← keyExistsUnsafe key;
  if (dup : bool) then mret tt
  else i ← db_back; write_shard LevelDBException i [(key, value)].

(** [writeByteArray( string&, ... )] does not look for an old entry. *)
Definition writeByteArrayOver (key value : string) : M state unit :=
  rotateDBsIfNeeded ;;
  i ← db_back; write_shard LevelDBException i [(key, value)].

(** *** Range reads *)
Fixpoint range_loop (shards : list nat) (prefix : string) (result : option (gmap string string)) :
    M state (option (gmap string string)) :=
  match shards with
  | [] => mret result
  | i :: shards =>
      d ← db_at i;
      let partialResult := kv_scan d prefix in
      range_loop shards prefix
        (Some (match result with Some m => m ∪ partialResult | None => partialResult end))
  end.

Definition readPrefixRange (prefix : string) : M state (option (gmap string string)) :=
  range_loop newest_first prefix None.

(** *** Sets of signatures *)
Definition readCount (blockId : Z) : M state Z :=
  countString ← readString (createCounterKey cfg blockId);
  if bool_decide (countString = ""%string) then mret 0
  else
    match stoull countString with
    | Ok result => mret (if result <=? dc_totalSigners cfg then result else 0)
    | Err _ => mret 0
    end.

Definition isEnough (blockId : Z) : M state bool :=
  c ← readCount blockId; mret (dc_requiredSigners cfg <=? c).

(** The loop over the signers that collects the entries of a block. *)
Fixpoint collect (signers : list Z) (blockId : Z) (acc : gmap Z string) :
    M state (gmap Z string) :=
  match signers with
  | [] => mret acc
  | i :: signers =>
      entry ← readStringUnsafe (createKey2 cfg blockId i);
      let acc := if bool_decide (entry = ""%string) then acc else <[i := entry]> acc in
      if Z.of_nat (size acc) =? dc_requiredSigners cfg then mret acc
      else collect signers blockId acc
  end.

Definition signer_indices : list Z := seqZ 1 (dc_totalSigners cfg).

Definition readSetUnsafe (blockId : Z) : M state (gmap Z string) :=
  collect signer_indices blockId ∅.

Definition readSet (blockId : Z) : M state (gmap Z string) := readSetUnsafe blockId.

Definition writeByteArrayToSetUnsafe (value : string) (blockId index : Z) :
    M state (option (gmap Z string)) :=
  CHECK_ARGUMENT ((0 <? index) && (index <=? dc_totalSigners cfg)) ;;
  let entryKey := createKey2 cfg blockId index in
  CHECK_STATE (bool_decide (entryKey <> ""%string)) ;;
  dup ← keyExistsUnsafe entryKey;
  if (dup : bool) then mret None
  else
    let counterKey := createCounterKey cfg blockId in
    found ← find_key newest_first counterKey;
    back ← db_back;
    let '(containingDb, count) :=
      match found with
      | Some (i, result) => (i, stoull result)
      | None => (back, Ok 0)
      end in
    match count with
    | Err _ => mret None
    | Ok count =>
        let count := u64 (count + 1) in
        write_shard InvalidStateException containingDb
          [(counterKey, to_string count); (entryKey, value)] ;;
        if negb (count =? dc_requiredSigners cfg) then mret None
        else
          enoughSet ← readSetUnsafe blockId;
          CHECK_STATE (Z.of_nat (size enoughSet) =? dc_requiredSigners cfg) ;;
          mret (Some enoughSet)
    end.

Definition writeByteArrayToSet (value : string) (blockId index : Z) :
    M state (option (gmap Z string)) :=
  rotateDBsIfNeeded ;; writeByteArrayToSetUnsafe value blockId index.

Definition writeStringToSet (value : string) (blockId index : Z) :
    M state (option (gmap Z string)) :=
  writeByteArrayToSet value blockId index.

(** *** Opening and destroying *)

(** The constructor on the directories and stores that are on disk. *)
Fixpoint openDBs (disk : gmap Z D) (indices : list Z) : M state unit :=
  match indices with
  | [] => mret tt
  | i :: indices =>
      d ← openDB (disk !! i);
      modify (fun s => LevelDb (ld_db s ++ [Some d]) (ld_highestDBIndex s) ({[i]} ∪ ld_dirs s)) ;;
      openDBs disk indices
  end.

Definition construct (disk : gmap Z D) : M state unit :=
  CHECK_ARGUMENT (0 <? dc_maxDBSize cfg) ;;
  let maxIndex := (findMaxMinDBIndex (dom disk)).1 in
  let highest := if maxIndex <? Z.of_nat LEVELDB_SHARDS then Z.of_nat LEVELDB_SHARDS else maxIndex in
  put (LevelDb [] highest (dom disk)) ;;
  openDBs disk (seqZ (highest - Z.of_nat LEVELDB_SHARDS + 1) (Z.of_nat LEVELDB_SHARDS)) ;;
  verify.

(** [DestroyDB( index2Path( i ) )] removes the directory [db.<i>]. *)
Definition destroy : M state unit :=
  mapM_ (fun i =>
    db_at i ;;
    modify (fun s => LevelDb (<[i := None]> (ld_db s)) (ld_highestDBIndex s)
      (ld_dirs s ∖ {[Z.of_nat i]}))) newest_first.
End CacheLevelDB.

(** ** Reading the shards *)
Section Reads.
Context {D : Type} `{HealthyStore D}.
Local Abbreviation state := (level_db D).
Implicit Types (s : state) (k : string).

(** The invariant of the shards, and the contents of one of them. *)
Definition db_wf s : Prop :=
  length (ld_db s) = LEVELDB_SHARDS /\ Forall is_Some (ld_db s).

Definition shard_map s (i : nat) : gmap string string :=
  match ld_db s !! i with Some (Some d) => kv_map d | _ => ∅ end.

Fixpoint locate_in (shards : list nat) s k : option (nat * string) :=
  match shards with
  | [] => None
  | i :: shards =>
      match shard_map s i !! k with
      | Some v => Some (i, v)
      | None => locate_in shards s k
      end
  end.

(** The newest shard with the key, and its value. *)
Definition locate s k : option (nat * string) := locate_in newest_first s k.

(** What the database holds for a key. *)
Definition db_lookup s k : option string := snd <$> locate s k.

Lemma db_wf_shard s i :
  db_wf s -> (i < LEVELDB_SHARDS)%nat -> exists d, ld_db s !! i = Some (Some d).
Proof.
  intros [Hl Hs] Hi. destruct (lookup_lt_is_Some_2 (ld_db s) i) as [o Ho]; [lia|].
  rewrite Forall_lookup in Hs. destruct (Hs _ _ Ho) as [d ->]. eauto.
Qed.

Lemma find_key_locate s l k :
  db_wf s -> Forall (fun i => (i < LEVELDB_SHARDS)%nat) l ->
  find_key l k s = (Ok (locate_in l s k), s).
Proof.
  intros Hwf Hl. induction Hl as [|i l Hi _ IH]; [done|]. cbn [find_key locate_in].
  destruct (db_wf_shard s i Hwf Hi) as [d Hd]. unfold shard_map. rewrite Hd.
  cbv [mbind M_bind db_at get throwExceptionOnError]. rewrite Hd. cbn. rewrite healthy_get. cbn.
  by destruct (kv_map d !! k).
Qed.

Lemma newest_first_lt : Forall (fun i => (i < LEVELDB_SHARDS)%nat) newest_first.
Proof. apply Forall_reverse, Forall_seq. intros; lia. Qed.

Lemma wp_find_key s k (Q : res (option (nat * string)) -> state -> Prop) :
  db_wf s -> Q (Ok (locate s k)) s -> wp (find_key newest_first k) s Q.
Proof. intros Hwf HQ. unfold wp. by rewrite find_key_locate by auto using newest_first_lt. Qed.

(** Range reads: the newest value of every key with the prefix. *)
Lemma range_loop_run l p r s :
  db_wf s -> Forall (fun i => (i < LEVELDB_SHARDS)%nat) l ->
  exists r', range_loop l p r s = (Ok r', s) /\ (r' = None -> r = None /\ l = []) /\
    forall k, default ∅ r' !! k =
      default ∅ r !! k ∪ (if String.prefix p k then snd <$> locate_in l s k else None).
Proof.
  intros Hwf Hl. revert r. induction Hl as [|i l Hi _ IH]; intros r; cbn [range_loop locate_in].
  { exists r. split_and!; [done..|]. intros k. destruct (String.prefix p k); cbn; by rewrite option_union_right_id. }
  destruct (db_wf_shard s i Hwf Hi) as [d Hd]. unfold shard_map. rewrite Hd.
  unfold mbind, M_bind, db_at, mbind, M_bind, get. rewrite Hd. cbn [lift_res mret M_ret].
  edestruct IH as (r' & Hr & Hnone & Hk). exists r'. split; [exact Hr|]. split; [by intros [? _]%Hnone|].
  intros k. rewrite Hk.
  assert (kv_scan d p !! k = if String.prefix p k then kv_map d !! k else None) as Hscan.
  { rewrite kv_scan_map, map_lookup_filter. destruct (kv_map d !! k) as [v|]; cbn; [|by destruct (String.prefix p k)].
    destruct (String.prefix p k) eqn:Hp; cbn; [by rewrite option_guard_True|by rewrite option_guard_False by (cbn; congruence)]. }
  destruct r as [m|]; cbn [default from_option id]; rewrite ?lookup_union, Hscan, ?lookup_empty.
  all: destruct (String.prefix p k); try (by rewrite ?option_union_right_id).
  all: destruct (kv_map d !! k) as [v|]; cbn; rewrite ?option_union_right_id, ?option_union_left_id; try done.
  - by destruct (m !! k), (locate_in l s k).
  - by destruct (locate_in l s k).
Qed.

Lemma readPrefixRange_run p s :
  db_wf s -> exists m, readPrefixRange p s = (Ok (Some m), s) /\
    forall k, m !! k = if String.prefix p k then db_lookup s k else None.
Proof.
  intros Hwf. destruct (range_loop_run newest_first p None s Hwf newest_first_lt) as (r & Hr & Hn & Hk).
  destruct r as [m|]; [|by destruct Hn]. exists m. split; [exact Hr|]. intros k. specialize (Hk k).
  cbn [default from_option id] in Hk. by rewrite Hk, lookup_empty, option_union_left_id.
Qed.

Lemma locate_in_Some l s k i v :
  locate_in l s k = Some (i, v) -> i ∈ l /\ shard_map s i !! k = Some v.
Proof.
  induction l as [|j l IH]; cbn; [done|]. destruct (shard_map s j !! k) eqn:Hj.
  - intros [= -> ->]. split; [by left|done].
  - intros [? ?]%IH. split; [by right|done].
Qed.

Lemma locate_in_None l s k :
  locate_in l s k = None <-> forall i, i ∈ l -> shard_map s i !! k = None.
Proof.
  induction l as [|j l IH]; cbn.
  - split; [by intros _ i ?%elem_of_nil|done].
  - destruct (shard_map s j !! k) eqn:Hj.
    + split; [done|]. intros Hn. rewrite Hn in Hj; [done|by left].
    + rewrite IH. setoid_rewrite elem_of_cons. naive_solver.
Qed.

Lemma elem_of_newest_first i : i ∈ newest_first <-> (i < LEVELDB_SHARDS)%nat.
Proof. unfold newest_first. rewrite elem_of_reverse, elem_of_seq. lia. Qed.

Lemma locate_Some s k i v :
  locate s k = Some (i, v) -> (i < LEVELDB_SHARDS)%nat /\ shard_map s i !! k = Some v.
Proof. intros [?%elem_of_newest_first ?]%locate_in_Some. done. Qed.

Lemma locate_None s k :
  locate s k = None <-> forall i, (i < LEVELDB_SHARDS)%nat -> shard_map s i !! k = None.
Proof. unfold locate. rewrite locate_in_None. by setoid_rewrite elem_of_newest_first. Qed.

(** A key in exactly one shard is found there. *)
Lemma locate_unique s k i v :
  (i < LEVELDB_SHARDS)%nat -> shard_map s i !! k = Some v ->
  (forall j w, shard_map s j !! k = Some w -> j = i) -> locate s k = Some (i, v).
Proof.
  intros Hi Hv Hu. destruct (locate s k) as [[j w]|] eqn:Hl.
  - apply locate_Some in Hl as [_ Hj]. assert (j = i) as -> by eauto. congruence.
  - rewrite locate_None in Hl. rewrite Hl in Hv by done. done.
Qed.

Lemma shard_map_outside s i : db_wf s -> (LEVELDB_SHARDS <= i)%nat -> shard_map s i = ∅.
Proof.
  intros [Hl _] Hi. unfold shard_map. by rewrite (lookup_ge_None_2 (ld_db s)) by lia.
Qed.

(** ** Writing a shard *)
Lemma wp_write_shard e i b s (Q : res unit -> state -> Prop) :
  db_wf s -> (i < LEVELDB_SHARDS)%nat ->
  (forall s', db_wf s' -> ld_highestDBIndex s' = ld_highestDBIndex s -> ld_dirs s' = ld_dirs s ->
     (forall j, shard_map s' j =
        if decide (j = i) then foldl (fun m kv => <[kv.1 := kv.2]> m) (shard_map s i) b
        else shard_map s j) ->
     Q (Ok tt) s') ->
  wp (write_shard e i b) s Q.
Proof.
  intros Hwf Hi HQ. destruct (db_wf_shard s i Hwf Hi) as [d Hd].
  destruct (healthy_write b d) as [d' Hw].
  unfold write_shard, db_at. wp_simpl. rewrite Hd. wp_simpl. rewrite Hw. wp_simpl.
  apply HQ; [|done..|].
  - destruct Hwf as [Hl Hs]. split; cbn; [by rewrite length_insert|].
    apply Forall_insert; [done|by eexists].
  - intros j. unfold shard_map; cbn. case_decide as Hj; [subst j|].
    + rewrite list_lookup_insert_eq by (destruct Hwf; lia). rewrite Hd.
      by apply kv_write_map.
    + by rewrite list_lookup_insert_ne by done.
Qed.

Lemma wp_db_back s (Q : res nat -> state -> Prop) :
  db_wf s -> Q (Ok 3%nat) s -> wp db_back s Q.
Proof. intros [Hl _] HQ. unfold db_back. wp_simpl. by rewrite Hl. Qed.
End Reads.

(** ** Rotation *)
Section Rotation.
Context {D : Type} `{HealthyStore D}.
Context (cfg : db_config).
Local Abbreviation state := (level_db D).
Implicit Types (s : state) (k : string).

Lemma foldr_min_spec x l :
  foldr Z.min x l ∈ x :: l /\ forall y, y ∈ x :: l -> foldr Z.min x l <= y.
Proof.
  induction l as [|a l [IH1 IH2]]; cbn.
  - split; [by left|]. intros y Hy%list_elem_of_singleton. lia.
  - split.
    + destruct (Z.min_spec a (foldr Z.min x l)) as [[_ ->]|[_ ->]]; [right; by left|].
      apply elem_of_cons in IH1 as [->|]; [by left|by do 2 right].
    + intros y Hy. apply elem_of_cons in Hy as [->|Hy].
      { pose proof (IH2 x (list_elem_of_here _ _)). lia. }
      apply elem_of_cons in Hy as [->|Hy]; [lia|].
      pose proof (IH2 y (list_elem_of_further _ _ _ Hy)). lia.
Qed.

Lemma findMin_spec (dirs : gset Z) :
  let m := (findMaxMinDBIndex dirs).2 in
  (m = 0 /\ forall i, i ∈ dirs -> i = 0) \/
  (m <> 0 /\ m ∈ dirs /\ forall i, i ∈ dirs -> i <> 0 -> m <= i).
Proof.
  unfold findMaxMinDBIndex. destruct (filter _ (elements dirs)) as [|x l] eqn:Hf; cbn.
  - left. split; [done|]. intros i Hi. destruct (decide (i = 0)); [done|].
    assert (i ∈ filter (fun i => i <> 0) (elements dirs)) as Hin
      by (apply list_elem_of_filter; split; [done|by apply elem_of_elements]).
    rewrite Hf in Hin. by apply elem_of_nil in Hin.
  - right. destruct (foldr_min_spec x l) as [Hin Hle].
    assert (forall i, i ∈ x :: l <-> i <> 0 /\ i ∈ dirs) as Hxl.
    { intros i. rewrite <- Hf, list_elem_of_filter, elem_of_elements. done. }
    apply Hxl in Hin as [? ?]. split_and!; [done..|]. intros i Hi Hn. apply Hle, Hxl. done.
Qed.

(** The clean-up loop ends, touches only the directories, and leaves no
    directory of a dropped shard. *)
Lemma removeOldDBs_spec fuel s :
  db_wf s -> (size (ld_dirs s) < fuel)%nat ->
  wp (removeOldDBs fuel) s (fun (r : res unit) s' =>
    r = Ok tt /\ ld_db s' = ld_db s /\ ld_highestDBIndex s' = ld_highestDBIndex s /\
    (forall i, i ∈ ld_dirs s' <->
       i ∈ ld_dirs s /\ (i = 0 \/ ld_highestDBIndex s < i + Z.of_nat LEVELDB_SHARDS))).
Proof.
  revert s. induction fuel as [|fuel IH]; intros s Hwf Hf; [lia|].
  cbn [removeOldDBs]. wp_simpl.
  destruct (findMin_spec (ld_dirs s)) as [[Hm Hall]|(Hm & Hin & Hmin)];
    set (m := (findMaxMinDBIndex (ld_dirs s)).2) in *.
  - assert (wp (if m =? 0 then mret tt else (modify (fun s0 : state => LevelDb (ld_db s0)
      (ld_highestDBIndex s0) (ld_dirs s0 ∖ {[m]})) ;; removeOldDBs fuel)) s (fun (r : res unit) s' =>
      r = Ok tt /\ s' = s)) as Hret by (rewrite Hm; by wp_simpl).
    apply wp_if; split; intros _.
    + eapply wp_mono; [exact Hret|]. intros r s' [-> ->]. split_and!; try done. naive_solver.
    + unfold verify. destruct Hwf as [Hl Hs]. wp_simpl.
      rewrite !bool_decide_eq_true_2 by done. split; [intros _|done]. split; [intros _|done].
      split_and!; try done. naive_solver.
  - apply wp_if; split; intros Hcmp.
    + rewrite (proj2 (Z.eqb_neq m 0) Hm). wp_simpl.
      eapply wp_mono; [apply IH|].
      * done.
      * cbn. assert (size (ld_dirs s ∖ {[m]}) < size (ld_dirs s))%nat; [|lia].
        apply subset_size. set_solver.
      * cbn. intros r s' (-> & -> & -> & Hd). split_and!; try done. intros i. rewrite Hd.
        rewrite elem_of_difference, elem_of_singleton.
        destruct (decide (i = m)) as [->|]; [|naive_solver]. lia.
    + unfold verify. destruct Hwf as [Hl Hs]. wp_simpl.
      rewrite !bool_decide_eq_true_2 by done. split; [intros _|done]. split; [intros _|done].
      split_and!; try done. intros i. split; [|naive_solver]. intros Hi. split; [done|].
      destruct (decide (i = 0)); [by left|right]. specialize (Hmin i Hi ltac:(done)). lia.
Qed.

(** The shards after a rotation. *)
Definition rotated s s' : Prop :=
  (forall i, (i < 3)%nat -> shard_map s' i = shard_map s (S i)) /\ shard_map s' 3 = ∅ /\
  ld_highestDBIndex s' = ld_highestDBIndex s + 1.

Lemma rotateDBsIfNeeded_spec s :
  db_wf s ->
  wp (rotateDBsIfNeeded cfg) s (fun (r : res unit) s' =>
    r = Ok tt /\ db_wf s' /\ (s' = s \/ rotated s s')).
Proof.
  intros Hwf. unfold rotateDBsIfNeeded. wp_simpl.
  assert (exists z, getActiveDBSize s = (Ok z, s)) as [z Hz].
  { unfold getActiveDBSize. cbv [mbind M_bind get].
    destruct (bool_decide _); [|by eexists].
    destruct (db_wf_shard s 3 Hwf ltac:(unfold LEVELDB_SHARDS; lia)) as [d Hd].
    unfold db_back, gets. rewrite (proj1 Hwf). unfold db_at. cbv [mbind M_bind get].
    change (LEVELDB_SHARDS - 1)%nat with 3%nat. rewrite Hd. by eexists. }
  unfold wp at 1. rewrite Hz. cbn [fst snd]. apply wp_if; split; intros Hsz.
  { wp_simpl. split_and!; [done|done|by left]. }
  wp_simpl. unfold openDB. destruct (healthy_open None) as [d Hd]. rewrite Hd. wp_simpl.
  cbn [rnested]. wp_simpl.
  match goal with |- wp _ ?x _ => set (s1 := x) end.
  destruct Hwf as [Hl Hs]. unfold LEVELDB_SHARDS in Hl.
  destruct (ld_db s) as [|a0 [|a1 [|a2 [|a3 [|]]]]] eqn:Hdb; try done. clear Hl.
  assert (ld_db s1 = [a1; a2; a3; Some d]) as Hs1 by done.
  assert (db_wf s1) as Hwf1.
  { split; rewrite Hs1; [done|]. rewrite !Forall_cons in Hs |- *. naive_solver. }
  eapply wp_mono; [apply removeOldDBs_spec; [done|lia]|].
  cbv beta. intros r s' (-> & Hdb' & Hh & _). split_and!; [done| |right].
  - unfold db_wf. by rewrite Hdb'.
  - split_and!.
    + intros i Hi. unfold shard_map. rewrite Hdb', Hs1, Hdb.
      by destruct i as [|[|[|i]]]; [..|lia].
    + unfold shard_map. rewrite Hdb', Hs1. cbn. by rewrite (kv_open_map None d Hd).
    + rewrite Hh. done.
Qed.
End Rotation.

(** ** Single entries *)
Section Entries.
Context {D : Type} `{HealthyStore D}.
Context (cfg : db_config).
Local Abbreviation state := (level_db D).
Implicit Types (s : state) (k : string).

(** A rotation loses only what is in the oldest shard alone. *)
Definition db_retains s s' : Prop := forall k,
  db_lookup s' k = db_lookup s k \/ (exists v, locate s k = Some (0%nat, v)) /\ db_lookup s' k = None.

Lemma rotated_retains s s' : rotated s s' -> db_retains s s'.
Proof.
  intros (Hsh & Hnew & _) k. unfold db_lookup, locate.
  change newest_first with [3%nat; 2%nat; 1%nat; 0%nat]. cbn [locate_in].
  rewrite Hnew, lookup_empty, !Hsh by lia.
  destruct (shard_map s 3 !! k); [by left|]. destruct (shard_map s 2 !! k); [by left|].
  destruct (shard_map s 1 !! k); [by left|]. destruct (shard_map s 0 !! k); [|by left].
  right. eauto.
Qed.

Lemma db_lookup_write s s' key v :
  (forall j, shard_map s' j =
     if decide (j = 3%nat) then <[key := v]> (shard_map s 3) else shard_map s j) ->
  forall k, db_lookup s' k = if decide (k = key) then Some v else db_lookup s k.
Proof.
  intros Hsh k. unfold db_lookup, locate.
  change newest_first with [3%nat; 2%nat; 1%nat; 0%nat]. cbn [locate_in].
  rewrite !Hsh, (decide_True (P := 3%nat = 3%nat)), !(decide_False (P := _ = 3%nat)) by done.
  case_decide as Hk; [subst; by rewrite lookup_insert_eq|].
  by rewrite lookup_insert_ne by done.
Qed.

Lemma writeString_spec s key v (overWrite : bool) :
  db_wf s ->
  wp (writeString cfg key v overWrite) s (fun (r : res unit) s' =>
    r = Ok tt /\ db_wf s' /\
    exists s1, db_wf s1 /\ db_retains s s1 /\
      forall k, db_lookup s' k =
        if decide (k = key) then
          if overWrite then Some v else Some (default v (db_lookup s1 key))
        else db_lookup s1 k).
Proof.
  intros Hwf. unfold writeString. wp_simpl.
  eapply wp_mono; [by apply rotateDBsIfNeeded_spec|]. cbv beta.
  intros r s1 (-> & Hwf1 & Hrot).
  assert (db_retains s s1) as Hret
    by (destruct Hrot as [->|?]; [intros k; by left|by apply rotated_retains]).
  set (Q := fun (r : res unit) s' => _).
  assert (wp (i ← db_back; write_shard LevelDBException i [(key, v)]) s1
    (fun (r : res unit) s' => r = Ok tt /\ db_wf s' /\
      forall k, db_lookup s' k = if decide (k = key) then Some v else db_lookup s1 k)) as Hput.
  { wp_simpl. apply wp_db_back; [done|].
    apply wp_write_shard; [done|unfold LEVELDB_SHARDS; lia|]. intros s' Hwf' _ _ Hsh.
    split_and!; [done..|]. by apply db_lookup_write. }
  destruct overWrite.
  - eapply wp_mono; [exact Hput|]. intros r s' (-> & ? & ?). unfold Q. eauto 10.
  - unfold keyExistsUnsafe. wp_simpl. apply wp_find_key; [done|]. wp_simpl.
    destruct (locate s1 key) as [[i w]|] eqn:Hl.
    + rewrite bool_decide_eq_true_2 by eauto. wp_simpl. unfold Q. split_and!; [done..|].
      exists s1. split_and!; [done..|]. intros k. case_decide; [subst|done].
      unfold db_lookup. by rewrite Hl.
    + rewrite bool_decide_eq_false_2 by (by intros [? ?]).
      eapply wp_mono; [exact Hput|]. intros r s' (-> & ? & Hk). unfold Q.
      split_and!; [done..|]. exists s1. split_and!; [done..|]. intros k. rewrite Hk.
      case_decide; [subst|done]. unfold db_lookup. by rewrite Hl.
Qed.

(** An overwritten entry is in the newest shard. *)
Lemma writeString_newest s key v :
  db_wf s -> wp (writeString cfg key v true) s (fun _ s' => locate s' key = Some (3%nat, v)).
Proof.
  intros Hwf. unfold writeString. wp_simpl.
  eapply wp_mono; [by apply rotateDBsIfNeeded_spec|]. cbv beta. intros r s1 (-> & Hwf1 & _).
  wp_simpl. apply wp_db_back; [done|]. apply wp_write_shard; [done|unfold LEVELDB_SHARDS; lia|].
  intros s' _ _ _ Hsh. unfold locate. change newest_first with [3%nat; 2%nat; 1%nat; 0%nat].
  cbn [locate_in]. rewrite Hsh, decide_True by done. cbn [foldl fst snd]. by rewrite lookup_insert_eq.
Qed.

Lemma readString_spec s k (Q : res string -> state -> Prop) :
  db_wf s -> Q (Ok (default ""%string (db_lookup s k))) s -> wp (readStringUnsafe k) s Q.
Proof.
  intros Hwf HQ. unfold readStringUnsafe. wp_simpl. apply wp_find_key; [done|]. wp_simpl.
  unfold db_lookup in HQ. by destruct (locate s k) as [[? ?]|].
Qed.

Lemma keyExists_spec s k (Q : res bool -> state -> Prop) :
  db_wf s -> Q (Ok (bool_decide (is_Some (db_lookup s k)))) s -> wp (keyExistsUnsafe k) s Q.
Proof.
  intros Hwf HQ. unfold keyExistsUnsafe. wp_simpl. apply wp_find_key; [done|]. wp_simpl.
  unfold db_lookup in HQ. by destruct (locate s k) as [[? ?]|].
Qed.
End Entries.

(** The database keeps the first value that is written for a key: a write
    without overwriting returns, changes no other key, stores its value only
    if the key has none, and a read after it gives the kept value; an
    overwriting write replaces it.  The rotation that may come first loses
    only entries of the oldest shard. *)
Theorem writeString_first_writer_wins {D} `{HealthyStore D} cfg (s : level_db D) key v overWrite :
  db_wf s ->
  wp (writeString cfg key v overWrite ;; readString key) s (fun (r : res string) s' =>
    db_wf s' /\
    exists s1, db_retains s s1 /\
      (forall k, k <> key -> db_lookup s' k = db_lookup s1 k) /\
      r = Ok (if overWrite then v else default v (db_lookup s1 key))).
Proof.
  intros Hwf. wp_simpl. eapply wp_mono; [by apply writeString_spec|]. cbv beta.
  intros r s' (-> & Hwf' & s1 & _ & Hret & Hk).
  apply readString_spec; [done|]. split; [done|]. exists s1. split_and!; [done| |].
  - intros k Hne. rewrite Hk. by rewrite decide_False.
  - rewrite Hk, decide_True by done. by destruct overWrite.
Qed.

(** An empty database in the reference store. *)
Definition empty_db : level_db (gmap string string) :=
  LevelDb (replicate 4 (Some ∅)) 4 {[1; 2; 3; 4]}.

Lemma empty_db_wf : db_wf empty_db.
Proof. split; [done|]. by repeat constructor. Qed.

Definition demo_config : db_config :=
  {| dc_version := "1.0"; dc_totalSigners := 4; dc_requiredSigners := 3; dc_maxDBSize := 2 |}.

Lemma writeString_first_writer_wins_witness :
  db_wf ((writeString demo_config "a" "1" false ;; readString "a") empty_db).2.
Proof. exact (proj1 (writeString_first_writer_wins demo_config empty_db "a" "1" false empty_db_wf)). Defined.
