(* ===== verification/LevelDbSets.v ===== *)
(** * Sets of signatures in the rotating database

    [CacheLevelDB::writeByteArrayToSet] collects the signature shares of a
    block: one entry per signer and a counter, in one shard.  The invariant
    [set_inv] says that a counter counts the entries of its shard and that a
    block has entries in one shard only, so that a rotation drops a set and
    its counter together.  The theorems: every write keeps it, a signer counts
    once, and the call that brings the count to the required number of signers
    returns exactly the collected entries. *)

From stdpp Require Import base tactics gmap list strings.
From Stdlib Require Import ZArith Lia.
From S2P Require Import Prelude Bytes LevelDb.

(** ** Keys *)
Section Keys.
Context (cfg : db_config).

Lemma createKey2_parts b x :
  createKey2 cfg b x = dc_version cfg +:+ colon_join [to_string b; to_string x].
Proof. unfold createKey2. cbn [colon_join]. by rewrite string_app_nil_r. Qed.

Lemma createCounterKey_parts b :
  createCounterKey cfg b = dc_version cfg +:+ colon_join ["COUNTER"; to_string b].
Proof. unfold createCounterKey. cbn [colon_join]. by rewrite string_app_nil_r. Qed.

Lemma parts_no_colon2 b x : Forall no_colon [to_string b; to_string x].
Proof. apply Forall_cons; split; [|apply Forall_singleton]; apply to_string_no_colon. Qed.

Lemma parts_no_colon_counter b : Forall no_colon ["COUNTER"%string; to_string b].
Proof. apply Forall_cons; split; [done|]. apply Forall_singleton, to_string_no_colon. Qed.

Lemma createKey2_inj b x b' x' :
  0 <= b -> 0 <= x -> 0 <= b' -> 0 <= x' ->
  createKey2 cfg b x = createKey2 cfg b' x' -> b = b' /\ x = x'.
Proof.
  rewrite !createKey2_parts. intros ???? Heq%key_inj; auto using parts_no_colon2.
  injection Heq as Hb Hx. split; by apply to_string_inj.
Qed.

Lemma createCounterKey_inj b b' :
  0 <= b -> 0 <= b' -> createCounterKey cfg b = createCounterKey cfg b' -> b = b'.
Proof.
  rewrite !createCounterKey_parts. intros ?? Heq%key_inj; auto using parts_no_colon_counter.
  injection Heq as Hb. by apply to_string_inj.
Qed.

Lemma createKey2_counter b x b' : createKey2 cfg b x <> createCounterKey cfg b'.
Proof.
  rewrite createKey2_parts, createCounterKey_parts.
  intros Heq%key_inj; auto using parts_no_colon2, parts_no_colon_counter.
  injection Heq as Hb _. pose proof (to_string_digits b) as Hd. by rewrite Hb in Hd.
Qed.

Lemma createKey1_inj b b' : 0 <= b -> 0 <= b' -> createKey1 cfg b = createKey1 cfg b' -> b = b'.
Proof.
  unfold createKey1. intros ?? Heq%(inj (String.app _))%(inj (String.app ":")).
  by apply to_string_inj.
Qed.

Lemma createKey1_nonempty b : createKey1 cfg b <> ""%string.
Proof. unfold createKey1. by destruct (dc_version cfg). Qed.

Lemma createKey2_nonempty b x : createKey2 cfg b x <> ""%string.
Proof. unfold createKey2. by destruct (dc_version cfg). Qed.
End Keys.

(** ** The invariant *)
Section Sets.
Context {D : Type} `{HealthyStore D}.
Context (cfg : db_config).
Context (Htotal : 1 <= dc_totalSigners cfg < 2 ^ 63) (Hreq : 1 <= dc_requiredSigners cfg).
Local Abbreviation state := (level_db D).
Implicit Types (s : state) (m : gmap string string) (b x : Z).

Definition signers : gset Z := list_to_set (signer_indices cfg).

Lemma elem_of_signers x : x ∈ signers <-> 1 <= x <= dc_totalSigners cfg.
Proof. unfold signers, signer_indices. rewrite elem_of_list_to_set, elem_of_seqZ. lia. Qed.

(** The signers with an entry for block [b]. *)
Definition entries m b : gset Z :=
  filter (fun x => is_Some (m !! createKey2 cfg b x)) signers.

Lemma elem_of_entries m b x : x ∈ entries m b <-> x ∈ signers /\ is_Some (m !! createKey2 cfg b x).
Proof. unfold entries. rewrite elem_of_filter. tauto. Qed.

Lemma zsize_entries m b : 0 <= zsize (entries m b) <= dc_totalSigners cfg.
Proof.
  assert (entries m b ⊆ signers) as Hs%zsize_subseteq
    by (intros x Hx%elem_of_entries; tauto).
  unfold zsize in *. split; [lia|]. etrans; [exact Hs|].
  unfold signers. rewrite size_list_to_set by apply NoDup_seqZ.
  unfold signer_indices. rewrite length_seqZ. lia.
Qed.

Record shard_ok m : Prop := {
  so_count : forall b, 0 <= b ->
    m !! createCounterKey cfg b =
      if decide (entries m b = ∅) then None else Some (to_string (zsize (entries m b)));
  so_value : forall b x v, 0 <= b -> x ∈ signers ->
    m !! createKey2 cfg b x = Some v -> v <> ""%string
}.

Record set_inv s : Prop := {
  sv_wf : db_wf s;
  sv_shard : forall i, shard_ok (shard_map s i);
  sv_one : forall b i j, 0 <= b -> entries (shard_map s i) b <> ∅ ->
    entries (shard_map s j) b <> ∅ -> i = j
}.

Lemma entries_empty b : entries ∅ b = ∅.
Proof.
  apply set_eq. intros x. rewrite elem_of_entries, lookup_empty. split; [|set_solver].
  by intros [_ [? ?]].
Qed.

Lemma shard_ok_empty : shard_ok ∅.
Proof. constructor; intros; rewrite lookup_empty in *; [by rewrite entries_empty|done]. Qed.

Lemma set_inv_rotated s s' : set_inv s -> rotated s s' -> db_wf s' -> set_inv s'.
Proof.
  intros [Hwf Hsh Hone] (Hrot & Hnew & _) Hwf'.
  assert (forall i, shard_map s' i = shard_map s (S i) \/ shard_map s' i = ∅) as Hcase.
  { intros i. destruct (decide (i < 3)%nat); [left; auto|right].
    destruct (decide (i = 3%nat)) as [->|]; [done|].
    apply shard_map_outside; [done|unfold LEVELDB_SHARDS; lia]. }
  constructor; [done| |].
  - intros i. destruct (Hcase i) as [->| ->]; [done|apply shard_ok_empty].
  - intros b i j Hb. destruct (Hcase i) as [->| ->], (Hcase j) as [->| ->];
      rewrite ?entries_empty; try done. intros Hi Hj. specialize (Hone b (S i) (S j) Hb Hi Hj). lia.
Qed.

(** The entries of a block in the whole database. *)
Definition db_entries s b : gset Z :=
  filter (fun x => is_Some (db_lookup s (createKey2 cfg b x))) signers.

Lemma elem_of_db_entries s b x :
  db_wf s -> x ∈ db_entries s b <-> x ∈ signers /\ exists i, x ∈ entries (shard_map s i) b.
Proof.
  intros Hwf. unfold db_entries. rewrite elem_of_filter. unfold db_lookup. split.
  - intros [Hl Hx]. split; [done|]. destruct (locate s _) as [[i v]|] eqn:Hloc; [|by destruct Hl].
    apply locate_Some in Hloc as [_ Hi]. exists i. apply elem_of_entries. eauto.
  - intros (Hx & i & [_ [v Hi]]%elem_of_entries). split; [|done].
    destruct (locate s _) as [[j w]|] eqn:Hloc; [by eexists|].
    rewrite locate_None in Hloc. destruct (decide (i < LEVELDB_SHARDS)%nat) as [Hlt|Hge].
    + by rewrite Hloc in Hi.
    + by rewrite (shard_map_outside s i Hwf), lookup_empty in Hi by lia.
Qed.

Lemma db_entries_shard s b i :
  set_inv s -> 0 <= b -> entries (shard_map s i) b <> ∅ -> db_entries s b = entries (shard_map s i) b.
Proof.
  intros Hi Hb Hne. apply set_eq. intros x. rewrite elem_of_db_entries by apply Hi. split.
  - intros (Hx & j & Hj). assert (j = i) as <-; [|done].
    apply (sv_one _ Hi b); [done|set_solver|done].
  - intros Hx. split; [by apply elem_of_entries in Hx as [? _]|eauto].
Qed.

Lemma db_entries_none s b :
  set_inv s -> (forall i, entries (shard_map s i) b = ∅) -> db_entries s b = ∅.
Proof.
  intros Hi Hnone. apply set_eq. intros x. rewrite elem_of_db_entries by apply Hi.
  setoid_rewrite Hnone. set_solver.
Qed.

(** The shard that holds a block's set, if any. *)
Lemma locate_counter s b :
  set_inv s -> 0 <= b ->
  match locate s (createCounterKey cfg b) with
  | Some (i, c) => (i < LEVELDB_SHARDS)%nat /\ entries (shard_map s i) b <> ∅ /\
      c = to_string (zsize (db_entries s b))
  | None => (forall i, entries (shard_map s i) b = ∅) /\ db_entries s b = ∅
  end.
Proof.
  intros Hi Hb. destruct (locate s _) as [[i c]|] eqn:Hloc.
  - apply locate_Some in Hloc as [Hlt Hc]. rewrite (so_count _ (sv_shard _ Hi i)) in Hc by done.
    case_decide as Hne; [done|]. split_and!; [done..|].
    rewrite (db_entries_shard s b i) by done. congruence.
  - rewrite locate_None in Hloc.
    assert (forall i, entries (shard_map s i) b = ∅) as Hnone.
    { intros i. destruct (decide (i < LEVELDB_SHARDS)%nat) as [Hlt|Hge].
      - pose proof (so_count _ (sv_shard _ Hi i) b Hb) as Hc. rewrite Hloc in Hc by done.
        by case_decide.
      - rewrite (shard_map_outside s i); [apply entries_empty|apply Hi|lia]. }
    split; [done|]. by apply db_entries_none.
Qed.

(** ** One write *)
Definition set_batch b x (v : string) (c : Z) m : gmap string string :=
  <[createKey2 cfg b x := v]> (<[createCounterKey cfg b := to_string c]> m).

Lemma entries_batch b x v c m b' :
  0 <= b -> 0 <= b' -> x ∈ signers ->
  entries (set_batch b x v c m) b' =
  if decide (b' = b) then {[x]} ∪ entries m b' else entries m b'.
Proof.
  intros Hb Hb' Hx. pose proof (proj1 (elem_of_signers x) Hx) as Hxr. apply set_eq. intros y.
  assert (y ∈ signers -> is_Some (set_batch b x v c m !! createKey2 cfg b' y) <->
    (b' = b /\ y = x) \/ is_Some (m !! createKey2 cfg b' y)) as Hlk.
  { intros Hy%elem_of_signers. unfold set_batch.
    destruct (decide (createKey2 cfg b x = createKey2 cfg b' y)) as [Heq|Hne].
    - rewrite Heq, lookup_insert_eq. apply createKey2_inj in Heq as [-> ->]; try lia.
      split; eauto.
    - rewrite lookup_insert_ne by done.
      rewrite lookup_insert_ne by (intros Heq; symmetry in Heq; by apply createKey2_counter in Heq).
      split; [by right|]. intros [[-> ->]|?]; [by destruct Hne|done]. }
  rewrite elem_of_entries. case_decide as Hd.
  - rewrite elem_of_union, elem_of_singleton, elem_of_entries. naive_solver.
  - rewrite elem_of_entries. naive_solver.
Qed.

Lemma shard_ok_batch b x v m :
  shard_ok m -> 0 <= b -> x ∈ signers -> v <> ""%string -> x ∉ entries m b ->
  shard_ok (set_batch b x v (zsize (entries m b) + 1) m).
Proof.
  intros Hok Hb Hx Hv Hnew.
  assert (zsize ({[x]} ∪ entries m b) = zsize (entries m b) + 1) as Hsz.
  { unfold zsize. rewrite size_union by set_solver. rewrite size_singleton. lia. }
  constructor.
  - intros b' Hb'. rewrite entries_batch by done. unfold set_batch.
    rewrite lookup_insert_ne by apply createKey2_counter.
    destruct (decide (b' = b)) as [->|Hne].
    + rewrite lookup_insert_eq, Hsz. rewrite decide_False by set_solver. done.
    + rewrite lookup_insert_ne; [by apply so_count|].
      intros Heq%createCounterKey_inj; [by symmetry in Heq|done..].
  - intros b' y w Hb' Hy. unfold set_batch.
    destruct (decide (createKey2 cfg b x = createKey2 cfg b' y)) as [<-|Hne].
    + rewrite lookup_insert_eq. congruence.
    + rewrite lookup_insert_ne by done.
      rewrite lookup_insert_ne by (intros Heq; symmetry in Heq; by apply createKey2_counter in Heq).
      by apply (so_value _ Hok).
Qed.

Lemma set_inv_write s s' i b x v :
  set_inv s -> 0 <= b -> x ∈ signers -> v <> ""%string -> db_wf s' ->
  (forall j, j <> i -> entries (shard_map s j) b = ∅) -> x ∉ entries (shard_map s i) b ->
  (forall j, shard_map s' j =
     if decide (j = i) then set_batch b x v (zsize (entries (shard_map s i) b) + 1) (shard_map s i)
     else shard_map s j) ->
  set_inv s'.
Proof.
  intros Hi Hb Hx Hv Hwf' Hother Hnew Hsh. constructor; [done| |].
  - intros j. rewrite Hsh. case_decide; [|apply Hi]. apply shard_ok_batch; auto. apply Hi.
  - intros b' j k Hb'.
    assert (forall j, entries (shard_map s' j) b' <> ∅ ->
      entries (shard_map s j) b' <> ∅ \/ (b' = b /\ j = i)) as Hcase.
    { intros j'. rewrite Hsh. case_decide as Hj; [|by left].
      rewrite entries_batch by done. subst j'. case_decide; [by right|by left]. }
    intros [Hj|[Hbj Hij]]%Hcase [Hk|[Hbk Hik]]%Hcase; [by apply (sv_one _ Hi b')| | |congruence].
    + destruct (decide (j = i)) as [->|]; [done|]. subst b'. by rewrite Hother in Hj.
    + destruct (decide (k = i)) as [->|]; [done|]. subst b'. by rewrite Hother in Hk.
Qed.

(** ** Collecting the entries *)
Definition present s b (l : list Z) : list Z :=
  filter (fun x => is_Some (db_lookup s (createKey2 cfg b x))) l.

Lemma collect_spec s b l (acc : gmap Z string) :
  db_wf s -> NoDup l -> (forall x, x ∈ l -> acc !! x = None) ->
  (forall x v, x ∈ l -> db_lookup s (createKey2 cfg b x) = Some v -> v <> ""%string) ->
  Z.of_nat (size acc) + zlen (present s b l) <= dc_requiredSigners cfg ->
  wp (collect cfg l b acc) s (fun (r : res (gmap Z string)) s' =>
    s' = s /\ exists set, r = Ok set /\ Z.of_nat (size set) = Z.of_nat (size acc) + zlen (present s b l) /\
      forall x, set !! x = if decide (x ∈ l) then db_lookup s (createKey2 cfg b x) else acc !! x).
Proof.
  intros Hwf. revert acc. induction l as [|i l IH]; intros acc Hnd Hdis Hval Hsz.
  { cbn [collect]. wp_simpl. split; [done|]. exists acc.
    change (zlen (present s b [])) with 0. split_and!; [done|lia|].
    intros x. by rewrite decide_False by set_solver. }
  apply NoDup_cons in Hnd as [Hil Hnd]. cbn [collect]. wp_simpl.
  apply readString_spec; [done|]. cbn [from_option].
  set (o := db_lookup s (createKey2 cfg b i)) in *.
  set (acc' := if bool_decide (default ""%string o = ""%string) then acc
               else <[i := default ""%string o]> acc).
  assert (acc !! i = None) as Hai by (apply Hdis; by left).
  assert ((forall x, acc' !! x = if decide (x = i) then o else acc !! x) /\
    Z.of_nat (size acc') + zlen (present s b l) = Z.of_nat (size acc) + zlen (present s b (i :: l))) as [Hlk Hsz'].
  { unfold acc', present in *. destruct o as [v|] eqn:Ho; unfold o in Ho; cbn [default].
    - rewrite bool_decide_eq_false_2 by (apply (Hval i); [by left|done]). split.
      + intros x. case_decide as Hx; [subst; by rewrite lookup_insert_eq|].
        by rewrite lookup_insert_ne by done.
      + rewrite filter_cons_True by (by rewrite Ho). rewrite map_size_insert_None by done.
        unfold zlen. cbn [length]. lia.
    - rewrite bool_decide_eq_true_2 by done. split.
      + intros x. case_decide as Hx; [by subst|done].
      + rewrite filter_cons_False by (rewrite Ho; by intros [? ?]). done. }
  assert (0 <= zlen (present s b l)) as Hpos by (unfold zlen; lia).
  apply wp_if; split; intros Hcmp.
  - wp_simpl. split; [done|]. exists acc'. assert (zlen (present s b l) = 0) as Hzero by lia. split_and!; [done|lia|]. intros x. rewrite Hlk.
    assert (present s b l = []) as Hnone by (apply nil_length_inv; unfold zlen in Hzero; lia).
    destruct (decide (x = i)) as [->|Hx]; [by rewrite decide_True by by left|].
    destruct (decide (x ∈ i :: l)) as [Hin|Hout]; [|done].
    assert (x ∈ l) as Hxl by set_solver. rewrite Hdis by done.
    destruct (db_lookup s (createKey2 cfg b x)) eqn:Hx'; [|done].
    assert (x ∈ present s b l) as Hp by (apply list_elem_of_filter; eauto).
    rewrite Hnone in Hp. by apply elem_of_nil in Hp.
  - eapply wp_mono; [apply (IH acc'); [done| | |lia]|].
    + intros x Hx. rewrite Hlk, decide_False by (by intros ->). apply Hdis. by right.
    + intros x v Hx. apply Hval. by right.
    + cbv beta. intros r s' (-> & set & -> & Hs & Hset). split; [done|]. exists set.
      split_and!; [done|lia|]. intros x. rewrite Hset, Hlk.
      destruct (decide (x = i)) as [->|Hx]; [rewrite decide_False by done; by rewrite decide_True by by left|].
      destruct (decide (x ∈ l)), (decide (x ∈ i :: l)); set_solver.
Qed.

Lemma present_entries s b :
  db_wf s -> zlen (present s b (signer_indices cfg)) = zsize (db_entries s b).
Proof.
  intros Hwf. unfold zlen, zsize. f_equal.
  rewrite <- (size_list_to_set (C := gset Z) (present s b (signer_indices cfg))).
  - f_equal. apply set_eq. intros x. rewrite elem_of_list_to_set. unfold present, db_entries, signers.
    rewrite list_elem_of_filter, elem_of_filter, elem_of_list_to_set. done.
  - apply NoDup_filter, NoDup_seqZ.
Qed.

Lemma db_lookup_entry s b x :
  set_inv s -> 0 <= b -> x ∈ signers ->
  match db_lookup s (createKey2 cfg b x) with
  | Some v => v <> ""%string /\ x ∈ db_entries s b
  | None => x ∉ db_entries s b /\ forall i, x ∉ entries (shard_map s i) b
  end.
Proof.
  intros Hi Hb Hx. destruct (db_lookup s _) as [v|] eqn:Hl.
  - split; [|by apply elem_of_filter; rewrite Hl; eauto].
    unfold db_lookup in Hl. destruct (locate s _) as [[i w]|] eqn:Hloc; [|done]. cbn in Hl.
    simplify_eq. apply locate_Some in Hloc as [_ Hi']. by eapply (so_value _ (sv_shard _ Hi i)).
  - assert (x ∉ db_entries s b) as Hno.
    { unfold db_entries. rewrite elem_of_filter, Hl. by intros [[? ?] _]. }
    split; [done|]. intros i Hxi. apply Hno, elem_of_db_entries; [apply Hi|]. eauto.
Qed.

Lemma db_lookup_ext s s' k :
  (forall j, shard_map s' j !! k = shard_map s j !! k) -> db_lookup s' k = db_lookup s k.
Proof.
  intros Hj. unfold db_lookup, locate. f_equal.
  induction newest_first as [|i l IH]; [done|]. cbn [locate_in]. by rewrite Hj, IH.
Qed.

(** What a new entry of signer [x] for block [b] does to the database. *)
Definition entry_added s s' b x (v : string) : Prop :=
  set_inv s' /\ db_entries s' b = {[x]} ∪ db_entries s b /\
  zsize (db_entries s' b) = zsize (db_entries s b) + 1 /\
  db_lookup s' (createKey2 cfg b x) = Some v /\
  forall k, k <> createKey2 cfg b x -> k <> createCounterKey cfg b -> db_lookup s' k = db_lookup s k.

Lemma write_entry s i b x v (Q : res unit -> state -> Prop) :
  set_inv s -> 0 <= b -> x ∈ signers -> v <> ""%string -> (i < LEVELDB_SHARDS)%nat ->
  (forall j, j <> i -> entries (shard_map s j) b = ∅) ->
  db_entries s b = entries (shard_map s i) b ->
  x ∉ db_entries s b ->
  (forall s', entry_added s s' b x v -> Q (Ok tt) s') ->
  wp (write_shard InvalidStateException i
    [(createCounterKey cfg b, to_string (zsize (db_entries s b) + 1));
     (createKey2 cfg b x, v)]) s Q.
Proof.
  intros Hi Hb Hx Hv Hlt Hother Hdb Hnew HQ. apply wp_write_shard; [apply Hi|done|].
  intros s' Hwf' _ _ Hsh. cbn [foldl fst snd] in Hsh. rewrite Hdb in Hsh, Hnew.
  fold (set_batch b x v (zsize (entries (shard_map s i) b) + 1) (shard_map s i)) in Hsh.
  assert (set_inv s') as Hi' by by eapply set_inv_write.
  assert (db_entries s' b = {[x]} ∪ db_entries s b) as Hde.
  { rewrite Hdb. rewrite (db_entries_shard s' b i); [|done|done|].
    - rewrite Hsh, decide_True, entries_batch, decide_True by done. done.
    - rewrite Hsh, decide_True, entries_batch, decide_True by done. set_solver. }
  apply HQ. split_and!; [done|done| | |].
  - rewrite Hde, Hdb. unfold zsize. rewrite size_union by set_solver. rewrite size_singleton. lia.
  - unfold db_lookup. rewrite (locate_unique s' _ i v); [done|done| |].
    + rewrite Hsh, decide_True by done. unfold set_batch. by rewrite lookup_insert_eq.
    + intros j w Hw. destruct (decide (j = i)) as [|Hj]; [done|]. exfalso.
      rewrite Hsh, decide_False in Hw by done.
      assert (x ∈ entries (shard_map s j) b) as Hin by (apply elem_of_entries; eauto).
      rewrite Hother in Hin by done. set_solver.
  - intros k Hk1 Hk2. apply db_lookup_ext. intros j. rewrite Hsh. case_decide; [subst j|done].
    unfold set_batch. by rewrite !lookup_insert_ne by done.
Qed.

(** What a whole call does. *)
Definition set_written s b x v (r : res (option (gmap Z string))) s' : Prop :=
  match db_lookup s (createKey2 cfg b x) with
  | Some _ => r = Ok None /\ s' = s
  | None =>
      entry_added s s' b x v /\
      if decide (zsize (db_entries s' b) = dc_requiredSigners cfg) then
        exists set, r = Ok (Some set) /\ zsize set = dc_requiredSigners cfg /\
          forall y, set !! y =
            if decide (y ∈ signers) then db_lookup s' (createKey2 cfg b y) else None
      else r = Ok None
  end.

Lemma writeByteArrayToSetUnsafe_spec s b x v :
  set_inv s -> 0 <= b -> x ∈ signers -> v <> ""%string ->
  wp (writeByteArrayToSetUnsafe cfg v b x) s (fun (r : res (option (gmap Z string))) s' =>
    set_inv s' /\ set_written s b x v r s').
Proof.
  intros Hi Hb Hx Hv. pose proof (proj1 (elem_of_signers x) Hx) as Hxr.
  unfold writeByteArrayToSetUnsafe. wp_simpl.
  rewrite (proj2 (Z.ltb_lt 0 x)), (proj2 (Z.leb_le x _)) by lia. split; [intros _|done].
  rewrite bool_decide_eq_true_2 by apply createKey2_nonempty. split; [intros _|done].
  apply keyExists_spec; [apply Hi|]. unfold set_written.
  pose proof (db_lookup_entry s b x Hi Hb Hx) as Hentry.
  destruct (db_lookup s (createKey2 cfg b x)) as [w|] eqn:Hl.
  { rewrite bool_decide_eq_true_2 by eauto. by wp_simpl. }
  rewrite bool_decide_eq_false_2 by (by intros [? ?]). destruct Hentry as [Hnew _].
  wp_simpl. apply wp_find_key; [apply Hi|].
  wp_simpl. apply wp_db_back; [apply Hi|].
  pose proof (locate_counter s b Hi Hb) as Hloc.
  assert (0 <= zsize (db_entries s b) <= dc_totalSigners cfg) as Hrange.
  { assert (db_entries s b ⊆ signers) as Hs%zsize_subseteq
      by (intros y Hy; by apply elem_of_db_entries in Hy as [? _]; [|apply Hi]).
    unfold zsize in *. split; [lia|]. etrans; [exact Hs|].
    unfold signers. rewrite size_list_to_set by apply NoDup_seqZ.
    unfold signer_indices. rewrite length_seqZ. lia. }
  set (n := zsize (db_entries s b)) in *.
  assert (exists i c, (i < LEVELDB_SHARDS)%nat /\
    (forall j, j <> i -> entries (shard_map s j) b = ∅) /\
    db_entries s b = entries (shard_map s i) b /\ c = n /\
    match locate s (createCounterKey cfg b) with
    | Some (i, result) => (i, stoull result) | None => (3%nat, Ok 0) end = (i, Ok c))
    as (i & c & Hlt & Hother & Hdb & -> & ->).
  { destruct (locate s (createCounterKey cfg b)) as [[i c]|].
    - destruct Hloc as (Hlt & Hne & ->). exists i, n. split_and!; [done| | |done|].
      + intros j Hj. destruct (decide (entries (shard_map s j) b = ∅)) as [|Hne']; [done|].
        by destruct Hj; apply (sv_one _ Hi b).
      + by apply db_entries_shard.
      + rewrite stoull_to_string by lia. done.
    - destruct Hloc as [Hnone Hdb]. exists 3%nat, n. split_and!; auto.
      + by rewrite Hnone.
      + unfold n. rewrite Hdb. done. }
  wp_simpl. replace (u64 (n + 1)) with (n + 1) by (symmetry; apply u64_small; lia).
  apply write_entry; try done. intros s' Hadd. pose proof Hadd as (Hi' & Hde & Hsz & Hlk & _).
  unfold zsize at 1 in Hsz. fold (zsize (db_entries s' b)) in Hsz. fold n in Hsz.
  destruct (Z.eqb_spec (n + 1) (dc_requiredSigners cfg)) as [Heq|Hne]; cbn [negb]; wp_simpl.
  - eapply wp_mono; [apply collect_spec|].
    + apply Hi'.
    + apply NoDup_seqZ.
    + intros; apply lookup_empty.
    + intros y w Hy Hw. pose proof (db_lookup_entry s' b y Hi' Hb) as He. rewrite Hw in He.
      apply He. by apply elem_of_list_to_set.
    + rewrite present_entries by apply Hi'. rewrite map_size_empty. lia.
    + cbv beta. intros r s2 (-> & set & -> & Hss & Hset). wp_simpl.
      rewrite present_entries, map_size_empty in Hss by apply Hi'.
      assert (Z.of_nat (size set) = dc_requiredSigners cfg) as Hss' by lia. clear Hss. rename Hss' into Hss.
      rewrite (proj2 (Z.eqb_eq _ _) Hss). split; [intros _|done]. split; [done|]. split; [done|].
      rewrite decide_True by lia. exists set. split_and!; [done|done|]. intros y. rewrite Hset, lookup_empty. unfold signers.
      destruct (decide (y ∈ signer_indices cfg)), (decide (y ∈ list_to_set (C := gset Z) _));
        rewrite ?elem_of_list_to_set in *; done.
  - rewrite decide_False by lia. done.
Qed.

Lemma readCount_spec s b (Q : res Z -> state -> Prop) :
  set_inv s -> 0 <= b -> Q (Ok (zsize (db_entries s b))) s -> wp (readCount cfg b) s Q.
Proof.
  intros Hi Hb HQ. unfold readCount, readString. wp_simpl. apply readString_spec; [apply Hi|].
  pose proof (locate_counter s b Hi Hb) as Hloc. unfold db_lookup.
  destruct (locate s (createCounterKey cfg b)) as [[i c]|]; cbn [fmap option_fmap option_map from_option snd id].
  - destruct Hloc as (_ & Hne & ->). rewrite bool_decide_eq_false_2 by apply to_string_nonempty.
    pose proof (zsize_entries (shard_map s i) b) as Hr.
    rewrite <- (db_entries_shard s b i) in Hr by done.
    rewrite stoull_to_string by lia. wp_simpl.
    by rewrite (proj2 (Z.leb_le _ _)) by lia.
  - destruct Hloc as [_ Hdb]. by rewrite Hdb in HQ.
Qed.

Lemma writeByteArrayToSet_spec s b x v :
  set_inv s -> 0 <= b -> x ∈ signers -> v <> ""%string ->
  wp (writeByteArrayToSet cfg v b x) s (fun (r : res (option (gmap Z string))) s' =>
    set_inv s' /\
    exists s1, (s1 = s \/ rotated s s1) /\ set_inv s1 /\ set_written s1 b x v r s').
Proof.
  intros Hi Hb Hx Hv. unfold writeByteArrayToSet. wp_simpl.
  eapply wp_mono; [apply rotateDBsIfNeeded_spec, Hi|]. cbv beta.
  intros r1 s1 (-> & Hwf1 & Hrot).
  assert (set_inv s1) as Hi1
    by (destruct Hrot as [->|Hrot]; [done|by eapply set_inv_rotated]).
  eapply wp_mono; [by apply writeByteArrayToSetUnsafe_spec|].
  cbv beta. intros r s' [Hi' Hw]. split; [done|by exists s1].
Qed.
End Sets.

(** The signature set of a block.  From any state with the set invariant, a
    write of a signer's non-empty share returns; after the rotation that may
    come first, a signer that already has an entry changes nothing and gets no
    set; a new entry is stored, counted once and leaves all other entries
    alone; the set is returned exactly by the write that brings the number of
    signers to the required one, and it then holds the stored shares of
    exactly that many signers; [isEnough] compares the number of signers with
    the required one. *)
Theorem signature_set_quorum {D} `{HealthyStore D} cfg (s : level_db D) b x v :
  1 <= dc_totalSigners cfg < 2 ^ 63 -> 1 <= dc_requiredSigners cfg ->
  set_inv cfg s -> 0 <= b -> 1 <= x <= dc_totalSigners cfg -> v <> ""%string ->
  wp (writeByteArrayToSet cfg v b x) s (fun (r : res (option (gmap Z string))) s' =>
    set_inv cfg s' /\
    (exists s1, (s1 = s \/ rotated s s1) /\ set_inv cfg s1 /\ set_written cfg s1 b x v r s') /\
    wp (isEnough cfg b) s' (fun (e : res bool) s2 =>
      s2 = s' /\ e = Ok (dc_requiredSigners cfg <=? zsize (db_entries cfg s' b)))).
Proof.
  intros Ht Hr Hi Hb Hx Hv.
  eapply wp_mono; [apply writeByteArrayToSet_spec; auto; by apply elem_of_signers|].
  cbv beta. intros r s' [Hi' Hw]. split_and!; [done|done|].
  unfold isEnough. wp_simpl. apply readCount_spec; [done..|]. by wp_simpl.
Qed.

(** Three of four shares of block 5 arrive; one of them twice. *)
Definition demo_sets : level_db (gmap string string) :=
  ((writeByteArrayToSet demo_config "s1" 5 1 ;;
    writeByteArrayToSet demo_config "s3" 5 3 ;;
    writeByteArrayToSet demo_config "x3" 5 3) empty_db).2.

Lemma demo_set_inv_empty : set_inv demo_config empty_db.
Proof.
  assert (forall i, shard_map empty_db i = ∅) as He
    by (intros i; do 4 (destruct i as [|i]; [done|]); done).
  constructor; [apply empty_db_wf| |].
  - intros i. rewrite He. by apply shard_ok_empty.
  - intros b i j _. by rewrite !He, entries_empty.
Qed.

Lemma demo_set_inv : set_inv demo_config demo_sets.
Proof.
  unfold demo_sets.
  assert (forall v x (s : level_db (gmap string string)),
    set_inv demo_config s -> 1 <= x <= 4 -> v <> ""%string ->
    exists o s', writeByteArrayToSet demo_config v 5 x s = (Ok o, s') /\ set_inv demo_config s') as Hw.
  { intros v x s Hi Hx Hv. unfold writeByteArrayToSet. cbv [mbind M_bind].
    destruct (rotateDBsIfNeeded_spec demo_config s (sv_wf _ _ Hi)) as (Hr & Hwf1 & Hrot).
    destruct (rotateDBsIfNeeded demo_config s) as [r1 s1]. cbn in *. subst r1.
    assert (set_inv demo_config s1) as Hi1
      by (destruct Hrot as [->|Hrot]; [done|by eapply set_inv_rotated]).
    destruct (writeByteArrayToSetUnsafe_spec demo_config ltac:(cbn; lia) ltac:(cbn; lia) s1 5 x v Hi1)
      as [Hi' Hw]; [lia|by apply elem_of_signers|done|].
    destruct (writeByteArrayToSetUnsafe demo_config v 5 x s1) as [r s'] eqn:Hrun.
    cbn [fst snd] in *. unfold set_written in Hw.
    assert (exists o, r = Ok o) as [o ->]; [|by eauto].
    destruct (db_lookup s1 _); [naive_solver|]. destruct Hw as [_ Hw].
    case_decide; [|eauto]. destruct Hw as (set & -> & _). eauto. }
  cbv [mbind M_bind].
  destruct (Hw "s1"%string 1 empty_db demo_set_inv_empty) as (o1 & t1 & -> & Hi1); [lia|done|].
  destruct (Hw "s3"%string 3 t1 Hi1) as (o2 & t2 & -> & Hi2); [lia|done|].
  destruct (Hw "x3"%string 3 t2 Hi2) as (o3 & t3 & -> & Hi3); [lia|done|]. done.
Qed.

Lemma signature_set_quorum_witness :
  (writeByteArrayToSet demo_config "s2" 5 2 demo_sets).1 =
    Ok (Some (list_to_map [(1, "s1"%string); (2, "s2"%string); (3, "s3"%string)])) /\
  set_inv demo_config (writeByteArrayToSet demo_config "s2" 5 2 demo_sets).2.
Proof.
  split; [vm_compute; reflexivity|].
  apply (signature_set_quorum demo_config demo_sets 5 2 "s2").
  - cbn; lia.
  - cbn; lia.
  - apply demo_set_inv.
  - lia.
  - cbn; lia.
  - discriminate.
Defined.
