(* ===== verification/BlockSigShare.v ===== *)
(** * Collecting the block signature

    Model of the in-memory part of [BlockSigShareDB]
    ([src/db/BlockSigShareDB.cpp]): the signature shares that the nodes send
    for a decided block are kept in an LRU cache under textual keys, with a
    counter per block and proposer, and merged once the required number of
    signers is there. *)

From stdpp Require Import base tactics gmap list strings.
From Stdlib Require Import ZArith Lia.
From S2P Require Import Prelude Bytes Messages BinConsensus LruCache LevelDb LevelDbSets.

(** The crypto manager and the chain around the database; shares and
    signatures live in libraries outside the repository. *)
Record sig_env {share shareset sig : Type} := {
  sg_bin : bin_env share shareset;
  sg_cfg : db_config;
  sg_shareBlockId : share -> Z;
  sg_shareSigner : share -> Z;
  sg_shareString : share -> string;
  sg_createSigShare : string -> Z -> Z -> res share;
  sg_hasNodeInfo : Z -> bool;
  sg_mergeSignature : shareset -> sig;
  sg_verifyThresholdSig : sig -> list Z -> bool
}.
Arguments sig_env : clear implicits.

Section BlockSigShareDB.
Context {share shareset sig : Type}.
Context (G : sig_env share shareset sig).
Local Abbreviation E := (sg_bin G).
Local Abbreviation cfg := (sg_cfg G).
Local Abbreviation state := (lru_cache string string).

(** [BLAKE3Hash::getConsensusHash]. *)
Definition getConsensusHash (blockProposerIndex blockId schainId : Z) : list Z :=
  be_blake3 E (le_bytes 8 blockProposerIndex ++ le_bytes 8 blockId ++ le_bytes 8 schainId ++
    le_bytes 4 (msg_type_code MSG_BLOCK_SIGN_BROADCAST)).

(** The loop over the signers that collects the cached shares. *)
Fixpoint collectInMemory (signers : list Z) (blockId proposerIndex : Z) (acc : gmap Z string) :
    M state (gmap Z string) :=
  match signers with
  | [] => mret acc
  | i :: signers =>
      let key := createKey3 cfg blockId proposerIndex i in
      b ← lru_exists key;
      acc ← (if (b : bool) then entry ← lru_get key; mret (<[i := entry]> acc) else mret acc);
      if zsize acc =? dc_requiredSigners cfg then mret acc
      else collectInMemory signers blockId proposerIndex acc
  end.

Definition writeStringToSetInMemory (value : string) (blockId index proposerIndex : Z) :
    M state (option (gmap Z string)) :=
  CHECK_ARGUMENT ((0 <? index) && (index <=? dc_totalSigners cfg)) ;;
  let alreadySignedKey := createKey1 cfg blockId in
  signed ← lru_exists alreadySignedKey;
  if (signed : bool) then mret None
  else
    let entryKey := createKey3 cfg blockId proposerIndex index in
    CHECK_STATE (bool_decide (entryKey <> ""%string)) ;;
    dup ← lru_exists entryKey;
    if (dup : bool) then mret None
    else
      let counterKey := createKey2 cfg blockId proposerIndex in
      counted ← lru_exists counterKey;
      count ←
        (if (counted : bool) then
           c ← lru_get counterKey;
           match stoull c with
           | Ok n => mret (Some n)
           | Err _ => lru_get counterKey ;; mret None
           end
         else lru_put counterKey "0"%string ;; mret (Some 0));
      match count with
      | None => mret None
      | Some count =>
          let count := u64 (count + 1) in
          lru_put counterKey (to_string count) ;;
          lru_put entryKey value ;;
          if negb (count =? dc_requiredSigners cfg) then mret None
          else
            enoughSet ← collectInMemory (signer_indices cfg) blockId proposerIndex ∅;
            CHECK_STATE (zsize enoughSet =? dc_requiredSigners cfg) ;;
            lru_put alreadySignedKey "1"%string ;;
            mret (Some enoughSet)
      end.

(** The loop that turns the collected strings back into shares. *)
Fixpoint addShares (items : list (Z * string)) (blockId : Z) (set : shareset) : res shareset :=
  match items with
  | [] => Ok set
  | (i, str) :: items =>
      rcheck InvalidStateException (sg_hasNodeInfo G i) ;;
      rcheck InvalidStateException (bool_decide (str <> ""%string)) ;;
      sh ← sg_createSigShare G str blockId i;
      addShares items blockId (be_addSigShare E set sh)
  end.

Definition checkAndSaveShareInMemory (sigShare : option share) (proposer : Z) :
    M state (option sig) :=
  nested InvalidStateException
    match sigShare with
    | None => throw InvalidArgumentException
    | Some sh =>
        let blockId := sg_shareBlockId G sh in
        let hash := getConsensusHash proposer blockId (be_schainID E) in
        lift_res (verifyThresholdSigShare E sh hash) ;;
        let sigShareString := sg_shareString G sh in
        CHECK_STATE (bool_decide (sigShareString <> ""%string)) ;;
        enoughSet ← writeStringToSetInMemory sigShareString blockId (sg_shareSigner G sh) proposer;
        match enoughSet with
        | None => mret None
        | Some enoughSet =>
            set ← lift_res (addShares (map_items enoughSet) blockId (be_emptyShareSet E));
            CHECK_STATE (be_isEnough E set) ;;
            let signature := sg_mergeSignature G set in
            CHECK_STATE (sg_verifyThresholdSig G signature hash) ;;
            mret (Some signature)
        end
    end.

(** ** What a returned signature stands for *)
Implicit Types c : state.

(** Lookups in the cache that only move entries. *)
Definition same_lookups c c' : Prop :=
  lru_inv c' /\ (forall k, lru_lookup c' k = lru_lookup c k) /\ lru_max_size c' = lru_max_size c.

Lemma same_lookups_refl c : lru_inv c -> same_lookups c c.
Proof. intros. by unfold same_lookups; split_and!. Qed.

Lemma same_lookups_touch c c' k : same_lookups c c' -> same_lookups c (lru_touch k c').
Proof.
  intros (Hi & Hl & Hm). split_and!.
  - by apply lru_touch_inv.
  - intros k'. by rewrite lru_lookup_touch.
  - by rewrite lru_touch_max.
Qed.

Definition shares_from c b p (set : gmap Z string) : Prop :=
  forall x v, set !! x = Some v ->
    1 <= x <= dc_totalSigners cfg /\ lru_lookup c (createKey3 cfg b p x) = Some v.

Lemma collectInMemory_spec l b p acc c c0 :
  same_lookups c0 c -> Forall (fun x => 1 <= x <= dc_totalSigners cfg) l ->
  shares_from c0 b p acc ->
  wp (collectInMemory l b p acc) c (fun (r : res (gmap Z string)) c' =>
    same_lookups c0 c' /\ exists set, r = Ok set /\ shares_from c0 b p set).
Proof.
  intros Hc Hl. revert c acc Hc. induction Hl as [|i l Hi _ IH]; intros c acc Hc Hacc;
    cbn [collectInMemory]; wp_simpl; [by eauto|].
  apply wp_lru_exists; [apply Hc|].
  destruct (lru_lookup c (createKey3 cfg b p i)) as [v|] eqn:Hlk.
  - rewrite bool_decide_eq_true_2 by eauto. wp_simpl.
    apply wp_lru_get; [apply Hc| |congruence]. intros w Hw. simplify_eq.
    assert (shares_from c0 b p (<[i := v]> acc)) as Hacc'.
    { intros x w. destruct (decide (x = i)) as [->|Hx].
      - rewrite lookup_insert_eq. intros [= <-]. split; [done|]. by rewrite <- (proj1 (proj2 Hc)).
      - rewrite lookup_insert_ne by done. apply Hacc. }
    wp_simpl. apply wp_if; split; intros _; wp_simpl;
      [|by apply IH; [apply same_lookups_touch|]].
    split; [by apply same_lookups_touch|eauto].
  - rewrite bool_decide_eq_false_2 by (by intros [? ?]). wp_simpl.
    apply wp_if; split; intros _; wp_simpl; [by eauto|by apply IH].
Qed.

(** Keys of different shape or signer differ. *)
Lemma createKey1_parts b : createKey1 cfg b = dc_version cfg +:+ colon_join [to_string b].
Proof. unfold createKey1. cbn [colon_join]. by rewrite string_app_nil_r. Qed.

Lemma createKey3_parts b p x :
  createKey3 cfg b p x = dc_version cfg +:+ colon_join [to_string b; to_string p; to_string x].
Proof. unfold createKey3. cbn [colon_join]. by rewrite string_app_nil_r. Qed.

Lemma numbers_no_colon (l : list Z) : Forall no_colon (to_string <$> l).
Proof. apply Forall_fmap, Forall_true. intros; apply to_string_no_colon. Qed.

Lemma createKey3_ne2 b p x b' p' : createKey3 cfg b p x <> createKey2 cfg b' p'.
Proof.
  rewrite createKey3_parts, createKey2_parts.
  by intros Heq%key_inj; [|apply (numbers_no_colon [b; p; x])|apply (numbers_no_colon [b'; p'])].
Qed.

Lemma createKey3_ne b p x y :
  0 <= x -> 0 <= y -> x <> y -> createKey3 cfg b p x <> createKey3 cfg b p y.
Proof.
  rewrite !createKey3_parts. intros Hx Hy Hne Heq%key_inj;
    [|apply (numbers_no_colon [b; p; x])|apply (numbers_no_colon [b; p; y])].
  injection Heq as Heq. by apply Hne, to_string_inj.
Qed.

(** What a call that returns a set has done: block and signer were new, the set
    has the required number of signers, each share is the new one or was
    cached before, and the block is marked as signed. *)
Definition set_completed c v b i p (set : gmap Z string) c' : Prop :=
  lru_lookup c (createKey1 cfg b) = None /\ lru_lookup c (createKey3 cfg b p i) = None /\
  zsize set = dc_requiredSigners cfg /\ lru_lookup c' (createKey1 cfg b) = Some "1"%string /\
  forall x w, set !! x = Some w ->
    1 <= x <= dc_totalSigners cfg /\
    (if decide (x = i) then w = v else lru_lookup c (createKey3 cfg b p x) = Some w).

Lemma shares_from_put c c1 b p i v n set :
  lru_inv c1 -> (forall x w, lru_lookup c1 (createKey3 cfg b p x) = Some w ->
    lru_lookup c (createKey3 cfg b p x) = Some w) ->
  1 <= lru_max_size c1 -> 0 <= i ->
  shares_from (putUnsafe (createKey3 cfg b p i) v (putUnsafe (createKey2 cfg b p) n c1)) b p set ->
  forall x w, set !! x = Some w -> 1 <= x <= dc_totalSigners cfg /\
    (if decide (x = i) then w = v else lru_lookup c (createKey3 cfg b p x) = Some w).
Proof.
  intros Hi Hc1 Hmax Hi0 Hset x w [Hx Hl]%Hset. split; [done|].
  pose proof (lru_putUnsafe_inv (createKey2 cfg b p) n c1 Hi) as Hi2.
  case_decide as Hxi.
  - subst x. rewrite lru_lookup_put in Hl; [congruence|done|by rewrite lru_put_max].
  - apply Hc1. apply lru_lookup_put_ne in Hl; [|done|by apply createKey3_ne; lia].
    apply lru_lookup_put_ne in Hl; [done|done|]. intros Heq; symmetry in Heq.
    by apply createKey3_ne2 in Heq.
Qed.

Lemma writeStringToSetInMemory_spec v b i p c :
  lru_inv c -> 1 <= lru_max_size c ->
  wp (writeStringToSetInMemory v b i p) c (fun (r : res (option (gmap Z string))) c' =>
    lru_inv c' /\ lru_max_size c' = lru_max_size c /\
    (is_Some (lru_lookup c (createKey1 cfg b)) -> 1 <= i <= dc_totalSigners cfg ->
       r = Ok None /\ c' = c) /\
    forall set, r = Ok (Some set) -> set_completed c v b i p set c').
Proof.
  intros Hi Hmax. unfold writeStringToSetInMemory. wp_simpl.
  split; intros Hidx; [|split_and!; [done|done| |done]; intros; exfalso; lia].
  apply wp_lru_exists; [done|].
  destruct (lru_lookup c (createKey1 cfg b)) eqn:Hsigned.
  { rewrite bool_decide_eq_true_2 by eauto. wp_simpl. by split_and!. }
  rewrite (bool_decide_eq_false_2 (is_Some None)) by (by intros [? ?]). wp_simpl.
  split; intros _; [|split_and!; try done; by intros [? ?]].
  apply wp_lru_exists; [done|].
  destruct (lru_lookup c (createKey3 cfg b p i)) eqn:Hentry.
  { rewrite bool_decide_eq_true_2 by eauto. wp_simpl. split_and!; try done; by intros [? ?]. }
  rewrite (bool_decide_eq_false_2 (is_Some None)) by (by intros [? ?]). wp_simpl.
  apply wp_lru_exists; [done|].
  set (Q := fun (r : res (option (gmap Z string))) c' => _).
  (* The rest of the call, from any cache whose shares were cached before. *)
  assert (forall c1 n, lru_inv c1 -> lru_max_size c1 = lru_max_size c ->
    (forall x w, lru_lookup c1 (createKey3 cfg b p x) = Some w ->
       lru_lookup c (createKey3 cfg b p x) = Some w) ->
    wp (let count := u64 (n + 1) in
        lru_put (createKey2 cfg b p) (to_string count) ;;
        lru_put (createKey3 cfg b p i) v ;;
        if negb (count =? dc_requiredSigners cfg) then mret None
        else
          enoughSet ← collectInMemory (signer_indices cfg) b p ∅;
          CHECK_STATE (zsize enoughSet =? dc_requiredSigners cfg) ;;
          lru_put (createKey1 cfg b) "1"%string ;;
          mret (Some enoughSet)) c1 Q) as Hrest.
  { intros c1 n Hi1 Hm1 Hc1. cbv zeta. unfold lru_put. wp_simpl.
    set (c2 := putUnsafe (createKey2 cfg b p) _ c1). set (c3 := putUnsafe _ v c2).
    assert (lru_inv c3) as Hi3 by (by do 2 apply lru_putUnsafe_inv).
    assert (lru_max_size c3 = lru_max_size c) as Hm3.
    { unfold c3, c2. rewrite !lru_put_max; [done|done|by apply lru_putUnsafe_inv]. }
    apply wp_if; split; intros Hcnt; wp_simpl.
    { unfold Q. split_and!; try done; by intros [? ?]. }
    eapply wp_mono; [apply (collectInMemory_spec _ b p ∅ c3 c3)|].
    - by apply same_lookups_refl.
    - apply Forall_forall. intros x Hx%elem_of_seqZ. lia.
    - intros x w Hx. by rewrite lookup_empty in Hx.
    - cbv beta. intros r c4 ((Hi4 & Hl4 & Hm4) & set & -> & Hset). wp_simpl.
      split; intros Hsz; [|unfold Q; split_and!; [done|congruence|by intros [? ?]|done]].
      unfold Q. split_and!; [by apply lru_putUnsafe_inv|rewrite lru_put_max by done; congruence
        |by intros [? ?]|].
      intros set' [= <-]. split_and!; [done|done|lia|apply lru_lookup_put; [done|congruence]|].
      eapply shares_from_put; [exact Hi1|exact Hc1|congruence|lia|exact Hset]. }
  destruct (lru_lookup c (createKey2 cfg b p)) as [cs|] eqn:Hcount.
  - rewrite bool_decide_eq_true_2 by eauto. wp_simpl.
    apply wp_lru_get; [done| |congruence]. intros w Hw. simplify_eq.
    assert (same_lookups c (lru_touch (createKey2 cfg b p) c)) as (Ht1 & Ht2 & Ht3)
      by by apply same_lookups_touch, same_lookups_refl.
    destruct (stoull cs) as [n|e]; wp_simpl.
    + exact (proj1 (wp_bind _ _ _ _) (Hrest _ n Ht1 Ht3 ltac:(intros x w; by rewrite Ht2))).
    + apply wp_lru_get; [done| |]; intros; wp_simpl; unfold Q; split_and!; try done;
        try (by intros [? ?]); [by apply lru_touch_inv|by rewrite lru_touch_max].
  - rewrite (bool_decide_eq_false_2 (is_Some None)) by (by intros [? ?]). unfold lru_put at 1.
    wp_simpl.
    refine (proj1 (wp_bind _ _ _ _) (Hrest _ 0 _ _ _)).
    + by apply lru_putUnsafe_inv.
    + by apply lru_put_max.
    + intros x w Hl. apply lru_lookup_put_ne in Hl; [done|done|].
      intros Heq; symmetry in Heq. by apply createKey3_ne2 in Heq.
Qed.

(** A returned signature is merged from the collected shares and verified. *)
Definition signature_ok c sh p (s : sig) c' : Prop :=
  exists set shares,
    set_completed c (sg_shareString G sh) (sg_shareBlockId G sh) (sg_shareSigner G sh) p set c' /\
    addShares (map_items set) (sg_shareBlockId G sh) (be_emptyShareSet E) = Ok shares /\
    be_isEnough E shares = true /\ s = sg_mergeSignature G shares /\
    sg_verifyThresholdSig G s
      (getConsensusHash p (sg_shareBlockId G sh) (be_schainID E)) = true.

Lemma checkAndSaveShareInMemory_spec sh p c :
  lru_inv c -> 1 <= lru_max_size c ->
  wp (checkAndSaveShareInMemory (Some sh) p) c (fun (r : res (option sig)) c' =>
    lru_inv c' /\ lru_max_size c' = lru_max_size c /\
    (forall s, r = Ok (Some s) -> signature_ok c sh p s c') /\
    (is_Some (lru_lookup c (createKey1 cfg (sg_shareBlockId G sh))) ->
       forall s, r <> Ok (Some s))).
Proof.
  intros Hi Hm. unfold checkAndSaveShareInMemory. wp_simpl.
  destruct (verifyThresholdSigShare E sh _) as [[]|e]; [|by split_and!].
  wp_simpl. split; intros Hstr; [|by split_and!].
  eapply wp_mono; [by apply writeStringToSetInMemory_spec|]. cbv beta.
  intros r c' (Hi' & Hm' & Hsigned & Hset).
  destruct r as [[set|]|e]; wp_simpl; [|by split_and!..].
  specialize (Hset set eq_refl). pose proof Hset as (Hnone & _).
  assert (is_Some (lru_lookup c (createKey1 cfg (sg_shareBlockId G sh))) ->
    forall (P : Prop), P) as Hab by (intros [? ?]; congruence).
  destruct (addShares _ _ _) as [shares|e] eqn:Hadd; wp_simpl;
    [|by split_and!; [..|intros; apply Hab]].
  split; intros Hen; [|by split_and!; [..|intros; apply Hab]].
  split; intros Hver; [|by split_and!; [..|intros; apply Hab]].
  split_and!; [done..| |intros; by apply Hab].
  intros s [= <-]. by exists set, shares.
Qed.

(** ** Only verified shares are collected *)

(** The text [w] is a share of the signer [x] for the block [b] and the proposer
    [p] that verifies. *)
Definition share_verified (b p x : Z) (w : string) : Prop := exists sh,
  sg_shareBlockId G sh = b /\ sg_shareSigner G sh = x /\ sg_shareString G sh = w /\
  verifyThresholdSigShare E sh (getConsensusHash p b (be_schainID E)) = Ok tt.

(** What may be stored under a key. *)
Definition entry_ok (k w : string) : Prop := forall b p x,
  0 <= b -> 0 <= p -> 0 <= x -> k = createKey3 cfg b p x -> share_verified b p x w.

Record verified_cache c : Prop := {
  vc_inv : lru_inv c;
  vc_size : 1 <= lru_max_size c;
  vc_entries : forall k w, lru_lookup c k = Some w -> entry_ok k w
}.

Lemma verified_touch k c : verified_cache c -> verified_cache (lru_touch k c).
Proof.
  intros [Hi Hs He]. split; [by apply lru_touch_inv|by rewrite lru_touch_max|].
  intros k' w. rewrite lru_lookup_touch by done. apply He.
Qed.

Lemma verified_put k v c : entry_ok k v -> verified_cache c -> verified_cache (putUnsafe k v c).
Proof.
  intros Hk [Hi Hs He]. split; [by apply lru_putUnsafe_inv|by rewrite lru_put_max|].
  intros k' w Hw. destruct (decide (k = k')) as [<-|Hne].
  - rewrite lru_lookup_put in Hw by done. by injection Hw as <-.
  - apply (He k'). by eapply lru_lookup_put_ne.
Qed.

Lemma wp_verified_put k v c : entry_ok k v -> verified_cache c -> wp (lru_put k v) c (fun _ c' => verified_cache c').
Proof. intros Hk Hc. unfold lru_put. wp_simpl. by apply verified_put. Qed.

Lemma wp_verified_exists k c : verified_cache c -> wp (lru_exists k) c (fun _ c' => verified_cache c').
Proof. intros Hc. apply wp_lru_exists; [apply Hc|done]. Qed.

Lemma wp_verified_get k c : verified_cache c -> wp (lru_get k) c (fun _ c' => verified_cache c').
Proof. intros Hc. apply wp_lru_get; [apply Hc|intros; by apply verified_touch|done]. Qed.

(** A step that keeps the cache verified, and the rest. *)
Lemma verified_bind {A B} (m : M state A) (k : A -> M state B) c :
  wp m c (fun _ c' => verified_cache c') -> (forall a c', verified_cache c' -> wp (k a) c' (fun _ c' => verified_cache c')) ->
  wp (m ≫= k) c (fun _ c' => verified_cache c').
Proof. intros Hm Hk. rewrite wp_bind. eapply wp_mono; [exact Hm|]. cbv beta. intros [a|e] c' Hc; [by apply Hk|done]. Qed.

Lemma collectInMemory_verified l b p acc c :
  verified_cache c -> wp (collectInMemory l b p acc) c (fun _ c' => verified_cache c').
Proof.
  revert acc c. induction l as [|i l IH]; intros acc c Hc; cbn [collectInMemory]; [done|].
  apply verified_bind; [by apply wp_verified_exists|]. intros b' c1 H1. apply verified_bind.
  - destruct b'; [|done]. apply verified_bind; [by apply wp_verified_get|done].
  - intros acc' c2 H2. destruct (zsize acc' =? _); [done|by apply IH].
Qed.

(** Keys of another shape hold anything. *)
Lemma entry_ok_short l w :
  length l <> 3%nat -> entry_ok (dc_version cfg +:+ colon_join (to_string <$> l)) w.
Proof.
  intros Hl b p x _ _ _. rewrite createKey3_parts. intros Heq%key_inj;
    [|apply (numbers_no_colon l)|apply (numbers_no_colon [b; p; x])].
  apply (f_equal length) in Heq. rewrite length_fmap in Heq. done.
Qed.

Lemma entry_ok_share b p x w :
  0 <= b -> 0 <= p -> 0 <= x -> share_verified b p x w -> entry_ok (createKey3 cfg b p x) w.
Proof.
  rewrite createKey3_parts. intros Hb Hp Hx Hw b' p' x' ? ? ?. rewrite createKey3_parts.
  intros Heq%key_inj; [|apply (numbers_no_colon [b; p; x])|apply (numbers_no_colon [b'; p'; x'])].
  injection Heq as Eb Ep Ex. apply to_string_inj in Eb, Ep, Ex; [by subst|done..].
Qed.

Lemma writeStringToSetInMemory_verified v b i p c :
  0 <= b -> 0 <= p -> share_verified b p i v -> verified_cache c ->
  wp (writeStringToSetInMemory v b i p) c (fun _ c' => verified_cache c').
Proof.
  intros Hb Hp Hv Hc. unfold writeStringToSetInMemory.
  assert (forall w, entry_ok (createKey1 cfg b) w) as Hk1.
  { intros w. rewrite createKey1_parts. by apply (entry_ok_short [b]). }
  assert (forall w, entry_ok (createKey2 cfg b p) w) as Hk2.
  { intros w. rewrite createKey2_parts. by apply (entry_ok_short [b; p]). }
  rewrite wp_bind, wp_check. split; intros Hidx; [|done].
  assert (entry_ok (createKey3 cfg b p i) v) as Hk3 by (apply entry_ok_share; [done..|lia|done]).
  apply verified_bind; [by apply wp_verified_exists|]. intros [] c1 H1; [done|].
  rewrite wp_bind, wp_check. split; intros _; [|done].
  apply verified_bind; [by apply wp_verified_exists|]. intros [] c2 H2; [done|].
  apply verified_bind; [by apply wp_verified_exists|]. intros counted c3 H3. apply verified_bind.
  { destruct counted; [|apply verified_bind; [by apply wp_verified_put|done]].
    apply verified_bind; [by apply wp_verified_get|]. intros cs c4 H4.
    destruct (stoull cs); [done|]. apply verified_bind; [by apply wp_verified_get|done]. }
  intros [n|] c4 H4; [|done]. cbv zeta.
  apply verified_bind; [by apply wp_verified_put|]. intros [] c5 H5.
  apply verified_bind; [by apply wp_verified_put|]. intros [] c6 H6.
  destruct (negb _); [done|].
  apply verified_bind; [by apply collectInMemory_verified|]. intros set c7 H7.
  rewrite wp_bind, wp_check. split; intros _; [|done].
  apply verified_bind; [by apply wp_verified_put|done].
Qed.

Lemma checkAndSaveShareInMemory_verified sh p c :
  0 <= sg_shareBlockId G sh -> 0 <= p -> verified_cache c ->
  wp (checkAndSaveShareInMemory (Some sh) p) c (fun (r : res (option sig)) c' => verified_cache c' /\
    forall s, r = Ok (Some s) ->
      share_verified (sg_shareBlockId G sh) p (sg_shareSigner G sh) (sg_shareString G sh)).
Proof.
  intros Hb Hp Hc. unfold checkAndSaveShareInMemory. wp_simpl.
  destruct (verifyThresholdSigShare E sh _) as [[]|e] eqn:Hver; [|done].
  assert (share_verified (sg_shareBlockId G sh) p (sg_shareSigner G sh) (sg_shareString G sh)) as Hs by (by exists sh).
  wp_simpl. split; intros _; [|done].
  eapply wp_mono; [by apply writeStringToSetInMemory_verified|]. cbv beta.
  intros [[set|]|e] c' Hc'; wp_simpl; [|done..].
  destruct (addShares _ _ _); wp_simpl; [|done]. split; intros _; [|done]. by split.
Qed.

(** The shares that arrive, one after the other. *)
Definition save_shares (calls : list (share * Z)) (c : state) : state :=
  foldl (fun c call => (checkAndSaveShareInMemory (Some call.1) call.2 c).2) c calls.

Definition call_ok (call : share * Z) : Prop := 0 <= sg_shareBlockId G call.1 /\ 0 <= call.2.

Lemma save_shares_verified calls c : Forall call_ok calls -> verified_cache c -> verified_cache (save_shares calls c).
Proof.
  intros Hcalls. revert c. induction Hcalls as [|[sh p] calls [Hb Hp] _ IH]; intros c Hc; [done|].
  cbn [save_shares foldl]. apply IH. cbn [fst snd] in *.
  pose proof (checkAndSaveShareInMemory_verified sh p c Hb Hp Hc) as Hw. unfold wp in Hw. apply Hw.
Qed.

Lemma verified_cache_new size : 1 <= size -> verified_cache (lru_new size).
Proof. intros Hs. split; [apply lru_new_inv; lia|done|]. intros k w Hk. done. Qed.

(** Each of the collected shares verifies. *)
Lemma collected_verified c sh p set c' :
  0 <= sg_shareBlockId G sh -> 0 <= p -> verified_cache c ->
  share_verified (sg_shareBlockId G sh) p (sg_shareSigner G sh) (sg_shareString G sh) ->
  set_completed c (sg_shareString G sh) (sg_shareBlockId G sh) (sg_shareSigner G sh) p set c' ->
  forall x w, set !! x = Some w -> share_verified (sg_shareBlockId G sh) p x w.
Proof.
  intros Hb Hp Hc Hv (_ & _ & _ & _ & Hset) x w [Hx Hw]%Hset. case_decide as Hxi; [by subst|].
  apply (vc_entries _ Hc _ _ Hw); [done..|lia|done].
Qed.
End BlockSigShareDB.

(** C37: a block signature.  Whatever shares arrive, for whatever blocks and
    proposers, a signature is returned only when shares of exactly the required
    number of distinct signers, each of which verifies for this block, proposer
    and chain, have been collected; it is merged from them and verifies against
    the hash of the block, proposer and chain; and as long as the mark of the
    signed block stays cached, no later share of that block, for whatever
    proposer, gives a signature again. *)
Theorem block_signature_quorum {share shareset sig} (G : sig_env share shareset sig) size calls sh p :
  1 <= size -> Forall (call_ok G) (calls ++ [(sh, p)]) ->
  let c := save_shares G calls (lru_new size) in
  wp (checkAndSaveShareInMemory G (Some sh) p) c (fun (r : res (option sig)) c' =>
    forall s, r = Ok (Some s) ->
      (exists set shares,
        zsize set = dc_requiredSigners (sg_cfg G) /\
        (forall x w, set !! x = Some w ->
           1 <= x <= dc_totalSigners (sg_cfg G) /\ share_verified G (sg_shareBlockId G sh) p x w) /\
        addShares G (map_items set) (sg_shareBlockId G sh) (be_emptyShareSet (sg_bin G)) = Ok shares /\
        be_isEnough (sg_bin G) shares = true /\ s = sg_mergeSignature G shares /\
        sg_verifyThresholdSig G s
          (getConsensusHash G p (sg_shareBlockId G sh) (be_schainID (sg_bin G))) = true) /\
      forall sh' p', sg_shareBlockId G sh' = sg_shareBlockId G sh ->
        wp (checkAndSaveShareInMemory G (Some sh') p') c' (fun (r' : res (option sig)) _ =>
          forall s', r' <> Ok (Some s'))).
Proof.
  intros Hsize [Hcalls [Hb Hp]%Forall_singleton]%Forall_app c. cbn [fst snd] in Hb, Hp.
  assert (verified_cache G c) as Hc by (by apply save_shares_verified, verified_cache_new).
  pose proof (checkAndSaveShareInMemory_verified G sh p c Hb Hp Hc) as Hv.
  pose proof (checkAndSaveShareInMemory_spec G sh p c (vc_inv _ _ Hc) (vc_size _ _ Hc)) as Hs.
  unfold wp at 1. unfold wp in Hv, Hs. destruct (checkAndSaveShareInMemory G (Some sh) p c) as [r c']. cbn [fst snd] in *.
  destruct Hv as [Hc' Hv], Hs as (_ & _ & Hok & _). intros s Hr. specialize (Hv s Hr). specialize (Hok s Hr).
  destruct Hok as (set & shares & Hset & Hadd & Hen & Hm & Hver). split.
  - exists set, shares. split_and!; try done; [apply Hset|]. intros x w Hx. split.
    + destruct Hset as (_ & _ & _ & _ & Hset). by apply Hset in Hx as [? _].
    + by apply (collected_verified G c sh p set c' Hb Hp Hc Hv Hset).
  - intros sh' p' Hb'.
    eapply wp_mono; [apply checkAndSaveShareInMemory_spec; [apply Hc'|apply Hc']|]. cbv beta.
    intros r' c2 (_ & _ & _ & Hno). apply Hno. rewrite Hb'. destruct Hset as (_ & _ & _ & Hmark & _). eauto.
Qed.

(** Shares are pairs of a block and a signer, a set is the number of shares. *)
Definition demo_sig_env : sig_env (Z * Z) Z Z :=
  {| sg_bin :=
       {| be_nodeCount := 4; be_schainIndex := 1; be_schainID := 7; be_blockID := 10;
          be_blockProposerIndex := 2; be_isSgxEnabled := true; be_isSyncOnlyNode := false;
          be_blake3 := fun bytes => bytes;
          be_verifyBlsSigShare := fun sh _ => sh.2 <=? 4;
          be_signSigShare := fun _ b _ => (b, 1);
          be_emptyShareSet := 0;
          be_addSigShare := fun set _ => set + 1;
          be_isEnough := fun set => 3 <=? set;
          be_mergeRandom := fun _ => 0 |};
     sg_cfg := demo_config;
     sg_shareBlockId := fst;
     sg_shareSigner := snd;
     sg_shareString := fun sh => to_string sh.2;
     sg_createSigShare := fun _ b i => Ok (b, i);
     sg_hasNodeInfo := fun _ => true;
     sg_mergeSignature := fun set => set;
     sg_verifyThresholdSig := fun s _ => 3 <=? s |}.

(** The share of the signer 7 does not verify; two others do. *)
Definition demo_calls : list ((Z * Z) * Z) := [((5, 1), 2); ((5, 7), 2); ((5, 4), 2)].

Lemma block_signature_quorum_witness :
  exists set : gmap Z string, zsize set = 3 /\
    (forall x w, set !! x = Some w -> 1 <= x <= 4 /\ share_verified demo_sig_env 5 2 x w) /\
    (checkAndSaveShareInMemory demo_sig_env (Some (5, 2)) 2 (save_shares demo_sig_env demo_calls (lru_new 256))).1 =
      Ok (Some 3).
Proof.
  assert ((checkAndSaveShareInMemory demo_sig_env (Some (5, 2)) 2
    (save_shares demo_sig_env demo_calls (lru_new 256))).1 = Ok (Some 3)) as Hr by (vm_compute; reflexivity).
  destruct (block_signature_quorum demo_sig_env 256 demo_calls (5, 2) 2) with (s := 3) as [(set & shares & Hz & Hv & _) _].
  - lia.
  - repeat (apply Forall_cons; split; [split; cbn; lia|]). by apply Forall_nil.
  - exact Hr.
  - exists set. split; [exact Hz|]. split; [exact Hv|exact Hr].
Defined.
