(* ===== verification/ProposalVector.v ===== *)
(** * The vector of received proposals

    Model of [BooleanProposalVector] ([src/datastructures]): for every member
    whether the node has the data availability proof of its proposal, what the
    node proposes to the binary consensuses. *)

From stdpp Require Import base tactics gmap list strings.
From Stdlib Require Import Ascii.
From Stdlib Require Import ZArith Lia.
From S2P Require Import Prelude Bytes.

Record BooleanProposalVector := {
  bv_nodeCount : Z;
  bv_proposals : list bool;
  bv_trueCount : Z
}.

(** The constructor from the received proofs; [trueCount] is set to the length
    of the vector, its unused entry at index [0] included. *)
Definition mkVectorFromProofs (nodeCount : Z) (receivedDAProofs : gmap Z string) :
    BooleanProposalVector :=
  let proposals :=
    false :: map (fun i => bool_decide (is_Some (receivedDAProofs !! i))) (seqZ 1 nodeCount) in
  {| bv_nodeCount := nodeCount; bv_proposals := proposals; bv_trueCount := zlen proposals |}.

Fixpoint parseVector (s : string) : res (list bool * Z) :=
  match s with
  | EmptyString => Ok ([], 0)
  | String c s =>
      if Ascii.eqb c "1"%char then r ← parseVector s; Ok (true :: r.1, u64 (r.2 + 1))
      else if Ascii.eqb c "0"%char then r ← parseVector s; Ok (false :: r.1, r.2)
      else Err InvalidArgumentException
  end.

(** The constructor from a string of ['0'] and ['1']. *)
Definition mkVectorFromString (nodeCount : Z) (vectorStr : string) : res BooleanProposalVector :=
  rcheck InvalidArgumentException (bool_decide (vectorStr <> ""%string)) ;;
  rcheck InvalidArgumentException (Z.of_nat (String.length vectorStr) =? nodeCount) ;;
  r ← parseVector vectorStr;
  Ok {| bv_nodeCount := nodeCount; bv_proposals := false :: r.1; bv_trueCount := r.2 |}.

Definition getProposalValue (v : BooleanProposalVector) (index : Z) : res bool :=
  rcheck InvalidStateException (zlen (bv_proposals v) =? bv_nodeCount v + 1) ;;
  rcheck InvalidStateException (index <=? bv_nodeCount v) ;;
  rcheck InvalidStateException (0 <? index) ;;
  match bv_proposals v !! Z.to_nat index with
  | Some b => Ok b
  | None => Err StdOutOfRange
  end.

Definition getTrueCount (v : BooleanProposalVector) : Z := bv_trueCount v.

Definition bit_string (b : bool) : string := if b then "1" else "0".

Fixpoint vectorString (v : list bool) (indices : list nat) : res string :=
  match indices with
  | [] => Ok ""%string
  | i :: indices =>
      match v !! i with
      | None => Err StdOutOfRange
      | Some b => rest ← vectorString v indices; Ok (bit_string b +:+ rest)
      end
  end.

(** [BooleanProposalVector::toString]. *)
Definition vectorToString (v : BooleanProposalVector) : res string :=
  vectorString (bv_proposals v) (seq 1 (Z.to_nat (bv_nodeCount v))).

(** ** Theorems *)
Lemma vectorString_bits (pre l : list bool) :
  vectorString (pre ++ l) (seq (length pre) (length l)) =
  Ok (foldr (fun b s => bit_string b +:+ s) ""%string l).
Proof.
  revert pre. induction l as [|b l IH]; intros pre; [done|]. cbn [length seq vectorString].
  rewrite lookup_app_r, Nat.sub_diag by done. cbn [lookup list_lookup].
  specialize (IH (pre ++ [b])). rewrite <- app_assoc in IH. cbn [app] in IH.
  rewrite length_app, Nat.add_1_r in IH. rewrite IH. done.
Qed.

Lemma parseVector_bit b s :
  parseVector (bit_string b +:+ s) =
  (r ← parseVector s; Ok (b :: r.1, if b then u64 (r.2 + 1) else r.2)).
Proof. by destruct b. Qed.

Lemma parseVector_bits l :
  Z.of_nat (length l) < 2 ^ 64 ->
  parseVector (foldr (fun b s => bit_string b +:+ s) ""%string l) =
  Ok (l, zlen (filter (fun b => b = true) l)).
Proof.
  induction l as [|b l IH]; intros Hl; [done|]. cbn [length] in Hl.
  assert (0 <= zlen (filter (fun b => b = true) l) <= zlen l) as Hr.
  { pose proof (length_filter (fun b => b = true) l). unfold zlen. lia. }
  cbn [foldr]. rewrite parseVector_bit, IH by lia. cbn [mbind res_bind fst snd].
  destruct b; [|by rewrite filter_cons_False].
  rewrite filter_cons_True, u64_small by (done || (unfold zlen in *; lia)).
  unfold zlen. cbn [length]. do 2 f_equal. lia.
Qed.

Lemma string_length_bits (l : list bool) :
  String.length (foldr (fun b s => bit_string b +:+ s) ""%string l) = length l.
Proof.
  induction l as [|b l IH]; [done|]. cbn [foldr length]. rewrite <- IH. by destruct b.
Qed.

Lemma vector_roundtrip n proofs :
  0 < n < 2 ^ 63 ->
  exists s v,
    vectorToString (mkVectorFromProofs n proofs) = Ok s /\ s <> ""%string /\ mkVectorFromString n s = Ok v /\
    bv_proposals v = bv_proposals (mkVectorFromProofs n proofs) /\
    getTrueCount v = zlen (filter (fun b => b = true) (bv_proposals v)) /\
    forall i, 1 <= i <= n -> getProposalValue v i = Ok (bool_decide (is_Some (proofs !! i))).
Proof.
  intros Hn. set (l := map (fun i => bool_decide (is_Some (proofs !! i))) (seqZ 1 n)).
  assert (length l = Z.to_nat n) as Hl by (unfold l; by rewrite length_map, length_seqZ).
  exists (foldr (fun b s => bit_string b +:+ s) ""%string l).
  exists {| bv_nodeCount := n; bv_proposals := false :: l;
            bv_trueCount := zlen (filter (fun b => b = true) l) |}.
  split_and!.
  - unfold vectorToString, mkVectorFromProofs; cbn [bv_proposals bv_nodeCount]. fold l.
    rewrite <- Hl. apply (vectorString_bits [false] l).
  - intros He. assert (String.length "" = length l) as Hlen by (by rewrite <- He, string_length_bits).
    cbn in Hlen. lia.
  - unfold mkVectorFromString. rewrite string_length_bits, Hl, Z2Nat.id, Z.eqb_refl by lia.
    rewrite bool_decide_eq_true_2.
    + cbn. by rewrite parseVector_bits by lia.
    + intros He. assert (String.length "" = length l) as Hlen by (by rewrite <- He, string_length_bits).
      cbn in Hlen. lia.
  - done.
  - done.
  - intros i Hi. unfold getProposalValue; cbn [bv_proposals bv_nodeCount].
    rewrite (proj2 (Z.eqb_eq (zlen (false :: l)) (n + 1)))
      by (unfold zlen; cbn [length]; rewrite Hl; lia).
    rewrite (proj2 (Z.leb_le i n)), (proj2 (Z.ltb_lt 0 i)) by lia.
    cbn [rcheck mbind res_bind].
    replace (Z.to_nat i) with (S (Z.to_nat (i - 1))) by lia.
    change ((false :: l) !! S (Z.to_nat (i - 1))) with (l !! Z.to_nat (i - 1)).
    unfold l. change (map ?f ?k) with (f <$> k). rewrite list_lookup_fmap, lookup_seqZ_lt by lia.
    cbn [fmap option_fmap option_map]. replace (1 + Z.of_nat (Z.to_nat (i - 1))) with i by lia.
    done.
Qed.

(** A vector of received proposals survives its string form: printing it and
    parsing the text gives a vector with the same entries, and its [trueCount]
    is then the number of true entries. *)
Theorem proposal_vector_roundtrip n proofs :
  0 < n < 2 ^ 63 ->
  exists s v,
    vectorToString (mkVectorFromProofs n proofs) = Ok s /\ mkVectorFromString n s = Ok v /\
    bv_proposals v = bv_proposals (mkVectorFromProofs n proofs) /\
    getTrueCount v = zlen (filter (fun b => b = true) (bv_proposals v)) /\
    forall i, 1 <= i <= n -> getProposalValue v i = Ok (bool_decide (is_Some (proofs !! i))).
Proof.
  intros Hn. destruct (vector_roundtrip n proofs Hn) as (s & v & ? & _ & ?). by exists s, v.
Qed.

Lemma proposal_vector_roundtrip_witness :
  exists s v, vectorToString (mkVectorFromProofs 3 {[2 := "p"%string]}) = Ok s /\
    mkVectorFromString 3 s = Ok v /\
    bv_proposals v = bv_proposals (mkVectorFromProofs 3 {[2 := "p"%string]}).
Proof.
  destruct (proposal_vector_roundtrip 3 {[2 := "p"%string]}) as (s & v & Hs & Hv & Hp & _);
    [lia|]. exists s, v. split; [exact Hs|split; [exact Hv|exact Hp]].
Defined.

(** The count that the constructor from proofs reports: with no proof at all it
    is still one more than the number of members. *)
Example mkVectorFromProofs_trueCount : getTrueCount (mkVectorFromProofs 4 ∅) = 5.
Proof. reflexivity. Qed.
