(* ===== verification/BlockConsensus.v ===== *)
(** * Block consensus

    Model of [BlockConsensusAgent] ([src/protocols/blockconsensus]): one binary
    consensus per block and proposer, kept in LRU caches; the collection of
    their decisions; the choice of the proposer whose block is committed; and
    the signing of the decided block.

    What leaves the agent is appended to [ag_out]: network broadcasts, and the
    call of [Schain::finalizeDecidedAndSignedBlock], which is the last action
    of the methods that make it.  A binary consensus calls the agent back only
    when it decides, as its last action; the agent therefore handles the
    events of a run of a child after the run. *)

From stdpp Require Import base tactics gmap list strings.
From Stdlib Require Import ZArith Lia.
From S2P Require Import Prelude Bytes Messages BinConsensus LruCache LevelDb LevelDbSets.
From S2P Require Import BlockSigShare ProposalVector.

Definition MAX_ACTIVE_CONSENSUSES : Z := 5.
Definition MAX_CONSENSUS_HISTORY : Z := 10.

(** The chain around the agent during a call: the last committed block, the
    hashes of the committed blocks, the enclave. *)
Record agent_env {share shareset sig : Type} := {
  ae_sig : sig_env share shareset sig;
  ae_lastCommittedBlockID : Z;
  ae_blockHash : Z -> option (list Z);
  ae_isExitRequested : bool;
  ae_signBlockSigShare : list Z -> Z -> share
}.
Arguments agent_env : clear implicits.

Inductive agent_event {share sig : Type} :=
  | AgBroadcast (m : NetworkMessage share)
  | AgFinalize (blockId proposerIndex : Z) (s : sig).
Arguments agent_event : clear implicits.

Local Abbreviation decisions := (gmap Z ChildBVDecidedMessage).

Record agent_state {share sig : Type} := AgentState {
  ag_children : list (lru_cache Z (bin_state share));
  ag_trueDecisions : lru_cache Z decisions;
  ag_falseDecisions : lru_cache Z decisions;
  ag_decidedIndices : lru_cache Z Z;
  ag_sigShares : lru_cache string string;
  ag_messageCounter : Z;
  ag_out : list (agent_event share sig)
}.
Arguments agent_state : clear implicits.
Arguments AgentState {share sig}.

(** What reaches [routeAndProcessMessage]. *)
Inductive agent_message {share : Type} :=
  | AmProposal (blockId : Z) (v : BooleanProposalVector)
  | AmNetwork (m : NetworkMessage share)
  | AmChild (d : ChildBVDecidedMessage).
Arguments agent_message : clear implicits.

Definition am_blockId {share} (m : agent_message share) : Z :=
  match m with
  | AmProposal b _ => b
  | AmNetwork m => nm_blockID m
  | AmChild d => pk_blockID (cd_key d)
  end.

Section BlockConsensusAgent.
Context {share shareset sig : Type}.
Context (A : agent_env share shareset sig) (now : Z).
Local Abbreviation state := (agent_state share sig).
Local Abbreviation G := (ae_sig A).
Local Abbreviation E := (sg_bin (ae_sig A)).
Local Abbreviation nodeCount := (be_nodeCount (sg_bin (ae_sig A))).

(** *** Fields *)
Definition set_children x (s : state) : state :=
  AgentState x (ag_trueDecisions s) (ag_falseDecisions s) (ag_decidedIndices s) (ag_sigShares s)
    (ag_messageCounter s) (ag_out s).
Definition set_trueDecisions x (s : state) : state :=
  AgentState (ag_children s) x (ag_falseDecisions s) (ag_decidedIndices s) (ag_sigShares s)
    (ag_messageCounter s) (ag_out s).
Definition set_falseDecisions x (s : state) : state :=
  AgentState (ag_children s) (ag_trueDecisions s) x (ag_decidedIndices s) (ag_sigShares s)
    (ag_messageCounter s) (ag_out s).
Definition set_decidedIndices x (s : state) : state :=
  AgentState (ag_children s) (ag_trueDecisions s) (ag_falseDecisions s) x (ag_sigShares s)
    (ag_messageCounter s) (ag_out s).
Definition set_sigShares x (s : state) : state :=
  AgentState (ag_children s) (ag_trueDecisions s) (ag_falseDecisions s) (ag_decidedIndices s) x
    (ag_messageCounter s) (ag_out s).
Definition set_agCounter x (s : state) : state :=
  AgentState (ag_children s) (ag_trueDecisions s) (ag_falseDecisions s) (ag_decidedIndices s)
    (ag_sigShares s) x (ag_out s).
Definition ag_emit e (s : state) : state :=
  AgentState (ag_children s) (ag_trueDecisions s) (ag_falseDecisions s) (ag_decidedIndices s)
    (ag_sigShares s) (ag_messageCounter s) (ag_out s ++ [e]).

Definition onTrue {B} (c : M (lru_cache Z decisions) B) : M state B :=
  zoom ag_trueDecisions set_trueDecisions c.
Definition onFalse {B} (c : M (lru_cache Z decisions) B) : M state B :=
  zoom ag_falseDecisions set_falseDecisions c.
Definition onDecided {B} (c : M (lru_cache Z Z) B) : M state B :=
  zoom ag_decidedIndices set_decidedIndices c.
Definition onShares {B} (c : M (lru_cache string string) B) : M state B :=
  zoom ag_sigShares set_sigShares c.

(** *** The binary consensuses *)
Definition child_env (key : ProtocolKey) : bin_env share shareset :=
  {| be_nodeCount := be_nodeCount E;
     be_schainIndex := be_schainIndex E;
     be_schainID := be_schainID E;
     be_blockID := pk_blockID key;
     be_blockProposerIndex := pk_blockProposerIndex key;
     be_isSgxEnabled := be_isSgxEnabled E;
     be_isSyncOnlyNode := be_isSyncOnlyNode E;
     be_blake3 := be_blake3 E;
     be_verifyBlsSigShare := be_verifyBlsSigShare E;
     be_signSigShare := be_signSigShare E;
     be_emptyShareSet := be_emptyShareSet E;
     be_addSigShare := be_addSigShare E;
     be_isEnough := be_isEnough E;
     be_mergeRandom := be_mergeRandom E |}.

(** A call on [children.at( i )]. *)
Definition onChildren {B} (i : nat) (c : M (lru_cache Z (bin_state share)) B) : M state B :=
  s ← get;
  match ag_children s !! i with
  | None => throw StdOutOfRange
  | Some cache =>
      let '(r, cache') := c cache in
      put (set_children (<[i := cache']> (ag_children s)) s) ;; lift_res r
  end.

Definition getChild (key : ProtocolKey) : M state (bin_state share) :=
  let bpi := pk_blockProposerIndex key in
  let bid := pk_blockID key in
  CHECK_ARGUMENT (0 <? bpi) ;;
  CHECK_ARGUMENT (bpi <=? nodeCount) ;;
  nested InvalidStateException
    (ex ← onChildren (Z.to_nat (bpi - 1)) (lru_exists bid);
     (if (ex : bool) then mret tt
      else onChildren (Z.to_nat (bpi - 1)) (lru_putIfDoesNotExist bid bin_init) ;; mret tt) ;;
     onChildren (Z.to_nat (bpi - 1)) (lru_get bid)).

Definition getRound (key : ProtocolKey) : M state Z :=
  c ← getChild key; mret (bs_currentRound c).

Definition decided (key : ProtocolKey) : M state bool :=
  c ← getChild key; mret (bs_isDecided c).

(** *** Statistics *)
Definition statsOf (t f : option decisions) (i : Z) : string :=
  let found :=
    match t ≫= (.!! i) with
    | Some d => Some ("1"%string, d)
    | None => match f ≫= (.!! i) with Some d => Some ("0"%string, d) | None => None end
    end in
  to_string i +:+ "|" +:+
  match found with
  | Some (decision, d) =>
      "D" +:+ decision +:+ "R" +:+ to_string (cd_round d) +:+ "P" +:+
      to_string (cd_maxProcessingTimeMs d) +:+ "L" +:+ to_string (cd_maxLatencyTimeMs d) +:+ "|"
  | None => "*|"
  end.

Definition buildStats (blockID : Z) : M state string :=
  t ← onTrue (lru_getIfExists blockID);
  f ← onFalse (lru_getIfExists blockID);
  mret (foldr (fun i str => statsOf t f i +:+ str) ""%string (seqZ 1 nodeCount)).

(** *** Signing the decided block *)
Definition mkBlockSignBroadcastMessage (blockID proposerIndex : Z) :
    M state (NetworkMessage share) :=
  s ← get;
  let id := u64 (ag_messageCounter s + 1) in
  modify (set_agCounter id) ;;
  mret {| nm_type := MSG_BLOCK_SIGN_BROADCAST; nm_schainID := be_schainID E; nm_msgID := id;
          nm_blockID := blockID; nm_blockProposerIndex := proposerIndex;
          nm_round := 4; nm_value := 0; nm_timeMs := now;
          nm_srcSchainIndex := be_schainIndex E;
          nm_sigShare := Some (ae_signBlockSigShare A
            (getConsensusHash G proposerIndex blockID (be_schainID E)) blockID) |}.

Definition decideBlock (blockId sChainIndex : Z) (stats : string) : M state unit :=
  CHECK_ARGUMENT (bool_decide (stats <> ""%string)) ;;
  nested_skale InvalidStateException
    (msg ← mkBlockSignBroadcastMessage blockId sChainIndex;
     signature ← onShares (checkAndSaveShareInMemory G (nm_sigShare msg) sChainIndex);
     modify (ag_emit (AgBroadcast msg)) ;;
     onDecided (lru_put blockId sChainIndex) ;;
     match signature with
     | Some s => modify (ag_emit (AgFinalize blockId sChainIndex s))
     | None => mret tt
     end).

Definition decideDefaultBlock (blockNumber : Z) : M state unit :=
  nested_skale InvalidStateException (decideBlock blockNumber 0 "DEFAULT_BLOCK").

(** *** The decisions of the binary consensuses *)

(** The decision is added to the shared map; [emplace] keeps an older one. *)
Definition addDecision (d : ChildBVDecidedMessage) : M (lru_cache Z decisions) unit :=
  let blockID := pk_blockID (cd_key d) in
  let blockProposerIndex := pk_blockProposerIndex (cd_key d) in
  ex ← lru_exists blockID;
  (if (ex : bool) then mret tt else lru_putIfDoesNotExist blockID ∅ ;; mret tt) ;;
  lru_get blockID ;;
  modify (lru_modify blockID (fun m =>
    match m !! blockProposerIndex with
    | Some _ => m
    | None => <[blockProposerIndex := d]> m
    end)).

Definition getSeed (blockID : Z) : res Z :=
  if blockID <=? 1 then Ok 1
  else
    rcheck InvalidStateException (blockID - 1 <=? ae_lastCommittedBlockID A) ;;
    match ae_blockHash A (blockID - 1) with
    | None => Err InvalidStateException
    | Some hash => Ok (le_value (take 8 hash))
    end.

Definition has_decision (o : option decisions) (index : Z) : bool :=
  match o with Some m => bool_decide (is_Some (m !! index)) | None => false end.

(** The loop from [random] over all members. *)
Fixpoint chooseProposer (order : list Z) (blockID : Z) : M state unit :=
  match order with
  | [] => mret tt
  | i :: order =>
      let index := i mod nodeCount + 1 in
      t ← onTrue (lru_getIfExists blockID);
      if has_decision t index then
        statsString ← buildStats blockID;
        CHECK_STATE (bool_decide (statsString <> ""%string)) ;;
        decideBlock blockID index statsString
      else
        f ← onFalse (lru_getIfExists blockID);
        if has_decision f index then chooseProposer order blockID else mret tt
  end.

Definition reportConsensusAndDecideIfNeeded (d : ChildBVDecidedMessage) : M state unit :=
  nested_skale InvalidStateException
    (let blockProposerIndex := pk_blockProposerIndex (cd_key d) in
     let blockID := pk_blockID (cd_key d) in
     if blockID <=? ae_lastCommittedBlockID A then mret tt
     else
       CHECK_STATE (blockProposerIndex <=? nodeCount) ;;
       done_ ← onDecided (lru_exists blockID);
       if (done_ : bool) then mret tt
       else
         (if cd_value d then onTrue (addDecision d) else onFalse (addDecision d)) ;;
         t ← onTrue (lru_getIfExists blockID);
         if bool_decide (default ∅ t = ∅) then
           f ← onFalse (lru_getIfExists blockID);
           match f with
           | Some m => when (zsize m =? nodeCount) (decideDefaultBlock blockID)
           | None => mret tt
           end
         else
           seed ← lift_res (getSeed blockID);
           let random := seed mod nodeCount in
           chooseProposer (seqZ random nodeCount) blockID).

Definition processChildMessageImpl (d : ChildBVDecidedMessage) : M state unit :=
  reportConsensusAndDecideIfNeeded d.

(** *** Routing *)

(** The checks at the head of [routeAndProcessMessage]; [None] when the message
    is too old. *)
Definition routeGuard (origin : MessageOrigin) (blockID : Z) : M state bool :=
  CHECK_ARGUMENT (0 <? blockID) ;;
  CHECK_ARGUMENT (bool_decide (origin <> ORIGIN_PARENT)) ;;
  CHECK_ARGUMENT (blockID <=? ae_lastCommittedBlockID A + 1) ;;
  mret (negb (blockID + MAX_ACTIVE_CONSENSUSES <? ae_lastCommittedBlockID A)).

(** [routeAndProcessMessage] on the message of a child. *)
Definition routeChildMessage (d : ChildBVDecidedMessage) : M state unit :=
  nested InvalidStateException
    (ok ← routeGuard ORIGIN_CHILD (pk_blockID (cd_key d));
     when ok (processChildMessageImpl d)).

(** The events of a run of a child: a decision first looks the child up for the
    global history. *)
Definition handleChildEvent (e : bin_event share) : M state unit :=
  match e with
  | EvBroadcast m => modify (ag_emit (AgBroadcast m))
  | EvDecided d => getChild (cd_key d) ;; routeChildMessage d
  end.

(** Runs a method of a child and handles what it did. *)
Definition withChild (key : ProtocolKey)
    (c : bin_env share shareset -> M (bin_state share) unit) : M state unit :=
  child ← getChild key;
  let '(r, child') := c (child_env key) child in
  onChildren (Z.to_nat (pk_blockProposerIndex key - 1)) (fun cache =>
    (Ok tt, lru_modify (pk_blockID key) (fun _ => child') cache)) ;;
  mapM_ handleChildEvent (drop (length (bs_out child)) (bs_out child')) ;;
  lift_res r.

Definition propose (proposal index id : Z) : M state unit :=
  nested InvalidStateException
    (CHECK_ARGUMENT (0 <? index) ;;
     CHECK_STATE (0 <? id) ;;
     withChild {| pk_blockID := id; pk_blockProposerIndex := index |} (fun CE =>
       msg ← mkBVBroadcastMessage CE now 0 proposal;
       CHECK_STATE (negb (nm_blockID msg =? 0)) ;;
       processMessage CE now
         {| env_origin := ORIGIN_PARENT; env_message := msg;
            env_srcSchainIndex := be_schainIndex E; env_arrivalTime := 0 |})).

Fixpoint proposeAll (indices : list Z) (blockID : Z) (v : BooleanProposalVector) : M state unit :=
  match indices with
  | [] => mret tt
  | i :: indices =>
      if ae_isExitRequested A then mret tt
      else
        x ← lift_res (getProposalValue v i);
        propose (if (x : bool) then 1 else 0) i blockID ;;
        proposeAll indices blockID v
  end.

Definition startConsensusProposal (blockID : Z) (v : BooleanProposalVector) : M state unit :=
  nested_skale InvalidStateException (proposeAll (seqZ 1 nodeCount) blockID v).

Definition processBlockSignMessage (m : NetworkMessage share) : M state unit :=
  nested InvalidStateException
    (signature ← onShares (checkAndSaveShareInMemory G (nm_sigShare m) (nm_blockProposerIndex m));
     match signature with
     | None => mret tt
     | Some s => modify (ag_emit (AgFinalize (nm_blockID m) (nm_blockProposerIndex m) s))
     end).

Definition routeAndProcessMessage (origin : MessageOrigin) (src arrival : Z)
    (msg : agent_message share) : M state unit :=
  nested InvalidStateException
    (ok ← routeGuard origin (am_blockId msg);
     if negb ok then mret tt
     else
       match msg with
       | AmProposal blockID v => startConsensusProposal blockID v
       | AmChild d => processChildMessageImpl d
       | AmNetwork m =>
           if bool_decide (nm_type m = MSG_BLOCK_SIGN_BROADCAST) then processBlockSignMessage m
           else
             key ← lift_res (createProtocolKey m);
             withChild key (fun CE => processMessage CE now
               {| env_origin := origin; env_message := m; env_srcSchainIndex := src;
                  env_arrivalTime := arrival |})
       end).

Definition shouldPost (m : NetworkMessage share) : M state bool :=
  if bool_decide (nm_type m = MSG_BLOCK_SIGN_BROADCAST) then mret true
  else
    key ← lift_res (createProtocolKey m);
    currentRound ← getRound key;
    let r := nm_round m in
    if currentRound + 1 <? r then mret false
    else if r =? currentRound + 1 then decided key
    else mret true.

(** The constructor: empty caches, and the consensuses of the block after the
    last one in the database. *)
Definition newAgent (lastCommittedInDB : Z) : state :=
  let child := putUnsafe (lastCommittedInDB + 1) bin_init (lru_new MAX_CONSENSUS_HISTORY) in
  AgentState (replicate (Z.to_nat nodeCount) child) (lru_new MAX_CONSENSUS_HISTORY)
    (lru_new MAX_CONSENSUS_HISTORY) (lru_new MAX_CONSENSUS_HISTORY) (lru_new 256) 0 [].
End BlockConsensusAgent.
