(* ===== verification/BlockTheorems.v ===== *)
(** * What the block consensus guarantees

    The choice of the committed proposer.  [truth] stands for the decisions of
    the binary consensuses of a block, which all honest nodes share
    ([BinTheorems.bin_consensus_agreement]); an agent knows some of them at a
    time.  The theorems: whatever it knows, the only proposer an agent signs
    for a block is the [winner] that [truth] and the previous block determine;
    it signs at most once; and it does sign once all decisions are in. *)

From stdpp Require Import base tactics gmap list strings.
From Stdlib Require Import ZArith Lia.
From S2P Require Import Prelude Bytes Messages BinConsensus LruCache LevelDb LevelDbSets.
From S2P Require Import BlockSigShare ProposalVector BlockConsensus.

Local Abbreviation decisions := (gmap Z ChildBVDecidedMessage).

(** ** Caches of decisions *)
Section Decisions.
Context (n : Z) (truth : Z -> Z -> bool).
Implicit Types c : lru_cache Z decisions.

(** The cached decisions of value [v] are true to [truth]. *)
Record dec_ok (v : bool) c : Prop := {
  do_inv : lru_inv c;
  do_max : 1 <= lru_max_size c;
  do_true : forall b m i d, lru_lookup c b = Some m -> m !! i = Some d ->
    1 <= i <= n /\ truth b i = v
}.

Definition with_decision (d : ChildBVDecidedMessage) (m : decisions) : decisions :=
  match m !! pk_blockProposerIndex (cd_key d) with
  | Some _ => m
  | None => <[pk_blockProposerIndex (cd_key d) := d]> m
  end.

Definition known c b : decisions := default ∅ (lru_lookup c b).

Lemma dec_ok_known v c b i d : dec_ok v c -> known c b !! i = Some d -> 1 <= i <= n /\ truth b i = v.
Proof.
  intros Hc. unfold known. destruct (lru_lookup c b) eqn:Hl; cbn; [|by rewrite lookup_empty].
  by apply (do_true _ _ Hc).
Qed.

Lemma dec_ok_touch v c k : dec_ok v c -> dec_ok v (lru_touch k c).
Proof.
  intros [Hi Hm Ht]. constructor.
  - by apply lru_touch_inv.
  - by rewrite lru_touch_max.
  - intros b m i d. rewrite lru_lookup_touch by done. apply Ht.
Qed.

Lemma wp_getIfExists v c b (Q : res (option decisions) -> lru_cache Z decisions -> Prop) :
  dec_ok v c ->
  (forall c', dec_ok v c' -> (forall k, lru_lookup c' k = lru_lookup c k) ->
     Q (Ok (lru_lookup c b)) c') ->
  wp (lru_getIfExists b) c Q.
Proof.
  intros Hc HQ. apply wp_lru_getIfExists; [apply Hc|]. apply HQ; [by apply dec_ok_touch|].
  intros k. apply lru_lookup_touch, Hc.
Qed.

Lemma wp_addDecision v c d (Q : res unit -> lru_cache Z decisions -> Prop) :
  dec_ok v c -> 1 <= pk_blockProposerIndex (cd_key d) <= n ->
  truth (pk_blockID (cd_key d)) (pk_blockProposerIndex (cd_key d)) = v ->
  (forall c', dec_ok v c' ->
     lru_lookup c' (pk_blockID (cd_key d)) =
       Some (with_decision d (known c (pk_blockID (cd_key d)))) -> Q (Ok tt) c') ->
  wp (addDecision d) c Q.
Proof.
  intros Hc Hbpi Hv HQ. set (b := pk_blockID (cd_key d)) in *. unfold addDecision. fold b.
  wp_simpl. apply wp_lru_exists; [apply Hc|].
  (* The part after the entry exists. *)
  assert (forall c1, dec_ok v c1 -> lru_lookup c1 b = Some (known c b) ->
    wp (lru_get b ;; modify (lru_modify b (with_decision d))) c1 Q) as Hrest.
  { intros c1 Hc1 Hl1. wp_simpl. apply wp_lru_get; [apply Hc1| |congruence].
    intros w Hw. wp_simpl. pose proof (dec_ok_touch v c1 b Hc1) as [Hi2 Hm2 Ht2].
    apply HQ; [constructor|].
    - by apply lru_modify_inv.
    - done.
    - intros b' m i e. rewrite lru_lookup_modify. case_decide as Hb; [subst b'|apply Ht2].
      rewrite lru_lookup_touch, Hl1 by apply Hc1. cbn. intros [= <-]. unfold with_decision.
      destruct (known c b !! pk_blockProposerIndex (cd_key d)); [by apply (dec_ok_known v c b)|].
      destruct (decide (i = pk_blockProposerIndex (cd_key d))) as [->|Hi].
      + rewrite lookup_insert_eq. intros _. by subst v.
      + rewrite lookup_insert_ne by done. by apply (dec_ok_known v c b).
    - rewrite lru_lookup_modify, decide_True by done.
      by rewrite lru_lookup_touch, Hl1 by apply Hc1. }
  destruct (lru_lookup c b) as [m|] eqn:Hl.
  - rewrite bool_decide_eq_true_2 by eauto. wp_simpl.
    refine (proj1 (wp_bind _ _ _ _) (Hrest c Hc _)). unfold known. by rewrite Hl.
  - rewrite bool_decide_eq_false_2 by (by intros [? ?]). unfold lru_putIfDoesNotExist. wp_simpl.
    rewrite (existsUnsafe_lookup c (proj1 (do_inv _ _ Hc))), Hl. cbn [bool_decide decide].
    destruct (bool_decide (is_Some None)) eqn:Hb; [by apply bool_decide_eq_true in Hb as [? ?]|].
    wp_simpl. refine (proj1 (wp_bind _ _ _ _) (Hrest _ _ _)).
    + destruct Hc as [Hi Hm Ht]. constructor.
      * by apply lru_putUnsafe_inv.
      * by rewrite lru_put_max.
      * intros b' m i e. destruct (decide (b = b')) as [<-|Hb'].
        -- rewrite lru_lookup_put by done. intros [= <-]. by rewrite lookup_empty.
        -- intros Hl'. apply lru_lookup_put_ne in Hl'; [|done..]. by eapply Ht.
    + unfold known. rewrite Hl. apply lru_lookup_put; apply Hc.
Qed.
End Decisions.

(** ** The winner *)
Section Winner.
Context (n seed : Z).

(** The proposers in the order in which the agent tries them. *)
Definition proposal_order : list Z := map (fun i => i mod n + 1) (seqZ (seed mod n) n).

(** The first proposer with a positive decision, or [0] for the default block. *)
Definition winner (t : Z -> bool) : Z :=
  default 0 (head (filter (fun i => t i = true) proposal_order)).

Lemma elem_of_order i : 1 <= n -> i ∈ proposal_order <-> 1 <= i <= n.
Proof.
  intros Hn. unfold proposal_order. change (map ?f ?l) with (f <$> l).
  rewrite list_elem_of_fmap. pose proof (Z.mod_pos_bound seed n ltac:(lia)) as Hs. split.
  - intros (j & -> & _). pose proof (Z.mod_pos_bound j n ltac:(lia)). lia.
  - intros Hi. destruct (decide (seed mod n <= i - 1)).
    + exists (i - 1). rewrite elem_of_seqZ, Z.mod_small by lia. lia.
    + exists (i - 1 + n). rewrite elem_of_seqZ. split; [|lia].
      replace (i - 1 + n) with (i - 1 + 1 * n) by lia. rewrite Z.mod_add, Z.mod_small by lia. lia.
Qed.

Lemma winner_none t : 1 <= n -> (forall i, 1 <= i <= n -> t i = false) -> winner t = 0.
Proof.
  intros Hn Ht. unfold winner. rewrite filter_none; [done|].
  intros i Hi%elem_of_order; [|done]. by rewrite Ht.
Qed.
End Winner.

(** ** The agent *)
Section Agent.
Context {share shareset sig : Type}.
Context (A : agent_env share shareset sig) (now : Z) (truth : Z -> Z -> bool).
Local Abbreviation state := (agent_state share sig).
Local Abbreviation G := (ae_sig A).
Local Abbreviation E := (sg_bin (ae_sig A)).
Local Abbreviation n := (be_nodeCount (sg_bin (ae_sig A))).
Implicit Types (s : state) (b w : Z).

Record agent_inv s : Prop := {
  ai_true : dec_ok n truth true (ag_trueDecisions s);
  ai_false : dec_ok n truth false (ag_falseDecisions s);
  ai_decided : lru_inv (ag_decidedIndices s) /\ 1 <= lru_max_size (ag_decidedIndices s);
  ai_shares : lru_inv (ag_sigShares s) /\ 1 <= lru_max_size (ag_sigShares s)
}.

(** What an event says about a block. *)
Definition event_for b w (e : agent_event share sig) : Prop :=
  match e with
  | AgBroadcast m => nm_type m = MSG_BLOCK_SIGN_BROADCAST /\ nm_blockID m = b /\
      nm_blockProposerIndex m = w
  | AgFinalize b' w' _ => b' = b /\ w' = w
  end.

(** The state has become [s'] and everything sent on the way is for proposer
    [w] of block [b]. *)
Definition sends b w s s' : Prop :=
  exists new, ag_out s' = ag_out s ++ new /\ Forall (event_for b w) new.

Lemma sends_none b w s s' : ag_out s' = ag_out s -> sends b w s s'.
Proof. intros H. exists []. by rewrite app_nil_r. Qed.

(** Only the order in the caches of decisions has changed. *)
Record ag_same s s' : Prop := {
  as_inv : agent_inv s';
  as_true : forall b, lru_lookup (ag_trueDecisions s') b = lru_lookup (ag_trueDecisions s) b;
  as_false : forall b, lru_lookup (ag_falseDecisions s') b = lru_lookup (ag_falseDecisions s) b;
  as_decided : ag_decidedIndices s' = ag_decidedIndices s;
  as_shares : ag_sigShares s' = ag_sigShares s;
  as_out : ag_out s' = ag_out s
}.

Lemma ag_same_refl s : agent_inv s -> ag_same s s.
Proof. by constructor. Qed.

Lemma ag_same_trans s1 s2 s3 : ag_same s1 s2 -> ag_same s2 s3 -> ag_same s1 s3.
Proof. intros [] []; constructor; intros; congruence. Qed.

Lemma wp_onTrue_get b s (Q : res (option decisions) -> state -> Prop) :
  agent_inv s ->
  (forall s', ag_same s s' -> Q (Ok (lru_lookup (ag_trueDecisions s) b)) s') ->
  wp (onTrue (lru_getIfExists b)) s Q.
Proof.
  intros [Ht Hf Hd Hs] HQ. unfold onTrue. rewrite wp_zoom.
  eapply (wp_getIfExists n truth true); [done|]. intros c' Hc' Hl. apply HQ.
  by constructor.
Qed.

Lemma wp_onFalse_get b s (Q : res (option decisions) -> state -> Prop) :
  agent_inv s ->
  (forall s', ag_same s s' -> Q (Ok (lru_lookup (ag_falseDecisions s) b)) s') ->
  wp (onFalse (lru_getIfExists b)) s Q.
Proof.
  intros [Ht Hf Hd Hs] HQ. unfold onFalse. rewrite wp_zoom.
  eapply (wp_getIfExists n truth false); [done|]. intros c' Hc' Hl. apply HQ.
  by constructor.
Qed.

Lemma wp_buildStats b s (Q : res string -> state -> Prop) :
  agent_inv s -> (forall str s', ag_same s s' -> (1 <= n -> str <> ""%string) -> Q (Ok str) s') ->
  wp (buildStats A b) s Q.
Proof.
  intros Hi HQ. unfold buildStats. wp_simpl. apply wp_onTrue_get; [done|]. intros s1 Hs1. wp_simpl.
  apply wp_onFalse_get; [apply Hs1|]. intros s2 Hs2. wp_simpl.
  apply HQ; [by eapply ag_same_trans|]. intros Hn. rewrite seqZ_cons by lia. cbn [foldr].
  unfold statsOf. destruct (to_string 1) eqn:Hs; [by destruct (to_string_nonempty 1)|done].
Qed.

(** The share that the agent signs for block [b] and proposer [w]. *)
Definition own_share b w : share :=
  ae_signBlockSigShare A (getConsensusHash G w b (be_schainID E)) b.

(** A decision: the block is signed for [w] or, when the own share cannot be
    stored, nothing is sent. *)
Lemma decideBlock_spec b w stats s :
  agent_inv s -> stats <> ""%string ->
  wp (decideBlock A now b w stats) s (fun (r : res unit) s' =>
    agent_inv s' /\ sends b w s s' /\
    (is_ok (checkAndSaveShareInMemory G (Some (own_share b w)) w (ag_sigShares s)).1 = true ->
       r = Ok tt /\ lru_lookup (ag_decidedIndices s') b = Some w /\
       exists m, AgBroadcast m ∈ ag_out s' /\ event_for b w (AgBroadcast m))).
Proof.
  intros [Ht Hf Hd Hs] Hstats. unfold decideBlock, mkBlockSignBroadcastMessage. wp_simpl.
  rewrite bool_decide_eq_true_2 by done. split; [intros _|done]. wp_simpl.
  set (msg := Build_NetworkMessage _ _ _ _ _ _ _ _ _ _ _).
  unfold onShares. rewrite wp_zoom. cbn [nm_sigShare msg ag_sigShares set_agCounter].
  fold (own_share b w).
  pose proof (checkAndSaveShareInMemory_spec G (own_share b w) w (ag_sigShares s)
    (proj1 Hs) (proj2 Hs)) as (Hsi & Hsm & _).
  unfold wp at 1. destruct (checkAndSaveShareInMemory G _ w (ag_sigShares s)) as [[o|e] c'].
  - cbn [fst snd] in *. wp_simpl. unfold onDecided. rewrite wp_zoom. unfold lru_put. wp_simpl.
    cbn [ag_decidedIndices ag_emit set_sigShares set_agCounter].
    set (new := AgBroadcast msg :: match o with Some x => [AgFinalize b w x] | None => [] end).
    match goal with |- wp _ ?x _ => set (s1 := x) end.
    assert (lru_lookup (ag_decidedIndices s1) b = Some w) as Hlk
      by (apply lru_lookup_put; apply Hd).
    assert (agent_inv s1) as Hi1.
    { constructor; cbn; try done.
      - split; [apply lru_putUnsafe_inv, Hd|rewrite lru_put_max; apply Hd].
      - split; [done|lia]. }
    assert (event_for b w (AgBroadcast msg)) as Hev by done.
    destruct o as [x|]; wp_simpl; cbn [rnested_skale]; (split_and!; [by destruct Hi1| |]).
    + exists [AgBroadcast msg; AgFinalize b w x]. split; [cbn; by rewrite <- app_assoc|].
      repeat constructor; done.
    + intros _. split_and!; [done|done|]. exists msg. split; [|done]. cbn.
      rewrite !elem_of_app. left. right. by left.
    + exists [AgBroadcast msg]. split; [done|]. by repeat constructor.
    + intros _. split_and!; [done|done|]. exists msg. split; [|done]. cbn.
      rewrite !elem_of_app. right. by left.
  - cbn [fst snd] in *. split_and!; [|by apply sends_none|done].
    constructor; cbn; try done. split; [done|lia].
Qed.

Definition index_of (i : Z) : Z := i mod n + 1.

(** The first positive proposer of the remaining order. *)
Definition first_true b (l : list Z) : Z :=
  default 0 (head (filter (fun i => truth b i = true) (map index_of l))).

Lemma has_decision_known (c : lru_cache Z decisions) b i :
  has_decision (lru_lookup c b) i = bool_decide (is_Some (known c b !! i)).
Proof.
  unfold has_decision, known. destruct (lru_lookup c b); cbn; [done|].
  by rewrite lookup_empty.
Qed.

(** The agent signed block [b] for [w]. *)
Definition signed b w (r : res unit) s' : Prop :=
  r = Ok tt /\ lru_lookup (ag_decidedIndices s') b = Some w /\
  exists m, AgBroadcast m ∈ ag_out s' /\ event_for b w (AgBroadcast m).

Definition share_stored b w s : Prop :=
  is_ok (checkAndSaveShareInMemory G (Some (own_share b w)) w (ag_sigShares s)).1 = true.

(** Everything is known about the proposers [l], and one is positive. *)
Definition all_known b (l : list Z) s : Prop :=
  (forall i, i ∈ l -> is_Some (known (ag_trueDecisions s) b !! i) \/
     is_Some (known (ag_falseDecisions s) b !! i)) /\
  exists i, i ∈ l /\ is_Some (known (ag_trueDecisions s) b !! i).

Lemma known_same s s' b :
  ag_same s s' -> known (ag_trueDecisions s') b = known (ag_trueDecisions s) b /\
    known (ag_falseDecisions s') b = known (ag_falseDecisions s) b.
Proof. intros Hs. unfold known. by rewrite (as_true _ _ Hs), (as_false _ _ Hs). Qed.

Lemma chooseProposer_spec b l s s0 :
  1 <= n -> ag_same s0 s ->
  wp (chooseProposer A now l b) s (fun (r : res unit) s' =>
    agent_inv s' /\ sends b (first_true b l) s0 s' /\
    (all_known b (map index_of l) s0 -> share_stored b (first_true b l) s0 ->
       signed b (first_true b l) r s')).
Proof.
  intros Hn. revert s. induction l as [|i l IH]; intros s Hs; cbn [chooseProposer].
  { wp_simpl. split_and!; [apply Hs|apply sends_none, Hs|].
    by intros [_ (i & ?%elem_of_nil & _)]. }
  wp_simpl. apply wp_onTrue_get; [apply Hs|]. intros s1 Hs1.
  assert (ag_same s0 s1) as Hs01 by by eapply ag_same_trans.
  fold (index_of i). rewrite has_decision_known, (proj1 (known_same _ _ b Hs)).
  destruct (bool_decide (is_Some (known (ag_trueDecisions s0) b !! index_of i))) eqn:HT.
  - apply bool_decide_eq_true in HT as [d HT].
    rewrite <- (proj1 (known_same _ _ b Hs01)) in HT.
    pose proof (dec_ok_known n truth true _ b _ d (ai_true _ (as_inv _ _ Hs01)) HT) as [_ Htr].
    assert (first_true b (i :: l) = index_of i) as ->.
    { unfold first_true. cbn [map]. by rewrite filter_cons_True. }
    wp_simpl. apply wp_buildStats; [apply Hs01|]. intros str s2 Hs2 Hstr. wp_simpl.
    rewrite bool_decide_eq_true_2 by auto. split; [intros _|done].
    eapply wp_mono; [apply decideBlock_spec; [apply Hs2|by apply Hstr]|]. cbv beta.
    intros r s' (Hi' & (new & Hnew & Hall) & Hok). split_and!; [done| |].
    + exists new. by rewrite Hnew, (as_out _ _ Hs2), (as_out _ _ Hs01).
    + intros _ Hst. unfold share_stored in Hst.
      rewrite <- (as_shares _ _ Hs01), <- (as_shares _ _ Hs2) in Hst. by apply Hok.
  - apply bool_decide_eq_false in HT. wp_simpl.
    apply wp_onFalse_get; [apply Hs01|]. intros s2 Hs2.
    assert (ag_same s0 s2) as Hs02 by by eapply ag_same_trans.
    rewrite has_decision_known, (proj2 (known_same _ _ b Hs01)).
    destruct (bool_decide (is_Some (known (ag_falseDecisions s0) b !! index_of i))) eqn:HF.
    + apply bool_decide_eq_true in HF as [d HF].
      rewrite <- (proj2 (known_same _ _ b Hs02)) in HF.
      pose proof (dec_ok_known n truth false _ b _ d (ai_false _ (as_inv _ _ Hs02)) HF) as [_ Hfa].
      assert (first_true b (i :: l) = first_true b l) as ->.
      { unfold first_true. cbn [map]. by rewrite filter_cons_False by congruence. }
      eapply wp_mono; [by apply IH|]. cbv beta. intros r s' (? & ? & Hok).
      split_and!; [done..|]. intros [Hall (j & Hj & HjT)] Hst. apply Hok; [|done].
      cbn [map] in *. split; [intros k Hk; apply Hall; by right|].
      apply elem_of_cons in Hj as [->|Hj]; [by destruct HT|eauto].
    + apply bool_decide_eq_false in HF. wp_simpl.
      split_and!; [apply Hs02|apply sends_none, Hs02|]. intros [Hall _].
      destruct (Hall (index_of i)); [by left|by destruct HT|by destruct HF].
Qed.

Definition seed_of b : Z := match getSeed A b with Ok z => z | Err _ => 0 end.

Definition block_winner b : Z := winner n (seed_of b) (truth b).

(** The decisions known once the report of [d] has been added. *)
Definition known_true d s : decisions :=
  let m := known (ag_trueDecisions s) (pk_blockID (cd_key d)) in
  if cd_value d then with_decision d m else m.
Definition known_false d s : decisions :=
  let m := known (ag_falseDecisions s) (pk_blockID (cd_key d)) in
  if cd_value d then m else with_decision d m.

Definition all_reported d s : Prop := forall i, 1 <= i <= n ->
  is_Some (known_true d s !! i) \/ is_Some (known_false d s !! i).

(** What adding a report does to the agent. *)
Definition reported d s s' : Prop :=
  agent_inv s' /\ ag_out s' = ag_out s /\ ag_decidedIndices s' = ag_decidedIndices s /\
  ag_sigShares s' = ag_sigShares s /\
  known (ag_trueDecisions s') (pk_blockID (cd_key d)) = known_true d s /\
  known (ag_falseDecisions s') (pk_blockID (cd_key d)) = known_false d s.

Lemma add_report d s (Q : res unit -> state -> Prop) :
  agent_inv s -> 1 <= pk_blockProposerIndex (cd_key d) <= n ->
  truth (pk_blockID (cd_key d)) (pk_blockProposerIndex (cd_key d)) = cd_value d ->
  (forall s', reported d s s' -> Q (Ok tt) s') ->
  wp (if cd_value d then onTrue (addDecision d) else onFalse (addDecision d)) s Q.
Proof.
  intros [Ht Hf Hd Hs] Hbpi Htr HQ. unfold reported, known_true, known_false in HQ.
  destruct (cd_value d) eqn:Hv; [unfold onTrue|unfold onFalse]; rewrite wp_zoom.
  - apply (wp_addDecision n truth true); [done..|]. intros c' Hc' Hl. apply HQ.
    split_and!; try done; try (by constructor); unfold known at 1; cbn; by rewrite Hl.
  - apply (wp_addDecision n truth false); [done..|]. intros c' Hc' Hl. apply HQ.
    split_and!; try done; try (by constructor); unfold known at 1; cbn; by rewrite Hl.
Qed.

(** All members have reported a negative decision. *)
Lemma all_false_winner b (m : decisions) s :
  1 <= n -> agent_inv s -> known (ag_falseDecisions s) b = m -> zsize m = n -> block_winner b = 0.
Proof.
  intros Hn Hi <- Hsz. apply winner_none; [done|].
  set (m := known (ag_falseDecisions s) b) in *.
  assert (forall i, i ∈ dom m -> 1 <= i <= n /\ truth b i = false) as Hdom.
  { intros i [d Hd]%elem_of_dom. by eapply dec_ok_known; [apply (ai_false _ Hi)|]. }
  assert (dom m = members n) as Hall.
  { apply set_eq. intros i. split; [intros [? _]%Hdom; by apply elem_of_members|].
    intros Hi'. destruct (decide (i ∈ dom m)) as [|Hnot]; [done|]. exfalso.
    assert (dom m ⊆ members n ∖ {[i]}) as Hsub%subseteq_size.
    { intros j Hj. apply elem_of_difference. split; [apply elem_of_members, Hdom, Hj|].
      rewrite elem_of_singleton. by intros ->. }
    rewrite size_difference in Hsub by set_solver. rewrite size_dom, size_singleton in Hsub.
    pose proof (size_members n ltac:(lia)). unfold zsize in Hsz. lia. }
  intros i Hi'. apply Hdom. rewrite Hall. by apply elem_of_members.
Qed.

Lemma first_true_winner b : getSeed A b = Ok (seed_of b) ->
  first_true b (seqZ (seed_of b mod n) n) = block_winner b.
Proof. done. Qed.

(** The part of the report after the decision has been added. *)
Lemma report_tail d s1 s :
  1 <= n -> reported d s s1 ->
  let b := pk_blockID (cd_key d) in
  wp (t ← onTrue (lru_getIfExists b);
      if bool_decide (default ∅ t = ∅) then
        f ← onFalse (lru_getIfExists b);
        match f with
        | Some m => when (zsize m =? n) (decideDefaultBlock A now b)
        | None => mret tt
        end
      else
        seed ← lift_res (getSeed A b);
        chooseProposer A now (seqZ (seed mod n) n) b) s1 (fun (r : res unit) s' =>
    agent_inv s' /\ sends b (block_winner b) s s' /\
    (all_reported d s -> is_ok (getSeed A b) = true -> share_stored b (block_winner b) s ->
       signed b (block_winner b) r s')).
Proof.
  intros Hn (Hi1 & Ho1 & Hd1 & Hsh1 & HT1 & HF1) b. fold b in HT1, HF1. wp_simpl.
  apply wp_onTrue_get; [done|]. intros s2 Hs2. fold (known (ag_trueDecisions s1) b).
  assert (agent_inv s2) as Hi2 by apply Hs2.
  destruct (known_same _ _ b Hs2) as [HT2 HF2].
  destruct (bool_decide (known (ag_trueDecisions s1) b = ∅)) eqn:Hemp.
  - apply bool_decide_eq_true in Hemp. wp_simpl.
    apply wp_onFalse_get; [done|]. intros s3 Hs3.
    assert (ag_same s1 s3) as Hs13 by by eapply ag_same_trans.
    assert (sends b (block_winner b) s s3) as Hnone
      by (apply sends_none; by rewrite (as_out _ _ Hs13)).
    assert (all_reported d s -> zsize (known (ag_falseDecisions s1) b) = n) as Hfull.
    { intros Hall. assert (dom (known (ag_falseDecisions s1) b) = members n) as Hdom.
      { apply set_eq. intros i. rewrite elem_of_dom, elem_of_members. split.
        - intros [e He]. by eapply dec_ok_known; [apply (ai_false _ Hi1)|].
        - intros Hi'. destruct (Hall i Hi') as [HTi|HFi]; [|by rewrite HF1].
          rewrite <- HT1 in HTi. fold b in HTi. rewrite Hemp, lookup_empty in HTi.
          by destruct HTi. }
      unfold zsize. rewrite <- size_dom, Hdom. apply size_members. lia. }
    unfold known in Hfull at 1. rewrite (as_false _ _ Hs2).
    destruct (lru_lookup (ag_falseDecisions s1) b) as [m|] eqn:Hlf; wp_simpl.
    + split; intros Hsz.
      * apply Z.eqb_eq in Hsz.
        assert (block_winner b = 0) as Hw.
        { eapply (all_false_winner b m s1); auto. unfold known. by rewrite Hlf. }
        rewrite Hw. unfold decideDefaultBlock. wp_simpl.
        eapply wp_mono; [apply decideBlock_spec; [apply Hs13|done]|]. cbv beta.
        intros r s' (Hi' & (new & Hnew & Hall) & Hok). split_and!; [done| |].
        -- exists new. by rewrite Hnew, (as_out _ _ Hs13), Ho1.
        -- intros _ _ Hst. unfold share_stored in Hst.
           rewrite <- Hsh1, <- (as_shares _ _ Hs13) in Hst. destruct (Hok Hst) as (-> & ? & ?).
           by split_and!.
      * split_and!; [apply Hs13|done|]. intros Hall. specialize (Hfull Hall). cbn in Hfull. lia.
    + split_and!; [apply Hs13|done|]. intros Hall. specialize (Hfull Hall).
      cbn in Hfull. unfold zsize in Hfull. rewrite map_size_empty in Hfull. lia.
  - apply bool_decide_eq_false in Hemp. wp_simpl.
    destruct (getSeed A b) as [seed|e] eqn:Hseed; wp_simpl;
      [|split_and!; [done|apply sends_none; by rewrite (as_out _ _ Hs2)|done]].
    assert (seed = seed_of b) as -> by (unfold seed_of; by rewrite Hseed).
    eapply wp_mono; [by apply (chooseProposer_spec b _ s2 s1)|]. cbv beta.
    rewrite first_true_winner by done.
    intros r s' (Hi' & (new & Hnew & Hall) & Hok). split_and!; [done| |].
    + exists new. by rewrite Hnew, Ho1.
    + intros Hrep _ Hst. apply Hok; [|unfold share_stored in *; by rewrite Hsh1].
      change (map index_of (seqZ (seed_of b mod n) n)) with (proposal_order n (seed_of b)).
      assert (forall i, i ∈ proposal_order n (seed_of b) <-> 1 <= i <= n) as Hord
        by (intros; by apply elem_of_order).
      split.
      * intros i Hi%Hord. rewrite HT1, HF1. auto.
      * apply map_choose in Hemp as (i & e & Hie). exists i. split; [|eauto].
        apply Hord. by eapply dec_ok_known; [apply (ai_true _ Hi1)|].
Qed.

Lemma report_spec d s :
  1 <= n -> agent_inv s -> 1 <= pk_blockProposerIndex (cd_key d) ->
  truth (pk_blockID (cd_key d)) (pk_blockProposerIndex (cd_key d)) = cd_value d ->
  let b := pk_blockID (cd_key d) in
  wp (reportConsensusAndDecideIfNeeded A now d) s (fun (r : res unit) s' =>
    agent_inv s' /\ sends b (block_winner b) s s' /\
    (b <= ae_lastCommittedBlockID A \/ is_Some (lru_lookup (ag_decidedIndices s) b) ->
       ag_out s' = ag_out s) /\
    (ae_lastCommittedBlockID A < b -> lru_lookup (ag_decidedIndices s) b = None ->
     pk_blockProposerIndex (cd_key d) <= n -> all_reported d s ->
     is_ok (getSeed A b) = true -> share_stored b (block_winner b) s ->
       signed b (block_winner b) r s')).
Proof.
  intros Hn Hi Hbpi Htr b. unfold reportConsensusAndDecideIfNeeded. fold b. wp_simpl.
  apply wp_if; split; intros Hlast; wp_simpl.
  { split_and!; [done|by apply sends_none|done|]. lia. }
  split; intros Hle; [|split_and!; [done|by apply sends_none|done|lia]].
  unfold onDecided. rewrite wp_zoom. apply wp_lru_exists; [apply Hi|].
  destruct (lru_lookup (ag_decidedIndices s) b) as [w|] eqn:Hdec.
  { rewrite bool_decide_eq_true_2 by eauto. wp_simpl.
    split_and!; [by destruct Hi|by apply sends_none|done|done]. }
  rewrite bool_decide_eq_false_2 by (by intros [? ?]). wp_simpl.
  assert (set_decidedIndices (ag_decidedIndices s) s = s) as -> by by destruct s.
  apply add_report; [done|lia|done|]. intros s1 Hrep.
  pose proof (report_tail d s1 s Hn Hrep) as Htail. cbv zeta in Htail.
  refine (wp_mono _ _ _ _ Htail _).
  cbv beta. intros r s' (Hi' & Hs & Hok). fold b in Hs, Hok. split_and!; [done|done| |].
  - intros [?|[? ?]]; [lia|done].
  - intros _ _ _ Hall Hseed Hst. destruct (Hok Hall Hseed Hst) as (-> & ? & ?). by split_and!.
Qed.

Lemma agent_inv_new last : agent_inv (newAgent A last).
Proof.
  assert (forall v, dec_ok n truth v (lru_new MAX_CONSENSUS_HISTORY)) as Hd.
  { intros v. constructor; [by apply lru_new_inv|done|]. by intros b m i d Hl. }
  constructor; cbn; try done; (split; [by apply lru_new_inv|done]).
Qed.
End Agent.

(** ** Theorems *)

(** C11: agreement on the block.  Two honest agents of the same chain that know
    decisions of the same binary consensuses and the same previous block, in
    whatever state and however many of the decisions each knows, sign a block
    only for one and the same proposer. *)
Theorem block_choice_agreement {share shareset sig} (A A' : agent_env share shareset sig)
    now now' truth (s s' : agent_state share sig) d d' :
  let b := pk_blockID (cd_key d) in
  pk_blockID (cd_key d') = b ->
  be_nodeCount (sg_bin (ae_sig A)) = be_nodeCount (sg_bin (ae_sig A')) ->
  1 <= be_nodeCount (sg_bin (ae_sig A)) -> getSeed A b = getSeed A' b ->
  agent_inv A truth s -> agent_inv A' truth s' ->
  1 <= pk_blockProposerIndex (cd_key d) -> 1 <= pk_blockProposerIndex (cd_key d') ->
  truth b (pk_blockProposerIndex (cd_key d)) = cd_value d ->
  truth b (pk_blockProposerIndex (cd_key d')) = cd_value d' ->
  exists w,
    sends b w s (reportConsensusAndDecideIfNeeded A now d s).2 /\
    sends b w s' (reportConsensusAndDecideIfNeeded A' now' d' s').2.
Proof.
  intros b Hb Hn Hn1 Hseed Hi Hi' Hp Hp' Ht Ht'. exists (block_winner A truth b).
  destruct (report_spec A now truth d s Hn1 Hi Hp Ht) as (_ & Hs & _). split; [exact Hs|].
  rewrite <- Hb in Ht'.
  destruct (report_spec A' now' truth d' s' ltac:(lia) Hi' Hp' Ht') as (_ & Hs' & _).
  rewrite Hb in Hs'.
  replace (block_winner A truth b) with (block_winner A' truth b); [done|].
  unfold block_winner, seed_of. by rewrite Hseed, Hn.
Qed.

(** The report of a decision keeps the agent's invariant, signs nothing but
    the winning proposer of its block, and signs nothing at all for a block
    that is committed or already decided. *)
Theorem block_report_safe {share shareset sig} (A : agent_env share shareset sig) now truth
    (s : agent_state share sig) d :
  let b := pk_blockID (cd_key d) in
  1 <= be_nodeCount (sg_bin (ae_sig A)) -> agent_inv A truth s ->
  1 <= pk_blockProposerIndex (cd_key d) ->
  truth b (pk_blockProposerIndex (cd_key d)) = cd_value d ->
  wp (reportConsensusAndDecideIfNeeded A now d) s (fun (_ : res unit) s' =>
    agent_inv A truth s' /\ sends b (block_winner A truth b) s s' /\
    (b <= ae_lastCommittedBlockID A \/ is_Some (lru_lookup (ag_decidedIndices s) b) ->
       ag_out s' = ag_out s)).
Proof.
  intros b Hn Hi Hp Ht. eapply wp_mono; [by apply report_spec|]. cbv beta.
  intros r s' (? & ? & ? & _). done.
Qed.

(** C12: no block gets stuck: the report that completes the decisions of a block
    that is neither committed nor decided returns, broadcasts the signature
    share for the winning proposer (or for the default block, proposer [0],
    when all decisions are negative) and records the decision, provided the
    previous block can be read and the node can store its own share. *)
Theorem block_decided_when_all_reported {share shareset sig}
    (A : agent_env share shareset sig) now truth (s : agent_state share sig) d :
  let b := pk_blockID (cd_key d) in
  1 <= be_nodeCount (sg_bin (ae_sig A)) -> agent_inv A truth s ->
  1 <= pk_blockProposerIndex (cd_key d) <= be_nodeCount (sg_bin (ae_sig A)) ->
  truth b (pk_blockProposerIndex (cd_key d)) = cd_value d ->
  ae_lastCommittedBlockID A < b -> lru_lookup (ag_decidedIndices s) b = None ->
  all_reported A d s -> is_ok (getSeed A b) = true ->
  share_stored A b (block_winner A truth b) s ->
  wp (reportConsensusAndDecideIfNeeded A now d) s (signed b (block_winner A truth b)).
Proof.
  intros b Hn Hi Hp Ht Hlast Hdec Hall Hseed Hst.
  eapply wp_mono; [apply report_spec; [done|done|lia|done]|]. cbv beta.
  intros r s' (_ & _ & _ & Hok). apply Hok; try done. lia.
Qed.

(** ** Witnesses: a chain of four members deciding its first block *)
Definition demo_agent_env : agent_env (Z * Z) Z Z :=
  {| ae_sig := demo_sig_env; ae_lastCommittedBlockID := 0; ae_blockHash := fun _ => None;
     ae_isExitRequested := false; ae_signBlockSigShare := fun _ b => (b, 1) |}.

Definition demo_truth (b i : Z) : bool := (i =? 1) || (i =? 4).

Definition demo_decision (i : Z) : ChildBVDecidedMessage :=
  {| cd_msgID := 1; cd_key := {| pk_blockID := 1; pk_blockProposerIndex := i |};
     cd_value := demo_truth 1 i; cd_round := 0; cd_maxProcessingTimeMs := 0;
     cd_maxLatencyTimeMs := 0 |}.

Definition demo_report (i : Z) (s : agent_state (Z * Z) Z) : agent_state (Z * Z) Z :=
  (reportConsensusAndDecideIfNeeded demo_agent_env 0 (demo_decision i) s).2.

(** Three decisions are known; the first proposer in the order is not. *)
Definition demo_agent : agent_state (Z * Z) Z :=
  demo_report 4 (demo_report 3 (demo_report 1 (newAgent demo_agent_env 0))).

Lemma demo_report_inv i s :
  1 <= i -> agent_inv demo_agent_env demo_truth s ->
  agent_inv demo_agent_env demo_truth (demo_report i s).
Proof.
  intros Hi Hs.
  apply (report_spec demo_agent_env 0 demo_truth (demo_decision i) s); [done|done|done|done].
Qed.

Lemma demo_agent_inv : agent_inv demo_agent_env demo_truth demo_agent.
Proof. do 3 (apply demo_report_inv; [lia|]). apply agent_inv_new. Qed.

Lemma block_choice_agreement_witness :
  exists w,
    sends 1 w demo_agent (demo_report 2 demo_agent) /\
    sends 1 w (newAgent demo_agent_env 0)
      (reportConsensusAndDecideIfNeeded demo_agent_env 9 (demo_decision 4)
        (newAgent demo_agent_env 0)).2.
Proof.
  apply (block_choice_agreement demo_agent_env demo_agent_env 0 9 demo_truth demo_agent
    (newAgent demo_agent_env 0) (demo_decision 2) (demo_decision 4));
    [reflexivity|reflexivity|cbn; lia|reflexivity|apply demo_agent_inv|apply agent_inv_new
    |cbn; lia|cbn; lia|reflexivity|reflexivity].
Defined.

Lemma block_report_safe_witness :
  sends 1 4 demo_agent (demo_report 2 demo_agent).
Proof.
  apply (block_report_safe demo_agent_env 0 demo_truth demo_agent (demo_decision 2));
    [cbn; lia|apply demo_agent_inv|cbn; lia|reflexivity].
Defined.

Lemma block_decided_when_all_reported_witness :
  signed 1 4 (reportConsensusAndDecideIfNeeded demo_agent_env 0 (demo_decision 2) demo_agent).1
    (demo_report 2 demo_agent).
Proof.
  apply (block_decided_when_all_reported demo_agent_env 0 demo_truth demo_agent (demo_decision 2)).
  - cbn; lia.
  - apply demo_agent_inv.
  - cbn; lia.
  - reflexivity.
  - cbn; lia.
  - vm_compute; reflexivity.
  - intros i Hi. cbn in Hi.
    assert (i = 1 \/ i = 2 \/ i = 3 \/ i = 4) as [-> |[-> |[-> | -> ]]] by lia;
      first [left; vm_compute; eexists; reflexivity | right; vm_compute; eexists; reflexivity].
  - reflexivity.
  - vm_compute; reflexivity.
Defined.
