(* ===== verification/Transactions.v ===== *)
(** * Transactions

    Model of [Transaction], [TransactionList], [PartialHashesList],
    [ListOfHashes] and [TimeStamp] ([src/datastructures]).  A transaction is
    its bytes; the caching of its hashes is left out, the caching of the
    serialized form of a list is modelled, since the cached bytes are returned
    whatever the flag of a later call says.  BLAKE3 is a parameter. *)

From stdpp Require Import base tactics gmap list strings.
From Stdlib Require Import ZArith Lia.
From S2P Require Import Prelude Bytes.

Definition PARTIAL_HASH_LEN : Z := 8.
Definition HASH_LEN : Z := 32.

(** [v.begin() + a, v.begin() + b] as the source of a new vector. *)
Definition slice (l : list Z) (start len : Z) : list Z :=
  take (Z.to_nat len) (drop (Z.to_nat start) l).

Section Transactions.
(** The hash function; [blake3_length] is [BLAKE3_OUT_LEN]. *)
Context (blake3 : list Z -> list Z).

Record Transaction := { tx_data : list Z }.

Definition tx_getHash (t : Transaction) : list Z := blake3 (tx_data t).

Definition tx_getPartialHash (t : Transaction) : list Z :=
  take (Z.to_nat PARTIAL_HASH_LEN) (tx_getHash t).

Definition mkTransaction (trx : list Z) (includesPartialHash : bool) : res Transaction :=
  let body := zlen trx - PARTIAL_HASH_LEN in
  incoming ←
    (if includesPartialHash then
       rcheck InvalidArgumentException (PARTIAL_HASH_LEN <? zlen trx) ;;
       mret (drop (Z.to_nat body) trx)
     else rcheck InvalidArgumentException (0 <? zlen trx) ;; mret []);
  let t := {| tx_data := if includesPartialHash then take (Z.to_nat body) trx else trx |} in
  (if includesPartialHash
   then rcheck InvalidArgumentException (bool_decide (tx_getPartialHash t = incoming))
   else mret tt) ;;
  rcheck InvalidStateException (0 <? zlen (tx_data t)) ;;
  mret t.

Definition tx_getData (t : Transaction) : res (list Z) :=
  rcheck InvalidStateException (0 <? zlen (tx_data t)) ;; mret (tx_data t).

Definition getSerializedSize (t : Transaction) (writePartialHash : bool) : res Z :=
  rcheck InvalidStateException (0 <? zlen (tx_data t)) ;;
  mret (if writePartialHash then zlen (tx_data t) + PARTIAL_HASH_LEN else zlen (tx_data t)).

Definition serializeInto (t : Transaction) (out : list Z) (writePartialHash : bool) : list Z :=
  out ++ tx_data t ++ (if writePartialHash then tx_getPartialHash t else []).

(** [_startIndex + _len] wraps; a range that the check lets through and that
    ends before it begins makes the vector constructor throw. *)
Definition tx_deserialize (data : list Z) (startIndex len : Z) (verifyPartialHashes : bool) :
    res Transaction :=
  rcheck InvalidArgumentException (u64 (startIndex + len) <=? zlen data) ;;
  rcheck InvalidArgumentException (0 <? len) ;;
  if startIndex + len <=? zlen data
  then mkTransaction (slice data startIndex len) verifyPartialHashes
  else Err StdLengthError.

(** ** Lists of transactions *)
Record TransactionList := {
  tl_transactions : list Transaction;
  tl_serialized : option (list Z)
}.

Definition mkTransactionList (ts : list Transaction) : TransactionList :=
  {| tl_transactions := ts; tl_serialized := None |}.

(** The loop over the sizes. *)
Fixpoint parseTransactions (sizes : list Z) (data : list Z) (index : Z) (check : bool) :
    res (list Transaction) :=
  match sizes with
  | [] => Ok []
  | size :: sizes =>
      rcheck InvalidArgumentException (0 <? size) ;;
      t ← rnested_all ParsingException (tx_deserialize data index size check);
      ts ← parseTransactions sizes data (u64 (index + size)) check;
      Ok (t :: ts)
  end.

Definition at_ (l : list Z) (i : Z) : res Z :=
  match (if i <? 0 then None else l !! Z.to_nat i) with
  | Some b => Ok b
  | None => Err StdOutOfRange
  end.

(** [TransactionList::deserialize]; the characters [<] and [>] are 60 and 62. *)
Definition tl_deserialize (transactionSizes data : list Z) (offset : Z) (checkPartialHash : bool) :
    res TransactionList :=
  first ← at_ data offset;
  rcheck InvalidArgumentException (first =? 60) ;;
  last ← at_ data (zlen data - 1);
  rcheck InvalidArgumentException (last =? 62) ;;
  if bool_decide (transactionSizes = []) then
    rcheck InvalidArgumentException (u64 (zlen data - offset) =? 2) ;;
    mret (mkTransactionList [])
  else
    rcheck InvalidArgumentException (forallb (fun size => 0 <? size) transactionSizes) ;;
    rcheck InvalidArgumentException
      ((if checkPartialHash then PARTIAL_HASH_LEN + 2 else 2) <? u64 (zlen data - offset)) ;;
    ts ← parseTransactions transactionSizes data (u32 (offset + 1)) checkPartialHash;
    mret (mkTransactionList ts).

(** The size to reserve. *)
Definition totalSize (ts : list Transaction) : res Z :=
  foldr (fun t r => x ← getSerializedSize t true; y ← r; Ok (x + y)) (Ok 0) ts.

Definition tl_serialize (writeTxPartialHash : bool) : M TransactionList (list Z) :=
  l ← get;
  match tl_serialized l with
  | Some bytes => mret bytes
  | None =>
      lift_res (totalSize (tl_transactions l)) ;;
      let bytes :=
        foldl (fun out t => serializeInto t out writeTxPartialHash) [60] (tl_transactions l) ++
        [62] in
      put {| tl_transactions := tl_transactions l; tl_serialized := Some bytes |} ;;
      mret bytes
  end.

Definition tl_size (l : TransactionList) : Z := zlen (tl_transactions l).

Fixpoint createTransactionSizes (ts : list Transaction) (writePartialHash : bool) : res (list Z) :=
  match ts with
  | [] => Ok []
  | t :: ts =>
      x ← getSerializedSize t writePartialHash;
      rcheck InvalidStateException (0 <? x) ;;
      xs ← createTransactionSizes ts writePartialHash;
      Ok (x :: xs)
  end.

Definition createTransactionSizesVector (l : TransactionList) (writePartialHash : bool) :
    res (list Z) :=
  sizes ← createTransactionSizes (tl_transactions l) writePartialHash;
  rcheck InvalidStateException (forallb (fun size => 0 <? size) sizes) ;;
  mret sizes.

Fixpoint createTransactionVector (ts : list Transaction) : res (list (list Z)) :=
  match ts with
  | [] => Ok []
  | t :: ts => d ← tx_getData t; ds ← createTransactionVector ts; Ok (d :: ds)
  end.

(** ** Merkle root *)
Definition merkleTreeMerge (l r : list Z) : list Z := blake3 (l ++ r).

(** The inner loop on the vector, in place. *)
Fixpoint mergeInPlace (js : list nat) (hashes : list (list Z)) : list (list Z) :=
  match js with
  | [] => hashes
  | j :: js =>
      let h := merkleTreeMerge (default [] (hashes !! (2 * j)%nat))
                 (default [] (hashes !! (2 * j + 1)%nat)) in
      mergeInPlace js (<[j := h]> hashes)
  end.

Definition merkleRound (hashes : list (list Z)) : list (list Z) :=
  let hashes :=
    if Nat.odd (length hashes) then hashes ++ [default [] (last hashes)] else hashes in
  take (Nat.div2 (length hashes)) (mergeInPlace (seq 0 (Nat.div2 (length hashes))) hashes).

Fixpoint merkleLoop (fuel : nat) (hashes : list (list Z)) : res (list Z) :=
  match hashes with
  | [] => Err InvalidStateException
  | [h] => Ok h
  | _ =>
      match fuel with
      | O => Err OutOfFuel
      | S fuel => merkleLoop fuel (merkleRound hashes)
      end
  end.

(** Every round halves the number of hashes, so the length is fuel enough. *)
Definition calculateTopMerkleRoot (hashes : list (list Z)) : res (list Z) :=
  rcheck InvalidStateException (0 <? zlen hashes) ;;
  merkleLoop (length hashes) hashes.

Definition tl_calculateTopMerkleRoot (l : TransactionList) : res (list Z) :=
  calculateTopMerkleRoot (map tx_getHash (tl_transactions l)).

(** ** Partial hashes *)
Record PartialHashesList := { ph_transactionCount : Z; ph_partialHashes : list Z }.

(** [partialHashes->at( start + j ) = hash.at( j )] for the bytes of one hash. *)
Fixpoint writeBytes (buf : list Z) (start : nat) (bytes : list Z) : res (list Z) :=
  match bytes with
  | [] => Ok buf
  | b :: bytes =>
      if bool_decide (start < length buf)%nat
      then writeBytes (<[start := b]> buf) (S start) bytes
      else Err StdOutOfRange
  end.

(** The loop of [BlockProposal::createPartialHashesList] from transaction [i]
    on; [n] transactions are left. *)
Fixpoint fillPartialHashes (ts : list Transaction) (i n : nat) (buf : list Z) : res (list Z) :=
  match n with
  | O => Ok buf
  | S n =>
      match ts !! i with
      | None => Err StdOutOfRange
      | Some t =>
          buf ← writeBytes buf (i * Z.to_nat PARTIAL_HASH_LEN) (tx_getPartialHash t);
          fillPartialHashes ts (S i) n buf
      end
  end.

(** A buffer that is too large only constructs an exception and does not throw
    it. *)
Definition createPartialHashesList (transactionCount : Z) (ts : list Transaction) :
    res PartialHashesList :=
  let s := transactionCount * PARTIAL_HASH_LEN in
  hashes ← fillPartialHashes ts 0 (Z.to_nat transactionCount) (replicate (Z.to_nat s) 0);
  mret {| ph_transactionCount := transactionCount; ph_partialHashes := hashes |}.

Fixpoint readBytes (l : list Z) (start : Z) (n : nat) : res (list Z) :=
  match n with
  | O => Ok []
  | S n => b ← at_ l start; bs ← readBytes l (start + 1) n; Ok (b :: bs)
  end.

Definition getPartialHash (p : PartialHashesList) (i : Z) : res (list Z) :=
  if ph_transactionCount p <=? i then Err NetworkProtocolException
  else readBytes (ph_partialHashes p) (PARTIAL_HASH_LEN * i) (Z.to_nat PARTIAL_HASH_LEN).
End Transactions.

(** ** Time stamps *)
Record TimeStamp := { ts_s : Z; ts_ms : Z }.

Definition TimeStamp_lt (l r : TimeStamp) : bool :=
  if ts_s l <? ts_s r then true
  else if ts_s r <? ts_s l then false
  else ts_ms l <? ts_ms r.

Definition incrementByMs (t : TimeStamp) : TimeStamp :=
  if ts_ms t =? 999 then {| ts_s := u64 (ts_s t + 1); ts_ms := 0 |}
  else {| ts_s := ts_s t; ts_ms := u64 (ts_ms t + 1) |}.

Definition getLinuxTimeMs (t : TimeStamp) : Z := u64 (1000 * ts_s t + ts_ms t).

Definition getCurrentTimeStamp (time : Z) : TimeStamp :=
  {| ts_s := time / 1000; ts_ms := time mod 1000 |}.

(** ** Round trips *)
Section RoundTrip.
Context (blake3 : list Z -> list Z).
Context (blake3_length : forall x, length (blake3 x) = Z.to_nat HASH_LEN).
Implicit Types (t : Transaction) (ts : list Transaction).

Definition valid_tx t : Prop := tx_data t <> [].

Definition tx_bytes t (w : bool) : list Z :=
  tx_data t ++ (if w then tx_getPartialHash blake3 t else []).

Lemma length_partialHash t : zlen (tx_getPartialHash blake3 t) = PARTIAL_HASH_LEN.
Proof.
  unfold zlen, tx_getPartialHash, tx_getHash. rewrite length_take, blake3_length. done.
Qed.

Lemma valid_zlen t : valid_tx t -> 0 < zlen (tx_data t).
Proof. unfold valid_tx, zlen. destruct (tx_data t); [done|cbn; lia]. Qed.

Lemma zlen_tx_bytes t w :
  zlen (tx_bytes t w) = zlen (tx_data t) + if w then PARTIAL_HASH_LEN else 0.
Proof. unfold tx_bytes. rewrite zlen_app. destruct w; [by rewrite length_partialHash|done]. Qed.

Lemma mkTransaction_bytes t w : valid_tx t -> mkTransaction blake3 (tx_bytes t w) w = Ok t.
Proof.
  intros Hv%valid_zlen. pose proof (proj2 (Z.ltb_lt _ _) Hv) as Hv'.
  unfold mkTransaction. rewrite zlen_tx_bytes. destruct w.
  - assert ((PARTIAL_HASH_LEN <? zlen (tx_data t) + PARTIAL_HASH_LEN) = true) as -> by lia.
    replace (zlen (tx_data t) + PARTIAL_HASH_LEN - PARTIAL_HASH_LEN) with (zlen (tx_data t)) by lia.
    replace (Z.to_nat (zlen (tx_data t))) with (length (tx_data t)) by (unfold zlen; lia).
    unfold tx_bytes. rewrite take_app_length, drop_app_length. destruct t as [data].
    cbn [rcheck mbind res_bind mret res_ret tx_data] in *.
    rewrite bool_decide_eq_true_2 by done. cbn [rcheck mbind res_bind]. by rewrite Hv'.
  - unfold tx_bytes. rewrite app_nil_r, Z.add_0_r, Hv'. destruct t as [data].
    cbn [rcheck mbind res_bind mret res_ret tx_data] in *. by rewrite Hv'.
Qed.

Definition txs_bytes ts (w : bool) : list Z := concat (map (fun t => tx_bytes t w) ts).

Definition tx_sizes ts (w : bool) : list Z := map (fun t => zlen (tx_bytes t w)) ts.

Lemma createTransactionSizes_ok ts w :
  Forall valid_tx ts -> createTransactionSizes ts w = Ok (tx_sizes ts w).
Proof.
  induction 1 as [|t ts Hv%valid_zlen _ IH]; [done|]. cbn [createTransactionSizes tx_sizes map].
  unfold getSerializedSize. rewrite (proj2 (Z.ltb_lt _ _) Hv), IH, zlen_tx_bytes.
  destruct w; cbn; rewrite (proj2 (Z.ltb_lt _ _)) by (unfold PARTIAL_HASH_LEN; lia); cbn;
    rewrite ?Z.add_0_r; done.
Qed.

Lemma tx_sizes_pos ts w : Forall valid_tx ts -> forallb (fun size => 0 <? size) (tx_sizes ts w) = true.
Proof.
  induction 1 as [|t ts Hv%valid_zlen _ IH]; [done|].
  cbn [tx_sizes map forallb]. fold (tx_sizes ts w). rewrite IH, zlen_tx_bytes, andb_true_r.
  apply Z.ltb_lt. destruct w; unfold PARTIAL_HASH_LEN; lia.
Qed.

Lemma serialize_foldl ts w out :
  foldl (fun out t => serializeInto blake3 t out w) out ts = out ++ txs_bytes ts w.
Proof.
  revert out. induction ts as [|t ts IH]; intros out; cbn; [by rewrite app_nil_r|].
  rewrite IH. unfold serializeInto, txs_bytes, tx_bytes. cbn. by rewrite <- !app_assoc.
Qed.

Lemma slice_middle pre mid suf :
  slice (pre ++ mid ++ suf) (zlen pre) (zlen mid) = mid.
Proof. unfold slice, zlen. by rewrite !Nat2Z.id, drop_app_length, take_app_length. Qed.

Lemma parseTransactions_ok ts w pre suf :
  Forall valid_tx ts -> zlen (pre ++ txs_bytes ts w ++ suf) < 2 ^ 63 ->
  parseTransactions blake3 (tx_sizes ts w) (pre ++ txs_bytes ts w ++ suf) (zlen pre) w = Ok ts.
Proof.
  intros Hv. revert pre. induction Hv as [|t ts Ht _ IH]; intros pre Hlen; [done|].
  pose proof (valid_zlen t Ht) as Hpos. pose proof (zlen_tx_bytes t w) as Hb.
  assert (txs_bytes (t :: ts) w = tx_bytes t w ++ txs_bytes ts w) as Hcons by done.
  rewrite Hcons in *. rewrite <- app_assoc in *.
  cbn [tx_sizes map parseTransactions].
  pose proof (zlen_nonneg pre). pose proof (zlen_nonneg (txs_bytes ts w ++ suf)).
  rewrite !zlen_app in Hlen. rewrite zlen_app in *.
  assert (0 < zlen (tx_bytes t w)) as Hbpos by (destruct w; unfold PARTIAL_HASH_LEN in *; lia).
  rewrite (proj2 (Z.ltb_lt _ _) Hbpos). cbn [rcheck mbind res_bind].
  unfold tx_deserialize. rewrite !zlen_app, u64_small by lia.
  rewrite !(proj2 (Z.leb_le _ _)) by lia. rewrite (proj2 (Z.ltb_lt _ _) Hbpos).
  cbn [rcheck mbind res_bind]. rewrite slice_middle, mkTransaction_bytes by done.
  cbn [rnested_all mbind res_bind]. fold (tx_sizes ts w).
  specialize (IH (pre ++ tx_bytes t w)). rewrite <- app_assoc, (zlen_app pre (tx_bytes t w)) in IH.
  rewrite IH; [done|]. rewrite !zlen_app. lia.
Qed.
End RoundTrip.

(** ** The Merkle root *)
Section Merkle.
Context (blake3 : list Z -> list Z).
Local Abbreviation hash := (list Z).
Local Abbreviation merge := (merkleTreeMerge blake3).
Implicit Types (l : list hash) (h : hash).

(** One level of the tree: neighbours are merged, a last one without a
    neighbour with itself. *)
Fixpoint pair_up l : list hash :=
  match l with
  | a :: b :: l => merge a b :: pair_up l
  | [a] => [merge a a]
  | [] => []
  end.

(** [h] is the root above the level [l]. *)
Inductive merkle_of : list hash -> hash -> Prop :=
  | mo_root h : merkle_of [h] h
  | mo_level l h : (2 <= length l)%nat -> merkle_of (pair_up l) h -> merkle_of l h.

Lemma pair_ind (P : list hash -> Prop) :
  P [] -> (forall a, P [a]) -> (forall a b l, P l -> P (a :: b :: l)) -> forall l, P l.
Proof.
  intros H0 H1 H2 l. assert (P l /\ forall a, P (a :: l)) as [? _]; [|done].
  induction l as [|b l [IH1 IH2]]; split; auto.
Qed.

Lemma length_pair_up l : length (pair_up l) = Nat.div2 (S (length l)).
Proof. induction l as [|a|a b l IH] using pair_ind; [done..|]. cbn in *. by rewrite IH. Qed.

Lemma pair_up_snoc l :
  Nat.odd (length l) = true -> pair_up (l ++ [default [] (last l)]) = pair_up l.
Proof.
  induction l as [|a|a b l IH] using pair_ind; intros Ho; [done..|].
  assert (Nat.odd (length l) = true) as Ho' by done.
  destruct l as [|c l]; [done|]. specialize (IH Ho').
  change (last (a :: b :: c :: l)) with (last (c :: l)). cbn [app pair_up] in *. by rewrite IH.
Qed.

Lemma pair_up_lookup l i :
  Nat.even (length l) = true -> (i < Nat.div2 (length l))%nat ->
  pair_up l !! i = Some (merge (default [] (l !! (2 * i)%nat)) (default [] (l !! (2 * i + 1)%nat))).
Proof.
  revert i. induction l as [|a|a b l IH] using pair_ind; intros i He Hi; [cbn in Hi; lia|done|].
  cbn in Hi. destruct i as [|i]; [done|]. cbn [pair_up].
  change ((merge a b :: pair_up l) !! S i) with (pair_up l !! i).
  rewrite IH by (done || lia).
  replace (2 * S i)%nat with (S (S (2 * i))) by lia. done.
Qed.

(** The in-place loop: place [j] gets the merge of places [2j] and [2j + 1] of
    the level before. *)
Lemma mergeInPlace_lookup l0 m k l :
  (forall i, (k <= i)%nat -> l !! i = l0 !! i) -> (k + m <= length l)%nat ->
  forall i, mergeInPlace blake3 (seq k m) l !! i =
    if decide (k <= i < k + m)%nat
    then Some (merge (default [] (l0 !! (2 * i)%nat)) (default [] (l0 !! (2 * i + 1)%nat)))
    else l !! i.
Proof.
  revert k l. induction m as [|m IH]; intros k l Hl Hlen i; cbn [seq mergeInPlace].
  { rewrite decide_False by lia. done. }
  rewrite IH.
  - destruct (decide (S k <= i < S k + m)%nat), (decide (k <= i < k + S m)%nat); try lia; [done| |].
    + assert (i = k) as -> by lia. rewrite list_lookup_insert_eq by lia.
      by rewrite !Hl by lia.
    + by rewrite list_lookup_insert_ne by lia.
  - intros j Hj. rewrite list_lookup_insert_ne by lia. apply Hl. lia.
  - rewrite length_insert. lia.
Qed.

Lemma length_mergeInPlace js l : length (mergeInPlace blake3 js l) = length l.
Proof. revert l. induction js as [|j js IH]; intros l; cbn; [done|]. by rewrite IH, length_insert. Qed.

Lemma div2_le n : (Nat.div2 n <= n)%nat.
Proof. apply Nat.div2_decr. lia. Qed.

Lemma merge_level l :
  Nat.even (length l) = true ->
  take (Nat.div2 (length l)) (mergeInPlace blake3 (seq 0 (Nat.div2 (length l))) l) = pair_up l.
Proof.
  intros He. pose proof (div2_le (length l)). apply list_eq. intros i.
  destruct (decide (i < Nat.div2 (length l))%nat) as [Hi|Hi].
  - rewrite lookup_take_lt, (mergeInPlace_lookup l), decide_True, pair_up_lookup by (done || lia).
    done.
  - rewrite !lookup_ge_None_2; [done| |].
    + rewrite length_pair_up. apply Nat.even_spec in He as [k Hk]. rewrite Hk in *.
      replace (S (2 * k)) with (S k + k)%nat by lia. rewrite Nat.div2_double in Hi.
      assert (Nat.div2 (S k + k) = k) as ->; [|lia].
      replace (S k + k)%nat with (S (2 * k)) by lia. apply Nat.div2_succ_double.
    + rewrite length_take, length_mergeInPlace. lia.
Qed.

Lemma merkleRound_pair_up l : merkleRound blake3 l = pair_up l.
Proof.
  unfold merkleRound. destruct (Nat.odd (length l)) eqn:Ho.
  - rewrite merge_level; [by apply pair_up_snoc|].
    rewrite length_app; cbn. rewrite Nat.add_1_r, Nat.even_succ. done.
  - apply merge_level. rewrite <- Nat.negb_odd. by rewrite Ho.
Qed.

Lemma merkleLoop_spec fuel l :
  l <> [] -> (length l <= fuel)%nat ->
  exists h, merkleLoop blake3 fuel l = Ok h /\ merkle_of l h.
Proof.
  revert l. induction fuel as [|fuel IH]; intros l Hne Hf; [destruct l; [done|cbn in Hf; lia]|].
  destruct l as [|a [|b l]]; [done| |].
  - exists a. split; [done|constructor].
  - cbn [merkleLoop]. rewrite merkleRound_pair_up.
    assert (length (pair_up (a :: b :: l)) <= fuel)%nat as Hlen.
    { rewrite length_pair_up. pose proof (Nat.div2_decr (S (length l)) (length l) (le_n _)).
      change (Nat.div2 (S (length (a :: b :: l)))) with (S (Nat.div2 (S (length l)))).
      cbn [length] in Hf. lia. }
    destruct (IH (pair_up (a :: b :: l))) as (h & ? & ?); [done|done|].
    exists h. split; [done|]. apply mo_level; [cbn; lia|done].
Qed.

Lemma merkle_of_functional l h h' : merkle_of l h -> merkle_of l h' -> h = h'.
Proof.
  intros Hm. revert h'. induction Hm as [h|l h Hl _ IH]; intros h' Hm'; inversion Hm'; subst;
    try done; cbn in *; try lia. auto.
Qed.

(** ** Binding

    The inputs that are hashed while the root above [l] is computed. *)
Fixpoint pair_inputs l : list (list Z) :=
  match l with
  | a :: b :: l => (a ++ b) :: pair_inputs l
  | [a] => [a ++ a]
  | [] => []
  end.

Inductive merkle_input : list hash -> list Z -> Prop :=
  | mi_level l x : (2 <= length l)%nat -> x ∈ pair_inputs l -> merkle_input l x
  | mi_above l x : (2 <= length l)%nat -> merkle_input (pair_up l) x -> merkle_input l x.

(** A collision between an input of one computation and one of another. *)
Definition collision (P Q : list Z -> Prop) : Prop :=
  exists x y, P x /\ Q y /\ x <> y /\ blake3 x = blake3 y.

Lemma pair_up_inputs l : pair_up l = map blake3 (pair_inputs l).
Proof. induction l as [|a|a b l IH] using pair_ind; cbn; [done..|]. by rewrite IH. Qed.

Lemma map_hash_binding xs ys :
  map blake3 xs = map blake3 ys -> xs = ys \/ collision (fun x => x ∈ xs) (fun y => y ∈ ys).
Proof.
  revert ys. induction xs as [|x xs IH]; intros [|y ys] Heq; try done; [by left|].
  cbn in Heq. injection Heq as Hxy Heq. destruct (decide (x = y)) as [->|Hne].
  - destruct (IH ys Heq) as [->|(x' & y' & ? & ? & ?)]; [by left|right].
    exists x', y'. rewrite !elem_of_cons. auto.
  - right. exists x, y. rewrite !elem_of_cons. auto.
Qed.

Definition hash_sized h : Prop := length h = Z.to_nat HASH_LEN.

Lemma pair_inputs_inj l l' :
  length l = length l' -> Forall hash_sized l -> Forall hash_sized l' ->
  pair_inputs l = pair_inputs l' -> l = l'.
Proof.
  revert l'. induction l as [|a|a b l IH] using pair_ind; intros l' Hlen Hl Hl' Heq.
  - by destruct l'.
  - destruct l' as [|c [|]]; [done| |done]. cbn in Heq. injection Heq as Heq.
    rewrite Forall_singleton in Hl, Hl'. unfold hash_sized in *.
    apply app_inj_1 in Heq as [-> _]; [done|congruence].
  - destruct l' as [|c [|d l']]; [done..|]. cbn [pair_inputs] in Heq. injection Heq as Heq1 Heq2.
    rewrite !Forall_cons in Hl, Hl'. destruct Hl as (Ha & Hb & Hl), Hl' as (Hc & Hd & Hl').
    unfold hash_sized in *.
    apply app_inj_1 in Heq1 as [-> ->]; [|congruence]. f_equal. f_equal.
    apply IH; [by injection Hlen|done..].
Qed.

Lemma pair_up_sized (Hblake : forall x, hash_sized (blake3 x)) l : Forall hash_sized (pair_up l).
Proof. rewrite pair_up_inputs. apply Forall_map, Forall_forall. intros x _. apply Hblake. Qed.

Lemma merkle_binding (Hblake : forall x, hash_sized (blake3 x)) l l' h :
  merkle_of l h -> merkle_of l' h -> length l = length l' ->
  Forall hash_sized l -> Forall hash_sized l' ->
  l = l' \/ collision (merkle_input l) (merkle_input l').
Proof.
  intros Hm. revert l'. induction Hm as [h|l h Hl _ IH]; intros l' Hm' Hlen Hall Hall'.
  - inversion Hm'; subst; [by left|]. cbn in Hlen. lia.
  - inversion Hm' as [|? ? Hl' Hp]; subst; [cbn in Hlen; lia|].
    destruct (IH (pair_up l')) as [Heq|(x & y & Hx & Hy & ?)];
      [done| |by apply pair_up_sized..| |].
    + by rewrite !length_pair_up, Hlen.
    + rewrite !pair_up_inputs in Heq. apply map_hash_binding in Heq as [Heq|(x & y & Hx & Hy & ?)].
      * left. by apply pair_inputs_inj.
      * right. exists x, y. split_and!; try apply mi_level; tauto.
    + right. exists x, y. split_and!; try apply mi_above; tauto.
Qed.
End Merkle.

(** ** Theorems *)
#[export] Instance tx_data_inj : Inj (=) (=) tx_data.
Proof. intros [a] [b]. cbn. congruence. Qed.

Section Theorems.
Context (blake3 : list Z -> list Z).
Implicit Types (t : Transaction) (ts : list Transaction).

(** The inputs hashed for the root of a list of transactions. *)
Definition root_input ts (x : list Z) : Prop :=
  x ∈ map tx_data ts \/ merkle_input blake3 (map (tx_getHash blake3) ts) x.

Lemma calculateTopMerkleRoot_ok l :
  l <> [] -> exists h, calculateTopMerkleRoot blake3 l = Ok h /\ merkle_of blake3 l h.
Proof.
  intros Hne. destruct (merkleLoop_spec blake3 (length l) l Hne) as (h & Hh & Hm); [done|].
  exists h. split; [|done]. unfold calculateTopMerkleRoot.
  assert ((0 <? zlen l) = true) as -> by (destruct l; [done|apply Z.ltb_lt; unfold zlen; cbn; lia]). done.
Qed.

Lemma transactions_binding (blake3_length : forall x, hash_sized (blake3 x)) ts ts' h :
  length ts = length ts' ->
  merkle_of blake3 (map (tx_getHash blake3) ts) h -> merkle_of blake3 (map (tx_getHash blake3) ts') h ->
  ts = ts' \/ collision blake3 (root_input ts) (root_input ts').
Proof.
  intros Hlen Hm Hm'.
  assert (forall us, Forall hash_sized (map (tx_getHash blake3) us)) as Hsized.
  { intros us. apply Forall_map, Forall_forall. intros t _. apply blake3_length. }
  destruct (merkle_binding blake3 blake3_length _ _ h Hm Hm') as [Heq|(x & y & ? & ? & ?)];
    [by rewrite !length_map|auto..| |].
  - assert (forall us, map (tx_getHash blake3) us = map blake3 (map tx_data us)) as Hcomp.
    { intros us. by rewrite map_map. }
    rewrite !Hcomp in Heq. apply map_hash_binding in Heq as [Heq|(x & y & ? & ? & ?)].
    + left. revert Heq. apply (inj (fmap (M:=list) tx_data)).
    + right. exists x, y. unfold root_input. tauto.
  - right. exists x, y. unfold root_input. tauto.
Qed.

(** The lists must have the same length: repeating the last one of an odd number
    of transactions does not change the root. *)
Example merkle_root_ignores_repeat x y z :
  tl_calculateTopMerkleRoot blake3 (mkTransactionList [x; y; z]) =
  tl_calculateTopMerkleRoot blake3 (mkTransactionList [x; y; z; z]).
Proof. reflexivity. Qed.

(** C40: The Merkle root of a non-empty list of transactions is computed by the
    in-place loop within its bound and is the root of the tree whose levels
    pair up neighbours (a last one alone with itself).  Another list of the same
    length with the same root is the same list, unless an input hashed for one
    of them collides with an input hashed for the other.  For lists of different
    lengths this does not hold ([merkle_root_ignores_repeat]); the hash of a
    proposal covers the number of its transactions as well. *)
Theorem merkle_root_binding
    (blake3_length : forall x, hash_sized (blake3 x)) ts ts' :
  ts <> [] -> length ts = length ts' ->
  exists h,
    tl_calculateTopMerkleRoot blake3 (mkTransactionList ts) = Ok h /\
    merkle_of blake3 (map (tx_getHash blake3) ts) h /\
    (tl_calculateTopMerkleRoot blake3 (mkTransactionList ts') = Ok h ->
     ts = ts' \/ collision blake3 (root_input ts) (root_input ts')).
Proof.
  intros Hne Hlen. unfold tl_calculateTopMerkleRoot. cbn [tl_transactions mkTransactionList].
  assert (forall us, us <> [] -> map (tx_getHash blake3) us <> []) as Hmap by (by intros []).
  destruct (calculateTopMerkleRoot_ok _ (Hmap ts Hne)) as (h & Hh & Hm).
  exists h. split_and!; [done..|]. intros Hh'.
  assert (ts' <> []) as Hne' by (by destruct ts, ts').
  destruct (calculateTopMerkleRoot_ok _ (Hmap ts' Hne')) as (h' & Hh'' & Hm').
  rewrite Hh' in Hh''. injection Hh'' as <-. by apply (transactions_binding blake3_length _ _ h).
Qed.

(** ** Round trip of a list *)
Context (blake3_length : forall x, hash_sized (blake3 x)).

Definition list_bytes ts (w : bool) : list Z := [60] ++ txs_bytes blake3 ts w ++ [62].

Lemma serialized_sizes_ok ts :
  Forall valid_tx ts ->
  exists n, totalSize ts = Ok n.
Proof.
  induction 1 as [|t ts Ht%valid_zlen _ [n IH]]; [by exists 0|].
  cbn [totalSize foldr]. fold (totalSize ts). rewrite IH. unfold getSerializedSize. rewrite (proj2 (Z.ltb_lt _ _) Ht). cbn. eauto.
Qed.

Lemma tl_serialize_ok ts w :
  Forall valid_tx ts ->
  tl_serialize blake3 w (mkTransactionList ts) =
    (Ok (list_bytes ts w), {| tl_transactions := ts; tl_serialized := Some (list_bytes ts w) |}).
Proof.
  intros [n Hn]%serialized_sizes_ok. unfold tl_serialize, list_bytes.
  cbv [mbind M_bind get lift_res put mret M_ret mkTransactionList tl_transactions tl_serialized].
  by rewrite Hn, serialize_foldl, <- app_assoc.
Qed.

Lemma at_middle pre b suf : at_ (pre ++ b :: suf) (zlen pre) = Ok b.
Proof.
  unfold at_. pose proof (zlen_nonneg pre).
  assert ((zlen pre <? 0) = false) as -> by (apply Z.ltb_ge; lia).
  unfold zlen. by rewrite Nat2Z.id, list_lookup_middle.
Qed.

Lemma tl_deserialize_ok ts w pre :
  Forall valid_tx ts -> zlen pre + 1 < 2 ^ 32 -> zlen (pre ++ list_bytes ts w) < 2 ^ 63 ->
  tl_deserialize blake3 (tx_sizes blake3 ts w) (pre ++ list_bytes ts w) (zlen pre) w =
    Ok (mkTransactionList ts).
Proof.
  intros Hv Hpre Hlen. unfold tl_deserialize. pose proof (zlen_nonneg pre).
  assert (zlen (list_bytes ts w) = zlen (txs_bytes blake3 ts w) + 2) as Hlb.
  { unfold list_bytes. rewrite !zlen_app. change (zlen [60]) with 1. change (zlen [62]) with 1. lia. }
  pose proof (zlen_nonneg (txs_bytes blake3 ts w)).
  rewrite zlen_app in *. 
  rewrite (at_middle pre 60 (txs_bytes blake3 ts w ++ [62]) : at_ (pre ++ list_bytes ts w) _ = _).
  cbn [mbind res_bind rcheck Z.eqb Pos.eqb].
  replace (zlen pre + zlen (list_bytes ts w) - 1) with (zlen (pre ++ [60] ++ txs_bytes blake3 ts w))
    by (rewrite !zlen_app; change (zlen [60]) with 1; lia).
  replace (pre ++ list_bytes ts w) with ((pre ++ [60] ++ txs_bytes blake3 ts w) ++ [62]) at 1
    by (unfold list_bytes; by rewrite <- !app_assoc).
  rewrite at_middle. cbn [mbind res_bind rcheck Z.eqb Pos.eqb].
  replace (zlen pre + zlen (list_bytes ts w) - zlen pre) with (zlen (list_bytes ts w)) by lia.
  rewrite u64_small, (wrap_small 32) by lia. rewrite tx_sizes_pos by done.
  destruct ts as [|t ts].
  - rewrite bool_decide_eq_true_2 by done. done.
  - rewrite bool_decide_eq_false_2 by done.
    assert (txs_bytes blake3 (t :: ts) w = tx_bytes blake3 t w ++ txs_bytes blake3 ts w) as Hcons
      by done.
    assert (((if w then PARTIAL_HASH_LEN + 2 else 2) <? zlen (list_bytes (t :: ts) w)) = true) as ->.
    { rewrite Hcons, zlen_app, zlen_tx_bytes in * by done. apply Forall_cons in Hv as [Hv _].
      pose proof (valid_zlen t Hv). pose proof (zlen_nonneg (txs_bytes blake3 ts w)).
      apply Z.ltb_lt. destruct w; lia. }
    cbn [rcheck mbind res_bind].
    pose proof (parseTransactions_ok blake3 blake3_length (t :: ts) w (pre ++ [60]) [62] Hv) as Hp.
    rewrite <- app_assoc, !zlen_app in Hp. change (zlen [60]) with 1 in Hp.
    change (zlen [62]) with 1 in Hp. unfold list_bytes. rewrite Hp by lia. done.
Qed.

(** A list of non-empty transactions survives the trip over the wire: its
    sizes vector and its serialized form, placed at any offset of a buffer and
    with or without the partial hashes, parse back to the same list. *)
Theorem transaction_list_roundtrip ts w pre :
  Forall valid_tx ts -> zlen pre + 1 < 2 ^ 32 -> zlen (pre ++ list_bytes ts w) < 2 ^ 63 ->
  exists sizes bytes l',
    createTransactionSizesVector (mkTransactionList ts) w = Ok sizes /\
    tl_serialize blake3 w (mkTransactionList ts) = (Ok bytes, l') /\
    tl_transactions l' = ts /\
    tl_deserialize blake3 sizes (pre ++ bytes) (zlen pre) w = Ok (mkTransactionList ts).
Proof.
  intros Hv Hpre Hlen. do 3 eexists. split_and!.
  - unfold createTransactionSizesVector. cbn [tl_transactions mkTransactionList].
    rewrite (createTransactionSizes_ok blake3) by done. cbn [mbind res_bind].
    by rewrite tx_sizes_pos.
  - by apply tl_serialize_ok.
  - done.
  - by apply tl_deserialize_ok.
Qed.

(** ** What a parsed list says about the buffer *)
Lemma mkTransaction_inv bytes w t :
  mkTransaction blake3 bytes w = Ok t -> bytes = tx_bytes blake3 t w /\ valid_tx t.
Proof.
  unfold mkTransaction, tx_bytes, valid_tx. destruct w.
  - destruct (PARTIAL_HASH_LEN <? zlen bytes); cbn [rcheck mbind res_bind mret res_ret]; [|done].
    case_bool_decide as Hh; cbn [rcheck mbind res_bind tx_data]; [|done].
    destruct (0 <? _) eqn:Hpos; cbn [rcheck mbind res_bind]; [|done].
    intros [= <-]. cbn [tx_data]. rewrite Hh, take_drop. split; [done|].
    intros He. by rewrite He in Hpos.
  - destruct bytes as [|b bytes]; cbn; [done|]. intros [= <-]. cbn. by rewrite app_nil_r.
Qed.

Lemma tx_deserialize_inv data i n w t :
  tx_deserialize blake3 data i n w = Ok t -> 0 <= i ->
  valid_tx t /\ n = zlen (tx_bytes blake3 t w) /\ i + n <= zlen data /\
  exists suf, drop (Z.to_nat i) data = tx_bytes blake3 t w ++ suf.
Proof.
  unfold tx_deserialize. intros Ht Hi.
  destruct (u64 (i + n) <=? zlen data); cbn in Ht; [|done].
  destruct (0 <? n) eqn:Hn; cbn in Ht; [|done].
  destruct (i + n <=? zlen data) eqn:Hin; [|done]. apply Z.ltb_lt in Hn. apply Z.leb_le in Hin.
  apply mkTransaction_inv in Ht as [Hs Hv]. unfold slice in Hs. split; [done|]. split_and!.
  - rewrite <- Hs. unfold zlen in *. rewrite length_take, length_drop. lia.
  - done.
  - exists (drop (Z.to_nat n) (drop (Z.to_nat i) data)). rewrite <- Hs. by rewrite take_drop.
Qed.

Lemma parseTransactions_inv sizes data i w ts :
  parseTransactions blake3 sizes data i w = Ok ts -> 0 <= i <= zlen data -> zlen data < 2 ^ 64 ->
  Forall valid_tx ts /\ sizes = tx_sizes blake3 ts w /\
  exists suf, drop (Z.to_nat i) data = txs_bytes blake3 ts w ++ suf.
Proof.
  revert i ts. induction sizes as [|n sizes IH]; intros i ts Hp Hi Hd; cbn [parseTransactions] in Hp.
  { injection Hp as <-. split_and!; [constructor|done|by eexists]. }
  destruct (0 <? n) eqn:Hn; cbn in Hp; [|done].
  destruct (tx_deserialize blake3 data i n w) as [t|[]] eqn:Ht; cbn in Hp; try done.
  apply tx_deserialize_inv in Ht as (Hv & Hsize & Hin & suf & Hsuf); [|lia].
  apply Z.ltb_lt in Hn. rewrite u64_small in Hp by lia.
  destruct (parseTransactions blake3 sizes data (i + n) w) as [ts'|] eqn:Hts; cbn in Hp; [|done].
  injection Hp as <-. apply IH in Hts as (Hvs & -> & suf' & Hsuf'); [|lia|done].
  split_and!; [by constructor|by rewrite Hsize|].
  exists suf'. unfold txs_bytes in *. cbn [map concat]. rewrite <- app_assoc, <- Hsuf', Hsuf.
  rewrite Z2Nat.inj_add, <- drop_drop, Hsuf, Hsize by lia. unfold zlen.
  by rewrite Nat2Z.id, drop_app_length.
Qed.

Lemma at_drop l i b : at_ l i = Ok b -> 0 <= i < zlen l /\ drop (Z.to_nat i) l = b :: drop (Z.to_nat (i + 1)) l.
Proof.
  unfold at_. destruct (i <? 0) eqn:Hi; [done|]. apply Z.ltb_ge in Hi.
  destruct (l !! Z.to_nat i) as [b'|] eqn:Hl; [|done]. intros [= ->].
  pose proof (lookup_lt_Some _ _ _ Hl). split; [unfold zlen; lia|].
  rewrite (drop_S _ _ _ Hl). do 2 f_equal. lia.
Qed.

(** A list that parses is what the buffer says: from the offset on the
    buffer holds the opening mark and the serialized transactions, each of the
    announced size and, if they were asked for, followed by its own partial
    hash; no transaction is empty. *)
Theorem transaction_list_parse_sound sizes data offset w l :
  tl_deserialize blake3 sizes data offset w = Ok l ->
  offset + 1 < 2 ^ 32 -> zlen data < 2 ^ 64 ->
  Forall valid_tx (tl_transactions l) /\ sizes = tx_sizes blake3 (tl_transactions l) w /\
  exists suf, drop (Z.to_nat offset) data = 60 :: txs_bytes blake3 (tl_transactions l) w ++ suf.
Proof.
  unfold tl_deserialize. intros Hd Hoff Hlen.
  destruct (at_ data offset) as [first|] eqn:Hfirst; cbn [mbind res_bind] in Hd; [|done].
  destruct (first =? 60) eqn:H60; cbn [rcheck mbind res_bind] in Hd; [|done].
  apply Z.eqb_eq in H60 as ->. apply at_drop in Hfirst as [Hin Hfirst].
  destruct (at_ data (zlen data - 1)) as [last|]; cbn [mbind res_bind] in Hd; [|done].
  destruct (last =? 62); cbn [rcheck mbind res_bind] in Hd; [|done].
  assert (u32 (offset + 1) = offset + 1) as Hu by (apply wrap_small; lia). rewrite Hu in Hd.
  case_bool_decide as Hs.
  - destruct (_ =? 2); cbn in Hd; [|done]. injection Hd as <-.
    cbn [tl_transactions mkTransactionList].
    split_and!; [apply Forall_nil_2|done|by rewrite Hfirst; eexists].
  - destruct (forallb _ sizes); cbn [rcheck mbind res_bind] in Hd; [|done].
    destruct (_ <? u64 _); cbn [rcheck mbind res_bind] in Hd; [|done].
    destruct (parseTransactions _ _ _ _ _) as [ts|] eqn:Hts; cbn in Hd; [|done].
    injection Hd as <-. apply parseTransactions_inv in Hts as (? & ? & suf & Hsuf); [|lia..].
    split_and!; [done..|]. exists suf. by rewrite Hfirst, Hsuf.
Qed.

(** ** Partial hashes *)
Lemma writeBytes_ok pre old suf bytes :
  length bytes = length old ->
  writeBytes (pre ++ old ++ suf) (length pre) bytes = Ok (pre ++ bytes ++ suf).
Proof.
  revert pre old. induction bytes as [|b bytes IH]; intros pre [|o old] Hlen; try done.
  cbn [writeBytes app]. rewrite bool_decide_eq_true_2 by (rewrite length_app; cbn; lia).
  rewrite <- (Nat.add_0_r (length pre)) at 1. rewrite insert_app_r. cbn [list_insert insert].
  replace (pre ++ b :: old ++ suf) with ((pre ++ [b]) ++ old ++ suf) by (by rewrite <- app_assoc).
  replace (S (length pre)) with (length (pre ++ [b])) by (rewrite length_app; cbn; lia).
  rewrite IH by (cbn in Hlen; lia). by rewrite <- app_assoc.
Qed.

Lemma fillPartialHashes_ok done ts n :
  n = length ts ->
  fillPartialHashes blake3 (done ++ ts) (length done) n
    (concat (map (tx_getPartialHash blake3) done) ++ replicate (length ts * 8) 0) =
  Ok (concat (map (tx_getPartialHash blake3) (done ++ ts))).
Proof.
  revert done ts. induction n as [|n IH]; intros done [|t ts] Hn; try discriminate.
  { cbn. by rewrite !app_nil_r. }
  cbn [fillPartialHashes length]. rewrite list_lookup_middle by reflexivity.
  assert (forall us, length (concat (map (tx_getPartialHash blake3) us)) = (length us * 8)%nat) as Hl.
  { intros us. induction us as [|u us IHu]; [reflexivity|]. cbn [map concat length].
    pose proof (length_partialHash blake3 blake3_length u) as Hp. unfold zlen, PARTIAL_HASH_LEN in Hp.
    rewrite length_app, IHu. lia. }
  pose proof (length_partialHash blake3 blake3_length t) as Hp. unfold zlen, PARTIAL_HASH_LEN in Hp.
  change (Z.to_nat PARTIAL_HASH_LEN) with 8%nat. rewrite <- (Hl done).
  change (S (length ts) * 8)%nat with (8 + length ts * 8)%nat. rewrite replicate_add, writeBytes_ok
    by (rewrite length_replicate; lia).
  cbn [mbind res_bind].
  specialize (IH (done ++ [t]) ts). rewrite <- !app_assoc, map_app, concat_app in IH.
  cbn [map concat app] in IH. rewrite app_nil_r, <- !app_assoc in IH.
  replace (S (length done)) with (length (done ++ [t])) by (rewrite length_app; cbn; lia).
  apply IH. by injection Hn.
Qed.

Lemma readBytes_ok pre bytes suf :
  readBytes (pre ++ bytes ++ suf) (zlen pre) (length bytes) = Ok bytes.
Proof.
  revert pre. induction bytes as [|b bytes IH]; intros pre; [done|].
  cbn [readBytes length app]. rewrite at_middle. cbn [mbind res_bind].
  specialize (IH (pre ++ [b])). rewrite <- app_assoc, zlen_app in IH. cbn [app] in IH.
  change (zlen [b]) with 1 in IH. by rewrite IH.
Qed.

(** The partial hashes list that a proposer sends holds, at every index
    below the number of transactions, the partial hash of that transaction;
    any other index is refused. *)
Theorem partial_hashes_lookup ts :
  exists p, createPartialHashesList blake3 (zlen ts) ts = Ok p /\
    (forall i t, ts !! i = Some t ->
       getPartialHash p (Z.of_nat i) = Ok (tx_getPartialHash blake3 t)) /\
    (forall i, zlen ts <= i -> getPartialHash p i = Err NetworkProtocolException).
Proof.
  eexists. split; [|split].
  - unfold createPartialHashesList, PARTIAL_HASH_LEN.
    replace (Z.to_nat (zlen ts)) with (length ts) by (unfold zlen; lia).
    replace (Z.to_nat (zlen ts * 8)) with (length ts * 8)%nat by (unfold zlen; lia).
    pose proof (fillPartialHashes_ok [] ts (length ts) eq_refl) as Hf. cbn [app length map concat] in Hf.
    rewrite Hf. done.
  - intros i t Hi. unfold getPartialHash. cbn [ph_transactionCount ph_partialHashes].
    pose proof (lookup_lt_Some _ _ _ Hi).
    rewrite (proj2 (Z.leb_gt _ _)) by (unfold zlen; lia).
    pose proof (length_partialHash blake3 blake3_length) as Hp. unfold zlen, PARTIAL_HASH_LEN in Hp.
    rewrite <- (take_drop_middle ts i t Hi), map_app, concat_app. cbn [app map concat].
    assert (forall us, zlen (concat (map (tx_getPartialHash blake3) us)) = 8 * zlen us) as Hl.
    { intros us. induction us as [|u us IHu]; [done|]. cbn [map concat].
      rewrite zlen_app, IHu. unfold zlen. rewrite (Hp u). cbn. lia. }
    replace (PARTIAL_HASH_LEN * Z.of_nat i)
      with (zlen (concat (map (tx_getPartialHash blake3) (take i ts)))).
    + replace (Z.to_nat PARTIAL_HASH_LEN) with (length (tx_getPartialHash blake3 t)).
      * apply readBytes_ok.
      * specialize (Hp t). unfold PARTIAL_HASH_LEN. lia.
    + rewrite Hl. unfold zlen, PARTIAL_HASH_LEN. rewrite length_take. lia.
  - intros i Hi. unfold getPartialHash. cbn [ph_transactionCount].
    by rewrite (proj2 (Z.leb_le _ _)) by lia.
Qed.
End Theorems.

(** ** Time stamps *)
Definition valid_ts (t : TimeStamp) : Prop :=
  0 <= ts_s t /\ 0 <= ts_ms t < 1000 /\ 1000 * ts_s t + ts_ms t + 1 < 2 ^ 64.

Lemma TimeStamp_lt_iff l r :
  TimeStamp_lt l r = true <-> ts_s l < ts_s r \/ (ts_s l = ts_s r /\ ts_ms l < ts_ms r).
Proof.
  unfold TimeStamp_lt. destruct (Z.ltb_spec (ts_s l) (ts_s r)); [intuition lia|].
  destruct (Z.ltb_spec (ts_s r) (ts_s l)); [split; [done|lia]|]. rewrite Z.ltb_lt. lia.
Qed.

Lemma getLinuxTimeMs_small t : valid_ts t -> getLinuxTimeMs t = 1000 * ts_s t + ts_ms t.
Proof. intros (? & ? & ?). apply u64_small. lia. Qed.

(** The order of time stamps is the order of their millisecond counts, and
    the time stamp that an empty block gets is the next millisecond: later than
    the previous block's and with nothing between them. *)
Theorem timestamp_increment t u :
  valid_ts t -> valid_ts u ->
  (TimeStamp_lt t u = true <-> getLinuxTimeMs t < getLinuxTimeMs u) /\
  getLinuxTimeMs (incrementByMs t) = getLinuxTimeMs t + 1 /\
  TimeStamp_lt t (incrementByMs t) = true /\
  (TimeStamp_lt t u = true -> TimeStamp_lt u (incrementByMs t) = false) /\
  getCurrentTimeStamp (getLinuxTimeMs t) = t.
Proof.
  intros Ht Hu. rewrite !getLinuxTimeMs_small by done. rewrite <- not_true_iff_false.
  rewrite !TimeStamp_lt_iff. destruct Ht as (? & ? & ?), Hu as (? & ? & ?).
  assert (1000 * ts_s (incrementByMs t) + ts_ms (incrementByMs t) = 1000 * ts_s t + ts_ms t + 1 /\
    0 <= ts_s (incrementByMs t) /\ 0 <= ts_ms (incrementByMs t) < 1000) as (Hi & ? & ?).
  { unfold incrementByMs. destruct (Z.eqb_spec (ts_ms t) 999); cbn; rewrite u64_small by lia; lia. }
  split_and!; [lia| |lia|lia|].
  - unfold getLinuxTimeMs. rewrite u64_small; lia.
  - unfold getCurrentTimeStamp. destruct t as [s ms]; cbn in *.
    rewrite <- (Z.div_unique _ 1000 s ms), <- (Z.mod_unique _ 1000 s ms) by lia. done.
Qed.

(** ** Witnesses *)
Definition demo_hash (x : list Z) : list Z := replicate 32 (zlen x mod 256).

Lemma demo_hash_length x : hash_sized (demo_hash x).
Proof. unfold hash_sized, demo_hash. by rewrite length_replicate. Qed.

Definition demo_tx (n : nat) : Transaction := {| tx_data := repeat 7 n |}.

Lemma merkle_root_binding_witness :
  let ts := [demo_tx 1; demo_tx 2; demo_tx 3] in
  let ts' := [demo_tx 1; demo_tx 2; {| tx_data := [8; 8; 8] |}] in
  exists h, tl_calculateTopMerkleRoot demo_hash (mkTransactionList ts) = Ok h /\
    tl_calculateTopMerkleRoot demo_hash (mkTransactionList ts') = Ok h /\
    collision demo_hash (root_input demo_hash ts) (root_input demo_hash ts').
Proof.
  intros ts ts'. destruct (merkle_root_binding demo_hash demo_hash_length ts ts') as (h & Hh & _ & Hbind);
    [discriminate|reflexivity|].
  assert (tl_calculateTopMerkleRoot demo_hash (mkTransactionList ts') = Ok h) as Hh'
    by (rewrite <- Hh; vm_compute; reflexivity).
  exists h. split; [exact Hh|]. split; [exact Hh'|]. by destruct (Hbind Hh') as [|Hc].
Defined.

Lemma transaction_list_roundtrip_witness :
  exists sizes bytes l', tl_serialize demo_hash true (mkTransactionList [demo_tx 1; demo_tx 2]) = (Ok bytes, l') /\
    tl_deserialize demo_hash sizes ([1; 2; 3] ++ bytes) (zlen [1; 2; 3]) true =
      Ok (mkTransactionList [demo_tx 1; demo_tx 2]).
Proof.
  destruct (transaction_list_roundtrip demo_hash demo_hash_length [demo_tx 1; demo_tx 2] true [1; 2; 3])
    as (sizes & bytes & l' & _ & H2 & _ & H4).
  - repeat constructor; discriminate.
  - reflexivity.
  - vm_compute. reflexivity.
  - exists sizes, bytes, l'. split; [exact H2|exact H4].
Defined.

Lemma transaction_list_parse_sound_witness :
  [1; 2] = tx_sizes demo_hash [demo_tx 1; demo_tx 2] false.
Proof.
  destruct (transaction_list_parse_sound demo_hash [1; 2] [9; 60; 7; 7; 7; 62] 1 false
    (mkTransactionList [demo_tx 1; demo_tx 2])) as (_ & H & _).
  - vm_compute. reflexivity.
  - reflexivity.
  - reflexivity.
  - exact H.
Defined.

Lemma partial_hashes_lookup_witness :
  exists p, createPartialHashesList demo_hash 2 [demo_tx 1; demo_tx 2] = Ok p /\
    getPartialHash p 1 = Ok (tx_getPartialHash demo_hash (demo_tx 2)).
Proof.
  destruct (partial_hashes_lookup demo_hash demo_hash_length [demo_tx 1; demo_tx 2]) as (p & Hp & Hl & _).
  exists p. split; [exact Hp|]. exact (Hl 1%nat (demo_tx 2) eq_refl).
Defined.

Lemma timestamp_increment_witness :
  TimeStamp_lt {| ts_s := 5; ts_ms := 999 |} (incrementByMs {| ts_s := 5; ts_ms := 999 |}) = true.
Proof.
  apply (timestamp_increment {| ts_s := 5; ts_ms := 999 |} {| ts_s := 6; ts_ms := 0 |});
    unfold valid_ts; cbn; lia.
Defined.
