(* ===== verification/Pricing.v ===== *)
(** * Gas price

    Model of the pricing strategies ([src/pricing]) and of the price database
    ([src/db/PriceDB.cpp]).  The price of a block is computed from the price of
    the block before it and from the number of transactions, and is stored; the
    arithmetic is on 256-bit unsigned words, with the mixed widths of the
    source.  The decimal conversions of [boost::multiprecision] are parameters. *)

From stdpp Require Import base tactics gmap list strings.
From Stdlib Require Import ZArith Lia.
From S2P Require Import Prelude Bytes LevelDb LevelDbSets.

Definition MAX_TRANSACTIONS_PER_BLOCK : Z := 8192.
Definition DEFAULT_MIN_PRICE : Z := 100000.

(** ** Strategies *)
Record DynamicPricingStrategy := mkDynamic {
  minPrice : Z;
  maxPrice : Z;
  optimalLoadPercentage : Z;
  adjustmentSpeed : Z
}.

(** The constructor's parameters are narrower than what the agent passes. *)
Definition newDynamicPricingStrategy (minPrice maxPrice optimalLoadPercentage adjustmentSpeed : Z) :
    DynamicPricingStrategy :=
  mkDynamic (u256 minPrice) (u256 maxPrice) (u32 optimalLoadPercentage) (u32 adjustmentSpeed).

Definition dynamicPrice (d : DynamicPricingStrategy) (previousPrice blockSize : Z) : Z :=
  let loadPercentage := u64 (blockSize * 100) / MAX_TRANSACTIONS_PER_BLOCK in
  let scaled := u256 (adjustmentSpeed d * previousPrice) in
  let price :=
    if loadPercentage <? optimalLoadPercentage d then
      u256 (previousPrice -
        u256 (scaled * u64 (optimalLoadPercentage d - loadPercentage)) / 1000000)
    else
      u256 (previousPrice +
        u256 (scaled * u64 (loadPercentage - optimalLoadPercentage d)) / 1000000) in
  let price := if price <? minPrice d then minPrice d else price in
  if maxPrice d <? price then maxPrice d else price.

Inductive PricingStrategy :=
  | Dynamic (d : DynamicPricingStrategy)
  | Zero.

Definition zeroPrice (previousPrice blockSize : Z) : Z := 0.

(** The virtual [calculatePrice]. *)
Definition strategyPrice (s : PricingStrategy) : Z -> Z -> Z :=
  match s with Dynamic d => dynamicPrice d | Zero => zeroPrice end.

(** ** The agent and its database *)

(** The node's configuration: [getParamString] and [getParamUint64] with their
    defaults. *)
Record node_params := {
  getParamString : string -> string -> string;
  getParamUint64 : string -> Z -> Z
}.

Definition mkPricingAgent (n : node_params) : res PricingStrategy :=
  let strategy := getParamString n "pricingStrategy" "DYNAMIC" in
  rcheck InvalidStateException (bool_decide (strategy <> ""%string)) ;;
  if bool_decide (strategy = "DYNAMIC"%string) then
    let minPrice := getParamUint64 n "DYNAMIC_PRICING_MIN_PRICE" DEFAULT_MIN_PRICE in
    let maxPrice := u64 (- getParamUint64 n "DYNAMIC_PRICING_MAX_PRICE" 1000000000) in
    let optimalLoadPercentage := getParamUint64 n "DYNAMIC_PRICING_OPTIMAL_LOAD_PERCENTAGE" 70 in
    let adjustmentSpeed := getParamUint64 n "DYNAMIC_PRICING_ADJUSTMENT_SPEED" 1000 in
    mret (Dynamic
      (newDynamicPricingStrategy minPrice maxPrice optimalLoadPercentage adjustmentSpeed))
  else if bool_decide (strategy = "ZERO"%string) then mret Zero
  else Err ParsingException.

Section Agent.
Context {D : Type} `{KVStore D}.
Context (cfg : db_config) (params : node_params) (strategy : PricingStrategy).
(** [u256::str()] and the constructor of [u256] from text. *)
Context (u256_str : Z -> string) (u256_parse : string -> res Z).

Definition startPrice : Z := getParamUint64 params "DYNAMIC_PRICING_START_PRICE" DEFAULT_MIN_PRICE.

Definition pdb_readPrice (blockID : Z) : M (level_db D) Z :=
  if blockID <=? 1 then mret startPrice
  else
    nested InvalidStateException
      (let key := createKey1 cfg blockID in
       CHECK_STATE (bool_decide (key <> ""%string)) ;;
       price ← readString key;
       if bool_decide (price = ""%string) then throw InvalidArgumentException
       else lift_res (u256_parse price)).

Definition pdb_savePrice (price blockID : Z) : M (level_db D) unit :=
  nested InvalidStateException
    (let key := createKey1 cfg blockID in
     CHECK_STATE (bool_decide (key <> ""%string)) ;;
     writeString cfg key (u256_str price) false).

Definition savePrice (price blockID : Z) : M (level_db D) unit := pdb_savePrice price blockID.

Definition readPrice (blockID : Z) : M (level_db D) Z := pdb_readPrice blockID.

Definition calculatePrice (blockSize blockID : Z) : M (level_db D) Z :=
  nested InvalidStateException
    (price ←
       (if blockID <=? 1 then mret startPrice
        else
          oldPrice ← readPrice (u64 (blockID - 1));
          mret (strategyPrice strategy oldPrice blockSize));
     savePrice price blockID ;;
     mret price).
End Agent.

(** ** The dynamic price *)
Definition clamp (lo hi x : Z) : Z := Z.min hi (Z.max lo x).

(** The price without machine words. *)
Definition ideal_price (d : DynamicPricingStrategy) (previousPrice blockSize : Z) : Z :=
  let load := blockSize * 100 / MAX_TRANSACTIONS_PER_BLOCK in
  let opt := optimalLoadPercentage d in
  clamp (minPrice d) (maxPrice d)
    (if load <? opt then previousPrice - adjustmentSpeed d * previousPrice * (opt - load) / 1000000
     else previousPrice + adjustmentSpeed d * previousPrice * (load - opt) / 1000000).

(** A configuration whose cut is never more than the whole price. *)
Definition sane (d : DynamicPricingStrategy) : Prop :=
  0 <= minPrice d <= maxPrice d /\ maxPrice d < 2 ^ 64 /\
  0 <= optimalLoadPercentage d < 2 ^ 32 /\ 0 <= adjustmentSpeed d < 2 ^ 32 /\
  adjustmentSpeed d * optimalLoadPercentage d <= 1000000.

Lemma dynamicPrice_clamped d p n :
  minPrice d <= maxPrice d -> minPrice d <= dynamicPrice d p n <= maxPrice d.
Proof.
  intros Hd. unfold dynamicPrice. cbv zeta.
  set (q := if _ <? optimalLoadPercentage d then _ else _).
  destruct (Z.ltb_spec q (minPrice d));
    match goal with |- context [?a <? ?b] => destruct (Z.ltb_spec a b) end; lia.
Qed.

Lemma clamp_ifs lo hi x :
  lo <= hi ->
  (if hi <? (if x <? lo then lo else x) then hi else if x <? lo then lo else x) = clamp lo hi x.
Proof.
  intros H. unfold clamp. destruct (Z.ltb_spec x lo);
    match goal with |- context [?a <? ?b] => destruct (Z.ltb_spec a b) end; lia.
Qed.

Lemma cut_small s p k : 0 <= s -> 0 <= p -> 0 <= k -> s * k <= 1000000 -> 0 <= s * p * k / 1000000 <= p.
Proof.
  intros. split; [apply Z.div_pos; nia|].
  apply Z.div_le_upper_bound; [lia|]. nia.
Qed.

Lemma dynamicPrice_ideal d p n :
  sane d -> 0 <= p < 2 ^ 64 -> 0 <= n <= MAX_TRANSACTIONS_PER_BLOCK ->
  dynamicPrice d p n = ideal_price d p n.
Proof.
  intros (Hmin & Hmax & Hopt & Hspeed & Hcut) Hp Hn. unfold MAX_TRANSACTIONS_PER_BLOCK in Hn.
  unfold dynamicPrice, ideal_price. cbv zeta. rewrite clamp_ifs by lia. f_equal.
  rewrite (u64_small (n * 100)) by lia.
  set (load := n * 100 / MAX_TRANSACTIONS_PER_BLOCK).
  assert (0 <= load <= 100) as Hload.
  { unfold load, MAX_TRANSACTIONS_PER_BLOCK. split; [apply Z.div_pos; lia|].
    apply Z.div_le_upper_bound; lia. }
  assert (0 <= adjustmentSpeed d * p < 2 ^ 96) as Hsp.
  { split; [nia|]. change (2 ^ 96) with (2 ^ 32 * 2 ^ 64). apply Z.mul_lt_mono_nonneg; lia. }
  rewrite (u256_small (adjustmentSpeed d * p)) by lia.
  set (opt := optimalLoadPercentage d) in *. set (sp := adjustmentSpeed d * p) in *.
  destruct (Z.ltb_spec load opt) as [Hlt|Hge].
  - pose proof (cut_small (adjustmentSpeed d) p (opt - load) ltac:(lia) ltac:(lia) ltac:(lia) ltac:(nia)).
    fold sp in H. rewrite (u64_small (opt - load)) by lia.
    assert (0 <= sp * (opt - load) < 2 ^ 96 * 2 ^ 32) as Hm
      by (split; [nia|apply Z.mul_lt_mono_nonneg; lia]).
    rewrite (u256_small (sp * _)) by lia. apply u256_small. lia.
  - rewrite (u64_small (load - opt)) by lia.
    assert (0 <= sp * (load - opt) < 2 ^ 96 * 2 ^ 7) as Hm
      by (split; [nia|apply Z.mul_lt_mono_nonneg; lia]).
    rewrite (u256_small (sp * _)) by lia. apply u256_small.
    assert (0 <= sp * (load - opt) / 1000000 <= sp * (load - opt)) as Hd.
    { split; [apply Z.div_pos; lia|]. apply Z.div_le_upper_bound; lia. }
    lia.
Qed.

(** The dynamic price of a block that is not larger than the limit is the
    price computed without machine words: nothing wraps around.  It stays
    between the minimum and the maximum, does not rise when the block is below
    the optimal load and does not fall when it is at or above it. *)
Theorem dynamic_price_sound d previousPrice blockSize :
  sane d -> minPrice d <= previousPrice <= maxPrice d ->
  0 <= blockSize <= MAX_TRANSACTIONS_PER_BLOCK ->
  let price := dynamicPrice d previousPrice blockSize in
  price = ideal_price d previousPrice blockSize /\
  minPrice d <= price <= maxPrice d /\
  (blockSize * 100 / MAX_TRANSACTIONS_PER_BLOCK < optimalLoadPercentage d -> price <= previousPrice) /\
  (optimalLoadPercentage d <= blockSize * 100 / MAX_TRANSACTIONS_PER_BLOCK -> previousPrice <= price).
Proof.
  intros Hsane Hp Hn. cbv zeta.
  assert (0 <= previousPrice < 2 ^ 64) as Hp' by (unfold sane in Hsane; lia).
  rewrite dynamicPrice_ideal by done. destruct Hsane as (Hmin & Hmax & Hopt & Hspeed & Hcut).
  unfold ideal_price, clamp. cbv zeta.
  assert (0 <= blockSize * 100 / MAX_TRANSACTIONS_PER_BLOCK) as Hload
    by (apply Z.div_pos; unfold MAX_TRANSACTIONS_PER_BLOCK; lia).
  set (load := blockSize * 100 / MAX_TRANSACTIONS_PER_BLOCK) in *.
  set (opt := optimalLoadPercentage d) in *.
  destruct (Z.ltb_spec load opt).
  - pose proof (cut_small (adjustmentSpeed d) previousPrice (opt - load)
      ltac:(lia) ltac:(lia) ltac:(lia) ltac:(nia)).
    split_and!; [done|lia..].
  - assert (0 <= adjustmentSpeed d * previousPrice * (load - opt) / 1000000)
      by (apply Z.div_pos; nia).
    split_and!; [done|lia..].
Qed.

(** A price in a word whatever the previous one. *)
Definition strategy_wf (s : PricingStrategy) : Prop :=
  match s with Dynamic d => 0 <= minPrice d <= maxPrice d /\ maxPrice d < 2 ^ 256 | Zero => True end.

Lemma strategyPrice_range s p n : strategy_wf s -> 0 <= strategyPrice s p n < 2 ^ 256.
Proof.
  destruct s as [d|]; [|unfold strategyPrice, zeroPrice; lia].
  intros [Hd Hmax]. pose proof (dynamicPrice_clamped d p n). unfold strategyPrice. lia.
Qed.

(** ** The chain of prices *)

(** The prices of the blocks [2 .. ] with these numbers of transactions, after
    a block with price [p]. *)
Fixpoint price_chain (s : PricingStrategy) (p : Z) (sizes : list Z) : list Z :=
  match sizes with
  | [] => []
  | n :: sizes => let q := strategyPrice s p n in q :: price_chain s q sizes
  end.

(** [calculatePrice] for consecutive blocks. *)
Fixpoint calculatePrices {D} `{KVStore D} cfg params s str parse (blockID : Z) (sizes : list Z) :
    M (level_db D) (list Z) :=
  match sizes with
  | [] => mret []
  | n :: sizes =>
      p ← calculatePrice cfg params s str parse n blockID;
      ps ← calculatePrices cfg params s str parse (blockID + 1) sizes;
      mret (p :: ps)
  end.

Section Chain.
Context {D : Type} `{HealthyStore D}.
Context (cfg : db_config) (params : node_params) (strategy : PricingStrategy).
Context (str : Z -> string) (parse : string -> res Z).
Context (parse_str : forall p, 0 <= p < 2 ^ 256 -> parse (str p) = Ok p).
Context (str_nonempty : forall p, str p <> ""%string).
Local Abbreviation state := (level_db D).
Implicit Types s : state.

Lemma savePrice_spec s price b :
  db_wf s ->
  wp (savePrice cfg str price b) s (fun r s' =>
    r = Ok tt /\ db_wf s' /\
    exists s1, db_retains s s1 /\ forall k, db_lookup s' k =
      if decide (k = createKey1 cfg b) then Some (default (str price) (db_lookup s1 k))
      else db_lookup s1 k).
Proof.
  intros Hwf. unfold savePrice, pdb_savePrice. wp_simpl.
  rewrite bool_decide_eq_true_2 by apply createKey1_nonempty. split; [intros _|done].
  eapply wp_mono; [by apply writeString_spec|]. cbv beta.
  intros r s' (-> & Hwf' & s1 & _ & Hret & Hk). split_and!; [done..|]. exists s1. split; [done|].
  intros k. rewrite Hk. case_decide; [by subst|done].
Qed.

Lemma readPrice_spec s p b (Q : res Z -> state -> Prop) :
  db_wf s -> 1 < b -> 0 <= p < 2 ^ 256 -> db_lookup s (createKey1 cfg b) = Some (str p) ->
  Q (Ok p) s -> wp (readPrice cfg params parse b) s Q.
Proof.
  intros Hwf Hb Hp Hl HQ. unfold readPrice, pdb_readPrice.
  rewrite (proj2 (Z.leb_gt b 1)) by lia. wp_simpl.
  rewrite bool_decide_eq_true_2 by apply createKey1_nonempty. split; [intros _|done].
  unfold readString. apply readString_spec; [done|]. rewrite Hl. cbn [default from_option id].
  rewrite bool_decide_eq_false_2 by apply str_nonempty. wp_simpl. by rewrite parse_str.
Qed.

(** The prices of the blocks before [b] that are still needed, and none after. *)
Definition price_inv s (b p : Z) : Prop :=
  db_wf s /\ 0 <= p < 2 ^ 256 /\
  (if b <=? 1 then p = startPrice params else db_lookup s (createKey1 cfg b) = Some (str p)) /\
  forall b', b < b' -> db_lookup s (createKey1 cfg b') = None.

Lemma retains_None s s1 k : db_retains s s1 -> db_lookup s k = None -> db_lookup s1 k = None.
Proof. intros Hret Hk. destruct (Hret k) as [->|[_ ?]]; done. Qed.

Lemma calculatePrice_spec s b p n :
  price_inv s b p -> 1 <= b < 2 ^ 64 - 1 -> 0 <= strategyPrice strategy p n < 2 ^ 256 ->
  wp (calculatePrice cfg params strategy str parse n (b + 1)) s (fun r s' =>
    r = Ok (strategyPrice strategy p n) /\ price_inv s' (b + 1) (strategyPrice strategy p n)).
Proof.
  intros (Hwf & Hp & Hb & Hnone) Hrange Hq. unfold calculatePrice. wp_simpl.
  rewrite (proj2 (Z.leb_gt (b + 1) 1)) by lia. wp_simpl.
  rewrite u64_small by lia. replace (b + 1 - 1) with b by lia.
  set (q := strategyPrice strategy p n) in *.
  assert (forall Q, Q (Ok p) s -> wp (readPrice cfg params parse b) s Q) as Hread.
  { intros Q HQ. destruct (Z.leb_spec b 1).
    - unfold readPrice, pdb_readPrice. rewrite (proj2 (Z.leb_le b 1)) by lia. wp_simpl. by rewrite <- Hb.
    - apply (readPrice_spec s p); try done. }
  apply Hread. wp_simpl. fold q.
  eapply wp_mono; [by apply savePrice_spec|]. cbv beta.
  intros r s' (-> & Hwf' & s1 & Hret & Hk). wp_simpl. split; [done|].
  split_and!; try done; try lia.
  - rewrite (proj2 (Z.leb_gt (b + 1) 1)) by lia. rewrite Hk, decide_True by done.
    by rewrite (retains_None s s1) by (try done; apply Hnone; lia).
  - intros b' Hb'. rewrite Hk, decide_False.
    + apply (retains_None s); [done|]. apply Hnone. lia.
    + intros Heq%createKey1_inj; lia.
Qed.

Lemma calculatePrices_spec s b p sizes :
  price_inv s b p -> 1 <= b -> b + zlen sizes < 2 ^ 64 ->
  strategy_wf strategy ->
  wp (calculatePrices cfg params strategy str parse (b + 1) sizes) s (fun r s' =>
    r = Ok (price_chain strategy p sizes) /\ db_wf s').
Proof.
  intros Hinv Hb Hlen Hstr. revert s b p Hinv Hb Hlen.
  induction sizes as [|n sizes IH]; intros s b p Hinv Hb Hlen; cbn [calculatePrices price_chain].
  { wp_simpl. split; [done|apply Hinv]. }
  assert (zlen (n :: sizes) = zlen sizes + 1) as Hz by (unfold zlen; cbn; lia). rewrite Hz in Hlen.
  pose proof (zlen_nonneg sizes).
  pose proof (strategyPrice_range strategy p n Hstr) as Hq.
  wp_simpl. eapply wp_mono; [apply (calculatePrice_spec s b p n); [done|lia|done]|]. cbv beta.
  intros r s' (-> & Hinv'). wp_simpl.
  eapply wp_mono; [apply (IH s' (b + 1) _ Hinv'); lia|]. cbv beta. intros r s'' (-> & ?).
  wp_simpl. done.
Qed.

(** A node that prices the blocks [1, 2, ...] of a chain in order, on a
    price database without prices, gets the start price for block [1] and for
    every later block the price that the strategy computes from the price of
    the block before and the number of transactions of the block: no read
    fails, also when the database rotates its shards in between.  The prices
    therefore are the same at every node. *)
Theorem price_chain_computed s n sizes :
  db_wf s -> (forall b, 0 < b -> db_lookup s (createKey1 cfg b) = None) ->
  0 <= startPrice params < 2 ^ 64 -> zlen sizes + 2 < 2 ^ 64 ->
  strategy_wf strategy ->
  wp (calculatePrices cfg params strategy str parse 1 (n :: sizes)) s (fun r s' =>
    r = Ok (startPrice params :: price_chain strategy (startPrice params) sizes) /\ db_wf s').
Proof.
  intros Hwf Hnone Hstart Hlen Hstr. cbn [calculatePrices]. unfold calculatePrice at 1. wp_simpl.
  change (1 <=? 1) with true. cbv iota. wp_simpl.
  eapply wp_mono; [by apply savePrice_spec|]. cbv beta.
  intros r s' (-> & Hwf' & s1 & Hret & Hk). wp_simpl. cbn [rnested]. wp_simpl.
  eapply wp_mono; [apply (calculatePrices_spec s' 1 (startPrice params)); [|lia|lia|done]|].
  - split_and!; try done; try lia. intros b' Hb'. rewrite Hk, decide_False.
    + apply (retains_None s); [done|]. apply Hnone. lia.
    + intros Heq%createKey1_inj; lia.
  - cbv beta. intros r s'' (-> & ?). wp_simpl. done.
Qed.
End Chain.

(** ** Witnesses *)
Definition default_params : node_params :=
  {| getParamString _ d := d; getParamUint64 _ d := d |}.

Definition default_strategy : DynamicPricingStrategy :=
  mkDynamic 100000 (2 ^ 64 - 1000000000) 70 1000.

(** The maximum is the negated parameter. *)
Lemma mkPricingAgent_default : mkPricingAgent default_params = Ok (Dynamic default_strategy).
Proof. vm_compute. reflexivity. Qed.

Lemma default_strategy_sane : sane default_strategy.
Proof. unfold sane, default_strategy; cbn; lia. Qed.

Definition demo_parse (s : string) : res Z := Ok (read_digits s 0 false).1.

Lemma demo_parse_str p : 0 <= p < 2 ^ 256 -> demo_parse (to_string p) = Ok p.
Proof. intros Hp. unfold demo_parse. by rewrite read_digits_to_string by lia. Qed.

Lemma dynamic_price_sound_witness :
  dynamicPrice default_strategy 200000 0 <= 200000 /\ dynamicPrice default_strategy 200000 0 = 186000.
Proof.
  split; [|vm_compute; reflexivity].
  apply (dynamic_price_sound default_strategy 200000 0 default_strategy_sane);
    vm_compute; repeat split; congruence.
Defined.

Lemma price_chain_computed_witness :
  wp (calculatePrices demo_config default_params (Dynamic default_strategy) to_string demo_parse 1
        [5; 8000; 8192]) empty_db (fun r s' => r = Ok [100000; 102700; 105781] /\ db_wf s').
Proof.
  exact (price_chain_computed demo_config default_params (Dynamic default_strategy) to_string demo_parse
    demo_parse_str to_string_nonempty empty_db 5 [8000; 8192] empty_db_wf
    (fun b _ => eq_refl) ltac:(vm_compute; split; congruence) ltac:(vm_compute; reflexivity)
    ltac:(vm_compute; repeat split; congruence)).
Defined.
