(* ===== verification/PendingQueue.v ===== *)
(** * Known transactions

    Model of [PendingTransactionsAgent]
    ([src/pendingqueue/PendingTransactionsAgent.cpp]): the cache of known
    transactions by partial hash, from which the compressed proposals of other
    nodes are reconstructed, and the loop that polls the application for the
    transactions of the next proposal. *)

From stdpp Require Import base tactics gmap list strings.
From Stdlib Require Import ZArith Lia.
From S2P Require Import Prelude Bytes Transactions.

Definition KNOWN_TRANSACTIONS_HISTORY : Z := 2 * 8192.
Definition MAX_KNOWN_TRANSACTIONS_TOTAL_SIZE : Z := 256 * 1024 * 1024.

Record pending_queue := mkPending {
  knownTransactions : gmap (list Z) Transaction;
  knownTransactionsQueue : list Transaction;
  knownTransactionsTotalSize : Z
}.

Section Pending.
Context (blake3 : list Z -> list Z).
Local Abbreviation phash := (tx_getPartialHash blake3).

Definition getKnownTransactionByPartialHash (hash : list Z) : M pending_queue (option Transaction) :=
  gets (fun s => knownTransactions s !! hash).

Definition over_limits (s : pending_queue) : bool :=
  (KNOWN_TRANSACTIONS_HISTORY <? zsize (knownTransactions s)) ||
  (MAX_KNOWN_TRANSACTIONS_TOTAL_SIZE <? knownTransactionsTotalSize s).

(** The body of the loop; [front()] of an empty queue is undefined, a null
    pointer at best. *)
Definition dropOldest : M pending_queue unit :=
  s ← get;
  match knownTransactionsQueue s with
  | [] => throw InvalidStateException
  | tx :: queue =>
      data ← lift_res (tx_getData tx);
      modify (fun s => mkPending (knownTransactions s) (knownTransactionsQueue s)
        (u64 (knownTransactionsTotalSize s - (zlen data + PARTIAL_HASH_LEN)))) ;;
      CHECK_STATE (bool_decide (is_Some (knownTransactions s !! phash tx))) ;;
      modify (fun s => mkPending (delete (phash tx) (knownTransactions s)) queue
        (knownTransactionsTotalSize s))
  end.

Fixpoint dropLoop (fuel : nat) : M pending_queue unit :=
  s ← get;
  if over_limits s then
    match fuel with
    | O => throw OutOfFuel
    | S fuel => dropOldest ;; dropLoop fuel
    end
  else mret tt.

Definition pushKnownTransaction (tx : Transaction) : M pending_queue unit :=
  s ← get;
  if bool_decide (is_Some (knownTransactions s !! phash tx)) then mret tt
  else
    modify (fun s => mkPending (<[phash tx := tx]> (knownTransactions s))
      (knownTransactionsQueue s ++ [tx]) (knownTransactionsTotalSize s)) ;;
    s ← get;
    CHECK_STATE (zsize (knownTransactions s) =? zlen (knownTransactionsQueue s)) ;;
    data ← lift_res (tx_getData tx);
    modify (fun s => mkPending (knownTransactions s) (knownTransactionsQueue s)
      (u64 (knownTransactionsTotalSize s + (zlen data + PARTIAL_HASH_LEN)))) ;;
    dropLoop (S (length (knownTransactionsQueue s))).

Definition getKnownTransactionsSize : M pending_queue Z :=
  s ← get;
  CHECK_STATE (zsize (knownTransactions s) =? zlen (knownTransactionsQueue s)) ;;
  mret (zsize (knownTransactions s)).

(** ** The transactions of a proposal *)

(** One turn of the polling loop: what the application returned, and the clock
    after it; or the exit that [exitCheck] found. *)
Inductive poll :=
  | PollExit
  | Poll (txVector : list (list Z)) (stateRoot : Z) (timeMs : Z).

Record poll_config := {
  getMaxTransactionsPerBlock : Z;
  getEmptyBlockIntervalMs : Z;
  getEmptyBlockIntervalAfterCatchupMs : Z;
  lastCommittedBlockID : Z
}.

Definition emptyBlockTimeMs (c : poll_config) (isCalledAfterCatchup : bool) : Z :=
  if isCalledAfterCatchup
  then Z.min (getEmptyBlockIntervalAfterCatchupMs c) (getEmptyBlockIntervalMs c)
  else getEmptyBlockIntervalMs c.

(** The loop over the polls that the application answers, [None] while it is
    still waiting after the last of them. *)
Fixpoint pollLoop (c : poll_config) (isCalledAfterCatchup : bool) (startTimeMs : Z)
    (polls : list poll) : res (option (list (list Z) * Z)) :=
  match polls with
  | [] => Ok None
  | PollExit :: _ => Err ExitRequestedException
  | Poll txVector stateRoot finishTime :: polls =>
      let diffTime := u64 (finishTime - startTimeMs) in
      if (lastCommittedBlockID c =? 0) || (emptyBlockTimeMs c isCalledAfterCatchup <=? diffTime)
      then Ok (Some (txVector, stateRoot))
      else if bool_decide (txVector = [])
      then pollLoop c isCalledAfterCatchup startTimeMs polls
      else Ok (Some (txVector, stateRoot))
  end.

(** The loop that makes and remembers the transactions. *)
Fixpoint pushTransactions (txVector : list (list Z)) : M pending_queue (list Transaction) :=
  match txVector with
  | [] => mret []
  | e :: txVector =>
      pt ← lift_res (tx_deserialize blake3 e 0 (zlen e) false);
      pushKnownTransaction pt ;;
      result ← pushTransactions txVector;
      mret (pt :: result)
  end.

Definition createTransactionsListForProposal (c : poll_config) (isCalledAfterCatchup : bool)
    (startTimeMs : Z) (polls : list poll) : M pending_queue (option (list Transaction * Z)) :=
  r ← lift_res (pollLoop c isCalledAfterCatchup startTimeMs polls);
  match r with
  | None => mret None
  | Some (txVector, stateRoot) =>
      result ← pushTransactions txVector; mret (Some (result, stateRoot))
  end.

(** ** The invariant *)
Definition tx_cost (t : Transaction) : Z := zlen (tx_data t) + PARTIAL_HASH_LEN.

Definition cost (ts : list Transaction) : Z := foldr (fun t n => tx_cost t + n) 0 ts.

Definition index_of (ts : list Transaction) : gmap (list Z) Transaction :=
  list_to_map (map (fun t => (phash t, t)) ts).

(** Map, queue and total size describe the same transactions. *)
Definition synced (s : pending_queue) : Prop :=
  Forall valid_tx (knownTransactionsQueue s) /\
  NoDup (map phash (knownTransactionsQueue s)) /\
  knownTransactions s = index_of (knownTransactionsQueue s) /\
  knownTransactionsTotalSize s = cost (knownTransactionsQueue s).

Definition within (ts : list Transaction) : bool :=
  (zlen ts <=? KNOWN_TRANSACTIONS_HISTORY) && (cost ts <=? MAX_KNOWN_TRANSACTIONS_TOTAL_SIZE).

(** The specification of the eviction: from the front, as long as a limit is
    exceeded. *)
Fixpoint evict (ts : list Transaction) : list Transaction :=
  match ts with
  | [] => []
  | t :: ts' => if within ts then ts else evict ts'
  end.

Lemma cost_app ts us : cost (ts ++ us) = cost ts + cost us.
Proof. induction ts as [|t ts IH]; [done|]. cbn [app]. unfold cost in *. cbn. lia. Qed.

Lemma tx_cost_pos t : 0 < tx_cost t.
Proof. unfold tx_cost, PARTIAL_HASH_LEN. pose proof (zlen_nonneg (tx_data t)). lia. Qed.

Lemma cost_nonneg ts : 0 <= cost ts.
Proof. induction ts as [|t ts IH]; [done|]. cbn. pose proof (tx_cost_pos t). unfold cost in *. lia. Qed.

Lemma index_of_keys ts : map fst (map (fun t => (phash t, t)) ts) = map phash ts.
Proof. by rewrite map_map. Qed.

Lemma index_of_lookup ts h t :
  NoDup (map phash ts) -> index_of ts !! h = Some t <-> t ∈ ts /\ h = phash t.
Proof.
  intros Hnd. unfold index_of.
  rewrite <- elem_of_list_to_map by (change (NoDup (map fst (map (fun t => (phash t, t)) ts)));
    by rewrite index_of_keys).
  rewrite list_elem_of_fmap. naive_solver.
Qed.

Lemma index_of_None ts h : index_of ts !! h = None <-> h ∉ map phash ts.
Proof.
  unfold index_of. rewrite <- index_of_keys.
  split; [apply not_elem_of_list_to_map_2|apply not_elem_of_list_to_map_1].
Qed.

Lemma zsize_index_of ts : NoDup (map phash ts) -> zsize (index_of ts) = zlen ts.
Proof.
  intros Hnd. unfold zsize, zlen, index_of. rewrite map_size_list_to_map.
  - by rewrite length_map.
  - change (NoDup (map fst (map (fun t => (phash t, t)) ts))). by rewrite index_of_keys.
Qed.

Lemma index_of_delete t ts :
  NoDup (map phash (t :: ts)) -> delete (phash t) (index_of (t :: ts)) = index_of ts.
Proof.
  cbn [map]. intros [Hn _]%NoDup_cons. unfold index_of. cbn [map list_to_map foldr].
  apply delete_insert_id. by apply index_of_None.
Qed.

Lemma index_of_snoc t ts :
  NoDup (map phash (ts ++ [t])) -> index_of (ts ++ [t]) = <[phash t := t]> (index_of ts).
Proof.
  intros Hnd. unfold index_of. rewrite map_app, list_to_map_app. cbn.
  rewrite insert_empty, insert_union_singleton_l.
  apply map_union_comm, map_disjoint_singleton_r, index_of_None.
  rewrite map_app in Hnd. apply NoDup_app in Hnd as (_ & Hnd & _).
  intros Hin. apply (Hnd _ Hin). apply list_elem_of_here.
Qed.

Lemma synced_over_limits s :
  synced s -> over_limits s = negb (within (knownTransactionsQueue s)).
Proof.
  intros (_ & Hnd & Hm & Ht). unfold over_limits, within. rewrite Hm, Ht, zsize_index_of by done.
  by rewrite negb_andb, <- !Z.ltb_antisym.
Qed.

Lemma tx_getData_valid t : valid_tx t -> tx_getData t = Ok (tx_data t).
Proof. intros Hv%valid_zlen. unfold tx_getData. by rewrite (proj2 (Z.ltb_lt _ _) Hv). Qed.

Lemma dropOldest_spec s t ts :
  synced s -> knownTransactionsQueue s = t :: ts -> cost (t :: ts) < 2 ^ 64 ->
  wp dropOldest s (fun r s' => r = Ok tt /\ synced s' /\ knownTransactionsQueue s' = ts).
Proof.
  intros (Hv & Hnd & Hm & Ht) Hq Hc. rewrite Hq in *. apply Forall_cons in Hv as [Hv Hvs].
  pose proof (tx_cost_pos t). pose proof (cost_nonneg ts).
  assert (cost (t :: ts) = tx_cost t + cost ts) as Hcons by done.
  unfold dropOldest. wp_simpl. rewrite Hq. wp_simpl. rewrite tx_getData_valid by done. wp_simpl.
  assert (bool_decide (is_Some (knownTransactions s !! phash t)) = true) as ->.
  { apply bool_decide_eq_true_2. rewrite Hm. exists t. apply index_of_lookup; [done|].
    split; [apply list_elem_of_here|done]. }
  split; [intros _|done]. split; [done|]. split; [|done].
  unfold synced. cbn [knownTransactions knownTransactionsQueue knownTransactionsTotalSize].
  split_and!; [done|by apply NoDup_cons in Hnd as [_ ?]| |].
  - by rewrite Hm, index_of_delete.
  - change (zlen (tx_data t) + PARTIAL_HASH_LEN) with (tx_cost t).
    rewrite Ht, Hcons, u64_small by lia. lia.
Qed.

Lemma dropLoop_spec fuel s :
  synced s -> cost (knownTransactionsQueue s) < 2 ^ 64 ->
  (length (knownTransactionsQueue s) <= fuel)%nat ->
  wp (dropLoop fuel) s (fun r s' =>
    r = Ok tt /\ synced s' /\ knownTransactionsQueue s' = evict (knownTransactionsQueue s)).
Proof.
  revert s. induction fuel as [|fuel IH]; intros s Hs Hc Hf; cbn [dropLoop]; wp_simpl;
    rewrite (synced_over_limits s Hs); destruct (knownTransactionsQueue s) as [|t ts] eqn:Hq;
    cbn [evict length] in *; try lia; try (change (within []) with true; cbn [negb]; by wp_simpl).
  destruct (within (t :: ts)) eqn:Hw; cbn [negb].
  - by wp_simpl.
  - wp_simpl. eapply wp_mono; [by apply (dropOldest_spec s t ts)|]. cbv beta.
    intros r s' (-> & Hs' & Hq'). rewrite <- Hq'. apply IH; [done| |rewrite Hq'; lia].
    rewrite Hq'. pose proof (tx_cost_pos t). cbn in Hc. unfold cost in *. lia.
Qed.

Lemma evict_within ts : within (evict ts) = true.
Proof. induction ts as [|t ts IH]; [done|]. cbn [evict]. by destruct (within (t :: ts)) eqn:Hw. Qed.

Lemma evict_suffix ts : exists dropped, ts = dropped ++ evict ts.
Proof.
  induction ts as [|t ts [d IH]]; [by exists []|]. cbn [evict]. destruct (within (t :: ts)).
  - by exists [].
  - exists (t :: d). cbn. by rewrite <- IH.
Qed.

(** What the cache is after a push. *)
Definition pushed (queue : list Transaction) (t : Transaction) : list Transaction :=
  if bool_decide (phash t ∈ map phash queue) then queue else evict (queue ++ [t]).

Lemma pushKnownTransaction_spec s t :
  synced s -> within (knownTransactionsQueue s) = true -> valid_tx t -> zlen (tx_data t) < 2 ^ 63 ->
  wp (pushKnownTransaction t) s (fun r s' =>
    r = Ok tt /\ synced s' /\ within (knownTransactionsQueue s') = true /\
    knownTransactionsQueue s' = pushed (knownTransactionsQueue s) t).
Proof.
  intros Hs Hw Hvt Hlen. pose proof Hs as (Hv & Hnd & Hm & Ht). unfold pushKnownTransaction, pushed.
  wp_simpl. destruct (knownTransactions s !! phash t) as [u|] eqn:Hl; rewrite Hm in Hl.
  - rewrite bool_decide_eq_true_2 by done. wp_simpl. split_and!; [done..|].
    rewrite bool_decide_eq_true_2; [done|]. apply index_of_lookup in Hl as [Hu ->]; [|done].
    by apply list_elem_of_fmap_2.
  - rewrite bool_decide_eq_false_2 by (by intros [? ?]). apply index_of_None in Hl.
    rewrite bool_decide_eq_false_2 by done. wp_simpl.
    set (ts := knownTransactionsQueue s) in *.
    assert (NoDup (map phash (ts ++ [t]))) as Hnd'.
    { rewrite map_app. apply NoDup_app. split_and!; [done| |apply NoDup_singleton].
      intros h Hh ->%list_elem_of_singleton. done. }
    cbn [knownTransactions knownTransactionsQueue]. rewrite Hm, <- index_of_snoc, zsize_index_of by done.
    rewrite Z.eqb_refl. split; [intros _|done]. wp_simpl. rewrite tx_getData_valid by done. wp_simpl.
    set (s1 := mkPending _ _ _).
    assert (cost (ts ++ [t]) = cost ts + tx_cost t) as Hc by (rewrite cost_app; cbn; lia).
    pose proof (cost_nonneg ts). pose proof (tx_cost_pos t).
    assert (cost ts + tx_cost t < 2 ^ 64) as Hsum.
    { unfold within in Hw. apply andb_true_iff in Hw as [_ Hw%Z.leb_le].
      unfold MAX_KNOWN_TRANSACTIONS_TOTAL_SIZE in Hw. unfold tx_cost, PARTIAL_HASH_LEN in *. lia. }
    assert (synced s1) as Hs1.
    { unfold synced, s1. cbn [knownTransactions knownTransactionsQueue knownTransactionsTotalSize].
      split_and!; [by apply Forall_app_2; [|apply Forall_singleton]|done|done|].
      change (zlen (tx_data t) + PARTIAL_HASH_LEN) with (tx_cost t).
      rewrite Ht. fold ts. rewrite u64_small by lia. lia. }
    eapply wp_mono; [apply dropLoop_spec; [done|unfold s1; cbn [knownTransactionsQueue]; lia|cbn; lia]|].
    cbv beta.
    intros r s' (-> & Hs' & Hq). split_and!; [done..| |done]. rewrite Hq. apply evict_within.
Qed.

(** The cache of known transactions keeps its map, its queue and its total
    size in step and within the limits: pushing a transaction never fails a
    check, is a no-op for a known partial hash, and otherwise appends it and
    drops the oldest ones as long as a limit is exceeded.  Afterwards exactly
    the queued transactions are found under their partial hashes. *)
Theorem known_transactions_cache s t :
  synced s -> within (knownTransactionsQueue s) = true -> valid_tx t -> zlen (tx_data t) < 2 ^ 63 ->
  wp (pushKnownTransaction t ;; getKnownTransactionsSize) s (fun r s' =>
    r = Ok (zlen (knownTransactionsQueue s')) /\ synced s' /\
    within (knownTransactionsQueue s') = true /\
    knownTransactionsQueue s' = pushed (knownTransactionsQueue s) t /\
    forall h u, (getKnownTransactionByPartialHash h s').1 = Ok (Some u) <->
      u ∈ pushed (knownTransactionsQueue s) t /\ h = phash u).
Proof.
  intros Hs Hw Hv Hlen. wp_simpl. eapply wp_mono; [by apply pushKnownTransaction_spec|]. cbv beta.
  intros r s' (-> & Hs' & Hw' & Hq). unfold getKnownTransactionsSize. wp_simpl.
  pose proof Hs' as (_ & Hnd & Hm & _). rewrite Hm, zsize_index_of, Z.eqb_refl by done.
  split; [intros _|done]. split_and!; [done..|]. intros h u. rewrite <- Hq.
  unfold getKnownTransactionByPartialHash, gets. cbn [fst]. rewrite Hm.
  rewrite <- (index_of_lookup _ h u) by done. split; [by intros [= ->]|by intros ->].
Qed.

(** ** The proposal *)
Lemma pushTransactions_spec s vs :
  synced s -> within (knownTransactionsQueue s) = true ->
  Forall (fun e => e <> [] /\ zlen e < 2 ^ 63) vs ->
  wp (pushTransactions vs) s (fun r s' =>
    r = Ok (map Build_Transaction vs) /\ synced s' /\ within (knownTransactionsQueue s') = true /\
    knownTransactionsQueue s' = foldl pushed (knownTransactionsQueue s) (map Build_Transaction vs)).
Proof.
  intros Hs Hw Hvs. revert s Hs Hw. induction Hvs as [|e vs [He Hlen] _ IH]; intros s Hs Hw;
    cbn [pushTransactions map foldl]; wp_simpl; [done|].
  assert (tx_deserialize blake3 e 0 (zlen e) false = Ok {| tx_data := e |}) as ->.
  { assert (0 < zlen e) as Hpos by (destruct e; [done|unfold zlen; cbn; lia]).
    unfold tx_deserialize. rewrite Z.add_0_l, u64_small by lia.
    rewrite Z.leb_refl, (proj2 (Z.ltb_lt _ _) Hpos). cbn [rcheck mbind res_bind].
    replace (slice e 0 (zlen e)) with e.
    - unfold mkTransaction. rewrite (proj2 (Z.ltb_lt _ _) Hpos).
      cbn [rcheck mbind res_bind mret res_ret tx_data]. by rewrite (proj2 (Z.ltb_lt _ _) Hpos).
    - unfold slice, zlen. cbn [drop Z.to_nat]. by rewrite Nat2Z.id, take_ge. }
  wp_simpl. eapply wp_mono; [by apply pushKnownTransaction_spec|]. cbv beta.
  intros r s1 (-> & Hs1 & Hw1 & Hq1). wp_simpl. eapply wp_mono; [by apply IH|]. cbv beta.
  intros r s2 (-> & Hs2 & Hw2 & Hq2). wp_simpl. split_and!; [done..|]. by rewrite Hq2, Hq1.
Qed.

(** [i] is the first poll that ends the loop. *)
Definition ends (c : poll_config) (catchup : bool) (start : Z) (p : poll) : bool :=
  match p with
  | PollExit => true
  | Poll vs _ time => (lastCommittedBlockID c =? 0) ||
      (emptyBlockTimeMs c catchup <=? u64 (time - start)) || negb (bool_decide (vs = []))
  end.

Lemma pollLoop_spec c catchup start waiting p rest :
  Forall (fun q => ends c catchup start q = false) waiting -> ends c catchup start p = true ->
  pollLoop c catchup start (waiting ++ p :: rest) =
    match p with PollExit => Err ExitRequestedException | Poll vs root _ => Ok (Some (vs, root)) end.
Proof.
  intros Hw Hp. induction Hw as [|q waiting Hq _ IH]; cbn [app pollLoop].
  - destruct p as [|vs root time]; [done|]. cbn [ends] in Hp.
    cbv zeta. match goal with |- (if ?b then _ else _) = _ => destruct b; [done|] end.
    cbn [orb] in Hp. apply negb_true_iff in Hp. by rewrite Hp.
  - destruct q as [|vs root time]; [done|]. cbn [ends] in Hq.
    apply orb_false_iff in Hq as [-> Hq]. apply negb_false_iff in Hq. cbv iota. by rewrite Hq.
Qed.

(** The proposal gets the transactions of the first poll that returns some
    or comes when the interval for empty blocks is over (at once for the first
    block), in order and unchanged, with the state root of that poll; each of
    them is then a known transaction unless it was evicted. *)
Theorem proposal_transactions s c catchup start waiting vs root time rest :
  synced s -> within (knownTransactionsQueue s) = true ->
  Forall (fun q => ends c catchup start q = false) waiting ->
  ends c catchup start (Poll vs root time) = true ->
  Forall (fun e => e <> [] /\ zlen e < 2 ^ 63) vs ->
  wp (createTransactionsListForProposal c catchup start (waiting ++ Poll vs root time :: rest)) s
    (fun r s' =>
      r = Ok (Some (map Build_Transaction vs, root)) /\ synced s' /\
      within (knownTransactionsQueue s') = true /\
      knownTransactionsQueue s' =
        foldl pushed (knownTransactionsQueue s) (map Build_Transaction vs)).
Proof.
  intros Hs Hw Hwait Hend Hvs. unfold createTransactionsListForProposal. wp_simpl.
  rewrite pollLoop_spec by done. wp_simpl.
  eapply wp_mono; [by apply pushTransactions_spec|]. cbv beta. intros r s' (-> & ? & ? & ?).
  by wp_simpl.
Qed.
End Pending.

(** ** Witnesses *)
Definition demo_pending : pending_queue := mkPending ∅ [] 0.

Lemma demo_pending_synced : synced demo_hash demo_pending.
Proof. unfold synced. cbn. split_and!; [constructor|constructor|done|done]. Qed.

Lemma known_transactions_cache_witness :
  exists s', (pushKnownTransaction demo_hash (demo_tx 3) demo_pending) = (Ok tt, s') /\
    within (knownTransactionsQueue
      ((pushKnownTransaction demo_hash (demo_tx 3) ;; getKnownTransactionsSize) demo_pending).2) = true.
Proof.
  eexists. split; [vm_compute; reflexivity|].
  destruct (known_transactions_cache demo_hash demo_pending (demo_tx 3) demo_pending_synced eq_refl)
    as (_ & _ & H & _); [discriminate|reflexivity|exact H].
Defined.

Definition demo_poll_config : poll_config :=
  {| getMaxTransactionsPerBlock := 10; getEmptyBlockIntervalMs := 3000;
     getEmptyBlockIntervalAfterCatchupMs := 1000; lastCommittedBlockID := 4 |}.

Lemma proposal_transactions_witness :
  (createTransactionsListForProposal demo_hash demo_poll_config false 100
     ([Poll [] 1 110; Poll [] 1 150] ++ Poll [[7]; [8; 9]] 5 300 :: []) demo_pending).1 =
  Ok (Some ([Build_Transaction [7]; Build_Transaction [8; 9]], 5)).
Proof.
  destruct (proposal_transactions demo_hash demo_pending demo_poll_config false 100
    [Poll [] 1 110; Poll [] 1 150] [[7]; [8; 9]] 5 300 [] demo_pending_synced eq_refl) as (H & _).
  - repeat constructor.
  - reflexivity.
  - repeat constructor; discriminate.
  - exact H.
Defined.
