(* ===== verification/ProtocolDbs.v ===== *)
(** * The databases of the proposal phase

    Models of [ProposalHashDB], [ProposalVectorDB], [DAProofDB] and
    [DASigShareDB] ([src/db]), each a [CacheLevelDB]: the hash that a node keeps
    for every proposer, so that a proposer cannot get two proposals for a block
    accepted; the vector with which a node started the consensus of a block,
    which it never replaces; and the data availability proofs.  The threshold
    cryptography behind [CryptoManager] is a parameter. *)

From stdpp Require Import base tactics gmap list strings.
From Stdlib Require Import ZArith Lia.
From S2P Require Import Prelude Bytes LevelDb LevelDbSets ProposalVector.

Section Operations.
Context {D : Type} `{KVStore D}.
Context (cfg : db_config).
Local Abbreviation state := (level_db D).

(** ** ProposalHashDB *)
Definition phdb_construct (schainIndex : Z) : M state unit :=
  index ← readString "schainIndex";
  if bool_decide (index = ""%string)
  then writeString cfg "schainIndex" (to_string schainIndex) false
  else if bool_decide (to_string schainIndex <> index) then throw FatalError else mret tt.

Definition checkAndSaveHash (proposalBlockID proposerIndex : Z) (proposalHash : string) :
    M state bool :=
  CHECK_ARGUMENT (bool_decide (proposalHash <> ""%string)) ;;
  nested_all InvalidStateException
    (let key := createKey2 cfg proposalBlockID proposerIndex in
     CHECK_STATE (bool_decide (key <> ""%string)) ;;
     previous ← readString key;
     if bool_decide (previous = ""%string)
     then writeString cfg key proposalHash false ;; mret true
     else mret (bool_decide (previous = proposalHash))).

Definition haveProposal (proposalBlockID proposerIndex : Z) : M state bool :=
  nested_all InvalidStateException
    (let key := createKey2 cfg proposalBlockID proposerIndex in
     CHECK_STATE (bool_decide (key <> ""%string)) ;;
     previous ← readString key;
     mret (bool_decide (previous <> ""%string))).

(** ** ProposalVectorDB *)
Definition trySavingProposalVector (proposalBlockID : Z) (v : BooleanProposalVector) :
    M state bool :=
  proposalString ← lift_res (vectorToString v);
  CHECK_STATE (bool_decide (proposalString <> ""%string)) ;;
  nested_all InvalidStateException
    (let key := createKey1 cfg proposalBlockID in
     CHECK_STATE (bool_decide (key <> ""%string)) ;;
     previous ← readString key;
     if bool_decide (previous = ""%string)
     then writeString cfg key proposalString false ;; mret true
     else mret false).

Definition getVector (nodeCount blockID : Z) : M state (option BooleanProposalVector) :=
  nested_all InvalidStateException
    (let key := createKey1 cfg blockID in
     CHECK_STATE (bool_decide (key <> ""%string)) ;;
     value ← readString key;
     if bool_decide (value = ""%string) then mret None
     else v ← lift_res (mkVectorFromString nodeCount value); mret (Some v)).

(** ** DAProofDB *)
Record DAProof := {
  da_blockID : Z;
  da_proposerIndex : Z;
  da_hash : list Z;
  da_thresholdSig : string
}.

Definition haveDAProof (blockID proposerIndex : Z) : M state bool :=
  keyExistsInSet cfg blockID proposerIndex.

Definition getDASig (blockId proposerIndex : Z) : M state string :=
  readStringFromSet cfg blockId proposerIndex.

Definition addDAProof (p : DAProof) : M state (option BooleanProposalVector) :=
  daProofSet ← writeStringToSet cfg (da_thresholdSig p) (da_blockID p) (da_proposerIndex p);
  match daProofSet with
  | None => mret None
  | Some proofs =>
      CHECK_STATE (zsize proofs =? dc_requiredSigners cfg) ;;
      mret (Some (mkVectorFromProofs (dc_totalSigners cfg) proofs))
  end.

Definition getCurrentProposalVector (blockID : Z) : M state BooleanProposalVector :=
  daProofSet ← readSet cfg blockID;
  mret (mkVectorFromProofs (dc_totalSigners cfg) daProofSet).

Definition isEnoughProofs (blockID : Z) : M state bool := isEnough cfg blockID.

(** ** DASigShareDB *)

(** A signature share and the proposal that it signs, as far as the database
    looks at them. *)
Record DaSigShare := { ss_text : string; ss_blockId : Z; ss_signerIndex : Z }.
Record DaProposal := { dp_blockID : Z; dp_proposerIndex : Z; dp_hash : list Z; dp_timeStampS : Z }.

(** [createDAProofSigShare] and [addSigShare] for one entry, [mergeSignature],
    and [verifyDAProofThresholdSig]. *)
Context (share : Type) (createDAProofSigShare : string -> Z -> Z -> Z -> res share).
Context (mergeSignature : Z -> Z -> list share -> res string).
Context (verifyDAProofThresholdSig : list Z -> string -> Z -> Z -> res unit).

Fixpoint collectShares (p : DaProposal) (entries : list (Z * string)) : res (list share) :=
  match entries with
  | [] => Ok []
  | (i, s) :: entries =>
      x ← createDAProofSigShare s (dp_blockID p) i (dp_timeStampS p);
      xs ← collectShares p entries;
      Ok (x :: xs)
  end.

Definition addAndMergeSigShareAndVerifySig (s : DaSigShare) (p : DaProposal) :
    M state (option DAProof) :=
  result ← writeStringToSet cfg (ss_text s) (ss_blockId s) (ss_signerIndex s);
  match result with
  | None => mret None
  | Some entries =>
      shares ← lift_res (collectShares p (map_items entries));
      sig ← lift_res (mergeSignature (ss_blockId s) (dp_timeStampS p) shares);
      lift_res (verifyDAProofThresholdSig (dp_hash p) sig (ss_blockId s) (dp_timeStampS p)) ;;
      mret (Some {| da_blockID := dp_blockID p; da_proposerIndex := dp_proposerIndex p;
                    da_hash := dp_hash p; da_thresholdSig := sig |})
  end.
End Operations.

(** ** Read-or-write

    The pattern of the first two databases. *)
Section FirstValue.
Context {D : Type} `{HealthyStore D}.
Context (cfg : db_config).
Local Abbreviation state := (level_db D).
Implicit Types (s : state) (k v : string).

(** An entry counts if it is not empty. *)
Definition entry s k : option string :=
  match db_lookup s k with Some ""%string => None | o => o end.

(** After a read-or-write of [v] at [k]. *)
Definition first_value s s' k v : Prop :=
  db_wf s' /\ entry s' k = Some (default v (entry s k)) /\
  exists s1, db_retains s s1 /\ forall k', k' <> k -> db_lookup s' k' = db_lookup s1 k'.

Definition no_empty s : Prop := forall k, db_lookup s k <> Some ""%string.

Lemma entry_lookup s k : no_empty s -> entry s k = db_lookup s k.
Proof. intros He. specialize (He k). unfold entry. by destruct (db_lookup s k) as [[|]|]. Qed.

Lemma retains_no_empty s s1 : db_retains s s1 -> no_empty s -> no_empty s1.
Proof. intros Hr He k. destruct (Hr k) as [->|[_ ->]]; [apply He|done]. Qed.

Lemma read_or_write s k v {A} (new : A) (old : string -> A) :
  db_wf s -> no_empty s -> v <> ""%string ->
  wp (previous ← readString k;
      if bool_decide (previous = ""%string)
      then writeString cfg k v false ;; mret new
      else mret (old previous)) s
    (fun r s' => no_empty s' /\ first_value s s' k v /\
       r = Ok (match entry s k with None => new | Some v' => old v' end)).
Proof.
  intros Hwf He Hv. unfold readString. wp_simpl. apply readString_spec; [done|].
  unfold first_value. rewrite (entry_lookup s) by done.
  destruct (db_lookup s k) as [v'|] eqn:Hk; cbn [default from_option id].
  - assert (v' <> ""%string) as Hv' by (intros ->; by apply (He k)).
    rewrite bool_decide_eq_false_2 by done. wp_simpl. split; [done|].
    split; [|done]. split_and!; [done| |].
    + by rewrite (entry_lookup s).
    + exists s. split; [intros k'; by left|done].
  - rewrite bool_decide_eq_true_2 by done. wp_simpl.
    eapply wp_mono; [by apply writeString_spec|]. cbv beta.
    intros r s' (-> & Hwf' & s1 & Hwf1 & Hret & Hl). wp_simpl.
    assert (no_empty s1) as He1 by (by eapply retains_no_empty).
    assert (db_lookup s1 k = None) as Hk1 by (destruct (Hret k) as [->|[_ ?]]; done).
    assert (no_empty s') as He'.
    { intros k'. rewrite Hl. case_decide; [subst k'; rewrite Hk1; cbn; congruence|apply He1]. }
    split; [done|]. split; [|done]. split_and!; [done| |].
    + by rewrite entry_lookup, Hl, decide_True, Hk1 by done.
    + exists s1. split; [done|]. intros k' Hne. by rewrite Hl, decide_False.
Qed.
End FirstValue.

(** ** Theorems *)
Section Theorems.
Context {D : Type} `{HealthyStore D}.
Context (cfg : db_config).
Local Abbreviation state := (level_db D).
Implicit Types (s : state).

Lemma checkAndSaveHash_spec s b p h :
  db_wf s -> no_empty s -> h <> ""%string ->
  wp (checkAndSaveHash cfg b p h) s (fun r s' =>
    no_empty s' /\ first_value s s' (createKey2 cfg b p) h /\
    r = Ok (match entry s (createKey2 cfg b p) with None => true | Some h' => bool_decide (h' = h) end)).
Proof.
  intros Hwf He Hh. unfold checkAndSaveHash. wp_simpl. rewrite bool_decide_eq_true_2 by done.
  split; [intros _|done]. rewrite bool_decide_eq_true_2 by apply createKey2_nonempty.
  split; [intros _|done].
  refine (proj1 (wp_bind (readString (createKey2 cfg b p)) _ s _) _).
  eapply wp_mono; [by apply (read_or_write cfg s _ h true (fun v => bool_decide (v = h)))|].
  cbv beta. intros r s' (? & ? & ->). done.
Qed.

Lemma haveProposal_spec s b p (Q : res bool -> state -> Prop) :
  db_wf s -> Q (Ok (bool_decide (is_Some (entry s (createKey2 cfg b p))))) s ->
  wp (haveProposal cfg b p) s Q.
Proof.
  intros Hwf HQ. unfold haveProposal, readString. wp_simpl.
  rewrite bool_decide_eq_true_2 by apply createKey2_nonempty. split; [intros _|done].
  apply readString_spec; [done|]. wp_simpl. revert HQ. unfold entry.
  by destruct (db_lookup s (createKey2 cfg b p)) as [[|c v]|].
Qed.

(** A node accepts at most one proposal hash per block and proposer: once
    [checkAndSaveHash] has returned [true] for a hash, it returns [true] for the
    same hash and [false] for any other, and [haveProposal] reports a proposal;
    what other proposers sent is not touched. *)
Theorem proposer_equivocation_refused s b p h h' :
  db_wf s -> no_empty s -> h <> ""%string -> h' <> ""%string ->
  wp (r ← checkAndSaveHash cfg b p h; r' ← checkAndSaveHash cfg b p h';
      have ← haveProposal cfg b p; mret (r, r', have)) s
    (fun out s' => db_wf s' /\ no_empty s' /\
      exists r r', out = Ok (r, r', true) /\
        (r = true -> r' = bool_decide (h = h')) /\
        (r = false -> exists h0, entry s (createKey2 cfg b p) = Some h0 /\ h0 <> h)).
Proof.
  intros Hwf He Hh Hh'. wp_simpl. eapply wp_mono; [by apply checkAndSaveHash_spec|]. cbv beta.
  intros r1 s1 (He1 & (Hwf1 & Hen1 & _) & ->). wp_simpl.
  eapply wp_mono; [by apply checkAndSaveHash_spec|]. cbv beta.
  intros r2 s2 (He2 & (Hwf2 & Hen2 & _) & ->). wp_simpl.
  apply haveProposal_spec; [done|]. wp_simpl. split_and!; [done..|].
  rewrite (bool_decide_eq_true_2 (is_Some (entry s2 _))) by (rewrite Hen2; by eexists).
  rewrite Hen1.
  do 2 eexists. split; [done|]. destruct (entry s (createKey2 cfg b p)) as [h0|]; cbn.
  - split; [by intros ->%bool_decide_eq_true_1|]. intros Hne%bool_decide_eq_false_1. eauto.
  - done.
Qed.

Lemma trySavingProposalVector_spec s b n proofs :
  db_wf s -> no_empty s -> 0 < n < 2 ^ 63 ->
  exists t v, mkVectorFromString n t = Ok v /\ t <> ""%string /\
    bv_proposals v = bv_proposals (mkVectorFromProofs n proofs) /\
    (forall i, 1 <= i <= n -> getProposalValue v i = Ok (bool_decide (is_Some (proofs !! i)))) /\
    wp (trySavingProposalVector cfg b (mkVectorFromProofs n proofs)) s (fun r s' =>
      no_empty s' /\ first_value s s' (createKey1 cfg b) t /\
      r = Ok (bool_decide (entry s (createKey1 cfg b) = None))).
Proof.
  intros Hwf He Hn. destruct (vector_roundtrip n proofs Hn) as (t & v & Ht & Hne & Hv & Hp & _ & Hval).
  exists t, v. split_and!; [done..|]. unfold trySavingProposalVector. rewrite Ht. wp_simpl.
  rewrite bool_decide_eq_true_2 by done. split; [intros _|done].
  rewrite bool_decide_eq_true_2 by (unfold createKey1; by destruct (dc_version cfg)).
  split; [intros _|done]. 
  refine (proj1 (wp_bind (readString (createKey1 cfg b)) _ s _) _).
  eapply wp_mono; [by apply (read_or_write cfg s (createKey1 cfg b) t true (fun _ => false))|].
  cbv beta. intros r s' (? & ? & ->). split_and!; [done..|].
  by destruct (entry s (createKey1 cfg b)).
Qed.

(** The consensus of a block is started once: of all attempts to save a
    proposal vector only the first returns [true], and the vector that is read
    back, also after a restart, has the values of that first one. *)
Theorem proposal_vector_saved_once s b n proofs proofs' :
  db_wf s -> no_empty s -> 0 < n < 2 ^ 63 -> entry s (createKey1 cfg b) = None ->
  wp (r ← trySavingProposalVector cfg b (mkVectorFromProofs n proofs);
      r' ← trySavingProposalVector cfg b (mkVectorFromProofs n proofs');
      o ← getVector cfg n b; mret (r, r', o)) s
    (fun out s' => db_wf s' /\ no_empty s' /\
      exists v, out = Ok (true, false, Some v) /\
        forall i, 1 <= i <= n -> getProposalValue v i = Ok (bool_decide (is_Some (proofs !! i)))).
Proof.
  intros Hwf He Hn Hnone.
  destruct (trySavingProposalVector_spec s b n proofs Hwf He Hn) as (t & v & Hv & Ht & _ & Hval & Hw).
  wp_simpl. refine (wp_mono _ _ _ _ Hw _). cbv beta.
  intros r1 s1 (He1 & (Hwf1 & Hen1 & _) & ->). wp_simpl.
  destruct (trySavingProposalVector_spec s1 b n proofs' Hwf1 He1 Hn) as (t' & v' & _ & _ & _ & _ & Hw').
  refine (wp_mono _ _ _ _ Hw' _). cbv beta.
  intros r2 s2 (He2 & (Hwf2 & Hen2 & _) & ->). wp_simpl.
  rewrite Hnone in *. rewrite Hen1 in *. cbn [default from_option id] in *.
  unfold getVector, readString. wp_simpl.
  rewrite bool_decide_eq_true_2 by (unfold createKey1; by destruct (dc_version cfg)).
  split; [intros _|done]. apply readString_spec; [done|].
  rewrite entry_lookup in Hen2 by done. rewrite Hen2. cbn [default from_option id].
  rewrite bool_decide_eq_false_2 by done. wp_simpl. rewrite Hv. wp_simpl. cbn [rnested_all].
  wp_simpl. split_and!; [done..|]. exists v. split; [|done].
  by rewrite bool_decide_eq_true_2, bool_decide_eq_false_2 by done.
Qed.

(** ** Data availability *)
Context (Htotal : 1 <= dc_totalSigners cfg < 2 ^ 63) (Hreq : 1 <= dc_requiredSigners cfg).

Lemma getProposalValue_proofs n (proofs : gmap Z string) i :
  1 <= i <= n -> n < 2 ^ 63 ->
  getProposalValue (mkVectorFromProofs n proofs) i = Ok (bool_decide (is_Some (proofs !! i))).
Proof.
  intros Hi Hn. destruct (vector_roundtrip n proofs ltac:(lia)) as (t & v & _ & _ & Hv & Hp & _ & Hval).
  rewrite <- Hval by done. unfold getProposalValue.
  assert (bv_nodeCount v = n) as Hnc.
  { unfold mkVectorFromString in Hv. destruct (bool_decide _); [|done].
    destruct (_ =? _); [|done]. cbn in Hv. destruct (parseVector t); [|done]. by injection Hv as <-. }
  rewrite Hp, Hnc. done.
Qed.

(** The vector that is handed out when [b] has the required number of proofs. *)
Definition vector_when_complete s' b (r : res (option BooleanProposalVector)) : Prop :=
  if decide (zsize (db_entries cfg s' b) = dc_requiredSigners cfg) then
    exists v, r = Ok (Some v) /\
      forall i, 1 <= i <= dc_totalSigners cfg ->
        getProposalValue v i = Ok (bool_decide (i ∈ db_entries cfg s' b))
  else r = Ok None.

(** A data availability proof for a new proposer is stored and counted; the
    node gets a proposal vector exactly from the proof that brings the number
    of proposers with a proof to the required one, and the vector then is true
    exactly for the proposers whose proofs are stored.  A second proof of a
    proposer changes nothing. *)
Theorem da_proofs_complete_vector s (p : DAProof) :
  set_inv cfg s -> 0 <= da_blockID p -> 1 <= da_proposerIndex p <= dc_totalSigners cfg ->
  da_thresholdSig p <> ""%string ->
  let b := da_blockID p in
  let key := createKey2 cfg b (da_proposerIndex p) in
  wp (addDAProof cfg p) s (fun r s' =>
    set_inv cfg s' /\
    exists s1, (s1 = s \/ rotated s s1) /\
      match db_lookup s1 key with
      | Some _ => r = Ok None /\ s' = s1
      | None =>
          db_lookup s' key = Some (da_thresholdSig p) /\
          zsize (db_entries cfg s' b) = zsize (db_entries cfg s1 b) + 1 /\
          vector_when_complete s' b r
      end).
Proof.
  intros Hi Hb Hp Hsig b key. unfold addDAProof, writeStringToSet. wp_simpl.
  eapply wp_mono; [apply writeByteArrayToSet_spec; auto; by apply elem_of_signers|].
  cbv beta. intros r s' (Hi' & s1 & Hrot & Hi1 & Hw). unfold set_written in Hw. fold b key in Hw.
  destruct (db_lookup s1 key) as [old|] eqn:Hold.
  { destruct Hw as [-> ->]. wp_simpl. split; [done|]. exists s1. by rewrite Hold. }
  destruct Hw as [(_ & _ & Hcount & Hnew & _) Hw].
  assert (forall r, vector_when_complete s' b r -> set_inv cfg s' /\ exists s1,
    (s1 = s \/ rotated s s1) /\ match db_lookup s1 key with
      | Some _ => r = Ok None /\ s' = s1
      | None => db_lookup s' key = Some (da_thresholdSig p) /\
          zsize (db_entries cfg s' b) = zsize (db_entries cfg s1 b) + 1 /\
          vector_when_complete s' b r
      end) as Hfin.
  { intros r' Hr'. split; [done|]. exists s1. rewrite Hold. auto. }
  unfold vector_when_complete in Hfin at 1.
  destruct (decide _) as [Hq|Hq].
  - destruct Hw as (set & -> & Hsize & Hset). wp_simpl. rewrite Hsize, Z.eqb_refl.
    split; [intros _; wp_simpl|discriminate]. apply Hfin. eexists. split; [done|]. intros i Hir.
    rewrite getProposalValue_proofs by lia. f_equal. apply bool_decide_ext.
    rewrite Hset, decide_True by (by apply elem_of_signers).
    pose proof (db_lookup_entry cfg Htotal s' b i Hi' Hb (proj2 (elem_of_signers cfg i) Hir)) as Hl.
    destruct (db_lookup s' (createKey2 cfg b i)); [|destruct Hl as [Hl _]].
    + split; [intros _; apply Hl|by eexists].
    + split; [by intros [? ?]|done].
  - subst r. wp_simpl. by apply Hfin.
Qed.

(** A data availability proof is made only for the proposal itself, from
    the stored shares of the required number of distinct signers, and only if
    the merged signature verifies against the hash of the proposal. *)
Theorem da_proof_verified (share : Type) create merge verify s (x : DaSigShare) (p : DaProposal) :
  set_inv cfg s -> 0 <= ss_blockId x -> 1 <= ss_signerIndex x <= dc_totalSigners cfg ->
  ss_text x <> ""%string ->
  wp (addAndMergeSigShareAndVerifySig cfg share create merge verify x p) s (fun r s' =>
    set_inv cfg s' /\
    forall proof, r = Ok (Some proof) ->
      da_blockID proof = dp_blockID p /\ da_proposerIndex proof = dp_proposerIndex p /\
      da_hash proof = dp_hash p /\
      verify (dp_hash p) (da_thresholdSig proof) (ss_blockId x) (dp_timeStampS p) = Ok tt /\
      exists entries shares,
        zsize entries = dc_requiredSigners cfg /\
        (forall i t, entries !! i = Some t ->
           1 <= i <= dc_totalSigners cfg /\ db_lookup s' (createKey2 cfg (ss_blockId x) i) = Some t) /\
        collectShares share create p (map_items entries) = Ok shares /\
        merge (ss_blockId x) (dp_timeStampS p) shares = Ok (da_thresholdSig proof)).
Proof.
  intros Hi Hb Hx Ht. unfold addAndMergeSigShareAndVerifySig, writeStringToSet. wp_simpl.
  eapply wp_mono; [apply writeByteArrayToSet_spec; auto; by apply elem_of_signers|].
  cbv beta. intros r s' (Hi' & s1 & Hrot & Hi1 & Hw). unfold set_written in Hw.
  assert (r = Ok None \/ exists set, r = Ok (Some set) /\ zsize set = dc_requiredSigners cfg /\
    forall y, set !! y = if decide (y ∈ signers cfg)
      then db_lookup s' (createKey2 cfg (ss_blockId x) y) else None) as [->|(set & -> & Hsize & Hset)].
  { destruct (db_lookup s1 _); [left; by destruct Hw|]. destruct Hw as [_ Hw].
    destruct (decide _); [by right|by left]. }
  { wp_simpl. split; [done|by intros ? [=]]. }
  wp_simpl. destruct (collectShares share create p (map_items set)) as [shares|] eqn:Hsh;
    [|split; [done|by intros ? [=]]].
  wp_simpl. destruct (merge (ss_blockId x) (dp_timeStampS p) shares) as [sig|] eqn:Hm;
    [|split; [done|by intros ? [=]]]. wp_simpl.
  destruct (verify _ sig _ _) as [[]|] eqn:Hver;
    [|split; [done|by intros ? [=]]]. wp_simpl. split; [done|].
  intros proof [= <-]. cbn [da_blockID da_proposerIndex da_hash da_thresholdSig].
  split_and!; [done..|]. exists set, shares. split_and!; [done| |done..].
  intros i t Hit. rewrite Hset in Hit. destruct (decide (i ∈ signers cfg)) as [Hs|]; [|done].
  by apply elem_of_signers in Hs.
Qed.
End Theorems.

(** ** Witnesses *)
Lemma empty_db_no_empty : no_empty empty_db.
Proof. intros k. unfold db_lookup, locate. cbn. discriminate. Qed.

Lemma proposer_equivocation_refused_witness :
  (r ← checkAndSaveHash demo_config 7 2 "aa"; r' ← checkAndSaveHash demo_config 7 2 "bb";
   have ← haveProposal demo_config 7 2; mret (r, r', have)) empty_db =
    (Ok (true, false, true),
     ((r ← checkAndSaveHash demo_config 7 2 "aa"; r' ← checkAndSaveHash demo_config 7 2 "bb";
       have ← haveProposal demo_config 7 2; mret (r, r', have)) empty_db).2) /\
  db_wf ((r ← checkAndSaveHash demo_config 7 2 "aa"; r' ← checkAndSaveHash demo_config 7 2 "bb";
   have ← haveProposal demo_config 7 2; mret (r, r', have)) empty_db).2.
Proof.
  split; [vm_compute; reflexivity|].
  apply (proposer_equivocation_refused demo_config empty_db 7 2 "aa" "bb" empty_db_wf empty_db_no_empty);
    discriminate.
Defined.

Lemma proposal_vector_saved_once_witness :
  wp (r ← trySavingProposalVector demo_config 7 (mkVectorFromProofs 4 {[2 := "p"%string]});
      r' ← trySavingProposalVector demo_config 7 (mkVectorFromProofs 4 ∅);
      o ← getVector demo_config 4 7; mret (r, r', o)) empty_db
    (fun out s' => db_wf s' /\ no_empty s' /\
      exists v, out = Ok (true, false, Some v) /\
        forall i, 1 <= i <= 4 ->
          getProposalValue v i = Ok (bool_decide (is_Some (({[2 := "p"%string]} : gmap Z string) !! i)))).
Proof.
  exact (proposal_vector_saved_once demo_config empty_db 7 4 {[2 := "p"%string]} ∅ empty_db_wf
    empty_db_no_empty ltac:(lia) eq_refl).
Defined.

Definition demo_proof : DAProof :=
  {| da_blockID := 5; da_proposerIndex := 2; da_hash := [1; 2]; da_thresholdSig := "s2" |}.

Lemma da_proofs_complete_vector_witness :
  is_ok (addDAProof demo_config demo_proof demo_sets).1 = true /\
  set_inv demo_config (addDAProof demo_config demo_proof demo_sets).2.
Proof.
  split; [vm_compute; reflexivity|].
  apply (da_proofs_complete_vector demo_config ltac:(cbn; lia) ltac:(cbn; lia) demo_sets demo_proof demo_set_inv);
    first [discriminate | cbn; lia].
Defined.

Lemma da_proof_verified_witness :
  is_ok (addAndMergeSigShareAndVerifySig demo_config string (fun t _ _ _ => Ok t) (fun _ _ _ => Ok "sig"%string)
    (fun _ _ _ _ => Ok tt) {| ss_text := "s2"; ss_blockId := 5; ss_signerIndex := 2 |}
    {| dp_blockID := 5; dp_proposerIndex := 1; dp_hash := [9]; dp_timeStampS := 100 |} demo_sets).1 = true /\
  set_inv demo_config (addAndMergeSigShareAndVerifySig demo_config string (fun t _ _ _ => Ok t)
    (fun _ _ _ => Ok "sig"%string) (fun _ _ _ _ => Ok tt)
    {| ss_text := "s2"; ss_blockId := 5; ss_signerIndex := 2 |}
    {| dp_blockID := 5; dp_proposerIndex := 1; dp_hash := [9]; dp_timeStampS := 100 |} demo_sets).2.
Proof.
  split; [vm_compute; reflexivity|].
  apply (da_proof_verified demo_config ltac:(cbn; lia) ltac:(cbn; lia) string (fun t _ _ _ => Ok t)
    (fun _ _ _ => Ok "sig"%string) (fun _ _ _ _ => Ok tt) demo_sets
    {| ss_text := "s2"; ss_blockId := 5; ss_signerIndex := 2 |}
    {| dp_blockID := 5; dp_proposerIndex := 1; dp_hash := [9]; dp_timeStampS := 100 |} demo_set_inv);
    first [discriminate | cbn; lia].
Defined.
