(* ===== verification/Blocks.v ===== *)
(** * Block proposals and committed blocks

    Model of [BlockProposal], [CommittedBlock] and their headers
    ([src/datastructures], [src/headers]): the hash of a proposal, and the
    serialized form, an 8-byte length, a JSON header and the list of
    transactions.  The JSON library, the decimal conversion and the bit export
    of [boost::multiprecision], BLAKE3 and the verification of signatures are
    parameters. *)

From stdpp Require Import base tactics gmap list strings.
From Stdlib Require Import ZArith Lia Ascii.
From S2P Require Import Prelude Bytes Messages Transactions.

Definition MODERN_TIME : Z := 1547640182.
Definition MAX_BUFFER_SIZE : Z := 8 * 1024 * 1024.

(** ** Hexadecimal *)
Definition hexval (n : Z) : Z := if n <? 10 then 48 + n else 87 + n.

(** [Utils::carray2Hex], as the bytes of the text. *)
Fixpoint carray2Hex (d : list Z) : list Z :=
  match d with
  | [] => []
  | b :: d => hexval (Z.land (Z.shiftr b 4) 15) :: hexval (Z.land b 15) :: carray2Hex d
  end.

(** ** JSON objects

    The values that the headers use. *)
Inductive jval :=
  | JNum (n : Z)
  | JStr (s : string)
  | JArr (l : list Z).

Abbreviation json := (gmap string jval).

(** [BasicHeader::nullCheck] and the typed accessors; a value of another type
    makes the library throw. *)
Definition nullCheck (j : json) (name : string) : res jval :=
  match j !! name with Some v => Ok v | None => Err NetworkProtocolException end.

Definition getUint64 (j : json) (name : string) : res Z :=
  v ← nullCheck j name; match v with JNum n => Ok (u64 n) | _ => Err JsonError end.

Definition getUint32 (j : json) (name : string) : res Z :=
  v ← nullCheck j name; match v with JNum n => Ok (u32 n) | _ => Err JsonError end.

Definition getString (j : json) (name : string) : res string :=
  v ← nullCheck j name; match v with JStr s => Ok s | _ => Err JsonError end.

Definition maybeGetString (j : json) (name : string) : res string :=
  match j !! name with None => Ok ""%string | Some _ => getString j name end.

(** [for ( auto&& jsize : j[name] )]. *)
Definition getSizes (j : json) (name : string) : res (list Z) :=
  v ← nullCheck j name; match v with JArr l => Ok (map u64 l) | _ => Err JsonError end.

(** ** The structures *)
Record BlockProposal := {
  bp_schainID : Z;
  bp_proposerNodeID : Z;
  bp_blockID : Z;
  bp_proposerIndex : Z;
  bp_timeStamp : Z;
  bp_timeStampMs : Z;
  bp_stateRoot : Z;
  bp_transactionList : TransactionList;
  bp_hash : list Z;
  bp_signature : string
}.

Record CommittedBlock := {
  cb_block : BlockProposal;
  cb_thresholdSig : string;
  cb_daSig : string
}.

Record BlockProposalHeader := {
  bh_proposerIndex : Z;
  bh_proposerNodeID : Z;
  bh_schainID : Z;
  bh_blockID : Z;
  bh_blockHash : string;
  bh_stateRoot : Z;
  bh_signature : string;
  bh_timeStamp : Z;
  bh_timeStampMs : Z;
  bh_transactionSizes : list Z
}.

Record CommittedBlockHeader := {
  ch_header : BlockProposalHeader;
  ch_thresholdSig : string;
  ch_daSig : string
}.

Section Blocks.
Context (blake3 : list Z -> list Z).
(** [u256::str], the constructor of [u256] from text, and [export_bits]. *)
Context (u256_str : Z -> string) (u256_parse : string -> res Z) (export_bits : Z -> list Z).
(** [json::dump] and [json::parse]. *)
Context (json_dump : json -> string) (json_parse : string -> res json).

(** ** The hash of a proposal *)
Definition u256ToBigEndianArray (value : Z) : list Z := export_bits value.

(** The input of the hasher; the identifiers and the count are 64-bit words. *)
Definition hash_input (proposerIndex proposerNodeID schainID blockID timeStamp timeStampMs stateRoot : Z)
    (l : TransactionList) : res (list Z) :=
  root ← (if 0 <? tl_size l then tl_calculateTopMerkleRoot blake3 l else Ok []);
  Ok (le_bytes 8 proposerIndex ++ le_bytes 8 proposerNodeID ++ le_bytes 8 schainID ++
      le_bytes 8 blockID ++ le_bytes 8 (tl_size l) ++ le_bytes 8 timeStamp ++
      le_bytes 4 timeStampMs ++ le_bytes 4 (u32 (tl_size l)) ++
      carray2Hex (u256ToBigEndianArray stateRoot) ++ root).

(** [BlockProposal::calculateHash]. *)
Definition bp_calculateHash
    (proposerIndex proposerNodeID schainID blockID timeStamp timeStampMs stateRoot : Z)
    (l : TransactionList) : res (list Z) :=
  input ← hash_input proposerIndex proposerNodeID schainID blockID timeStamp timeStampMs stateRoot l;
  Ok (blake3 input).

(** The constructor; [sign] is the crypto manager's [signProposal], if there is
    one. *)
Definition mkBlockProposal (schainID proposerNodeID blockID proposerIndex : Z) (l : TransactionList)
    (stateRoot timeStamp timeStampMs : Z) (signature : string) (sign : option (list Z -> res string)) :
    res BlockProposal :=
  let stateRoot := if proposerIndex =? 0 then 0 else stateRoot in
  rcheck InvalidStateException (MODERN_TIME <? timeStamp) ;;
  hash ← bp_calculateHash proposerIndex proposerNodeID schainID blockID timeStamp timeStampMs stateRoot l;
  signature ←
    match sign with
    | Some f => f hash
    | None =>
        rcheck InvalidArgumentException (bool_decide (signature <> ""%string)) ;; Ok signature
    end;
  Ok {| bp_schainID := schainID; bp_proposerNodeID := proposerNodeID; bp_blockID := blockID;
        bp_proposerIndex := proposerIndex; bp_timeStamp := timeStamp; bp_timeStampMs := timeStampMs;
        bp_stateRoot := stateRoot; bp_transactionList := l; bp_hash := hash;
        bp_signature := signature |}.

Definition toHex (hash : list Z) : string := bytes_string (carray2Hex hash).

Definition getSignature (signature : string) : res string :=
  rcheck InvalidStateException (bool_decide (signature <> ""%string)) ;; Ok signature.

(** [ReceivedBlockProposal] of a default block. *)
Definition mkDefaultProposal (schainID blockID timeStamp timeStampMs stateRoot : Z) :
    res BlockProposal :=
  mkBlockProposal schainID 0 blockID 0 (mkTransactionList []) stateRoot timeStamp timeStampMs
    "EMPTY" None.

(** [CommittedBlock::make] with the constructor. *)
Definition makeCommittedBlock (schainID proposerNodeID blockID proposerIndex : Z) (l : TransactionList)
    (stateRoot timeStamp timeStampMs : Z) (signature thresholdSig daSig : string) :
    res CommittedBlock :=
  rcheck InvalidArgumentException (bool_decide (signature <> ""%string)) ;;
  rcheck InvalidArgumentException (bool_decide (thresholdSig <> ""%string)) ;;
  b ← mkBlockProposal schainID proposerNodeID blockID proposerIndex l stateRoot timeStamp
        (u32 timeStampMs) signature None;
  Ok {| cb_block := b; cb_thresholdSig := thresholdSig; cb_daSig := daSig |}.

Definition makeFromProposal (p : BlockProposal) (thresholdSig : string) (daSig : option string) :
    res CommittedBlock :=
  rcheck InvalidArgumentException (bool_decide (is_Some daSig) || (bp_proposerIndex p =? 0)) ;;
  sig ← getSignature (bp_signature p);
  makeCommittedBlock (bp_schainID p) (bp_proposerNodeID p) (bp_blockID p) (bp_proposerIndex p)
    (bp_transactionList p) (bp_stateRoot p) (bp_timeStamp p) (bp_timeStampMs p) sig thresholdSig
    (if 0 <? bp_proposerIndex p then default ""%string daSig else ""%string).

(** ** Headers *)
Fixpoint serializedSizes (ts : list Transaction) : res (list Z) :=
  match ts with
  | [] => Ok []
  | t :: ts => x ← getSerializedSize t true; xs ← serializedSizes ts; Ok (x :: xs)
  end.

Definition mkProposalHeader (b : BlockProposal) : res BlockProposalHeader :=
  signature ← getSignature (bp_signature b);
  sizes ← serializedSizes (tl_transactions (bp_transactionList b));
  Ok {| bh_proposerIndex := bp_proposerIndex b; bh_proposerNodeID := bp_proposerNodeID b;
        bh_schainID := bp_schainID b; bh_blockID := bp_blockID b; bh_blockHash := toHex (bp_hash b);
        bh_stateRoot := bp_stateRoot b; bh_signature := signature; bh_timeStamp := bp_timeStamp b;
        bh_timeStampMs := bp_timeStampMs b; bh_transactionSizes := sizes |}.

Definition mkCommittedHeader (b : CommittedBlock) : res CommittedBlockHeader :=
  h ← mkProposalHeader (cb_block b);
  rcheck InvalidStateException (bool_decide (cb_thresholdSig b <> ""%string)) ;;
  Ok {| ch_header := h; ch_thresholdSig := cb_thresholdSig b; ch_daSig := cb_daSig b |}.

(** [addFields] on the object that already has the type. *)
Definition addFields (h : BlockProposalHeader) (j : json) : res json :=
  let j := <["schainID" := JNum (bh_schainID h)]> j in
  let j := <["proposerIndex" := JNum (bh_proposerIndex h)]> j in
  let j := <["proposerNodeID" := JNum (bh_proposerNodeID h)]> j in
  let j := <["blockID" := JNum (bh_blockID h)]> j in
  let j := <["hash" := JStr (bh_blockHash h)]> j in
  let j := <["sig" := JStr (bh_signature h)]> j in
  let j := <["sizes" := JArr (bh_transactionSizes h)]> j in
  let j := <["timeStamp" := JNum (bh_timeStamp h)]> j in
  let j := <["timeStampMs" := JNum (bh_timeStampMs h)]> j in
  let j := <["sr" := JStr (u256_str (bh_stateRoot h))]> j in
  rcheck InvalidStateException (0 <? bh_timeStamp h) ;;
  Ok j.

Definition addCommittedFields (h : CommittedBlockHeader) (j : json) : res json :=
  j ← addFields (ch_header h) j;
  let j := <["thrSig" := JStr (ch_thresholdSig h)]> j in
  Ok (if bool_decide (ch_daSig h = ""%string) then j else <["daSig" := JStr (ch_daSig h)]> j).

(** The constructors from JSON. *)
Definition parseProposalFields (j : json) : res BlockProposalHeader :=
  proposerIndex ← getUint64 j "proposerIndex";
  proposerNodeID ← getUint64 j "proposerNodeID";
  blockID ← getUint64 j "blockID";
  schainID ← getUint64 j "schainID";
  timeStamp ← getUint64 j "timeStamp";
  timeStampMs ← getUint32 j "timeStampMs";
  blockHash ← getString j "hash";
  signature ← getString j "sig";
  srStr ← getString j "sr";
  stateRoot ← u256_parse srStr;
  sizes ← getSizes j "sizes";
  Ok {| bh_proposerIndex := proposerIndex; bh_proposerNodeID := proposerNodeID;
        bh_schainID := schainID; bh_blockID := blockID; bh_blockHash := blockHash;
        bh_stateRoot := stateRoot; bh_signature := signature; bh_timeStamp := timeStamp;
        bh_timeStampMs := timeStampMs; bh_transactionSizes := sizes |}.

Definition parseCommittedFields (j : json) : res CommittedBlockHeader :=
  h ← parseProposalFields j;
  thresholdSig ← getString j "thrSig";
  rcheck InvalidStateException (bool_decide (thresholdSig <> ""%string)) ;;
  daSig ← maybeGetString j "daSig";
  Ok {| ch_header := h; ch_thresholdSig := thresholdSig; ch_daSig := daSig |}.

(** ** The serialized form *)

(** [BasicHeader::serializeToString]. *)
Definition serializeToString (fields : json -> res json) : res string :=
  j ← fields {["type" := JStr "Blck"]};
  let s := json_dump j in
  rcheck InvalidStateException (16 <? Z.of_nat (String.length s)) ;;
  Ok s.

(** [BasicHeader::toBuffer]; the bytes up to the counter. *)
Definition toBuffer (fields : json -> res json) : res (list Z) :=
  s ← serializeToString fields;
  let len := Z.of_nat (String.length s) in
  rcheck InvalidArgumentException (u64 (len + 8) <=? MAX_BUFFER_SIZE) ;;
  let buf := le_bytes 8 len ++ string_bytes s in
  rcheck InvalidStateException (10 <=? zlen buf) ;;
  Ok buf.

Definition front_is (c : Z) (l : list Z) : bool := bool_decide (head l = Some c).
Definition back_is (c : Z) (l : list Z) : bool := bool_decide (last l = Some c).

(** [v.at( i ) == c] inside a check. *)
Definition at_is (e : exn) (l : list Z) (i c : Z) : res unit := x ← at_ l i; rcheck e (x =? c).

(** The characters of the frame are [{] (123), [}] (125), [<] (60) and [>]
    (62). *)
Definition serializeTransactionsAndCompleteSerialization (fields : json -> res json)
    (l : TransactionList) : res (list Z) :=
  buf ← toBuffer fields;
  at_is InvalidStateException buf 8 123 ;;
  at_is InvalidStateException buf (zlen buf - 1) 125 ;;
  serializedList ← (tl_serialize blake3 true l).1;
  rcheck InvalidStateException (front_is 60 serializedList) ;;
  rcheck InvalidStateException (back_is 62 serializedList) ;;
  let block := buf ++ serializedList in
  rcheck InvalidStateException (negb (tl_size l =? 0) || (zlen block =? zlen buf + 2)) ;;
  at_is InvalidStateException block 8 123 ;;
  rcheck InvalidStateException (back_is 62 block) ;;
  Ok block.

Definition serializeProposal (b : BlockProposal) : res (list Z) :=
  h ← mkProposalHeader b;
  serializeTransactionsAndCompleteSerialization (addFields h) (bp_transactionList b).

(** [CommittedBlock::serialize]. *)
Definition serializeBlock (b : CommittedBlock) : res (list Z) :=
  h ← mkCommittedHeader b;
  serializeTransactionsAndCompleteSerialization (addCommittedFields h)
    (bp_transactionList (cb_block b)).

(** ** Parsing *)
Definition extractHeader (block : list Z) : res string :=
  let size := zlen block in
  rcheck InvalidArgumentException (10 <=? size) ;;
  let headerSize := le_value (take 8 block) in
  rcheck InvalidStateException ((2 <=? headerSize) && (u64 (headerSize + 8) <=? size)) ;;
  rcheck InvalidStateException (headerSize <=? MAX_BUFFER_SIZE) ;;
  at_is InvalidStateException block (headerSize + 8) 60 ;;
  at_is InvalidStateException block 8 123 ;;
  rcheck InvalidStateException (back_is 62 block) ;;
  Ok (bytes_string (slice block 8 headerSize)).

(** The checks of both [parseBlockHeader]s. *)
Definition parseHeaderText (header : string) : res json :=
  rcheck InvalidArgumentException (bool_decide (header <> ""%string)) ;;
  rcheck InvalidArgumentException (2 <? Z.of_nat (String.length header)) ;;
  rcheck InvalidArgumentException (front_is 123 (string_bytes header)) ;;
  rcheck InvalidArgumentException (back_is 125 (string_bytes header)) ;;
  json_parse header.

Definition parseBlockHeader (header : string) : res BlockProposalHeader :=
  j ← parseHeaderText header; parseProposalFields j.

Definition parseCommittedHeader (header : string) : res CommittedBlockHeader :=
  j ← parseHeaderText header; parseCommittedFields j.

Definition deserializeTransactions (sizes : list Z) (header : string) (block : list Z) :
    res TransactionList :=
  rcheck InvalidArgumentException (bool_decide (header <> ""%string)) ;;
  rnested_all ParsingException
    (tl_deserialize blake3 sizes block (u32 (Z.of_nat (String.length header) + 8)) true).

(** The crypto manager: [verifyECDSASig] on a hash, a signature, the node and
    the time; [verifyBlockSig] on a signature, the block, a hash and the time;
    [verifyDAProofThresholdSig] on a hash, a signature, the block and the time. *)
Context (verifyECDSASig : list Z -> string -> Z -> Z -> res unit).
Context (verifyThresholdSig : string -> Z -> list Z -> TimeStamp -> res unit).
Context (verifyDAProofSig : list Z -> string -> Z -> Z -> res unit).

(** [CryptoManager::verifyProposalECDSA]. *)
Definition verifyProposalECDSA (p : BlockProposal) (hashStr signature : string) : res unit :=
  rcheck InvalidArgumentException (bool_decide (hashStr <> ""%string)) ;;
  rcheck InvalidArgumentException (bool_decide (signature <> ""%string)) ;;
  rcheck InvalidStateException (negb (bp_proposerIndex p =? 0)) ;;
  rcheck InvalidStateException (bool_decide (toHex (bp_hash p) = hashStr)) ;;
  rnested_all InvalidStateException
    (verifyECDSASig (bp_hash p) signature (bp_proposerNodeID p) (bp_timeStamp p)).

(** [BlockProposal::deserialize]. *)
Definition deserializeProposal (bytes : list Z) (verifySig : bool) : res BlockProposal :=
  headerStr ← extractHeader bytes;
  rcheck InvalidStateException (bool_decide (headerStr <> ""%string)) ;;
  h ← rnested ParsingException (parseBlockHeader headerStr);
  list ← deserializeTransactions (bh_transactionSizes h) headerStr bytes;
  sig ← getSignature (bh_signature h);
  proposal ← mkBlockProposal (bh_schainID h) (bh_proposerNodeID h) (bh_blockID h)
    (bh_proposerIndex h) list (bh_stateRoot h) (bh_timeStamp h) (bh_timeStampMs h) sig None;
  (if verifySig && negb (bh_proposerIndex h =? 0)
   then rnested_all InvalidStateException (verifyProposalECDSA proposal (bh_blockHash h) sig)
   else Ok tt) ;;
  Ok proposal.

Definition consensusHash (blockProposerIndex blockId schainId : Z) : list Z :=
  blake3 (le_bytes 8 blockProposerIndex ++ le_bytes 8 blockId ++ le_bytes 8 schainId ++
    le_bytes 4 (msg_type_code MSG_BLOCK_SIGN_BROADCAST)).

Definition getTimeStamp (p : BlockProposal) : TimeStamp :=
  {| ts_s := bp_timeStamp p; ts_ms := bp_timeStampMs p |}.

(** [CommittedBlock::verifyBlockSig] and [CommittedBlock::verifyDaSig]; the
    callers nest every exception. *)
Definition cb_verifyBlockSig (b : CommittedBlock) : res unit :=
  let p := cb_block b in
  sig ← (rcheck InvalidStateException (bool_decide (cb_thresholdSig b <> ""%string)) ;;
         Ok (cb_thresholdSig b));
  rnested_all InvalidStateException
    (verifyThresholdSig sig (bp_blockID p)
      (consensusHash (bp_proposerIndex p) (bp_blockID p) (bp_schainID p)) (getTimeStamp p)).

Definition cb_verifyDaSig (b : CommittedBlock) : res unit :=
  let p := cb_block b in
  if bp_proposerIndex p =? 0 then Ok tt
  else verifyDAProofSig (bp_hash p) (cb_daSig b) (bp_blockID p) (bp_timeStamp p).

Definition isLegacy (b : CommittedBlock) : bool := bool_decide (cb_daSig b = ""%string).

Definition serializedSanityCheck (bytes : list Z) : res unit :=
  at_is InvalidArgumentException bytes 8 123 ;;
  rcheck InvalidArgumentException (back_is 62 bytes).

(** [CommittedBlock::deserialize]. *)
Definition deserializeBlock (bytes : list Z) (verifySig : bool) : res CommittedBlock :=
  serializedSanityCheck bytes ;;
  headerStr ← extractHeader bytes;
  rcheck InvalidStateException (bool_decide (headerStr <> ""%string)) ;;
  h ← rnested ParsingException (parseCommittedHeader headerStr);
  let ph := ch_header h in
  list ← rnested_all InvalidStateException
    (deserializeTransactions (bh_transactionSizes ph) headerStr bytes);
  block ← rnested_all InvalidStateException
    (sig ← getSignature (bh_signature ph);
     makeCommittedBlock (bh_schainID ph) (bh_proposerNodeID ph) (bh_blockID ph)
       (bh_proposerIndex ph) list (bh_stateRoot ph) (bh_timeStamp ph) (bh_timeStampMs ph) sig
       (ch_thresholdSig h) (ch_daSig h));
  if negb verifySig then Ok block
  else
    (if negb (bh_proposerIndex ph =? 0)
     then rnested_all InvalidStateException
            (verifyProposalECDSA (cb_block block) (bh_blockHash ph) (bh_signature ph))
     else Ok tt) ;;
    rnested_all InvalidStateException (cb_verifyBlockSig block) ;;
    (if isLegacy block then Ok tt
     else rnested_all InvalidStateException (cb_verifyDaSig block)) ;;
    Ok block.
End Blocks.

(** ** Round trip of a block *)

(** Text that JSON carries unchanged. *)
Definition plain (s : string) : Prop := Forall (fun c => c < 128) (string_bytes s).

Definition json_plain (j : json) : Prop := forall k v, j !! k = Some v ->
  match v with
  | JNum n => 0 <= n < 2 ^ 64
  | JStr s => plain s
  | JArr l => Forall (fun n => 0 <= n < 2 ^ 64) l
  end.

Section RoundTrip.
Context (blake3 : list Z -> list Z) (blake3_length : forall x, hash_sized (blake3 x)).
Context (u256_str : Z -> string) (u256_parse : string -> res Z) (export_bits : Z -> list Z).
Context (parse_str : forall p, 0 <= p < 2 ^ 256 -> u256_parse (u256_str p) = Ok p).
Context (str_plain : forall p, plain (u256_str p)).
Context (json_dump : json -> string) (json_parse : string -> res json).
(** What the JSON library promises: an object is printed between braces, with
    its keys in quotes and their values, and parses back. *)
Context (parse_dump : forall j, json_plain j -> json_parse (json_dump j) = Ok j).
Context (dump_braces : forall j, exists mid, string_bytes (json_dump j) = 123 :: mid ++ [125]).
Context (dump_length : forall j k v, j !! k = Some v ->
  (String.length k + 6 <= String.length (json_dump j))%nat).

Definition word (w n : Z) : Prop := 0 <= n < 2 ^ w.

Definition header_wf (h : BlockProposalHeader) : Prop :=
  word 64 (bh_proposerIndex h) /\ word 64 (bh_proposerNodeID h) /\ word 64 (bh_schainID h) /\
  word 64 (bh_blockID h) /\ plain (bh_blockHash h) /\ word 256 (bh_stateRoot h) /\
  plain (bh_signature h) /\ 0 < bh_timeStamp h < 2 ^ 64 /\ word 32 (bh_timeStampMs h) /\
  Forall (word 64) (bh_transactionSizes h).

Definition committed_header_wf (h : CommittedBlockHeader) : Prop :=
  header_wf (ch_header h) /\ plain (ch_thresholdSig h) /\ ch_thresholdSig h <> ""%string /\
  plain (ch_daSig h).

Definition header_keys : list string :=
  ["proposerIndex"; "proposerNodeID"; "blockID"; "schainID"; "timeStamp"; "timeStampMs"; "hash";
   "sig"; "sr"; "sizes"].

Ltac look := repeat first [rewrite lookup_insert_eq | rewrite lookup_insert_ne by discriminate].

Lemma json_plain_insert j k v :
  json_plain j ->
  match v with
  | JNum n => 0 <= n < 2 ^ 64
  | JStr s => plain s
  | JArr l => Forall (fun n => 0 <= n < 2 ^ 64) l
  end -> json_plain (<[k := v]> j).
Proof.
  intros Hj Hv k' v' Hl. destruct (decide (k = k')) as [->|Hne].
  - rewrite lookup_insert_eq in Hl. by injection Hl as <-.
  - rewrite lookup_insert_ne in Hl by done. by apply (Hj k').
Qed.

Lemma map_u64_id l : Forall (word 64) l -> map u64 l = l.
Proof. induction 1 as [|n l Hn _ IH]; [done|]. cbn. by rewrite IH, u64_small. Qed.

Lemma addFields_parse h j0 :
  header_wf h -> json_plain j0 ->
  exists j, addFields u256_str h j0 = Ok j /\ json_plain j /\
    is_Some (j !! "proposerNodeID"%string) /\
    parseProposalFields u256_parse j = Ok h /\
    forall k, k ∉ header_keys ->
      j !! k = j0 !! k /\
      forall j' v, parseProposalFields u256_parse j' = Ok h ->
        parseProposalFields u256_parse (<[k := v]> j') = Ok h.
Proof.
  intros (H1 & H2 & H3 & H4 & H5 & H6 & H7 & H8 & H9 & H10) Hj0. unfold word in *.
  unfold addFields. cbv zeta. rewrite (proj2 (Z.ltb_lt 0 (bh_timeStamp h))) by lia.
  cbn [rcheck mbind res_bind]. eexists. split; [reflexivity|]. split_and!.
  - repeat apply json_plain_insert; try done; lia.
  - look. by eexists.
  - unfold parseProposalFields, getUint64, getUint32, getString, getSizes, nullCheck.
    look. cbn [mbind res_bind]. rewrite parse_str by done. cbn [mbind res_bind].
    rewrite !u64_small, map_u64_id by (done || lia).
    rewrite (wrap_small 32 (bh_timeStampMs h) : _ -> u32 _ = _) by done. by destruct h.
  - intros k Hk. unfold header_keys in Hk. rewrite !not_elem_of_cons in Hk. destruct_and! Hk.
    split; [by rewrite !lookup_insert_ne by done|]. intros j' v Hp. rewrite <- Hp.
    unfold parseProposalFields, getUint64, getUint32, getString, getSizes, nullCheck.
    by rewrite !(lookup_insert_ne _ k) by done.
Qed.

Lemma addCommittedFields_parse h j0 :
  committed_header_wf h -> json_plain j0 -> j0 !! "daSig"%string = None ->
  exists j, addCommittedFields u256_str h j0 = Ok j /\ json_plain j /\
    is_Some (j !! "proposerNodeID"%string) /\ parseCommittedFields u256_parse j = Ok h.
Proof.
  intros (Hh & Ht & Htne & Hda) Hj0 Hnone.
  destruct (addFields_parse (ch_header h) j0 Hh Hj0) as (j & Hj & Hpl & Hkey & Hp & Hother).
  destruct (Hother "thrSig"%string) as [_ Hthr]; [set_solver|].
  destruct (Hother "daSig"%string) as [Hd Hdap]; [set_solver|].
  unfold addCommittedFields. rewrite Hj. cbn [mbind res_bind].
  set (j1 := <["thrSig"%string := JStr (ch_thresholdSig h)]> j).
  assert (json_plain j1) as Hpl1 by (by apply json_plain_insert).
  assert (parseProposalFields u256_parse j1 = Ok (ch_header h)) as Hp1 by (by apply Hthr).
  eexists. split; [reflexivity|]. case_bool_decide as Hempty.
  - split_and!; [done|unfold j1; by look|].
    unfold parseCommittedFields, maybeGetString, getString, nullCheck.
    rewrite Hp1. unfold j1. look. cbn [mbind res_bind].
    rewrite bool_decide_eq_true_2 by done. cbn [rcheck mbind res_bind]. rewrite Hd, Hnone.
    cbn [mbind res_bind]. rewrite <- Hempty. by destruct h.
  - split_and!; [by apply json_plain_insert|unfold j1; by look|].
    unfold parseCommittedFields, maybeGetString, getString, nullCheck.
    rewrite Hdap by done. unfold j1. look. cbn [mbind res_bind].
    rewrite bool_decide_eq_true_2 by done. cbn [rcheck mbind res_bind]. by destruct h.
Qed.

(** ** The frame *)
Lemma at_app_l (l k : list Z) i : 0 <= i < zlen l -> at_ (l ++ k) i = at_ l i.
Proof.
  intros Hi. unfold at_. rewrite lookup_app_l by (unfold zlen in Hi; lia). done.
Qed.

Lemma back_is_app l k c : k <> [] -> back_is c (l ++ k) = back_is c k.
Proof.
  intros Hk. unfold back_is. destruct k as [|x k _] using rev_ind; [done|].
  by rewrite app_assoc, !last_snoc.
Qed.

Lemma zlen_le_bytes n z : zlen (le_bytes n z) = Z.of_nat n.
Proof. unfold zlen. by rewrite length_le_bytes. Qed.

Lemma zlen_string_bytes s : zlen (string_bytes s) = Z.of_nat (String.length s).
Proof. unfold zlen. by rewrite length_string_bytes. Qed.

(** The frame around a header text and a transaction list. *)
Definition frame (s : string) (body : list Z) : list Z :=
  (le_bytes 8 (Z.of_nat (String.length s)) ++ string_bytes s) ++ 60 :: body ++ [62].

Lemma frame_at_8 s body mid :
  string_bytes s = 123 :: mid -> at_ (frame s body) 8 = Ok 123.
Proof.
  intros Hs. unfold frame. rewrite Hs, <- app_assoc. cbn [app].
  rewrite <- (zlen_le_bytes 8 (Z.of_nat (String.length s)) : zlen _ = 8).
  apply at_middle.
Qed.

Lemma frame_back s body : back_is 62 (frame s body) = true.
Proof.
  unfold frame. change (60 :: body ++ [62]) with ((60 :: body) ++ [62]).
  rewrite app_assoc. unfold back_is. rewrite last_snoc. by apply bool_decide_eq_true_2.
Qed.

Lemma extractHeader_frame s body mid :
  string_bytes s = 123 :: mid -> 2 <= Z.of_nat (String.length s) ->
  Z.of_nat (String.length s) <= MAX_BUFFER_SIZE -> zlen (frame s body) < 2 ^ 63 ->
  extractHeader (frame s body) = Ok s.
Proof.
  intros Hs H2 Hmax Hlen. unfold extractHeader. set (n := Z.of_nat (String.length s)) in *.
  unfold MAX_BUFFER_SIZE in *.
  assert (zlen (frame s body) = 8 + n + zlen body + 2) as Hz.
  { unfold frame. rewrite !zlen_app, zlen_le_bytes, zlen_string_bytes.
    change (60 :: body ++ [62]) with ([60] ++ body ++ [62]). rewrite !zlen_app.
    change (zlen [60]) with 1. change (zlen [62]) with 1. lia. }
  pose proof (zlen_nonneg body). rewrite (proj2 (Z.leb_le 10 _)) by lia. cbn [rcheck mbind res_bind].
  assert (le_value (take 8 (frame s body)) = n) as ->.
  { unfold frame. rewrite <- app_assoc. fold n.
    rewrite <- (length_le_bytes 8 n) at 1. rewrite take_app_length, le_value_bytes.
    apply Z.mod_small. lia. }
  rewrite u64_small by lia. rewrite !(proj2 (Z.leb_le _ _)) by lia. cbn [andb rcheck mbind res_bind].
  unfold at_is. assert (at_ (frame s body) (n + 8) = Ok 60) as ->.
  { unfold frame. replace (n + 8) with (zlen (le_bytes 8 n ++ string_bytes s)).
    - apply at_middle.
    - rewrite zlen_app, zlen_le_bytes, zlen_string_bytes. lia. }
  rewrite (frame_at_8 s body mid Hs), frame_back. cbn [mbind res_bind rcheck Z.eqb Pos.eqb].
  assert (slice (frame s body) 8 n = string_bytes s) as ->.
  { unfold frame. rewrite <- app_assoc.
    pose proof (slice_middle (le_bytes 8 n) (string_bytes s) (60 :: body ++ [62])) as Hsl.
    by rewrite zlen_le_bytes, zlen_string_bytes in Hsl. }
  by rewrite bytes_string_bytes.
Qed.

(** ** Writing and reading a frame *)
Definition fresh_list (l : TransactionList) : TransactionList := mkTransactionList (tl_transactions l).

Definition list_wf (l : TransactionList) : Prop :=
  Forall valid_tx (tl_transactions l) /\
  (tl_serialized l = None \/ tl_serialized l = Some (list_bytes blake3 (tl_transactions l) true)).

Lemma tl_serialize_wf l :
  list_wf l -> (tl_serialize blake3 true l).1 = Ok (list_bytes blake3 (tl_transactions l) true).
Proof.
  destruct l as [ts c]. intros [Hv [Hc|Hc]]; cbn in Hv, Hc; subst c.
  - change (tl_serialize blake3 true _) with (tl_serialize blake3 true (mkTransactionList ts)).
    by rewrite (tl_serialize_ok blake3 ts true Hv).
  - done.
Qed.

Lemma serializedSizes_ok ts : Forall valid_tx ts -> serializedSizes ts = Ok (tx_sizes blake3 ts true).
Proof.
  induction 1 as [|t ts Hv%valid_zlen _ IH]; [done|]. cbn [serializedSizes tx_sizes map].
  unfold getSerializedSize. rewrite (proj2 (Z.ltb_lt _ _) Hv), IH, zlen_tx_bytes by done. done.
Qed.

Lemma serialize_frame fields j l :
  fields {["type"%string := JStr "Blck"]} = Ok j -> is_Some (j !! "proposerNodeID"%string) ->
  Z.of_nat (String.length (json_dump j)) + 8 <= MAX_BUFFER_SIZE -> list_wf l ->
  serializeTransactionsAndCompleteSerialization blake3 json_dump fields l =
    Ok (frame (json_dump j) (txs_bytes blake3 (tl_transactions l) true)).
Proof.
  intros Hf [v Hk] Hmax Hl. destruct (dump_braces j) as [mid Hb]. pose proof (dump_length j _ _ Hk) as Hn.
  set (s := json_dump j) in *. set (n := Z.of_nat (String.length s)) in *.
  assert (22 - 2 <= n) as Hn' by (change (String.length "proposerNodeID") with 14%nat in Hn; lia).
  unfold MAX_BUFFER_SIZE in *. pose proof (zlen_nonneg (txs_bytes blake3 (tl_transactions l) true)).
  unfold serializeTransactionsAndCompleteSerialization, toBuffer, serializeToString.
  rewrite Hf. cbn [mbind res_bind]. cbv zeta. fold s. fold n. rewrite (proj2 (Z.ltb_lt 16 n)) by lia.
  cbn [rcheck mbind res_bind]. rewrite u64_small by lia. unfold MAX_BUFFER_SIZE.
  rewrite (proj2 (Z.leb_le (n + 8) _)) by lia. cbn [rcheck mbind res_bind].
  cbv zeta. fold n. set (buf := le_bytes 8 n ++ string_bytes s).
  assert (zlen buf = 8 + n) as Hbuf by (unfold buf; by rewrite zlen_app, zlen_le_bytes, zlen_string_bytes).
  rewrite (proj2 (Z.leb_le 10 (zlen buf))) by lia. cbn [rcheck mbind res_bind].
  unfold at_is. assert (at_ buf 8 = Ok 123) as Hat.
  { unfold buf. rewrite Hb. rewrite <- (zlen_le_bytes 8 n : zlen _ = 8). apply at_middle. }
  assert (at_ buf (zlen buf - 1) = Ok 125) as ->.
  { unfold buf. rewrite Hb. change (123 :: mid ++ [125]) with ((123 :: mid) ++ [125]).
    rewrite app_assoc. rewrite zlen_app. change (zlen [125]) with 1.
    replace (zlen (le_bytes 8 n ++ 123 :: mid) + 1 - 1) with (zlen (le_bytes 8 n ++ 123 :: mid)) by lia.
    apply at_middle. }
  rewrite Hat. cbn [mbind res_bind rcheck Z.eqb Pos.eqb]. rewrite tl_serialize_wf by done.
  cbn [mbind res_bind]. unfold list_bytes.
  set (body := txs_bytes blake3 (tl_transactions l) true) in *.
  change (front_is 60 ([60] ++ body ++ [62])) with true.
  assert (back_is 62 ([60] ++ body ++ [62]) = true) as ->.
  { unfold back_is. rewrite app_assoc, last_snoc. by apply bool_decide_eq_true_2. }
  cbn [rcheck mbind res_bind].
  change (buf ++ [60] ++ body ++ [62]) with (frame s body).
  rewrite (frame_at_8 s body (mid ++ [125]) Hb), frame_back.
  assert (negb (tl_size l =? 0) || (zlen (frame s body) =? zlen buf + 2) = true) as ->.
  { unfold tl_size, body, frame. destruct (tl_transactions l) as [|t ts]; [|done].
    apply orb_true_iff. right. apply Z.eqb_eq. fold n buf. rewrite zlen_app. done. }
  done.
Qed.

Lemma parseHeaderText_dump j :
  json_plain j -> is_Some (j !! "proposerNodeID"%string) ->
  parseHeaderText json_parse (json_dump j) = Ok j.
Proof.
  intros Hj [v Hk]. pose proof (dump_length j _ _ Hk) as Hn.
  change (String.length "proposerNodeID") with 14%nat in Hn. destruct (dump_braces j) as [mid Hb].
  unfold parseHeaderText. rewrite bool_decide_eq_true_2 by (intros He; rewrite He in Hn; cbn in Hn; lia).
  rewrite (proj2 (Z.ltb_lt 2 _)) by lia. cbn [rcheck mbind res_bind]. unfold front_is, back_is.
  rewrite Hb. rewrite (bool_decide_eq_true_2 (head _ = _)) by done. cbn [rcheck mbind res_bind].
  change (123 :: mid ++ [125]) with ((123 :: mid) ++ [125]). rewrite last_snoc.
  rewrite bool_decide_eq_true_2 by done. cbn [rcheck mbind res_bind]. by apply parse_dump.
Qed.

Lemma deserializeTransactions_frame s ts :
  Forall valid_tx ts -> s <> ""%string -> Z.of_nat (String.length s) + 8 <= MAX_BUFFER_SIZE ->
  zlen (frame s (txs_bytes blake3 ts true)) < 2 ^ 63 ->
  deserializeTransactions blake3 (tx_sizes blake3 ts true) s (frame s (txs_bytes blake3 ts true)) =
    Ok (mkTransactionList ts).
Proof.
  intros Hv Hs Hmax Hlen. unfold deserializeTransactions, MAX_BUFFER_SIZE in *.
  rewrite bool_decide_eq_true_2 by done. cbn [rcheck mbind res_bind].
  set (n := Z.of_nat (String.length s)) in *.
  assert (u32 (n + 8) = zlen (le_bytes 8 n ++ string_bytes s)) as ->.
  { rewrite zlen_app, zlen_le_bytes, zlen_string_bytes. fold n.
    rewrite (wrap_small 32 (n + 8) : _ -> u32 _ = _) by lia. lia. }
  unfold frame in *. fold n in Hlen |- *.
  change (60 :: txs_bytes blake3 ts true ++ [62]) with (list_bytes blake3 ts true) in *.
  rewrite tl_deserialize_ok; [done|done|done| |done].
  rewrite zlen_app, zlen_le_bytes, zlen_string_bytes. fold n. lia.
Qed.

Lemma hexval_range n : 0 <= n < 16 -> 48 <= hexval n < 103.
Proof. intros Hn. unfold hexval. destruct (Z.ltb_spec n 10); lia. Qed.

Lemma plain_bytes l : Forall (fun c => 0 <= c < 128) l -> plain (bytes_string l).
Proof.
  unfold plain. induction 1 as [|c l Hc _ IH]; cbn [bytes_string string_bytes]; [constructor|].
  constructor; [|done]. unfold char_code. rewrite N_ascii_embedding by lia. lia.
Qed.

Lemma land15_range z : 0 <= Z.land z 15 < 16.
Proof. change 15 with (Z.ones 4). rewrite Z.land_ones by lia. apply Z.mod_pos_bound. lia. Qed.

Lemma plain_toHex h : plain (toHex h).
Proof.
  apply plain_bytes. induction h as [|b h IH]; cbn [carray2Hex]; [constructor|].
  pose proof (hexval_range _ (land15_range (Z.shiftr b 4))).
  pose proof (hexval_range _ (land15_range b)). repeat constructor; try lia. done.
Qed.

(** A proposal as the constructors make it. *)
Definition proposal_wf (p : BlockProposal) : Prop :=
  word 64 (bp_proposerIndex p) /\ word 64 (bp_proposerNodeID p) /\ word 64 (bp_schainID p) /\
  word 64 (bp_blockID p) /\ word 256 (bp_stateRoot p) /\ MODERN_TIME < bp_timeStamp p < 2 ^ 64 /\
  word 32 (bp_timeStampMs p) /\ (bp_proposerIndex p = 0 -> bp_stateRoot p = 0) /\
  list_wf (bp_transactionList p) /\
  bp_calculateHash blake3 export_bits (bp_proposerIndex p) (bp_proposerNodeID p) (bp_schainID p)
    (bp_blockID p) (bp_timeStamp p) (bp_timeStampMs p) (bp_stateRoot p) (bp_transactionList p) =
    Ok (bp_hash p) /\
  bp_signature p <> ""%string /\ plain (bp_signature p) /\
  zlen (txs_bytes blake3 (tl_transactions (bp_transactionList p)) true) < 2 ^ 62.

Definition fresh_proposal (p : BlockProposal) : BlockProposal :=
  {| bp_schainID := bp_schainID p; bp_proposerNodeID := bp_proposerNodeID p;
     bp_blockID := bp_blockID p; bp_proposerIndex := bp_proposerIndex p;
     bp_timeStamp := bp_timeStamp p; bp_timeStampMs := bp_timeStampMs p;
     bp_stateRoot := bp_stateRoot p; bp_transactionList := fresh_list (bp_transactionList p);
     bp_hash := bp_hash p; bp_signature := bp_signature p |}.

(** The header of a proposal. *)
Definition header_of (p : BlockProposal) : BlockProposalHeader :=
  {| bh_proposerIndex := bp_proposerIndex p; bh_proposerNodeID := bp_proposerNodeID p;
     bh_schainID := bp_schainID p; bh_blockID := bp_blockID p; bh_blockHash := toHex (bp_hash p);
     bh_stateRoot := bp_stateRoot p; bh_signature := bp_signature p; bh_timeStamp := bp_timeStamp p;
     bh_timeStampMs := bp_timeStampMs p;
     bh_transactionSizes := tx_sizes blake3 (tl_transactions (bp_transactionList p)) true |}.

Lemma tx_sizes_word ts :
  zlen (txs_bytes blake3 ts true) < 2 ^ 62 -> Forall (word 64) (tx_sizes blake3 ts true).
Proof.
  induction ts as [|t ts IH]; intros Hl; [constructor|].
  assert (txs_bytes blake3 (t :: ts) true = tx_bytes blake3 t true ++ txs_bytes blake3 ts true) as Hc
    by done.
  rewrite Hc, zlen_app in Hl. pose proof (zlen_nonneg (tx_bytes blake3 t true)).
  pose proof (zlen_nonneg (txs_bytes blake3 ts true)).
  constructor; [unfold word; lia|apply IH; lia].
Qed.

Lemma header_of_wf p : proposal_wf p -> mkProposalHeader p = Ok (header_of p) /\ header_wf (header_of p).
Proof.
  intros (?&?&?&?&?&?&?&?& [Hv Hc] &?&?&?&?). split.
  - unfold mkProposalHeader, getSignature. rewrite bool_decide_eq_true_2 by done.
    cbn [rcheck mbind res_bind]. by rewrite serializedSizes_ok.
  - unfold header_wf, header_of. cbn. unfold MODERN_TIME in *.
    split_and!; try done; try lia; [apply plain_toHex|by apply tx_sizes_word].
Qed.

Lemma remake_proposal p :
  proposal_wf p ->
  mkBlockProposal blake3 export_bits (bp_schainID p) (bp_proposerNodeID p) (bp_blockID p)
    (bp_proposerIndex p) (fresh_list (bp_transactionList p)) (bp_stateRoot p) (bp_timeStamp p)
    (bp_timeStampMs p) (bp_signature p) None = Ok (fresh_proposal p).
Proof.
  intros (?&?&?&?&?& Ht &?& Hz & Hl & Hh & Hs &?&?). unfold mkBlockProposal.
  assert ((if bp_proposerIndex p =? 0 then 0 else bp_stateRoot p) = bp_stateRoot p) as ->.
  { destruct (Z.eqb_spec (bp_proposerIndex p) 0); [by rewrite Hz|done]. }
  rewrite (proj2 (Z.ltb_lt _ _)) by lia. cbn [rcheck mbind res_bind].
  change (bp_calculateHash blake3 export_bits (bp_proposerIndex p) (bp_proposerNodeID p) (bp_schainID p)
    (bp_blockID p) (bp_timeStamp p) (bp_timeStampMs p) (bp_stateRoot p) (fresh_list (bp_transactionList p)))
    with (bp_calculateHash blake3 export_bits (bp_proposerIndex p) (bp_proposerNodeID p) (bp_schainID p)
    (bp_blockID p) (bp_timeStamp p) (bp_timeStampMs p) (bp_stateRoot p) (bp_transactionList p)).
  rewrite Hh. cbn [mbind res_bind]. by rewrite bool_decide_eq_true_2.
Qed.

(** ** Proposals and blocks *)
Context (verifyECDSASig : list Z -> string -> Z -> Z -> res unit).
Context (verifyThresholdSig : string -> Z -> list Z -> TimeStamp -> res unit).
Context (verifyDAProofSig : list Z -> string -> Z -> Z -> res unit).
Local Abbreviation parseBlock := (deserializeBlock blake3 u256_parse export_bits json_parse verifyECDSASig
  verifyThresholdSig verifyDAProofSig).
Local Abbreviation parseProposal := (deserializeProposal blake3 u256_parse export_bits json_parse
  verifyECDSASig).

(** The text of the header fits into the buffer. *)
Definition fits (fields : json -> res json) : Prop := forall j,
  fields {["type"%string := JStr "Blck"]} = Ok j ->
  Z.of_nat (String.length (json_dump j)) + 8 <= MAX_BUFFER_SIZE.

Lemma type_plain : json_plain {["type"%string := JStr "Blck"]}.
Proof.
  intros k v [<- <-]%lookup_singleton_Some. unfold plain. cbn. repeat constructor; lia.
Qed.

Lemma dump_nonempty j : is_Some (j !! "proposerNodeID"%string) -> json_dump j <> ""%string.
Proof. intros [v Hv] He. pose proof (dump_length j _ _ Hv) as Hn. rewrite He in Hn. cbn in Hn. lia. Qed.

Lemma frame_small s ts :
  Z.of_nat (String.length s) + 8 <= MAX_BUFFER_SIZE -> zlen (txs_bytes blake3 ts true) < 2 ^ 62 ->
  zlen (frame s (txs_bytes blake3 ts true)) < 2 ^ 63.
Proof.
  intros Hs Hl. unfold frame, MAX_BUFFER_SIZE in *.
  change (60 :: txs_bytes blake3 ts true ++ [62]) with ([60] ++ txs_bytes blake3 ts true ++ [62]).
  rewrite !zlen_app, zlen_le_bytes, zlen_string_bytes.
  change (zlen [60]) with 1. change (zlen [62]) with 1. lia.
Qed.

(** A frame with a header text reads back. *)
Lemma read_frame j ts :
  json_plain j -> is_Some (j !! "proposerNodeID"%string) ->
  Z.of_nat (String.length (json_dump j)) + 8 <= MAX_BUFFER_SIZE ->
  Forall valid_tx ts -> zlen (txs_bytes blake3 ts true) < 2 ^ 62 ->
  let bytes := frame (json_dump j) (txs_bytes blake3 ts true) in
  extractHeader bytes = Ok (json_dump j) /\ json_dump j <> ""%string /\
  parseHeaderText json_parse (json_dump j) = Ok j /\
  deserializeTransactions blake3 (tx_sizes blake3 ts true) (json_dump j) bytes =
    Ok (mkTransactionList ts) /\
  serializedSanityCheck bytes = Ok tt.
Proof.
  intros Hj Hk Hmax Hv Hl. cbv zeta. destruct (dump_braces j) as [mid Hb].
  assert (2 <= Z.of_nat (String.length (json_dump j))) as H2.
  { destruct Hk as [v Hv']. pose proof (dump_length j _ _ Hv'). lia. }
  pose proof (frame_small _ ts Hmax Hl). split_and!.
  - apply (extractHeader_frame _ _ (mid ++ [125])); [done|done|lia|done].
  - by apply dump_nonempty.
  - by apply parseHeaderText_dump.
  - apply deserializeTransactions_frame; auto using dump_nonempty.
  - unfold serializedSanityCheck, at_is. rewrite (frame_at_8 _ _ (mid ++ [125]) Hb), frame_back. done.
Qed.

Lemma proposal_roundtrip p :
  proposal_wf p -> fits (addFields u256_str (header_of p)) ->
  exists text,
    let bytes := frame text (txs_bytes blake3 (tl_transactions (bp_transactionList p)) true) in
    serializeProposal blake3 u256_str json_dump p = Ok bytes /\
    serializedSanityCheck bytes = Ok tt /\
    forall verifySig : bool,
      (verifySig = true -> bp_proposerIndex p <> 0 -> toHex (bp_hash p) <> ""%string /\
         verifyECDSASig (bp_hash p) (bp_signature p) (bp_proposerNodeID p) (bp_timeStamp p) = Ok tt) ->
      parseProposal bytes verifySig = Ok (fresh_proposal p).
Proof.
  intros Hwf Hfits. destruct (header_of_wf p Hwf) as [Hmk Hhw].
  destruct (addFields_parse (header_of p) _ Hhw type_plain) as (j & Hj & Hpl & Hk & Hp & _).
  pose proof (Hfits j Hj) as Hmax. pose proof (remake_proposal p Hwf) as Hremake.
  destruct Hwf as (?&?&?&?&?&?&?&?& Hl &?& Hs &?& Hlen). pose proof (proj1 Hl) as Hv.
  destruct (read_frame j _ Hpl Hk Hmax Hv Hlen) as (He & Hne & Ht & Hd & Hsan).
  exists (json_dump j). cbv zeta. split_and!; [|done|].
  - unfold serializeProposal. rewrite Hmk. cbn [mbind res_bind]. by apply serialize_frame.
  - intros verifySig Hver.
    unfold deserializeProposal, parseBlockHeader. rewrite He. cbn [mbind res_bind].
    rewrite bool_decide_eq_true_2 by done. cbn [rcheck mbind res_bind]. rewrite Ht.
    cbn [mbind res_bind]. rewrite Hp. cbn [rnested mbind res_bind header_of bh_transactionSizes].
    rewrite Hd. cbn [mbind res_bind header_of bh_signature]. unfold getSignature.
    rewrite bool_decide_eq_true_2 by done. cbn [rcheck mbind res_bind].
    cbn [header_of bh_signature bh_schainID bh_proposerNodeID bh_blockID bh_proposerIndex bh_stateRoot bh_timeStamp
      bh_timeStampMs bh_blockHash].
    unfold fresh_list in Hremake. rewrite Hremake. cbn [mbind res_bind].
    destruct (verifySig && negb (bp_proposerIndex p =? 0)) eqn:Hb; [|done].
    apply andb_true_iff in Hb as [-> Hb%negb_true_iff]. pose proof Hb as Hb'%Z.eqb_neq.
    destruct (Hver eq_refl Hb') as [Hhex Hec].
    unfold verifyProposalECDSA. cbn [fresh_proposal bp_proposerIndex bp_hash bp_proposerNodeID bp_timeStamp].
    rewrite Hb, Hec, !bool_decide_eq_true_2 by done. done.
Qed.

Definition block_wf (b : CommittedBlock) : Prop :=
  proposal_wf (cb_block b) /\ cb_thresholdSig b <> ""%string /\ plain (cb_thresholdSig b) /\
  plain (cb_daSig b).

Definition committed_header_of (b : CommittedBlock) : CommittedBlockHeader :=
  {| ch_header := header_of (cb_block b); ch_thresholdSig := cb_thresholdSig b;
     ch_daSig := cb_daSig b |}.

Definition fresh_block (b : CommittedBlock) : CommittedBlock :=
  {| cb_block := fresh_proposal (cb_block b); cb_thresholdSig := cb_thresholdSig b;
     cb_daSig := cb_daSig b |}.

(** The signatures of the block verify. *)
Definition block_signed (b : CommittedBlock) : Prop :=
  let p := cb_block b in
  toHex (bp_hash p) <> ""%string /\
  verifyThresholdSig (cb_thresholdSig b) (bp_blockID p)
    (consensusHash blake3 (bp_proposerIndex p) (bp_blockID p) (bp_schainID p)) (getTimeStamp p) =
    Ok tt /\
  (bp_proposerIndex p <> 0 ->
     verifyECDSASig (bp_hash p) (bp_signature p) (bp_proposerNodeID p) (bp_timeStamp p) = Ok tt) /\
  (bp_proposerIndex p <> 0 ->
     verifyDAProofSig (bp_hash p) (cb_daSig b) (bp_blockID p) (bp_timeStamp p) = Ok tt).

(** The checks that follow parsing pass on a signed block. *)
Lemma signed_block_checks b :
  block_signed b -> bp_signature (cb_block b) <> ""%string -> cb_thresholdSig b <> ""%string ->
  let f := fresh_block b in
  (if negb (bp_proposerIndex (cb_block b) =? 0)
   then rnested_all InvalidStateException
          (verifyProposalECDSA verifyECDSASig (cb_block f) (toHex (bp_hash (cb_block b)))
             (bp_signature (cb_block b)))
   else Ok tt) = Ok tt /\
  cb_verifyBlockSig blake3 verifyThresholdSig f = Ok tt /\
  (isLegacy f = false -> cb_verifyDaSig verifyDAProofSig f = Ok tt).
Proof.
  intros (Hhex & Hthr & Hec & Hda) Hs Ht f. split_and!.
  - destruct (Z.eqb_spec (bp_proposerIndex (cb_block b)) 0) as [|Hne]; [done|]. cbn [negb].
    unfold verifyProposalECDSA. cbn [f fresh_block cb_block fresh_proposal bp_proposerIndex bp_hash
      bp_proposerNodeID bp_timeStamp].
    rewrite (proj2 (Z.eqb_neq _ _) Hne), Hec, !bool_decide_eq_true_2 by done. done.
  - unfold cb_verifyBlockSig. cbn [f fresh_block cb_block cb_thresholdSig].
    rewrite bool_decide_eq_true_2 by done. cbn [rcheck mbind res_bind].
    unfold getTimeStamp in *.
    cbn [fresh_proposal bp_proposerIndex bp_blockID bp_schainID bp_timeStamp bp_timeStampMs] in *.
    by rewrite Hthr.
  - intros _. unfold cb_verifyDaSig.
    cbn [f fresh_block cb_block cb_daSig fresh_proposal bp_proposerIndex bp_hash bp_blockID bp_timeStamp].
    destruct (Z.eqb_spec (bp_proposerIndex (cb_block b)) 0) as [|Hne]; [done|]. by apply Hda.
Qed.

Lemma block_roundtrip b :
  block_wf b -> fits (addCommittedFields u256_str (committed_header_of b)) ->
  exists text,
    let bytes := frame text (txs_bytes blake3 (tl_transactions (bp_transactionList (cb_block b))) true) in
    serializeBlock blake3 u256_str json_dump b = Ok bytes /\
    serializedSanityCheck bytes = Ok tt /\
    forall v : bool, (v = true -> block_signed b) -> parseBlock bytes v = Ok (fresh_block b).
Proof.
  intros (Hwf & Htne & Htp & Hdp) Hfits. set (p := cb_block b) in *.
  destruct (header_of_wf p Hwf) as [Hmk Hhw].
  assert (committed_header_wf (committed_header_of b)) as Hchw by done.
  destruct (addCommittedFields_parse _ _ Hchw type_plain) as (j & Hj & Hpl & Hk & Hp); [done|].
  pose proof (Hfits j Hj) as Hmax. pose proof (remake_proposal p Hwf) as Hremake.
  destruct Hwf as (?&?&?&?&?&?& Hms &?& Hl &?& Hs &?& Hlen). pose proof (proj1 Hl) as Hv.
  destruct (read_frame j _ Hpl Hk Hmax Hv Hlen) as (He & Hne & Ht & Hd & Hsan).
  exists (json_dump j). cbv zeta. split_and!; [| done |].
  - unfold serializeBlock, mkCommittedHeader. fold p. rewrite Hmk. cbn [mbind res_bind].
    rewrite bool_decide_eq_true_2 by done. cbn [rcheck mbind res_bind]. by apply serialize_frame.
  - intros v Hver.
    unfold deserializeBlock, parseCommittedHeader. rewrite Hsan. cbn [mbind res_bind]. rewrite He.
    cbn [mbind res_bind]. rewrite bool_decide_eq_true_2 by done. cbn [rcheck mbind res_bind].
    rewrite Ht. cbn [mbind res_bind]. rewrite Hp. cbn [rnested mbind res_bind].
    cbn [committed_header_of ch_header header_of bh_transactionSizes]. fold p. rewrite Hd.
    cbn [rnested_all mbind res_bind header_of committed_header_of ch_header bh_signature].
    unfold getSignature.
    rewrite bool_decide_eq_true_2 by done. cbn [rcheck mbind res_bind].
    unfold makeCommittedBlock. rewrite !bool_decide_eq_true_2 by done. cbn [rcheck mbind res_bind].
    cbn [header_of committed_header_of ch_header bh_signature bh_schainID bh_proposerNodeID bh_blockID bh_proposerIndex bh_stateRoot bh_timeStamp
      bh_timeStampMs bh_blockHash ch_thresholdSig ch_daSig].
    rewrite (wrap_small 32 (bp_timeStampMs p) : _ -> u32 _ = _) by done.
    unfold fresh_list in Hremake. rewrite Hremake. cbn [mbind res_bind rnested_all].
    destruct v; cbn [negb]; [|done].
    destruct (signed_block_checks b (Hver eq_refl) Hs Htne) as (Hc1 & Hc2 & Hc3).
    unfold fresh_block in Hc1, Hc2, Hc3. fold p in Hc1, Hc2, Hc3. cbn [cb_block] in *.
    rewrite Hc1, Hc2. cbn [mbind res_bind rnested_all].
    destruct (isLegacy _); [done|]. by rewrite Hc3.
Qed.

(** A committed block whose header fits the buffer is stored without loss:
    it serializes, the bytes pass the sanity check that the database makes, and
    parsing them gives the block back with every field and transaction (only
    the cached bytes of the list are gone); parsing them with verification does
    the same when the block's signatures verify. *)
Theorem committed_block_roundtrip b :
  block_wf b -> fits (addCommittedFields u256_str (committed_header_of b)) ->
  exists bytes,
    serializeBlock blake3 u256_str json_dump b = Ok bytes /\
    serializedSanityCheck bytes = Ok tt /\ parseBlock bytes false = Ok (fresh_block b) /\
    (block_signed b -> parseBlock bytes true = Ok (fresh_block b)).
Proof.
  intros Hwf Hfits. destruct (block_roundtrip b Hwf Hfits) as (text & Hs & Hc & Hp).
  eexists. split_and!; [exact Hs|exact Hc|by apply Hp|]. intros Hsig. by apply Hp.
Qed.
End RoundTrip.

(** ** Verification *)
Section Verified.
Context (blake3 : list Z -> list Z).
Context (u256_parse : string -> res Z) (export_bits : Z -> list Z) (json_parse : string -> res json).
Context (verifyECDSASig : list Z -> string -> Z -> Z -> res unit).
Context (verifyThresholdSig : string -> Z -> list Z -> TimeStamp -> res unit).
Context (verifyDAProofSig : list Z -> string -> Z -> Z -> res unit).

Lemma rnested_all_Ok {A} e (r : res A) a : rnested_all e r = Ok a -> r = Ok a.
Proof. destruct r as [|[]]; cbn; congruence. Qed.

Lemma mkBlockProposal_hash sid nid bid pi l sr ts ms sig b :
  mkBlockProposal blake3 export_bits sid nid bid pi l sr ts ms sig None = Ok b ->
  bp_calculateHash blake3 export_bits (bp_proposerIndex b) (bp_proposerNodeID b) (bp_schainID b)
    (bp_blockID b) (bp_timeStamp b) (bp_timeStampMs b) (bp_stateRoot b) (bp_transactionList b) =
    Ok (bp_hash b) /\ bp_proposerIndex b = pi /\ bp_signature b = sig /\ MODERN_TIME < bp_timeStamp b.
Proof.
  unfold mkBlockProposal. destruct (Z.ltb_spec MODERN_TIME ts); cbn [rcheck mbind res_bind]; [|done].
  destruct (bp_calculateHash _ _ _ _ _ _ _ _ _) as [h|] eqn:Hh; cbn [mbind res_bind]; [|done].
  destruct (bool_decide _); cbn [rcheck mbind res_bind]; [|done]. intros [= <-]. done.
Qed.

(** What verification establishes about a block. *)
Definition block_authentic (b : CommittedBlock) : Prop :=
  let p := cb_block b in
  bp_calculateHash blake3 export_bits (bp_proposerIndex p) (bp_proposerNodeID p) (bp_schainID p)
    (bp_blockID p) (bp_timeStamp p) (bp_timeStampMs p) (bp_stateRoot p) (bp_transactionList p) =
    Ok (bp_hash p) /\
  MODERN_TIME < bp_timeStamp p /\
  verifyThresholdSig (cb_thresholdSig b) (bp_blockID p)
    (consensusHash blake3 (bp_proposerIndex p) (bp_blockID p) (bp_schainID p)) (getTimeStamp p) =
    Ok tt /\
  (bp_proposerIndex p <> 0 ->
     verifyECDSASig (bp_hash p) (bp_signature p) (bp_proposerNodeID p) (bp_timeStamp p) = Ok tt) /\
  (bp_proposerIndex p <> 0 -> cb_daSig b <> ""%string ->
     verifyDAProofSig (bp_hash p) (cb_daSig b) (bp_blockID p) (bp_timeStamp p) = Ok tt).

Lemma deserialized_authentic bytes b :
  deserializeBlock blake3 u256_parse export_bits json_parse verifyECDSASig verifyThresholdSig
    verifyDAProofSig bytes true = Ok b -> block_authentic b.
Proof.
  unfold deserializeBlock. intros Hd.
  destruct (serializedSanityCheck bytes) as [[]|]; cbn [mbind res_bind] in Hd; [|done].
  destruct (extractHeader bytes) as [hs|]; cbn [mbind res_bind] in Hd; [|done].
  destruct (bool_decide (hs <> _)); cbn [rcheck mbind res_bind] in Hd; [|done].
  destruct (rnested _ _) as [h|]; cbn [mbind res_bind] in Hd; [|done].
  destruct (rnested_all _ (deserializeTransactions _ _ _ _)) as [l|]; cbn [mbind res_bind] in Hd; [|done].
  destruct (rnested_all _ (_ ≫= _)) as [blk|] eqn:Hm; cbn [mbind res_bind negb] in Hd; [|done].
  apply rnested_all_Ok in Hm. unfold getSignature, makeCommittedBlock in Hm.
  destruct (bool_decide (bh_signature (ch_header h) <> ""%string)) eqn:Hsg;
    cbn [rcheck mbind res_bind] in Hm; [|done].
  rewrite Hsg in Hm. cbn [rcheck mbind res_bind] in Hm.
  destruct (bool_decide (ch_thresholdSig h <> ""%string)) eqn:Ht; cbn [rcheck mbind res_bind] in Hm; [|done].
  destruct (mkBlockProposal _ _ _ _ _ _ _ _ _ _ _ _) as [q|] eqn:Hq; cbn [mbind res_bind] in Hm; [|done].
  injection Hm as <-. apply mkBlockProposal_hash in Hq as (Hhash & Hpi & Hsig & Hts).
  cbn [cb_block] in Hd. rewrite <- Hpi in Hd.
  destruct (if negb (bp_proposerIndex q =? 0) then _ else _) as [[]|] eqn:He;
    cbn [mbind res_bind] in Hd; [|done].
  destruct (rnested_all _ (cb_verifyBlockSig _ _ _)) as [[]|] eqn:Hb; cbn [mbind res_bind] in Hd; [|done].
  destruct (if isLegacy _ then _ else _) as [[]|] eqn:Hda; cbn [mbind res_bind] in Hd; [|done].
  injection Hd as <-. unfold block_authentic. cbn [cb_block cb_thresholdSig cb_daSig] in *. split_and!; [done|done| | |].
  - apply rnested_all_Ok in Hb. unfold cb_verifyBlockSig in Hb. cbn [cb_thresholdSig cb_block] in Hb.
    rewrite Ht in Hb. cbn [rcheck mbind res_bind] in Hb. by apply rnested_all_Ok in Hb.
  - intros Hne. rewrite (proj2 (Z.eqb_neq _ 0) Hne) in He. cbn [negb] in He.
    apply rnested_all_Ok in He. unfold verifyProposalECDSA in He.
    do 4 (match type of He with
      | rcheck _ ?b ≫= _ = _ => destruct b; cbn [rcheck mbind res_bind] in He; [|done]
      end).
    rewrite <- Hsig in He. by apply rnested_all_Ok in He.
  - intros Hne Hs. unfold isLegacy in Hda. cbn [cb_daSig] in Hda.
    rewrite bool_decide_eq_false_2 in Hda by done. apply rnested_all_Ok in Hda.
    unfold cb_verifyDaSig in Hda. cbn [cb_block cb_daSig] in Hda.
    by rewrite (proj2 (Z.eqb_neq _ 0) Hne) in Hda.
Qed.

(** A block that came through catchup and was parsed with verification is
    authentic: its hash is the hash of its fields and transactions, its block
    signature verifies for its proposer, number and chain, a block that is not
    the default one carries a valid ECDSA signature of its proposer on that
    hash, and, unless it is from before data availability signatures, a valid
    one of those. *)
Theorem deserialized_block_verified bytes b :
  deserializeBlock blake3 u256_parse export_bits json_parse verifyECDSASig verifyThresholdSig
    verifyDAProofSig bytes true = Ok b ->
  block_authentic b.
Proof. apply deserialized_authentic. Qed.
End Verified.

(** ** The hash binds the proposal *)
Section Binding.
Context (blake3 : list Z -> list Z) (blake3_length : forall x, hash_sized (blake3 x)).
(** What is known of [export_bits]: bytes, and different ones for different
    words. *)
Context (export_bits : Z -> list Z).
Context (export_bytes : forall z, Forall is_byte (export_bits z)).
Context (export_inj : forall a b, word 256 a -> word 256 b -> export_bits a = export_bits b -> a = b).

Lemma hexval_inj a b : 0 <= a < 16 -> 0 <= b < 16 -> hexval a = hexval b -> a = b.
Proof. unfold hexval. destruct (Z.ltb_spec a 10), (Z.ltb_spec b 10); lia. Qed.

Lemma byte_nibbles b : is_byte b -> b = 16 * Z.land (Z.shiftr b 4) 15 + Z.land b 15.
Proof.
  unfold is_byte. intros Hb. change 15 with (Z.ones 4). rewrite !Z.land_ones, Z.shiftr_div_pow2 by lia.
  change (2 ^ 4) with 16. pose proof (Z.div_mod b 16 ltac:(lia)).
  rewrite (Z.mod_small (b / 16)); [lia|].
  split; [apply Z.div_pos; lia|apply Z.div_lt_upper_bound; lia].
Qed.

Lemma carray2Hex_inj l l' :
  Forall is_byte l -> Forall is_byte l' -> carray2Hex l = carray2Hex l' -> l = l'.
Proof.
  intros Hl. revert l'. induction Hl as [|b l Hb _ IH]; intros l' Hl' Heq;
    destruct Hl' as [|b' l' Hb' Hl']; try done.
  cbn [carray2Hex] in Heq. injection Heq as Hhi Hlo Htl.
  apply hexval_inj in Hhi; [|apply land15_range..]. apply hexval_inj in Hlo; [|apply land15_range..].
  rewrite (byte_nibbles b Hb), (byte_nibbles b' Hb'), Hhi, Hlo. f_equal. by apply IH.
Qed.

Lemma le_bytes_inj n a b :
  word (8 * Z.of_nat n) a -> word (8 * Z.of_nat n) b -> le_bytes n a = le_bytes n b -> a = b.
Proof.
  unfold word. intros Ha Hb Heq. rewrite <- (Z.mod_small a (2 ^ (8 * Z.of_nat n))) by done.
  rewrite <- (Z.mod_small b (2 ^ (8 * Z.of_nat n))) by done. by rewrite <- !le_value_bytes, Heq.
Qed.

Lemma le_bytes_app_inj n a b k k' :
  word (8 * Z.of_nat n) a -> word (8 * Z.of_nat n) b ->
  le_bytes n a ++ k = le_bytes n b ++ k' -> a = b /\ k = k'.
Proof.
  intros Ha Hb Heq. apply app_inj_1 in Heq as [Heq ->]; [|by rewrite !length_le_bytes].
  by apply le_bytes_inj in Heq.
Qed.

(** The fields that the hash covers. *)
Record hashed_fields := {
  hf_proposerIndex : Z; hf_proposerNodeID : Z; hf_schainID : Z; hf_blockID : Z;
  hf_timeStamp : Z; hf_timeStampMs : Z; hf_stateRoot : Z; hf_transactions : list Transaction
}.

Definition hash_of (f : hashed_fields) : res (list Z) :=
  bp_calculateHash blake3 export_bits (hf_proposerIndex f) (hf_proposerNodeID f) (hf_schainID f)
    (hf_blockID f) (hf_timeStamp f) (hf_timeStampMs f) (hf_stateRoot f)
    (mkTransactionList (hf_transactions f)).

Definition input_of (f : hashed_fields) : res (list Z) :=
  hash_input blake3 export_bits (hf_proposerIndex f) (hf_proposerNodeID f) (hf_schainID f)
    (hf_blockID f) (hf_timeStamp f) (hf_timeStampMs f) (hf_stateRoot f)
    (mkTransactionList (hf_transactions f)).

Definition fields_wf (f : hashed_fields) : Prop :=
  word 64 (hf_proposerIndex f) /\ word 64 (hf_proposerNodeID f) /\ word 64 (hf_schainID f) /\
  word 64 (hf_blockID f) /\ word 64 (hf_timeStamp f) /\ word 32 (hf_timeStampMs f) /\
  word 256 (hf_stateRoot f) /\ word 64 (zlen (hf_transactions f)).

(** Everything that is hashed on the way to the hash of a proposal. *)
Definition proposal_input (f : hashed_fields) (x : list Z) : Prop :=
  input_of f = Ok x \/ root_input blake3 (hf_transactions f) x.

(** The Merkle part of the input. *)
Definition root_bytes (ts : list Transaction) : res (list Z) :=
  if 0 <? zlen ts then tl_calculateTopMerkleRoot blake3 (mkTransactionList ts) else Ok [].

Lemma merkle_of_sized l h : merkle_of blake3 l h -> Forall hash_sized l -> hash_sized h.
Proof.
  induction 1 as [h|l h _ _ IH]; intros Hl; [by inversion Hl|].
  apply IH. by apply pair_up_sized.
Qed.

Lemma root_bytes_ok ts :
  exists r, root_bytes ts = Ok r /\ length r = (if 0 <? zlen ts then 32%nat else 0%nat) /\
    (ts <> [] -> merkle_of blake3 (map (tx_getHash blake3) ts) r).
Proof.
  unfold root_bytes. destruct ts as [|t ts]; [by exists []|].
  assert ((0 <? zlen (t :: ts)) = true) as -> by (apply Z.ltb_lt; unfold zlen; cbn; lia).
  destruct (calculateTopMerkleRoot_ok blake3 (map (tx_getHash blake3) (t :: ts))) as (h & Hh & Hm);
    [done|].
  exists h. split_and!; [done| |done]. apply (merkle_of_sized _ h Hm).
  apply Forall_map, Forall_forall. intros x _. apply blake3_length.
Qed.

Lemma input_of_eq f r :
  root_bytes (hf_transactions f) = Ok r ->
  let n := zlen (hf_transactions f) in
  input_of f = Ok (le_bytes 8 (hf_proposerIndex f) ++ le_bytes 8 (hf_proposerNodeID f) ++
    le_bytes 8 (hf_schainID f) ++ le_bytes 8 (hf_blockID f) ++ le_bytes 8 n ++
    le_bytes 8 (hf_timeStamp f) ++ le_bytes 4 (hf_timeStampMs f) ++ le_bytes 4 (u32 n) ++
    carray2Hex (export_bits (hf_stateRoot f)) ++ r).
Proof.
  intros Hr. unfold input_of, hash_input.
  change (if 0 <? tl_size _ then _ else _) with (root_bytes (hf_transactions f)). by rewrite Hr.
Qed.

Lemma roots_binding ts ts' r :
  length ts = length ts' -> root_bytes ts = Ok r -> root_bytes ts' = Ok r ->
  ts = ts' \/ collision blake3 (root_input blake3 ts) (root_input blake3 ts').
Proof.
  intros Hlen Hr Hr'. destruct ts as [|t ts]; [left; by destruct ts'|].
  destruct ts' as [|t' ts']; [done|].
  destruct (root_bytes_ok (t :: ts)) as (q & Hq & _ & Hm).
  destruct (root_bytes_ok (t' :: ts')) as (q' & Hq' & _ & Hm').
  rewrite Hr in Hq. rewrite Hr' in Hq'. injection Hq as <-. injection Hq' as <-.
  apply (transactions_binding blake3 blake3_length _ _ r); [done|by apply Hm|by apply Hm'].
Qed.

(** C39: The hash of a proposal binds everything that the proposal says: two
    proposals with the same hash have the same proposer, node, chain, block
    number, time, state root and transactions, unless an input hashed for one
    of them collides with an input hashed for the other. *)
Theorem proposal_hash_binding f f' h :
  fields_wf f -> fields_wf f' -> hash_of f = Ok h -> hash_of f' = Ok h ->
  f = f' \/ collision blake3 (proposal_input f) (proposal_input f').
Proof.
  intros (H1 & H2 & H3 & H4 & H5 & H6 & H7 & H8) (H1' & H2' & H3' & H4' & H5' & H6' & H7' & H8') Hh Hh'.
  destruct (root_bytes_ok (hf_transactions f)) as (r & Hr & Hrl & _).
  destruct (root_bytes_ok (hf_transactions f')) as (r' & Hr' & Hrl' & _).
  unfold hash_of, bp_calculateHash in Hh, Hh'. fold (input_of f) in Hh. fold (input_of f') in Hh'.
  destruct (input_of f) as [x|] eqn:Hx; cbn [mbind res_bind] in Hh; [|done].
  destruct (input_of f') as [x'|] eqn:Hx'; cbn [mbind res_bind] in Hh'; [|done].
  injection Hh as Hh. injection Hh' as Hh'.
  destruct (decide (x = x')) as [<-|Hne]; cycle 1.
  { right. exists x, x'. split_and!; [by left|by left|done|congruence]. }
  rewrite (input_of_eq f r Hr) in Hx. rewrite (input_of_eq f' r' Hr') in Hx'.
  apply (inj Ok) in Hx, Hx'. rewrite <- Hx' in Hx.
  apply le_bytes_app_inj in Hx as [E1 Hx]; [|done..]. apply le_bytes_app_inj in Hx as [E2 Hx]; [|done..].
  apply le_bytes_app_inj in Hx as [E3 Hx]; [|done..]. apply le_bytes_app_inj in Hx as [E4 Hx]; [|done..].
  apply le_bytes_app_inj in Hx as [E5 Hx]; [|done..]. apply le_bytes_app_inj in Hx as [E6 Hx]; [|done..].
  apply le_bytes_app_inj in Hx as [E7 Hx]; [|done..].
  apply app_inj_1 in Hx as [_ Hx]; [|by rewrite !length_le_bytes].
  apply app_inj_2 in Hx as [Hsr ->]; [|by rewrite Hrl, Hrl', E5].
  apply carray2Hex_inj, export_inj in Hsr; [|done|done|apply export_bytes..].
  destruct (roots_binding (hf_transactions f) (hf_transactions f') r') as [Ht|(y & z & ? & ? & ?)];
    [unfold zlen in E5; lia|done..| |].
  - left. destruct f, f'. cbn in *. by subst.
  - right. exists y, z. unfold proposal_input. tauto.
Qed.
End Binding.

(** ** Witnesses *)

(** A printer and parser for the objects: the number of the object in binary,
    then the keys, each with some room for its value. *)
Definition jval_code (v : jval) : Z + string + list Z :=
  match v with JNum n => inl (inl n) | JStr s => inl (inr s) | JArr l => inr l end.

Definition jval_decode (c : Z + string + list Z) : jval :=
  match c with inl (inl n) => JNum n | inl (inr s) => JStr s | inr l => JArr l end.

#[export] Instance jval_eq_dec : EqDecision jval.
Proof. solve_decision. Defined.

#[export] Program Instance jval_countable : Countable jval := inj_countable' jval_code jval_decode _.
Next Obligation. by intros []. Qed.

Fixpoint bits (p : positive) : string :=
  match p with
  | xH => ""
  | xO p => String "0" (bits p)
  | xI p => String "1" (bits p)
  end.

Fixpoint read_bits (s : string) : positive :=
  match s with
  | String "0" s => xO (read_bits s)
  | String "1" s => xI (read_bits s)
  | _ => xH
  end.

Definition pad (k : string) : string := (k +:+ "=     ")%string.

Definition keys_text (j : json) : string := foldr (fun kv s => pad kv.1 +:+ s) ""%string (map_to_list j).

Definition demo_dump (j : json) : string :=
  String "{" (bits (encode j) +:+ String ":" (keys_text j +:+ "}")).

Definition demo_json_parse (s : string) : res json :=
  match s with
  | String _ s => match decode (read_bits s) with Some j => Ok j | None => Err JsonError end
  | EmptyString => Err JsonError
  end.

Lemma read_bits_app p s : read_bits (bits p +:+ String ":" s) = p.
Proof.
  induction p as [p IH|p IH|]; [| |done];
    [change (bits (xI p) +:+ String ":" s) with (String "1" (bits p +:+ String ":" s))
    |change (bits (xO p) +:+ String ":" s) with (String "0" (bits p +:+ String ":" s))];
    cbn [read_bits]; by rewrite IH.
Qed.

Lemma demo_parse_dump j : json_plain j -> demo_json_parse (demo_dump j) = Ok j.
Proof.
  intros _. unfold demo_json_parse, demo_dump. by rewrite read_bits_app, decode_encode.
Qed.

Lemma string_bytes_app s t : string_bytes (s +:+ t) = string_bytes s ++ string_bytes t.
Proof. induction s as [|c s IH]; [done|]. change (String c s +:+ t) with (String c (s +:+ t)). cbn. by rewrite IH. Qed.

Lemma string_app_assoc (s t u : string) : s +:+ (t +:+ u) = (s +:+ t) +:+ u.
Proof. induction s as [|c s IH]; [done|]. change (String c s +:+ ?x) with (String c (s +:+ x)). by rewrite IH. Qed.

Lemma demo_dump_braces j : exists mid, string_bytes (demo_dump j) = 123 :: mid ++ [125].
Proof.
  exists (string_bytes (bits (encode j) +:+ String ":" (keys_text j))).
  assert (demo_dump j = (String "{" (bits (encode j) +:+ String ":" (keys_text j))) +:+ "}") as ->.
  { unfold demo_dump. change (String "{" ?x +:+ "}") with (String "{" (x +:+ "}")). f_equal.
    by rewrite <- string_app_assoc. }
  by rewrite string_bytes_app.
Qed.

Lemma string_length_app (s t : string) : String.length (s +:+ t) = (String.length s + String.length t)%nat.
Proof. induction s as [|c s IH]; [done|]. change (String c s +:+ t) with (String c (s +:+ t)). cbn. by rewrite IH. Qed.

Lemma keys_text_length j k v :
  j !! k = Some v -> (String.length k + 6 <= String.length (keys_text j))%nat.
Proof.
  intros Hk%elem_of_map_to_list. unfold keys_text.
  induction (map_to_list j) as [|[k' v'] l IH]; [by apply elem_of_nil in Hk|].
  cbn [foldr fst]. rewrite string_length_app. unfold pad at 1. rewrite string_length_app.
  change (String.length "=     ") with 6%nat.
  apply elem_of_cons in Hk as [[= <- <-]|Hk]; [lia|]. specialize (IH Hk). lia.
Qed.

Lemma demo_dump_length j k v :
  j !! k = Some v -> (String.length k + 6 <= String.length (demo_dump j))%nat.
Proof.
  intros Hk%keys_text_length. unfold demo_dump. cbn [String.length]. rewrite string_length_app.
  cbn [String.length]. rewrite string_length_app. lia.
Qed.

Definition demo_export (z : Z) : list Z := le_bytes 32 z.

Definition demo_str (z : Z) : string := to_string z.

Definition demo_u256_parse (s : string) : res Z := Ok (read_digits s 0 false).1.

Lemma demo_u256_roundtrip p : 0 <= p < 2 ^ 256 -> demo_u256_parse (demo_str p) = Ok p.
Proof. intros Hp. unfold demo_u256_parse, demo_str. by rewrite read_digits_to_string by lia. Qed.

Lemma demo_str_plain p : plain (demo_str p).
Proof.
  unfold plain, demo_str. pose proof (to_string_digits p) as Hd.
  induction (to_string p) as [|c s IH]; cbn [string_bytes]; [constructor|]. cbn [all_digits] in Hd.
  destruct (digit_value c) eqn:Hc; [|done]. constructor; [|by apply IH].
  unfold digit_value in Hc. destruct ((48 <=? char_code c) && (char_code c <=? 57)) eqn:Hr; [|done]. lia.
Qed.

Definition demo_proposal : BlockProposal :=
  {| bp_schainID := 1; bp_proposerNodeID := 7; bp_blockID := 12; bp_proposerIndex := 2;
     bp_timeStamp := 1700000000; bp_timeStampMs := 13; bp_stateRoot := 99;
     bp_transactionList := mkTransactionList [demo_tx 3; demo_tx 1];
     bp_hash := demo_hash (repeat 0 152); bp_signature := "sig" |}.

Lemma demo_proposal_wf : proposal_wf demo_hash demo_export demo_proposal.
Proof.
  unfold proposal_wf, word, list_wf, MODERN_TIME. cbn -[bp_calculateHash txs_bytes].
  split_and!; try lia; try done; try (by left).
  - repeat constructor; discriminate.
  - repeat constructor; cbn; lia.
Qed.

Definition demo_block : CommittedBlock :=
  {| cb_block := demo_proposal; cb_thresholdSig := "thr"; cb_daSig := "da" |}.

Lemma demo_block_wf : block_wf demo_hash demo_export demo_block.
Proof.
  split; [apply demo_proposal_wf|]. split; [done|]. split; unfold plain; cbn; repeat constructor; cbn; lia.
Qed.

Definition fits_bool (dump : json -> string) (fields : json -> res json) : bool :=
  match fields {["type"%string := JStr "Blck"]} with
  | Ok j => Z.of_nat (String.length (dump j)) + 8 <=? MAX_BUFFER_SIZE
  | Err _ => true
  end.

Lemma fits_bool_fits dump fields : fits_bool dump fields = true -> fits dump fields.
Proof. unfold fits_bool. intros Hb j Hj. rewrite Hj in Hb. by apply Z.leb_le. Qed.

Lemma demo_block_fits :
  fits demo_dump (addCommittedFields demo_str (committed_header_of demo_hash demo_block)).
Proof. apply fits_bool_fits. vm_compute. reflexivity. Qed.

Lemma committed_block_roundtrip_witness :
  exists bytes,
    serializeBlock demo_hash demo_str demo_dump demo_block = Ok bytes /\
    deserializeBlock demo_hash demo_u256_parse demo_export demo_json_parse
      (fun _ _ _ _ => Ok tt) (fun _ _ _ _ => Ok tt) (fun _ _ _ _ => Ok tt) bytes false =
      Ok (fresh_block demo_block).
Proof.
  destruct (committed_block_roundtrip demo_hash demo_hash_length demo_str demo_u256_parse demo_export
    demo_u256_roundtrip demo_str_plain demo_dump demo_json_parse demo_parse_dump demo_dump_braces
    demo_dump_length (fun _ _ _ _ => Ok tt) (fun _ _ _ _ => Ok tt) (fun _ _ _ _ => Ok tt)
    demo_block demo_block_wf demo_block_fits) as (bytes & H1 & _ & H2 & _).
  exists bytes. split; [exact H1|exact H2].
Defined.

(** A parser that knows one object. *)
Definition one_json : json :=
  <["schainID" := JNum 1]> (<["proposerIndex" := JNum 2]> (<["proposerNodeID" := JNum 7]>
  (<["blockID" := JNum 12]> (<["hash" := JStr (toHex (demo_hash (repeat 0 152)))]>
  (<["sig" := JStr "sig"]> (<["sizes" := JArr [11; 9]]> (<["timeStamp" := JNum 1700000000]>
  (<["timeStampMs" := JNum 13]> (<["sr" := JStr "99"]> (<["thrSig" := JStr "thr"]>
  {["daSig" := JStr "da"]})))))))))).

Definition one_frame : list Z :=
  frame "{x}" (txs_bytes demo_hash [demo_tx 3; demo_tx 1] true).

Lemma deserialized_block_verified_witness :
  exists b,
    deserializeBlock demo_hash demo_u256_parse demo_export (fun _ => Ok one_json)
      (fun _ _ _ _ => Ok tt) (fun _ _ _ _ => Ok tt) (fun _ _ _ _ => Ok tt) one_frame true = Ok b /\
    MODERN_TIME < bp_timeStamp (cb_block b).
Proof.
  exists (fresh_block demo_block).
  assert (deserializeBlock demo_hash demo_u256_parse demo_export (fun _ => Ok one_json)
    (fun _ _ _ _ => Ok tt) (fun _ _ _ _ => Ok tt) (fun _ _ _ _ => Ok tt) one_frame true =
    Ok (fresh_block demo_block)) as Hd by (vm_compute; reflexivity).
  split; [exact Hd|].
  apply (deserialized_block_verified demo_hash demo_u256_parse demo_export (fun _ => Ok one_json)
    (fun _ _ _ _ => Ok tt) (fun _ _ _ _ => Ok tt) (fun _ _ _ _ => Ok tt) one_frame).
  exact Hd.
Defined.

Definition demo_fields (time : Z) : hashed_fields :=
  {| hf_proposerIndex := 2; hf_proposerNodeID := 7; hf_schainID := 1; hf_blockID := 12;
     hf_timeStamp := time; hf_timeStampMs := 13; hf_stateRoot := 99;
     hf_transactions := [demo_tx 3; demo_tx 1] |}.

Lemma demo_fields_wf time : 0 <= time < 2 ^ 64 -> fields_wf (demo_fields time).
Proof. intros Ht. unfold fields_wf, word, zlen. cbn. lia. Qed.

Lemma proposal_hash_binding_witness :
  demo_fields 1700000000 = demo_fields 1700000001 \/
  collision demo_hash (proposal_input demo_hash demo_export (demo_fields 1700000000))
    (proposal_input demo_hash demo_export (demo_fields 1700000001)).
Proof.
  apply (proposal_hash_binding demo_hash demo_hash_length demo_export
    (fun z => le_bytes_range 32 z) (fun a b Ha Hb => le_bytes_inj 32 a b Ha Hb)
    (demo_fields 1700000000) (demo_fields 1700000001) (demo_hash (repeat 0 152))).
  - apply demo_fields_wf. lia.
  - apply demo_fields_wf. lia.
  - vm_compute. reflexivity.
  - vm_compute. reflexivity.
Defined.
