(* ===== verification/Fragments.v ===== *)
(** * Fragments of a proposal

    Model of [BlockProposal::getFragment], [BlockProposalFragment] and
    [BlockProposalFragmentList] ([src/datastructures]): a node that misses the
    winning proposal downloads its serialized form in as many fragments as
    there are other nodes, in any order, and joins them.  The random choice of
    the next fragment is an argument. *)

From stdpp Require Import base tactics gmap list strings sorting.
From Stdlib Require Import ZArith Lia.
From S2P Require Import Prelude Bytes Transactions Blocks.

Record BlockProposalFragment := {
  fr_blockId : Z;
  fr_totalFragments : Z;
  fr_index : Z;
  fr_data : list Z;
  fr_blockSize : Z;
  fr_blockHash : string
}.

Definition mkFragment (blockId totalFragments index : Z) (data : list Z) (blockSize : Z)
    (blockHash : string) : res BlockProposalFragment :=
  rcheck InvalidArgumentException (bool_decide (blockHash <> ""%string)) ;;
  rcheck InvalidArgumentException (0 <? totalFragments) ;;
  rcheck InvalidArgumentException (index <=? totalFragments) ;;
  rcheck InvalidArgumentException (0 <? blockId) ;;
  rcheck InvalidArgumentException (0 <? zlen data) ;;
  rcheck ParsingException (3 <=? zlen data) ;;
  rcheck ParsingException (front_is 60 data) ;;
  rcheck ParsingException (back_is 62 data) ;;
  Ok {| fr_blockId := blockId; fr_totalFragments := totalFragments; fr_index := index;
        fr_data := data; fr_blockSize := blockSize; fr_blockHash := blockHash |}.

(** The fragment of the serialized proposal [sp].  A range that leaves the
    vector is undefined behaviour; here it is an exception. *)
Definition getFragment (blockId : Z) (blockHash : string) (sp : list Z) (totalFragments index : Z) :
    res BlockProposalFragment :=
  rcheck InvalidArgumentException (0 <? totalFragments) ;;
  rcheck InvalidArgumentException (index <=? totalFragments) ;;
  let blockSize := zlen sp in
  let fragmentStandardSize :=
    if blockSize mod totalFragments =? 0 then blockSize / totalFragments
    else blockSize / totalFragments + 1 in
  let startIndex := u64 (fragmentStandardSize * u64 (index - 1)) in
  let len := if index =? totalFragments then blockSize - startIndex else fragmentStandardSize in
  rcheck StdLengthError ((startIndex <=? blockSize) && (startIndex + len <=? blockSize)) ;;
  mkFragment blockId totalFragments index ([60] ++ slice sp startIndex len ++ [62]) blockSize blockHash.

(** ** The list *)
Record FragmentList := {
  fl_fragments : gmap Z (list Z);
  fl_missing : list Z;
  fl_blockSize : Z;
  fl_blockHash : string;
  fl_isSerialized : bool;
  fl_blockID : Z;
  fl_totalFragments : Z
}.

Definition mkFragmentList (blockId totalFragments : Z) : res FragmentList :=
  rcheck InvalidArgumentException (0 <? totalFragments) ;;
  Ok {| fl_fragments := ∅; fl_missing := seqZ 1 totalFragments; fl_blockSize := -1;
        fl_blockHash := ""; fl_isSerialized := false; fl_blockID := blockId;
        fl_totalFragments := totalFragments |}.

(** The walk over the list to a random position. *)
Definition nextIndexToRetrieve (random : Z) : M FragmentList Z :=
  s ← get;
  if bool_decide (fl_missing s = []) then mret 0
  else
    match fl_missing s !! Z.to_nat (random mod zlen (fl_missing s)) with
    | Some element => mret element
    | None => throw InvalidStateException
    end.

Definition checkSanity : M FragmentList unit :=
  s ← get; CHECK_STATE (zsize (fl_fragments s) <=? fl_totalFragments s).

Definition isComplete : M FragmentList bool :=
  checkSanity ;;
  s ← get;
  if zsize (fl_fragments s) =? fl_totalFragments s then
    CHECK_STATE (forallb (fun i => bool_decide (is_Some (fl_fragments s !! i)))
      (seqZ 1 (fl_totalFragments s))) ;;
    CHECK_STATE (bool_decide (fl_missing s = [])) ;;
    mret true
  else mret false.

(** [std::find] and [erase]: the first occurrence. *)
Fixpoint erase_first (x : Z) (l : list Z) : list Z :=
  match l with
  | [] => []
  | y :: l => if x =? y then l else y :: erase_first x l
  end.

Definition set_expected (hash : string) (size : Z) (s : FragmentList) : FragmentList :=
  {| fl_fragments := fl_fragments s; fl_missing := fl_missing s; fl_blockSize := size;
     fl_blockHash := hash; fl_isSerialized := fl_isSerialized s; fl_blockID := fl_blockID s;
     fl_totalFragments := fl_totalFragments s |}.

Definition set_fragments (m : gmap Z (list Z)) (s : FragmentList) : FragmentList :=
  {| fl_fragments := m; fl_missing := fl_missing s; fl_blockSize := fl_blockSize s;
     fl_blockHash := fl_blockHash s; fl_isSerialized := fl_isSerialized s;
     fl_blockID := fl_blockID s; fl_totalFragments := fl_totalFragments s |}.

Definition set_missing (l : list Z) (s : FragmentList) : FragmentList :=
  {| fl_fragments := fl_fragments s; fl_missing := l; fl_blockSize := fl_blockSize s;
     fl_blockHash := fl_blockHash s; fl_isSerialized := fl_isSerialized s;
     fl_blockID := fl_blockID s; fl_totalFragments := fl_totalFragments s |}.

Definition set_serialized (s : FragmentList) : FragmentList :=
  {| fl_fragments := fl_fragments s; fl_missing := fl_missing s; fl_blockSize := fl_blockSize s;
     fl_blockHash := fl_blockHash s; fl_isSerialized := true;
     fl_blockID := fl_blockID s; fl_totalFragments := fl_totalFragments s |}.

(** The result and [nextIndex]. *)
Definition addFragment (f : BlockProposalFragment) (random : Z) : M FragmentList (bool * Z) :=
  s ← get;
  CHECK_ARGUMENT (fr_blockId f =? fl_blockID s) ;;
  CHECK_ARGUMENT (0 <? fr_index f) ;;
  CHECK_ARGUMENT (fr_index f <=? fl_totalFragments s) ;;
  (if bool_decide (fl_blockHash s = ""%string)
   then modify (set_expected (fr_blockHash f) (i64 (fr_blockSize f)))
   else
     CHECK_ARGUMENT (bool_decide (fl_blockHash s = fr_blockHash f)) ;;
     CHECK_ARGUMENT (fl_blockSize s =? i64 (fr_blockSize f))) ;;
  checkSanity ;;
  s ← get;
  if bool_decide (is_Some (fl_fragments s !! fr_index f)) then mret (false, 0)
  else
    modify (fun s => set_fragments (<[fr_index f := fr_data f]> (fl_fragments s)) s) ;;
    CHECK_STATE (bool_decide (fr_index f ∈ fl_missing s)) ;;
    modify (fun s => set_missing (erase_first (fr_index f) (fl_missing s)) s) ;;
    complete ← isComplete;
    if (complete : bool) then mret (true, 0)
    else
      s ← get;
      CHECK_STATE (0 <? zlen (fl_missing s)) ;;
      nextIndex ← nextIndexToRetrieve random;
      CHECK_STATE (0 <? nextIndex) ;;
      mret (true, nextIndex).

(** A fragment without its first and last byte. *)
Definition inner (data : list Z) : list Z := take (length data - 2) (drop 1 data).

Definition serialize_fragments : M FragmentList (list Z) :=
  complete ← isComplete;
  CHECK_STATE complete ;;
  s ← get;
  CHECK_STATE (negb (fl_isSerialized s)) ;;
  modify set_serialized ;;
  let items := map_items (fl_fragments s) in
  let totalLen := foldl (fun n item => u64 (n + u64 (zlen item.2 - 2))) 0 items in
  let result := concat (map (fun item => inner item.2) items) in
  CHECK_STATE (zlen result =? totalLen) ;;
  lift_res (at_is InvalidStateException result 8 123) ;;
  CHECK_STATE (back_is 62 result) ;;
  mret result.

(** ** The items of a map in key order *)
Lemma lookup_determines {A} (m : gmap Z A) (l l' : list (Z * A)) :
  (forall k a, (k, a) ∈ l -> m !! k = Some a) -> (forall k a, (k, a) ∈ l' -> m !! k = Some a) ->
  l.*1 = l'.*1 -> l = l'.
Proof.
  revert l'. induction l as [|[k a] l IH]; intros [|[k' a'] l'] Hl Hl' Heq; try done.
  cbn in Heq. injection Heq as -> Heq.
  assert (Some a = Some a') as [= ->].
  { rewrite <- (Hl k' a), <- (Hl' k' a') by apply list_elem_of_here. done. }
  f_equal. apply IH; [|..|done]; intros j b Hj; [apply Hl|apply Hl']; by apply list_elem_of_further.
Qed.

Lemma map_items_seqZ {A} (m : gmap Z A) (n : Z) (f : Z -> A) :
  (forall i, m !! i = if decide (1 <= i <= n) then Some (f i) else None) ->
  map_items m = map (fun i => (i, f i)) (seqZ 1 n).
Proof.
  intros Hm. apply (lookup_determines m).
  - intros k a. apply elem_of_map_items.
  - intros k a Hk. apply list_elem_of_fmap in Hk as (i & [= -> ->] & Hi%elem_of_seqZ).
    rewrite Hm, decide_True by lia. done.
  - apply (Sorted_unique Z.le).
    + assert (Sorted item_le (map_items m)) as Hs by apply map_items_sorted.
      induction Hs as [|x l _ IH Hhd]; cbn; constructor; [done|].
      destruct Hhd; cbn; constructor. done.
    + assert (forall k s, Sorted Z.le ((map (fun i => (i, f i)) (seqZ s (Z.of_nat k))).*1)) as Hseq.
      { induction k as [|k IH]; intros s; [constructor|].
        rewrite Nat2Z.inj_succ, seqZ_cons by lia. cbn [map fmap list_fmap fst].
        rewrite Z.pred_succ. constructor; [apply IH|].
        destruct k as [|k]; [constructor|]. rewrite Nat2Z.inj_succ, seqZ_cons by lia. cbn.
        constructor. lia. }
      destruct (Z.le_gt_cases 0 n) as [Hn|Hn].
      * rewrite <- (Z2Nat.id n) by done. apply Hseq.
      * rewrite seqZ_nil by lia. constructor.
    + apply NoDup_Permutation.
      * apply NoDup_map_items_keys.
      * change (map (fun i => (i, f i)) (seqZ 1 n)).*1 with (fst <$> ((fun i => (i, f i)) <$> seqZ 1 n)).
        rewrite <- list_fmap_compose. cbn. rewrite list_fmap_id. apply NoDup_seqZ.
      * intros k. rewrite !list_elem_of_fmap. split.
        -- intros ([? a] & -> & Hk%elem_of_map_items). rewrite Hm in Hk.
           destruct (decide _) as [Hr|]; [|done]. exists (z, f z). split; [done|].
           apply list_elem_of_fmap. exists z. split; [done|]. apply elem_of_seqZ. cbn. lia.
        -- intros (? & -> & Hk). apply list_elem_of_fmap in Hk as (i & -> & Hi%elem_of_seqZ).
           exists (i, f i). split; [done|]. apply elem_of_map_items.
           by rewrite Hm, decide_True by lia.
Qed.

(** ** Cutting and joining *)
Section Join.
Context (sp : list Z) (n blockId : Z) (hash : string).
Context (Hhash : hash <> ""%string) (Hid : 0 < blockId) (Hn : 0 < n).
(** The proposal is long enough for [n] fragments. *)
Context (Hlen : 0 < zlen sp < 2 ^ 63) (Hlong : n - 1 <= zlen sp / n).

Definition std_size : Z := if zlen sp mod n =? 0 then zlen sp / n else zlen sp / n + 1.

Definition piece_len (i : Z) : Z := if i =? n then zlen sp - std_size * (i - 1) else std_size.

Definition piece (i : Z) : list Z := slice sp (std_size * (i - 1)) (piece_len i).

Definition frag (i : Z) : BlockProposalFragment :=
  {| fr_blockId := blockId; fr_totalFragments := n; fr_index := i;
     fr_data := [60] ++ piece i ++ [62]; fr_blockSize := zlen sp; fr_blockHash := hash |}.

Lemma std_size_bounds : 0 < std_size /\ std_size * (n - 1) < zlen sp <= std_size * n.
Proof.
  unfold std_size. pose proof (Z.div_mod (zlen sp) n ltac:(lia)).
  pose proof (Z.mod_pos_bound (zlen sp) n Hn).
  set (q := zlen sp / n) in *. set (r := zlen sp mod n) in *.
  destruct (Z.eqb_spec r 0); nia.
Qed.

Lemma start_bounds i : 1 <= i <= n -> 0 <= std_size * (i - 1) /\ std_size * (i - 1) < zlen sp.
Proof. intros Hi. pose proof std_size_bounds. nia. Qed.

Lemma piece_bounds i :
  1 <= i <= n -> 0 < piece_len i /\ std_size * (i - 1) + piece_len i <= zlen sp.
Proof.
  intros Hi. pose proof std_size_bounds. pose proof (start_bounds i Hi). unfold piece_len.
  destruct (Z.eqb_spec i n); [lia|]. nia.
Qed.

Lemma zlen_slice l start len :
  0 <= start -> 0 <= len -> start + len <= zlen l -> zlen (slice l start len) = len.
Proof. intros. unfold slice, zlen in *. rewrite length_take, length_drop. lia. Qed.

Lemma zlen_piece i : 1 <= i <= n -> zlen (piece i) = piece_len i.
Proof.
  intros Hi. pose proof (piece_bounds i Hi). pose proof (start_bounds i Hi). apply zlen_slice; lia.
Qed.

Lemma zlen_frag i : 1 <= i <= n -> zlen (fr_data (frag i)) = piece_len i + 2.
Proof.
  intros Hi. cbn [frag fr_data]. rewrite !zlen_app, zlen_piece by done.
  change (zlen [60]) with 1. change (zlen [62]) with 1. lia.
Qed.

Lemma mkFragment_ok i :
  1 <= i <= n -> mkFragment blockId n i (fr_data (frag i)) (zlen sp) hash = Ok (frag i).
Proof.
  intros Hi. pose proof (piece_bounds i Hi). pose proof (zlen_frag i Hi) as Hz. unfold mkFragment.
  rewrite bool_decide_eq_true_2 by done.
  rewrite (proj2 (Z.ltb_lt 0 n)), (proj2 (Z.leb_le i n)), (proj2 (Z.ltb_lt 0 blockId)),
    (proj2 (Z.ltb_lt 0 (zlen _))), (proj2 (Z.leb_le 3 _)) by lia. cbn [rcheck mbind res_bind].
  unfold front_is, back_is. rewrite (bool_decide_eq_true_2 (head _ = _)) by done.
  rewrite bool_decide_eq_true_2; [done|]. cbn [frag fr_data]. by rewrite app_assoc, last_snoc.
Qed.

Lemma getFragment_ok i : 1 <= i <= n -> getFragment blockId hash sp n i = Ok (frag i).
Proof.
  intros Hi. pose proof (piece_bounds i Hi). pose proof (start_bounds i Hi). unfold getFragment. fold std_size.
  rewrite (proj2 (Z.ltb_lt 0 n)), (proj2 (Z.leb_le i n)) by lia. cbn [rcheck mbind res_bind].
  rewrite (u64_small (i - 1)) by (split; [lia|]; pose proof std_size_bounds; nia).
  rewrite u64_small by lia.
  assert ((if i =? n then zlen sp - std_size * (i - 1) else std_size) = piece_len i) as -> by done.
  rewrite !(proj2 (Z.leb_le _ _)) by lia. cbn [andb rcheck mbind res_bind]. by apply mkFragment_ok.
Qed.

Lemma pieces_take k :
  Z.of_nat k < n -> concat (map piece (seqZ 1 (Z.of_nat k))) = take (Z.to_nat (std_size * Z.of_nat k)) sp.
Proof.
  pose proof std_size_bounds. induction k as [|k IH]; intros Hk.
  - rewrite Z.mul_0_r. done.
  - rewrite seqZ_S, map_app, concat_app, IH by lia. cbn [map concat]. rewrite app_nil_r.
    unfold piece, slice, piece_len. destruct (Z.eqb_spec (1 + Z.of_nat k) n); [lia|].
    replace (std_size * (1 + Z.of_nat k - 1)) with (std_size * Z.of_nat k) by lia.
    rewrite take_take_drop. f_equal. nia.
Qed.

Lemma pieces_concat : concat (map piece (seqZ 1 n)) = sp.
Proof.
  pose proof std_size_bounds. replace n with (Z.succ (Z.of_nat (Z.to_nat (n - 1)))) at 1 by lia.
  rewrite <- Nat2Z.inj_succ, seqZ_S, map_app, concat_app, pieces_take by lia. cbn [map concat].
  rewrite app_nil_r, Z2Nat.id by lia. unfold piece, slice, piece_len.
  replace (1 + (n - 1)) with n by lia. rewrite Z.eqb_refl.
  rewrite (take_ge (drop _ _)); [by rewrite take_drop|]. rewrite length_drop. unfold zlen. lia.
Qed.

(** ** The collection *)
Definition data (i : Z) : list Z := fr_data (frag i).

Record frag_inv (X : gset Z) (s : FragmentList) : Prop := {
  fi_sub : X ⊆ members n;
  fi_fragments : forall i, fl_fragments s !! i = if decide (i ∈ X) then Some (data i) else None;
  fi_missing : fl_missing s = filter (fun i => i ∉ X) (seqZ 1 n);
  fi_id : fl_blockID s = blockId;
  fi_total : fl_totalFragments s = n;
  fi_fresh : fl_isSerialized s = false;
  fi_hash : (X = ∅ /\ fl_blockHash s = ""%string) \/
            (fl_blockHash s = hash /\ fl_blockSize s = i64 (zlen sp))
}.

Lemma frag_inv_size X s : frag_inv X s -> zsize (fl_fragments s) = zsize X.
Proof.
  intros Hi. unfold zsize. f_equal. rewrite <- size_dom. f_equal. apply set_eq. intros i.
  rewrite elem_of_dom, (fi_fragments _ _ Hi). case_decide; [|by split; [intros [? ?]|]].
  split; [done|by eexists].
Qed.

Lemma frag_inv_full X s : frag_inv X s -> zsize X <= n /\ (zsize X = n -> X = members n).
Proof.
  intros Hi. pose proof (fi_sub _ _ Hi) as Hs. pose proof (size_members n ltac:(lia)) as Hm.
  split; [rewrite <- Hm; by apply zsize_subseteq|]. intros Hx.
  apply set_eq. intros i. split; [by apply Hs|]. intros Hin.
  destruct (decide (i ∈ X)) as [|Hout]; [done|].
  assert (zsize ({[i]} ∪ X) <= n) as Hsz.
  { rewrite <- Hm. apply zsize_subseteq. set_solver. }
  unfold zsize in *. rewrite size_union, size_singleton in Hsz by set_solver. lia.
Qed.

Lemma isComplete_spec X s :
  frag_inv X s -> wp isComplete s (fun r s' => s' = s /\ r = Ok (bool_decide (X = members n))).
Proof.
  intros Hi. destruct (frag_inv_full X s Hi) as [Hle Hfull].
  unfold isComplete, checkSanity. wp_simpl. rewrite (frag_inv_size X s Hi), (fi_total _ _ Hi).
  rewrite (proj2 (Z.leb_le _ _)) by done. split; [intros _|done].
  destruct (Z.eqb_spec (zsize X) n) as [Hx|Hx].
  - specialize (Hfull Hx). wp_simpl. subst X. rewrite (fi_missing _ _ Hi), filter_none.
    + rewrite (bool_decide_eq_true_2 ([] = [])) by done.
      rewrite (proj2 (forallb_forall _ _)); [by rewrite bool_decide_eq_true_2|].
      intros i Hin%list_elem_of_In%elem_of_seqZ. rewrite (fi_fragments _ _ Hi), decide_True.
      * by apply bool_decide_eq_true_2.
      * apply elem_of_members. lia.
    + intros i Hin%elem_of_seqZ Hout. apply Hout, elem_of_members. lia.
  - wp_simpl. rewrite bool_decide_eq_false_2; [done|]. intros ->. apply Hx. unfold zsize.
    apply size_members. lia.
Qed.

Lemma erase_first_filter x (X : gset Z) l :
  NoDup l -> x ∉ X ->
  erase_first x (filter (fun i => i ∉ X) l) = filter (fun i => i ∉ {[x]} ∪ X) l.
Proof.
  intros Hnd Hx. induction Hnd as [|y l Hy _ IH]; [done|]. rewrite !filter_cons.
  destruct (decide (y ∉ X)) as [HyX|HyX]; cycle 1.
  { rewrite decide_False by set_solver. apply IH. }
  cbn [erase_first]. destruct (Z.eqb_spec x y) as [->|Hne].
  - rewrite decide_False by set_solver. clear IH. induction l as [|z l IH]; [done|].
    rewrite !filter_cons. apply not_elem_of_cons in Hy as [Hyz Hy].
    destruct (decide (z ∉ X)); [rewrite decide_True by set_solver; f_equal; auto|].
    rewrite decide_False by set_solver. auto.
  - rewrite decide_True by set_solver. by rewrite IH.
Qed.

Lemma nextIndexToRetrieve_spec X s r :
  frag_inv X s -> X <> members n -> 0 <= r ->
  wp (nextIndexToRetrieve r) s (fun o s' => s' = s /\ 0 < zlen (fl_missing s) /\
    exists i, o = Ok i /\ 1 <= i <= n /\ i ∉ X).
Proof.
  intros Hi Hx Hr. unfold nextIndexToRetrieve. wp_simpl. rewrite (fi_missing _ _ Hi).
  destruct (filter (fun i => i ∉ X) (seqZ 1 n)) as [|y l] eqn:Hf.
  - exfalso. apply Hx, set_eq. intros i. rewrite elem_of_members. split.
    + intros Hin%(fi_sub _ _ Hi). by apply elem_of_members.
    + intros Hin. destruct (decide (i ∈ X)) as [|Hout]; [done|].
      assert (i ∈ filter (fun i => i ∉ X) (seqZ 1 n)) as Hc.
      { apply list_elem_of_filter. split; [done|]. apply elem_of_seqZ. lia. }
      rewrite Hf in Hc. by apply elem_of_nil in Hc.
  - rewrite bool_decide_eq_false_2 by done.
    assert (0 < zlen (y :: l)) as Hpos by (unfold zlen; cbn; lia).
    pose proof (Z.mod_pos_bound r (zlen (y :: l)) Hpos) as Hm.
    destruct ((y :: l) !! Z.to_nat (r mod zlen (y :: l))) as [i|] eqn:Hl.
    + wp_simpl. split_and!; [done|done|]. exists i. split; [done|].
      apply list_elem_of_lookup_2 in Hl. rewrite <- Hf in Hl.
      apply list_elem_of_filter in Hl as [Hout Hin%elem_of_seqZ]. split; [lia|done].
    + apply lookup_ge_None in Hl. unfold zlen in *. lia.
Qed.

(** The state after the expected hash and size are known. *)
Lemma set_expected_inv X s :
  frag_inv X s ->
  exists s1, frag_inv X s1 /\ fl_blockHash s1 = hash /\
    forall (Q : res unit -> FragmentList -> Prop), Q (Ok tt) s1 ->
      wp (if bool_decide (fl_blockHash s = ""%string)
          then modify (set_expected hash (i64 (zlen sp)))
          else CHECK_ARGUMENT (bool_decide (fl_blockHash s = hash)) ;;
               CHECK_ARGUMENT (fl_blockSize s =? i64 (zlen sp))) s Q.
Proof.
  intros Hi. destruct (fi_hash _ _ Hi) as [[HX Hh]|[Hh Hz]].
  - exists (set_expected hash (i64 (zlen sp)) s). split; [|split; [done|]].
    + destruct Hi. constructor; try done. by right.
    + intros Q HQ. rewrite bool_decide_eq_true_2 by done. by wp_simpl.
  - exists s. split_and!; [done|done|]. intros Q HQ.
    rewrite bool_decide_eq_false_2 by (by rewrite Hh). wp_simpl.
    rewrite Hz, Z.eqb_refl, bool_decide_eq_true_2 by done. done.
Qed.

Lemma addFragment_spec X s i r :
  frag_inv X s -> 1 <= i <= n -> 0 <= r ->
  wp (addFragment (frag i) r) s (fun o s' => frag_inv ({[i]} ∪ X) s' /\
    exists next, o = Ok (bool_decide (i ∉ X), next) /\
      (next = 0 \/ (1 <= next <= n /\ next ∉ {[i]} ∪ X))).
Proof.
  intros Hi Hr Hrand. unfold addFragment. rewrite wp_bind, wp_get. cbv beta iota.
  rewrite wp_bind, wp_check. cbn [frag fr_blockId fr_index fr_blockHash fr_blockSize fr_data].
  rewrite (fi_id _ _ Hi), Z.eqb_refl. split; [intros _|done].
  rewrite wp_bind, wp_check, (proj2 (Z.ltb_lt 0 i)) by lia. split; [intros _|done].
  rewrite wp_bind, wp_check, (fi_total _ _ Hi), (proj2 (Z.leb_le i n)) by lia. split; [intros _|done].
  rewrite wp_bind. destruct (set_expected_inv X s Hi) as (s1 & Hi1 & Hh1 & Hset). apply Hset.
  clear Hset. unfold checkSanity. wp_simpl. destruct (frag_inv_full X s1 Hi1) as [Hle _].
  rewrite (frag_inv_size X s1 Hi1), (fi_total _ _ Hi1), (proj2 (Z.leb_le (zsize X) n)) by lia.
  split; [intros _|done]. rewrite (fi_fragments _ _ Hi1). destruct (decide (i ∈ X)) as [Hin|Hout].
  - rewrite bool_decide_eq_true_2 by (by eexists). wp_simpl.
    assert ({[i]} ∪ X = X) as -> by set_solver. split; [done|]. exists 0.
    rewrite bool_decide_eq_false_2 by (by intros ?). split; [done|by left].
  - rewrite bool_decide_eq_false_2 by (by intros [? ?]). wp_simpl.
    assert (i ∈ fl_missing s1) as Hmiss.
    { rewrite (fi_missing _ _ Hi1). apply list_elem_of_filter. split; [done|]. apply elem_of_seqZ. lia. }
    rewrite (bool_decide_eq_true_2 (i ∈ _)) by done. split; [intros _|done].
    set (s2 := set_missing _ _). assert (frag_inv ({[i]} ∪ X) s2) as Hi2.
    { destruct Hi1. constructor; try done.
      - intros j [->%elem_of_singleton|Hj]%elem_of_union; [apply elem_of_members; lia|auto].
      - intros j. cbn. destruct (decide (i = j)) as [<-|Hne].
        + rewrite lookup_insert_eq, decide_True by set_solver. done.
        + rewrite lookup_insert_ne, fi_fragments0 by done.
          destruct (decide (j ∈ X)), (decide (j ∈ {[i]} ∪ X)); done || set_solver.
      - cbn. rewrite fi_missing0. apply erase_first_filter; [apply NoDup_seqZ|done].
      - right. destruct fi_hash0 as [[_ Hbad]|]; [by rewrite Hh1 in Hbad|done]. }
    eapply wp_mono; [by apply isComplete_spec|]. cbv beta. intros o s3 (-> & ->).
    rewrite (bool_decide_eq_true_2 (i ∉ X)) by done. case_bool_decide as Hfull.
    + wp_simpl. split; [done|]. exists 0. split; [done|by left].
    + wp_simpl. pose proof (nextIndexToRetrieve_spec _ s2 r Hi2 Hfull Hrand) as Hnext.
      assert (0 < zlen (fl_missing s2)) as Hpos by apply Hnext.
      rewrite (proj2 (Z.ltb_lt 0 _) Hpos). split; [intros _|done].
      eapply wp_mono; [exact Hnext|]. cbv beta. intros o s3 (-> & _ & j & -> & Hj & Hjout).
      wp_simpl. rewrite (proj2 (Z.ltb_lt 0 j)) by lia. split; [intros _|done]. wp_simpl.
      split; [done|]. exists j. split; [done|by right].
Qed.

Lemma inner_data i : inner (data i) = piece i.
Proof.
  unfold inner, data. cbn [frag fr_data app drop length]. rewrite length_app. cbn [length].
  replace (S (length (piece i) + 1) - 2)%nat with (length (piece i)) by lia. apply take_app_length.
Qed.

Lemma total_len l acc :
  (forall i, i ∈ l -> 1 <= i <= n) -> 0 <= acc ->
  acc + zlen (concat (map piece l)) < 2 ^ 63 ->
  foldl (fun m item => u64 (m + u64 (zlen item.2 - 2))) acc (map (fun i => (i, data i)) l) =
    acc + zlen (concat (map piece l)).
Proof.
  revert acc. induction l as [|i l IH]; intros acc Hl Hacc Hsum; cbn [map foldl concat].
  { unfold zlen. cbn. lia. }
  assert (1 <= i <= n) as Hi by (apply Hl, list_elem_of_here).
  cbn [map concat] in Hsum. rewrite zlen_app, zlen_piece in * by done.
  pose proof (zlen_nonneg (concat (map piece l))). pose proof (piece_bounds i Hi).
  cbn [snd]. rewrite (zlen_frag i Hi : zlen (data i) = _).
  replace (piece_len i + 2 - 2) with (piece_len i) by lia.
  rewrite (u64_small (piece_len i)), (u64_small (acc + _)) by lia.
  rewrite IH; [lia| |lia|lia]. intros j Hj. apply Hl. by apply list_elem_of_further.
Qed.

Lemma serialize_fragments_spec s :
  frag_inv (members n) s -> at_is InvalidStateException sp 8 123 = Ok tt -> back_is 62 sp = true ->
  wp serialize_fragments s (fun r _ => r = Ok sp).
Proof.
  intros Hi Hat Hback. unfold serialize_fragments. wp_simpl.
  eapply wp_mono; [by apply isComplete_spec|]. cbv beta. intros o s' (-> & ->).
  rewrite bool_decide_eq_true_2 by done. wp_simpl. split; [intros _|done].
  rewrite (fi_fresh _ _ Hi). split; [intros _|done]. cbv zeta.
  rewrite (map_items_seqZ _ n data).
  - rewrite total_len.
    2: { intros i Hin%elem_of_seqZ. lia. }
    2: done.
    2: { rewrite pieces_concat. lia. }
    rewrite pieces_concat.
    assert (concat (map (fun item => inner item.2) (map (fun i => (i, data i)) (seqZ 1 n))) = sp) as ->.
    { rewrite map_map, <- pieces_concat at 1. f_equal. apply map_ext. intros i. apply inner_data. }
    wp_simpl. rewrite Z.add_0_l, Z.eqb_refl. split; [intros _|done]. by rewrite Hat, Hback.
  - intros i. rewrite (fi_fragments _ _ Hi). apply decide_ext. apply elem_of_members.
Qed.

(** Fetching fragments, with the indices in the order of their arrival and the
    random numbers of the draws. *)
Fixpoint fetchAll (order : list (Z * Z)) : M FragmentList unit :=
  match order with
  | [] => mret tt
  | (i, r) :: order =>
      f ← lift_res (getFragment blockId hash sp n i);
      addFragment f r ;;
      fetchAll order
  end.

Lemma fetchAll_spec X s order :
  frag_inv X s -> (forall i r, (i, r) ∈ order -> 1 <= i <= n /\ 0 <= r) ->
  wp (fetchAll order) s (fun o s' => o = Ok tt /\ frag_inv (list_to_set order.*1 ∪ X) s').
Proof.
  revert X s. induction order as [|[i r] order IH]; intros X s Hi Hord; cbn [fetchAll]; wp_simpl.
  { split; [done|]. assert (list_to_set ([] : list (Z * Z)).*1 ∪ X = X) as -> by set_solver. done. }
  destruct (Hord i r) as [Hir Hr]; [apply list_elem_of_here|].
  rewrite getFragment_ok by done. wp_simpl.
  eapply wp_mono; [by apply addFragment_spec|]. cbv beta. intros o s' [Hi' (next & -> & _)]. wp_simpl.
  eapply wp_mono; [apply (IH _ s' Hi')|].
  - intros j q Hj. apply Hord. by apply list_elem_of_further.
  - cbv beta. intros o s'' [-> Hi'']. split; [done|].
    assert (list_to_set ((i, r) :: order).*1 ∪ X = list_to_set order.*1 ∪ ({[i]} ∪ X)) as ->; [|done].
    cbn. set_solver.
Qed.
End Join.

(** A serialized proposal that is long enough for the number of fragments
    survives fragmentation: every fragment can be made, the fragments can be
    collected in any order and with repetitions, and once each index has come
    the collection is complete and joins to exactly the bytes of the proposal. *)
Theorem fragments_reassemble sp n blockId hash order s0 :
  hash <> ""%string -> 0 < blockId -> 0 < n -> 0 < zlen sp < 2 ^ 63 -> n - 1 <= zlen sp / n ->
  at_is InvalidStateException sp 8 123 = Ok tt -> back_is 62 sp = true ->
  mkFragmentList blockId n = Ok s0 ->
  (forall i r, (i, r) ∈ order -> 1 <= i <= n /\ 0 <= r) ->
  (forall i, 1 <= i <= n -> i ∈ order.*1) ->
  wp (fetchAll sp n blockId hash order ;; serialize_fragments) s0 (fun r _ => r = Ok sp).
Proof.
  intros Hh Hid Hn Hlen Hlong Hat Hback Hmk Hord Hall.
  unfold mkFragmentList in Hmk. rewrite (proj2 (Z.ltb_lt 0 n)) in Hmk by done.
  cbn [rcheck mbind res_bind] in Hmk. injection Hmk as <-.
  match goal with |- wp _ ?s _ => assert (frag_inv sp n blockId hash ∅ s) as Hi end.
  { constructor; [set_solver| | |done|done|done|by left].
    - intros i. rewrite decide_False by set_solver. apply lookup_empty.
    - symmetry. apply filter_all. intros i _. set_solver. }
  wp_simpl. eapply wp_mono; [by apply (fetchAll_spec sp n blockId hash Hh Hid Hn Hlen Hlong ∅)|].
  cbv beta. intros o s' [-> Hi'].
  assert (list_to_set order.*1 ∪ ∅ = members n) as Hm.
  { apply set_eq. intros i. rewrite elem_of_union, elem_of_list_to_set, elem_of_members. split.
    - intros [Hi0|Hbad]; [|set_solver]. apply list_elem_of_fmap in Hi0 as ([j r] & -> & Hj).
      by apply (Hord j r).
    - intros Hi0. left. auto. }
  rewrite Hm in Hi'. by apply (serialize_fragments_spec sp n blockId hash).
Qed.

Definition demo_bytes : list Z := [1; 2; 3; 4; 5; 6; 7; 8; 123; 9; 10; 11; 62].

Definition demo_list : FragmentList :=
  {| fl_fragments := ∅; fl_missing := [1; 2; 3]; fl_blockSize := -1; fl_blockHash := "";
     fl_isSerialized := false; fl_blockID := 5; fl_totalFragments := 3 |}.

Lemma fragments_reassemble_witness :
  wp (fetchAll demo_bytes 3 5 "ab" [(2, 7); (3, 0); (2, 1); (1, 4)] ;; serialize_fragments) demo_list
    (fun r _ => r = Ok demo_bytes).
Proof.
  apply (fragments_reassemble demo_bytes 3 5 "ab" [(2, 7); (3, 0); (2, 1); (1, 4)] demo_list).
  - discriminate.
  - lia.
  - lia.
  - vm_compute. split; reflexivity.
  - vm_compute. discriminate.
  - vm_compute. reflexivity.
  - vm_compute. reflexivity.
  - vm_compute. reflexivity.
  - intros i r Hi. rewrite !elem_of_cons in Hi. destruct Hi as [Hi|[Hi|[Hi|[Hi|Hi]]]];
      [injection Hi as -> ->; lia..|by apply elem_of_nil in Hi].
  - intros i Hi. cbn. rewrite !elem_of_cons. lia.
Defined.

(** Too short for its number of fragments: the last one starts behind the end. *)
Example getFragment_out_of_range :
  getFragment 5 "ab" (repeat 0 10) 7 7 = Err StdLengthError.
Proof. reflexivity. Qed.
