(* ===== verification/BlockStore.v ===== *)
(** * The block database and catchup lists

    Models of [BlockDB] ([src/db/BlockDB.cpp]), a rotating database with a
    small cache of serialized blocks in front, and of [CommittedBlockList]
    ([src/datastructures/CommittedBlockList.cpp]), the list of blocks that a
    node sends to one that is behind.  Both use a block only through its number,
    its signature and its serialized form, the interface [BlockFormat]. *)

From stdpp Require Import base tactics gmap list strings.
From Stdlib Require Import ZArith Lia Ascii.
From S2P Require Import Prelude Bytes LruCache LevelDb LevelDbSets Transactions Blocks.

(** ** What a block offers *)
Class BlockFormat (B : Type) := {
  bf_id : B -> Z;
  bf_signature : B -> string;
  bf_proposerIndex : B -> Z;
  bf_timeStampS : B -> Z;
  bf_daSig : B -> string;
  bf_serialize : B -> res (list Z);
  bf_parse : list Z -> bool -> res B
}.

(** What it promises: a block of the class [bf_wf] is stored without loss, one
    whose signatures verify ([bf_signed]) also passes verification, and a block
    that was parsed with verification is authentic. *)
Class BlockFormatOk (B : Type) `{BlockFormat B} := {
  bf_wf : B -> Prop;
  bf_signed : B -> Prop;
  bf_authentic : B -> Prop;
  bf_clean : B -> B;
  bf_roundtrip b : bf_wf b ->
    bf_signature b <> ""%string /\
    exists bytes, bf_serialize b = Ok bytes /\ Forall is_byte bytes /\
      serializedSanityCheck bytes = Ok tt /\ bf_parse bytes false = Ok (bf_clean b) /\
      (bf_signed b -> bf_parse bytes true = Ok (bf_clean b));
  bf_parse_authentic bytes b : bf_parse bytes true = Ok b -> bf_authentic b;
  bf_clean_fields b :
    bf_proposerIndex (bf_clean b) = bf_proposerIndex b /\
    bf_timeStampS (bf_clean b) = bf_timeStampS b /\ bf_daSig (bf_clean b) = bf_daSig b
}.

(** ** BlockDB *)
Definition NUMBER_OF_BLOCKS_TO_CACHE : Z := 3.

Record block_db {D : Type} := mkBlockDb {
  bd_db : level_db D;
  bd_cache : lru_cache Z (list Z)
}.
Arguments block_db : clear implicits.
Arguments mkBlockDb {D}.

(** [stringstream( s ) >> n] for an unsigned 64-bit [n]. *)
Definition stream_u64 (s : string) : Z :=
  match stoull s with
  | Ok v => v
  | Err StdOutOfRange => 2 ^ 64 - 1
  | Err _ => 0
  end.

Section BlockDB.
Context {D : Type} `{KVStore D}.
Context {B : Type} `{BlockFormat B}.
Context (cfg : db_config) (getMaxCatchupDownloadBytes : Z).
Local Abbreviation state := (block_db D).

Definition on_db {A} (c : M (level_db D) A) : M state A :=
  zoom bd_db (fun db s => mkBlockDb db (bd_cache s)) c.

Definition on_cache {A} (c : M (lru_cache Z (list Z)) A) : M state A :=
  zoom bd_cache (fun c s => mkBlockDb (bd_db s) c) c.

Definition createLastCommittedKey : string := dc_version cfg +:+ ":last".

Definition createBlockStartKey (blockID : Z) : string :=
  dc_version cfg +:+ ":start:" +:+ to_string blockID.

Definition getSerializedBlockFromLevelDB (blockID : Z) : M state (option (list Z)) :=
  result ← on_cache (lru_getIfExists blockID);
  match result with
  | Some block => mret (Some block)
  | None =>
      nested_all InvalidStateException
        (let key := createKey1 cfg blockID in
         CHECK_STATE (bool_decide (key <> ""%string)) ;;
         value ← on_db (readString key);
         if bool_decide (value <> ""%string) then
           let serializedBlock := string_bytes value in
           lift_res (serializedSanityCheck serializedBlock) ;;
           mret (Some serializedBlock)
         else mret None)
  end.

Definition saveBlock2LevelDB (b : B) : M state unit :=
  lift_res (getSignature (bf_signature b)) ;;
  nested_all InvalidStateException
    (serializedBlock ← lift_res (bf_serialize b);
     on_cache (lru_put (bf_id b) serializedBlock) ;;
     let key := createKey1 cfg (bf_id b) in
     CHECK_STATE (bool_decide (key <> ""%string)) ;;
     on_db (writeByteArrayOver cfg key (bytes_string serializedBlock)) ;;
     on_db (writeString cfg createLastCommittedKey (to_string (bf_id b)) true)).

Definition saveBlock (b : B) : M state unit :=
  lift_res (getSignature (bf_signature b)) ;;
  nested_all InvalidStateException (saveBlock2LevelDB b).

Definition getBlock (blockID : Z) : M state (option B) :=
  nested_all InvalidStateException
    (serializedBlock ← getSerializedBlockFromLevelDB blockID;
     match serializedBlock with
     | None => mret None
     | Some bytes => b ← lift_res (bf_parse bytes false); mret (Some b)
     end).

Definition readLastCommittedBlockID : M state Z :=
  blockStr ← on_db (readString createLastCommittedKey);
  mret (if bool_decide (blockStr = ""%string) then 0 else stream_u64 blockStr).

Definition unfinishedBlockExists (blockID : Z) : M state bool :=
  str ← on_db (readString (createBlockStartKey blockID));
  if bool_decide (str <> ""%string) then
    e ← on_db (keyExists (createKey1 cfg blockID)); mret (negb e)
  else mret false.

(** The loop over the blocks; the result is the blocks' bytes, unless one is
    missing, and the sizes of the blocks read so far. *)
Fixpoint collectBlocks (ids : list Z) (totalSize : Z) (blocks : list Z) (blockSizes : list Z) :
    M state (option (list Z) * list Z) :=
  match ids with
  | [] => mret (Some blocks, blockSizes)
  | i :: ids =>
      serializedBlock ← getSerializedBlockFromLevelDB i;
      match serializedBlock with
      | None => mret (None, blockSizes)
      | Some bytes =>
          let totalSize := u64 (totalSize + zlen bytes) in
          if (getMaxCatchupDownloadBytes <? totalSize) && (0 <? zlen blockSizes)
          then mret (Some blocks, blockSizes)
          else collectBlocks ids totalSize (blocks ++ bytes) (blockSizes ++ [zlen bytes])
      end
  end.

Definition getSerializedBlocksFromLevelDB (startBlock endBlock : Z) :
    M state (option (list Z) * list Z) :=
  r ← collectBlocks (seqZ startBlock (endBlock - startBlock + 1)) 0 [91] [];
  match r with
  | (None, blockSizes) => mret (None, blockSizes)
  | (Some blocks, blockSizes) =>
      CHECK_STATE (0 <? zlen blockSizes) ;;
      mret (Some (blocks ++ [93]), blockSizes)
  end.

(** ** CommittedBlockList *)
Context (verifyDaSigsPatchTimestampS : Z).

Definition verifyDASigsPatch (blockTimeStampS : Z) : bool :=
  negb (verifyDaSigsPatchTimestampS =? 0) && (verifyDaSigsPatchTimestampS <=? blockTimeStampS).

(** The condition on the data availability signature. *)
Definition daSigPresent (b : B) : bool :=
  negb (verifyDASigsPatch (bf_timeStampS b)) || (bf_proposerIndex b =? 0) ||
  bool_decide (bf_daSig b <> ""%string).

(** One block of the list. *)
Definition parseListedBlock (bytes : list Z) (index size : Z) : res (B * Z) :=
  let endIndex := u64 (index + size) in
  rcheck InvalidStateException (endIndex <=? zlen bytes) ;;
  rcheck StdLengthError (index <=? endIndex) ;;
  b ← bf_parse (slice bytes index (endIndex - index)) true;
  rcheck InvalidStateException (daSigPresent b) ;;
  Ok (b, endIndex).

(** The loop: the blocks up to the first that fails, and the failure. *)
Fixpoint parseBlocks (sizes : list Z) (bytes : list Z) (index : Z) : list B * option exn :=
  match sizes with
  | [] => ([], None)
  | size :: sizes =>
      match parseListedBlock bytes index size with
      | Err e => ([], Some e)
      | Ok (b, index) => let '(bs, e) := parseBlocks sizes bytes index in (b :: bs, e)
      end
  end.

Definition mkCommittedBlockList (blockSizes bytes : list Z) (offset : Z) (createPartialList : bool) :
    res (list B) :=
  at_is InvalidArgumentException bytes offset 91 ;;
  at_is InvalidArgumentException bytes (zlen bytes - 1) 93 ;;
  match parseBlocks blockSizes bytes (u64 (offset + 1)) with
  | (bs, None) => Ok bs
  | (bs, Some _) =>
      if (1 <? zlen blockSizes) && createPartialList then Ok bs else Err InvalidStateException
  end.

Definition deserializeBlockList (blockSizes bytes : list Z) (offset : Z) (createPartialList : bool) :
    res (list B) :=
  at_is InvalidStateException bytes 0 91 ;;
  mkCommittedBlockList blockSizes bytes offset createPartialList.

(** The bytes of every block of a list. *)
Fixpoint serializeAll (bs : list B) : res (list (list Z)) :=
  match bs with
  | [] => Ok []
  | b :: bs => l ← bf_serialize b; ls ← serializeAll bs; Ok (l :: ls)
  end.

Definition cbl_serialize (bs : list B) : res (list Z) :=
  ls ← serializeAll bs; Ok ([91] ++ concat ls ++ [93]).

Definition createSizes (bs : list B) : res (list Z) :=
  ls ← serializeAll bs; Ok (map zlen ls).
End BlockDB.

(** ** The stored blocks *)
Section Stored.
Context {D : Type} `{HealthyStore D}.
Context {B : Type} `{BlockFormatOk B}.
Context (cfg : db_config).
Local Abbreviation state := (block_db D).
Implicit Types s : state.

(** What the database proper holds for a block, and what a reader gets. *)
Definition db_block s (id : Z) : option (list Z) :=
  match db_lookup (bd_db s) (createKey1 cfg id) with
  | Some v => if bool_decide (v = ""%string) then None else Some (string_bytes v)
  | None => None
  end.

Definition stored s (id : Z) : option (list Z) :=
  match lru_lookup (bd_cache s) id with Some l => Some l | None => db_block s id end.

(** The cache never disagrees with the database; an entry of the database may
    be gone with its shard. *)
Record bd_inv s : Prop := {
  bi_wf : db_wf (bd_db s);
  bi_lru : lru_inv (bd_cache s);
  bi_max : lru_max_size (bd_cache s) = NUMBER_OF_BLOCKS_TO_CACHE;
  bi_sane : forall id l, 0 <= id -> db_block s id = Some l -> serializedSanityCheck l = Ok tt;
  bi_coherent : forall id l, 0 <= id -> lru_lookup (bd_cache s) id = Some l ->
    db_block s id = Some l \/ db_block s id = None
}.

Lemma getSerialized_spec s i (Q : res (option (list Z)) -> state -> Prop) :
  bd_inv s -> 0 <= i ->
  (forall s', bd_inv s' -> bd_db s' = bd_db s -> (forall j, stored s' j = stored s j) ->
     Q (Ok (stored s i)) s') ->
  wp (getSerializedBlockFromLevelDB cfg i) s Q.
Proof.
  intros Hi Hpos HQ. unfold getSerializedBlockFromLevelDB, on_cache. rewrite wp_bind, wp_zoom.
  apply wp_lru_getIfExists; [apply Hi|].
  set (s1 := mkBlockDb (bd_db s) (lru_touch i (bd_cache s))).
  assert (forall j, lru_lookup (bd_cache s1) j = lru_lookup (bd_cache s) j) as Hl
    by (intros j; apply lru_lookup_touch, Hi).
  assert (bd_inv s1) as Hi1.
  { destruct Hi. constructor; [done|by apply lru_touch_inv|cbn; by rewrite lru_touch_max|done|].
    intros j l Hj. rewrite Hl. by apply bi_coherent0. }
  assert (forall j, stored s1 j = stored s j) as Hst by (intros j; unfold stored; by rewrite Hl).
  specialize (HQ s1 Hi1 eq_refl Hst). unfold stored in HQ.
  destruct (lru_lookup (bd_cache s) i) as [l|]; [by wp_simpl|]. wp_simpl.
  rewrite bool_decide_eq_true_2 by apply createKey1_nonempty. split; [intros _|done].
  unfold on_db, readString. rewrite wp_zoom. apply readString_spec; [apply Hi|].
  change (bd_db s1) with (bd_db s). unfold db_block in HQ. pose proof (fun l => bi_sane s Hi i l Hpos) as Hsane. unfold db_block in Hsane.
  destruct (db_lookup (bd_db s) (createKey1 cfg i)) as [v|]; cbn [default from_option id].
  - destruct (decide (v = ""%string)) as [->|Hv].
    + rewrite bool_decide_eq_false_2 by (intros Hne; exact (Hne eq_refl)). wp_simpl. by rewrite bool_decide_eq_true_2 in HQ.
    + rewrite bool_decide_eq_true_2 by done. wp_simpl.
      rewrite bool_decide_eq_false_2 in HQ, Hsane by done. by rewrite Hsane.
  - rewrite bool_decide_eq_false_2 by (intros Hne; exact (Hne eq_refl)). by wp_simpl.
Qed.

Lemma last_key_block i : createLastCommittedKey cfg <> createKey1 cfg i.
Proof.
  unfold createLastCommittedKey, createKey1. intros Heq%(inj (String.app _)).
  assert ("last"%string = to_string i) as Hl.
  { change (":" +:+ to_string i) with (String ":" (to_string i)) in Heq. by injection Heq. }
  pose proof (to_string_digits i) as Hd. by rewrite <- Hl in Hd.
Qed.

Lemma string_bytes_string l : Forall is_byte l -> string_bytes (bytes_string l) = l.
Proof.
  induction 1 as [|b l Hb _ IH]; [done|]. cbn [bytes_string string_bytes]. rewrite IH.
  unfold char_code, is_byte in *. rewrite N_ascii_embedding by lia. f_equal. lia.
Qed.

Lemma sane_nonempty l : serializedSanityCheck l = Ok tt -> bytes_string l <> ""%string.
Proof. by destruct l. Qed.

(** The database after the two writes of [saveBlock]. *)
Lemma save_writes (t : level_db D) i l :
  db_wf t -> 0 <= i ->
  wp (writeByteArrayOver cfg (createKey1 cfg i) l ;;
      writeString cfg (createLastCommittedKey cfg) (to_string i) true) t (fun r t' =>
    r = Ok tt /\ db_wf t' /\ db_lookup t' (createKey1 cfg i) = Some l /\
    db_lookup t' (createLastCommittedKey cfg) = Some (to_string i) /\
    forall k, k <> createKey1 cfg i -> k <> createLastCommittedKey cfg ->
      db_lookup t' k = db_lookup t k \/ db_lookup t' k = None).
Proof.
  intros Hwf Hi. wp_simpl.
  assert (wp (writeByteArrayOver cfg (createKey1 cfg i) l) t (fun r t1 =>
    r = Ok tt /\ db_wf t1 /\ exists t0, db_retains t t0 /\ forall k, db_lookup t1 k =
      if decide (k = createKey1 cfg i) then Some l else db_lookup t0 k)) as Hw1.
  { change (wp (writeString cfg (createKey1 cfg i) l true) t (fun r t1 =>
      r = Ok tt /\ db_wf t1 /\ exists t0, db_retains t t0 /\ forall k, db_lookup t1 k =
        if decide (k = createKey1 cfg i) then Some l else db_lookup t0 k)).
    eapply wp_mono; [by apply writeString_spec|]. cbv beta.
    intros r t1 (-> & ? & t0 & _ & ? & ?). eauto 6. }
  assert (wp (writeByteArrayOver cfg (createKey1 cfg i) l) t
    (fun _ t1 => locate t1 (createKey1 cfg i) = Some (3%nat, l))) as Hw2
    by exact (writeString_newest cfg t (createKey1 cfg i) l Hwf).
  eapply wp_mono; [exact (wp_and _ _ _ _ Hw1 Hw2)|]. cbv beta.
  intros r t1 ((-> & Hwf1 & t0 & Hret & Hk1) & Hloc).
  eapply wp_mono; [by apply writeString_spec|]. cbv beta.
  intros r t2 (-> & Hwf2 & t3 & _ & Hret3 & Hk2). pose proof (last_key_block i) as Hne.
  split_and!; [done|done| | |].
  - rewrite Hk2, decide_False by auto. destruct (Hret3 (createKey1 cfg i)) as [->|[[v Hv] _]].
    + by rewrite Hk1, decide_True.
    + rewrite Hloc in Hv. discriminate.
  - by rewrite Hk2, decide_True.
  - intros k Hki Hkl. rewrite Hk2, decide_False by done.
    destruct (Hret3 k) as [->|[_ ->]]; [|by right]. rewrite Hk1, decide_False by done.
    destruct (Hret k) as [->|[_ ->]]; [by left|by right].
Qed.

Lemma getBlock_spec s i bytes b :
  bd_inv s -> 0 <= i -> stored s i = Some bytes -> bf_parse bytes false = Ok b ->
  wp (getBlock cfg i) s (fun o s' => o = Ok (Some b) /\ bd_inv s').
Proof.
  intros Hi Hpos Hst Hp. unfold getBlock. wp_simpl. apply getSerialized_spec; [done..|].
  intros s' Hi' _ _. rewrite Hst. wp_simpl. rewrite Hp. by wp_simpl.
Qed.

Lemma readLast_spec s i :
  db_wf (bd_db s) -> 0 <= i < 2 ^ 64 ->
  db_lookup (bd_db s) (createLastCommittedKey cfg) = Some (to_string i) ->
  wp (readLastCommittedBlockID cfg) s (fun o _ => o = Ok i).
Proof.
  intros Hwf Hi Hl. unfold readLastCommittedBlockID, on_db, readString. rewrite wp_bind, wp_zoom.
  apply readString_spec; [done|]. wp_simpl. rewrite Hl. cbn [default from_option id].
  rewrite bool_decide_eq_false_2 by apply to_string_nonempty.
  unfold stream_u64. by rewrite stoull_to_string.
Qed.

(** The state after [saveBlock] wrote to the cache and to the database. *)
Lemma save_inv s i bytes (t' : level_db D) :
  bd_inv s -> 0 <= i -> Forall is_byte bytes -> serializedSanityCheck bytes = Ok tt ->
  db_wf t' -> db_lookup t' (createKey1 cfg i) = Some (bytes_string bytes) ->
  (forall k, k <> createKey1 cfg i -> k <> createLastCommittedKey cfg ->
     db_lookup t' k = db_lookup (bd_db s) k \/ db_lookup t' k = None) ->
  let s' := mkBlockDb t' (putUnsafe i bytes (bd_cache s)) in
  bd_inv s' /\ stored s' i = Some bytes /\ db_block s' i = Some bytes /\
  forall j, 0 <= j -> j <> i -> stored s' j = stored s j \/ stored s' j = None.
Proof.
  intros Hi Hpos Hbytes Hsane Hwf Hkey Hother s'.
  assert (db_block s' i = Some bytes) as Hdb.
  { unfold db_block. cbn [bd_db s']. rewrite Hkey.
    rewrite bool_decide_eq_false_2 by (by apply sane_nonempty). by rewrite string_bytes_string. }
  assert (lru_lookup (bd_cache s') i = Some bytes) as Hlru.
  { apply lru_lookup_put; [apply Hi|]. rewrite (bi_max s Hi). unfold NUMBER_OF_BLOCKS_TO_CACHE. lia. }
  assert (forall j, 0 <= j -> j <> i -> db_block s' j = db_block s j \/ db_block s' j = None) as Hj.
  { intros j Hj Hne. unfold db_block. cbn [bd_db s'].
    destruct (Hother (createKey1 cfg j)) as [->| ->]; [| |by left|by right].
    - intros Heq%createKey1_inj; lia.
    - pose proof (last_key_block j). auto. }
  assert (forall j l, j <> i -> lru_lookup (bd_cache s') j = Some l -> lru_lookup (bd_cache s) j = Some l) as Hc.
  { intros j l Hne. apply lru_lookup_put_ne; [apply Hi|done]. }
  split_and!.
  - constructor; [done|apply lru_putUnsafe_inv, Hi| | |].
    + cbn. rewrite lru_put_max by apply Hi. apply Hi.
    + intros j l Hjp Hl. destruct (decide (j = i)) as [->|Hne]; [rewrite Hdb in Hl; by injection Hl as <-|].
      destruct (Hj j Hjp Hne) as [Heq|Heq]; rewrite Heq in Hl; [|done]. by apply (bi_sane s Hi j).
    + intros j l Hjp Hl. destruct (decide (j = i)) as [->|Hne]; [left; congruence|].
      destruct (Hj j Hjp Hne) as [-> | ->]; [|by right].
      apply (bi_coherent s Hi j l Hjp). by apply Hc.
  - unfold stored. by rewrite Hlru.
  - done.
  - intros j Hjp Hne. unfold stored. destruct (lru_lookup (bd_cache s') j) as [l|] eqn:Hl.
    + left. apply Hc in Hl; [|done]. by rewrite Hl.
    + destruct (Hj j Hjp Hne) as [-> | ->]; [|by right].
      destruct (lru_lookup (bd_cache s) j) as [l|] eqn:Hl0; [|by left].
      destruct (bi_coherent s Hi j l Hjp Hl0) as [-> | ->]; [by left|by right].
Qed.

Lemma restart_inv s : bd_inv s -> bd_inv (mkBlockDb (bd_db s) (lru_new NUMBER_OF_BLOCKS_TO_CACHE)).
Proof.
  intros Hi. constructor; [apply Hi|by apply lru_new_inv|done|exact (bi_sane s Hi)|done].
Qed.

(** A committed block that is saved can be read back: right away, and also
    after a restart, when the cache is empty, the block with its number is the
    block that was saved, and the last committed block is its number.  No other
    block changes; at most it is lost with the oldest shard. *)
Theorem saved_block_read_back s (b : B) :
  bd_inv s -> bf_wf b -> 0 <= bf_id b < 2 ^ 64 ->
  wp (saveBlock cfg b) s (fun r s' =>
    let restarted := mkBlockDb (bd_db s') (lru_new NUMBER_OF_BLOCKS_TO_CACHE) in
    r = Ok tt /\ bd_inv s' /\ bd_inv restarted /\
    wp (getBlock cfg (bf_id b)) s' (fun o _ => o = Ok (Some (bf_clean b))) /\
    wp (readLastCommittedBlockID cfg) s' (fun o _ => o = Ok (bf_id b)) /\
    wp (getBlock cfg (bf_id b)) restarted (fun o _ => o = Ok (Some (bf_clean b))) /\
    wp (readLastCommittedBlockID cfg) restarted (fun o _ => o = Ok (bf_id b)) /\
    forall j, 0 <= j -> j <> bf_id b -> stored s' j = stored s j \/ stored s' j = None).
Proof.
  intros Hi Hb Hid. destruct (bf_roundtrip b Hb) as (Hsig & bytes & Hser & Hbytes & Hsane & Hparse & _).
  assert (getSignature (bf_signature b) = Ok (bf_signature b)) as Hgs
    by (unfold getSignature; by rewrite bool_decide_eq_true_2).
  unfold saveBlock, saveBlock2LevelDB. wp_simpl. rewrite Hgs. wp_simpl. rewrite Hser. wp_simpl.
  unfold on_cache. rewrite wp_zoom. unfold lru_put. wp_simpl.
  rewrite bool_decide_eq_true_2 by apply createKey1_nonempty. split; [intros _|done].
  pose proof (save_writes (bd_db s) (bf_id b) (bytes_string bytes) (bi_wf s Hi) (proj1 Hid)) as Hw.
  rewrite wp_bind in Hw. unfold on_db. rewrite wp_zoom. refine (wp_mono _ _ _ _ Hw _).
  cbv beta. intros [[]|e] t1 Ht1; [|by destruct Ht1 as (? & _)].
  rewrite wp_zoom. refine (wp_mono _ _ _ _ Ht1 _). cbv beta.
  intros r t2 (-> & Hwf & Hkey & Hlast & Hother). cbn [bd_cache rnested_all].
  destruct (save_inv s (bf_id b) bytes t2 Hi (proj1 Hid) Hbytes Hsane Hwf Hkey Hother)
    as (Hi' & Hst & Hdb & Hoth).
  set (s' := mkBlockDb t2 (putUnsafe (bf_id b) bytes (bd_cache s))) in *.
  pose proof (restart_inv s' Hi') as Hi''.
  assert (forall s1 i, wp (getBlock cfg i) s1 (fun o s2 => o = Ok (Some (bf_clean b)) /\ bd_inv s2) ->
    wp (getBlock cfg i) s1 (fun o _ => o = Ok (Some (bf_clean b)))) as Hproj
    by (intros s1 i Hw1; refine (wp_mono _ _ _ _ Hw1 _); by intros ? ? [? _]).
  split_and!; [done|done|done| | | | |done].
  - apply Hproj, (getBlock_spec s' (bf_id b) bytes); [done|lia|done..].
  - by apply readLast_spec.
  - apply Hproj, (getBlock_spec _ (bf_id b) bytes); [done|lia|done|done].
  - by apply readLast_spec.
Qed.
End Stored.

(** ** Lists of blocks *)
Section Lists.
Context {B : Type} `{BlockFormatOk B}.
Context (patch : Z).

(** A list of blocks at an offset of the buffer parses block by block. *)
Lemma parseBlocks_concat (ls : list (list Z)) (bs : list B) pre suf :
  Forall2 (fun l b => bf_parse l true = Ok b /\ daSigPresent patch b = true) ls bs ->
  zlen (pre ++ concat ls ++ suf) < 2 ^ 64 ->
  parseBlocks patch (map zlen ls) (pre ++ concat ls ++ suf) (zlen pre) = (bs, None).
Proof.
  intros Hls. revert pre. induction Hls as [|l b ls bs [Hp Hda] _ IH]; intros pre Hlen; [done|].
  assert (pre ++ concat (l :: ls) ++ suf = pre ++ l ++ (concat ls ++ suf)) as Hcat
    by (cbn [concat]; by rewrite <- app_assoc).
  cbn [map parseBlocks]. rewrite Hcat in *. rewrite !zlen_app in Hlen.
  pose proof (zlen_nonneg pre). pose proof (zlen_nonneg l). pose proof (zlen_nonneg (concat ls)).
  pose proof (zlen_nonneg suf).
  assert (u64 (zlen pre + zlen l) = zlen pre + zlen l) as Hu by (apply (wrap_small 64); lia).
  assert (parseListedBlock patch (pre ++ l ++ concat ls ++ suf) (zlen pre) (zlen l) =
    Ok (b, zlen pre + zlen l)) as ->.
  { unfold parseListedBlock. rewrite Hu, !zlen_app.
    rewrite (proj2 (Z.leb_le _ _)) by lia. cbn [rcheck mbind res_bind].
    rewrite (proj2 (Z.leb_le _ _)) by lia. cbn [rcheck mbind res_bind].
    replace (zlen pre + zlen l - zlen pre) with (zlen l) by lia.
    rewrite slice_middle, Hp. cbn [mbind res_bind]. by rewrite Hda. }
  specialize (IH (pre ++ l)). rewrite <- app_assoc, (zlen_app pre l) in IH. rewrite IH; [done|].
  rewrite !zlen_app. lia.
Qed.

Lemma at_last (l : list Z) x : at_ (l ++ [x]) (zlen (l ++ [x]) - 1) = Ok x.
Proof.
  replace (zlen (l ++ [x]) - 1) with (zlen l); [apply at_middle|].
  rewrite zlen_app. change (zlen [x]) with 1. lia.
Qed.

Lemma deserialize_list (ls : list (list Z)) (bs : list B) partial :
  Forall2 (fun l b => bf_parse l true = Ok b /\ daSigPresent patch b = true) ls bs ->
  zlen (concat ls) + 2 < 2 ^ 64 ->
  deserializeBlockList patch (map zlen ls) ([91] ++ concat ls ++ [93]) 0 partial = Ok bs.
Proof.
  intros Hls Hlen. unfold deserializeBlockList, mkCommittedBlockList, at_is.
  assert (at_ ([91] ++ concat ls ++ [93]) 0 = Ok 91) as -> by done.
  rewrite (app_assoc [91]), at_last. cbn [mbind res_bind rcheck Z.eqb Pos.eqb].
  rewrite <- app_assoc. change (u64 (0 + 1)) with (zlen [91]).
  rewrite (parseBlocks_concat ls bs [91] [93] Hls); [done|].
  rewrite !zlen_app. change (zlen [91]) with 1. change (zlen [93]) with 1. lia.
Qed.

(** The blocks that parse, each from its own bytes. *)
Definition listed (bytes : list Z) (start : Z) (sizes : list Z) (bs : list B) : Prop :=
  forall j b, bs !! j = Some b -> exists size, sizes !! j = Some size /\
    0 <= start + foldr Z.add 0 (take j sizes) /\
    start + foldr Z.add 0 (take j sizes) + size <= zlen bytes /\
    bf_parse (slice bytes (start + foldr Z.add 0 (take j sizes)) size) true = Ok b /\
    bf_authentic b /\ daSigPresent patch b = true.

Lemma parseListedBlock_inv bytes start size (b : B) next :
  0 <= start -> start < 2 ^ 64 -> 0 <= size < 2 ^ 64 -> zlen bytes < 2 ^ 64 ->
  parseListedBlock patch bytes start size = Ok (b, next) ->
  next = start + size /\ start + size <= zlen bytes /\
  bf_parse (slice bytes start size) true = Ok b /\ daSigPresent patch b = true.
Proof.
  intros Hs Hs64 Hsz Hlen. unfold parseListedBlock.
  destruct (Z.leb_spec (u64 (start + size)) (zlen bytes)); cbn [rcheck mbind res_bind]; [|done].
  destruct (Z.leb_spec start (u64 (start + size))) as [Hle|]; cbn [rcheck mbind res_bind]; [|done].
  assert (u64 (start + size) = start + size) as Hu.
  { destruct (Z_lt_ge_dec (start + size) (2 ^ 64)); [apply (wrap_small 64); lia|].
    exfalso. assert (u64 (start + size) = start + size - 2 ^ 64) as Hw; [|lia].
    unfold u64, wrap. symmetry. apply (Z.mod_unique_pos _ _ 1); lia. }
  rewrite Hu in *. replace (start + size - start) with size by lia.
  destruct (bf_parse _ true) as [b'|] eqn:Hp; cbn [mbind res_bind]; [|done].
  destruct (daSigPresent patch b') eqn:Hda; cbn [rcheck mbind res_bind]; [|done].
  intros [= <- <-]. done.
Qed.

Lemma parseBlocks_sound sizes bytes start (bs : list B) e :
  Forall (fun n => 0 <= n < 2 ^ 64) sizes -> zlen bytes < 2 ^ 64 -> 0 <= start < 2 ^ 64 ->
  parseBlocks patch sizes bytes start = (bs, e) ->
  listed bytes start sizes bs /\ (length bs <= length sizes)%nat /\
  (e = None -> length bs = length sizes).
Proof.
  intros Hsz Hlen. revert start bs. induction Hsz as [|size sizes Hsize Hsz IH]; intros start bs Hst.
  { intros [= <- <-]. done. }
  cbn [parseBlocks]. destruct (parseListedBlock patch bytes start size) as [[b next]|x] eqn:Hp.
  2:{ intros [= <- <-]. split; [by intros j b|]. split; [cbn; lia|done]. }
  apply parseListedBlock_inv in Hp as (-> & Hle & Hb & Hda); [|lia..].
  destruct (parseBlocks patch sizes bytes (start + size)) as [bs' e'] eqn:Hps. intros [= <- <-].
  apply IH in Hps as (Hlst & Hlbs & Hall); [|lia]. split; [|cbn; split; [lia|intros He; by rewrite Hall]].
  intros [|j] b' Hj.
  - injection Hj as <-. exists size. cbn [take foldr]. rewrite Z.add_0_r.
    split_and!; [done|lia|lia|done|by apply (bf_parse_authentic _ _ Hb)|done].
  - destruct (Hlst j b' Hj) as (sz & Hsj & ?). exists sz. split; [done|]. cbn [take foldr].
    by rewrite Z.add_assoc.
Qed.

(** The bytes of valid blocks parse with verification. *)
Lemma serializeAll_spec (bs : list B) ls :
  Forall (fun b => bf_wf b /\ bf_signed b /\ daSigPresent patch b = true) bs ->
  serializeAll bs = Ok ls ->
  length ls = length bs /\
  Forall2 (fun l b => bf_parse l true = Ok b /\ daSigPresent patch b = true) ls (map bf_clean bs).
Proof.
  intros Hbs. revert ls. induction Hbs as [|b bs (Hwf & Hsig & Hda) _ IH]; intros ls Hs.
  { injection Hs as <-. split; [done|constructor]. }
  destruct (bf_roundtrip b Hwf) as (_ & bytes & Hser & _ & _ & _ & Hp).
  cbn [serializeAll] in Hs. rewrite Hser in Hs. cbn [mbind res_bind] in Hs.
  destruct (serializeAll bs) as [ls'|]; cbn [mbind res_bind] in Hs; [|done]. injection Hs as <-.
  destruct (IH ls' eq_refl) as [Hl Hf]. split; [cbn; lia|]. constructor; [|done].
  split; [by apply Hp|]. destruct (bf_clean_fields b) as (Hpi & Hts & Hd).
  unfold daSigPresent in *. by rewrite Hpi, Hts, Hd.
Qed.

(** Whatever a peer sends, every block of the list that a node makes from
    it is authentic, was parsed with verification from its own part of the
    buffer, inside the buffer and without wrap-around, and carries a data
    availability signature when the patch requires one.  The list is complete,
    unless partial lists are allowed and more than one block was announced: then
    it is a prefix. *)
Theorem catchup_list_sound sizes bytes offset partial (bs : list B) :
  Forall (fun n => 0 <= n < 2 ^ 64) sizes -> zlen bytes < 2 ^ 64 -> 0 <= offset ->
  deserializeBlockList patch sizes bytes offset partial = Ok bs ->
  listed bytes (offset + 1) sizes bs /\
  (length bs = length sizes \/
   (length bs < length sizes)%nat /\ partial = true /\ (1 < length sizes)%nat).
Proof.
  intros Hsz Hlen Hoff. unfold deserializeBlockList, mkCommittedBlockList, at_is.
  destruct (at_ bytes 0) as [x|]; cbn [mbind res_bind]; [|done].
  destruct (x =? 91); cbn [rcheck mbind res_bind]; [|done].
  destruct (at_ bytes offset) as [y|] eqn:Ho; cbn [mbind res_bind]; [|done].
  destruct (y =? 91); cbn [rcheck mbind res_bind]; [|done].
  destruct (at_ bytes (zlen bytes - 1)) as [z|]; cbn [mbind res_bind]; [|done].
  destruct (z =? 93); cbn [rcheck mbind res_bind]; [|done].
  assert (offset < zlen bytes) as Hin.
  { unfold at_ in Ho. rewrite (proj2 (Z.ltb_ge offset 0)) in Ho by lia.
    destruct (bytes !! Z.to_nat offset) eqn:Hl; [|done].
    apply lookup_lt_Some in Hl. unfold zlen. lia. }
  rewrite (wrap_small 64 (offset + 1) : _ -> u64 _ = _) by lia.
  destruct (parseBlocks patch sizes bytes (offset + 1)) as [bs' e] eqn:Hp.
  apply parseBlocks_sound in Hp as (Hl & Hle & Hall); [|done|done|lia]. destruct e as [x'|].
  - destruct (Z.ltb_spec 1 (zlen sizes)) as [H1|]; [|done]. destruct partial; [|done].
    intros [= <-]. split; [done|]. unfold zlen in H1.
    destruct (decide (length bs' = length sizes)); [by left|right]. split_and!; [lia|done|lia].
  - intros [= <-]. split; [done|]. left. by apply Hall.
Qed.
End Lists.

(** ** Catchup between two nodes *)
Section Catchup.
Context {D : Type} `{HealthyStore D}.
Context {B : Type} `{BlockFormatOk B}.
Context (cfg : db_config) (maxBytes : Z) (patch : Z).
Local Abbreviation state := (block_db D).
Implicit Types s : state.

(** The loop takes as many blocks as fit, at least one. *)
Lemma collectBlocks_spec (ls : list (list Z)) s start total blocks sizes :
  bd_inv cfg s -> 0 <= start -> 0 <= total -> total + zlen (concat ls) < 2 ^ 64 ->
  (forall j l, ls !! j = Some l -> stored cfg s (start + Z.of_nat j) = Some l) ->
  wp (collectBlocks cfg maxBytes (seqZ start (zlen ls)) total blocks sizes) s (fun r s' =>
    bd_inv cfg s' /\ exists k,
    r = Ok (Some (blocks ++ concat (take k ls)), sizes ++ map zlen (take k ls)) /\
    (k <= length ls)%nat /\
    (k = 0%nat \/ k = 1%nat /\ sizes = [] \/ total + zlen (concat (take k ls)) <= maxBytes) /\
    (k = length ls \/ maxBytes < total + zlen (concat (take (S k) ls)) /\ sizes ++ map zlen (take k ls) <> [])).
Proof.
  revert s start total blocks sizes.
  induction ls as [|l ls IH]; intros s start total blocks sizes Hi Hst Htot Hlen Hls.
  { cbn. wp_simpl. split; [done|]. exists 0%nat. rewrite !app_nil_r. auto. }
  assert (seqZ start (zlen (l :: ls)) = start :: seqZ (start + 1) (zlen ls)) as ->.
  { rewrite seqZ_cons by (unfold zlen; cbn; lia). unfold zlen. f_equal. f_equal; cbn; lia. }
  cbn [concat] in Hlen. rewrite zlen_app in Hlen.
  pose proof (zlen_nonneg l). pose proof (zlen_nonneg (concat ls)).
  cbn [collectBlocks]. wp_simpl. apply getSerialized_spec; [done|done|]. intros s' Hi' _ Hsame.
  pose proof (Hls 0%nat l eq_refl) as H0'. rewrite Z.add_0_r in H0'. rewrite H0'.
  rewrite (wrap_small 64 (total + zlen l) : _ -> u64 _ = _) by lia.
  destruct (andb _ _) eqn:Hstop.
  - apply andb_true_iff in Hstop as [Hmax%Z.ltb_lt Hne%Z.ltb_lt]. wp_simpl. split; [done|].
    exists 0%nat. cbn [take concat map]. rewrite !app_nil_r. split_and!; [done|lia|by left|right].
    split; [done|]. by intros ->.
  - eapply wp_mono; [apply IH; [done|lia|lia|lia|]|].
    { intros j l' Hj. rewrite Hsame. replace (start + 1 + Z.of_nat j) with (start + Z.of_nat (S j)) by lia.
      by apply Hls. }
    cbv beta. intros r s2 (Hi2 & k & -> & Hk & Hfit & Hfull). split; [done|]. exists (S k).
    change (take (S k) (l :: ls)) with (l :: take k ls).
    change (take (S (S k)) (l :: ls)) with (l :: take (S k) ls). cbn [concat map].
    rewrite <- !app_assoc, !zlen_app. split_and!; [done|cbn; lia| |].
    + right. destruct Hfit as [->|[[_ Hnil]|Hfit]]; [|by apply app_eq_nil in Hnil as [_ ?]|right; lia].
      replace (zlen (concat (take 0 ls))) with 0 by done. apply andb_false_iff in Hstop as [Hs|Hs].
      * apply Z.ltb_ge in Hs. right. lia.
      * left. split; [done|]. apply Z.ltb_ge in Hs. destruct sizes; [done|]. unfold zlen in Hs. cbn in Hs. lia.
    + destruct Hfull as [->|[Hmax _]]; [left; done|right]. split; [lia|].
      by destruct sizes.
Qed.

(** What the loop collects for stored blocks, and that it parses. *)
Lemma getSerializedBlocks_spec s start (bs : list B) (ls : list (list Z)) partial :
  bd_inv cfg s -> 0 <= start -> bs <> [] ->
  Forall (fun b => bf_wf b /\ bf_signed b /\ daSigPresent patch b = true) bs ->
  serializeAll bs = Ok ls -> zlen (concat ls) + 2 < 2 ^ 64 ->
  (forall j l, ls !! j = Some l -> stored cfg s (start + Z.of_nat j) = Some l) ->
  wp (getSerializedBlocksFromLevelDB cfg maxBytes start (start + zlen bs - 1)) s (fun r s' =>
    bd_inv cfg s' /\ exists k,
    r = Ok (Some ([91] ++ concat (take k ls) ++ [93]), map zlen (take k ls)) /\ (1 <= k <= length bs)%nat /\
    (k = 1%nat \/ zlen (concat (take k ls)) <= maxBytes) /\
    (k = length bs \/ maxBytes < zlen (concat (take (S k) ls))) /\
    deserializeBlockList patch (map zlen (take k ls)) ([91] ++ concat (take k ls) ++ [93]) 0 partial =
      Ok (map bf_clean (take k bs))).
Proof.
  intros Hi Hst Hne Hbs Hser Hlen Hstored.
  destruct (serializeAll_spec patch bs ls Hbs Hser) as [Hll Hparse].
  unfold getSerializedBlocksFromLevelDB.
  replace (start + zlen bs - 1 - start + 1) with (zlen ls) by (unfold zlen; lia).
  wp_simpl. eapply wp_mono; [apply (collectBlocks_spec ls); [done|done|lia|lia|done]|].
  cbv beta. intros r s' (Hi' & k & -> & Hk & Hfit & Hfull). wp_simpl.
  assert (1 <= k)%nat as Hk1.
  { destruct k as [|k]; [|lia]. destruct Hfull as [Hz|[_ Hf]]; [|done].
    destruct bs; [done|]. cbn in Hll. lia. }
  split; [|intros Hz%Z.ltb_ge; exfalso; unfold zlen in Hz; rewrite app_nil_l, length_map, length_take in Hz; lia].
  intros _. split; [done|]. exists k. rewrite app_nil_l, <- (app_assoc [91]). split; [done|]. split; [lia|]. split_and!.
  - destruct Hfit as [?|[[? _]|?]]; [lia|by left|by right].
  - destruct Hfull as [?|[? _]]; [left; lia|by right].
  - apply deserialize_list; [rewrite <- (firstn_map bf_clean k bs); by apply Forall2_take|].
    pose proof (zlen_nonneg (concat (drop k ls))) as Hd.
    rewrite <- (take_drop k ls), concat_app, zlen_app in Hlen. lia.
Qed.
(** A node that is behind gets the blocks it asks for.  From a node that
    stores the consecutive blocks, the answer holds at least the first block
    and as many more as fit the limit of a download; the receiver parses and
    verifies exactly these blocks, in order. *)
Theorem catchup_transfers_blocks s start (bs : list B) (ls : list (list Z)) partial :
  bd_inv cfg s -> 0 <= start -> bs <> [] ->
  Forall (fun b => bf_wf b /\ bf_signed b /\ daSigPresent patch b = true) bs ->
  serializeAll bs = Ok ls -> zlen (concat ls) + 2 < 2 ^ 64 ->
  (forall j l, ls !! j = Some l -> stored cfg s (start + Z.of_nat j) = Some l) ->
  wp (getSerializedBlocksFromLevelDB cfg maxBytes start (start + zlen bs - 1)) s (fun r s' =>
    bd_inv cfg s' /\ exists k blob sizes,
    r = Ok (Some blob, sizes) /\ (1 <= k <= length bs)%nat /\
    (k = 1%nat \/ zlen (concat (take k ls)) <= maxBytes) /\
    (k = length bs \/ maxBytes < zlen (concat (take (S k) ls))) /\
    deserializeBlockList patch sizes blob 0 partial = Ok (map bf_clean (take k bs))).
Proof.
  intros Hi Hst Hne Hbs Hser Hlen Hstored.
  eapply wp_mono; [by apply (getSerializedBlocks_spec s start bs ls partial)|]. cbv beta.
  intros r s' (Hi' & k & -> & Hk & Hfit & Hfull & Hd). split; [done|]. exists k. do 2 eexists. done.
Qed.
End Catchup.

(** ** Committed blocks are such a format *)
Section Committed.
Context (blake3 : list Z -> list Z) (blake3_length : forall x, hash_sized (blake3 x)).
Context (blake3_bytes : forall x, Forall is_byte (blake3 x)).
Context (u256_str : Z -> string) (u256_parse : string -> res Z) (export_bits : Z -> list Z).
Context (parse_str : forall p, 0 <= p < 2 ^ 256 -> u256_parse (u256_str p) = Ok p).
Context (str_plain : forall p, plain (u256_str p)).
Context (json_dump : json -> string) (json_parse : string -> res json).
Context (parse_dump : forall j, json_plain j -> json_parse (json_dump j) = Ok j).
Context (dump_braces : forall j, exists mid, string_bytes (json_dump j) = 123 :: mid ++ [125]).
Context (dump_length : forall j k v, j !! k = Some v ->
  (String.length k + 6 <= String.length (json_dump j))%nat).
Context (verifyECDSASig : list Z -> string -> Z -> Z -> res unit).
Context (verifyThresholdSig : string -> Z -> list Z -> TimeStamp -> res unit).
Context (verifyDAProofSig : list Z -> string -> Z -> Z -> res unit).

#[local] Instance committed_format : BlockFormat CommittedBlock := {|
  bf_id b := bp_blockID (cb_block b);
  bf_signature b := bp_signature (cb_block b);
  bf_proposerIndex b := bp_proposerIndex (cb_block b);
  bf_timeStampS b := bp_timeStamp (cb_block b);
  bf_daSig := cb_daSig;
  bf_serialize := serializeBlock blake3 u256_str json_dump;
  bf_parse := deserializeBlock blake3 u256_parse export_bits json_parse verifyECDSASig
    verifyThresholdSig verifyDAProofSig
|}.

(** A transaction list is made of bytes. *)
Definition list_of_bytes (l : TransactionList) : Prop :=
  Forall (fun t => Forall is_byte (tx_data t)) (tl_transactions l).

Lemma frame_bytes text ts :
  Forall (fun t => Forall is_byte (tx_data t)) ts ->
  Forall is_byte (frame text (txs_bytes blake3 ts true)).
Proof.
  intros Hts. unfold frame. rewrite !Forall_app, Forall_cons, Forall_app, Forall_singleton.
  assert (forall str, Forall is_byte (string_bytes str)) as Hstr.
  { induction str as [|c str IH]; constructor; [|done]. unfold is_byte, char_code.
    pose proof (N_ascii_bounded c). lia. }
  assert (Forall is_byte (txs_bytes blake3 ts true)) as Htx.
  { unfold txs_bytes. apply Forall_concat, Forall_map. refine (Forall_impl _ _ _ Hts _).
    intros t Ht. unfold tx_bytes. apply Forall_app. split; [done|]. apply Forall_take, blake3_bytes. }
  unfold is_byte at 3 5. split_and!; auto using le_bytes_range; lia.
Qed.

#[local] Program Instance committed_format_ok : BlockFormatOk CommittedBlock := {|
  bf_wf b := block_wf blake3 export_bits b /\ list_of_bytes (bp_transactionList (cb_block b)) /\
    fits json_dump (addCommittedFields u256_str (committed_header_of blake3 b));
  bf_signed := block_signed blake3 verifyECDSASig verifyThresholdSig verifyDAProofSig;
  bf_authentic := block_authentic blake3 export_bits verifyECDSASig verifyThresholdSig
    verifyDAProofSig;
  bf_clean := fresh_block
|}.
Next Obligation.
  intros b (Hwf & Hby & Hfits). split; [apply Hwf|].
  destruct (block_roundtrip blake3 blake3_length u256_str u256_parse export_bits parse_str str_plain
    json_dump json_parse parse_dump dump_braces dump_length verifyECDSASig verifyThresholdSig
    verifyDAProofSig b Hwf Hfits) as (text & Hs & Hc & Hp).
  eexists. split_and!; [exact Hs|by apply frame_bytes|done|by apply Hp|]. intros Hsig. by apply Hp.
Qed.
Next Obligation. intros bytes b Hb. exact (deserialized_authentic _ _ _ _ _ _ _ _ _ Hb). Qed.
Next Obligation. intros b. done. Qed.
End Committed.

(** ** Instances *)
Section Demo.
Let any_sig : list Z -> string -> Z -> Z -> res unit := fun _ _ _ _ => Ok tt.
Let any_thr : string -> Z -> list Z -> TimeStamp -> res unit := fun _ _ _ _ => Ok tt.

Lemma demo_hash_bytes x : Forall is_byte (demo_hash x).
Proof.
  unfold demo_hash. apply Forall_replicate. unfold is_byte. pose proof (Z.mod_pos_bound (zlen x) 256). lia.
Qed.

#[local] Instance demo_format : BlockFormat CommittedBlock :=
  committed_format demo_hash demo_str demo_u256_parse demo_export demo_dump demo_json_parse
    any_sig any_thr any_sig.

#[local] Instance demo_format_ok : BlockFormatOk CommittedBlock :=
  committed_format_ok demo_hash demo_hash_length demo_hash_bytes demo_str demo_u256_parse demo_export
    demo_u256_roundtrip demo_str_plain demo_dump demo_json_parse demo_parse_dump demo_dump_braces
    demo_dump_length any_sig any_thr any_sig.

Lemma demo_bf_wf : bf_wf demo_block.
Proof.
  split; [exact demo_block_wf|]. split; [|exact demo_block_fits].
  repeat constructor; cbn; unfold is_byte; repeat constructor; lia.
Qed.

Lemma demo_bf_signed : bf_signed demo_block.
Proof. by split_and!. Qed.

(** A database with some blocks in the cache. *)
Definition demo_store (c : lru_cache Z (list Z)) : block_db (gmap string string) :=
  mkBlockDb empty_db c.

Lemma demo_store_inv c :
  lru_inv c -> lru_max_size c = NUMBER_OF_BLOCKS_TO_CACHE -> bd_inv demo_config (demo_store c).
Proof.
  intros Hi Hm. assert (forall id, db_block demo_config (demo_store c) id = None) as Hn by done.
  constructor; [exact empty_db_wf|done|done| |]; intros id l Hid Hl; [by rewrite Hn in Hl|by right].
Qed.

Lemma saved_block_read_back_witness :
  wp (saveBlock demo_config demo_block) (demo_store (lru_new 3)) (fun r _ => r = Ok tt).
Proof.
  refine (wp_mono _ _ _ _ (saved_block_read_back demo_config (demo_store (lru_new 3)) demo_block _
    demo_bf_wf _) _).
  - apply demo_store_inv; [by apply lru_new_inv|done].
  - cbn. lia.
  - intros r s' (-> & _). reflexivity.
Defined.

Definition demo_bytes : list Z :=
  match bf_serialize demo_block with Ok l => l | Err _ => [] end.

Lemma demo_serialized : serializeAll [demo_block] = Ok [demo_bytes].
Proof. vm_compute. reflexivity. Qed.

Lemma catchup_transfers_blocks_witness :
  wp (getSerializedBlocksFromLevelDB demo_config 10 12 12) (demo_store (putUnsafe 12 demo_bytes (lru_new 3)))
    (fun r _ => exists k blob sizes, r = Ok (Some blob, sizes) /\
       deserializeBlockList 1 sizes blob 0 false = Ok (map bf_clean (take k [demo_block]))).
Proof.
  refine (wp_mono _ _ _ _ (catchup_transfers_blocks demo_config 10 1
    (demo_store (putUnsafe 12 demo_bytes (lru_new 3))) 12 [demo_block] [demo_bytes] false
    _ _ _ _ demo_serialized _ _) _).
  - apply demo_store_inv; [apply lru_putUnsafe_inv; by apply lru_new_inv|done].
  - lia.
  - discriminate.
  - apply Forall_singleton. split; [exact demo_bf_wf|]. split; [exact demo_bf_signed|reflexivity].
  - vm_compute. reflexivity.
  - intros [|j] l Hj; [|done]. apply (inj Some) in Hj as <-. unfold stored.
    replace (lru_lookup _ _) with (Some demo_bytes); [done|].
    symmetry. apply lru_lookup_put; [by apply lru_new_inv|done].
  - intros r s' (_ & k & blob & sizes & Hr & _ & _ & _ & Hd). exists k, blob, sizes. split; [exact Hr|exact Hd].
Defined.

Lemma catchup_list_sound_witness :
  listed 1 ([91] ++ concat [demo_bytes] ++ [93]) 1 [zlen demo_bytes] [bf_clean demo_block].
Proof.
  refine (proj1 (catchup_list_sound 1 [zlen demo_bytes] ([91] ++ concat [demo_bytes] ++ [93]) 0 false
    [bf_clean demo_block] _ _ _ _)).
  - apply Forall_singleton. split; vm_compute; [discriminate|reflexivity].
  - vm_compute. reflexivity.
  - lia.
  - vm_compute. reflexivity.
Defined.
End Demo.
