(* ===== verification/ProposalStore.v ===== *)
(** * The proposal database

    Model of [BlockProposalDB] ([src/db/BlockProposalDB.cpp]): the newest
    proposal of every proposer is kept in memory, and the node's own proposals
    are also stored, so that the node proposes the same block again after a
    crash. *)

From stdpp Require Import base tactics gmap list strings.
From Stdlib Require Import ZArith Lia.
From S2P Require Import Prelude Bytes LevelDb LevelDbSets Transactions Blocks BlockStore.

Record proposal_db {D : Type} := mkProposalDb {
  pd_caches : list (option BlockProposal);
  pd_db : level_db D
}.
Arguments proposal_db : clear implicits.
Arguments mkProposalDb {D}.

Section ProposalDB.
Context {D : Type} `{KVStore D}.
Context (cfg : db_config) (nodeCount schainIndex : Z).
Context (blake3 : list Z -> list Z).
Context (u256_str : Z -> string) (u256_parse : string -> res Z) (export_bits : Z -> list Z).
Context (json_dump : json -> string) (json_parse : string -> res json).
Context (verifyECDSASig : list Z -> string -> Z -> Z -> res unit).
Local Abbreviation state := (proposal_db D).

Definition on_pdb {A} (c : M (level_db D) A) : M state A :=
  zoom pd_db (fun db s => mkProposalDb (pd_caches s) db) c.

Definition bpdb_construct (db : level_db D) : state :=
  mkProposalDb (replicate (Z.to_nat nodeCount) None) db.

(** [proposalCaches->at( index - 1 )] for a 64-bit unsigned [index]. *)
Definition cache_at (index : Z) : M state (option BlockProposal) :=
  s ← get;
  match pd_caches s !! Z.to_nat (u64 (index - 1)) with
  | Some c => mret c
  | None => throw StdOutOfRange
  end.

Definition cache_set (index : Z) (c : option BlockProposal) : M state unit :=
  modify (fun s => mkProposalDb (<[Z.to_nat (u64 (index - 1)) := c]> (pd_caches s)) (pd_db s)).

Definition addProposalToCacheIfDoesNotExist (p : BlockProposal) : M state unit :=
  let proposerIndex := bp_proposerIndex p in
  s ← get;
  CHECK_STATE (0 <? proposerIndex) ;;
  CHECK_STATE (proposerIndex <=? zlen (pd_caches s)) ;;
  previousProposal ← cache_at proposerIndex;
  match previousProposal with
  | Some q =>
      if bp_blockID p <? bp_blockID q then mret tt
      else if bp_blockID p <? bp_blockID q then mret tt
      else cache_set proposerIndex (Some p)
  | None => cache_set proposerIndex (Some p)
  end.

Definition serializeProposalAndSaveItToLevelDB (p : BlockProposal) : M state unit :=
  nested InvalidStateException
    (serialized ← lift_res (serializeProposal blake3 u256_str json_dump p);
     on_pdb (writeByteArrayToSet cfg (bytes_string serialized) (bp_blockID p) (bp_proposerIndex p)) ;;
     mret tt).

Definition addBlockProposal (p : BlockProposal) : M state unit :=
  lift_res (getSignature (bp_signature p)) ;;
  CHECK_STATE (bp_proposerIndex p <=? nodeCount) ;;
  CHECK_STATE (0 <? bp_proposerIndex p) ;;
  addProposalToCacheIfDoesNotExist p ;;
  if bp_proposerIndex p =? schainIndex then serializeProposalAndSaveItToLevelDB p else mret tt.

Definition getMyProposalFromLevelDB (blockID proposerIndex : Z) : M state (option (list Z)) :=
  nested_all InvalidStateException
    (value ← on_pdb (readStringFromSet cfg blockID proposerIndex);
     if bool_decide (value <> ""%string) then
       let serializedBlock := string_bytes value in
       lift_res (serializedSanityCheck serializedBlock) ;;
       mret (Some serializedBlock)
     else mret None).

(** After a miss in the cache: only own proposals are in the database. *)
Definition getStoredProposal (blockID proposerIndex : Z) : M state (option BlockProposal) :=
  if negb (schainIndex =? proposerIndex) then mret None
  else
    serializedProposal ← getMyProposalFromLevelDB blockID proposerIndex;
    match serializedProposal with
    | None => mret None
    | Some bytes =>
        proposal ← lift_res (deserializeProposal blake3 u256_parse export_bits json_parse
          verifyECDSASig bytes false);
        lift_res (getSignature (bp_signature proposal)) ;;
        mret (Some proposal)
    end.

Definition getBlockProposal (blockID proposerIndex : Z) : M state (option BlockProposal) :=
  cachedProposal ← cache_at proposerIndex;
  match cachedProposal with
  | Some p =>
      if bp_blockID p =? blockID then mret (Some p) else getStoredProposal blockID proposerIndex
  | None => getStoredProposal blockID proposerIndex
  end.

Definition cleanupUnneededMemoryBeforePushingToEvm (b : CommittedBlock) : M state unit :=
  let proposerIndex := bp_proposerIndex (cb_block b) in
  let blockId := bp_blockID (cb_block b) in
  modify (fun s => mkProposalDb
    (map (fun c : option BlockProposal =>
       match c with
       | Some p =>
           if negb (bp_proposerIndex p =? proposerIndex) || (bp_blockID p <=? blockId)
           then None else Some p
       | None => None
       end) (pd_caches s)) (pd_db s)).
End ProposalDB.

(** ** The own proposal *)
Section Own.
Context {D : Type} `{HealthyStore D}.
Context (cfg : db_config) (schainIndex : Z).
Context (Htotal : 1 <= dc_totalSigners cfg < 2 ^ 63) (Hreq : 1 <= dc_requiredSigners cfg).
Context (Hindex : 1 <= schainIndex <= dc_totalSigners cfg).
Context (blake3 : list Z -> list Z) (blake3_length : forall x, hash_sized (blake3 x)).
Context (blake3_bytes : forall x, Forall is_byte (blake3 x)).
Context (u256_str : Z -> string) (u256_parse : string -> res Z) (export_bits : Z -> list Z).
Context (parse_str : forall p, 0 <= p < 2 ^ 256 -> u256_parse (u256_str p) = Ok p).
Context (str_plain : forall p, plain (u256_str p)).
Context (json_dump : json -> string) (json_parse : string -> res json).
Context (parse_dump : forall j, json_plain j -> json_parse (json_dump j) = Ok j).
Context (dump_braces : forall j, exists mid, string_bytes (json_dump j) = 123 :: mid ++ [125]).
Context (dump_length : forall j k v, j !! k = Some v ->
  (String.length k + 6 <= String.length (json_dump j))%nat).
Context (verifyECDSASig : list Z -> string -> Z -> Z -> res unit).
Local Abbreviation state := (proposal_db D).
Local Abbreviation nodeCount := (dc_totalSigners cfg).
Local Abbreviation addProposal := (addBlockProposal cfg nodeCount schainIndex blake3 u256_str json_dump).
Local Abbreviation getProposal := (getBlockProposal cfg schainIndex blake3 u256_parse export_bits
  json_parse verifyECDSASig).
Implicit Types (s : state) (p : BlockProposal).

Record pd_inv s : Prop := {
  pi_sets : set_inv cfg (pd_db s);
  pi_caches : zlen (pd_caches s) = nodeCount
}.

Definition own_wf p : Prop :=
  bp_proposerIndex p = schainIndex /\ proposal_wf blake3 export_bits p /\
  list_of_bytes (bp_transactionList p) /\
  fits json_dump (addFields u256_str (header_of blake3 p)).

(** The newest proposal of the node in memory is not newer than the block. *)
Definition cache_not_newer s (blockID : Z) : Prop :=
  forall q, pd_caches s !! Z.to_nat (schainIndex - 1) = Some (Some q) -> bp_blockID q <= blockID.

Definition restart s : state := bpdb_construct nodeCount (pd_db s).

Lemma index_small : u64 (schainIndex - 1) = schainIndex - 1.
Proof. apply u64_small. lia. Qed.

Lemma cache_slot s : pd_inv s -> exists c, pd_caches s !! Z.to_nat (schainIndex - 1) = Some c.
Proof.
  intros [_ Hc]. unfold zlen in Hc. apply lookup_lt_is_Some. lia.
Qed.

Lemma addToCache_spec s p :
  pd_inv s -> bp_proposerIndex p = schainIndex -> cache_not_newer s (bp_blockID p) ->
  wp (addProposalToCacheIfDoesNotExist p) s (fun r s' => r = Ok tt /\
    s' = mkProposalDb (<[Z.to_nat (schainIndex - 1) := Some p]> (pd_caches s)) (pd_db s)).
Proof.
  intros Hi Hp Hold. unfold addProposalToCacheIfDoesNotExist, cache_at, cache_set. wp_simpl.
  rewrite Hp, (pi_caches s Hi), index_small. destruct (cache_slot s Hi) as [c Hc].
  rewrite Hc. split; [intros _|lia]. split; [intros _|lia]. wp_simpl.
  destruct c as [q|]; [|by wp_simpl]. specialize (Hold q Hc).
  rewrite (proj2 (Z.ltb_ge _ _)) by done. by wp_simpl.
Qed.

Lemma getStored_spec s p :
  set_inv cfg (pd_db s) -> own_wf p ->
  (exists bytes, db_lookup (pd_db s) (createKey2 cfg (bp_blockID p) schainIndex) = Some (bytes_string bytes) /\
     Forall is_byte bytes /\ serializedSanityCheck bytes = Ok tt /\
     deserializeProposal blake3 u256_parse export_bits json_parse verifyECDSASig bytes false =
       Ok (fresh_proposal p)) ->
  wp (getStoredProposal cfg schainIndex blake3 u256_parse export_bits json_parse verifyECDSASig
        (bp_blockID p) schainIndex) s
    (fun r s' => r = Ok (Some (fresh_proposal p)) /\ s' = s).
Proof.
  intros Hi (_ & Hwf & _) (bytes & Hl & Hby & Hsane & Hparse). unfold getStoredProposal.
  rewrite Z.eqb_refl. cbn [negb]. unfold getMyProposalFromLevelDB, on_pdb, readStringFromSet, readString.
  wp_simpl. rewrite wp_zoom. apply readString_spec; [apply Hi|]. rewrite Hl. cbn [default from_option id].
  rewrite bool_decide_eq_true_2 by (by apply sane_nonempty). wp_simpl.
  rewrite string_bytes_string, Hsane by done. wp_simpl. cbn [rnested_all]. wp_simpl. rewrite Hparse.
  wp_simpl. unfold getSignature. cbn [fresh_proposal bp_signature].
  destruct Hwf as (_&_&_&_&_&_&_&_&_&_& Hs & _). rewrite bool_decide_eq_true_2 by done.
  cbn [rcheck mbind res_bind]. wp_simpl. by destruct s.
Qed.

Lemma getCached s p :
  pd_inv s -> pd_caches s !! Z.to_nat (schainIndex - 1) = Some (Some p) ->
  wp (getProposal (bp_blockID p) schainIndex) s (fun r s' => r = Ok (Some p) /\ s' = s).
Proof.
  intros Hi Hc. unfold getBlockProposal, cache_at. wp_simpl. rewrite index_small, Hc. wp_simpl.
  rewrite Z.eqb_refl. by wp_simpl.
Qed.

Lemma getRestarted s p :
  wp (getStoredProposal cfg schainIndex blake3 u256_parse export_bits json_parse verifyECDSASig
        (bp_blockID p) schainIndex) (restart s)
    (fun r s' => r = Ok (Some (fresh_proposal p)) /\ s' = restart s) ->
  wp (getProposal (bp_blockID p) schainIndex) (restart s)
    (fun r s' => r = Ok (Some (fresh_proposal p)) /\ s' = restart s).
Proof.
  intros Hw. unfold getBlockProposal, cache_at. wp_simpl. rewrite index_small.
  cbn [restart bpdb_construct pd_caches]. rewrite lookup_replicate_2 by lia. wp_simpl. exact Hw.
Qed.
(** The node's own proposal is kept for a restart.  When a proposal for a
    new block is added, it is found in memory as it is, and after a restart, when
    the memory is empty, the stored copy is found, equal up to the cached bytes
    of its transaction list: the node proposes the same block again. *)
Theorem own_proposal_survives_restart s p :
  pd_inv s -> own_wf p -> cache_not_newer s (bp_blockID p) ->
  db_lookup (pd_db s) (createKey2 cfg (bp_blockID p) schainIndex) = None ->
  wp (addProposal p) s (fun r s' =>
    r = Ok tt /\ pd_inv s' /\ pd_inv (restart s') /\
    wp (getProposal (bp_blockID p) schainIndex) s' (fun r _ => r = Ok (Some p)) /\
    wp (getProposal (bp_blockID p) schainIndex) (restart s')
      (fun r _ => r = Ok (Some (fresh_proposal p)))).
Proof.
  intros Hi Hp Hold Hnew. pose proof Hp as (Hidx & Hwf & Hby & Hfits).
  destruct (proposal_roundtrip blake3 blake3_length u256_str u256_parse export_bits parse_str str_plain
    json_dump json_parse parse_dump dump_braces dump_length verifyECDSASig p Hwf Hfits)
    as (text & Hser & Hsane & Hparse).
  set (bytes := frame text (txs_bytes blake3 (tl_transactions (bp_transactionList p)) true)) in *.
  assert (Forall is_byte bytes) as Hbytes by (by apply frame_bytes).
  pose proof Hwf as (_&_&_& Hid &_&_&_&_&_&_& Hs & _).
  unfold addBlockProposal, getSignature. rewrite bool_decide_eq_true_2 by done. wp_simpl.
  cbn [rcheck mbind res_bind]. wp_simpl. rewrite Hidx, Z.eqb_refl. split; [intros _|lia]. split; [intros _|lia].
  eapply wp_mono; [by apply addToCache_spec|]. cbv beta. intros r s1 [-> ->].
  unfold serializeProposalAndSaveItToLevelDB, on_pdb. wp_simpl. rewrite Hser. wp_simpl. rewrite wp_zoom.
  eapply wp_mono; [apply (writeByteArrayToSet_spec cfg Htotal Hreq); [apply Hi|unfold word in Hid; lia| |]|].
  { rewrite Hidx. by apply elem_of_signers. }
  { by apply sane_nonempty. }
  cbn [pd_db pd_caches]. cbv beta. intros r s2 (Hi2 & s1 & Hrot & Hi1 & Hw). rewrite Hidx in Hw.
  assert (db_lookup s1 (createKey2 cfg (bp_blockID p) schainIndex) = None) as Hnew1.
  { destruct Hrot as [->|Hrot]; [done|]. destruct (rotated_retains _ _ Hrot (createKey2 cfg (bp_blockID p) schainIndex))
      as [->|[_ ->]]; done. }
  unfold set_written in Hw. rewrite Hnew1 in Hw. destruct Hw as ((_ & _ & _ & Hl & _) & Hr).
  assert (exists o, r = Ok o) as [o ->].
  { destruct (decide _) in Hr; [destruct Hr as (set & -> & _)|subst r]; eauto. }
  wp_simpl. cbn [rnested].
  set (s' := mkProposalDb _ s2).
  assert (pd_inv s') as Hi'.
  { constructor; [done|]. cbn [s' pd_caches]. unfold zlen. rewrite length_insert. apply Hi. }
  assert (pd_inv (restart s')) as Hi''.
  { constructor; [done|]. cbn. unfold zlen. rewrite length_replicate. lia. }
  split_and!; [done|done|done| |].
  - eapply wp_mono; [apply getCached; [done|]|by intros ? ? [? _]].
    cbn [s' pd_caches]. destruct (cache_slot s Hi) as [c Hc]. apply list_lookup_insert_eq.
    by eapply lookup_lt_Some.
  - eapply wp_mono; [apply getRestarted, getStored_spec; [done|done|]|by intros ? ? [? _]].
    exists bytes. split_and!; [done|done|done|by apply Hparse].
Qed.
End Own.

(** ** Instances *)
Section Demo.
Let any_sig : list Z -> string -> Z -> Z -> res unit := fun _ _ _ _ => Ok tt.

Definition demo_pdb : proposal_db (gmap string string) := bpdb_construct 4 empty_db.

Lemma demo_own_wf : own_wf 2 demo_hash demo_str demo_export demo_dump demo_proposal.
Proof.
  split; [done|]. split; [exact demo_proposal_wf|]. split.
  - repeat constructor; cbn; unfold is_byte; repeat constructor; lia.
  - apply fits_bool_fits. vm_compute. reflexivity.
Qed.

Lemma demo_pd_inv : pd_inv demo_config demo_pdb.
Proof. constructor; [exact demo_set_inv_empty|reflexivity]. Qed.

Lemma own_proposal_survives_restart_witness :
  wp (addBlockProposal demo_config 4 2 demo_hash demo_str demo_dump demo_proposal) demo_pdb
    (fun r _ => r = Ok tt).
Proof.
  refine (wp_mono _ _ _ _ (own_proposal_survives_restart demo_config 2 _ _ _ demo_hash demo_hash_length
    demo_hash_bytes demo_str demo_u256_parse demo_export demo_u256_roundtrip demo_str_plain demo_dump
    demo_json_parse demo_parse_dump demo_dump_braces demo_dump_length any_sig demo_pdb demo_proposal
    demo_pd_inv demo_own_wf _ _) _).
  - cbn. lia.
  - cbn. lia.
  - cbn. lia.
  - intros q Hq. vm_compute in Hq. discriminate.
  - reflexivity.
  - intros r s' (-> & _). reflexivity.
Defined.

(** A second proposal for the same block replaces the first one in memory and
    not in the database: after a restart the node has the first one again. *)
Definition demo_proposal2 : BlockProposal :=
  {| bp_schainID := 1; bp_proposerNodeID := 7; bp_blockID := 12; bp_proposerIndex := 2;
     bp_timeStamp := 1700000001; bp_timeStampMs := 13; bp_stateRoot := 99;
     bp_transactionList := mkTransactionList [demo_tx 3; demo_tx 1];
     bp_hash := demo_hash (repeat 0 152); bp_signature := "sig" |}.

Lemma second_proposal_only_in_memory :
  let add p := addBlockProposal demo_config 4 2 demo_hash demo_str demo_dump p in
  let find := getBlockProposal demo_config 2 demo_hash demo_u256_parse demo_export demo_json_parse
    any_sig 12 2 in
  let s1 := restart demo_config (add demo_proposal demo_pdb).2 in
  let s2 := (add demo_proposal2 s1).2 in
  (find s2).1 = Ok (Some demo_proposal2) /\
  (find (restart demo_config s2)).1 = Ok (Some demo_proposal).
Proof. split; vm_compute; reflexivity. Qed.
End Demo.
