(* ===== verification/OtherDbs.v ===== *)
(** * The small databases

    Models of the remaining databases of [src/db]: the history of installed
    versions ([InternalInfoDB], [VersionUpdateHistory]), the sent and received
    messages ([MsgDB]), the threshold signatures ([SigDB]), the common coin
    ([RandomDB]), the votes of the binary consensus ([ConsensusStateDB]), the
    committed transactions ([CommittedTransactionDB]), and the split of the
    storage between the databases ([StorageLimits]). *)

From stdpp Require Import base tactics gmap list strings sorting.
From Stdlib Require Import ZArith Lia Ascii.
From S2P Require Import Prelude Bytes LevelDb LevelDbSets Transactions BlockStore.

(** ** Storage limits *)
Record StorageLimits := {
  storageUnitBytes : Z;
  BLOCK_DB_SIZE : Z;
  RANDOM_DB_SIZE : Z;
  PRICE_DB_SIZE : Z;
  PROPOSAL_HASH_DB_SIZE : Z;
  PROPOSAL_VECTOR_DB_SIZE : Z;
  OUTGOING_MSG_DB_SIZE : Z;
  CONSENSUS_STATE_DB_SIZE : Z;
  BLOCK_SIG_SHARE_DB_SIZE : Z;
  DA_SIG_SHARE_DB_SIZE : Z;
  DA_PROOF_DB_SIZE : Z;
  BLOCK_PROPOSAL_DB_SIZE : Z;
  INTERNAL_INFO_DB_SIZE : Z;
  INCOMING_MSG_DB_SIZE : Z
}.

Definition mkStorageLimits (totalStorageLimitBytes : Z) : StorageLimits :=
  let unit := totalStorageLimitBytes / (Z.of_nat LEVELDB_SHARDS * (1000 + 10 * 10 + 100)) in
  {| storageUnitBytes := totalStorageLimitBytes;
     BLOCK_DB_SIZE := u64 (1000 * unit);
     RANDOM_DB_SIZE := u64 (10 * unit);
     PRICE_DB_SIZE := u64 (10 * unit);
     PROPOSAL_HASH_DB_SIZE := u64 (10 * unit);
     PROPOSAL_VECTOR_DB_SIZE := u64 (10 * unit);
     OUTGOING_MSG_DB_SIZE := u64 (10 * unit);
     CONSENSUS_STATE_DB_SIZE := u64 (10 * unit);
     BLOCK_SIG_SHARE_DB_SIZE := u64 (10 * unit);
     DA_SIG_SHARE_DB_SIZE := u64 (10 * unit);
     DA_PROOF_DB_SIZE := u64 (10 * unit);
     BLOCK_PROPOSAL_DB_SIZE := u64 (100 * unit);
     INTERNAL_INFO_DB_SIZE := u64 (1 * unit);
     INCOMING_MSG_DB_SIZE := u64 (9 * unit) |}.

(** ** Version history *)
Definition comma : ascii := ","%char.

Definition mkVersionUpdateHistory (serializedHistory : string) : list string :=
  if bool_decide (serializedHistory = ""%string) then [] else boost_tokens comma serializedHistory.

(** The loop is bounded by the length of the text that it is about to build,
    which is zero at its start. *)
Fixpoint serializeLoop (history : list string) (i : nat) (serializedVersion : string) (fuel : nat) :
    res string :=
  if (i <? String.length serializedVersion)%nat then
    match fuel, history !! i with
    | O, _ => Err OutOfFuel
    | _, None => Err StdOutOfRange
    | S fuel, Some v =>
        let text := serializedVersion +:+ v in
        serializeLoop history (S i) (if (i <? String.length text - 1)%nat then text +:+ "," else text) fuel
    end
  else Ok serializedVersion.

Definition serializeHistory (history : list string) : res string :=
  serializeLoop history 0 "" (length history).

Section InternalInfoDB.
Context {D : Type} `{KVStore D}.
Context (cfg : db_config) (engineVersion : string).

Record info_db := mkInfoDb {
  id_db : level_db D;
  id_cached : option (list string)
}.

Definition on_idb {A} (c : M (level_db D) A) : M info_db A :=
  zoom id_db (fun db s => mkInfoDb db (id_cached s)) c.

Definition VERSION_HISTORY_KEY : string := "versionHistory".

Definition readVersionUpdateHistory : M info_db string := on_idb (readString VERSION_HISTORY_KEY).

(** [back()] of an empty vector is undefined; a text of commas is never
    written. *)
Definition updateInternalChainInfo (blockId : Z) : M info_db unit :=
  let verify := h ← readVersionUpdateHistory; CHECK_STATE (bool_decide (h <> ""%string)) in
  if blockId =? 0 then
    on_idb (writeString cfg VERSION_HISTORY_KEY engineVersion true) ;; verify
  else
    storedVersionHistory ← readVersionUpdateHistory;
    if bool_decide (storedVersionHistory = ""%string)
    then on_idb (writeString cfg VERSION_HISTORY_KEY "1.87" true)
    else
      match last (mkVersionUpdateHistory storedVersionHistory) with
      | None => throw InvalidStateException
      | Some v =>
          when (bool_decide (v <> engineVersion))
            (on_idb (writeString cfg VERSION_HISTORY_KEY
               (storedVersionHistory +:+ "," +:+ engineVersion) true)) ;;
          verify
      end.

Definition getVersionUpdateHistory : M info_db (list string) :=
  s ← get;
  match id_cached s with
  | Some h => mret h
  | None =>
      storedVersionHistory ← readVersionUpdateHistory;
      let h := mkVersionUpdateHistory storedVersionHistory in
      modify (fun s => mkInfoDb (id_db s) (Some h)) ;;
      mret h
  end.

(** [h.size() == 0 && h.front() < "2.0"]: [front()] of an empty vector is
    undefined. *)
Definition isLegacyDb : M info_db bool :=
  h ← getVersionUpdateHistory;
  match h with
  | [] => throw InvalidStateException
  | _ :: _ => mret false
  end.
End InternalInfoDB.
Arguments info_db : clear implicits.
Arguments mkInfoDb {D}.

Section Others.
Context {D : Type} `{KVStore D}.
Context (cfg : db_config).
Local Abbreviation state := (level_db D).

(** ** Messages *)

(** [msgCounter] counts the messages of all message databases. *)
Record msg_db := mkMsgDb { md_db : level_db D; md_counter : Z }.

Definition on_mdb {A} (c : M (level_db D) A) : M msg_db A :=
  zoom md_db (fun db s => mkMsgDb db (md_counter s)) c.

(** A message, its text and the parser of that text. *)
Context (message : Type) (serializeToString : message -> res string) (msg_block : message -> Z).
Context (parseMessage : string -> res message).

Definition saveMsg (m : message) : M msg_db bool :=
  nested_all InvalidStateException
    (serialized ← lift_res (serializeToString m);
     CHECK_STATE (bool_decide (serialized <> ""%string)) ;;
     currentCounter ← gets md_counter;
     modify (fun s => mkMsgDb (md_db s) (u64 (md_counter s + 1))) ;;
     let key := createKey2 cfg (msg_block m) currentCounter in
     CHECK_STATE (bool_decide (key <> ""%string)) ;;
     previous ← on_mdb (readString key);
     if bool_decide (previous = ""%string)
     then on_mdb (writeString cfg key serialized false) ;; mret true
     else mret (bool_decide (previous = serialized))).

(** A [std::map] of strings iterates in key order. *)
Definition text_le (x y : string * string) : Prop := String.leb x.1 y.1 = true.
#[local] Instance text_le_dec : RelDecision text_le.
Proof. intros x y. unfold text_le. apply _. Defined.

Definition text_items (m : gmap string string) : list (string * string) :=
  merge_sort text_le (map_to_list m).

Fixpoint parseAll (items : list (string * string)) : res (list message) :=
  match items with
  | [] => Ok []
  | (_, text) :: items => m ← parseMessage text; ms ← parseAll items; Ok (m :: ms)
  end.

Definition getMessages (blockID : Z) : M msg_db (list message) :=
  nested_all InvalidStateException
    (let prefix := (dc_version cfg +:+ ":" +:+ to_string blockID)%string in
     messages ← on_mdb (readPrefixRange prefix);
     match messages with
     | None => mret []
     | Some ms => lift_res (parseAll (text_items ms))
     end).

(** ** Signatures and the common coin *)
Definition addSignature (blockId : Z) (sig : string) : M state unit :=
  let key := createKey1 cfg blockId in
  CHECK_STATE (bool_decide (key <> ""%string)) ;;
  previous ← readString key;
  when (bool_decide (previous = ""%string)) (writeString cfg key sig false).

Definition readRandom (blockId proposerIndex round : Z) : M state Z :=
  let key := createKey3 cfg blockId proposerIndex round in
  CHECK_STATE (bool_decide (key <> ""%string)) ;;
  value ← readString key;
  CHECK_STATE (bool_decide (value <> ""%string)) ;;
  lift_res (stoull value).

(** ** Committed transactions *)
Definition writeCommittedTransaction (blake3 : list Z -> list Z) (t : Transaction) (counter : Z) :
    M state unit :=
  writeByteArray cfg (bytes_string (tx_getPartialHash blake3 t)) (bytes_string (le_bytes 8 counter)) ;;
  writeString cfg (dc_version cfg +:+ ":transactions") (to_string counter) false.
End Others.
Arguments msg_db : clear implicits.
Arguments mkMsgDb {D}.

(** ** Bounds of the storage *)

(** The sizes of all databases, each with its shards, fit the limit. *)
Definition total_db_size (l : StorageLimits) : Z :=
  Z.of_nat LEVELDB_SHARDS *
  (BLOCK_DB_SIZE l + RANDOM_DB_SIZE l + PRICE_DB_SIZE l + PROPOSAL_HASH_DB_SIZE l +
   PROPOSAL_VECTOR_DB_SIZE l + OUTGOING_MSG_DB_SIZE l + CONSENSUS_STATE_DB_SIZE l +
   BLOCK_SIG_SHARE_DB_SIZE l + DA_SIG_SHARE_DB_SIZE l + DA_PROOF_DB_SIZE l +
   BLOCK_PROPOSAL_DB_SIZE l + INTERNAL_INFO_DB_SIZE l + INCOMING_MSG_DB_SIZE l).

(** The limits that the databases get add up, over all their shards, to no
    more than the storage of the node, and waste less than one unit per weight. *)
Theorem storage_limits_fit total :
  0 <= total < 2 ^ 64 ->
  total - Z.of_nat LEVELDB_SHARDS * 1200 < total_db_size (mkStorageLimits total) <= total.
Proof.
  intros Ht. unfold total_db_size, mkStorageLimits. cbn [BLOCK_DB_SIZE RANDOM_DB_SIZE PRICE_DB_SIZE
    PROPOSAL_HASH_DB_SIZE PROPOSAL_VECTOR_DB_SIZE OUTGOING_MSG_DB_SIZE CONSENSUS_STATE_DB_SIZE
    BLOCK_SIG_SHARE_DB_SIZE DA_SIG_SHARE_DB_SIZE DA_PROOF_DB_SIZE BLOCK_PROPOSAL_DB_SIZE
    INTERNAL_INFO_DB_SIZE INCOMING_MSG_DB_SIZE].
  change (Z.of_nat LEVELDB_SHARDS) with 4. change (4 * (1000 + 10 * 10 + 100)) with 4800.
  pose proof (Z.div_mod total 4800 ltac:(lia)). pose proof (Z.mod_pos_bound total 4800 ltac:(lia)).
  set (unit := total / 4800) in *. rewrite !u64_small by lia. lia.
Qed.

Lemma storage_limits_fit_witness :
  0 <= 1000000 < 2 ^ 64 /\ total_db_size (mkStorageLimits 1000000) <= 1000000.
Proof. split; [lia|]. apply (storage_limits_fit 1000000). lia. Defined.

(** The serialization of a version history is empty whatever the history. *)
Lemma serializeHistory_empty h : serializeHistory h = Ok ""%string.
Proof. by destruct h. Qed.

(** The messages of a block are looked up by a prefix without the separator:
    the messages of block 10 are among those of block 1. *)
Lemma getMessages_other_block :
  let serialize (m : Z * string) := Ok m.2 in
  let parse text := Ok (0, text) in
  let s := (saveMsg demo_config (Z * string) serialize fst (10, "vote"%string) (mkMsgDb empty_db 0)).2 in
  (getMessages demo_config (Z * string) parse 1 s).1 = Ok [(0, "vote"%string)].
Proof. vm_compute. reflexivity. Qed.
