(* ===== verification/Schain.v ===== *)
(** * The chain

    Model of [Schain] ([src/chains/Schain.cpp] and
    [src/chains/SchainGettersSetters.cpp]), the object that ties the components
    of a node together: it commits the blocks that the consensus decided or that
    arrived through catchup, hands them to the application, proposes the next
    block, collects data availability proofs, starts the consensus of a block and
    brings the node up after a restart.  The answers of the outside world, the
    clock, the exit flag, the application and the downloads, are read from
    streams, so that every theorem holds for all of them.  The functions run
    while the block processing mutex is held and after the wait for the
    bootstrap, which are not modelled; neither are the thread priorities, the
    visualization file and the log. *)

From stdpp Require Import base tactics gmap list strings.
From Stdlib Require Import ZArith Lia.
From S2P Require Import Prelude Bytes Messages LevelDb LevelDbSets ProposalVector ProtocolDbs.
From S2P Require Import Transactions Pricing PendingQueue Blocks BlockStore ProposalStore OtherDbs.

(** ** Configuration and outside world *)
Record chain_config := {
  cc_schainID : Z;
  cc_schainIndex : Z;
  cc_nodeID : Z;
  cc_isSyncOnlyNode : bool;
  cc_hasExtFace : bool;
  cc_isFinalizationDownloadOnly : bool;
  cc_maxTransactionsPerBlock : Z;
  cc_emptyBlockIntervalAfterCatchupMs : Z;
  cc_nodeCount : Z;
  cc_blockCfg : db_config;
  cc_proposalCfg : db_config;
  cc_hashCfg : db_config;
  cc_vectorCfg : db_config;
  cc_daProofCfg : db_config;
  cc_daSigCfg : db_config;
  cc_priceCfg : db_config;
  cc_infoCfg : db_config;
  cc_engineVersion : string;
  cc_params : node_params;
  cc_strategy : PricingStrategy
}.

(** The libraries and the crypto manager. *)
Record crypto := {
  cr_blake3 : list Z -> list Z;
  cr_u256_str : Z -> string;
  cr_u256_parse : string -> res Z;
  cr_export_bits : Z -> list Z;
  cr_json_dump : json -> string;
  cr_json_parse : string -> res json;
  cr_verifyECDSASig : list Z -> string -> Z -> Z -> res unit;
  cr_verifyThresholdSig : string -> Z -> list Z -> TimeStamp -> res unit;
  cr_verifyDAProofSig : list Z -> string -> Z -> Z -> res unit;
  cr_signProposal : list Z -> res string;
  cr_signDAProof : BlockProposal -> res DaSigShare;
  cr_share : Type;
  cr_createDAProofSigShare : string -> Z -> Z -> Z -> res cr_share;
  cr_mergeSignature : Z -> Z -> list cr_share -> res string
}.

(** Streams of answers; past their end the clock stands, there is no exit, the
    application accepts and nothing is pending. *)
Record world := mkWorld {
  wd_times : list Z;
  wd_exits : list bool;
  wd_creates : list (option exn);
  wd_polls : list (Z * list poll);
  wd_downloads : list (res (option (BlockProposal * res string)))
}.

(** ** State *)
Record chain_info := mkInfo {
  ci_lastCommittedBlockID : Z;
  ci_lastCommittedBlockTimeStamp : TimeStamp;
  ci_lastCommitTimeMs : Z;
  ci_evmProcessingTimeMs : Z;
  ci_blockSizeAverage : Z;
  ci_blockTimeAverageMs : Z;
  ci_tpsAverage : Z;
  ci_bootstrapBlockID : Z;
  ci_startTimeMs : Z
}.

Record chain_status := mkStatus {
  cs_totalTransactions : Z;
  cs_bootStrapped : bool;
  cs_isStateInitialized : bool;
  cs_inCreateBlock : bool;
  cs_proposalReceiptTime : Z;
  cs_emptyBlockIntervalMs : Z;
  cs_blockErrorAnalyzers : nat
}.

Record chain_stores {D : Type} := mkStores {
  st_block : block_db D;
  st_price : level_db D;
  st_proposal : proposal_db D;
  st_hash : level_db D;
  st_vector : level_db D;
  st_daProof : level_db D;
  st_daSig : level_db D;
  st_pending : pending_queue;
  st_info : info_db D
}.
Arguments chain_stores : clear implicits.
Arguments mkStores {D}.

(** A call of [ConsensusExtFace::createBlock]. *)
Record evm_call := {
  ev_transactions : list (list Z);
  ev_timeStamp : Z;
  ev_timeStampMs : Z;
  ev_blockID : Z;
  ev_price : Z;
  ev_stateRoot : Z;
  ev_proposerIndex : Z
}.

(** What is enqueued for the proposal client. *)
Inductive client_item :=
  | ItemProposal (p : BlockProposal)
  | ItemProof (p : DAProof).

Record chain_output := mkOutput {
  co_evm : list evm_call;
  co_messages : list (Z * BooleanProposalVector);
  co_client : list client_item;
  co_rebroadcast : list Z;
  co_daSigned : list BlockProposal  (* own proposals whose availability was signed *)
}.

Record schain {D : Type} := mkSchain {
  sc_info : chain_info;
  sc_status : chain_status;
  sc_stores : chain_stores D;
  sc_output : chain_output;
  sc_world : world
}.
Arguments schain : clear implicits.
Arguments mkSchain {D}.

Section Operations.
Context {D : Type} `{KVStore D}.
Context (C : chain_config) (K : crypto).
Local Abbreviation state := (schain D).

#[local] Instance chain_format : BlockFormat CommittedBlock :=
  committed_format (cr_blake3 K) (cr_u256_str K) (cr_u256_parse K) (cr_export_bits K) (cr_json_dump K)
    (cr_json_parse K) (cr_verifyECDSASig K) (cr_verifyThresholdSig K) (cr_verifyDAProofSig K).

(** ** Access to the parts *)
Definition on_info {A} (c : M chain_info A) : M state A :=
  zoom sc_info (fun x s => mkSchain x (sc_status s) (sc_stores s) (sc_output s) (sc_world s)) c.

Definition on_status {A} (c : M chain_status A) : M state A :=
  zoom sc_status (fun x s => mkSchain (sc_info s) x (sc_stores s) (sc_output s) (sc_world s)) c.

Definition on_stores {A} (c : M (chain_stores D) A) : M state A :=
  zoom sc_stores (fun x s => mkSchain (sc_info s) (sc_status s) x (sc_output s) (sc_world s)) c.

Definition on_output {A} (c : M chain_output A) : M state A :=
  zoom sc_output (fun x s => mkSchain (sc_info s) (sc_status s) (sc_stores s) x (sc_world s)) c.

Definition on_world {A} (c : M world A) : M state A :=
  zoom sc_world (fun x s => mkSchain (sc_info s) (sc_status s) (sc_stores s) (sc_output s) x) c.

Definition on_blockDb {A} (c : M (block_db D) A) : M state A :=
  on_stores (zoom st_block (fun x t => mkStores x (st_price t) (st_proposal t) (st_hash t)
    (st_vector t) (st_daProof t) (st_daSig t) (st_pending t) (st_info t)) c).

Definition on_priceDb {A} (c : M (level_db D) A) : M state A :=
  on_stores (zoom st_price (fun x t => mkStores (st_block t) x (st_proposal t) (st_hash t)
    (st_vector t) (st_daProof t) (st_daSig t) (st_pending t) (st_info t)) c).

Definition on_proposalDb {A} (c : M (proposal_db D) A) : M state A :=
  on_stores (zoom st_proposal (fun x t => mkStores (st_block t) (st_price t) x (st_hash t)
    (st_vector t) (st_daProof t) (st_daSig t) (st_pending t) (st_info t)) c).

Definition on_hashDb {A} (c : M (level_db D) A) : M state A :=
  on_stores (zoom st_hash (fun x t => mkStores (st_block t) (st_price t) (st_proposal t) x
    (st_vector t) (st_daProof t) (st_daSig t) (st_pending t) (st_info t)) c).

Definition on_vectorDb {A} (c : M (level_db D) A) : M state A :=
  on_stores (zoom st_vector (fun x t => mkStores (st_block t) (st_price t) (st_proposal t) (st_hash t)
    x (st_daProof t) (st_daSig t) (st_pending t) (st_info t)) c).

Definition on_daProofDb {A} (c : M (level_db D) A) : M state A :=
  on_stores (zoom st_daProof (fun x t => mkStores (st_block t) (st_price t) (st_proposal t) (st_hash t)
    (st_vector t) x (st_daSig t) (st_pending t) (st_info t)) c).

Definition on_daSigDb {A} (c : M (level_db D) A) : M state A :=
  on_stores (zoom st_daSig (fun x t => mkStores (st_block t) (st_price t) (st_proposal t) (st_hash t)
    (st_vector t) (st_daProof t) x (st_pending t) (st_info t)) c).

Definition on_pending {A} (c : M pending_queue A) : M state A :=
  on_stores (zoom st_pending (fun x t => mkStores (st_block t) (st_price t) (st_proposal t) (st_hash t)
    (st_vector t) (st_daProof t) (st_daSig t) x (st_info t)) c).

Definition on_infoDb {A} (c : M (info_db D) A) : M state A :=
  on_stores (zoom st_info (fun x t => mkStores (st_block t) (st_price t) (st_proposal t) (st_hash t)
    (st_vector t) (st_daProof t) (st_daSig t) (st_pending t) x) c).

(** ** The outside world *)
Definition getCurrentTimeMs : M state Z :=
  on_world (w ← get;
    match wd_times w with
    | [] => mret 0
    | [t] => mret t
    | t :: ts =>
        put (mkWorld ts (wd_exits w) (wd_creates w) (wd_polls w) (wd_downloads w)) ;; mret t
    end).

Definition isExitRequested : M state bool :=
  on_world (w ← get;
    match wd_exits w with
    | [] => mret false
    | e :: es =>
        put (mkWorld (wd_times w) es (wd_creates w) (wd_polls w) (wd_downloads w)) ;; mret e
    end).

(** The outcome of [createBlock]: it returns or throws. *)
Definition extFace_createBlock (call : evm_call) : M state unit :=
  on_output (modify (fun o =>
    mkOutput (co_evm o ++ [call]) (co_messages o) (co_client o) (co_rebroadcast o) (co_daSigned o))) ;;
  on_world (w ← get;
    match wd_creates w with
    | [] => mret tt
    | r :: rs =>
        put (mkWorld (wd_times w) (wd_exits w) rs (wd_polls w) (wd_downloads w)) ;;
        match r with None => mret tt | Some e => throw e end
    end).

Definition next_polls : M state (Z * list poll) :=
  on_world (w ← get;
    match wd_polls w with
    | [] => mret (0, [Poll [] 0 (2 ^ 64 - 1)])
    | p :: ps =>
        put (mkWorld (wd_times w) (wd_exits w) (wd_creates w) ps (wd_downloads w)) ;; mret p
    end).

(** [BlockFinalizeDownloader::downloadProposal] and [getDaSig]. *)
Definition next_download : M state (option (BlockProposal * res string)) :=
  on_world (w ← get;
    match wd_downloads w with
    | [] => mret None
    | d :: ds =>
        put (mkWorld (wd_times w) (wd_exits w) (wd_creates w) (wd_polls w) ds) ;; lift_res d
    end).

Definition checkForExit : M state unit :=
  e ← isExitRequested; check ExitRequestedException (negb e).

(** [Node::checkForExitOnBlockBoundaryAndExitIfNeeded]. *)
Definition checkForExitOnBlockBoundaryAndExitIfNeeded : M state unit :=
  e ← isExitRequested; check ExitRequestedException (negb e).

(** ** Getters and setters *)
Definition getLastCommittedBlockID : M state Z := gets (fun s => ci_lastCommittedBlockID (sc_info s)).

Definition getLastCommittedBlockTimeStamp : M state TimeStamp :=
  gets (fun s => ci_lastCommittedBlockTimeStamp (sc_info s)).

Definition getTotalSigners : Z := cc_nodeCount C.

Definition getRequiredSigners : Z :=
  if cc_nodeCount C <=? 2 then cc_nodeCount C else 2 * cc_nodeCount C / 3 + 1.

Definition sc_getBlock (blockID : Z) : M state (option CommittedBlock) :=
  nested InvalidStateException (on_blockDb (getBlock (cc_blockCfg C) blockID)).

(** The signature text is hashed; the conversion of the hash to an integer
    cannot fail. *)
Definition getRandomForBlockId (blockId : Z) : M state Z :=
  block ← sc_getBlock blockId;
  match block with
  | None => throw InvalidStateException
  | Some b => mret (le_value (rev (cr_blake3 K (string_bytes (cb_thresholdSig b)))))
  end.

Definition initLastCommittedBlockInfo (lastCommittedBlockID : Z) (stamp : TimeStamp) : M state unit :=
  now ← getCurrentTimeMs;
  on_info (modify (fun i => mkInfo lastCommittedBlockID stamp now (ci_evmProcessingTimeMs i)
    (ci_blockSizeAverage i) (ci_blockTimeAverageMs i) (ci_tpsAverage i) (ci_bootstrapBlockID i)
    (ci_startTimeMs i))).

Definition updateLastCommittedBlockInfo (lastCommittedBlockID : Z) (stamp : TimeStamp)
    (blockSize processingTimeMs : Z) : M state unit :=
  i ← gets sc_info;
  CHECK_STATE (lastCommittedBlockID =? u64 (ci_lastCommittedBlockID i + 1)) ;;
  CHECK_STATE (TimeStamp_lt (ci_lastCommittedBlockTimeStamp i) stamp) ;;
  currentTime ← getCurrentTimeMs;
  CHECK_STATE (ci_lastCommitTimeMs i <=? currentTime) ;;
  let blockSizeAverage :=
    u64 (u64 (ci_blockSizeAverage i * u64 (lastCommittedBlockID - 1)) + blockSize) / lastCommittedBlockID in
  let average :=
    u64 (currentTime - ci_startTimeMs i) / u64 (lastCommittedBlockID - ci_bootstrapBlockID i) in
  let blockTimeAverageMs := if average =? 0 then 1 else average in
  on_info (put (mkInfo lastCommittedBlockID stamp currentTime processingTimeMs blockSizeAverage
    blockTimeAverageMs (u64 (blockSizeAverage * 1000) / blockTimeAverageMs) (ci_bootstrapBlockID i)
    (ci_startTimeMs i))) ;;
  getRandomForBlockId lastCommittedBlockID ;;
  mret tt.

Definition addBlockErrorAnalyzer : M state unit :=
  on_status (modify (fun t => mkStatus (cs_totalTransactions t) (cs_bootStrapped t)
    (cs_isStateInitialized t) (cs_inCreateBlock t) (cs_proposalReceiptTime t)
    (cs_emptyBlockIntervalMs t) (S (cs_blockErrorAnalyzers t)))).

(** Every analyzer prints the head of the serialized block. *)
Definition analyzeErrors (b : CommittedBlock) : M state unit :=
  t ← gets sc_status;
  on_status (put (mkStatus (cs_totalTransactions t) (cs_bootStrapped t) (cs_isStateInitialized t)
    (cs_inCreateBlock t) (cs_proposalReceiptTime t) (cs_emptyBlockIntervalMs t) 0)) ;;
  mapM_ (fun _ => lift_res (bf_serialize b) ;; mret tt) (replicate (cs_blockErrorAnalyzers t) tt).

(** ** Committing a block *)
Definition setStatus (f : chain_status -> chain_status) : M state unit := on_status (modify f).

Definition with_inCreateBlock (v : bool) (t : chain_status) : chain_status :=
  mkStatus (cs_totalTransactions t) (cs_bootStrapped t) (cs_isStateInitialized t) v
    (cs_proposalReceiptTime t) (cs_emptyBlockIntervalMs t) (cs_blockErrorAnalyzers t).

Definition with_proposalReceiptTime (v : Z) (t : chain_status) : chain_status :=
  mkStatus (cs_totalTransactions t) (cs_bootStrapped t) (cs_isStateInitialized t)
    (cs_inCreateBlock t) v (cs_emptyBlockIntervalMs t) (cs_blockErrorAnalyzers t).

(** The parts of [printBlockLog] that are not text. *)
Definition printBlockLog (b : CommittedBlock) : M state unit :=
  setStatus (fun t => mkStatus
    (u64 (cs_totalTransactions t + tl_size (bp_transactionList (cb_block b)))) (cs_bootStrapped t)
    (cs_isStateInitialized t) (cs_inCreateBlock t) (cs_proposalReceiptTime t)
    (cs_emptyBlockIntervalMs t) (cs_blockErrorAnalyzers t)) ;;
  if cc_isSyncOnlyNode C then mret tt
  else on_pending getKnownTransactionsSize ;; mret tt.

Definition sc_saveBlock (b : CommittedBlock) : M state unit :=
  nested InvalidStateException (checkForExit ;; on_blockDb (saveBlock (cc_blockCfg C) b)).

Definition sc_cleanupUnneededMemoryBeforePushingToEvm (b : CommittedBlock) : M state unit :=
  nested InvalidStateException (on_proposalDb (cleanupUnneededMemoryBeforePushingToEvm b)).

(** [d] runs after [c] also when [c] throws. *)
Definition finally {A} (c : M state A) (d : M state unit) : M state A :=
  fun s => let '(r, s') := c s in (r, (d s').2).

(** [catch ( ... ) { inCreateBlock = false; throw; }]. *)
Definition createBlock (call : evm_call) : M state unit :=
  setStatus (with_inCreateBlock true) ;;
  finally (extFace_createBlock call) (setStatus (with_inCreateBlock false)).

Definition pushBlockToExtFace (b : CommittedBlock) : M state unit :=
  let p := cb_block b in
  checkForExit ;;
  nested InvalidStateException
    (tv ← lift_res (createTransactionVector (tl_transactions (bp_transactionList p)));
     on_priceDb (calculatePrice (cc_priceCfg C) (cc_params C) (cc_strategy C) (cr_u256_str K)
       (cr_u256_parse K) (zlen tv) (bp_blockID p)) ;;
     currentPrice ← on_priceDb (readPrice (cc_priceCfg C) (cc_params C) (cr_u256_parse K)
       (u64 (bp_blockID p - 1)));
     checkForExitOnBlockBoundaryAndExitIfNeeded ;;
     when (cc_hasExtFace C)
       (createBlock {| ev_transactions := tv; ev_timeStamp := bp_timeStamp p;
                       ev_timeStampMs := bp_timeStampMs p; ev_blockID := bp_blockID p;
                       ev_price := currentPrice; ev_stateRoot := bp_stateRoot p;
                       ev_proposerIndex := bp_proposerIndex p |}) ;;
     checkForExitOnBlockBoundaryAndExitIfNeeded).

Definition processCommittedBlock (b : CommittedBlock) : M state unit :=
  let p := cb_block b in
  checkForExit ;;
  nested InvalidStateException
    (last ← getLastCommittedBlockID;
     CHECK_STATE (u64 (last + 1) =? bp_blockID p) ;;
     printBlockLog b ;;
     setStatus (with_proposalReceiptTime 0) ;;
     CHECK_STATE (negb (u64 (last + 1) =? 0)) ;;
     sc_saveBlock b ;;
     sc_cleanupUnneededMemoryBeforePushingToEvm b ;;
     evmProcessingStartMs ← getCurrentTimeMs;
     pushBlockToExtFace b ;;
     evmProcessingEndMs ← getCurrentTimeMs;
     updateLastCommittedBlockInfo (bp_blockID p) (getTimeStamp p) (tl_size (bp_transactionList p))
       (u64 (evmProcessingEndMs - evmProcessingStartMs)) ;;
     analyzeErrors b).

(** ** Consensus of the next block *)
Definition postMessage (blockId : Z) (vector : BooleanProposalVector) : M state unit :=
  checkForExit ;;
  CHECK_STATE (negb (blockId =? 0)) ;;
  on_output (modify (fun o => mkOutput (co_evm o) (co_messages o ++ [(blockId, vector)]) (co_client o)
    (co_rebroadcast o) (co_daSigned o))).

Definition startConsensus (blockID : Z) (vector : BooleanProposalVector) : M state unit :=
  now ← getCurrentTimeMs;
  i ← gets sc_info;
  setStatus (with_proposalReceiptTime (u64 (now - ci_lastCommitTimeMs i))) ;;
  checkForExit ;;
  last ← getLastCommittedBlockID;
  if blockID <=? last then mret tt
  else if u64 (last + 1) <? blockID then mret tt
  else postMessage blockID vector.

Definition tryStartingConsensus (pv : BooleanProposalVector) (bid : Z) : M state unit :=
  needToStartConsensus ← on_vectorDb (trySavingProposalVector (cc_vectorCfg C) bid pv);
  if (needToStartConsensus : bool) then startConsensus bid pv else mret tt.

Definition blockProposalReceiptTimeoutArrived (blockID : Z) : M state unit :=
  nested InvalidStateException
    (last ← getLastCommittedBlockID;
     if blockID <=? last then mret tt
     else
       pv ← on_daProofDb (getCurrentProposalVector (cc_daProofCfg C) blockID);
       tryStartingConsensus pv blockID).

Definition daProofArrived (p : DAProof) : M state unit :=
  nested InvalidStateException
    (last ← getLastCommittedBlockID;
     if da_blockID p <=? last then mret tt
     else
       pv ← on_daProofDb (addDAProof (cc_daProofCfg C) p);
       match pv with
       | Some pv => tryStartingConsensus pv (da_blockID p)
       | None => mret tt
       end).

Definition enqueueItem (item : client_item) : M state unit :=
  on_output (modify (fun o => mkOutput (co_evm o) (co_messages o) (co_client o ++ [item])
    (co_rebroadcast o) (co_daSigned o))).

Definition da_proposal (p : BlockProposal) : DaProposal :=
  {| dp_blockID := bp_blockID p; dp_proposerIndex := bp_proposerIndex p; dp_hash := bp_hash p;
     dp_timeStampS := bp_timeStamp p |}.

Definition daProofSigShareArrived (sigShare : DaSigShare) (p : BlockProposal) : M state unit :=
  checkForExit ;;
  nested InvalidStateException
    (proof ← on_daSigDb (addAndMergeSigShareAndVerifySig (cc_daSigCfg C) (cr_share K)
       (cr_createDAProofSigShare K) (cr_mergeSignature K) (cr_verifyDAProofSig K) sigShare
       (da_proposal p));
     match proof with
     | Some proof => daProofArrived proof ;; enqueueItem (ItemProof proof)
     | None => mret tt
     end).

Definition proposedBlockArrived (p : BlockProposal) : M state unit :=
  last ← getLastCommittedBlockID;
  if bp_blockID p <=? last then mret tt
  else
    lift_res (getSignature (bp_signature p)) ;;
    on_proposalDb (addBlockProposal (cc_proposalCfg C) (cc_nodeCount C) (cc_schainIndex C) (cr_blake3 K)
      (cr_u256_str K) (cr_json_dump K) p).

(** [PendingTransactionsAgent::buildBlockProposal]: the wait ends at the first
    reading of the clock after the previous stamp. *)
Fixpoint waitUntilAfter (stampMs : Z) (fuel : nat) : M state unit :=
  now ← getCurrentTimeMs;
  if now <=? stampMs then
    match fuel with O => throw OutOfFuel | S fuel => waitUntilAfter stampMs fuel end
  else mret tt.

Definition buildBlockProposal (blockID : Z) (previous : TimeStamp) (isCalledAfterCatchup : bool) :
    M state BlockProposal :=
  polls ← next_polls;
  s ← get;
  result ← on_pending (createTransactionsListForProposal (cr_blake3 K)
    {| getMaxTransactionsPerBlock := cc_maxTransactionsPerBlock C;
       getEmptyBlockIntervalMs := cs_emptyBlockIntervalMs (sc_status s);
       getEmptyBlockIntervalAfterCatchupMs := cc_emptyBlockIntervalAfterCatchupMs C;
       lastCommittedBlockID := ci_lastCommittedBlockID (sc_info s) |}
    isCalledAfterCatchup polls.1 polls.2);
  match result with
  | None => throw OutOfFuel
  | Some (transactions, stateRoot) =>
      waitUntilAfter (u64 (u64 (ts_s previous * 1000) + ts_ms previous))
        (S (length (wd_times (sc_world s)))) ;;
      now ← getCurrentTimeMs;
      let stamp := getCurrentTimeStamp now in
      p ← lift_res (mkBlockProposal (cr_blake3 K) (cr_export_bits K) (cc_schainID C) (cc_nodeID C) blockID
            (cc_schainIndex C) (mkTransactionList transactions) stateRoot (ts_s stamp) (u32 (ts_ms stamp))
            "" (Some (cr_signProposal K)));
      lift_res (createPartialHashesList (cr_blake3 K) (zlen transactions) transactions) ;;
      mret p
  end.

(** [CryptoManager::signDAProof] for the own proposal; what is signed is in
    [co_daSigned]. *)
Definition signOwnDAProof (p : BlockProposal) : M state DaSigShare :=
  on_output (modify (fun o => mkOutput (co_evm o) (co_messages o) (co_client o) (co_rebroadcast o)
    (co_daSigned o ++ [p]))) ;;
  lift_res (cr_signDAProof K p).

Definition proposeNextBlock (isCalledAfterCatchup : bool) : M state unit :=
  checkForExit ;;
  nested InvalidStateException
    (last ← getLastCommittedBlockID;
     let proposedBlockID := u64 (last + 1) in
     have ← on_hashDb (haveProposal (cc_hashCfg C) proposedBlockID (cc_schainIndex C));
     myProposal ←
       (if (have : bool)
        then on_proposalDb (getBlockProposal (cc_proposalCfg C) (cc_schainIndex C) (cr_blake3 K)
               (cr_u256_parse K) (cr_export_bits K) (cr_json_parse K) (cr_verifyECDSASig K)
               proposedBlockID (cc_schainIndex C))
        else
          stamp ← getLastCommittedBlockTimeStamp;
          p ← buildBlockProposal proposedBlockID stamp isCalledAfterCatchup; mret (Some p));
     match myProposal with
     | None => throw InvalidStateException
     | Some p =>
         CHECK_STATE (bp_proposerIndex p =? cc_schainIndex C) ;;
         lift_res (getSignature (bp_signature p)) ;;
         proposedBlockArrived p ;;
         on_hashDb (checkAndSaveHash (cc_hashCfg C) proposedBlockID (cc_schainIndex C)
           (toHex (bp_hash p))) ;;
         enqueueItem (ItemProposal p) ;;
         mySig ← signOwnDAProof p;
         daProofSigShareArrived mySig p
     end).

(** ** Decided blocks *)
Definition createDefaultEmptyBlockProposal (blockId : Z) : M state BlockProposal :=
  stamp ← getLastCommittedBlockTimeStamp;
  let newStamp := incrementByMs stamp in
  lift_res (mkDefaultProposal (cr_blake3 K) (cr_export_bits K) (cc_schainID C) blockId (ts_s newStamp)
    (u32 (ts_ms newStamp)) 0).

Definition sc_getBlockProposal (blockID proposerIndex : Z) : M state (option BlockProposal) :=
  on_proposalDb (getBlockProposal (cc_proposalCfg C) (cc_schainIndex C) (cr_blake3 K) (cr_u256_parse K)
    (cr_export_bits K) (cr_json_parse K) (cr_verifyECDSASig K) blockID proposerIndex).

Definition blockCommitArrived (committedBlockID proposerIndex : Z) (thresholdSig : string)
    (daSig : option string) : M state unit :=
  CHECK_ARGUMENT (bool_decide (is_Some daSig) || (proposerIndex =? 0)) ;;
  CHECK_STATE (negb (cc_isSyncOnlyNode C)) ;;
  checkForExit ;;
  nested InvalidStateException
    (last ← getLastCommittedBlockID;
     if committedBlockID <=? last then mret tt
     else
       CHECK_STATE ((committedBlockID =? u64 (last + 1)) || (last =? 0)) ;;
       committedProposal ←
         (if 0 <? proposerIndex then sc_getBlockProposal committedBlockID proposerIndex
          else p ← createDefaultEmptyBlockProposal committedBlockID; mret (Some p));
       match committedProposal with
       | None => throw InvalidStateException
       | Some p =>
           newCommittedBlock ← lift_res (makeFromProposal (cr_blake3 K) (cr_export_bits K) p thresholdSig
             daSig);
           stamp ← getLastCommittedBlockTimeStamp;
           CHECK_STATE (TimeStamp_lt stamp (getTimeStamp (cb_block newCommittedBlock))) ;;
           processCommittedBlock newCommittedBlock ;;
           proposeNextBlock false
       end).

(** The loop over the blocks of a catchup list. *)
Fixpoint commitListed (blocks : list CommittedBlock) : M state unit :=
  match blocks with
  | [] => mret tt
  | b :: blocks =>
      checkForExit ;;
      last ← getLastCommittedBlockID;
      (if bp_blockID (cb_block b) =? u64 (last + 1) then
         stamp ← getLastCommittedBlockTimeStamp;
         CHECK_STATE (TimeStamp_lt stamp (getTimeStamp (cb_block b))) ;;
         processCommittedBlock b
       else mret tt) ;;
      commitListed blocks
  end.

(** [locked] says whether the mutex was locked in time. *)
Definition blockCommitsArrivedThroughCatchup (locked : bool) (blocks : list CommittedBlock) : M state Z :=
  match blocks with
  | [] => mret 0
  | first :: _ =>
      if negb locked then checkForExit ;; mret 0
      else
        committedIDOld ← getLastCommittedBlockID;
        CHECK_STATE (bp_blockID (cb_block first) <=? u64 (committedIDOld + 1)) ;;
        commitListed blocks ;;
        last ← getLastCommittedBlockID;
        if committedIDOld <? last then
          let result := u64 (last - committedIDOld) in
          when (negb (cc_isSyncOnlyNode C)) (proposeNextBlock true) ;;
          mret result
        else mret 0
  end.

Definition finalizeDecidedAndSignedBlock (blockId proposerIndex : Z) (thresholdSig : string) :
    M state unit :=
  last ← getLastCommittedBlockID;
  if blockId <=? last then mret tt
  else
    nested InvalidStateException
      (if proposerIndex =? 0 then blockCommitArrived blockId proposerIndex thresholdSig None
       else
         proposal ← sc_getBlockProposal blockId proposerIndex;
         daSig ←
           match proposal with
           | None => mret None
           | Some p =>
               daProofSig ← on_daProofDb (getDASig (cc_daProofCfg C) blockId proposerIndex);
               if bool_decide (daProofSig = ""%string) then mret None
               else
                 lift_res (cr_verifyDAProofSig K (bp_hash p) daProofSig blockId (bp_timeStamp p)) ;;
                 mret (Some daProofSig)
           end;
         found ←
           (if bool_decide (daSig = None) || cc_isFinalizationDownloadOnly C then
              CHECK_STATE (1 <? cc_nodeCount C) ;;
              d ← next_download;
              match d with
              | None => mret None
              | Some (p, sig) =>
                  sig ← lift_res sig;
                  on_proposalDb (addBlockProposal (cc_proposalCfg C) (cc_nodeCount C) (cc_schainIndex C)
                    (cr_blake3 K) (cr_u256_str K) (cr_json_dump K) p) ;;
                  mret (Some sig)
              end
            else mret daSig);
         match found with
         | None => mret tt
         | Some sig => blockCommitArrived blockId proposerIndex thresholdSig (Some sig)
         end).

(** ** Starting the chain *)

(** [catch ( ... ) {}] around [c], which keeps [a]. *)
Definition or_keep {A} (c : M state A) (a : A) : M state A :=
  fun s =>
    match c s with
    | (Ok x, s') => (Ok x, s')
    | (Err OutOfFuel, s') => (Err OutOfFuel, s')
    | (Err _, s') => (Ok a, s')
    end.

Definition fixCorruptStateIfNeeded (lastCommittedBlockID : Z) : M state bool :=
  on_blockDb (unfinishedBlockExists (cc_blockCfg C) (u64 (lastCommittedBlockID + 1))).

(** One turn of the loop that hands the application the blocks it misses. *)
Definition pushMissingBlock (id ts tsMs : Z) : M state (Z * Z * Z) :=
  block ← on_blockDb (getBlock (cc_blockCfg C) (u64 (id + 1)));
  match block with
  | None => throw InvalidStateException
  | Some b =>
      pushBlockToExtFace b ;;
      mret (u64 (id + 1), bp_timeStamp (cb_block b), bp_timeStampMs (cb_block b))
  end.

(** The loop; it only ends when every missing block has been pushed. *)
Fixpoint pushMissingBlocks (lastInConsensus id ts tsMs : Z) (fuel : nat) : M state (Z * Z * Z) :=
  if id <? lastInConsensus then
    match fuel with
    | O => throw OutOfFuel
    | S fuel =>
        x ← or_keep (pushMissingBlock id ts tsMs) (id, ts, tsMs);
        pushMissingBlocks lastInConsensus x.1.1 x.1.2 x.2 fuel
    end
  else mret (id, ts, tsMs).

Definition ifIncompleteConsensusDetectedRestartAndRebroadcastAllMessagesForCurrentBlock : M state unit :=
  last ← getLastCommittedBlockID;
  vector ← on_vectorDb (getVector (cc_vectorCfg C) (cc_nodeCount C) (u64 (last + 1)));
  match vector with
  | None => mret tt
  | Some v =>
      startConsensus (u64 (last + 1)) v ;;
      on_output (modify (fun o => mkOutput (co_evm o) (co_messages o) (co_client o)
        (co_rebroadcast o ++ [u64 (last + 1)]) (co_daSigned o)))
  end.

Definition with_emptyBlockIntervalMs (v : Z) (t : chain_status) : chain_status :=
  mkStatus (cs_totalTransactions t) (cs_bootStrapped t) (cs_isStateInitialized t)
    (cs_inCreateBlock t) (cs_proposalReceiptTime t) v (cs_blockErrorAnalyzers t).

(** Step 2 of [bootstrap]; its exceptions are logged. *)
Definition normalBootstrap (id ts tsMs : Z) : M state unit :=
  on_info (modify (fun i => mkInfo (ci_lastCommittedBlockID i) (ci_lastCommittedBlockTimeStamp i)
    (ci_lastCommitTimeMs i) (ci_evmProcessingTimeMs i) (ci_blockSizeAverage i)
    (ci_blockTimeAverageMs i) (ci_tpsAverage i) id (ci_startTimeMs i))) ;;
  CHECK_STATE (ts <? 2 * MODERN_TIME) ;;
  initLastCommittedBlockInfo id {| ts_s := ts; ts_ms := tsMs |} ;;
  last ← getLastCommittedBlockID;
  when (last =? 0)
    (on_priceDb (calculatePrice (cc_priceCfg C) (cc_params C) (cc_strategy C) (cr_u256_str K)
       (cr_u256_parse K) 0 0) ;; mret tt) ;;
  setStatus (fun t => mkStatus (cs_totalTransactions t) (cs_bootStrapped t) true (cs_inCreateBlock t)
    (cs_proposalReceiptTime t) (cs_emptyBlockIntervalMs t) (cs_blockErrorAnalyzers t)) ;;
  if cc_isSyncOnlyNode C then mret tt
  else
    emptyBlockInterval ← gets (fun s => cs_emptyBlockIntervalMs (sc_status s));
    setStatus (with_emptyBlockIntervalMs 50) ;;
    proposeNextBlock false ;;
    setStatus (with_emptyBlockIntervalMs emptyBlockInterval) ;;
    ifIncompleteConsensusDetectedRestartAndRebroadcastAllMessagesForCurrentBlock.

Definition bootstrap (lastCommittedBlockID lastCommittedBlockTimeStamp lastCommittedBlockTimeStampMs : Z)
    (fuel : nat) : M state unit :=
  t ← gets sc_status;
  setStatus (fun t => mkStatus (cs_totalTransactions t) true (cs_isStateInitialized t)
    (cs_inCreateBlock t) (cs_proposalReceiptTime t) (cs_emptyBlockIntervalMs t)
    (cs_blockErrorAnalyzers t)) ;;
  CHECK_STATE (negb (cs_bootStrapped t)) ;;
  on_infoDb (updateInternalChainInfo (cc_infoCfg C) (cc_engineVersion C) lastCommittedBlockID) ;;
  lastInConsensus ← on_blockDb (readLastCommittedBlockID (cc_blockCfg C));
  fixCorruptStateIfNeeded lastInConsensus ;;
  checkForExit ;;
  if u64 (lastCommittedBlockID + 128) <? lastInConsensus then throw InvalidStateException
  else if lastInConsensus <? lastCommittedBlockID then throw InvalidStateException
  else
    tsMs ←
      (if (lastCommittedBlockTimeStampMs =? 0) && (0 <? lastCommittedBlockID) then
         block ← on_blockDb (getBlock (cc_blockCfg C) lastCommittedBlockID);
         match block with
         | Some b => mret (bp_timeStampMs (cb_block b))
         | None => mret lastCommittedBlockTimeStampMs
         end
       else mret lastCommittedBlockTimeStampMs);
    x ← pushMissingBlocks lastInConsensus lastCommittedBlockID lastCommittedBlockTimeStamp tsMs fuel;
    or_keep (normalBootstrap x.1.1 x.1.2 x.2) tt.
End Operations.
