(* ===== verification/SchainTheorems.v ===== *)
(** * Theorems about the chain

    The committed part of the chain, the last block, the block database and the
    blocks handed to the application, under every operation of [Schain] and
    every outcome: what the outside world answers and which exceptions are
    thrown. *)

From stdpp Require Import base tactics gmap list strings.
From Stdlib Require Import ZArith Lia.
From S2P Require Import Prelude Bytes Messages LruCache LevelDb LevelDbSets ProposalVector ProtocolDbs.
From S2P Require Import Transactions Pricing PendingQueue Blocks BlockStore ProposalStore OtherDbs Schain.

(** ** Parts that an operation leaves alone *)
Section Rules.
Context {D : Type}.
Local Abbreviation state := (schain D).

Lemma keeps_finally {X A} (f : state -> X) (c : M state A) d :
  keeps f c -> keeps f d -> keeps f (finally c d).
Proof.
  intros Hc Hd s. unfold finally. specialize (Hc s). destruct (c s) as [r s']. cbn [snd] in *.
  rewrite <- Hc. apply Hd.
Qed.

Lemma keeps_or_keep {X A} (f : state -> X) (c : M state A) a : keeps f c -> keeps f (or_keep c a).
Proof.
  intros Hc s. unfold or_keep. specialize (Hc s). destruct (c s) as [[x|[]] s']; done.
Qed.

Lemma keeps_zoom2 {X T U A} (f : state -> X) (getf : state -> T) setf (getg : T -> U) setg (c : M U A) :
  (forall s u, f (setf (setg u (getf s)) s) = f s) -> keeps f (zoom getf setf (zoom getg setg c)).
Proof. intros Hs s. unfold zoom. destruct (c _). apply Hs. Qed.

Lemma wp_keeps {X A} (f : state -> X) (c : M state A) s (Q : res A -> state -> Prop) :
  keeps f c -> (forall r s', f s' = f s -> Q r s') -> wp c s Q.
Proof. intros Hc HQ. unfold wp. apply HQ, Hc. Qed.
End Rules.

(** Operations on a part that [f] does not look at. *)
Ltac keeps_part := intros; done.

Ltac keeps_step :=
  first
    [ apply keeps_ret | apply keeps_throw | apply keeps_lift | apply keeps_get | apply keeps_gets
    | apply keeps_check | apply keeps_when | apply keeps_nested | apply keeps_nested_all
    | apply keeps_option; [intros ?|]
    | apply keeps_bind; [|intros ?] | apply keeps_if
    | apply keeps_finally | apply keeps_or_keep
    | apply keeps_zoom2; keeps_part | apply keeps_zoom; keeps_part ].

Ltac keeps_tac := repeat keeps_step.

Create HintDb frame.

(** Closes the leaves of a method with the lemmas about what it calls. *)
Ltac keeps_auto := repeat first [solve [auto 3 with frame] | keeps_step].

Section Frame.
Context {D : Type} `{KVStore D}.
Context (C : chain_config) (K : crypto).
Local Abbreviation state := (schain D).
Implicit Types s : state.

(** The committed part of the state. *)
Definition committed s : chain_info * block_db D * level_db D * list evm_call :=
  (sc_info s, st_block (sc_stores s), st_price (sc_stores s), co_evm (sc_output s)).

Lemma checkForExit_keeps {X} (f : state -> X) :
  (forall s w, f (mkSchain (sc_info s) (sc_status s) (sc_stores s) (sc_output s) w) = f s) ->
  keeps f checkForExit.
Proof. intros Hf. unfold checkForExit, isExitRequested, on_world. keeps_tac. Qed.

Lemma getCurrentTimeMs_keeps {X} (f : state -> X) :
  (forall s w, f (mkSchain (sc_info s) (sc_status s) (sc_stores s) (sc_output s) w) = f s) ->
  keeps f getCurrentTimeMs.
Proof. intros Hf. unfold getCurrentTimeMs, on_world. apply keeps_zoom. auto. Qed.

Lemma on_output_keeps (g : chain_output -> chain_output) :
  (forall o, co_evm (g o) = co_evm o) -> keeps committed (on_output (modify g)).
Proof. intros Hg s. unfold committed. cbn. by rewrite Hg. Qed.

#[local] Hint Resolve checkForExit_keeps getCurrentTimeMs_keeps on_output_keeps : frame.

Lemma startConsensus_keeps b v : keeps committed (startConsensus b v).
Proof.
  unfold startConsensus, postMessage, setStatus, on_status, getLastCommittedBlockID. keeps_auto.
Qed.
#[local] Hint Resolve startConsensus_keeps : frame.

Lemma tryStartingConsensus_keeps v b : keeps committed (tryStartingConsensus C v b).
Proof. unfold tryStartingConsensus, on_vectorDb, on_stores. keeps_auto. Qed.
#[local] Hint Resolve tryStartingConsensus_keeps : frame.

Lemma daProofArrived_keeps p : keeps committed (daProofArrived C p).
Proof. unfold daProofArrived, getLastCommittedBlockID, on_daProofDb, on_stores. keeps_auto. Qed.
#[local] Hint Resolve daProofArrived_keeps : frame.

Lemma blockProposalReceiptTimeoutArrived_keeps b : keeps committed (blockProposalReceiptTimeoutArrived C b).
Proof.
  unfold blockProposalReceiptTimeoutArrived, getLastCommittedBlockID, on_daProofDb, on_stores. keeps_auto.
Qed.

Lemma daProofSigShareArrived_keeps x p : keeps committed (daProofSigShareArrived C K x p).
Proof. unfold daProofSigShareArrived, on_daSigDb, on_stores, enqueueItem. keeps_auto. Qed.
#[local] Hint Resolve daProofSigShareArrived_keeps : frame.

Lemma proposedBlockArrived_keeps p : keeps committed (proposedBlockArrived C K p).
Proof. unfold proposedBlockArrived, getLastCommittedBlockID, on_proposalDb, on_stores. keeps_auto. Qed.
#[local] Hint Resolve proposedBlockArrived_keeps : frame.

Lemma waitUntilAfter_keeps n fuel : keeps committed (waitUntilAfter n fuel).
Proof. induction fuel as [|fuel IH]; cbn [waitUntilAfter]; keeps_auto. Qed.
#[local] Hint Resolve waitUntilAfter_keeps : frame.

Lemma buildBlockProposal_keeps b t c : keeps committed (buildBlockProposal C K b t c).
Proof.
  unfold buildBlockProposal, next_polls, on_world, on_pending, on_stores. keeps_auto.
  all: destruct x; keeps_auto.
Qed.
#[local] Hint Resolve buildBlockProposal_keeps : frame.

Lemma proposeNextBlock_keeps c : keeps committed (proposeNextBlock C K c).
Proof.
  unfold proposeNextBlock, getLastCommittedBlockID, getLastCommittedBlockTimeStamp, on_hashDb, on_proposalDb,
    on_stores, enqueueItem, signOwnDAProof. keeps_auto.
Qed.
End Frame.
#[local] Hint Resolve checkForExit_keeps getCurrentTimeMs_keeps on_output_keeps proposeNextBlock_keeps
  daProofSigShareArrived_keeps proposedBlockArrived_keeps : frame.

(** ** The block database, whatever the block *)
Section AnyBlock.
Context {D : Type} `{HealthyStore D}.
Context {B : Type} `{BlockFormat B}.
Context (cfg : db_config).
Implicit Types s : block_db D.

Record block_ok s : Prop := {
  bo_wf : db_wf (bd_db s);
  bo_lru : lru_inv (bd_cache s)
}.

(** What [readLastCommittedBlockID] returns. *)
Definition db_last s : Z :=
  let str := default ""%string (db_lookup (bd_db s) (createLastCommittedKey cfg)) in
  if bool_decide (str = ""%string) then 0 else stream_u64 str.

Lemma readLast_any s :
  block_ok s -> wp (readLastCommittedBlockID cfg) s (fun r s' => r = Ok (db_last s) /\ s' = s).
Proof.
  intros Hs. unfold readLastCommittedBlockID, on_db, readString. rewrite wp_bind, wp_zoom.
  apply readString_spec; [apply Hs|]. wp_simpl. split; [done|]. by destruct s.
Qed.

Lemma getSerialized_any s i :
  block_ok s -> wp (getSerializedBlockFromLevelDB cfg i) s (fun _ s' => block_ok s' /\ bd_db s' = bd_db s).
Proof.
  intros Hs. unfold getSerializedBlockFromLevelDB, on_cache. rewrite wp_bind, wp_zoom.
  apply wp_lru_getIfExists; [apply Hs|].
  assert (block_ok (mkBlockDb (bd_db s) (lru_touch i (bd_cache s)))) as Hs1
    by (constructor; [apply Hs|apply lru_touch_inv, Hs]).
  destruct (lru_lookup (bd_cache s) i); [by wp_simpl|]. wp_simpl.
  split; [intros _|done]. unfold on_db, readString. rewrite wp_zoom.
  apply readString_spec; [apply Hs|]. destruct (bool_decide (default _ _ <> _)); wp_simpl; [|done].
  destruct (serializedSanityCheck _); by wp_simpl.
Qed.

Lemma getBlock_any s i :
  block_ok s -> wp (getBlock (B := B) cfg i) s (fun _ s' => block_ok s' /\ bd_db s' = bd_db s).
Proof.
  intros Hs. unfold getBlock. wp_simpl. eapply wp_mono; [by apply getSerialized_any|]. cbv beta.
  intros [[bytes|]|e] s' Hs'; wp_simpl; [|done|done]. destruct (bf_parse bytes false); by wp_simpl.
Qed.

Lemma unfinished_any s i :
  block_ok s -> wp (unfinishedBlockExists cfg i) s (fun _ s' => s' = s).
Proof.
  intros Hs. unfold unfinishedBlockExists, on_db, readString, keyExists. rewrite wp_bind, wp_zoom.
  apply readString_spec; [apply Hs|].
  assert (mkBlockDb (bd_db s) (bd_cache s) = s) as Heq by (by destruct s). rewrite Heq.
  destruct (bool_decide _); wp_simpl; [|done]. rewrite wp_zoom.
  apply keyExists_spec; [apply Hs|]. by wp_simpl.
Qed.

(** [saveBlock] fails before it writes, or writes the block and its number. *)
Lemma saveBlock_any s (b : B) :
  block_ok s -> 0 <= bf_id b < 2 ^ 64 ->
  wp (saveBlock cfg b) s (fun r s' => block_ok s' /\
    match r with
    | Ok _ => exists bytes, bf_serialize b = Ok bytes /\ db_last s' = bf_id b /\
        db_lookup (bd_db s') (createKey1 cfg (bf_id b)) = Some (bytes_string bytes)
    | Err _ => s' = s
    end).
Proof.
  intros Hs Hid. unfold saveBlock, saveBlock2LevelDB. wp_simpl.
  destruct (getSignature (bf_signature b)); wp_simpl; [|done].
  destruct (bf_serialize b) as [bytes|]; wp_simpl; [|by destruct e].
  unfold on_cache. rewrite wp_zoom. unfold lru_put. wp_simpl.
  rewrite bool_decide_eq_true_2 by apply createKey1_nonempty. split; [intros _|done].
  pose proof (save_writes cfg (bd_db s) (bf_id b) (bytes_string bytes) (bo_wf s Hs) (proj1 Hid)) as Hw.
  rewrite wp_bind in Hw. unfold on_db. rewrite wp_zoom. refine (wp_mono _ _ _ _ Hw _).
  cbv beta. intros [[]|e] t1 Ht1; [|by destruct Ht1 as (? & _)].
  rewrite wp_zoom. refine (wp_mono _ _ _ _ Ht1 _). cbv beta.
  intros r t2 (-> & Hwf & Hkey & Hlast & _). cbn [bd_cache bd_db rnested_all]. split.
  - constructor; [done|]. apply lru_putUnsafe_inv, Hs.
  - exists bytes. split; [done|]. split; [|done]. unfold db_last. cbn [bd_db]. rewrite Hlast.
    cbn [default from_option id]. rewrite bool_decide_eq_false_2 by apply to_string_nonempty.
    unfold stream_u64. by rewrite stoull_to_string.
Qed.
End AnyBlock.

(** ** Committing a block *)
Section Commit.
Context {D : Type} `{HealthyStore D}.
Context (C : chain_config) (K : crypto).
Local Abbreviation state := (schain D).
Local Abbreviation cfg := (cc_blockCfg C).
#[local] Hint Extern 0 (BlockFormat CommittedBlock) => exact (chain_format K) : typeclass_instances.
Implicit Types (s : state) (b : CommittedBlock).

Definition block_store s : block_db D := st_block (sc_stores s).
Definition evm s : list evm_call := co_evm (sc_output s).
Definition last_id s : Z := ci_lastCommittedBlockID (sc_info s).
Definition last_stamp s : TimeStamp := ci_lastCommittedBlockTimeStamp (sc_info s).
Definition block_id b : Z := bp_blockID (cb_block b).

(** The call that hands [b] to the application. *)
Definition call_of b (c : evm_call) : Prop :=
  let p := cb_block b in
  createTransactionVector (tl_transactions (bp_transactionList p)) = Ok (ev_transactions c) /\
  ev_timeStamp c = bp_timeStamp p /\ ev_timeStampMs c = bp_timeStampMs p /\
  ev_blockID c = bp_blockID p /\ ev_stateRoot c = bp_stateRoot p /\
  ev_proposerIndex c = bp_proposerIndex p.

(** The block database holds [b] under its number. *)
Definition stored_as s b : Prop := exists bytes,
  bf_serialize b = Ok bytes /\ db_lookup (bd_db (block_store s)) (createKey1 cfg (block_id b)) = Some (bytes_string bytes).

Lemma boundary_keeps {X} (f : state -> X) :
  (forall s w, f (mkSchain (sc_info s) (sc_status s) (sc_stores s) (sc_output s) w) = f s) ->
  keeps f checkForExitOnBlockBoundaryAndExitIfNeeded.
Proof. apply checkForExit_keeps. Qed.
#[local] Hint Resolve boundary_keeps : frame.

Lemma push_keeps b : keeps (fun s => (sc_info s, block_store s)) (pushBlockToExtFace C K b).
Proof.
  unfold pushBlockToExtFace, on_priceDb, on_stores, createBlock, setStatus, on_status,
    extFace_createBlock, on_output, on_world. keeps_auto.
Qed.

Lemma createBlock_spec call s :
  wp (createBlock call) s (fun _ s' => evm s' = evm s ++ [call]).
Proof.
  unfold createBlock, setStatus, on_status. rewrite wp_bind, wp_zoom. wp_simpl.
  unfold finally, wp, extFace_createBlock, on_output, on_world, mbind, M_bind, zoom. cbn.
  by destruct (wd_creates (sc_world s)) as [|[e|] rs].
Qed.

Lemma push_evm b s :
  wp (pushBlockToExtFace C K b) s (fun r s' =>
    evm s' = evm s /\ (r = Ok tt -> cc_hasExtFace C = false) \/
    cc_hasExtFace C = true /\ exists c, call_of b c /\ evm s' = evm s ++ [c]).
Proof.
  unfold pushBlockToExtFace. rewrite wp_bind. apply (wp_keeps evm); [by auto with frame|].
  intros [[]|e] s1 H1; [|by left]. wp_simpl.
  destruct (createTransactionVector _) as [tv|] eqn:Htv; wp_simpl; [|by left].
  apply (wp_keeps evm); [unfold on_priceDb, on_stores; keeps_auto|].
  intros [p|e] s2 H2; [|left; split; [congruence|done]]. wp_simpl.
  apply (wp_keeps evm); [unfold on_priceDb, on_stores; keeps_auto|].
  intros [price|e] s3 H3; [|left; split; [congruence|done]]. wp_simpl.
  apply (wp_keeps evm); [by auto with frame|].
  intros [[]|e] s4 H4; [|left; split; [congruence|done]]. wp_simpl.
  split; intros Hext; wp_simpl;
    [|apply (wp_keeps evm); [by auto with frame|]; intros r s5 H5; left; split; [congruence|done]].
  eapply wp_mono; [apply createBlock_spec|]. cbv beta. intros [[]|e] s5 H5; wp_simpl.
  - apply (wp_keeps evm); [by auto with frame|]. intros r s6 H6. right. split; [done|].
    eexists. split; [|rewrite H6, H5, H4, H3, H2, H1; reflexivity]. by split_and!.
  - right. split; [done|]. eexists. split; [|rewrite H5, H4, H3, H2, H1; reflexivity]. by split_and!.
Qed.

(** *** The three ways in which [processCommittedBlock] can end *)
Inductive commit_outcome s b : res unit -> state -> Prop :=
  | Untouched e s' :
      sc_info s' = sc_info s -> bd_db (block_store s') = bd_db (block_store s) -> evm s' = evm s ->
      commit_outcome s b (Err e) s'
  | Saved e s' :
      block_id b = last_id s + 1 -> sc_info s' = sc_info s ->
      db_last cfg (block_store s') = block_id b -> stored_as s' b ->
      evm s' = evm s \/ cc_hasExtFace C = true /\ (exists c, call_of b c /\ evm s' = evm s ++ [c]) ->
      commit_outcome s b (Err e) s'
  | Committed r s' :
      block_id b = last_id s + 1 -> block_id b < 2 ^ 64 -> last_id s' = block_id b ->
      last_stamp s' = getTimeStamp (cb_block b) ->
      TimeStamp_lt (last_stamp s) (last_stamp s') = true ->
      db_last cfg (block_store s') = block_id b -> stored_as s' b ->
      (if cc_hasExtFace C then exists c, call_of b c /\ evm s' = evm s ++ [c] else evm s' = evm s) ->
      commit_outcome s b r s'.

Lemma getRandom_keeps i : keeps (fun s => (sc_info s, evm s)) (getRandomForBlockId C K i).
Proof. unfold getRandomForBlockId, sc_getBlock, on_blockDb, on_stores. keeps_auto. Qed.

Lemma getRandom_store s i :
  block_ok (block_store s) ->
  wp (getRandomForBlockId C K i) s (fun _ s' => block_ok (block_store s') /\
    bd_db (block_store s') = bd_db (block_store s)).
Proof.
  intros Hs. unfold getRandomForBlockId, sc_getBlock, on_blockDb, on_stores. wp_simpl.
  rewrite !wp_zoom. eapply wp_mono; [by apply getBlock_any|]. cbv beta. intros r t [? ?].
  destruct r as [[b|]|e]; cbn [rnested]; by wp_simpl.
Qed.

(** The last step before the analyzers. *)
Lemma update_outcome s id stamp size time :
  block_ok (block_store s) -> 0 <= last_id s ->
  wp (updateLastCommittedBlockInfo C K id stamp size time) s (fun r s' =>
    block_ok (block_store s') /\ bd_db (block_store s') = bd_db (block_store s) /\ evm s' = evm s /\
    ((exists e, r = Err e) /\ sc_info s' = sc_info s \/
     last_id s' = id /\ last_stamp s' = stamp /\ TimeStamp_lt (last_stamp s) stamp = true)).
Proof.
  intros Hs Hl. unfold updateLastCommittedBlockInfo. wp_simpl.
  split; [intros _|by eauto 10]. wp_simpl. split; intros Hts; [|by eauto 10]. wp_simpl.
  apply (wp_keeps (fun s => (sc_info s, block_store s, evm s))); [by auto with frame|].
  intros [now|e] s1 [= Hi1 Hb1 He1]; [|rewrite Hi1, Hb1, He1; by eauto 10].
  wp_simpl. split; intros _; [|rewrite Hi1, Hb1, He1; by eauto 10]. wp_simpl.
  unfold on_info at 1. rewrite wp_zoom. wp_simpl.
  set (s2 := mkSchain _ _ _ _ _). change (block_store s1) with (block_store s2) in Hb1.
  pose proof (getRandom_store s2 id) as Hw. rewrite Hb1 in Hw. specialize (Hw Hs).
  assert (wp (getRandomForBlockId C K id) s2 (fun _ s' => (sc_info s', evm s') = (sc_info s2, evm s2)))
    as Hk by apply getRandom_keeps.
  eapply wp_mono; [exact (wp_and _ _ _ _ Hw Hk)|].
  cbv beta. intros r s3 [[Hok Hdb] [= Hi3 He3]].
  assert (last_id s3 = id /\ last_stamp s3 = stamp) as [Hid Hst]
    by (unfold last_id, last_stamp; by rewrite Hi3).
  destruct r as [z|e]; wp_simpl; (split_and!; [done|done|rewrite He3; exact He1|right; done]).
Qed.
(** What the steps before the save leave alone. *)
Local Abbreviation core := (fun s : state => (sc_info s, block_store s, evm s)).

Lemma printBlockLog_keeps b : keeps core (printBlockLog C b).
Proof. unfold printBlockLog, setStatus, on_status, on_pending, on_stores. keeps_auto. Qed.

Lemma analyzeErrors_keeps b : keeps core (analyzeErrors K b).
Proof.
  unfold analyzeErrors, on_status. keeps_auto. induction (replicate _ tt) as [|x l IH]; cbn [mapM_]; keeps_auto.
Qed.

Lemma cleanup_keeps b : keeps core (sc_cleanupUnneededMemoryBeforePushingToEvm b).
Proof. unfold sc_cleanupUnneededMemoryBeforePushingToEvm, on_proposalDb, on_stores. keeps_auto. Qed.

Lemma sc_saveBlock_spec s b :
  block_ok (block_store s) -> 0 <= block_id b < 2 ^ 64 ->
  wp (sc_saveBlock C K b) s (fun r s' => block_ok (block_store s') /\ sc_info s' = sc_info s /\
    evm s' = evm s /\
    match r with
    | Ok _ => db_last cfg (block_store s') = block_id b /\ stored_as s' b
    | Err _ => block_store s' = block_store s
    end).
Proof.
  intros Hs Hid. unfold sc_saveBlock. wp_simpl.
  apply (wp_keeps core); [by auto with frame|]. intros [[]|e] s1 [= Hi1 Hb1 He1]; [|by rewrite Hi1, Hb1, He1].
  unfold on_blockDb, on_stores. rewrite !wp_zoom. fold (block_store s1). rewrite Hb1.
  eapply wp_mono; [by apply (saveBlock_any cfg)|]. cbv beta. intros r t [Hok Hr].
  split; [done|]. split; [done|]. split; [done|]. destruct r; cbn [rnested]; [|done].
  destruct Hr as (bytes & Hb & Hl & Hk). split; [done|]. by exists bytes.
Qed.

(** From the push on: the block is stored already. *)
Lemma process_tail s b start :
  block_ok (block_store s) -> block_id b = last_id s + 1 -> block_id b < 2 ^ 64 -> 0 <= last_id s ->
  db_last cfg (block_store s) = block_id b -> stored_as s b ->
  wp (pushBlockToExtFace C K b ;;
      evmProcessingEndMs ← getCurrentTimeMs;
      updateLastCommittedBlockInfo C K (bp_blockID (cb_block b)) (getTimeStamp (cb_block b))
        (tl_size (bp_transactionList (cb_block b))) (u64 (evmProcessingEndMs - start)) ;;
      analyzeErrors K b) s
    (fun r s' => block_ok (block_store s') /\ commit_outcome s b r s').
Proof.
  intros Hs Hid H64 Hpos Hlast Hsto. rewrite wp_bind.
  assert (forall s', bd_db (block_store s') = bd_db (block_store s) -> stored_as s' b) as Hsto'
    by (intros s' Hd; unfold stored_as; by rewrite Hd).
  assert (wp (pushBlockToExtFace C K b) s (fun _ s' => (sc_info s', block_store s') = (sc_info s, block_store s)))
    as Hk by apply push_keeps.
  eapply wp_mono; [exact (wp_and _ _ _ _ Hk (push_evm b s))|]. cbv beta.
  intros r s1 [[= Hi1 Hb1] He1].
  assert (evm s1 = evm s \/ cc_hasExtFace C = true /\ (exists c, call_of b c /\ evm s1 = evm s ++ [c])) as He1'
    by tauto.
  destruct r as [[]|e]; [|split; [by rewrite Hb1|]; apply Saved; [done|done|by rewrite Hb1|by apply Hsto'; rewrite Hb1|done]].
  wp_simpl. apply (wp_keeps core); [by auto with frame|].
  intros [now|e] s2 [= Hi2 Hb2 He2];
    [|split; [by rewrite Hb2, Hb1|]; apply Saved; [done|by rewrite Hi2, Hi1|by rewrite Hb2, Hb1|by apply Hsto'; rewrite Hb2, Hb1|by rewrite He2]].
  wp_simpl. eapply wp_mono; [apply update_outcome; [by rewrite Hb2, Hb1|unfold last_id; by rewrite Hi2, Hi1]|].
  cbv beta. intros r s3 (Hok3 & Hdb3 & He3 & Hr).
  assert (db_last cfg (block_store s3) = block_id b) as Hl3.
  { unfold db_last. rewrite Hdb3, Hb2, Hb1. exact Hlast. }
  assert (stored_as s3 b) as Hsto3 by (apply Hsto'; by rewrite Hdb3, Hb2, Hb1).
  destruct Hr as [[[e ->] Hi3]|(Hlid & Hst & Hlt)].
  { split; [done|]. apply Saved; [done|by rewrite Hi3, Hi2|done|done|]. by rewrite He3, He2. }
  assert (TimeStamp_lt (last_stamp s) (last_stamp s3) = true) as Hts.
  { rewrite Hst. unfold last_stamp in Hlt |- *. by rewrite Hi2, Hi1 in Hlt. }
  assert (if cc_hasExtFace C then exists c, call_of b c /\ evm s3 = evm s ++ [c] else evm s3 = evm s) as Hevm.
  { rewrite He3, He2. destruct He1 as [[He Hno]|[-> He]]; [|done]. by rewrite (Hno eq_refl). }
  destruct r as [[]|e]; wp_simpl.
  - apply (wp_keeps core); [apply analyzeErrors_keeps|]. intros r s4 [= Hi4 Hb4 He4]. rewrite Hb4.
    split; [done|]. apply Committed; unfold last_id, last_stamp, stored_as in *; rewrite ?Hi4, ?Hb4, ?He4; done.
  - split; [done|]. by apply Committed.
Qed.

Lemma processCommittedBlock_outcome s b :
  block_ok (block_store s) -> 0 <= last_id s < 2 ^ 64 ->
  wp (processCommittedBlock C K b) s (fun r s' =>
    block_ok (block_store s') /\ commit_outcome s b r s').
Proof.
  intros Hs Hl.
  assert (forall e s1, core s1 = core s -> block_ok (block_store s1) /\ commit_outcome s b (Err e) s1) as Hun.
  { intros e s1 [= Hi Hb He]. rewrite Hb. split; [done|]. apply Untouched; congruence. }
  unfold processCommittedBlock. wp_simpl. apply (wp_keeps core); [by auto with frame|].
  intros [[]|e] s1 H1; [|by apply Hun]. wp_simpl. unfold getLastCommittedBlockID. wp_simpl.
  split; intros Hid; [|by apply Hun]. wp_simpl. apply Z.eqb_eq in Hid.
  apply (wp_keeps core); [apply printBlockLog_keeps|]. intros [[]|e] s2 H2; [|apply Hun; congruence]. wp_simpl.
  apply (wp_keeps core); [unfold setStatus, on_status; keeps_auto|].
  intros [[]|e] s3 H3; [|apply Hun; congruence]. wp_simpl.
  split; intros Hnz; [|apply Hun; congruence]. wp_simpl. apply negb_true_iff, Z.eqb_neq in Hnz.
  assert (core s3 = core s) as [= Hi3 Hb3 He3] by congruence.
  assert (ci_lastCommittedBlockID (sc_info s1) = last_id s) as Hl1 by (unfold last_id; congruence).
  rewrite Hl1 in *.
  assert (u64 (last_id s + 1) = last_id s + 1) as Hu.
  { destruct (decide (last_id s + 1 = 2 ^ 64)) as [E|]; [|apply u64_small; lia].
    exfalso. apply Hnz. rewrite E. reflexivity. }
  rewrite Hu in Hid. pose proof (u64_range (last_id s + 1)) as Hrange. rewrite Hu in Hrange.
  eapply wp_mono; [apply sc_saveBlock_spec; [by rewrite Hb3|unfold block_id; lia]|]. cbv beta.
  intros [[]|e] s4 (Hok4 & Hi4 & He4 & Hr4); [|apply Hun; congruence]. wp_simpl.
  apply (wp_keeps core); [apply cleanup_keeps|].
  destruct Hr4 as [Hr4 Hsto4].
  assert (forall e s', core s' = core s4 -> block_ok (block_store s') /\ commit_outcome s b (Err e) s') as Hsv.
  { intros e s' [= Hi Hb He]. rewrite Hb. split; [done|]. apply Saved; unfold stored_as; rewrite ?Hb, ?Hi, ?He; try congruence.
    - unfold block_id. lia.
    - exact Hsto4.
    - left. congruence. }
  intros [[]|e] s5 H5; [|by apply Hsv]. wp_simpl.
  apply (wp_keeps core); [by auto with frame|]. intros [now|e] s6 H6; [|apply Hsv; congruence].
  assert (core s6 = core s4) as [= Hi6 Hb6 He6] by congruence.
  pose proof (process_tail s6 b now) as Ht. rewrite Hb6 in Ht. unfold last_id in Ht at 1 2. rewrite Hi6, Hi4, Hi3 in Ht.
  fold (last_id s) in Ht. specialize (Ht Hok4 ltac:(unfold block_id; lia) ltac:(unfold block_id; lia) ltac:(lia) Hr4).
  assert (stored_as s6 b) as Hsto6 by (unfold stored_as; by rewrite Hb6). specialize (Ht Hsto6).
  eapply wp_mono; [exact Ht|]. cbv beta. intros r s' [Hok Ho]. split; [done|].
  assert (sc_info s6 = sc_info s) as Hi by congruence.
  assert (evm s6 = evm s) as He by congruence.
  destruct Ho as [e s' Hx Hy Hz|e s' ? Hx Hy Hsx Hz|r s' Ha H64 Hb Hc Hd Hf Hsx Hg]; cbn [rnested].
  - apply Saved; [unfold block_id; lia|congruence| | |left; congruence].
    + unfold db_last in *. rewrite Hy, Hb6. exact Hr4.
    + unfold stored_as. by rewrite Hy.
  - apply Saved; [unfold block_id; lia|congruence|done|done|]. by rewrite <- He.
  - unfold last_id, last_stamp in *. rewrite Hi in *. rewrite He in Hg.
    apply Committed; done.
Qed.

(** *** The invariant of the chain *)

(** The blocks that the application was given follow each other; a block is
    given again only if it was not committed. *)
Definition linked (l : list evm_call) : Prop :=
  forall i c c', l !! i = Some c -> l !! S i = Some c' ->
    ev_blockID c' = ev_blockID c \/ ev_blockID c' = ev_blockID c + 1.

(** [stored] is the number of the last block in the database: a block is stored
    before it is given to the application, and at most one block ahead of the
    last committed one. *)
Record chain_inv s : Prop := {
  cv_store : block_ok (block_store s);
  cv_range : 0 <= last_id s < 2 ^ 64;
  cv_stored : db_last cfg (block_store s) = last_id s \/ db_last cfg (block_store s) = last_id s + 1;
  cv_linked : linked (evm s);
  cv_last : forall c, last (evm s) = Some c ->
    ev_blockID c = last_id s \/
    ev_blockID c = last_id s + 1 /\ db_last cfg (block_store s) = last_id s + 1;
  cv_noface : cc_hasExtFace C = false -> evm s = []
}.

(** The last committed block is [b]: the database holds it and the application was
    given its contents. *)
Definition committed_as b s : Prop :=
  block_id b = last_id s /\ last_stamp s = getTimeStamp (cb_block b) /\ stored_as s b /\
  (cc_hasExtFace C = true -> exists c, last (evm s) = Some c /\ call_of b c).

(** How an operation may move the chain with blocks that satisfy [P]: not back, and
    only by appending.  What the application is given are the contents of such
    blocks; and unless a further block has been stored already, the last committed
    block is stored as it was given. *)
Record advances (P : CommittedBlock -> Prop) s s' : Prop := {
  ad_id : last_id s <= last_id s';
  ad_db : db_last cfg (block_store s) <= db_last cfg (block_store s');
  ad_same : last_id s' = last_id s -> last_stamp s' = last_stamp s;
  ad_stamp : last_id s < last_id s' -> TimeStamp_lt (last_stamp s) (last_stamp s') = true;
  ad_still : last_id s' = last_id s -> db_last cfg (block_store s') = last_id s' ->
    bd_db (block_store s') = bd_db (block_store s) /\ evm s' = evm s;
  ad_calls : exists calls, evm s' = evm s ++ calls /\
    Forall (fun c => last_id s < ev_blockID c /\ exists b, P b /\ call_of b c) calls;
  ad_content : last_id s < last_id s' -> db_last cfg (block_store s') = last_id s' ->
    exists b, P b /\ committed_as b s'
}.

Lemma linked_snoc l c :
  linked l -> (forall d, last l = Some d -> ev_blockID c = ev_blockID d \/ ev_blockID c = ev_blockID d + 1) ->
  linked (l ++ [c]).
Proof.
  intros Hl Hc i a b Ha Hb. apply lookup_app_Some in Hb as [Hb|[Hge Hb]].
  - pose proof (lookup_lt_Some _ _ _ Hb). rewrite lookup_app_l in Ha by lia. by eapply Hl.
  - apply list_lookup_singleton_Some in Hb as [Hi <-]. rewrite lookup_app_l in Ha by lia.
    apply Hc. rewrite last_lookup. by replace (pred (length l)) with i by lia.
Qed.

Lemma TimeStamp_lt_trans (t u v : TimeStamp) :
  TimeStamp_lt t u = true -> TimeStamp_lt u v = true -> TimeStamp_lt t v = true.
Proof.
  unfold TimeStamp_lt.
  destruct (Z.ltb_spec (ts_s t) (ts_s u)), (Z.ltb_spec (ts_s u) (ts_s v)),
    (Z.ltb_spec (ts_s t) (ts_s v)); try done;
    destruct (Z.ltb_spec (ts_s u) (ts_s t)), (Z.ltb_spec (ts_s v) (ts_s u)),
      (Z.ltb_spec (ts_s v) (ts_s t)); try done; try lia;
    intros ?%Z.ltb_lt ?%Z.ltb_lt; apply Z.ltb_lt; lia.
Qed.

Lemma db_last_same (t t' : block_db D) : bd_db t' = bd_db t -> db_last cfg t' = db_last cfg t.
Proof. intros Hd. unfold db_last. by rewrite Hd. Qed.

Lemma advances_refl P s s' :
  sc_info s' = sc_info s -> bd_db (block_store s') = bd_db (block_store s) -> evm s' = evm s -> advances P s s'.
Proof.
  intros Hi Hd He. pose proof (db_last_same _ _ Hd). constructor; unfold last_id, last_stamp; rewrite ?Hi; try done; try lia.
  exists []. by rewrite app_nil_r.
Qed.

Lemma committed_as_same b s s' :
  last_id s' = last_id s -> last_stamp s' = last_stamp s -> bd_db (block_store s') = bd_db (block_store s) ->
  evm s' = evm s -> committed_as b s -> committed_as b s'.
Proof. unfold committed_as, stored_as. by intros -> -> -> ->. Qed.

Lemma advances_trans P s1 s2 s3 : chain_inv s2 -> advances P s1 s2 -> advances P s2 s3 -> advances P s1 s3.
Proof.
  intros Hinv [L1 D1 E1 T1 Q1 (c1 & Hc1 & F1) B1] [L2 D2 E2 T2 Q2 (c2 & Hc2 & F2) B2].
  assert (last_id s3 = last_id s2 -> db_last cfg (block_store s3) = last_id s3 -> db_last cfg (block_store s2) = last_id s2) as Hdb.
  { intros He Hd. destruct (cv_stored s2 Hinv); [done|lia]. }
  constructor; [lia|lia| | | | |].
  - intros Hl. rewrite E2, E1 by lia. done.
  - intros Hl. destruct (decide (last_id s2 = last_id s1)) as [E|], (decide (last_id s3 = last_id s2)) as [E'|].
    + lia.
    + rewrite <- (E1 E). apply T2. lia.
    + rewrite (E2 E'). apply T1. lia.
    + eapply TimeStamp_lt_trans; [apply T1|apply T2]; lia.
  - intros Hl Hd. assert (last_id s3 = last_id s2) as E' by lia. destruct (Q2 E' Hd) as [-> ->]. apply Q1; [lia|]. by apply Hdb.
  - exists (c1 ++ c2). rewrite Hc2, Hc1, app_assoc. split; [done|]. apply Forall_app. split; [done|].
    eapply Forall_impl; [exact F2|]. cbv beta. intros c [Hc Hb]. split; [lia|done].
  - intros Hl Hd. destruct (decide (last_id s3 = last_id s2)) as [E'|]; [|apply B2; [lia|done]].
    destruct (Q2 E' Hd) as [Hd2 He2]. destruct (B1 ltac:(lia) (Hdb E' Hd)) as (b & Hb & Hcb). exists b. split; [done|].
    eapply committed_as_same; [exact E'|by apply E2|done|done|done].
Qed.

Lemma advances_weaken (P P' : CommittedBlock -> Prop) s s' :
  (forall b, P b -> P' b) -> advances P s s' -> advances P' s s'.
Proof.
  intros HP [L1 D1 E1 T1 Q1 (c1 & Hc1 & F1) B1]. constructor; try done.
  - exists c1. split; [done|]. eapply Forall_impl; [exact F1|]. cbv beta. intros c (Hc & b & Hb & Hcb). eauto.
  - intros Hl Hd. destruct (B1 Hl Hd) as (b & Hb & Hcb). eauto.
Qed.

Lemma call_id b c : call_of b c -> ev_blockID c = block_id b.
Proof. by intros (_ & _ & _ & ? & _). Qed.

(** The invariant when the block [last_id s + 1] was given to the application. *)
Lemma evm_call_linked s b c :
  chain_inv s -> block_id b = last_id s + 1 -> call_of b c -> linked (evm s ++ [c]).
Proof.
  intros Hs Hid Hc%call_id. apply linked_snoc; [apply Hs|]. intros d Hd.
  destruct (cv_last s Hs d Hd) as [|[? _]]; lia.
Qed.

Lemma commit_outcome_inv (P : CommittedBlock -> Prop) s b r s' :
  chain_inv s -> block_ok (block_store s') -> P b ->
  commit_outcome s b r s' -> chain_inv s' /\ advances P s s'.
Proof.
  intros Hs Hok HP Ho.
  destruct Ho as [e s' Hi Hd He|e s' Hid Hi Hd Hsto He|r s' Hid H64 Hl Ht Hlt Hd Hsto He].
  - split; [|by apply advances_refl].
    destruct Hs as [? Hr Hst Hlk Hla Hno]. pose proof (db_last_same _ _ Hd) as Hdl.
    constructor; unfold last_id in *; rewrite ?He, ?Hdl, ?Hi; done.
  - assert (last_id s' = last_id s) as Hls by (unfold last_id; by rewrite Hi). split.
    + constructor; rewrite ?Hls, ?Hd, ?Hid; [done|apply Hs|by right| | |].
      * destruct He as [->|(_ & c & Hc & ->)]; [apply Hs|by eapply evm_call_linked].
      * destruct He as [->|(_ & c & Hc%call_id & ->)]; intros d Hd'.
        -- destruct (cv_last s Hs d Hd') as [?|[? _]]; [by left|by right].
        -- rewrite last_snoc in Hd'. injection Hd' as <-. right. lia.
      * intros Hno. destruct He as [->|[? _]]; [by apply (cv_noface s Hs)|congruence].
    + constructor; rewrite ?Hls; [lia|destruct (cv_stored s Hs); lia|intros _; unfold last_stamp; by rewrite Hi|lia|lia| |lia].
      destruct He as [->|(_ & c & Hc & ->)]; [exists []; by rewrite app_nil_r|].
      exists [c]. split; [done|]. apply Forall_singleton. pose proof (call_id _ _ Hc). split; [lia|by exists b].
  - pose proof (cv_range s Hs). split.
    + constructor; rewrite ?Hl; [done|lia|by left| | |].
      * destruct (cc_hasExtFace C); [|by rewrite He; apply Hs].
        destruct He as (c & Hc & ->). by eapply evm_call_linked.
      * intros d Hd'. destruct (cc_hasExtFace C) eqn:Hf.
        -- destruct He as (c & Hc%call_id & He). rewrite He, last_snoc in Hd'. injection Hd' as <-. left. lia.
        -- rewrite He, (cv_noface s Hs Hf) in Hd'. done.
      * intros Hf. rewrite Hf in He. rewrite He. by apply (cv_noface s Hs).
    + constructor; [lia|destruct (cv_stored s Hs); lia|lia|done|lia| |].
      * destruct (cc_hasExtFace C); [|exists []; by rewrite app_nil_r].
        destruct He as (c & Hc & ->). exists [c]. split; [done|]. apply Forall_singleton. pose proof (call_id _ _ Hc).
        split; [lia|by exists b].
      * intros _ _. exists b. split; [done|]. split_and!; [done|done|done|]. intros Hf. rewrite Hf in He.
        destruct He as (c & Hc & ->). exists c. by rewrite last_snoc.
Qed.

(** *** Operations that keep the invariant *)
Definition safe (P : CommittedBlock -> Prop) {A} (c : M state A) : Prop :=
  forall s, chain_inv s -> wp c s (fun _ s' => chain_inv s' /\ advances P s s').

Lemma safe_keeps P {A} (c : M state A) : keeps committed c -> safe P c.
Proof.
  intros Hk s Hs. apply (wp_keeps committed); [done|]. intros r s' [= Hi Hb Hp He].
  split; [|apply advances_refl; unfold block_store; by rewrite ?Hb]. destruct Hs.
  constructor; unfold last_id, block_store, evm in *; rewrite ?Hi, ?Hb, ?He; done.
Qed.

Lemma safe_bind P {A A'} (c : M state A) (k : A -> M state A') :
  safe P c -> (forall a, safe P (k a)) -> safe P (c ≫= k).
Proof.
  intros Hc Hk s Hs. rewrite wp_bind. eapply wp_mono; [by apply Hc|]. cbv beta.
  intros [a|e] s1 [Hs1 Ha1]; [|done]. eapply wp_mono; [by apply Hk|]. cbv beta.
  intros r s2 [Hs2 Ha2]. eauto using advances_trans.
Qed.

Lemma safe_lift P {A A'} (r : res A) (k : A -> M state A') : (forall a, r = Ok a -> safe P (k a)) -> safe P (lift_res r ≫= k).
Proof.
  intros Hk. destruct r as [a|e]; [by apply (Hk a)|]. apply safe_keeps. intros s. reflexivity.
Qed.

Lemma safe_nested P {A} e (c : M state A) : safe P c -> safe P (nested e c).
Proof. intros Hc s Hs. rewrite wp_nested. by apply Hc. Qed.

Lemma safe_if P {A} (x : bool) (c d : M state A) : safe P c -> safe P d -> safe P (if x then c else d).
Proof. by destruct x. Qed.

Lemma safe_option P {A X} (o : option X) (c : X -> M state A) d :
  (forall x, safe P (c x)) -> safe P d -> safe P (match o with Some x => c x | None => d end).
Proof. destruct o; auto. Qed.

Lemma safe_process (P : CommittedBlock -> Prop) b : P b -> safe P (processCommittedBlock C K b).
Proof.
  intros HP s Hs. eapply wp_mono; [apply processCommittedBlock_outcome; apply Hs|]. cbv beta.
  intros r s' [Hok Ho]. by eapply commit_outcome_inv.
Qed.

Lemma safe_propose P c : safe P (proposeNextBlock C K c).
Proof. apply safe_keeps, proposeNextBlock_keeps. Qed.

Ltac safe_step :=
  first
    [ apply safe_process; solve [eauto] | apply safe_propose
    | apply safe_keeps; solve [auto 3 with frame]
    | apply safe_nested | apply safe_option; [intros ?|] | apply safe_lift; intros ? ? | apply safe_bind; [|intros ?] | apply safe_if
    | apply safe_keeps; solve [keeps_auto] ].

(** The block that is made of a proposal. *)
Definition decided_with (t : string) b : Prop := cb_thresholdSig b = t.

Lemma makeFromProposal_sig p t d b :
  makeFromProposal (cr_blake3 K) (cr_export_bits K) p t d = Ok b -> decided_with t b.
Proof.
  unfold makeFromProposal, makeCommittedBlock, decided_with. intros Hb. repeat rinv Hb. by injection Hb as <-.
Qed.
#[local] Hint Resolve makeFromProposal_sig : core.

Lemma safe_blockCommitArrived i x t d : safe (decided_with t) (blockCommitArrived C K i x t d).
Proof.
  unfold blockCommitArrived, getLastCommittedBlockID, getLastCommittedBlockTimeStamp, sc_getBlockProposal,
    createDefaultEmptyBlockProposal, getLastCommittedBlockTimeStamp, on_proposalDb, on_stores.
  repeat safe_step.
Qed.

Lemma safe_commitListed (P : CommittedBlock -> Prop) blocks : Forall P blocks -> safe P (commitListed C K blocks).
Proof.
  induction 1 as [|b blocks Hb _ IH]; cbn [commitListed]; [apply safe_keeps, keeps_ret|].
  unfold getLastCommittedBlockID, getLastCommittedBlockTimeStamp.
  repeat first [exact IH|safe_step].
Qed.

Lemma safe_catchup locked blocks : safe (fun b => b ∈ blocks) (blockCommitsArrivedThroughCatchup C K locked blocks).
Proof.
  unfold blockCommitsArrivedThroughCatchup.
  assert (safe (fun b => b ∈ blocks) (commitListed C K blocks)) as Hc by (apply safe_commitListed; by apply Forall_forall).
  destruct blocks as [|b blocks]; [apply safe_keeps, keeps_ret|].
  unfold getLastCommittedBlockID. repeat first [exact Hc|safe_step].
Qed.

Lemma safe_finalize i x t : safe (decided_with t) (finalizeDecidedAndSignedBlock C K i x t).
Proof.
  unfold finalizeDecidedAndSignedBlock, getLastCommittedBlockID, sc_getBlockProposal, on_proposalDb,
    on_daProofDb, on_stores, next_download, on_world.
  repeat first [apply safe_blockCommitArrived|safe_step].
  destruct x0. repeat safe_step.
Qed.

(** The operations that other threads call on a chain that has started. *)
Inductive chain_op :=
  | OpFinalize (blockId proposerIndex : Z) (thresholdSig : string)
  | OpCatchup (locked : bool) (blocks : list CommittedBlock)
  | OpProposal (p : BlockProposal)
  | OpDaProof (p : DAProof)
  | OpDaSigShare (x : DaSigShare) (p : BlockProposal)
  | OpTimeout (blockID : Z)
  | OpBlockError.

Definition run_op (o : chain_op) : M state unit :=
  match o with
  | OpFinalize i x t => finalizeDecidedAndSignedBlock C K i x t
  | OpCatchup locked blocks => blockCommitsArrivedThroughCatchup C K locked blocks ;; mret tt
  | OpProposal p => proposedBlockArrived C K p
  | OpDaProof p => daProofArrived C p
  | OpDaSigShare x p => daProofSigShareArrived C K x p
  | OpTimeout i => blockProposalReceiptTimeoutArrived C i
  | OpBlockError => addBlockErrorAnalyzer
  end.

(** Where a block that an operation commits comes from: a catchup list, or the
    proposal that was decided with this threshold signature. *)
Definition source_of (o : chain_op) b : Prop :=
  match o with
  | OpFinalize i x t => decided_with t b
  | OpCatchup locked blocks => b ∈ blocks
  | _ => False
  end.

Definition from_ops (ops : list chain_op) b : Prop := exists o, o ∈ ops /\ source_of o b.

Lemma safe_run_op o : safe (source_of o) (run_op o).
Proof.
  destruct o; cbn [run_op source_of].
  - apply safe_finalize.
  - apply safe_bind; [apply safe_catchup|intros; apply safe_keeps, keeps_ret].
  - apply safe_keeps, proposedBlockArrived_keeps.
  - apply safe_keeps, daProofArrived_keeps.
  - apply safe_keeps, daProofSigShareArrived_keeps.
  - apply safe_keeps, blockProposalReceiptTimeoutArrived_keeps.
  - apply safe_keeps. unfold addBlockErrorAnalyzer, on_status. keeps_auto.
Qed.

(** A run: the operations one after the other, each with whatever outcome; the
    world may change in between. *)
Inductive run s : list chain_op -> state -> Prop :=
  | run_nil : run s [] s
  | run_snoc ops o s1 w :
      run s ops s1 ->
      run s (ops ++ [o]) (run_op o (mkSchain (sc_info s1) (sc_status s1) (sc_stores s1) (sc_output s1) w)).2.


(** *** Catchup *)

(** The application got exactly these blocks. *)
Definition given (bs : list CommittedBlock) s s' : Prop :=
  if cc_hasExtFace C then exists calls, evm s' = evm s ++ calls /\ Forall2 call_of bs calls
  else evm s' = evm s.

(** The blocks [bs] of the list were committed, one after the other. *)
Definition committed_blocks (blocks bs : list CommittedBlock) s s' : Prop :=
  bs `sublist_of` blocks /\ map block_id bs = seqZ (last_id s + 1) (zlen bs) /\
  last_id s' = last_id s + zlen bs /\ given bs s s'.

Definition consecutive (blocks : list CommittedBlock) (from : Z) : Prop :=
  map block_id blocks = seqZ from (zlen blocks).

Lemma zlen_cons {A} (x : A) l : zlen (x :: l) = zlen l + 1.
Proof. unfold zlen. cbn [length]. lia. Qed.

Lemma seqZ_zlen_cons {A} m (x : A) l : seqZ m (zlen (x :: l)) = m :: seqZ (m + 1) (zlen l).
Proof. rewrite zlen_cons. pose proof (zlen_nonneg l). rewrite seqZ_cons by lia. f_equal. f_equal; lia. Qed.

Lemma committed_blocks_skip b blocks bs s s1 s' :
  sc_info s1 = sc_info s -> evm s1 = evm s ->
  committed_blocks blocks bs s1 s' -> committed_blocks (b :: blocks) bs s s'.
Proof.
  intros Hi He (Hsub & Hids & Hl & Hg). unfold committed_blocks, given, last_id in *. rewrite Hi, He in *.
  split_and!; [by apply sublist_cons|done|done|done].
Qed.

Lemma committed_blocks_cons b blocks bs s s1 s' r :
  commit_outcome s b (Ok r) s1 ->
  committed_blocks blocks bs s1 s' -> committed_blocks (b :: blocks) (b :: bs) s s'.
Proof.
  intros Ho (Hsub & Hids & Hl & Hg). inversion Ho as [| |? ? Hid _ Hl1 _ _ _ _ He]; subst.
  rewrite Hl1, Hid in *. unfold committed_blocks. split_and!.
  - by apply sublist_skip.
  - cbn [map]. by rewrite Hid, Hids, seqZ_zlen_cons.
  - rewrite Hl, zlen_cons. lia.
  - unfold given in *. destruct (cc_hasExtFace C); [|congruence].
    destruct He as (c & Hc & He), Hg as (calls & Hg & Hf). exists (c :: calls).
    rewrite Hg, He, <- app_assoc. split; [done|by constructor].
Qed.

Lemma commitListed_spec blocks s :
  chain_inv s -> Forall (fun b => 0 <= block_id b < 2 ^ 64) blocks ->
  wp (commitListed C K blocks) s (fun r s' => r = Ok tt ->
    chain_inv s' /\ (exists bs, committed_blocks blocks bs s s') /\
    forall from, consecutive blocks from -> from <= last_id s + 1 ->
      last_id s' = Z.max (last_id s) (from + zlen blocks - 1)).
Proof.
  intros Hs Hw. revert s Hs. induction Hw as [|b blocks Hb Hw IH]; intros s Hs; cbn [commitListed].
  { wp_simpl. intros _. split; [done|]. split; [exists []|].
    - split_and!; [done|done|unfold zlen; cbn; lia|]. unfold given. destruct (cc_hasExtFace C); [|done].
      exists []. by rewrite app_nil_r.
    - intros from _ Hle. change (zlen (@nil CommittedBlock)) with 0. lia. }
  wp_simpl. apply (wp_keeps committed); [by auto with frame|].
  intros [[]|e] s1 [= Hi1 Hb1 Hp1 He1]; [|done].
  fold (evm s1) (evm s) in He1. fold (block_store s1) (block_store s) in Hb1.
  assert (chain_inv s1) as Hs1.
  { destruct Hs. constructor; unfold last_id in *; rewrite ?Hi1, ?Hb1, ?He1; done. }
  unfold getLastCommittedBlockID, getLastCommittedBlockTimeStamp. wp_simpl. fold (last_id s1).
  pose proof (cv_range s Hs) as Hr. assert (last_id s1 = last_id s) as Hl1 by (unfold last_id; by rewrite Hi1).
  assert (forall from, consecutive (b :: blocks) from -> block_id b = from /\ consecutive blocks (from + 1)) as Hcons.
  { intros from Hc. unfold consecutive in *. rewrite seqZ_zlen_cons in Hc. by injection Hc. }
  destruct (Z.eqb_spec (bp_blockID (cb_block b)) (u64 (last_id s1 + 1))) as [Heq|Hne].
  - wp_simpl. split; [intros _|done]. wp_simpl.
    eapply wp_mono; [apply processCommittedBlock_outcome; apply Hs1|]. cbv beta.
    intros [[]|e] s2 [Hok Ho]; [|done]. wp_simpl.
    pose proof (commit_outcome_inv (eq b) s1 b _ s2 Hs1 Hok eq_refl Ho) as [Hs2 _].
    eapply wp_mono; [by apply IH|]. cbv beta. intros r s' Hq ->. destruct (Hq eq_refl) as (Hs' & (bs & Hbs) & Hmax).
    assert (block_id b = last_id s1 + 1 /\ last_id s2 = block_id b) as [Hid Hl2] by (by inversion Ho).
    split; [done|]. split.
    + exists (b :: bs).
      pose proof (committed_blocks_cons _ _ _ _ _ _ _ Ho Hbs) as (Hsub & Hids & Hl & Hg).
      unfold committed_blocks, given in *. rewrite Hl1, He1 in *. done.
    + intros from [Hf Hc]%Hcons Hle. rewrite (Hmax _ Hc) by lia. rewrite zlen_cons. pose proof (zlen_nonneg blocks). lia.
  - wp_simpl. eapply wp_mono; [by apply IH|]. cbv beta. intros r s' Hq ->.
    destruct (Hq eq_refl) as (Hs' & (bs & Hbs) & Hmax). split; [done|]. split.
    + exists bs. by eapply committed_blocks_skip.
    + intros from [Hf Hc]%Hcons Hle. rewrite (Hmax _ Hc), zlen_cons, Hl1; [pose proof (zlen_nonneg blocks)|]; [lia|].
      rewrite Hl1 in *. fold (block_id b) in Hne. destruct (decide (last_id s + 1 = 2 ^ 64)); [lia|].
      rewrite u64_small in Hne by lia. lia.
Qed.

(** When a catchup list was processed without an exception, the result is
    the number of committed blocks: blocks of the list with the numbers that
    follow the last block, in order; the application got exactly these blocks;
    and of a list of consecutive blocks that reaches back to the last block no
    new block is left out. *)
Theorem catchup_commits_blocks blocks s :
  chain_inv s -> Forall (fun b => 0 <= block_id b < 2 ^ 64) blocks -> blocks <> [] ->
  wp (blockCommitsArrivedThroughCatchup C K true blocks) s (fun r s' => forall n, r = Ok n ->
    chain_inv s' /\
    (exists bs, committed_blocks blocks bs s s' /\ zlen bs = n) /\
    forall from, consecutive blocks from -> last_id s' = Z.max (last_id s) (from + zlen blocks - 1)).
Proof.
  intros Hs Hw Hne. unfold blockCommitsArrivedThroughCatchup. destruct blocks as [|b blocks]; [done|].
  cbn [negb]. unfold getLastCommittedBlockID. wp_simpl. fold (last_id s).
  split; intros Hfirst; [|done]. wp_simpl. apply Z.leb_le in Hfirst. fold (block_id b) in Hfirst.
  pose proof (cv_range s Hs) as Hr.
  assert (block_id b <= last_id s + 1) as Hb.
  { pose proof (Z.mod_le (last_id s + 1) (2 ^ 64) ltac:(lia) ltac:(lia)). unfold u64, wrap in Hfirst. lia. }
  eapply wp_mono; [by apply commitListed_spec|]. cbv beta. intros [[]|e] s1 Hq; [|done].
  destruct (Hq eq_refl) as (Hs1 & (bs & Hbs) & Hmax). wp_simpl. fold (last_id s1).
  assert (forall from, consecutive (b :: blocks) from -> last_id s1 = Z.max (last_id s) (from + zlen (b :: blocks) - 1)) as Hall.
  { intros from Hc. apply (Hmax from Hc). unfold consecutive in Hc. rewrite seqZ_zlen_cons in Hc. injection Hc as <-. done. }
  assert (last_id s1 = last_id s + zlen bs) as Hl by apply Hbs.
  pose proof (zlen_nonneg bs). pose proof (cv_range s1 Hs1).
  destruct (Z.ltb_spec (last_id s) (last_id s1)) as [Hlt|Hge].
  - wp_simpl. assert (forall s2, committed s2 = committed s1 -> chain_inv s2 /\
      (exists bs0, committed_blocks (b :: blocks) bs0 s s2 /\ zlen bs0 = u64 (last_id s1 - last_id s)) /\
      forall from, consecutive (b :: blocks) from -> last_id s2 = Z.max (last_id s) (from + zlen (b :: blocks) - 1)) as Hfin.
    { intros s2 [= Hi Hst Hp He]. assert (last_id s2 = last_id s1) as Hl2 by (unfold last_id; by rewrite Hi).
      fold (evm s2) (evm s1) in He. fold (block_store s2) (block_store s1) in Hst. split_and!.
      - destruct Hs1. constructor; rewrite ?Hl2, ?Hst, ?He; done.
      - exists bs. rewrite u64_small by lia. split; [|lia]. unfold committed_blocks, given in *. by rewrite Hl2, He.
      - rewrite Hl2. exact Hall. }
    split; intros _.
    + apply (wp_keeps committed); [apply proposeNextBlock_keeps|]. intros [[]|e] s2 Hk2; wp_simpl; [|done].
      intros n [= <-]. by apply Hfin.
    + wp_simpl. intros n [= <-]. by apply Hfin.
  - wp_simpl. intros n [= <-]. split; [done|]. split; [|exact Hall]. exists bs. split; [done|lia].
Qed.

(** *** Starting after a crash *)

(** The block under a number has this number. *)
Definition indexed (t : block_db D) : Prop :=
  forall i bytes b, 0 <= i -> stored cfg t i = Some bytes -> bf_parse bytes false = Ok b -> block_id b = i.

Record store_ok (t : block_db D) : Prop := {
  so_inv : bd_inv cfg t;
  so_indexed : indexed t
}.

(** What the database holds under a number parses as [b]. *)
Definition holds (t : block_db D) i b : Prop := exists bytes, stored cfg t i = Some bytes /\ bf_parse bytes false = Ok b.

(** A reading changes at most the order of the cache. *)
Definition reads_only (t t' : block_db D) : Prop := bd_db t' = bd_db t /\ forall j, stored cfg t' j = stored cfg t j.

Lemma holds_read t t' i b : reads_only t t' -> holds t' i b -> holds t i b.
Proof. intros [_ Hst] (bytes & Hb & Hp). rewrite Hst in Hb. by exists bytes. Qed.

Lemma reads_only_trans t1 t2 t3 : reads_only t1 t2 -> reads_only t2 t3 -> reads_only t1 t3.
Proof. intros [H1 H2] [H3 H4]. split; [congruence|]. intros j. by rewrite H4. Qed.

Lemma getBlock_stored (t : block_db D) i :
  store_ok t -> 0 <= i ->
  wp (getBlock (B := CommittedBlock) cfg i) t (fun r t' => store_ok t' /\ reads_only t t' /\
    forall b, r = Ok (Some b) -> block_id b = i /\ holds t i b).
Proof.
  intros [Ht Hx] Hi. unfold getBlock. wp_simpl. apply getSerialized_spec; [done|done|].
  intros t' Ht' Hdb Hst.
  assert (store_ok t') as Hok.
  { constructor; [done|]. intros j bytes b Hj. rewrite Hst. by apply Hx. }
  destruct (stored cfg t i) as [bytes|] eqn:Hb; wp_simpl; [|by split_and!].
  destruct (bf_parse bytes false) as [b|e] eqn:Hp; wp_simpl; [|split_and!; [done|done|by destruct e]].
  split; [done|]. split; [done|]. intros b' [= <-]. split; [by eapply Hx|by exists bytes].
Qed.

Lemma chain_getBlock s i :
  store_ok (block_store s) -> 0 <= i ->
  wp (on_blockDb (getBlock (B := CommittedBlock) cfg i)) s (fun r s' =>
    store_ok (block_store s') /\ reads_only (block_store s) (block_store s') /\
    sc_info s' = sc_info s /\ sc_status s' = sc_status s /\ evm s' = evm s /\
    forall b, r = Ok (Some b) -> block_id b = i /\ holds (block_store s) i b).
Proof.
  intros Hs Hi. unfold on_blockDb, on_stores. rewrite !wp_zoom.
  eapply wp_mono; [by apply getBlock_stored|]. cbv beta. intros r t (Ht & Hdb & Hb). done.
Qed.

(** The application is given what the database holds. *)
Definition given_stored (t : block_db D) (c : evm_call) : Prop := exists b, holds t (ev_blockID c) b /\ call_of b c.

(** What the loop has done when [id] is the next block to push; [from] is where
    the application stopped. *)
Record pushing (L from id : Z) s s' : Prop := {
  ps_store : store_ok (block_store s');
  ps_db : reads_only (block_store s) (block_store s');
  ps_status : cs_isStateInitialized (sc_status s') = cs_isStateInitialized (sc_status s);
  ps_evm : exists calls, evm s' = evm s ++ calls /\ linked calls /\
    Forall (fun c => from < ev_blockID c <= id + 1 /\ ev_blockID c <= L /\ given_stored (block_store s) c) calls /\
    (forall c, last calls = Some c -> id <= ev_blockID c) /\
    (from < id -> cc_hasExtFace C = true -> calls <> []) /\
    (forall i, cc_hasExtFace C = true -> from < i <= id -> exists c, c ∈ calls /\ ev_blockID c = i) /\
    (cc_hasExtFace C = false -> calls = [])
}.

Lemma push_status b : keeps (fun s => cs_isStateInitialized (sc_status s)) (pushBlockToExtFace C K b).
Proof.
  unfold pushBlockToExtFace, on_priceDb, on_stores, createBlock, setStatus, on_status,
    extFace_createBlock, on_output, on_world. keeps_auto.
  all: intros x; reflexivity.
Qed.

Lemma pushing_same L from id s s1 s' :
  pushing L from id s s1 -> store_ok (block_store s') -> reads_only (block_store s1) (block_store s') ->
  cs_isStateInitialized (sc_status s') = cs_isStateInitialized (sc_status s1) -> evm s' = evm s1 ->
  pushing L from id s s'.
Proof.
  intros [Ho Hd Hst He] ? Hd' Hs' He'. constructor; [done|by eapply reads_only_trans|congruence|by rewrite He'].
Qed.

Lemma last_snoc_linked (calls : list evm_call) c id :
  linked calls -> (forall d, last calls = Some d -> id <= ev_blockID d) ->
  Forall (fun d => ev_blockID d <= id + 1) calls -> ev_blockID c = id + 1 -> linked (calls ++ [c]).
Proof.
  intros Hl Hlast Hle Hc. apply linked_snoc; [done|]. intros d Hd. specialize (Hlast d Hd).
  assert (ev_blockID d <= id + 1); [|lia].
  rewrite Forall_forall in Hle. apply Hle. apply last_Some in Hd as [l' ->]. apply elem_of_app. right. by left.
Qed.

(** The next block was given to the application, and perhaps not the last time. *)
Lemma pushing_call L from id s s1 s' c :
  pushing L from id s s1 -> from <= id < L -> store_ok (block_store s') ->
  reads_only (block_store s1) (block_store s') ->
  cs_isStateInitialized (sc_status s') = cs_isStateInitialized (sc_status s1) ->
  cc_hasExtFace C = true -> evm s' = evm s1 ++ [c] -> ev_blockID c = id + 1 -> given_stored (block_store s) c ->
  pushing L from id s s' /\ pushing L from (id + 1) s s'.
Proof.
  intros [Ho Hd Hst (calls & He & Hlk & Hf & Hlast & Hne & Hall & Hno)] Hle ? Hd' Hs' Hface He' Hc Hg.
  assert (linked (calls ++ [c])) as Hlk'.
  { eapply last_snoc_linked; [done|done| |done]. eapply Forall_impl; [exact Hf|]. cbv beta. lia. }
  assert (forall i, from < i <= id -> exists d, d ∈ calls ++ [c] /\ ev_blockID d = i) as Hin.
  { intros i Hi. destruct (Hall i Hface Hi) as (d & Hdc & Hdi). exists d. split; [|done].
    apply elem_of_app. by left. }
  split; (constructor; [done|by eapply reads_only_trans|congruence|]; exists (calls ++ [c]);
    rewrite He', He, <- app_assoc; split_and!; [done|done| | | | |congruence]).
  - apply Forall_app. split; [done|]. apply Forall_singleton. split_and!; [lia|lia|lia|done].
  - intros d. rewrite last_snoc. intros [= <-]. lia.
  - by destruct calls.
  - intros i _ Hi. by apply Hin.
  - apply Forall_app. split; [eapply Forall_impl; [exact Hf|]; cbv beta; intros d (? & ? & ?); split_and!; [lia|lia|lia|done]|].
    apply Forall_singleton. split_and!; [lia|lia|lia|done].
  - intros d. rewrite last_snoc. intros [= <-]. lia.
  - by destruct calls.
  - intros i _ Hi. destruct (decide (i = id + 1)) as [->|]; [|apply Hin; lia].
    exists c. split; [|done]. apply elem_of_app. right. by left.
Qed.

Lemma pushMissingBlock_spec L from id ts ms s s1 :
  pushing L from id s s1 -> 0 <= from <= id -> id < L < 2 ^ 64 ->
  wp (pushMissingBlock C K id ts ms) s1 (fun r s' =>
    match r with Ok x => x.1.1 = id + 1 /\ pushing L from (id + 1) s s' | Err _ => pushing L from id s s' end).
Proof.
  intros Hp Hid H64. unfold pushMissingBlock. rewrite u64_small by lia. wp_simpl.
  eapply wp_mono; [apply chain_getBlock; [apply Hp|lia]|]. cbv beta.
  intros r s2 (Hok2 & Hd2 & _ & Hs2 & He2 & Hb).
  assert (pushing L from id s s2) as Hp2 by (eapply pushing_same; [done|done|done|congruence|done]).
  destruct r as [[b|]|e]; wp_simpl; [|done|done].
  assert (wp (pushBlockToExtFace C K b) s2 (fun _ s' => (sc_info s', block_store s') = (sc_info s2, block_store s2)))
    as Hk by apply push_keeps.
  assert (wp (pushBlockToExtFace C K b) s2 (fun _ s' =>
    cs_isStateInitialized (sc_status s') = cs_isStateInitialized (sc_status s2))) as Hk' by apply push_status.
  eapply wp_mono; [exact (wp_and _ _ _ _ (wp_and _ _ _ _ Hk Hk') (push_evm b s2))|]. cbv beta.
  intros r s3 [[[= _ Hb3] Hs3] He3]. destruct (Hb b eq_refl) as [Hbid Hholds].
  assert (store_ok (block_store s3)) as Hok3 by (by rewrite Hb3).
  assert (reads_only (block_store s2) (block_store s3)) as Hro3 by (by rewrite Hb3).
  destruct He3 as [[He3 Hno]|(Hface & c & Hcall & He3)].
  - assert (pushing L from id s s3) as Hp3 by (eapply pushing_same; [exact Hp2|done|done|done|done]).
    destruct r as [[]|e]; wp_simpl; [|done]. split; [done|]. specialize (Hno eq_refl).
    destruct Hp3 as [Ho Hd Hst (calls & He & Hlk & Hf & Hlast & Hne & Hall & Hn)].
    constructor; [done|done|done|]. specialize (Hn Hno). subst calls.
    exists []. split_and!; [done|done|done|done| | |done]; intros; congruence.
  - pose proof (call_id _ _ Hcall) as Hc.
    destruct (pushing_call L from id s s2 s3 c) as [Hp3 Hp3']; [done|lia|done|done|done|done|done|lia| |].
    { exists b. split; [|done]. rewrite Hc, Hbid. eapply holds_read; [apply (ps_db _ _ _ _ _ Hp)|done]. }
    destruct r as [[]|e]; wp_simpl; [|done]. done.
Qed.

Lemma pushMissingBlocks_spec fuel L from id ts ms s s1 :
  pushing L from id s s1 -> 0 <= from <= id -> id <= L < 2 ^ 64 ->
  wp (pushMissingBlocks C K L id ts ms fuel) s1 (fun r s' =>
    match r with Ok x => x.1.1 = L /\ pushing L from L s s' | Err _ => exists id', id' < L /\ pushing L from id' s s' end).
Proof.
  revert id ts ms s1. induction fuel as [|fuel IH]; intros id ts ms s1 Hp Hid HL; cbn [pushMissingBlocks];
    (destruct (Z.ltb_spec id L); [|wp_simpl; assert (id = L) as -> by lia; done]).
  { wp_simpl. exists id. split; [lia|done]. }
  wp_simpl. pose proof (pushMissingBlock_spec L from id ts ms s s1 Hp Hid ltac:(lia)) as Hw.
  unfold wp, or_keep in *. destruct (pushMissingBlock C K id ts ms s1) as [[[[id' ts'] ms']|e] s2].
  - cbn in Hw |- *. destruct Hw as [-> Hp2]. apply (IH (id + 1) ts' ms' s2 Hp2); lia.
  - cbn in Hw. destruct e; cbn; try (apply (IH id ts ms s2 Hw); lia).
    exists id. split; [lia|done].
Qed.

Lemma wp_setStatus g s (Q : res unit -> state -> Prop) :
  wp (setStatus g) s Q <->
  Q (Ok tt) (mkSchain (sc_info s) (g (sc_status s)) (sc_stores s) (sc_output s) (sc_world s)).
Proof. done. Qed.

(** Step 2 does not touch the blocks; if it starts the chain, it starts at
    [id]. *)
Lemma normalBootstrap_spec id ts ms s :
  wp (normalBootstrap C K id ts ms) s (fun _ s' =>
    block_store s' = block_store s /\ evm s' = evm s /\
    (cs_isStateInitialized (sc_status s') = true ->
       cs_isStateInitialized (sc_status s) = true \/ last_id s' = id)).
Proof.
  unfold normalBootstrap. wp_simpl. unfold on_info at 1. rewrite wp_zoom. wp_simpl.
  set (s1 := mkSchain _ _ _ _ _).
  split; intros _; [wp_simpl|by auto].
  set (Q := fun s' => (block_store s', evm s', sc_status s')).
  unfold initLastCommittedBlockInfo. wp_simpl.
  apply (wp_keeps Q); [by auto with frame|]. intros [now|e] s2 [= Hb2 He2 Hs2]; [|by rewrite Hb2, He2, Hs2; auto].
  unfold on_info. rewrite wp_zoom, wp_modify. cbv beta iota. unfold getLastCommittedBlockID at 1.
  rewrite wp_bind, wp_gets. cbv beta iota. rewrite wp_bind.
  set (s3 := mkSchain _ _ _ _ _).
  assert (wp (when (ci_lastCommittedBlockID (sc_info s3) =? 0)
    (on_priceDb (calculatePrice (cc_priceCfg C) (cc_params C) (cc_strategy C) (cr_u256_str K)
       (cr_u256_parse K) 0 0) ;; mret tt)) s3 (fun _ s' => (Q s', sc_info s') = (Q s3, sc_info s3))) as Hw.
  { assert (keeps (fun s' => (Q s', sc_info s')) (when (ci_lastCommittedBlockID (sc_info s3) =? 0)
      (on_priceDb (D := D) (calculatePrice (cc_priceCfg C) (cc_params C) (cc_strategy C) (cr_u256_str K)
       (cr_u256_parse K) 0 0) ;; mret tt))) as Hk; [|apply Hk].
    unfold on_priceDb, on_stores. keeps_auto. }
  eapply wp_mono; [exact Hw|]. cbv beta.
  intros [[]|e] s4 [= Hb4 He4 Hs4 Hi4].
  2:{ rewrite Hb4, He4, Hs4. cbn [sc_status s3]. rewrite Hs2. cbn. by auto. }
  rewrite wp_bind, wp_setStatus. cbv beta iota.
  set (s5 := mkSchain _ _ _ _ _).
  assert (block_store s5 = block_store s /\ evm s5 = evm s /\ last_id s5 = id) as (Hb5 & He5 & Hl5).
  { split_and!; [change (block_store s5) with (block_store s4); by rewrite Hb4|
      change (evm s5) with (evm s4); by rewrite He4|unfold last_id; change (sc_info s5) with (sc_info s4); by rewrite Hi4]. }
  set (c := if cc_isSyncOnlyNode C then _ else _).
  assert (keeps committed c) as Hk.
  { unfold c, setStatus, on_status, ifIncompleteConsensusDetectedRestartAndRebroadcastAllMessagesForCurrentBlock,
      getLastCommittedBlockID, on_vectorDb, on_stores.
    keeps_auto; first [apply startConsensus_keeps|idtac]. }
  apply (wp_keeps committed); [exact Hk|]. intros r s6 Hc6.
  pose proof (f_equal (fun x => x.1.1.1) Hc6 : sc_info s6 = sc_info s5) as Hi6.
  pose proof (f_equal (fun x => x.1.1.2) Hc6 : block_store s6 = block_store s5) as Hb6.
  pose proof (f_equal snd Hc6 : evm s6 = evm s5) as He6.
  rewrite Hb6, He6, Hb5, He5. split_and!; [done|done|]. intros _. right. unfold last_id. by rewrite Hi6.
Qed.

Lemma store_ok_block_ok (t : block_db D) : store_ok t -> block_ok t.
Proof. intros [Ht _]. constructor; apply Ht. Qed.

Lemma chain_read {A} (c : M (block_db D) A) s (Q : res A -> state -> Prop) P :
  wp c (block_store s) (fun r t => t = block_store s /\ P r) ->
  (forall r, P r -> Q r s) -> wp (on_blockDb c) s Q.
Proof.
  intros Hw HQ. unfold on_blockDb, on_stores. rewrite !wp_zoom.
  eapply wp_mono; [exact Hw|]. cbv beta. intros r t [-> Hp].
  destruct s as [i st [] o w]. by apply HQ.
Qed.

(** The end of the loop gives the final state. *)
Lemma pushing_done L id s s1 s' :
  pushing L id L s s1 -> evm s = [] -> 0 <= id <= L -> L < 2 ^ 64 -> L = db_last cfg (block_store s) ->
  block_store s' = block_store s1 -> evm s' = evm s1 -> last_id s' = L ->
  chain_inv s' /\ forall i, cc_hasExtFace C = true -> id < i <= L -> exists c, c ∈ evm s' /\ ev_blockID c = i.
Proof.
  intros [Ho Hd Hst (calls & He & Hlk & Hf & Hlast & Hne & Hall & Hno)] Hevm Hid H64 HL Hb' He' Hl'.
  rewrite Hevm in He. cbn in He.
  assert (db_last cfg (block_store s') = L) as Hdl by (rewrite HL; unfold db_last; by rewrite Hb', (proj1 Hd)).
  split; [|rewrite He', He; intros; by apply Hall].
  constructor; rewrite ?Hb', ?He', ?He, ?Hl'.
  - by apply store_ok_block_ok.
  - lia.
  - left. by rewrite <- Hb'.
  - done.
  - intros c Hc. left. specialize (Hlast c Hc). rewrite Forall_forall in Hf.
    assert (c ∈ calls) as Hin by (apply last_Some in Hc as [l' ->]; apply elem_of_app; right; by left).
    specialize (Hf c Hin). cbv beta in Hf. lia.
  - done.
Qed.

(** C14: After a crash or a start from a snapshot the chain resumes where the
    database stopped.  Whatever the clock, the application and the exit flag
    answer: if the application is not ahead of the block database, then the
    blocks that it is given during the start are the missing ones, in order and
    without a gap, none of them older or beyond the last stored block, and each with
    the transactions, time stamp, state root and proposer that the database holds
    under its number; and once the chain counts as initialized, the application has
    been given every missing block, the last committed block is the last stored one,
    and the invariant of the running chain holds. *)
Theorem bootstrap_resumes_chain id ts ms fuel s :
  store_ok (block_store s) -> cs_isStateInitialized (sc_status s) = false -> evm s = [] ->
  0 <= id <= db_last cfg (block_store s) -> db_last cfg (block_store s) < 2 ^ 64 ->
  wp (bootstrap C K id ts ms fuel) s (fun _ s' =>
    let L := db_last cfg (block_store s) in
    bd_db (block_store s') = bd_db (block_store s) /\ linked (evm s') /\
    Forall (fun c => id < ev_blockID c <= L /\ given_stored (block_store s) c) (evm s') /\
    (cs_isStateInitialized (sc_status s') = true ->
       chain_inv s' /\ last_id s' = L /\
       forall i, cc_hasExtFace C = true -> id < i <= L -> exists c, c ∈ evm s' /\ ev_blockID c = i)).
Proof.
  intros Hs Hinit Hevm Hid H64. cbv zeta. set (L := db_last cfg (block_store s)) in *.
  set (same := fun s' => store_ok (block_store s') /\ reads_only (block_store s) (block_store s') /\
    evm s' = [] /\ cs_isStateInitialized (sc_status s') = false).
  set (Q := fun s' : state => bd_db (block_store s') = bd_db (block_store s) /\ linked (evm s') /\ _).
  assert (forall s', same s' -> Q s') as Hsame.
  { intros s' (_ & [Hd _] & He & Hi). unfold Q. rewrite He, Hi. split_and!; try done. }
  unfold bootstrap. rewrite wp_bind, wp_gets. cbv beta iota. rewrite wp_bind, wp_setStatus. cbv beta iota.
  set (s1 := mkSchain _ _ _ _ _). rewrite wp_bind, wp_check. split; intros Hb; [|by apply Hsame].
  rewrite wp_bind. set (view := fun s' : state => (block_store s', evm s', cs_isStateInitialized (sc_status s'))).
  apply (wp_keeps view); [unfold on_infoDb, on_stores; keeps_auto|].
  assert (forall s', view s' = view s1 -> same s') as Hv.
  { intros s' [= Hb' He' Hi']. unfold same. rewrite Hb', He', Hi'. done. }
  intros [[]|e] s2 H2'; [|by apply Hsame, Hv]. apply Hv in H2' as (Hok2 & Hd2 & He2 & Hi2).
  pose proof (store_ok_block_ok _ Hok2) as Hbo2.
  assert (db_last cfg (block_store s2) = L) as HL2 by (unfold db_last; by rewrite (proj1 Hd2)).
  rewrite wp_bind. eapply (chain_read _ _ _ (fun r => r = Ok L)).
  { eapply wp_mono; [by apply readLast_any|]. cbv beta. intros r t [-> ->]. by rewrite HL2. }
  intros r ->. rewrite wp_bind. unfold fixCorruptStateIfNeeded. eapply (chain_read _ _ _ (fun _ => True)).
  { eapply wp_mono; [by apply unfinished_any|]. cbv beta. done. }
  intros r _. assert (same s2) as Hsm2 by done. destruct r as [corrupt|e]; [|by apply Hsame].
  rewrite wp_bind. apply (wp_keeps view); [by auto with frame|].
  assert (forall s', view s' = view s2 -> same s') as Hv2.
  { intros s' [= Hb' He' Hi']. unfold same. rewrite Hb', He', Hi'. done. }
  intros r s3 H3'%Hv2. destruct r as [[]|e]; [|by apply Hsame].
  destruct (u64 (id + 128) <? L); [by apply Hsame|].
  rewrite (proj2 (Z.ltb_ge L id)) by lia. rewrite wp_bind. clear Hv Hv2 Hok2 Hd2 He2 Hi2 Hbo2 HL2 Hsm2.
  match goal with |- wp ?c _ _ => assert (wp c s3 (fun _ s' => same s')) as Hw end.
  { destruct (andb _ _); wp_simpl; [|done]. eapply wp_mono; [apply chain_getBlock; [apply H3'|lia]|]. cbv beta.
    intros r s4 (Hok4 & Hd4 & _ & Hs4 & He4 & _). destruct H3' as (Hok3 & Hd3 & He3 & Hi3).
    assert (same s4) as Hsm4 by (unfold same; rewrite He4, Hs4; split_and!; [done|by eapply reads_only_trans|done|done]).
    destruct r as [[b|]|e]; by wp_simpl. }
  eapply wp_mono; [exact Hw|]. cbv beta. intros r s4 H4'. destruct r as [ms'|e]; [|by apply Hsame].
  rewrite wp_bind. destruct H4' as (Hok4 & Hd4 & He4 & Hi4).
  eapply wp_mono; [apply (pushMissingBlocks_spec fuel L id id ts ms' s s4); [|lia|lia]|].
  { constructor; [done|done|congruence|]. exists []. rewrite He4, Hevm.
    split_and!; try done; try (intros; lia). }
  cbv beta. intros r s5 Hr.
  assert (forall id', pushing L id id' s s5 -> linked (evm s5) /\
    Forall (fun c => id < ev_blockID c <= L /\ given_stored (block_store s) c) (evm s5) /\ bd_db (block_store s5) = bd_db (block_store s) /\
    cs_isStateInitialized (sc_status s5) = false) as Hpush.
  { intros id' [_ Hd Hst (calls & He & Hlk & Hf & _)]. rewrite Hevm in He. cbn in He. rewrite He.
    split_and!; [done| |apply Hd|congruence]. eapply Forall_impl; [exact Hf|]. cbv beta. intros c (? & ? & ?). split; [lia|done]. }
  destruct r as [[[x1 x2] x3]|e].
  2:{ destruct Hr as (id' & _ & (Hl5 & Hf5 & Hd5 & Hi5)%Hpush). unfold Q. rewrite Hi5. split_and!; done. }
  cbn [fst snd] in Hr |- *. destruct Hr as [-> Hp]. destruct (Hpush L Hp) as (Hl5 & Hf5 & Hd5 & Hi5).
  pose proof (normalBootstrap_spec L x2 x3 s5) as Hn. unfold wp, or_keep in Hn |- *.
  destruct (normalBootstrap C K L x2 x3 s5) as [r s6]. cbn [fst snd] in Hn.
  destruct Hn as (Hb6 & He6 & Hi6). assert (Q s6) as HQ.
  { unfold Q. rewrite Hb6, He6. split_and!; [done|done|done|]. intros Hi. destruct (Hi6 Hi) as [?|Hl6]; [congruence|].
    rewrite <- He6. destruct (pushing_done L id s s5 s6) as [Hc Ha]; try done. }
  destruct r as [[]|[]]; exact HQ.
Qed.
End Commit.

(** ** Instances *)
Section Demo.
Definition demo_crypto : crypto := {|
  cr_blake3 := demo_hash; cr_u256_str := demo_str; cr_u256_parse := demo_u256_parse;
  cr_export_bits := demo_export; cr_json_dump := demo_dump; cr_json_parse := demo_json_parse;
  cr_verifyECDSASig := fun _ _ _ _ => Ok tt; cr_verifyThresholdSig := fun _ _ _ _ => Ok tt;
  cr_verifyDAProofSig := fun _ _ _ _ => Ok tt; cr_signProposal := fun _ => Ok "sig"%string;
  cr_signDAProof := fun p => Ok {| ss_text := "share"; ss_blockId := bp_blockID p; ss_signerIndex := 2 |};
  cr_share := string; cr_createDAProofSigShare := fun t _ _ _ => Ok t;
  cr_mergeSignature := fun _ _ _ => Ok "da"%string |}.

Definition demo_chain : chain_config := {|
  cc_schainID := 1; cc_schainIndex := 2; cc_nodeID := 7; cc_isSyncOnlyNode := false;
  cc_hasExtFace := true; cc_isFinalizationDownloadOnly := false; cc_maxTransactionsPerBlock := 100;
  cc_emptyBlockIntervalAfterCatchupMs := 10; cc_nodeCount := 4; cc_blockCfg := demo_config;
  cc_proposalCfg := demo_config; cc_hashCfg := demo_config; cc_vectorCfg := demo_config;
  cc_daProofCfg := demo_config; cc_daSigCfg := demo_config; cc_priceCfg := demo_config;
  cc_infoCfg := demo_config; cc_engineVersion := "2.3"; cc_params := default_params;
  cc_strategy := Dynamic default_strategy |}.

Definition demo_stores (t : block_db (gmap string string)) : chain_stores (gmap string string) :=
  mkStores t empty_db demo_pdb empty_db empty_db empty_db empty_db demo_pending (mkInfoDb empty_db None).

Definition demo_schain (started : bool) (t : block_db (gmap string string)) : schain (gmap string string) :=
  mkSchain (mkInfo 0 {| ts_s := 0; ts_ms := 0 |} 0 0 0 0 0 0 0)
    (mkStatus 0 false started false 0 1000 0) (demo_stores t) (mkOutput [] [] [] [] [])
    (mkWorld [1700000000500] [] [] [] []).

Definition demo_block1 : CommittedBlock :=
  {| cb_block := {| bp_schainID := 1; bp_proposerNodeID := 7; bp_blockID := 1; bp_proposerIndex := 2;
       bp_timeStamp := 1700000000; bp_timeStampMs := 13; bp_stateRoot := 99;
       bp_transactionList := mkTransactionList [demo_tx 3; demo_tx 1];
       bp_hash := demo_hash (repeat 0 152); bp_signature := "sig" |};
     cb_thresholdSig := "thr"; cb_daSig := "da" |}.

Lemma demo_chain_inv : chain_inv demo_chain (demo_schain true (demo_store (lru_new 3))).
Proof.
  constructor; [|cbn; lia|by left|by intros [|i] c c'|done|done].
  constructor; [exact empty_db_wf|by apply lru_new_inv].
Qed.

Lemma catchup_commits_blocks_witness :
  let s := demo_schain true (demo_store (lru_new 3)) in
  let '(r, s') := blockCommitsArrivedThroughCatchup demo_chain demo_crypto true [demo_block1] s in
  r = Ok 1 /\ exists bs, committed_blocks demo_chain [demo_block1] bs s s' /\ zlen bs = 1.
Proof.
  cbv zeta. destruct (blockCommitsArrivedThroughCatchup demo_chain demo_crypto true [demo_block1]
    (demo_schain true (demo_store (lru_new 3)))) as [r s'] eqn:E.
  assert (r = Ok 1) as Hr.
  { transitivity ((blockCommitsArrivedThroughCatchup demo_chain demo_crypto true [demo_block1]
      (demo_schain true (demo_store (lru_new 3)))).1); [by rewrite E|vm_compute; reflexivity]. }
  split; [exact Hr|].
  pose proof (catchup_commits_blocks demo_chain demo_crypto [demo_block1]
    (demo_schain true (demo_store (lru_new 3))) demo_chain_inv) as Hw.
  unfold wp in Hw. rewrite E in Hw. cbn [fst snd] in Hw. apply Hw; [|discriminate|exact Hr].
  apply Forall_singleton. cbn. lia.
Defined.


(** A database whose last block is block 1, which is in the cache. *)
Definition last_db : level_db (gmap string string) :=
  LevelDb [Some ∅; Some ∅; Some ∅; Some {["1.0:last"%string := "1"%string]}] 4 {[1; 2; 3; 4]}.

Lemma last_db_wf : db_wf last_db.
Proof. split; [done|]. by repeat constructor. Qed.

Definition block1_bytes : list Z :=
  match serializeBlock demo_hash demo_str demo_dump demo_block1 with Ok l => l | Err _ => [] end.

Definition crashed_store : block_db (gmap string string) :=
  mkBlockDb last_db (putUnsafe 1 block1_bytes (lru_new 3)).

Lemma crashed_block i : db_block demo_config crashed_store i = None.
Proof.
  unfold db_block. assert (db_lookup (bd_db crashed_store) (createKey1 demo_config i) = None) as ->; [|done].
  unfold db_lookup, locate. change newest_first with [3%nat; 2%nat; 1%nat; 0%nat]. cbn.
  rewrite lookup_singleton_ne; [done|]. apply (last_key_block demo_config i).
Qed.

Lemma crashed_store_ok : store_ok demo_chain demo_crypto crashed_store.
Proof.
  pose proof (lru_new_inv (K := Z) (V := list Z) 3 ltac:(lia)) as Hn.
  assert (forall i bytes, stored demo_config crashed_store i = Some bytes -> i = 1 /\ bytes = block1_bytes) as Hst.
  { intros i bytes. unfold stored. rewrite crashed_block. cbn [bd_cache crashed_store].
    destruct (decide (i = 1)) as [->|Hne].
    - rewrite lru_lookup_put by done. intros Hb. split; [done|]. symmetry. by apply (inj Some).
    - destruct (lru_lookup _ i) as [l|] eqn:Hl; [|done]. apply lru_lookup_put_ne in Hl; [done|done|done]. }
  constructor.
  - constructor; [exact last_db_wf|by apply lru_putUnsafe_inv| | |].
    + cbn. by rewrite lru_put_max.
    + intros i l _. by rewrite crashed_block.
    + intros i l _ _. right. apply crashed_block.
  - intros i bytes b _ [-> ->]%Hst Hp.
    assert (bf_parse (BlockFormat := chain_format demo_crypto) block1_bytes false = Ok demo_block1) as Hb
      by (vm_compute; reflexivity).
    cbn [demo_chain cc_blockCfg] in *. rewrite Hb in Hp. assert (b = demo_block1) as -> by congruence. reflexivity.
Qed.

Lemma bootstrap_resumes_chain_witness :
  let s := demo_schain false crashed_store in
  let s' := (bootstrap demo_chain demo_crypto 0 0 0 1 s).2 in
  cs_isStateInitialized (sc_status s') = true /\ last_id s' = 1 /\
  exists c, c ∈ evm s' /\ ev_blockID c = 1 /\ given_stored demo_chain demo_crypto crashed_store c.
Proof.
  cbv zeta.
  pose proof (bootstrap_resumes_chain demo_chain demo_crypto 0 0 0 1 (demo_schain false crashed_store)
    crashed_store_ok eq_refl eq_refl) as Hw.
  assert (db_last demo_config crashed_store = 1) as Hl by (vm_compute; reflexivity).
  change (block_store (demo_schain false crashed_store)) with crashed_store in Hw.
  cbn [demo_chain cc_blockCfg] in Hw. rewrite Hl in Hw. specialize (Hw ltac:(lia) ltac:(lia)).
  destruct Hw as (_ & _ & Hf & Hw).
  assert (cs_isStateInitialized (sc_status (bootstrap demo_chain demo_crypto 0 0 0 1
    (demo_schain false crashed_store)).2) = true) as Hi by (vm_compute; reflexivity).
  destruct (Hw Hi) as (_ & Hlast & Hall). split; [exact Hi|]. split; [exact Hlast|].
  destruct (Hall 1 eq_refl ltac:(lia)) as (c & Hc & Hi1). exists c. split; [exact Hc|]. split; [exact Hi1|].
  rewrite Forall_forall in Hf. apply (Hf c Hc).
Defined.

(** When the next block cannot be read, the loop at the start never ends. *)
Lemma bootstrap_waits_forever fuel :
  (pushMissingBlocks demo_chain demo_crypto 1 0 0 0 fuel
     (demo_schain false (mkBlockDb last_db (lru_new 3)))).1 = Err OutOfFuel.
Proof.
  set (s := demo_schain false (mkBlockDb last_db (lru_new 3))).
  assert (pushMissingBlock demo_chain demo_crypto 0 0 0 s = (Err InvalidStateException, s)) as Hp
    by (vm_compute; reflexivity).
  induction fuel as [|f IH]; [done|]. cbn [pushMissingBlocks]. change (0 <? 1) with true. cbv iota.
  unfold mbind, M_bind, or_keep. rewrite Hp. exact IH.
Qed.
End Demo.
