(* ===== verification/Headers.v ===== *)
(** * Headers of the TCP protocols

    The JSON headers that the proposal, finalization and catchup protocols
    exchange ([src/headers]), with their completeness flag, status and fields,
    their construction, printing and parsing, and the hexadecimal form of a hash
    ([src/network/Utils.cpp], [src/crypto/BLAKE3Hash.cpp]).  The JSON library and
    the decimal conversion are parameters, as in [Blocks]. *)

From stdpp Require Import base tactics gmap list strings.
From Stdlib Require Import ZArith Lia.
From S2P Require Import Prelude Bytes Transactions ProtocolDbs Blocks BlockStore.

(** ** Hexadecimal hashes *)
Definition char2int (c : Z) : res Z :=
  if (48 <=? c) && (c <=? 57) then Ok (c - 48)
  else if (65 <=? c) && (c <=? 70) then Ok (c - 65 + 10)
  else if (97 <=? c) && (c <=? 102) then Ok (c - 97 + 10)
  else Err InvalidArgumentException.

(** The loop over pairs of digits. *)
Fixpoint hexPairs (hex : list Z) : res (list Z) :=
  match hex with
  | a :: b :: hex =>
      x ← char2int a;
      y ← char2int b;
      l ← hexPairs hex;
      Ok (u8 (x * 16 + y) :: l)
  | _ => Ok []
  end.

Definition cArrayFromHex (hex : string) (len : Z) : res (list Z) :=
  let l := string_bytes hex in
  rcheck InvalidArgumentException (zlen l mod 2 =? 0) ;;
  rcheck InvalidArgumentException (zlen l / 2 =? len) ;;
  hexPairs l.

Definition fromHex (hex : string) : res (list Z) :=
  rcheck InvalidArgumentException (bool_decide (hex <> ""%string)) ;;
  cArrayFromHex hex HASH_LEN.

(** ** Connection statuses

    A status read from the network is any integer, so statuses are numbers. *)
Definition CONNECTION_SUCCESS : Z := 0.
Definition CONNECTION_PROCEED : Z := 1.
Definition CONNECTION_STATUS_UNKNOWN : Z := 2.
Definition CONNECTION_RETRY_LATER : Z := 3.
Definition CONNECTION_DISCONNECT : Z := 4.
Definition CONNECTION_ERROR : Z := 5.

Definition CONNECTION_OK : Z := 0.
Definition CONNECTION_SUBSTATUS_UNKNOWN : Z := 1.
Definition CONNECTION_ERROR_UNKNOWN_SCHAIN_ID : Z := 2.
Definition CONNECTION_ERROR_UNKNOWN_SERVER_ERROR : Z := 3.
Definition CONNECTION_ERROR_DONT_KNOW_THIS_NODE : Z := 4.
Definition CONNECTION_ERROR_INVALID_NODE_INDEX : Z := 5.
Definition CONNECTION_ERROR_TIME_STAMP_IN_THE_FUTURE : Z := 7.
Definition CONNECTION_ERROR_TIME_STAMP_EARLIER_THAN_COMMITTED : Z := 8.
Definition CONNECTION_BLOCK_PROPOSAL_TOO_LATE : Z := 9.
Definition CONNECTION_BLOCK_PROPOSAL_IN_THE_FUTURE : Z := 10.
Definition CONNECTION_DOUBLE_PROPOSAL : Z := 11.
Definition CONNECTION_INVALID_HASH : Z := 13.
Definition CONNECTION_NO_NEW_BLOCKS : Z := 14.
Definition CONNECTION_ERROR_INVALID_FRAGMENT_INDEX : Z := 16.
Definition CONNECTION_ERROR_INVALID_PROPOSER_INDEX : Z := 17.
Definition CONNECTION_SIGNATURE_DID_NOT_VERIFY : Z := 18.
Definition CONNECTION_ALREADY_HAVE_DA_PROOF : Z := 19.
Definition CONNECTION_DONT_HAVE_PROPOSAL_FOR_THIS_DA_PROOF : Z := 21.
Definition CONNECTION_FINALIZE_DONT_HAVE_PROPOSAL : Z := 22.
Definition CONNECTION_CATCHUP_DONT_HAVE_THIS_BLOCK : Z := 23.
Definition CONNECTION_ERROR_TIME_LESS_THAN_MODERN_DAY : Z := 24.
Definition CONNECTION_ERROR_TIME_TOO_FAR_IN_THE_FUTURE : Z := 25.
Definition CONNECTION_PROPOSAL_STATE_ROOT_DOES_NOT_MATCH : Z := 26.
Definition CONNECTION_ALREADY_HAVE_ENOUGH_PROPOSALS_FOR_THIS_BLOCK_ID : Z := 27.
Definition CONNECTION_FINALIZER_CLIENT_ASKING_FOR_INCORRECT_PROPOSER_INDEX : Z := 28.

(** ** Header classes *)
Record AbstractBlockRequestHeader := {
  ar_schainID : Z;
  ar_proposerIndex : Z;
  ar_blockID : Z
}.

Record BlockProposalRequestHeader := {
  pr_block : AbstractBlockRequestHeader;
  pr_proposerNodeID : Z;
  pr_timeStamp : Z;
  pr_timeStampMs : Z;
  pr_hash : string;
  pr_signature : string;
  pr_txCount : Z;
  pr_stateRoot : Z
}.

Record SubmitDAProofRequestHeader := {
  dr_block : AbstractBlockRequestHeader;
  dr_proposerNodeID : Z;
  dr_thresholdSig : string;
  dr_blockHash : string
}.

Record BlockFinalizeResponse := {
  fz_fragmentSize : Z;
  fz_blockSize : Z;
  fz_blockHash : string;
  fz_daProofSig : string
}.

(** The fields of the subclasses of [Header]. *)
Inductive header_body :=
  | BodyStatus
  | BodyProposalRequest (h : BlockProposalRequestHeader)
  | BodyDAProofRequest (h : SubmitDAProofRequestHeader)
  | BodyFinalizeRequest (h : AbstractBlockRequestHeader) (fragmentIndex nodeID : Z)
  | BodyFinalizeResponse (f : BlockFinalizeResponse)
  | BodyCatchupRequest (schainID blockID nodeID : Z)
  | BodyCatchupResponse (blockSizes : option (list Z)) (lastBid lastTs : Z)
  | BodyMissingRequest (count : Z)
  | BodyMissingResponse (sizes : list Z)
  | BodyFinalResponse (sigShare signature publicKey publicKeySig : string).

Record Header := mkHeader {
  hd_type : string;
  hd_status : Z;
  hd_substatus : Z;
  hd_complete : bool;
  hd_body : header_body
}.

(** The constructor of [Header] with its member initializers. *)
Definition newHeader (type : string) (body : header_body) : Header :=
  mkHeader type CONNECTION_ERROR CONNECTION_ERROR_UNKNOWN_SERVER_ERROR false body.

Definition setStatusSubStatus (status substatus : Z) (h : Header) : Header :=
  mkHeader (hd_type h) status substatus (hd_complete h) (hd_body h).

Definition setComplete (h : Header) : Header :=
  mkHeader (hd_type h) (hd_status h) (hd_substatus h) true (hd_body h).

Definition getStatusSubStatus (h : Header) : Z * Z := (hd_status h, hd_substatus h).

Definition mkAbstractBlockRequestHeader (nodeCount schainID blockID proposerIndex : Z) :
    res AbstractBlockRequestHeader :=
  rcheck InvalidArgumentException (proposerIndex <=? nodeCount) ;;
  rcheck InvalidArgumentException (0 <? proposerIndex) ;;
  Ok {| ar_schainID := schainID; ar_proposerIndex := proposerIndex; ar_blockID := blockID |}.

Section Headers.
Context (u256_str : Z -> string) (u256_parse : string -> res Z).
Context (json_dump : json -> string).

(** ** Printing *)
Definition addStatusFields (h : Header) (j : json) : json :=
  <["substatus" := JNum (hd_substatus h)]> (<["status" := JNum (hd_status h)]> j).

Definition addBlockFields (h : AbstractBlockRequestHeader) (j : json) : json :=
  <["blockID" := JNum (ar_blockID h)]> (<["proposerIndex" := JNum (ar_proposerIndex h)]>
    (<["schainID" := JNum (ar_schainID h)]> j)).

Definition addProposalRequestFields (h : BlockProposalRequestHeader) (j : json) : res json :=
  let j := addBlockFields (pr_block h) j in
  let j := <["schainID" := JNum (ar_schainID (pr_block h))]> j in
  let j := <["proposerNodeID" := JNum (pr_proposerNodeID h)]> j in
  let j := <["proposerIndex" := JNum (ar_proposerIndex (pr_block h))]> j in
  let j := <["blockID" := JNum (ar_blockID (pr_block h))]> j in
  let j := <["txCount" := JNum (pr_txCount h)]> j in
  rcheck InvalidStateException (MODERN_TIME <? pr_timeStamp h) ;;
  let j := <["timeStamp" := JNum (pr_timeStamp h)]> j in
  let j := <["timeStampMs" := JNum (pr_timeStampMs h)]> j in
  rcheck InvalidStateException (bool_decide (pr_hash h <> ""%string)) ;;
  rcheck InvalidStateException (bool_decide (pr_signature h <> ""%string)) ;;
  let j := <["hash" := JStr (pr_hash h)]> j in
  let j := <["sig" := JStr (pr_signature h)]> j in
  Ok (<["sr" := JStr (u256_str (pr_stateRoot h))]> j).

Definition addDAProofRequestFields (h : SubmitDAProofRequestHeader) (j : json) : res json :=
  let j := addBlockFields (dr_block h) j in
  let j := <["schainID" := JNum (ar_schainID (dr_block h))]> j in
  let j := <["proposerNodeID" := JNum (dr_proposerNodeID h)]> j in
  let j := <["proposerIndex" := JNum (ar_proposerIndex (dr_block h))]> j in
  let j := <["blockID" := JNum (ar_blockID (dr_block h))]> j in
  rcheck InvalidStateException (bool_decide (dr_thresholdSig h <> ""%string)) ;;
  let j := <["thrSig" := JStr (dr_thresholdSig h)]> j in
  Ok (<["hash" := JStr (dr_blockHash h)]> j).

Definition addFinalizeRequestFields (h : AbstractBlockRequestHeader) (fragmentIndex nodeID : Z)
    (j : json) : json :=
  <["nodeID" := JNum nodeID]> (<["fragmentIndex" := JNum fragmentIndex]> (addBlockFields h j)).

Definition addFinalizeResponseFields (complete : bool) (status : Z) (f : BlockFinalizeResponse) (j : json) :
    res json :=
  rcheck InvalidStateException complete ;;
  if negb (status =? CONNECTION_PROCEED) then Ok j
  else
    rcheck InvalidStateException (bool_decide (fz_blockHash f <> ""%string)) ;;
    let j := <["blockHash" := JStr (fz_blockHash f)]> j in
    let j := <["fragmentSize" := JNum (fz_fragmentSize f)]> j in
    let j := <["blockSize" := JNum (fz_blockSize f)]> j in
    Ok (if bool_decide (fz_daProofSig f = ""%string) then j
        else <["daSig" := JStr (fz_daProofSig f)]> j).

Definition addCatchupRequestFields (schainID blockID nodeID : Z) (j : json) : json :=
  <["nodeID" := JNum nodeID]> (<["blockID" := JNum blockID]> (<["schainID" := JNum schainID]> j)).

Definition addCatchupResponseFields (blockSizes : option (list Z)) (lastBid lastTs : Z) (j : json) : json :=
  let j := <["count" := JNum (match blockSizes with Some l => zlen l | None => 0 end)]> j in
  let j := <["lastBid" := JNum lastBid]> j in
  let j := <["lastTs" := JNum lastTs]> j in
  match blockSizes with Some l => <["sizes" := JArr l]> j | None => j end.

Definition addFinalResponseFields (sigShare signature publicKey publicKeySig : string) (j : json) : json :=
  <["pks" := JStr publicKeySig]> (<["pk" := JStr publicKey]> (<["sig" := JStr signature]>
    (<["sss" := JStr sigShare]> j))).

(** The virtual [addFields]. *)
Definition hd_addFields (h : Header) (j : json) : res json :=
  let j := addStatusFields h j in
  match hd_body h with
  | BodyStatus => Ok j
  | BodyProposalRequest r => addProposalRequestFields r j
  | BodyDAProofRequest r => addDAProofRequestFields r j
  | BodyFinalizeRequest r i n => Ok (addFinalizeRequestFields r i n j)
  | BodyFinalizeResponse f => addFinalizeResponseFields (hd_complete h) (hd_status h) f j
  | BodyCatchupRequest c b n => Ok (addCatchupRequestFields c b n j)
  | BodyCatchupResponse l b t => Ok (addCatchupResponseFields l b t j)
  | BodyMissingRequest n => Ok (<["count" := JNum n]> j)
  | BodyMissingResponse l => Ok (<["sizes" := JArr l]> j)
  | BodyFinalResponse s g k ks => Ok (addFinalResponseFields s g k ks j)
  end.

(** [BasicHeader::serializeToString] of a header with a completeness flag. *)
Definition hd_serializeToString (h : Header) : res string :=
  rcheck InvalidStateException (hd_complete h) ;;
  j ← hd_addFields h {["type" := JStr (hd_type h)]};
  let s := json_dump j in
  rcheck InvalidStateException (16 <? Z.of_nat (String.length s)) ;;
  Ok s.

Definition hd_toBuffer (h : Header) : res (list Z) :=
  s ← hd_serializeToString h;
  let len := Z.of_nat (String.length s) in
  rcheck InvalidArgumentException (u64 (len + 8) <=? MAX_BUFFER_SIZE) ;;
  let buf := le_bytes 8 len ++ string_bytes s in
  rcheck InvalidStateException (10 <=? zlen buf) ;;
  Ok buf.

(** ** Requests *)
Definition mkProposalRequest (nodeCount schainID schainIndex nodeID : Z) (p : BlockProposal) : res Header :=
  b ← mkAbstractBlockRequestHeader nodeCount schainID (bp_blockID p) schainIndex;
  rcheck InvalidStateException (bool_decide (toHex (bp_hash p) <> ""%string)) ;;
  sig ← getSignature (bp_signature p);
  rcheck InvalidStateException (MODERN_TIME <? bp_timeStamp p) ;;
  Ok (setComplete (newHeader "BlckPrpslReq" (BodyProposalRequest
    {| pr_block := b; pr_proposerNodeID := nodeID; pr_timeStamp := bp_timeStamp p;
       pr_timeStampMs := bp_timeStampMs p; pr_hash := toHex (bp_hash p); pr_signature := sig;
       pr_txCount := zlen (tl_transactions (bp_transactionList p)); pr_stateRoot := bp_stateRoot p |}))).

Definition mkDAProofRequest (nodeCount schainID schainIndex nodeID : Z) (p : DAProof) (blockID : Z) :
    res Header :=
  b ← mkAbstractBlockRequestHeader nodeCount schainID blockID schainIndex;
  Ok (setComplete (newHeader "DAPrfReq" (BodyDAProofRequest
    {| dr_block := b; dr_proposerNodeID := nodeID; dr_thresholdSig := da_thresholdSig p;
       dr_blockHash := toHex (da_hash p) |}))).

Definition mkFinalizeRequest (nodeCount schainID blockID proposerIndex nodeID fragmentIndex : Z) :
    res Header :=
  b ← mkAbstractBlockRequestHeader nodeCount schainID blockID proposerIndex;
  rcheck InvalidArgumentException (0 <? fragmentIndex) ;;
  rcheck InvalidArgumentException (fragmentIndex <=? nodeCount - 1) ;;
  Ok (setComplete (newHeader "BlckFinalizeReq" (BodyFinalizeRequest b fragmentIndex nodeID))).

(** [known]: the chain has node information for the destination. *)
Definition mkCatchupRequest (schainID lastCommittedBlockID nodeID : Z) (known : bool) : res Header :=
  rcheck InvalidStateException known ;;
  Ok (setComplete (newHeader "BlckCatchupReq" (BodyCatchupRequest schainID lastCommittedBlockID nodeID))).

(** ** Responses *)
Definition mkFinalResponse (sigShare signature publicKey publicKeySig : string) : res Header :=
  rcheck InvalidArgumentException (bool_decide (sigShare <> ""%string)) ;;
  Ok (setComplete (setStatusSubStatus CONNECTION_SUCCESS CONNECTION_OK
    (newHeader "SigShareRsp" (BodyFinalResponse sigShare signature publicKey publicKeySig)))).

(** The constructor for a failure; it does not complete the header. *)
Definition mkFinalResponseError (status substatus : Z) : res Header :=
  rcheck InvalidArgumentException (negb (status =? CONNECTION_SUCCESS)) ;;
  Ok (setStatusSubStatus status substatus (newHeader "SigShareRsp" (BodyFinalResponse "" "" "" ""))).

Definition setFragmentParams (fragmentSize blockSize : Z) (hash daProofSig : string) (h : Header) :
    res Header :=
  rcheck InvalidArgumentException (2 <? fragmentSize) ;;
  rcheck InvalidArgumentException (16 <? blockSize) ;;
  rcheck InvalidArgumentException (bool_decide (hash <> ""%string)) ;;
  rcheck InvalidArgumentException (bool_decide (daProofSig <> ""%string)) ;;
  Ok (setComplete (mkHeader (hd_type h) (hd_status h) (hd_substatus h) (hd_complete h)
    (BodyFinalizeResponse {| fz_fragmentSize := fragmentSize; fz_blockSize := blockSize;
       fz_blockHash := hash; fz_daProofSig := daProofSig |}))).

Definition setBlockSizesAndLatestBlockInfo (blockSizes : list Z) (lastBid lastTs : Z) (h : Header) :
    res Header :=
  rcheck InvalidStateException (negb (hd_complete h)) ;;
  Ok (setComplete (mkHeader (hd_type h) (hd_status h) (hd_substatus h) (hd_complete h)
    (BodyCatchupResponse (Some blockSizes) lastBid lastTs))).

(** ** Parsing *)
Definition parseProposalRequest (j : json) (nodeCount : Z) : res BlockProposalRequestHeader :=
  schainID ← getUint64 j "schainID";
  blockID ← getUint64 j "blockID";
  proposerIndex ← getUint64 j "proposerIndex";
  b ← mkAbstractBlockRequestHeader nodeCount schainID blockID proposerIndex;
  proposerNodeID ← getUint64 j "proposerNodeID";
  timeStamp ← getUint64 j "timeStamp";
  timeStampMs ← getUint32 j "timeStampMs";
  hash ← getString j "hash";
  rcheck InvalidStateException (bool_decide (hash <> ""%string)) ;;
  signature ← getString j "sig";
  rcheck InvalidStateException (bool_decide (signature <> ""%string)) ;;
  txCount ← getUint64 j "txCount";
  stateRootStr ← getString j "sr";
  rcheck InvalidStateException (bool_decide (stateRootStr <> ""%string)) ;;
  stateRoot ← u256_parse stateRootStr;
  Ok {| pr_block := b; pr_proposerNodeID := proposerNodeID; pr_timeStamp := timeStamp;
        pr_timeStampMs := timeStampMs; pr_hash := hash; pr_signature := signature;
        pr_txCount := txCount; pr_stateRoot := stateRoot |}.

Definition parseDAProofRequest (j : json) (nodeCount : Z) : res SubmitDAProofRequestHeader :=
  schainID ← getUint64 j "schainID";
  blockID ← getUint64 j "blockID";
  proposerIndex ← getUint64 j "proposerIndex";
  b ← mkAbstractBlockRequestHeader nodeCount schainID blockID proposerIndex;
  proposerNodeID ← getUint64 j "proposerNodeID";
  thresholdSig ← getString j "thrSig";
  rcheck InvalidStateException (bool_decide (thresholdSig <> ""%string)) ;;
  blockHash ← getString j "hash";
  rcheck InvalidStateException (bool_decide (blockHash <> ""%string)) ;;
  Ok {| dr_block := b; dr_proposerNodeID := proposerNodeID; dr_thresholdSig := thresholdSig;
        dr_blockHash := blockHash |}.
End Headers.

(** ** Hexadecimal round trip *)
Lemma char2int_hexval n : 0 <= n < 16 -> char2int (hexval n) = Ok n.
Proof.
  intros Hn. unfold hexval, char2int. destruct (Z.ltb_spec n 10).
  - rewrite (proj2 (Z.leb_le 48 _)), (proj2 (Z.leb_le _ 57)) by lia. cbn [andb]. f_equal; lia.
  - rewrite (proj2 (Z.leb_gt (87 + n) 57)), andb_false_r by lia.
    rewrite (proj2 (Z.leb_gt (87 + n) 70)), andb_false_r by lia.
    rewrite (proj2 (Z.leb_le 97 _)), (proj2 (Z.leb_le _ 102)) by lia. cbn [andb]. f_equal; lia.
Qed.

Lemma nibbles_byte b : is_byte b -> u8 (Z.land (Z.shiftr b 4) 15 * 16 + Z.land b 15) = b.
Proof.
  unfold is_byte. intros Hb. change 15 with (Z.ones 4). rewrite !Z.land_ones, Z.shiftr_div_pow2 by done.
  change (2 ^ 4) with 16. rewrite (Z.mod_small (b / 16)) by (split; [apply Z.div_pos|apply Z.div_lt_upper_bound]; lia).
  rewrite Z.mul_comm, <- Z.div_mod by lia. by apply wrap_small.
Qed.

Lemma hexPairs_carray2Hex l : Forall is_byte l -> hexPairs (carray2Hex l) = Ok l.
Proof.
  induction 1 as [|b l Hb _ IH]; [done|]. cbn [carray2Hex hexPairs].
  rewrite !char2int_hexval by apply land15_range. cbn [mbind res_bind]. rewrite IH.
  cbn [mbind res_bind]. by rewrite nibbles_byte.
Qed.

Lemma zlen_carray2Hex l : zlen (carray2Hex l) = 2 * zlen l.
Proof. unfold zlen. induction l as [|b l IH]; [done|]. cbn [carray2Hex length]. lia. Qed.

Lemma hex_is_bytes l : Forall is_byte (carray2Hex l).
Proof.
  induction l as [|b l IH]; cbn [carray2Hex]; [constructor|]. unfold is_byte.
  pose proof (hexval_range _ (land15_range (Z.shiftr b 4))).
  pose proof (hexval_range _ (land15_range b)). repeat constructor; try lia. done.
Qed.

Lemma fromHex_toHex h : Forall is_byte h -> hash_sized h -> fromHex (toHex h) = Ok h.
Proof.
  intros Hb Hl. unfold hash_sized in Hl. unfold fromHex, cArrayFromHex, toHex.
  assert (zlen h = HASH_LEN) as Hz by (unfold zlen; rewrite Hl; done).
  rewrite bool_decide_eq_true_2.
  2:{ intros Hn. destruct h as [|b h]; [done|]. done. }
  cbn [rcheck mbind res_bind]. rewrite string_bytes_string by apply hex_is_bytes.
  rewrite zlen_carray2Hex, Hz. cbn [rcheck mbind res_bind]. by apply hexPairs_carray2Hex.
Qed.

Ltac look := repeat first [rewrite lookup_insert_eq | rewrite lookup_insert_ne by discriminate].

(** ** Request round trip *)
Section RequestRoundTrip.
Context (u256_str : Z -> string) (u256_parse : string -> res Z).
Context (parse_str : forall p, 0 <= p < 2 ^ 256 -> u256_parse (u256_str p) = Ok p).
Context (str_plain : forall p, plain (u256_str p)) (str_nonempty : forall p, u256_str p <> ""%string).

Definition request_wf (nodeCount : Z) (h : BlockProposalRequestHeader) : Prop :=
  word 64 (ar_schainID (pr_block h)) /\ word 64 (ar_blockID (pr_block h)) /\
  0 < ar_proposerIndex (pr_block h) <= nodeCount /\ nodeCount < 2 ^ 64 /\
  word 64 (pr_proposerNodeID h) /\ MODERN_TIME < pr_timeStamp h < 2 ^ 64 /\ word 32 (pr_timeStampMs h) /\
  pr_hash h <> ""%string /\ plain (pr_hash h) /\ pr_signature h <> ""%string /\ plain (pr_signature h) /\
  word 64 (pr_txCount h) /\ word 256 (pr_stateRoot h).

Lemma proposal_request_fields nodeCount h j0 :
  request_wf nodeCount h -> json_plain j0 ->
  exists j, addProposalRequestFields u256_str h j0 = Ok j /\ json_plain j /\
    parseProposalRequest u256_parse j nodeCount = Ok h.
Proof.
  intros (H1 & H2 & H3 & H4 & H5 & H6 & H7 & H8 & H9 & H10 & H11 & H12 & H13) Hj0. unfold word in *.
  assert (0 < MODERN_TIME) by done.
  unfold addProposalRequestFields, addBlockFields. cbv zeta.
  rewrite (proj2 (Z.ltb_lt _ _)), !bool_decide_eq_true_2 by (done || lia).
  cbn [rcheck mbind res_bind]. eexists. split; [reflexivity|]. split.
  - repeat apply json_plain_insert; try done; lia.
  - unfold parseProposalRequest, mkAbstractBlockRequestHeader, getUint64, getUint32, getString, nullCheck.
    look. cbn [mbind res_bind]. rewrite !u64_small by lia.
    rewrite (proj2 (Z.leb_le _ _)), (proj2 (Z.ltb_lt 0 _)), !bool_decide_eq_true_2 by (done || lia).
    cbn [rcheck mbind res_bind]. rewrite parse_str by done. cbn [mbind res_bind].
    rewrite (wrap_small 32 (pr_timeStampMs h) : _ -> u32 _ = _) by done. by destruct h as [[]].
Qed.
End RequestRoundTrip.
