(* ===== verification/Tcp.v ===== *)
(** * Reading and writing TCP connections

    Model of [IO] ([src/network/IO.cpp]), of the buffers it fills
    ([src/network/Buffer.cpp]) and of [AbstractServerAgent::send].  The operating
    system is a stream of outcomes of [recv] and [send]: a [recv] returns any
    part of what has arrived, a [send] accepts any part of what is left, and both
    can fail, time out or meet a requested exit.  The theorem shows that a header
    that is written at one end is read at the other one, however the bytes are
    cut. *)

From stdpp Require Import base tactics gmap list strings.
From Stdlib Require Import ZArith Lia.
From S2P Require Import Prelude Bytes Transactions ProtocolDbs Blocks Headers.

Definition MAGIC_NUMBER : Z := 0x1396A22050B30.
Definition TEST_MAGIC_NUMBER : Z := 0x2456032650150.
Definition MAX_HEADER_SIZE : Z := 8 * (8 * 1024).

(** Outcomes of [recv]; past their end nothing arrives and the read times out. *)
Inductive recv_event :=
  | RecvChunk (bytes : list Z)
  | RecvTimeout
  | RecvError
  | RecvExit.

(** Outcomes of [send]; past their end everything is accepted. *)
Inductive send_event :=
  | SendSome (n : nat)
  | SendTimeout
  | SendClosed
  | SendError
  | SendExit (n : nat).

Record connection := mkConn {
  cn_recv : list recv_event;
  cn_send : list send_event;
  cn_sent : list Z
}.

(** The loop of [readBytes]; the chunk that is read in part stays. *)
Fixpoint recvLoop (events : list recv_event) (len : Z) (bytesRead : list Z) :
    res (list Z) * list recv_event :=
  if len <=? zlen bytesRead then (Ok bytesRead, events)
  else
    match events with
    | [] => (Err NetworkProtocolException, [])
    | RecvChunk chunk :: events =>
        if zlen chunk =? 0 then (Err NetworkProtocolException, events)
        else if zlen bytesRead + zlen chunk <=? len then recvLoop events len (bytesRead ++ chunk)
        else
          let n := Z.to_nat (len - zlen bytesRead) in
          (Ok (bytesRead ++ take n chunk), RecvChunk (drop n chunk) :: events)
    | (RecvTimeout | RecvError) :: events => (Err NetworkProtocolException, events)
    | RecvExit :: events => (Err ExitRequestedException, events)
    end.

(** The loop of [writeBytes]: the events that are left and what was accepted. *)
Fixpoint sendLoop (events : list send_event) (bytes : list Z) : res unit * list send_event * list Z :=
  match bytes, events with
  | [], _ => (Ok tt, events, [])
  | _, [] => (Ok tt, [], bytes)
  | _, SendSome n :: events =>
      if (n =? 0)%nat then (Err IOException, events, [])
      else
        let '(r, events, sent) := sendLoop events (drop n bytes) in
        (r, events, take n bytes ++ sent)
  | _, (SendTimeout | SendClosed) :: events => (Err NetworkProtocolException, events, [])
  | _, SendError :: events => (Err IOException, events, [])
  | _, SendExit n :: events => (Err ExitRequestedException, events, take n bytes)
  end.

Section IO.
Context (json_dump : json -> string) (json_parse : string -> res json).
Context (u256_str : Z -> string).
Local Abbreviation state := connection.

(** [io_readBytes size len]: [len] bytes are read into a buffer of [size]. *)
Definition io_readBytes (size len : Z) : M state (list Z) :=
  CHECK_ARGUMENT (0 <? len) ;;
  CHECK_ARGUMENT (len <=? size) ;;
  c ← get;
  let '(r, events) := recvLoop (cn_recv c) len [] in
  put (mkConn events (cn_send c) (cn_sent c)) ;;
  lift_res r.

Definition mkBuffer (size : Z) : res Z :=
  rcheck InvalidArgumentException (size <=? MAX_BUFFER_SIZE) ;; Ok size.

Definition readBuf (size len : Z) : M state (list Z) :=
  CHECK_ARGUMENT (0 <? len) ;;
  CHECK_ARGUMENT (len <=? size) ;;
  io_readBytes size len.

(** The length always is the size of the buffer. *)
Definition io_writeBytes (bytes : list Z) : M state unit :=
  CHECK_ARGUMENT (0 <? zlen bytes) ;;
  c ← get;
  let '(r, events, sent) := sendLoop (cn_send c) bytes in
  put (mkConn (cn_recv c) events (cn_sent c ++ sent)) ;;
  lift_res r.

Definition writeMagic (isPing : bool) : M state unit :=
  io_writeBytes (le_bytes 8 (if isPing then TEST_MAGIC_NUMBER else MAGIC_NUMBER)).

Definition writeHeader (h : Header) : M state unit :=
  CHECK_ARGUMENT (hd_complete h) ;;
  buf ← lift_res (hd_toBuffer u256_str json_dump h);
  io_writeBytes buf.

(** The hashes in the order of their positions. *)
Definition writePartialHashes (hashes : gmap Z (list Z)) : M state unit :=
  CHECK_ARGUMENT (0 <? zsize hashes) ;;
  io_writeBytes (concat (map (fun kv => take (Z.to_nat PARTIAL_HASH_LEN) kv.2) (map_items hashes))).

(** [AbstractServerAgent::send]. *)
Definition io_send (h : Header) : M state unit :=
  CHECK_ARGUMENT (hd_complete h) ;;
  buf ← lift_res (hd_toBuffer u256_str json_dump h);
  io_writeBytes buf.

Definition readMagic : M state unit :=
  l ← nested NetworkProtocolException (io_readBytes 8 8);
  let magic := le_value l in
  if negb (magic =? MAGIC_NUMBER) then
    if magic =? TEST_MAGIC_NUMBER then throw PingException else throw NetworkProtocolException
  else mret tt.

Definition readJsonHeader (maxHeaderLen : Z) : M state json :=
  buf2 ← nested NetworkProtocolException (io_readBytes 8 8);
  let headerLen := le_value buf2 in
  check ParsingException (negb ((headerLen <? 2) || (maxHeaderLen <? headerLen))) ;;
  size ← lift_res (mkBuffer headerLen);
  buf ← nested NetworkProtocolException (readBuf size headerLen);
  match json_parse (bytes_string buf) with
  | Ok j => mret j
  | Err OutOfFuel => throw OutOfFuel
  | Err _ => throw ParsingException
  end.
End IO.

(** ** What is delivered *)

(** The chunks hold the bytes, and none is empty. *)
Definition delivers (events : list recv_event) (bytes : list Z) : Prop :=
  exists chunks, events = map RecvChunk chunks /\ Forall (.≠ []) chunks /\ concat chunks = bytes.

(** Every [send] accepts something. *)
Definition accepts (events : list send_event) : Prop :=
  Forall (fun e => exists n, e = SendSome (S n)) events.

Lemma recvLoop_spec chunks len acc bytes rest :
  Forall (.≠ []) chunks -> concat chunks = bytes ++ rest -> zlen acc + zlen bytes = len ->
  exists chunks', recvLoop (map RecvChunk chunks) len acc = (Ok (acc ++ bytes), map RecvChunk chunks') /\
    Forall (.≠ []) chunks' /\ concat chunks' = rest.
Proof.
  revert acc bytes. induction chunks as [|c chunks IH]; intros acc bytes Hne Hcat Hlen.
  - cbn in Hcat. symmetry in Hcat. apply app_eq_nil in Hcat as [-> ->].
    exists []. cbn [map recvLoop]. rewrite (proj2 (Z.leb_le _ _)) by (change (zlen (A := Z) []) with 0 in *; lia).
    by rewrite app_nil_r.
  - apply Forall_cons in Hne as [Hc Hne]. cbn [map recvLoop].
    destruct (Z.leb_spec len (zlen acc)) as [Hl|Hl].
    { assert (bytes = []) as ->.
      { destruct bytes as [|b bytes]; [done|]. unfold zlen in *. cbn in *. lia. }
      exists (c :: chunks). rewrite app_nil_r. split; [done|]. split; [by constructor|done]. }
    destruct (Z.eqb_spec (zlen c) 0) as [Hz|Hz]; [destruct c; [done|unfold zlen in Hz; cbn in Hz; lia]|].
    cbn [concat] in Hcat. destruct (Z.leb_spec (zlen acc + zlen c) len) as [Hle|Hgt].
    + assert (exists bytes', bytes = c ++ bytes' /\ concat chunks = bytes' ++ rest) as (bytes' & -> & Hcat').
      { apply app_eq_inv in Hcat as [(k & -> & ->)|(k & -> & Hk)]; [|by exists k].
        assert (k = []) as ->.
        { destruct k; [done|]. rewrite zlen_app in Hle. unfold zlen in *. cbn in *. lia. }
        exists []. by rewrite !app_nil_r. }
      rewrite zlen_app in Hlen.
      destruct (IH (acc ++ c) bytes' Hne Hcat') as (chunks' & -> & ? & ?); [rewrite zlen_app; lia|].
      exists chunks'. by rewrite <- app_assoc.
    + assert (exists k, c = bytes ++ k /\ k <> [] /\ k ++ concat chunks = rest) as (k & -> & Hk & Hcat').
      { apply app_eq_inv in Hcat as [(k & -> & ->)|(k & -> & Hk)].
        - exists k. split; [done|]. split; [|done]. intros ->. rewrite app_nil_r in Hgt. lia.
        - rewrite zlen_app in Hlen. pose proof (zlen_nonneg k). lia. }
      assert (Z.to_nat (len - zlen acc) = length bytes) as -> by (unfold zlen in *; lia).
      rewrite take_app_length, drop_app_length. exists (k :: chunks). split; [done|].
      split; [by constructor|done].
Qed.

Lemma sendLoop_spec events bytes :
  accepts events -> exists events', sendLoop events bytes = (Ok tt, events', bytes) /\ accepts events'.
Proof.
  intros He. revert bytes. induction He as [|e events [n ->] He IH]; intros bytes.
  - exists []. destruct bytes; (split; [done|constructor]).
  - destruct bytes as [|b bytes].
    + eexists. split; [done|]. constructor; [by exists n|done].
    + cbn [sendLoop Nat.eqb drop take]. destruct (IH (drop n bytes)) as (events' & -> & ?).
      exists events'. split; [|done]. cbn. by rewrite take_drop.
Qed.

Lemma readBytes_delivers size len events out sent bytes rest :
  delivers events (bytes ++ rest) -> 0 < zlen bytes -> zlen bytes = len -> len <= size ->
  exists events', io_readBytes size len (mkConn events out sent) = (Ok bytes, mkConn events' out sent) /\
    delivers events' rest.
Proof.
  intros (chunks & -> & Hne & Hcat) Hpos Hlen Hsize.
  destruct (recvLoop_spec chunks len [] bytes rest) as (chunks' & Hrun & Hne' & Hcat'); [done..|].
  exists (map RecvChunk chunks'). split; [|by exists chunks'].
  unfold io_readBytes, check. rewrite (proj2 (Z.ltb_lt 0 len)), (proj2 (Z.leb_le len size)) by lia.
  cbv beta iota delta [mbind M_bind mret M_ret get cn_recv cn_send cn_sent]. by rewrite Hrun.
Qed.

Lemma writeBytes_accepted bytes events inc sent :
  accepts events -> 0 < zlen bytes ->
  exists events', io_writeBytes bytes (mkConn inc events sent) = (Ok tt, mkConn inc events' (sent ++ bytes)) /\
    accepts events'.
Proof.
  intros He Hpos. destruct (sendLoop_spec events bytes He) as (events' & Hrun & He').
  exists events'. split; [|done]. unfold io_writeBytes, check.
  rewrite (proj2 (Z.ltb_lt _ _)) by lia.
  cbv beta iota delta [mbind M_bind mret M_ret get cn_recv cn_send cn_sent]. by rewrite Hrun.
Qed.

(** ** Headers over a connection *)
Section Transfer.
Context (u256_str : Z -> string).
Context (json_dump : json -> string) (json_parse : string -> res json).
Context (parse_dump : forall j, json_plain j -> json_parse (json_dump j) = Ok j).

(** The fields of a header, which JSON carries and which fit into a buffer. *)
Definition sendable (h : Header) (maxHeaderLen : Z) (j : json) : Prop :=
  hd_complete h = true /\ hd_addFields u256_str h {["type"%string := JStr (hd_type h)]} = Ok j /\
  json_plain j /\ 16 < Z.of_nat (String.length (json_dump j)) <= maxHeaderLen /\
  Z.of_nat (String.length (json_dump j)) + 8 <= MAX_BUFFER_SIZE.

Definition header_bytes (j : json) : list Z :=
  le_bytes 8 (Z.of_nat (String.length (json_dump j))) ++ string_bytes (json_dump j).

Lemma toBuffer_sendable h m j : sendable h m j -> hd_toBuffer u256_str json_dump h = Ok (header_bytes j).
Proof.
  intros (Hc & Hj & _ & Hl & Hb). assert (MAX_BUFFER_SIZE < 2 ^ 64) by done.
  unfold hd_toBuffer, hd_serializeToString. rewrite Hc, Hj. cbn [rcheck mbind res_bind].
  rewrite (proj2 (Z.ltb_lt 16 _)) by lia. cbn [rcheck mbind res_bind].
  rewrite u64_small by lia. rewrite (proj2 (Z.leb_le _ MAX_BUFFER_SIZE)) by lia.
  cbn [rcheck mbind res_bind]. rewrite zlen_app, zlen_le_bytes, zlen_string_bytes.
  by rewrite (proj2 (Z.leb_le 10 _)) by lia.
Qed.

Lemma header_bytes_pos j : 0 < zlen (header_bytes j).
Proof. unfold header_bytes. rewrite zlen_app, zlen_le_bytes, zlen_string_bytes. lia. Qed.

Lemma writeHeader_ok h m j inc out sent :
  sendable h m j -> accepts out ->
  exists out', writeHeader json_dump u256_str h (mkConn inc out sent) =
    (Ok tt, mkConn inc out' (sent ++ header_bytes j)) /\ accepts out'.
Proof.
  intros Hs Ho. destruct (writeBytes_accepted (header_bytes j) out inc sent) as (out' & Hw & Ho');
    [done|apply header_bytes_pos|].
  exists out'. split; [|done]. unfold writeHeader, check. rewrite (proj1 Hs), (toBuffer_sendable h m j) by done.
  cbv beta iota delta [mbind M_bind mret M_ret lift_res]. done.
Qed.

Lemma readJsonHeader_ok h m j inc out sent rest :
  sendable h m j -> delivers inc (header_bytes j ++ rest) ->
  exists inc', readJsonHeader json_parse m (mkConn inc out sent) = (Ok j, mkConn inc' out sent) /\
    delivers inc' rest.
Proof.
  intros (_ & _ & Hp & Hl & Hb) Hd. unfold header_bytes in Hd. rewrite <- app_assoc in Hd.
  assert (MAX_BUFFER_SIZE < 2 ^ 64) by done.
  pose proof (zlen_string_bytes (json_dump j)) as Hz.
  set (n := Z.of_nat (String.length (json_dump j))) in *.
  destruct (readBytes_delivers 8 8 inc out sent _ _ Hd) as (inc1 & Hr1 & Hd1);
    [by rewrite zlen_le_bytes..|done|].
  destruct (readBytes_delivers n n inc1 out sent _ _ Hd1) as (inc2 & Hr2 & Hd2); [lia..|].
  exists inc2. split; [|done]. unfold readJsonHeader, readBuf, mkBuffer, check, nested, rcheck.
  cbv beta iota delta [mbind M_bind mret M_ret lift_res]. rewrite Hr1. cbn [rnested].
  assert (le_value (le_bytes 8 n) = n) as -> by (rewrite le_value_bytes; apply Z.mod_small; lia).
  rewrite (proj2 (Z.ltb_ge n 2)), (proj2 (Z.ltb_ge m n)), (proj2 (Z.leb_le n MAX_BUFFER_SIZE)) by lia.
  cbn [orb negb res_bind mbind]. rewrite (proj2 (Z.ltb_lt 0 n)), (proj2 (Z.leb_le n n)) by lia.
  rewrite Hr2. cbn [rnested]. by rewrite bytes_string_bytes, parse_dump.
Qed.

(** A complete header that is written to a connection arrives at the other
    end: whatever parts of it the system accepts in one [send] and delivers in
    one [recv], the writer succeeds and the reader gets exactly the fields of the
    header and leaves the bytes that follow it unread. *)
Theorem header_transfer h m j rest :
  sendable h m j ->
  exists bytes,
    (forall inc out sent, accepts out ->
      exists out', writeHeader json_dump u256_str h (mkConn inc out sent) =
        (Ok tt, mkConn inc out' (sent ++ bytes)) /\ accepts out') /\
    (forall inc out sent, delivers inc (bytes ++ rest) ->
      exists inc', readJsonHeader json_parse m (mkConn inc out sent) = (Ok j, mkConn inc' out sent) /\
        delivers inc' rest).
Proof.
  intros Hs. exists (header_bytes j). split; intros.
  - by apply (writeHeader_ok h m).
  - by apply (readJsonHeader_ok h m).
Qed.
End Transfer.

(** ** Witness *)
Definition demo_request : Header :=
  setComplete (newHeader "BlckCatchupReq" (BodyCatchupRequest 1 12 7)).

Definition demo_request_json : json :=
  addCatchupRequestFields 1 12 7 (addStatusFields demo_request {["type"%string := JStr "BlckCatchupReq"]}).

Lemma header_transfer_witness :
  exists bytes,
    (exists out', writeHeader demo_dump demo_str demo_request (mkConn [] [SendSome 3; SendSome 1] []) =
      (Ok tt, mkConn [] out' bytes)) /\
    (exists inc', readJsonHeader demo_json_parse MAX_HEADER_SIZE
       (mkConn [RecvChunk (take 5 bytes); RecvChunk (drop 5 bytes ++ [1])] [] []) =
       (Ok demo_request_json, mkConn inc' [] []) /\ delivers inc' [1]).
Proof.
  assert (sendable demo_str demo_dump demo_request MAX_HEADER_SIZE demo_request_json) as Hs.
  { split; [done|]. split; [done|]. split.
    - unfold demo_request_json, addCatchupRequestFields, addStatusFields.
      do 5 (apply json_plain_insert; [|by vm_compute]). apply json_plain_insert.
      + intros k v Hk. by rewrite lookup_empty in Hk.
      + unfold plain. cbn. repeat constructor.
    - vm_compute. repeat split; discriminate. }
  destruct (header_transfer demo_str demo_dump demo_json_parse demo_parse_dump demo_request MAX_HEADER_SIZE
    demo_request_json [1] Hs) as (bytes & Hw & Hr).
  destruct (Hw [] [SendSome 3; SendSome 1] []) as (out' & Hw' & _).
  { repeat constructor; [by exists 2%nat|by exists 0%nat]. }
  exists bytes. split; [by exists out'|]. apply Hr.
  assert (bytes = header_bytes demo_dump demo_request_json) as ->.
  { destruct (writeHeader_ok demo_str demo_dump demo_request _ _ [] [SendSome 3; SendSome 1] [] Hs) as (o & Ho & _).
    { repeat constructor; [by exists 2%nat|by exists 0%nat]. }
    rewrite Hw' in Ho. by injection Ho. }
  exists [take 5 (header_bytes demo_dump demo_request_json); drop 5 (header_bytes demo_dump demo_request_json) ++ [1]].
  split; [done|]. split.
  - repeat constructor; [vm_compute; discriminate|]. by intros [? ?]%app_eq_nil.
  - cbn [concat]. by rewrite app_nil_r, app_assoc, take_drop.
Defined.
