(* ===== verification/ProposalServer.v ===== *)
(** * The proposal server

    Model of [BlockProposalServerAgent]
    ([src/blockproposal/server/BlockProposalServerAgent.cpp]): it receives the
    proposals and the data availability proofs of the other nodes, fetches the
    transactions it does not know, and signs the availability of the proposals
    that it stores.  It works on the chain and on a connection; the proposals
    that are handed to [CryptoManager::signDAProof] are recorded in the order of
    the calls. *)

From stdpp Require Import base tactics gmap list strings.
From Stdlib Require Import ZArith Lia.
From S2P Require Import Prelude Bytes Messages LevelDb LevelDbSets ProposalVector ProtocolDbs.
From S2P Require Import Transactions Pricing PendingQueue Blocks BlockStore ProposalStore OtherDbs.
From S2P Require Import Schain Headers Tcp.

(** [Node::nodeInfosById] and [nodeInfosByIndex]: the index of a node and the
    node of an index. *)
Record node_infos := {
  ni_byId : gmap Z Z;
  ni_byIndex : gmap Z Z
}.

Record server {D : Type} := mkServer {
  sv_chain : schain D;
  sv_conn : connection;
  sv_signed : list BlockProposal
}.
Arguments server : clear implicits.
Arguments mkServer {D}.

Section Server.
Context {D : Type} `{KVStore D}.
Context (C : chain_config) (K : crypto) (nodes : node_infos).
(** [CryptoManager::signDAProof]: the share, the session signature, the session
    key and its signature. *)
Context (signer : BlockProposal -> res (string * string * string * string)).
Local Abbreviation state := (server D).

Definition on_chain {A} (c : M (schain D) A) : M state A :=
  zoom sv_chain (fun x s => mkServer x (sv_conn s) (sv_signed s)) c.

Definition on_conn {A} (c : M connection A) : M state A :=
  zoom sv_conn (fun x s => mkServer (sv_chain s) x (sv_signed s)) c.

Definition send (h : Header) : M state unit := on_conn (io_send (cr_json_dump K) (cr_u256_str K) h).

Definition signDAProof (p : BlockProposal) : M state (string * string * string * string) :=
  modify (fun s => mkServer (sv_chain s) (sv_conn s) (sv_signed s ++ [p])) ;;
  lift_res (signer p).

Definition getNodeInfoById (id : Z) : option Z := ni_byId nodes !! id.
Definition getNodeInfoByIndex (index : Z) : option Z := ni_byIndex nodes !! index.

(** An index up to the node count has node information. *)
Definition getNodeIDByIndex (index : Z) : res Z :=
  if cc_nodeCount C <? index then Err InvalidArgumentException
  else match getNodeInfoByIndex index with Some id => Ok id | None => Err InvalidStateException end.

Definition getCurrentTimeSec : M (schain D) Z :=
  ms ← getCurrentTimeMs;
  CHECK_STATE (ms / 1000 <? MODERN_TIME + 1000000000) ;;
  mret (ms / 1000).

(** [catch ( ... )] around [c]: [None] if it threw. *)
Definition attempt {A} (c : M state A) : M state (option A) :=
  fun s =>
    match c s with
    | (Ok a, s') => (Ok (Some a), s')
    | (Err OutOfFuel, s') => (Err OutOfFuel, s')
    | (Err _, s') => (Ok None, s')
    end.

(** [make_shared< vector< uint8_t > >( size )]. *)
Definition allocate (size : Z) : res unit := rcheck StdLengthError (size <? 2 ^ 63).

(** ** Reading a proposal *)
Definition readPartialHashes (txCount : Z) : M state PartialHashesList :=
  check NetworkProtocolException (txCount <=? cc_maxTransactionsPerBlock C) ;;
  bytes ←
    (if negb (txCount =? 0) then
       nested CouldNotReadPartialDataHashesException
         (on_conn (io_readBytes (txCount * PARTIAL_HASH_LEN) (u64 (txCount * PARTIAL_HASH_LEN))))
     else mret []);
  mret {| ph_transactionCount := txCount; ph_partialHashes := bytes |}.

(** The loop over the positions. *)
Fixpoint splitTransactions (phList : PartialHashesList) (positions : list Z) (present : gmap Z Transaction)
    (missing : gmap Z (list Z)) : M state (gmap Z Transaction * gmap Z (list Z)) :=
  match positions with
  | [] => mret (present, missing)
  | i :: positions =>
      hash ← lift_res (getPartialHash phList i);
      transaction ← on_chain (on_pending (getKnownTransactionByPartialHash hash));
      match transaction with
      | None => splitTransactions phList positions present (<[i := hash]> missing)
      | Some t => splitTransactions phList positions (<[i := t]> present) missing
      end
  end.

Definition getPresentAndMissingTransactions (phList : PartialHashesList) :
    M state (gmap Z Transaction * gmap Z (list Z)) :=
  splitTransactions phList (seqZ 0 (ph_transactionCount phList)) ∅ ∅.

(** The keys are compared by their bytes; a later transaction replaces an
    earlier one. *)
Definition indexTransactions (ts : list Transaction) : gmap (list Z) Transaction :=
  foldl (fun m t => <[tx_getPartialHash (cr_blake3 K) t := t]> m) ∅ ts.

Definition readMissingTransactions (response : json) : M state (gmap (list Z) Transaction) :=
  sizes ← lift_res (match response !! "sizes"%string with
                    | Some (JArr l) => Ok (map u64 l)
                    | _ => Err NetworkProtocolException
                    end);
  let totalSize := foldl (fun total size => u64 (total + size)) 2 sizes in
  lift_res (allocate totalSize) ;;
  bytes ← on_conn (fun c =>
            let '(r, c') := io_readBytes totalSize totalSize c in
            (match r with
             | Err ExitRequestedException => Err ExitRequestedException
             | Err _ => Err NetworkProtocolException
             | Ok l => Ok l
             end, c'));
  list ← lift_res (tl_deserialize (cr_blake3 K) sizes bytes 0 false);
  mret (indexTransactions (tl_transactions list)).

(** [pushKnownTransaction] for every item, in the order of the hash map. *)
Definition pushMissing (missing : gmap (list Z) Transaction) : M state unit :=
  mapM_ (fun kv => on_chain (on_pending (pushKnownTransaction (cr_blake3 K) kv.2))) (map_to_list missing).

Definition checkForOldBlock (blockID : Z) : M state unit :=
  last ← on_chain getLastCommittedBlockID;
  check OldBlockIDException (last <? blockID).

(** The loop that puts the transactions into the order of the proposal. *)
Fixpoint orderTransactions (blockID : Z) (phList : PartialHashesList) (positions : list Z)
    (present : gmap Z Transaction) (missing : gmap (list Z) Transaction) : M state (list Transaction) :=
  match positions with
  | [] => mret []
  | i :: positions =>
      partialHash ← lift_res (getPartialHash phList i);
      t ← match (match present !! i with Some t => Some t | None => missing !! partialHash end) with
          | Some t => mret t
          | None => checkForOldBlock blockID ;; throw InvalidStateException
          end;
      ts ← orderTransactions blockID phList positions present missing;
      mret (t :: ts)
  end.

(** [ReceivedBlockProposal]. *)
Definition mkReceivedBlockProposal (blockID proposerIndex : Z) (l : TransactionList) (stateRoot timeStamp
    timeStampMs : Z) (signature : string) : res BlockProposal :=
  nodeID ← getNodeIDByIndex proposerIndex;
  mkBlockProposal (cr_blake3 K) (cr_export_bits K) (cc_schainID C) nodeID blockID proposerIndex l stateRoot
    timeStamp timeStampMs signature None.

(** ** Answers *)
Definition answer (type : string) (status substatus : Z) : M state Header :=
  mret (setComplete (setStatusSubStatus status substatus (newHeader type BodyStatus))).

Definition createProposalResponseHeader (h : BlockProposalRequestHeader) : M state Header :=
  let respond := answer "BlckPrpslRsp" in
  let blockID := ar_blockID (pr_block h) in
  if negb (cc_schainID C =? ar_schainID (pr_block h))
  then respond CONNECTION_ERROR CONNECTION_ERROR_UNKNOWN_SCHAIN_ID
  else
    match getNodeInfoById (pr_proposerNodeID h) with
    | None => respond CONNECTION_ERROR CONNECTION_ERROR_DONT_KNOW_THIS_NODE
    | Some index =>
        if negb (index =? ar_proposerIndex (pr_block h))
        then respond CONNECTION_ERROR CONNECTION_ERROR_INVALID_NODE_INDEX
        else
          last ← on_chain getLastCommittedBlockID;
          if blockID <=? last then respond CONNECTION_DISCONNECT CONNECTION_BLOCK_PROPOSAL_TOO_LATE
          else
            tooEarly ←
              (if u64 (last + 1) <? blockID then mret true
               else
                 own ← on_chain (sc_getBlockProposal C K blockID (cc_schainIndex C));
                 mret (bool_decide (own = None)));
            if (tooEarly : bool)
            then respond CONNECTION_RETRY_LATER CONNECTION_BLOCK_PROPOSAL_IN_THE_FUTURE
            else
              enough ← on_chain (on_daProofDb (isEnoughProofs (cc_daProofCfg C) blockID));
              if (enough : bool)
              then respond CONNECTION_DISCONNECT CONNECTION_ALREADY_HAVE_ENOUGH_PROPOSALS_FOR_THIS_BLOCK_ID
              else
                own ← on_chain (sc_getBlockProposal C K blockID (cc_schainIndex C));
                match own with
                | None => respond CONNECTION_RETRY_LATER CONNECTION_BLOCK_PROPOSAL_IN_THE_FUTURE
                | Some own =>
                    if (1 <? blockID) && negb (pr_stateRoot h =? bp_stateRoot own)
                    then respond CONNECTION_ERROR CONNECTION_PROPOSAL_STATE_ROOT_DOES_NOT_MATCH
                    else if pr_timeStamp h <=? MODERN_TIME
                    then respond CONNECTION_ERROR CONNECTION_ERROR_TIME_LESS_THAN_MODERN_DAY
                    else
                      t ← on_chain getCurrentTimeSec;
                      if MODERN_TIME * 2 <? t
                      then respond CONNECTION_ERROR CONNECTION_ERROR_TIME_TOO_FAR_IN_THE_FUTURE
                      else
                        t ← on_chain getCurrentTimeSec;
                        if u64 (t + 1) <? pr_timeStamp h
                        then respond CONNECTION_ERROR CONNECTION_ERROR_TIME_STAMP_IN_THE_FUTURE
                        else
                          stamp ← on_chain getLastCommittedBlockTimeStamp;
                          if negb (TimeStamp_lt stamp {| ts_s := pr_timeStamp h; ts_ms := pr_timeStampMs h |})
                          then respond CONNECTION_DISCONNECT
                                 CONNECTION_ERROR_TIME_STAMP_EARLIER_THAN_COMMITTED
                          else
                            saved ← on_chain (on_hashDb (checkAndSaveHash (cc_hashCfg C) blockID
                              (ar_proposerIndex (pr_block h)) (pr_hash h)));
                            if negb (saved : bool)
                            then respond CONNECTION_DISCONNECT CONNECTION_DOUBLE_PROPOSAL
                            else respond CONNECTION_PROCEED CONNECTION_OK
                end
    end.

Definition createFinalResponseHeader (p : BlockProposal) : M state Header :=
  '(sigShare, signature, pubKey, pubKeySig) ← signDAProof p;
  h ← lift_res (mkFinalResponse sigShare signature pubKey pubKeySig);
  mret (setComplete (setStatusSubStatus CONNECTION_SUCCESS CONNECTION_OK h)).

(** ** Requests *)

(** The transactions of a proposal, known or fetched. *)
Definition collectTransactions (h : BlockProposalRequestHeader) : M state TransactionList :=
  phList ← nested NetworkProtocolException (readPartialHashes (pr_txCount h));
  '(present, missing) ← getPresentAndMissingTransactions phList;
  nested CouldNotSendMessageException
    (send (setComplete (newHeader "MsngTxsReq" (BodyMissingRequest (zsize missing))))) ;;
  fetched ←
    (if zsize missing =? 0 then mret ∅
     else
       nested CouldNotSendMessageException (on_conn (writePartialHashes missing)) ;;
       response ← on_conn (readJsonHeader (cr_json_parse K) MAX_HEADER_SIZE);
       fetched ← readMissingTransactions response;
       pushMissing fetched ;;
       mret fetched);
  transactions ← orderTransactions (ar_blockID (pr_block h)) phList (seqZ 0 (ph_transactionCount phList))
    present fetched;
  mret (mkTransactionList transactions).

Definition processProposalRequest (request : json) : M state (Z * Z) :=
  '(h, responseHeader) ← nested NetworkProtocolException
    (h ← lift_res (parseProposalRequest (cr_u256_parse K) request (cc_nodeCount C));
     responseHeader ← createProposalResponseHeader h;
     mret (h, responseHeader));
  nested NetworkProtocolException (send responseHeader) ;;
  if negb (hd_status responseHeader =? CONNECTION_PROCEED) then mret (getStatusSubStatus responseHeader)
  else
    transactionList ← collectTransactions h;
    CHECK_STATE (0 <? pr_timeStamp h) ;;
    proposal ← lift_res (mkReceivedBlockProposal (ar_blockID (pr_block h)) (ar_proposerIndex (pr_block h))
      transactionList (pr_stateRoot h) (pr_timeStamp h) (pr_timeStampMs h) (pr_signature h));
    finalResponseHeader ← nested NetworkProtocolException
      (verified ← attempt (lift_res (verifyProposalECDSA (cr_verifyECDSASig K) proposal (pr_hash h)
                    (pr_signature h)));
       match verified with
       | None => lift_res (mkFinalResponseError CONNECTION_ERROR CONNECTION_SIGNATURE_DID_NOT_VERIFY)
       | Some _ =>
           finalResponseHeader ← createFinalResponseHeader proposal;
           on_chain (proposedBlockArrived C K proposal) ;;
           mret finalResponseHeader
       end);
    send finalResponseHeader ;;
    mret (getStatusSubStatus finalResponseHeader).

Definition createDAProofResponseHeader (h : SubmitDAProofRequestHeader) : M state Header :=
  let respond := answer "DAPrfRsp" in
  let blockID := ar_blockID (dr_block h) in
  check InvalidSchainException (cc_schainID C =? ar_schainID (dr_block h)) ;;
  index ← match getNodeInfoById (dr_proposerNodeID h) with
          | Some index => mret index
          | None => throw InvalidNodeIDException
          end;
  check InvalidSchainIndexException (index =? ar_proposerIndex (dr_block h)) ;;
  last ← on_chain getLastCommittedBlockID;
  if blockID <=? last then respond CONNECTION_DISCONNECT CONNECTION_BLOCK_PROPOSAL_TOO_LATE
  else if u64 (last + 1) <? blockID
  then respond CONNECTION_RETRY_LATER CONNECTION_BLOCK_PROPOSAL_IN_THE_FUTURE
  else
    enough ← on_chain (on_daProofDb (isEnoughProofs (cc_daProofCfg C) blockID));
    if (enough : bool)
    then respond CONNECTION_DISCONNECT CONNECTION_ALREADY_HAVE_ENOUGH_PROPOSALS_FOR_THIS_BLOCK_ID
    else
      match fromHex (dr_blockHash h) with
      | Err _ => respond CONNECTION_DISCONNECT CONNECTION_INVALID_HASH
      | Ok blockHash =>
          verified ← attempt (lift_res (cr_verifyDAProofSig K blockHash (dr_thresholdSig h) blockID
                       (2 ^ 64 - 1)));
          match verified with
          | None => respond CONNECTION_DISCONNECT CONNECTION_SIGNATURE_DID_NOT_VERIFY
          | Some _ =>
              proposal ← on_chain (sc_getBlockProposal C K blockID (ar_proposerIndex (dr_block h)));
              match proposal with
              | None => respond CONNECTION_DISCONNECT CONNECTION_DONT_HAVE_PROPOSAL_FOR_THIS_DA_PROOF
              | Some p =>
                  if negb (bool_decide (toHex (bp_hash p) = dr_blockHash h))
                  then respond CONNECTION_DISCONNECT CONNECTION_INVALID_HASH
                  else
                    have ← on_chain (on_daProofDb (haveDAProof (cc_daProofCfg C) (bp_blockID p)
                      (bp_proposerIndex p)));
                    if (have : bool)
                    then respond CONNECTION_DISCONNECT CONNECTION_ALREADY_HAVE_DA_PROOF
                    else
                      on_chain (daProofArrived C
                        {| da_blockID := bp_blockID p; da_proposerIndex := bp_proposerIndex p;
                           da_hash := bp_hash p; da_thresholdSig := dr_thresholdSig h |}) ;;
                      respond CONNECTION_SUCCESS CONNECTION_OK
              end
          end
      end.

Definition processDAProofRequest (request : json) : M state unit :=
  responseHeader ← nested NetworkProtocolException
    (h ← lift_res (parseDAProofRequest request (cc_nodeCount C));
     createDAProofResponseHeader h);
  nested NetworkProtocolException (send responseHeader).

Definition processNextAvailableConnection : M state unit :=
  on_conn (fun c =>
    match readMagic c with
    | (Err PingException, c') => (Err PingException, c')
    | (r, c') => (rnested NetworkProtocolException r, c')
    end) ;;
  clientRequest ← nested CouldNotSendMessageException
    (on_conn (readJsonHeader (cr_json_parse K) MAX_HEADER_SIZE));
  type ← lift_res (getString clientRequest "type");
  CHECK_STATE (bool_decide (type <> ""%string)) ;;
  if bool_decide (c_str type = "BlckPrpslReq"%string)
  then processProposalRequest clientRequest ;; mret tt
  else if bool_decide (c_str type = "DAPrfReq"%string)
  then processDAProofRequest clientRequest
  else throw NetworkProtocolException.
End Server.
