(* ===== verification/ChainHashes.v ===== *)
(** * The writers of the hash database

    [ProposalHashDB] is the memory that keeps a node from accepting two proposals
    of one proposer.  This file shows that every operation of the chain writes at
    most one hash to it, and that such a write never replaces a hash: an entry
    stays as it is until the rotation of the database drops it. *)

From stdpp Require Import base tactics gmap list strings.
From Stdlib Require Import ZArith Lia.
From S2P Require Import Prelude Bytes Messages LevelDb LevelDbSets ProposalVector ProtocolDbs.
From S2P Require Import Transactions Pricing PendingQueue Blocks BlockStore ProposalStore OtherDbs.
From S2P Require Import Schain SchainTheorems.

(** ** Writers of the hash database *)
Section Once.
Context {D : Type} `{HealthyStore D}.
Implicit Types t : level_db D.

Definition hash_ok t : Prop := db_wf t /\ no_empty t.

(** Nothing happened, or one hash was written where there was none. *)
Definition written t t' : Prop :=
  t' = t \/ exists k v, v <> ""%string /\ first_value t t' k v.

Lemma written_keeps t t' k v :
  hash_ok t -> hash_ok t' -> written t t' -> entry t k = Some v -> is_Some (entry t' k) -> entry t' k = Some v.
Proof.
  intros [_ He] [_ He'] [->|(k' & v' & Hv' & _ & Hk' & s1 & Hr & Hl)] Hv Hs; [done|].
  destruct (decide (k = k')) as [->|Hne]; [by rewrite Hk', Hv|].
  rewrite entry_lookup in * by done. rewrite Hl in * by done.
  destruct (Hr k) as [->|[_ Hn]]; [done|]. rewrite Hn in Hs. by destruct Hs.
Qed.

Section Rules.
Context {S : Type} (f : S -> level_db D).

(** [c] writes at most one hash. *)
Definition once {A} (c : M S A) : Prop := forall s, hash_ok (f s) ->
  wp c s (fun _ s' => hash_ok (f s') /\ written (f s) (f s')).

Lemma once_keeps {A} (c : M S A) : keeps f c -> once c.
Proof. intros Hk s Hs. unfold wp. rewrite (Hk s). split; [done|by left]. Qed.

Lemma once_bind_l {A B} (c : M S A) (k : A -> M S B) : once c -> (forall a, keeps f (k a)) -> once (c ≫= k).
Proof.
  intros Hc Hk s Hs. rewrite wp_bind. eapply wp_mono; [by apply Hc|]. cbv beta.
  intros [a|e] s1 H1; [|done]. unfold wp. by rewrite (Hk a s1).
Qed.

Lemma once_bind_r {A B} (c : M S A) (k : A -> M S B) : keeps f c -> (forall a, once (k a)) -> once (c ≫= k).
Proof.
  intros Hc Hk s Hs. rewrite wp_bind. unfold wp at 1. pose proof (Hc s) as Heq.
  destruct (c s) as [[a|e] s1]; cbn [fst snd] in *; [|rewrite Heq; split; [done|by left]].
  rewrite <- Heq. apply Hk. by rewrite Heq.
Qed.

Lemma once_nested {A} e (c : M S A) : once c -> once (nested e c).
Proof. intros Hc s Hs. rewrite wp_nested. by apply Hc. Qed.

Lemma once_if {A} (b : bool) (c d : M S A) : once c -> once d -> once (if b then c else d).
Proof. by destruct b. Qed.

Lemma once_when b (c : M S unit) : once c -> once (when b c).
Proof. destruct b; [done|]. intros _. apply once_keeps, keeps_ret. Qed.

Lemma once_option {A X} (o : option X) (c : X -> M S A) d :
  (forall x, once (c x)) -> once d -> once (match o with Some x => c x | None => d end).
Proof. destruct o; auto. Qed.
End Rules.

Lemma once_checkAndSaveHash {S A} (f : S -> level_db D) (g : M (level_db D) A -> M S A)
    (c : M (level_db D) A) :
  (forall s, f (g c s).2 = (c (f s)).2) -> once id c -> once f (g c).
Proof.
  intros Hg Hc s Hs. unfold wp. rewrite Hg. exact (Hc (f s) Hs).
Qed.

Lemma checkAndSaveHash_once cfg b p h : once id (checkAndSaveHash (D := D) cfg b p h).
Proof.
  intros t Ht. destruct (decide (h = ""%string)) as [->|Hh].
  - unfold checkAndSaveHash. wp_simpl. rewrite bool_decide_eq_false_2 by (intros Hn; by apply Hn).
    split; [done|intros _; split; [done|by left]].
  - eapply wp_mono; [apply checkAndSaveHash_spec; [apply Ht|apply Ht|done]|]. cbv beta.
    intros r t' (He & Hf & _). split; [split; [apply Hf|done]|]. right. eauto.
Qed.
End Once.

(** ** The chain *)
Section ChainOnce.
Context {D : Type} `{HealthyStore D}.
Context (C : chain_config) (K : crypto).
Local Abbreviation state := (schain D).

Definition chain_hashes (s : state) : level_db D := st_hash (sc_stores s).

(** The own proposals whose availability was signed. *)
Definition own_signed (s : state) : list BlockProposal := co_daSigned (sc_output s).

(** What the chain remembers of its proposals. *)
Definition chain_memory (s : state) : level_db D * list BlockProposal := (chain_hashes s, own_signed s).

Lemma memory_hashes {A} (c : M state A) : keeps chain_memory c -> keeps chain_hashes c.
Proof. intros Hc s. exact (f_equal fst (Hc s)). Qed.

Lemma memory_signed {A} (c : M state A) : keeps chain_memory c -> keeps own_signed c.
Proof. intros Hc s. exact (f_equal snd (Hc s)). Qed.

Lemma on_output_memory (g : chain_output -> chain_output) :
  (forall o, co_daSigned (g o) = co_daSigned o) -> keeps chain_memory (on_output (modify g)).
Proof. intros Hg s. unfold chain_memory, own_signed. cbn. by rewrite Hg. Qed.

Local Hint Resolve checkForExit_keeps getCurrentTimeMs_keeps memory_hashes memory_signed on_output_memory : frame.

Lemma startConsensus_hashes b v : keeps chain_memory (startConsensus b v).
Proof.
  unfold startConsensus, postMessage, setStatus, on_status, getLastCommittedBlockID. keeps_auto.
Qed.
Local Hint Resolve startConsensus_hashes : frame.

Lemma daProofArrived_hashes p : keeps chain_memory (daProofArrived C p).
Proof.
  unfold daProofArrived, tryStartingConsensus, getLastCommittedBlockID, on_daProofDb, on_vectorDb, on_stores.
  keeps_auto.
Qed.
Local Hint Resolve daProofArrived_hashes : frame.

Lemma daProofSigShareArrived_hashes x p : keeps chain_memory (daProofSigShareArrived C K x p).
Proof. unfold daProofSigShareArrived, on_daSigDb, on_stores, enqueueItem. keeps_auto. Qed.

Lemma proposedBlockArrived_hashes p : keeps chain_memory (proposedBlockArrived C K p).
Proof. unfold proposedBlockArrived, getLastCommittedBlockID, on_proposalDb, on_stores. keeps_auto. Qed.

Lemma waitUntilAfter_hashes n fuel : keeps chain_memory (waitUntilAfter n fuel).
Proof. induction fuel as [|fuel IH]; cbn [waitUntilAfter]; keeps_auto. Qed.
Local Hint Resolve daProofSigShareArrived_hashes proposedBlockArrived_hashes waitUntilAfter_hashes : frame.

Lemma buildBlockProposal_hashes b t c : keeps chain_memory (buildBlockProposal C K b t c).
Proof.
  unfold buildBlockProposal, next_polls, on_world, on_pending, on_stores. keeps_auto.
  all: destruct x; keeps_auto.
Qed.
Local Hint Resolve buildBlockProposal_hashes : frame.

Lemma mapM_keeps {S A X} (f : S -> X) (c : A -> M S unit) l : (forall a, keeps f (c a)) -> keeps f (mapM_ c l).
Proof. intros Hc. induction l as [|a l IH]; cbn [mapM_]; [apply keeps_ret|]. by apply keeps_bind. Qed.

Lemma processCommittedBlock_hashes b : keeps chain_memory (processCommittedBlock C K b).
Proof.
  unfold processCommittedBlock, printBlockLog, sc_saveBlock, sc_cleanupUnneededMemoryBeforePushingToEvm,
    pushBlockToExtFace, createBlock, extFace_createBlock, checkForExitOnBlockBoundaryAndExitIfNeeded,
    isExitRequested, updateLastCommittedBlockInfo, analyzeErrors, getRandomForBlockId, sc_getBlock, setStatus,
    getLastCommittedBlockID, on_info, on_status, on_blockDb, on_priceDb, on_proposalDb, on_pending,
    on_world, on_stores.
  repeat first [apply mapM_keeps; intros ?|progress keeps_auto].
Qed.
Local Hint Resolve processCommittedBlock_hashes : frame.

Lemma commitListed_hashes blocks : keeps chain_memory (commitListed C K blocks).
Proof.
  induction blocks as [|b blocks IH]; cbn [commitListed]; [apply keeps_ret|].
  unfold getLastCommittedBlockID, getLastCommittedBlockTimeStamp. keeps_auto.
Qed.
Local Hint Resolve commitListed_hashes : frame.

Lemma hashDb_once b i h : once chain_hashes (on_hashDb (checkAndSaveHash (D := D) (cc_hashCfg C) b i h)).
Proof.
  apply (once_checkAndSaveHash chain_hashes on_hashDb); [|apply checkAndSaveHash_once].
  intros s. unfold on_hashDb, on_stores, zoom, chain_hashes. by destruct (checkAndSaveHash _ _ _ _ _).
Qed.

Lemma find_key_keeps {X} (f : level_db D -> X) shards k : keeps f (find_key shards k).
Proof.
  induction shards as [|i shards IH]; cbn [find_key]; [apply keeps_ret|].
  apply keeps_bind; [|intros d; apply keeps_bind; [|intros o; keeps_auto; apply IH]].
  - unfold db_at. keeps_auto.
  - unfold throwExceptionOnError. destruct (kv_get d k); keeps_auto.
Qed.


Lemma readString_keeps {X} (f : level_db D -> X) k : keeps f (readString k).
Proof.
  unfold readString, readStringUnsafe. apply keeps_bind; [apply find_key_keeps|intros; apply keeps_ret].
Qed.
Local Hint Resolve readString_keeps : frame.

Lemma zoom_reads {S T A} (getf : S -> T) setf (c : M T A) :
  (forall s, setf (getf s) s = s) -> keeps id c -> keeps id (zoom getf setf c).
Proof.
  intros Hs Hc s. unfold zoom. pose proof (Hc (getf s)) as Heq. destruct (c (getf s)) as [r t].
  cbn [snd id] in *. subst t. apply Hs.
Qed.

Lemma reads_keeps {S A X} (f : S -> X) (c : M S A) : keeps id c -> keeps f c.
Proof. intros Hc s. f_equal. apply Hc. Qed.

Lemma haveProposal_reads cfg b i : keeps id (haveProposal (D := D) cfg b i).
Proof. unfold haveProposal. keeps_auto. Qed.

Lemma on_hashDb_reads {A} (c : M (level_db D) A) : keeps id c -> keeps id (on_hashDb c).
Proof.
  intros Hc. unfold on_hashDb, on_stores. apply zoom_reads; [by intros []|]. apply zoom_reads; [by intros []|done].
Qed.

Lemma haveProposal_hashes b i : keeps chain_hashes (on_hashDb (haveProposal (cc_hashCfg C) b i)).
Proof. apply reads_keeps, on_hashDb_reads, haveProposal_reads. Qed.
Local Hint Resolve haveProposal_hashes : frame.

(** One writer, before and after it only readers. *)
Ltac once_step :=
  first
    [ solve [apply once_keeps; keeps_auto] | apply hashDb_once
    | apply once_nested | apply once_when | apply once_option; [intros ?|] | apply once_if
    | apply once_bind_l; [|intros ?; solve [keeps_auto]]
    | apply once_bind_r; [solve [keeps_auto]|intros ?] ].

Lemma proposeNextBlock_once c : once chain_hashes (proposeNextBlock C K c).
Proof.
  unfold proposeNextBlock, getLastCommittedBlockID, getLastCommittedBlockTimeStamp, on_proposalDb, enqueueItem,
    on_output. repeat once_step.
  all: unfold on_stores. all: repeat once_step.
Qed.

Lemma blockCommitArrived_once b i t d : once chain_hashes (blockCommitArrived C K b i t d).
Proof.
  unfold blockCommitArrived, getLastCommittedBlockID, getLastCommittedBlockTimeStamp, sc_getBlockProposal,
    createDefaultEmptyBlockProposal, getLastCommittedBlockTimeStamp, on_proposalDb, on_stores.
  repeat first [apply proposeNextBlock_once|once_step].
Qed.

Lemma run_op_once o : once chain_hashes (run_op C K o).
Proof.
  destruct o; cbn [run_op].
  - unfold finalizeDecidedAndSignedBlock, getLastCommittedBlockID, sc_getBlockProposal, on_proposalDb,
      on_daProofDb, on_stores, next_download, on_world.
    repeat first [apply blockCommitArrived_once|once_step].
    apply once_bind_r; [keeps_auto; match goal with p : (BlockProposal * _)%type |- _ => destruct p end; keeps_auto|intros ?].
    repeat first [apply blockCommitArrived_once|once_step].
  - apply once_bind_l; [|intros; apply keeps_ret]. unfold blockCommitsArrivedThroughCatchup.
    destruct blocks as [|b blocks]; [apply once_keeps, keeps_ret|]. unfold getLastCommittedBlockID.
    repeat first [apply proposeNextBlock_once|once_step].
  - apply once_keeps, memory_hashes, proposedBlockArrived_hashes.
  - apply once_keeps, memory_hashes, daProofArrived_hashes.
  - apply once_keeps, memory_hashes, daProofSigShareArrived_hashes.
  - apply once_keeps. unfold blockProposalReceiptTimeoutArrived, tryStartingConsensus, getLastCommittedBlockID,
      on_daProofDb, on_vectorDb, on_stores. keeps_auto.
  - apply once_keeps. unfold addBlockErrorAnalyzer, on_status. keeps_auto.
Qed.

(** ** The own signatures *)

(** The availability of a proposal is signed by the chain only if it is the node's
    own. *)
Definition owns {A} (c : M state A) : Prop := forall s,
  Forall (fun p => bp_proposerIndex p = cc_schainIndex C) (own_signed s) ->
  Forall (fun p => bp_proposerIndex p = cc_schainIndex C) (own_signed (c s).2).

Lemma owns_keeps {A} (c : M state A) : keeps own_signed c -> owns c.
Proof. intros Hk s. by rewrite (Hk s). Qed.

Lemma owns_bind {A B} (c : M state A) (k : A -> M state B) : owns c -> (forall a, owns (k a)) -> owns (c ≫= k).
Proof.
  intros Hc Hk s Hs. rewrite mbind_run. specialize (Hc s Hs). destruct (c s) as [[a|e] s1]; [by apply Hk|done].
Qed.

Lemma owns_check {B} e b (k : unit -> M state B) : (b = true -> owns (k tt)) -> owns (check e b ≫= k).
Proof. intros Hk s Hs. rewrite mbind_run. destruct b; [by apply Hk|done]. Qed.

Lemma owns_nested {A} e (c : M state A) : owns c -> owns (nested e c).
Proof. intros Hc s Hs. specialize (Hc s Hs). unfold nested. by destruct (c s) as [[a|[]] s1]. Qed.

Lemma owns_if {A} (b : bool) (c d : M state A) : owns c -> owns d -> owns (if b then c else d).
Proof. by destruct b. Qed.

Lemma owns_when b (c : M state unit) : owns c -> owns (when b c).
Proof. destruct b; [done|]. intros _. apply owns_keeps, keeps_ret. Qed.

Lemma owns_option {A X} (o : option X) (c : X -> M state A) d :
  (forall x, owns (c x)) -> owns d -> owns (match o with Some x => c x | None => d end).
Proof. destruct o; auto. Qed.

Lemma owns_sign p : bp_proposerIndex p = cc_schainIndex C -> owns (signOwnDAProof K p).
Proof.
  intros Hp. apply owns_bind; [|intros; apply owns_keeps, keeps_lift]. intros s Hs. unfold own_signed in *. cbn.
  apply Forall_app. split; [done|]. by apply Forall_singleton.
Qed.

Ltac owns_step :=
  first
    [ solve [apply owns_keeps; keeps_auto] | apply owns_sign; solve [lia]
    | apply owns_nested | apply owns_when | apply owns_option; [intros ?|] | apply owns_if
    | apply owns_check; intros ? | apply owns_bind; [|intros ?] ].

Lemma proposeNextBlock_owns c : owns (proposeNextBlock C K c).
Proof.
  unfold proposeNextBlock, getLastCommittedBlockID, getLastCommittedBlockTimeStamp, on_proposalDb, on_stores, enqueueItem.
  repeat owns_step.
Qed.

Lemma blockCommitArrived_owns b i t d : owns (blockCommitArrived C K b i t d).
Proof.
  unfold blockCommitArrived, getLastCommittedBlockID, getLastCommittedBlockTimeStamp, sc_getBlockProposal,
    createDefaultEmptyBlockProposal, getLastCommittedBlockTimeStamp, on_proposalDb, on_stores.
  repeat first [apply proposeNextBlock_owns|owns_step].
Qed.

Lemma run_op_owns o : owns (run_op C K o).
Proof.
  destruct o; cbn [run_op].
  - unfold finalizeDecidedAndSignedBlock, getLastCommittedBlockID, sc_getBlockProposal, on_proposalDb,
      on_daProofDb, on_stores, next_download, on_world.
    repeat first [apply blockCommitArrived_owns|owns_step].
    match goal with p : (BlockProposal * _)%type |- _ => destruct p end. repeat owns_step.
  - apply owns_bind; [|intros; apply owns_keeps, keeps_ret]. unfold blockCommitsArrivedThroughCatchup.
    destruct blocks as [|b blocks]; [apply owns_keeps, keeps_ret|]. unfold getLastCommittedBlockID.
    repeat first [apply proposeNextBlock_owns|owns_step].
  - apply owns_keeps, memory_signed, proposedBlockArrived_hashes.
  - apply owns_keeps, memory_signed, daProofArrived_hashes.
  - apply owns_keeps, memory_signed, daProofSigShareArrived_hashes.
  - apply owns_keeps. unfold blockProposalReceiptTimeoutArrived, tryStartingConsensus, getLastCommittedBlockID,
      on_daProofDb, on_vectorDb, on_stores. keeps_auto.
  - apply owns_keeps. unfold addBlockErrorAnalyzer, on_status. keeps_auto.
Qed.
End ChainOnce.

