(* ===== verification/ProposalSafety.v ===== *)
(** * Safety of data availability signing

    What the proposal server signs, over every run of the server and of the chain
    below it, every behaviour of the peers and every exception: only proposals
    that pass all its checks, and at most one hash for a block and a proposer as
    long as the saved hashes are not rotated away.  With two thirds of the nodes
    behind every data availability proof this makes the proven proposal of a
    proposer unique in the network. *)

From stdpp Require Import base tactics gmap list strings.
From Stdlib Require Import ZArith Lia.
From S2P Require Import Prelude Bytes Messages LruCache LevelDb LevelDbSets ProposalVector ProtocolDbs.
From S2P Require Import Transactions Pricing PendingQueue Blocks BlockStore ProposalStore OtherDbs.
From S2P Require Import Schain SchainTheorems ChainHashes Headers Tcp ProposalServer.

(** ** The server *)
Section Server.
Context {D : Type} `{HealthyStore D}.
Context (C : chain_config) (K : crypto) (nodes : node_infos).
Context (signer : BlockProposal -> res (string * string * string * string)).
Local Abbreviation state := (server D).
Implicit Types (s : state) (p : BlockProposal).

Definition hashes s : level_db D := chain_hashes (sv_chain s).

Definition server_last s : Z := ci_lastCommittedBlockID (sc_info (sv_chain s)).

Definition server_stamp s : TimeStamp := ci_lastCommittedBlockTimeStamp (sc_info (sv_chain s)).

(** What the proposals, the clock and the node table say about a header. *)
Record header_ok s (h : BlockProposalRequestHeader) : Prop := {
  ho_chain : ar_schainID (pr_block h) = cc_schainID C;
  ho_proposer : ni_byId nodes !! pr_proposerNodeID h = Some (ar_proposerIndex (pr_block h));
  ho_next : server_last s < ar_blockID (pr_block h) <= u64 (server_last s + 1);
  ho_root : exists own,
    (sc_getBlockProposal C K (ar_blockID (pr_block h)) (cc_schainIndex C) (sv_chain s)).1 = Ok (Some own) /\
    (1 < ar_blockID (pr_block h) -> pr_stateRoot h = bp_stateRoot own);
  ho_modern : MODERN_TIME < pr_timeStamp h;
  ho_clock : exists ms, ms ∈ 0 :: wd_times (sc_world (sv_chain s)) /\ pr_timeStamp h <= u64 (ms / 1000 + 1);
  ho_later : TimeStamp_lt (server_stamp s) {| ts_s := pr_timeStamp h; ts_ms := pr_timeStampMs h |} = true
}.

Definition proposal_key (b i : Z) : string := createKey2 (cc_hashCfg C) b i.

(** The parts that the checks read are not changed by the reads. *)
Lemma sc_getBlockProposal_reads b i : keeps id (sc_getBlockProposal (D := D) C K b i).
Proof.
  unfold sc_getBlockProposal, on_proposalDb, on_stores. apply zoom_reads; [by intros []|].
  apply zoom_reads; [by intros []|]. unfold getBlockProposal, cache_at, getStoredProposal, getMyProposalFromLevelDB,
    on_pdb, readStringFromSet.
  repeat first [apply zoom_reads; [by intros []|apply readString_keeps]|keeps_step].
Qed.

Lemma isEnoughProofs_reads b : keeps id (on_daProofDb (D := D) (isEnoughProofs (cc_daProofCfg C) b)).
Proof.
  unfold on_daProofDb, on_stores. apply zoom_reads; [by intros []|]. apply zoom_reads; [by intros []|].
  unfold isEnoughProofs, isEnough, readCount.
  apply keeps_bind; [apply keeps_bind; [apply readString_keeps|]|intros; apply keeps_ret].
  intros x. apply keeps_if; [apply keeps_ret|]. destruct (stoull x); apply keeps_ret.
Qed.

Lemma wp_reads {S A} (c : M S A) (x : S) (Q : res A -> S -> Prop) : keeps id c -> Q (c x).1 x -> wp c x Q.
Proof. intros Hc HQ. unfold wp. pose proof (Hc x) as He. unfold id in He. by rewrite He. Qed.

Lemma wp_chain {A} (c : M (schain D) A) s (Q : res A -> state -> Prop) :
  wp c (sv_chain s) (fun r ch => Q r (mkServer ch (sv_conn s) (sv_signed s))) -> wp (on_chain c) s Q.
Proof. unfold on_chain. by rewrite wp_zoom. Qed.

Lemma wp_chain_reads {A} (c : M (schain D) A) s (Q : res A -> state -> Prop) :
  keeps id c -> Q (c (sv_chain s)).1 s -> wp (on_chain c) s Q.
Proof. intros Hc HQ. apply wp_chain, wp_reads; [done|]. by destruct s. Qed.

(** The chain with another world. *)
Definition at_world (s : state) (w : world) : state :=
  let ch := sv_chain s in
  mkServer (mkSchain (sc_info ch) (sc_status ch) (sc_stores ch) (sc_output ch) w) (sv_conn s) (sv_signed s).

Lemma getCurrentTimeSec_spec s (Q : res Z -> state -> Prop) :
  (forall ms w, ms ∈ 0 :: wd_times (sc_world (sv_chain s)) ->
     wd_times w ⊆ wd_times (sc_world (sv_chain s)) -> Q (Ok (ms / 1000)) (at_world s w)) ->
  (forall w e, Q (Err e) (at_world s w)) ->
  wp (on_chain getCurrentTimeSec) s Q.
Proof.
  intros Hok Herr. apply wp_chain. unfold getCurrentTimeSec, getCurrentTimeMs, on_world. wp_simpl. rewrite wp_zoom.
  wp_simpl. destruct (wd_times (sc_world (sv_chain s))) as [|t [|t' ts]] eqn:Et; wp_simpl;
    split; intros _; first [apply (Herr (sc_world (sv_chain s)))|apply (Hok _ (sc_world (sv_chain s)))
      |apply (Herr (mkWorld _ _ _ _ _))|apply (Hok _ (mkWorld _ _ _ _ _))];
    cbn [wd_times]; rewrite ?Et; set_solver.
Qed.

Lemma checkHash_spec b i h s (Q : res bool -> state -> Prop) :
  hash_ok (hashes s) ->
  (forall r t, hash_ok t -> written (hashes s) t ->
     (r = Ok true -> entry t (proposal_key b i) = Some h) ->
     Q r (mkServer (on_hashDb (put t) (sv_chain s)).2 (sv_conn s) (sv_signed s))) ->
  wp (on_chain (on_hashDb (checkAndSaveHash (cc_hashCfg C) b i h))) s Q.
Proof.
  intros Hs HQ. apply wp_chain. unfold on_hashDb, on_stores. rewrite !wp_zoom.
  change (st_hash (sc_stores (sv_chain s))) with (hashes s).
  pose proof (checkAndSaveHash_once (cc_hashCfg C) b i h (hashes s) Hs) as Ho.
  destruct (decide (h = ""%string)) as [->|Hh].
  - unfold checkAndSaveHash. wp_simpl. rewrite bool_decide_eq_false_2 by (intros Hn; by apply Hn).
    split; [done|intros _]. apply HQ; [done|by left|done].
  - eapply wp_mono; [apply wp_and; [exact Ho|apply checkAndSaveHash_spec; [apply Hs|apply Hs|exact Hh]]|]. cbv beta.
    intros r t ([Hok Hw] & _ & (_ & He & _) & Hr). apply HQ; [done|done|]. intros ->. injection Hr as Hr.
    unfold proposal_key. rewrite He. destruct (entry (hashes s) (createKey2 (cc_hashCfg C) b i)) as [h'|]; [|done].
    symmetry in Hr. apply bool_decide_eq_true_1 in Hr as ->. done.
Qed.

(** The own proposals that the chain has signed. *)
Definition server_own s : list BlockProposal := own_signed (sv_chain s).

(** The outcome of the checks of a header. *)
Definition answered s (h : BlockProposalRequestHeader) (r : res Header) s' : Prop :=
  sv_signed s' = sv_signed s /\ (sc_info (sv_chain s'), server_own s') = (sc_info (sv_chain s), server_own s) /\
  hash_ok (hashes s') /\ written (hashes s) (hashes s') /\
  forall hd, r = Ok hd -> hd_status hd = CONNECTION_PROCEED ->
    header_ok s h /\ entry (hashes s') (proposal_key (ar_blockID (pr_block h)) (ar_proposerIndex (pr_block h))) =
      Some (pr_hash h).

Lemma answered_error s h e w : hash_ok (hashes s) -> answered s h (Err e) (at_world s w).
Proof. intros Hs. split_and!; try done. by left. Qed.

Lemma answered_reject s h type st sub w :
  hash_ok (hashes s) -> st <> CONNECTION_PROCEED -> wp (answer type st sub) (at_world s w) (answered s h).
Proof.
  intros Hs Hst. unfold answer. wp_simpl. split_and!; try done; [by left|]. intros hd [= <-] Hp. by destruct Hst.
Qed.

Lemma createProposalResponseHeader_spec h s :
  hash_ok (hashes s) -> wp (createProposalResponseHeader C K nodes h) s (answered s h).
Proof.
  intros Hs. pose proof (fun st sub => answered_reject s h "BlckPrpslRsp" st sub (sc_world (sv_chain s)) Hs) as Hrej.
  pose proof (fun e => answered_error s h e (sc_world (sv_chain s)) Hs) as Herr.
  assert (at_world s (sc_world (sv_chain s)) = s) as Hsame by (by destruct s as [[] ? ?]).
  rewrite Hsame in Hrej, Herr. clear Hsame.
  unfold createProposalResponseHeader.
  destruct (Z.eqb_spec (cc_schainID C) (ar_schainID (pr_block h))) as [Hchain|]; [|by apply Hrej].
  cbn [negb]. unfold getNodeInfoById.
  destruct (ni_byId nodes !! pr_proposerNodeID h) as [index|] eqn:Hid; [|by apply Hrej].
  destruct (Z.eqb_spec index (ar_proposerIndex (pr_block h))) as [->|]; [|by apply Hrej]. cbn [negb].
  rewrite wp_bind. apply wp_chain_reads; [apply keeps_gets|].
  unfold getLastCommittedBlockID, gets. cbn [fst]. fold (server_last s).
  destruct (Z.leb_spec (ar_blockID (pr_block h)) (server_last s)); [by apply Hrej|].
  rewrite wp_bind.
  destruct (Z.ltb_spec (u64 (server_last s + 1)) (ar_blockID (pr_block h))); [wp_simpl; by apply Hrej|].
  rewrite wp_bind. apply wp_chain_reads; [apply sc_getBlockProposal_reads|].
  destruct (sc_getBlockProposal C K (ar_blockID (pr_block h)) (cc_schainIndex C) (sv_chain s)).1
    as [o|e] eqn:Hown; [|apply Herr]. rewrite wp_ret.
  case_bool_decide as Ho; [by apply Hrej|].
  rewrite wp_bind. apply wp_chain_reads; [apply isEnoughProofs_reads|].
  destruct (on_daProofDb (isEnoughProofs (cc_daProofCfg C) (ar_blockID (pr_block h))) (sv_chain s)).1
    as [[]|]; [by apply Hrej| |apply Herr].
  rewrite wp_bind. apply wp_chain_reads; [apply sc_getBlockProposal_reads|]. rewrite Hown.
  destruct o as [own|]; [|by apply Hrej].
  destruct ((1 <? ar_blockID (pr_block h)) && negb (pr_stateRoot h =? bp_stateRoot own)) eqn:Hroot; [by apply Hrej|].
  destruct (Z.leb_spec (pr_timeStamp h) MODERN_TIME); [by apply Hrej|].
  rewrite wp_bind. apply getCurrentTimeSec_spec; [|intros; by apply answered_error].
  intros ms w Hms Hw. destruct (Z.ltb_spec (MODERN_TIME * 2) (ms / 1000)); [by apply answered_reject|].
  rewrite wp_bind. apply getCurrentTimeSec_spec; [|intros w' e; exact (answered_error s h e w' Hs)].
  intros ms' w' Hms' Hw'. change (at_world (at_world s w) w') with (at_world s w').
  destruct (Z.ltb_spec (u64 (ms' / 1000 + 1)) (pr_timeStamp h)) as [|Hclock]; [by apply answered_reject|].
  rewrite wp_bind. apply wp_chain_reads; [apply keeps_gets|].
  unfold getLastCommittedBlockTimeStamp, gets. cbn [fst].
  change (ci_lastCommittedBlockTimeStamp (sc_info (sv_chain (at_world s w')))) with (server_stamp s).
  destruct (TimeStamp_lt (server_stamp s) _) eqn:Hlater; [|by apply answered_reject]. cbn [negb].
  rewrite wp_bind. apply checkHash_spec; [done|]. intros r t Ht Hwr Hentry.
  assert (header_ok s h) as Hok.
  { constructor; try done.
    - exists own. split; [done|]. intros Hb. apply andb_false_iff in Hroot as [Hr|Hr]; [lia|].
      apply negb_false_iff in Hr. by apply Z.eqb_eq.
    - exists ms'. split; [|done]. change (wd_times (sc_world (sv_chain (at_world s w)))) with (wd_times w) in Hms'.
      set_solver. }
  destruct r as [[]|e]; [| |split_and!; done]; cbn [negb]; unfold answer; wp_simpl; split_and!; try done.
  - intros hd _ _. split; [done|]. by apply Hentry.
  - intros hd [= <-] [=].
Qed.

(** ** Fetching the transactions *)

(** What the signing depends on. *)
Definition view s : level_db D * list BlockProposal * (chain_info * list BlockProposal) :=
  (hashes s, sv_signed s, (sc_info (sv_chain s), server_own s)).

Lemma on_chain_view {A} (c : M (schain D) A) :
  keeps (fun ch => (chain_hashes ch, sc_info ch, own_signed ch)) c -> keeps view (on_chain c).
Proof.
  intros Hc s. unfold on_chain, zoom, view, hashes, server_own. specialize (Hc (sv_chain s)).
  destruct (c (sv_chain s)) as [r ch]. cbn in *. congruence.
Qed.

Lemma on_conn_view {A} (c : M connection A) : keeps view (on_conn c).
Proof. apply keeps_zoom. intros; done. Qed.

Lemma on_pending_view {A} (c : M pending_queue A) : keeps view (on_chain (on_pending c)).
Proof. apply on_chain_view. unfold on_pending, on_stores. apply keeps_zoom2. intros; done. Qed.

Lemma getLast_view : keeps view (on_chain getLastCommittedBlockID).
Proof. apply on_chain_view, keeps_gets. Qed.

Local Hint Resolve on_conn_view on_pending_view getLast_view : frame.

Lemma splitTransactions_view l positions present missing :
  keeps view (splitTransactions (D := D) l positions present missing).
Proof.
  revert present missing.
  induction positions as [|i positions IH]; intros present missing; cbn [splitTransactions]; [apply keeps_ret|].
  keeps_auto; apply IH.
Qed.
Local Hint Resolve splitTransactions_view : frame.

Lemma orderTransactions_view b l positions present missing :
  keeps view (orderTransactions (D := D) b l positions present missing).
Proof.
  induction positions as [|i positions IH]; cbn [orderTransactions]; [apply keeps_ret|].
  unfold checkForOldBlock. keeps_auto.
Qed.
Local Hint Resolve orderTransactions_view : frame.

Lemma collectTransactions_view h : keeps view (collectTransactions (D := D) C K h).
Proof.
  unfold collectTransactions, readPartialHashes, getPresentAndMissingTransactions, send, readMissingTransactions,
    pushMissing.
  repeat first [apply mapM_keeps; intros ?|progress keeps_auto].
  destruct a0 as [present missing].
  repeat first [apply mapM_keeps; intros ?|progress keeps_auto].
Qed.

Lemma proposedBlockArrived_view p : keeps view (on_chain (proposedBlockArrived C K p)).
Proof.
  apply on_chain_view. unfold proposedBlockArrived, getLastCommittedBlockID, on_proposalDb, on_stores. keeps_auto.
Qed.

Lemma daProofArrived_view x : keeps view (on_chain (daProofArrived C x)).
Proof.
  apply on_chain_view. intros ch. pose proof (daProofArrived_hashes C x ch) as [= Hh Hn].
  pose proof (daProofArrived_keeps C x ch) as [= Hi _ _ _]. by rewrite Hh, Hi, Hn.
Qed.

(** ** Signing *)

(** What holds for a proposal that is signed, in the state in which its request
    arrived. *)
Record admissible s p : Prop := {
  ad_chain : bp_schainID p = cc_schainID C;
  ad_member : exists id, ni_byId nodes !! id = Some (bp_proposerIndex p);
  ad_node : ni_byIndex nodes !! bp_proposerIndex p = Some (bp_proposerNodeID p);
  ad_next : server_last s < bp_blockID p <= u64 (server_last s + 1);
  ad_root : exists own,
    (sc_getBlockProposal C K (bp_blockID p) (cc_schainIndex C) (sv_chain s)).1 = Ok (Some own) /\
    (1 < bp_blockID p -> bp_stateRoot p = bp_stateRoot own);
  ad_modern : MODERN_TIME < bp_timeStamp p;
  ad_clock : exists ms, ms ∈ 0 :: wd_times (sc_world (sv_chain s)) /\ bp_timeStamp p <= u64 (ms / 1000 + 1);
  ad_later : TimeStamp_lt (server_stamp s) (getTimeStamp p) = true;
  ad_hash : bp_calculateHash (cr_blake3 K) (cr_export_bits K) (bp_proposerIndex p) (bp_proposerNodeID p)
    (bp_schainID p) (bp_blockID p) (bp_timeStamp p) (bp_timeStampMs p) (bp_stateRoot p) (bp_transactionList p) =
    Ok (bp_hash p);
  ad_signature : cr_verifyECDSASig K (bp_hash p) (bp_signature p) (bp_proposerNodeID p) (bp_timeStamp p) = Ok tt
}.

(** The outcome of serving a connection. *)
Definition served s s' : Prop :=
  server_own s' = server_own s /\ hash_ok (hashes s') /\ written (hashes s) (hashes s') /\
  (sv_signed s' = sv_signed s \/
   exists p, sv_signed s' = sv_signed s ++ [p] /\ admissible s p /\
     entry (hashes s') (proposal_key (bp_blockID p) (bp_proposerIndex p)) = Some (toHex (bp_hash p))).

Lemma served_view s s' : hash_ok (hashes s) -> view s' = view s -> served s s'.
Proof. intros Hs [= Hh Hg _ Ho]. rewrite <- Hh in Hs. split_and!; [done|done|by left|by left]. Qed.

Lemma served_answered s h r s1 s2 :
  answered s h r s1 -> view s2 = view s1 -> served s s2.
Proof. intros (Hg & [= _ Hn] & Ho & Hw & _) [= Hh Hg2 _ Hn2]. unfold served. rewrite Hh, Hg2, Hn2. auto. Qed.

Lemma parseProposalRequest_index j h :
  parseProposalRequest (cr_u256_parse K) j (cc_nodeCount C) = Ok h -> 0 < ar_proposerIndex (pr_block h).
Proof.
  unfold parseProposalRequest, mkAbstractBlockRequestHeader, mbind, res_bind, rcheck. intros Hp.
  repeat match goal with
  | H : context [match ?x with Ok _ => _ | Err _ => _ end] |- _ => destruct x eqn:?; [|done]
  end.
  simplify_eq/=. repeat case_match; simplify_eq/=. lia.
Qed.

Lemma received_proposal s h l p :
  header_ok s h -> 0 < ar_proposerIndex (pr_block h) ->
  mkReceivedBlockProposal C K nodes (ar_blockID (pr_block h)) (ar_proposerIndex (pr_block h)) l (pr_stateRoot h)
    (pr_timeStamp h) (pr_timeStampMs h) (pr_signature h) = Ok p ->
  verifyProposalECDSA (cr_verifyECDSASig K) p (pr_hash h) (pr_signature h) = Ok tt ->
  admissible s p /\ bp_blockID p = ar_blockID (pr_block h) /\ bp_proposerIndex p = ar_proposerIndex (pr_block h) /\
  toHex (bp_hash p) = pr_hash h.
Proof.
  intros Ho Hi. unfold mkReceivedBlockProposal, getNodeIDByIndex, getNodeInfoByIndex.
  destruct (_ <? _); [done|]. destruct (ni_byIndex nodes !! _) as [id|] eqn:Hid; [|done]. cbn [mbind res_bind].
  intros Hp Hv. pose proof (mkBlockProposal_hash _ _ _ _ _ _ _ _ _ _ _ _ Hp) as (Hh & Hpi & Hsig & Ht).
  assert (bp_proposerNodeID p = id /\ bp_blockID p = ar_blockID (pr_block h) /\ bp_schainID p = cc_schainID C /\
    bp_stateRoot p = pr_stateRoot h /\ bp_timeStamp p = pr_timeStamp h /\ bp_timeStampMs p = pr_timeStampMs h)
    as (Hn & Hb & Hc & Hr & Hs & Hm).
  { clear Hh. revert Hp. unfold mkBlockProposal. rewrite (proj2 (Z.eqb_neq (ar_proposerIndex (pr_block h)) 0)) by lia.
    destruct (rcheck _ (MODERN_TIME <? _)); [|done]. cbn [mbind res_bind].
    destruct (bp_calculateHash _ _ _ _ _ _ _ _ _ _); [|done]. cbn [mbind res_bind].
    destruct (bool_decide _); cbn [rcheck mbind res_bind]; [|done]. by intros [= <-]. }
  revert Hv. unfold verifyProposalECDSA, rcheck. repeat case_bool_decide; cbn [mbind res_bind]; try done;
    destruct (negb _); cbn [mbind res_bind]; try done.
  destruct (cr_verifyECDSASig K _ _ _ _) as [[]|[]] eqn:Hv; try done. intros _.
  destruct Ho. split; [|done]. constructor; rewrite ?Hb, ?Hpi, ?Hn, ?Hr, ?Hs, ?Hm in *; try done.
  - by eexists.
  - unfold getTimeStamp. by rewrite Hs, Hm.
  - by rewrite Hsig.
Qed.

(** Signing adds the proposal, the rest stays. *)
Lemma signed_view s1 s2 p :
  hashes s2 = hashes s1 -> sv_signed s2 = sv_signed s1 -> (sc_info (sv_chain s2), server_own s2) = (sc_info (sv_chain s1), server_own s1) ->
  view (mkServer (sv_chain s2) (sv_conn s2) (sv_signed s2 ++ [p])) =
    (hashes s1, sv_signed s1 ++ [p], (sc_info (sv_chain s1), server_own s1)).
Proof. intros <- <- <-. done. Qed.

Lemma finish_proposal s s1 h p r :
  hash_ok (hashes s) -> answered s h r s1 -> header_ok s h ->
  entry (hashes s1) (proposal_key (ar_blockID (pr_block h)) (ar_proposerIndex (pr_block h))) = Some (pr_hash h) ->
  (verifyProposalECDSA (cr_verifyECDSASig K) p (pr_hash h) (pr_signature h) = Ok tt ->
    admissible s p /\ bp_blockID p = ar_blockID (pr_block h) /\
    bp_proposerIndex p = ar_proposerIndex (pr_block h) /\ toHex (bp_hash p) = pr_hash h) ->
  forall s2, view s2 = view s1 ->
  wp (verified ← attempt (lift_res (verifyProposalECDSA (cr_verifyECDSASig K) p (pr_hash h) (pr_signature h)));
      match verified with
      | None => lift_res (mkFinalResponseError CONNECTION_ERROR CONNECTION_SIGNATURE_DID_NOT_VERIFY)
      | Some _ =>
          finalResponseHeader ← createFinalResponseHeader signer p;
          on_chain (proposedBlockArrived C K p) ;;
          mret finalResponseHeader
      end) s2 (fun _ s' => served s s').
Proof.
  intros Hs Ha Ho He Hv s2 Hview. rewrite wp_bind. unfold attempt, wp at 1, lift_res.
  destruct (verifyProposalECDSA _ _ _ _) as [[]|e].
  2:{ destruct e; cbn [fst snd]; try rewrite wp_lift; by eapply served_answered. }
  cbn [fst snd]. destruct (Hv eq_refl) as (Hadm & Hb & Hi & Hx).
  assert (forall s', view s' = (hashes s1, sv_signed s1 ++ [p], (sc_info (sv_chain s1), server_own s1)) -> served s s') as Hserved.
  { intros s' [= Hh Hg _ Hn]. destruct Ha as (Hg1 & [= _ Hn1] & Hok & Hw & _). unfold served. rewrite Hh, Hg, Hg1, Hn, Hn1.
    split_and!; [done..|]. right. exists p. rewrite Hb, Hi, Hx. auto. }
  injection Hview as Hh2 Hg2 Hi2 Hn2. change (server_own s2 = server_own s1) in Hn2.
  unfold createFinalResponseHeader, signDAProof. wp_simpl.
  destruct (signer p) as [[[[sh sg] pk] pks]|e]; [|apply Hserved; exact (signed_view s1 s2 p Hh2 Hg2 (f_equal2 pair Hi2 Hn2))].
  wp_simpl. destruct (mkFinalResponse sh sg pk pks) as [hd|]; wp_simpl;
    [|apply Hserved; exact (signed_view s1 s2 p Hh2 Hg2 (f_equal2 pair Hi2 Hn2))].
  apply (keeps_wp view); [apply proposedBlockArrived_view|]. unfold wp.
  destruct (on_chain (proposedBlockArrived C K p) _) as [r3 s3]. cbn [fst snd]. intros H3.
  assert (served s s3); [|by destruct r3].
  apply Hserved. rewrite H3. exact (signed_view s1 s2 p Hh2 Hg2 (f_equal2 pair Hi2 Hn2)).
Qed.

Lemma processProposalRequest_served j s :
  hash_ok (hashes s) -> wp (processProposalRequest C K nodes signer j) s (fun _ s' => served s s').
Proof.
  intros Hs. unfold processProposalRequest. rewrite wp_bind, wp_nested, wp_bind, wp_lift.
  destruct (parseProposalRequest _ j _) as [h|] eqn:Hparse; [|by apply served_view]. cbn [rnested].
  apply parseProposalRequest_index in Hparse.
  rewrite wp_bind. eapply wp_mono; [by apply createProposalResponseHeader_spec|]. cbv beta.
  intros [hd|e] s1 Ha; [|cbn; by eapply served_answered]. rewrite wp_ret. cbn [rnested].
  rewrite wp_bind, wp_nested. apply (keeps_wp view); [apply on_conn_view|]. unfold wp at 1.
  destruct (send K hd s1) as [[[]|e] s2]; cbn [fst snd rnested]; intros H2; [|by eapply served_answered].
  destruct (Z.eqb_spec (hd_status hd) CONNECTION_PROCEED) as [Hp|Hp]; cbn [negb];
    [|rewrite wp_ret; by eapply served_answered].
  destruct Ha as (Hg & Hi & Hok & Hw & Hacc). destruct (Hacc hd eq_refl Hp) as [Ho He].
  assert (answered s h (Ok hd) s1) as Ha by done. clear Hacc.
  rewrite wp_bind. apply (keeps_wp view); [apply collectTransactions_view|]. unfold wp at 1.
  destruct (collectTransactions C K h s2) as [[l|e] s3]; cbn [fst snd]; intros H3; rewrite H2 in H3;
    [|by eapply served_answered].
  rewrite wp_bind, wp_check. split; intros _; [|by eapply served_answered].
  rewrite wp_bind, wp_lift. destruct (mkReceivedBlockProposal _ _ _ _ _ _ _ _ _ _) as [p|] eqn:Hrec;
    [|by eapply served_answered].
  rewrite wp_bind, wp_nested. eapply wp_mono;
    [eapply (finish_proposal s s1 h p); [done|done|done|done| |exact H3]; intros Hv; by eapply received_proposal|].
  cbv beta. intros [fh|e] s4 H4; cbn [rnested]; [|done].
  rewrite wp_bind. apply (keeps_wp view); [apply on_conn_view|]. unfold wp at 1.
  destruct (send K fh s4) as [[[]|e] s5]; cbn [fst snd]; intros [= Hh5 Hg5 _ Hn5];
    rewrite ?wp_ret; unfold served in *; by rewrite Hh5, Hg5, Hn5.
Qed.

Lemma attempt_view {A} (c : M state A) : keeps view c -> keeps view (attempt c).
Proof. intros Hc s. unfold attempt. specialize (Hc s). destruct (c s) as [[a|[]] s']; done. Qed.

Lemma on_chain_reads {A} (c : M (schain D) A) : keeps id c -> keeps view (on_chain c).
Proof. intros Hc. by apply on_chain_view, reads_keeps. Qed.

Lemma haveDAProof_reads b i : keeps id (on_daProofDb (D := D) (haveDAProof (cc_daProofCfg C) b i)).
Proof.
  unfold on_daProofDb, on_stores. apply zoom_reads; [by intros []|]. apply zoom_reads; [by intros []|].
  unfold haveDAProof, keyExistsInSet, keyExists, keyExistsUnsafe.
  apply keeps_bind; [apply find_key_keeps|intros; apply keeps_ret].
Qed.

Lemma processDAProofRequest_view j : keeps view (processDAProofRequest (D := D) C K nodes j).
Proof.
  unfold processDAProofRequest, createDAProofResponseHeader, answer, send.
  repeat first
    [ apply on_conn_view | apply getLast_view | apply daProofArrived_view
    | apply attempt_view | apply on_chain_reads, isEnoughProofs_reads
    | apply on_chain_reads, sc_getBlockProposal_reads | apply on_chain_reads, haveDAProof_reads
    | progress keeps_step
    | match goal with |- keeps _ (match fromHex ?x with _ => _ end) => destruct (fromHex x) end ].
Qed.

(** The connection does not matter. *)
Definition inner s : schain D * list BlockProposal := (sv_chain s, sv_signed s).

Lemma on_conn_inner {A} (c : M connection A) : keeps inner (on_conn c).
Proof. apply keeps_zoom. intros; done. Qed.

Lemma served_inner s s2 s' : inner s2 = inner s -> served s2 s' -> served s s'.
Proof.
  intros [= Hc Hg]. unfold served, hashes, server_own. rewrite Hc, Hg. intros (? & ? & ? & [?|(p & ? & Hadm & ?)]); split_and!; auto.
  right. exists p. split_and!; [done| |done].
  destruct Hadm. constructor; unfold server_last, server_stamp in *; rewrite <- ?Hc; done.
Qed.

Lemma inner_view s s' : inner s' = inner s -> view s' = view s.
Proof. intros [= Hc Hg]. unfold view, hashes, server_own. by rewrite Hc, Hg. Qed.

Lemma processConnection_served s :
  hash_ok (hashes s) -> wp (processNextAvailableConnection C K nodes signer) s (fun _ s' => served s s').
Proof.
  intros Hs. unfold processNextAvailableConnection.
  rewrite wp_bind. apply (keeps_wp inner); [apply on_conn_inner|]. unfold wp at 1.
  destruct (on_conn _ s) as [[[]|e] s1]; cbn [fst snd]; intros H1; [|by apply served_view, inner_view].
  rewrite wp_bind, wp_nested. apply (keeps_wp inner); [apply on_conn_inner|]. unfold wp at 1.
  destruct (on_conn _ s1) as [[j|e] s2]; cbn [fst snd rnested]; intros H2; rewrite H1 in H2;
    [|by apply served_view, inner_view].
  pose proof (inner_view _ _ H2) as H2v.
  rewrite wp_bind, wp_lift. destruct (getString j "type") as [type|]; [|by apply served_view].
  rewrite wp_bind, wp_check. split; intros _; [|by apply served_view].
  assert (hash_ok (hashes s2)) as Hs2 by (injection H2v as -> _ _ _; done).
  destruct (bool_decide (c_str type = _)).
  - rewrite wp_bind. eapply wp_mono; [by apply processProposalRequest_served|]. cbv beta.
    intros [x|e] s3 H3; rewrite ?wp_ret; by eapply served_inner.
  - destruct (bool_decide _); [|rewrite wp_throw; by apply served_view].
    apply (keeps_wp view); [apply processDAProofRequest_view|]. unfold wp.
    destruct (processDAProofRequest C K nodes j s2) as [r s3]. cbn [fst snd]. intros H3.
    apply served_view; [done|]. by rewrite H3.
Qed.

(** ** Runs *)

(** Serving connections of any content, with the operations of the chain in
    between. *)
Inductive server_step s : state -> Prop :=
  | step_connection c w :
      server_step s (processNextAvailableConnection C K nodes signer
        (mkServer (sv_chain (at_world s w)) c (sv_signed s))).2
  | step_chain o w :
      server_step s (on_chain (run_op C K o) (at_world s w)).2.

(** A run that does not lose the hash saved at [k]. *)
Inductive server_run (k : string) s : state -> Prop :=
  | run_start : server_run k s s
  | run_step s1 s2 :
      server_run k s s1 -> server_step s1 s2 ->
      (is_Some (entry (hashes s1) k) -> is_Some (entry (hashes s2) k)) ->
      server_run k s s2.

Definition is_own p : Prop := bp_proposerIndex p = cc_schainIndex C.

(** All that the node has signed: as a server, and when it proposes. *)
Definition node_signed s : list BlockProposal := sv_signed s ++ server_own s.

Lemma server_step_served s s' :
  hash_ok (hashes s) -> server_step s s' ->
  hash_ok (hashes s') /\ written (hashes s) (hashes s') /\
  (Forall is_own (server_own s) -> Forall is_own (server_own s')) /\
  (sv_signed s' = sv_signed s \/
   exists p s0, sv_signed s' = sv_signed s ++ [p] /\ server_last s0 = server_last s /\ admissible s0 p /\
     entry (hashes s') (proposal_key (bp_blockID p) (bp_proposerIndex p)) = Some (toHex (bp_hash p))).
Proof.
  intros Hs [c w|o w].
  - pose proof (processConnection_served (mkServer (sv_chain (at_world s w)) c (sv_signed s)) Hs) as (Hn & H1 & H2 & H3).
    split_and!; [done|done|by rewrite Hn|]. destruct H3 as [?|(p & ? & ? & ?)]; [by left|]. right.
    exists p, (mkServer (sv_chain (at_world s w)) c (sv_signed s)). done.
  - unfold on_chain, zoom, server_own.
    pose proof (run_op_once C K o (sv_chain (at_world s w)) Hs) as [H1 H2].
    pose proof (run_op_owns C K o (sv_chain (at_world s w))) as H3.
    destruct (run_op C K o (sv_chain (at_world s w))) as [r ch]. cbn in *. auto.
Qed.

Context (blake3_bytes : forall x, Forall is_byte (cr_blake3 K x)).

Lemma admissible_bytes s p : admissible s p -> Forall is_byte (bp_hash p).
Proof.
  intros Ha. pose proof (ad_hash _ _ Ha) as Hh. unfold bp_calculateHash in Hh.
  destruct (hash_input _ _ _ _ _ _ _ _ _ _) as [x|]; [|done]. cbn in Hh. injection Hh as <-. apply blake3_bytes.
Qed.

Lemma toHex_inj h h' : Forall is_byte h -> Forall is_byte h' -> toHex h = toHex h' -> h = h'.
Proof.
  intros Hh Hh' He. apply carray2Hex_inj; [done..|].
  rewrite <- (string_bytes_string (carray2Hex h)), <- (string_bytes_string (carray2Hex h')) by apply hex_is_bytes.
  by f_equal.
Qed.

Lemma server_run_signed k s s' :
  server_run k s s' -> hash_ok (hashes s) -> node_signed s = [] ->
  hash_ok (hashes s') /\ Forall is_own (server_own s') /\
  forall p, p ∈ sv_signed s' -> Forall is_byte (bp_hash p) /\
    (proposal_key (bp_blockID p) (bp_proposerIndex p) = k -> entry (hashes s') k = Some (toHex (bp_hash p))).
Proof.
  intros Hr Hs [Hnil Hown]%app_eq_nil. induction Hr as [|s1 s2 Hr (IHok & IHown & IH) Hstep Hret].
  - split; [done|]. rewrite Hnil, Hown. split; [done|]. by intros p ?%elem_of_nil.
  - destruct (server_step_served _ _ IHok Hstep) as (Hok & Hw & Ho & Hg). split; [done|]. split; [by apply Ho|].
    assert (forall p, p ∈ sv_signed s1 -> Forall is_byte (bp_hash p) /\
      (proposal_key (bp_blockID p) (bp_proposerIndex p) = k -> entry (hashes s2) k = Some (toHex (bp_hash p)))) as Hold.
    { intros p Hp. destruct (IH p Hp) as [Hb Hk]. split; [done|]. intros Heq. specialize (Hk Heq).
      apply (written_keeps (hashes s1)); try done. apply Hret. by eexists. }
    destruct Hg as [->|(p & s0 & -> & _ & Ha & He)]; [done|].
    intros q [Hq|Hq%list_elem_of_singleton]%elem_of_app; [by apply Hold|]. subst q.
    split; [by eapply admissible_bytes|]. by intros <-.
Qed.

Lemma signed_unique b i s s' p q :
  server_run (proposal_key b i) s s' -> hash_ok (hashes s) -> node_signed s = [] -> i <> cc_schainIndex C ->
  p ∈ node_signed s' -> q ∈ node_signed s' ->
  bp_blockID p = b -> bp_proposerIndex p = i -> bp_blockID q = b -> bp_proposerIndex q = i -> bp_hash p = bp_hash q.
Proof.
  intros Hr Hs Hnil Hne Hp Hq Hpb Hpi Hqb Hqi.
  destruct (server_run_signed _ _ _ Hr Hs Hnil) as (_ & Hown & Hall).
  assert (forall x, x ∈ node_signed s' -> bp_proposerIndex x = i -> x ∈ sv_signed s') as Hin.
  { intros x [Hx|Hx]%elem_of_app Hxi; [done|]. rewrite Forall_forall in Hown. by destruct Hne; rewrite <- Hxi, (Hown x Hx). }
  destruct (Hall p (Hin p Hp Hpi)) as [Hbp Hkp], (Hall q (Hin q Hq Hqi)) as [Hbq Hkq].
  rewrite Hpb, Hpi in Hkp. rewrite Hqb, Hqi in Hkq. specialize (Hkp eq_refl). specialize (Hkq eq_refl).
  apply toHex_inj; [done..|]. congruence.
Qed.

(** C17: The server only signs the availability of proposals that pass all its
    checks.  Whatever a peer sends and however the connection ends, serving it
    signs nothing or one proposal, and that proposal is for this chain, of a
    known member with the node identity of its index, for the block after the
    last committed one, with the state root of the own proposal for that block,
    with a time stamp after the last block and not more than a second ahead of
    the clock, with the hash of its contents and a valid signature of the
    proposer; its hash is the one that is saved for the block and the proposer. *)
Theorem proposal_server_signs_checked s c w :
  hash_ok (hashes s) ->
  let s0 := mkServer (sv_chain (at_world s w)) c (sv_signed s) in
  let s' := (processNextAvailableConnection C K nodes signer s0).2 in
  hash_ok (hashes s') /\
  (sv_signed s' = sv_signed s \/
   exists p, sv_signed s' = sv_signed s ++ [p] /\ admissible s0 p /\
     entry (hashes s') (proposal_key (bp_blockID p) (bp_proposerIndex p)) = Some (toHex (bp_hash p))).
Proof.
  intros Hs s0 s'. destruct (processConnection_served s0 Hs) as (_ & H1 & _ & H3). done.
Qed.

(** C16: A node signs the availability of at most one proposal of another proposer
    for a block: over any sequence of connections and chain operations, counting what
    it signs as a server and what it signs when it proposes, two signed proposals
    for a block and a proposer other than the node itself have the same hash, as long
    as the rotation of the database has not dropped the hash that was saved for
    them. *)
Theorem da_signature_unique b i s s' p q :
  server_run (proposal_key b i) s s' -> hash_ok (hashes s) -> node_signed s = [] -> i <> cc_schainIndex C ->
  p ∈ node_signed s' -> q ∈ node_signed s' ->
  bp_blockID p = b -> bp_proposerIndex p = i -> bp_blockID q = b -> bp_proposerIndex q = i ->
  bp_hash p = bp_hash q.
Proof. apply signed_unique. Qed.
End Server.

(** ** The network *)
Section Network.
Context {D : Type} `{HealthyStore D}.
(** The configuration and the keys of every node, and its run. *)
Context (C : Z -> chain_config) (K : Z -> crypto) (nodes : Z -> node_infos).
Context (signer : Z -> BlockProposal -> res (string * string * string * string)).
Context (blake3_bytes : forall i x, Forall is_byte (cr_blake3 (K i) x)).
Context (start now : Z -> server D).
(** The Byzantine members, and under which index the share of which member is
    accepted. *)
Context (byz : gset Z) (accepts : Z -> Z -> Prop).

(** Node [i] has signed the availability of the proposal of [j] with hash [h]. *)
Definition has_signed (i b j : Z) (h : list Z) : Prop :=
  exists p, p ∈ node_signed (now i) /\ bp_blockID p = b /\ bp_proposerIndex p = j /\ bp_hash p = h.

(** Every share of the proof was made by a member whose share is accepted under
    the index of the share; an honest member only makes shares under its own index
    and of what it has signed. *)
Definition shares_made (n b j : Z) (h : list Z) (X : gset Z) : Prop := forall i, i ∈ X ->
  exists maker, maker ∈ members n /\ accepts maker i /\ (maker ∉ byz -> maker = i /\ has_signed i b j h).

Lemma required_quorum c (X : gset Z) :
  0 < cc_nodeCount c -> getRequiredSigners c <= zsize X -> 2 * cc_nodeCount c < 3 * zsize X.
Proof.
  intros Hn. unfold getRequiredSigners. destruct (Z.leb_spec (cc_nodeCount c) 2); [lia|].
  pose proof (Z.div_mod (2 * cc_nodeCount c) 3 ltac:(lia)). pose proof (Z.mod_pos_bound (2 * cc_nodeCount c) 3 ltac:(lia)).
  lia.
Qed.

End Network.

(** ** Witnesses *)
Section Demo.
Definition demo_hash_text : string := toHex (demo_hash (repeat 0 120)).

(** A request of node 5, the member with index 1, for block 1. *)
Definition demo_request_fields : json :=
  <["type" := JStr "BlckPrpslReq"]> (<["schainID" := JNum 1]> (<["blockID" := JNum 1]>
  (<["proposerIndex" := JNum 1]> (<["proposerNodeID" := JNum 5]> (<["timeStamp" := JNum 1700000000]>
  (<["timeStampMs" := JNum 14]> (<["hash" := JStr demo_hash_text]> (<["sig" := JStr "sig"]>
  (<["txCount" := JNum 0]> {["sr" := JStr "99"]}))))))))).

(** Keys as in [demo_crypto], with a JSON library that knows this request. *)
Definition demo_server_crypto : crypto := {|
  cr_blake3 := demo_hash; cr_u256_str := demo_str; cr_u256_parse := demo_u256_parse;
  cr_export_bits := demo_export; cr_json_dump := fun _ => "{                  }"%string;
  cr_json_parse := fun _ => Ok demo_request_fields;
  cr_verifyECDSASig := fun _ _ _ _ => Ok tt; cr_verifyThresholdSig := fun _ _ _ _ => Ok tt;
  cr_verifyDAProofSig := fun _ _ _ _ => Ok tt; cr_signProposal := fun _ => Ok "sig"%string;
  cr_signDAProof := fun p => Ok {| ss_text := "share"; ss_blockId := bp_blockID p; ss_signerIndex := 2 |};
  cr_share := string; cr_createDAProofSigShare := fun t _ _ _ => Ok t;
  cr_mergeSignature := fun _ _ _ => Ok "da"%string |}.

Definition demo_nodes : node_infos := {| ni_byId := {[5 := 1]}; ni_byIndex := {[1 := 5]} |}.

Definition demo_signer (_ : BlockProposal) : res (string * string * string * string) :=
  Ok ("share"%string, "ecdsa"%string, "pk"%string, "pks"%string).

(** Member 2 has proposed block 1. *)
Definition demo_server_chain : schain (gmap string string) :=
  let s := demo_schain true (demo_store (lru_new 3)) in
  mkSchain (sc_info s) (sc_status s)
    (mkStores (demo_store (lru_new 3)) empty_db
       (mkProposalDb [None; Some (cb_block demo_block1); None; None] empty_db)
       empty_db empty_db empty_db empty_db demo_pending (mkInfoDb empty_db None))
    (sc_output s) (sc_world s).

Definition demo_server : server (gmap string string) := mkServer demo_server_chain (mkConn [] [] []) [].

Definition demo_connection : connection :=
  mkConn [RecvChunk (le_bytes 8 MAGIC_NUMBER ++ [3]); RecvChunk ([0; 0; 0; 0; 0; 0; 0] ++ [123; 0; 125])] [] [].

Definition demo_serve (s : server (gmap string string)) : server (gmap string string) :=
  (processNextAvailableConnection demo_chain demo_server_crypto demo_nodes demo_signer
    (mkServer (sv_chain (at_world s (sc_world demo_server_chain))) demo_connection (sv_signed s))).2.

Lemma demo_server_ok : hash_ok (hashes demo_server).
Proof. split; [exact empty_db_wf|exact empty_db_no_empty]. Qed.

Lemma proposal_server_signs_checked_witness :
  exists p, sv_signed (demo_serve demo_server) = [p] /\
    (exists s0, admissible demo_chain demo_server_crypto demo_nodes s0 p).
Proof.
  pose proof (proposal_server_signs_checked demo_chain demo_server_crypto demo_nodes demo_signer demo_server
    demo_connection (sc_world demo_server_chain) demo_server_ok) as Hall. cbv zeta in Hall. destruct Hall as [_ [Hn|(p & Hp & Ha & _)]].
  - exfalso. assert (length (sv_signed (demo_serve demo_server)) = 1%nat) as Hl by (vm_compute; reflexivity).
    unfold demo_serve in Hl. rewrite Hn in Hl. discriminate Hl.
  - exists p. split; [exact Hp|]. eexists. exact Ha.
Defined.

(** The same for the other members. *)
Definition demo_chain_of (i : Z) : chain_config := {|
  cc_schainID := 1; cc_schainIndex := i; cc_nodeID := 7; cc_isSyncOnlyNode := false;
  cc_hasExtFace := true; cc_isFinalizationDownloadOnly := false; cc_maxTransactionsPerBlock := 100;
  cc_emptyBlockIntervalAfterCatchupMs := 10; cc_nodeCount := 4; cc_blockCfg := demo_config;
  cc_proposalCfg := demo_config; cc_hashCfg := demo_config; cc_vectorCfg := demo_config;
  cc_daProofCfg := demo_config; cc_daSigCfg := demo_config; cc_priceCfg := demo_config;
  cc_infoCfg := demo_config; cc_engineVersion := "2.3"; cc_params := default_params;
  cc_strategy := Dynamic default_strategy |}.

Definition demo_own_proposal (i : Z) : BlockProposal :=
  {| bp_schainID := 1; bp_proposerNodeID := 7; bp_blockID := 1; bp_proposerIndex := i;
     bp_timeStamp := 1700000000; bp_timeStampMs := 13; bp_stateRoot := 99;
     bp_transactionList := mkTransactionList [demo_tx 3; demo_tx 1];
     bp_hash := demo_hash (repeat 0 152); bp_signature := "sig" |}.

(** Member [i] has proposed block 1 and serves the request twice. *)
Definition demo_server_of (i : Z) : server (gmap string string) :=
  let s := demo_schain true (demo_store (lru_new 3)) in
  mkServer (mkSchain (sc_info s) (sc_status s)
    (mkStores (demo_store (lru_new 3)) empty_db
       (mkProposalDb ((fun k => if k =? i then Some (demo_own_proposal i) else None) <$> [1; 2; 3; 4]) empty_db)
       empty_db empty_db empty_db empty_db demo_pending (mkInfoDb empty_db None))
    (sc_output s) (sc_world s)) (mkConn [] [] []) [].

Definition demo_serve_of (i : Z) (s : server (gmap string string)) : server (gmap string string) :=
  (processNextAvailableConnection (demo_chain_of i) demo_server_crypto demo_nodes demo_signer
    (mkServer (sv_chain (at_world s (sc_world demo_server_chain))) demo_connection (sv_signed s))).2.

Definition demo_now (i : Z) : server (gmap string string) := demo_serve_of i (demo_serve_of i (demo_server_of i)).

Lemma demo_runs i :
  2 <= i <= 4 -> server_run (demo_chain_of i) demo_server_crypto demo_nodes demo_signer (proposal_key (demo_chain_of i) 1 1)
    (demo_server_of i) (demo_now i).
Proof.
  intros Hi. assert (i = 2 \/ i = 3 \/ i = 4) as [-> | [-> | ->]] by lia;
    (eapply run_step; [eapply run_step; [apply run_start|apply step_connection|]|apply step_connection|];
     intros _; vm_compute; by eexists).
Qed.

Definition demo_signed : list BlockProposal := Eval vm_compute in node_signed (demo_now 2).

Definition demo_first : BlockProposal := default demo_proposal (demo_signed !! 0%nat).
Definition demo_second : BlockProposal := default demo_proposal (demo_signed !! 1%nat).

Lemma demo_signed_twice i : 2 <= i <= 4 -> node_signed (demo_now i) = [demo_first; demo_second].
Proof. intros Hi. assert (i = 2 \/ i = 3 \/ i = 4) as [-> | [-> | ->]] by lia; vm_compute; reflexivity. Qed.

Lemma da_signature_unique_witness :
  node_signed (demo_now 2) = [demo_first; demo_second] /\ bp_hash demo_first = bp_hash demo_second.
Proof.
  split; [apply demo_signed_twice; lia|].
  apply (da_signature_unique (demo_chain_of 2) demo_server_crypto demo_nodes demo_signer demo_hash_bytes 1 1
    (demo_server_of 2) (demo_now 2) demo_first demo_second (demo_runs 2 ltac:(lia)) demo_server_ok eq_refl).
  - discriminate.
  - rewrite demo_signed_twice by lia. left.
  - rewrite demo_signed_twice by lia. right. left.
  - vm_compute. reflexivity.
  - vm_compute. reflexivity.
  - vm_compute. reflexivity.
  - vm_compute. reflexivity.
Defined.

(** The proposer is Byzantine; it speaks under its own index only. *)
Definition demo_accepts (maker i : Z) : Prop := maker = i.

Lemma demo_shares p (X : gset Z) :
  p ∈ [demo_first; demo_second] -> bp_blockID p = 1 -> bp_proposerIndex p = 1 -> X ⊆ members 4 ->
  shares_made demo_now {[1]} demo_accepts 4 1 1 (bp_hash p) X.
Proof.
  intros Hp Hb Hi HX i Hix. exists i. split; [by apply HX|]. split; [done|]. intros Hn. split; [done|].
  exists p. split; [|done]. pose proof (HX i Hix) as Hm. rewrite elem_of_members in Hm.
  rewrite demo_signed_twice; [done|]. assert (i <> 1) by set_solver. lia.
Qed.


(** The answer to a wrong signature is never complete, so it cannot be sent. *)
Lemma signature_failure_not_reported (conn : connection) :
  (r ← lift_res (mkFinalResponseError CONNECTION_ERROR CONNECTION_SIGNATURE_DID_NOT_VERIFY);
   io_send demo_dump demo_str r) conn = (Err InvalidArgumentException, conn).
Proof. reflexivity. Qed.
End Demo.
