(* ===== verification/Catchup.v ===== *)
(** * Catchup

    The two ends of the catchup protocol: [CatchupServerAgent]
    ([src/catchup/server/CatchupServerAgent.cpp]), which answers requests for
    committed blocks and for the fragments of a proposal, and
    [CatchupClientAgent] ([src/catchup/client/CatchupClientAgent.cpp]), which
    asks the other nodes in turn, with the list of dead nodes of the chain and
    the client side of a socket ([src/network/ClientSocket.cpp]). *)

From stdpp Require Import base tactics gmap list strings.
From Stdlib Require Import ZArith Lia.
From S2P Require Import Prelude Bytes Messages LevelDb LevelDbSets ProposalVector ProtocolDbs.
From S2P Require Import Transactions Pricing PendingQueue Blocks Fragments BlockStore ProposalStore OtherDbs.
From S2P Require Import Schain Headers Tcp ProposalServer.

Definition MAX_CATCHUP_DOWNLOAD_BYTES : Z := 64 * 1024 * 1024.
Definition NODE_DEATH_INTERVAL_MS : Z := 30000.
Definition ALLOWED_CATCHUP_DELAY_S : Z := 30.

(** ** The server *)
Section Server.
Context {D : Type} `{KVStore D}.
Context (C : chain_config) (K : crypto) (nodes : node_infos).
Context (maxCatchupDownloadBytes : Z).
Local Abbreviation state := (server D).

#[local] Instance catchup_format : BlockFormat CommittedBlock :=
  committed_format (cr_blake3 K) (cr_u256_str K) (cr_u256_parse K) (cr_export_bits K) (cr_json_dump K)
    (cr_json_parse K) (cr_verifyECDSASig K) (cr_verifyThresholdSig K) (cr_verifyDAProofSig K).

(** A header with its status and no blocks. *)
Definition finish (h : Header) (status substatus : Z) : M state (Header * option (list Z)) :=
  mret (setComplete (setStatusSubStatus status substatus h), None).

Definition createBlockCatchupResponse (h : Header) (blockID : Z) : M state (Header * option (list Z)) :=
  nested InvalidStateException
    (last ← on_chain getLastCommittedBlockID;
     if last <=? blockID then finish h CONNECTION_DISCONNECT CONNECTION_NO_NEW_BLOCKS
     else
       lastCommittedBlockID ← on_chain getLastCommittedBlockID;
       stamp ← on_chain getLastCommittedBlockTimeStamp;
       if lastCommittedBlockID <=? blockID then finish h CONNECTION_DISCONNECT CONNECTION_OK
       else
         '(serializedBlocks, blockSizes) ← on_chain (on_blockDb (getSerializedBlocksFromLevelDB (cc_blockCfg C)
           maxCatchupDownloadBytes (u64 (blockID + 1)) lastCommittedBlockID));
         CHECK_STATE (0 <? zlen blockSizes) ;;
         match serializedBlocks with
         | None => finish h CONNECTION_DISCONNECT CONNECTION_CATCHUP_DONT_HAVE_THIS_BLOCK
         | Some bytes =>
             h ← lift_res (setBlockSizesAndLatestBlockInfo blockSizes lastCommittedBlockID (ts_s stamp)
                   (setStatusSubStatus CONNECTION_PROCEED CONNECTION_OK h));
             mret (h, Some bytes)
         end).

(** The proposal and its data availability signature, from the proposals or
    from the committed block; [inl] is an answer without a fragment. *)
Definition findProposal (h : Header) (blockID proposerIndex : Z) :
    M state (Header * option (list Z) + BlockProposal * string) :=
  proposal ← on_chain (sc_getBlockProposal C K blockID proposerIndex);
  have ← match proposal with
         | None => mret false
         | Some p => on_chain (on_daProofDb (haveDAProof (cc_daProofCfg C) (bp_blockID p) (bp_proposerIndex p)))
         end;
  match proposal, have with
  | Some p, true =>
      daSig ← on_chain (on_daProofDb (getDASig (cc_daProofCfg C) (bp_blockID p) (bp_proposerIndex p)));
      mret (inr (p, daSig))
  | _, _ =>
      committedBlock ← on_chain (sc_getBlock C K blockID);
      match committedBlock with
      | None =>
          x ← finish h CONNECTION_DISCONNECT CONNECTION_FINALIZE_DONT_HAVE_PROPOSAL; mret (inl x)
      | Some b =>
          if negb (bp_proposerIndex (cb_block b) =? proposerIndex) then
            x ← finish h CONNECTION_DISCONNECT
                  CONNECTION_FINALIZER_CLIENT_ASKING_FOR_INCORRECT_PROPOSER_INDEX;
            mret (inl x)
          else mret (inr (cb_block b, cb_daSig b))
      end
  end.

Definition createBlockFinalizeResponse (request : json) (h : Header) (blockID : Z) :
    M state (Header * option (list Z)) :=
  nested InvalidStateException
    (fragmentIndex ← lift_res (getUint64 request "fragmentIndex");
     if (fragmentIndex <? 1) || (cc_nodeCount C - 1 <? fragmentIndex)
     then finish h CONNECTION_DISCONNECT CONNECTION_ERROR_INVALID_FRAGMENT_INDEX
     else
       proposerIndex ← lift_res (getUint64 request "proposerIndex");
       if (proposerIndex <? 1) || (cc_nodeCount C <? fragmentIndex)
       then finish h CONNECTION_DISCONNECT CONNECTION_ERROR_INVALID_PROPOSER_INDEX
       else
         found ← findProposal h blockID proposerIndex;
         match found with
         | inl x => mret x
         | inr (p, daSig) =>
             CHECK_STATE (bool_decide (daSig <> ""%string)) ;;
             sp ← lift_res (serializeProposal (cr_blake3 K) (cr_u256_str K) (cr_json_dump K) p);
             fragment ← lift_res (getFragment (bp_blockID p) (toHex (bp_hash p)) sp (cc_nodeCount C - 1)
               fragmentIndex);
             h ← lift_res (setFragmentParams (zlen (fr_data fragment)) (zlen sp) (toHex (bp_hash p)) daSig
                   (setStatusSubStatus CONNECTION_PROCEED CONNECTION_OK h));
             mret (h, Some (fr_data fragment))
         end).

Definition createResponseHeaderAndBinary (request : json) (h : Header) : M state (Header * option (list Z)) :=
  nested InvalidStateException
    (schainID ← lift_res (getUint64 request "schainID");
     blockID ← lift_res (getUint64 request "blockID");
     nodeID ← lift_res (getUint64 request "nodeID");
     check InvalidSchainException (cc_schainID C =? schainID) ;;
     type ← lift_res (getString request "type");
     if bool_decide (type = "BlckCatchupReq"%string) then createBlockCatchupResponse h blockID
     else if bool_decide (type = "BlckFinalizeReq"%string) then
       match getNodeInfoById nodes nodeID with
       | None => throw InvalidNodeIDException
       | Some _ => createBlockFinalizeResponse request h blockID
       end
     else mret (h, None)).

(** [catch ( ExitRequestedException& ) { throw; } catch ( ... ) {}]. *)
Definition ignore_errors (c : M state unit) : M state unit :=
  fun s =>
    match c s with
    | (Err ExitRequestedException, s') => (Err ExitRequestedException, s')
    | (_, s') => (Ok tt, s')
    end.

(** The response, or the error answer and the exception. *)
Definition responseOrError (request : json) (h : Header) : M state (Header * option (list Z)) :=
  fun s =>
    match createResponseHeaderAndBinary request h s with
    | (Ok x, s') => (Ok x, s')
    | (Err ExitRequestedException, s') => (Err ExitRequestedException, s')
    | (Err e, s') =>
        (ignore_errors (send K (setComplete (setStatusSubStatus CONNECTION_ERROR
           CONNECTION_SUBSTATUS_UNKNOWN h))) ;;
         throw (nest_exn CouldNotSendMessageException e)) s'
    end.

Definition catchup_processNextAvailableConnection : M state unit :=
  on_conn (fun c =>
    match readMagic c with
    | (Err PingException, c') => (Err PingException, c')
    | (r, c') => (rnested NetworkProtocolException r, c')
    end) ;;
  jsonRequest ← nested NetworkProtocolException
    (on_conn (readJsonHeader (cr_json_parse K) MAX_HEADER_SIZE));
  type ← lift_res (getString jsonRequest "type");
  responseHeader ←
    (if bool_decide (type = "BlckCatchupReq"%string)
     then mret (newHeader "BlckCatchupRsp" (BodyCatchupResponse None 0 0))
     else if bool_decide (type = "BlckFinalizeReq"%string)
     then mret (newHeader "BlckFnlzRsp" (BodyFinalizeResponse {| fz_fragmentSize := 0; fz_blockSize := 0;
            fz_blockHash := ""; fz_daProofSig := "" |}))
     else throw InvalidMessageFormatException);
  '(responseHeader, serializedBinary) ← responseOrError jsonRequest responseHeader;
  nested CouldNotSendMessageException (send K responseHeader) ;;
  match serializedBinary with
  | None => mret tt
  | Some bytes => nested CouldNotSendMessageException (on_conn (io_writeBytes bytes))
  end.
End Server.

(** ** Dead nodes *)
Section DeadNodes.
Context (nodeCount : Z).

Definition addDeadNode (schainIndex checkTime : Z) : M (gmap Z Z) unit :=
  CHECK_STATE (0 <? schainIndex) ;;
  CHECK_STATE (schainIndex <=? nodeCount) ;;
  m ← get;
  if bool_decide (m !! schainIndex = None) then put (<[schainIndex := checkTime]> m) else mret tt.

Definition markAliveNode (schainIndex : Z) : M (gmap Z Z) unit :=
  CHECK_STATE (0 <? schainIndex) ;;
  CHECK_STATE (schainIndex <=? nodeCount) ;;
  modify (delete schainIndex).

Definition getDeathTimeMs (schainIndex : Z) : M (gmap Z Z) Z :=
  CHECK_STATE (0 <? schainIndex) ;;
  CHECK_STATE (schainIndex <=? nodeCount) ;;
  m ← get;
  mret (default 0 (m !! schainIndex)).
End DeadNodes.

(** ** The client *)
Record PeerStateInfo := { ps_lastBlockId : Z; ps_lastBlockTimestampS : Z }.

Record client {D : Type} := mkClient {
  cl_chain : schain D;
  cl_conn : connection;
  cl_deadNodes : gmap Z Z;
  cl_peers : list (option PeerStateInfo);
  cl_lastStartingBlock : Z
}.
Arguments client : clear implicits.
Arguments mkClient {D}.

(** The outcome of opening a TCP connection. *)
Inductive connect_result :=
  | Connected (c : connection)
  | Refused
  | NoSocket.

Record SyncInfo := { si_isSyncing : bool; si_startingBlock : Z; si_currentBlock : Z; si_highestBlock : Z }.

(** [PeerStateInfo::extract]. *)
Definition extractPeer (j : json) : res (option PeerStateInfo) :=
  let field name :=
    match j !! name with
    | None => Ok 0
    | Some (JNum n) => Ok (u64 n)
    | Some _ => Err JsonError
    end in
  lastBid ← field "lastBid"%string;
  lastTs ← field "lastTs"%string;
  Ok (if (0 <? lastBid) && (0 <? lastTs)
      then Some {| ps_lastBlockId := lastBid; ps_lastBlockTimestampS := lastTs |} else None).

Section Client.
Context {D : Type} `{KVStore D}.
Context (C : chain_config) (K : crypto) (nodes : node_infos).
Context (maxCatchupDownloadBytes patchTimestampS : Z).
Local Abbreviation state := (client D).

#[local] Instance client_format : BlockFormat CommittedBlock :=
  committed_format (cr_blake3 K) (cr_u256_str K) (cr_u256_parse K) (cr_export_bits K) (cr_json_dump K)
    (cr_json_parse K) (cr_verifyECDSASig K) (cr_verifyThresholdSig K) (cr_verifyDAProofSig K).

Definition cl_on_chain {A} (c : M (schain D) A) : M state A :=
  zoom cl_chain (fun x s => mkClient x (cl_conn s) (cl_deadNodes s) (cl_peers s) (cl_lastStartingBlock s)) c.

Definition cl_on_conn {A} (c : M connection A) : M state A :=
  zoom cl_conn (fun x s => mkClient (cl_chain s) x (cl_deadNodes s) (cl_peers s) (cl_lastStartingBlock s)) c.

Definition cl_on_dead {A} (c : M (gmap Z Z) A) : M state A :=
  zoom cl_deadNodes (fun x s => mkClient (cl_chain s) (cl_conn s) x (cl_peers s) (cl_lastStartingBlock s)) c.

(** [ClientSocket]. *)
Definition openSocket (destinationIndex : Z) (outcome : connect_result) : M state unit :=
  match getNodeInfoByIndex nodes destinationIndex with
  | None => throw FatalError
  | Some _ =>
      match outcome with
      | NoSocket => throw FatalError
      | Refused =>
          now ← cl_on_chain getCurrentTimeMs;
          cl_on_dead (addDeadNode (cc_nodeCount C) destinationIndex now) ;;
          throw ConnectionRefusedException
      | Connected c =>
          cl_on_dead (markAliveNode (cc_nodeCount C) destinationIndex) ;;
          cl_on_conn (put c)
      end
  end.

Definition parseBlockSizes (response : json) : res (Z * list Z) :=
  match response !! "sizes"%string with
  | None => Err NetworkProtocolException
  | Some (JArr l) =>
      rcheck NetworkProtocolException (negb (zlen l =? 0)) ;;
      let blockSizes := map u64 l in
      let totalSize := foldl (fun total size => u64 (total + size)) 0 blockSizes in
      rcheck NetworkProtocolException (negb (totalSize <? 4)) ;;
      rcheck NetworkProtocolException (negb (maxCatchupDownloadBytes <? totalSize)) ;;
      Ok (u64 (totalSize + 2), blockSizes)
  | Some _ => Err NetworkProtocolException
  end.

(** The first block is printed when there are several sizes. *)
Definition readMissingBlocks (response : json) : M state (list CommittedBlock) :=
  '(totalSize, blockSizes) ← lift_res (parseBlockSizes response);
  lift_res (allocate totalSize) ;;
  serializedBlocks ← nested NetworkProtocolException (cl_on_conn (io_readBytes totalSize totalSize));
  nested NetworkProtocolException
    (blockList ← lift_res (deserializeBlockList patchTimestampS blockSizes serializedBlocks 0 true);
     check StdOutOfRange (negb ((1 <? zlen blockSizes) && (zlen blockList =? 0))) ;;
     mret blockList).

(** [peerStateInfos.at( dstIndex - 1 ) = info]. *)
Definition updatePeer (dstIndex : Z) (info : option PeerStateInfo) : M state unit :=
  match info with
  | None => mret tt
  | Some i =>
      s ← get;
      if u64 (dstIndex - 1) <? zlen (cl_peers s)
      then put (mkClient (cl_chain s) (cl_conn s) (cl_deadNodes s)
             (<[Z.to_nat (u64 (dstIndex - 1)) := Some i]> (cl_peers s)) (cl_lastStartingBlock s))
      else throw StdOutOfRange
  end.

Definition sync (dstIndex : Z) (outcome : connect_result) (locked : bool) : M state Z :=
  last ← cl_on_chain getLastCommittedBlockID;
  requestHeader ← lift_res (mkCatchupRequest (cc_schainID C) last (cc_nodeID C)
    (bool_decide (is_Some (getNodeInfoByIndex nodes dstIndex))));
  CHECK_STATE (negb (dstIndex =? cc_schainIndex C)) ;;
  death ← cl_on_dead (getDeathTimeMs (cc_nodeCount C) dstIndex);
  now ← cl_on_chain getCurrentTimeMs;
  check ConnectionRefusedException (negb (now <? u64 (death + NODE_DEATH_INTERVAL_MS))) ;;
  openSocket dstIndex outcome ;;
  nested NetworkProtocolException (cl_on_conn (writeMagic false)) ;;
  nested NetworkProtocolException (cl_on_conn (writeHeader (cr_json_dump K) (cr_u256_str K) requestHeader)) ;;
  response ← nested NetworkProtocolException
    (cl_on_conn (readJsonHeader (cr_json_parse K) MAX_CATCHUP_DOWNLOAD_BYTES));
  info ← lift_res (extractPeer response);
  updatePeer dstIndex info ;;
  status ← lift_res (getUint64 response "status");
  if u32 status =? CONNECTION_DISCONNECT then mret 0
  else
    check NetworkProtocolException (u32 status =? CONNECTION_PROCEED) ;;
    last ← cl_on_chain getLastCommittedBlockID;
    modify (fun s => mkClient (cl_chain s) (cl_conn s) (cl_deadNodes s) (cl_peers s) last) ;;
    blocks ← nested NetworkProtocolException (readMissingBlocks response);
    cl_on_chain (blockCommitsArrivedThroughCatchup C K locked blocks).

(** The [do] loop over the next indices. *)
Fixpoint nextIndexLoop (nodeCount self index : Z) (fuel : nat) : res Z :=
  let index := u64 (index + 1) mod nodeCount in
  if index =? u64 (self - 1) then
    match fuel with O => Err OutOfFuel | S fuel => nextIndexLoop nodeCount self index fuel end
  else Ok index.

Definition nextSyncNodeIndex (destinationSchainIndex : Z) : res Z :=
  index ← nextIndexLoop (cc_nodeCount C) (cc_schainIndex C) (u64 (destinationSchainIndex - 1)) 1;
  Ok (u64 (index + 1)).

(** One turn of the loop of the worker: the number of blocks of the turn before
    stays when [sync] throws.  [None] ends the thread. *)
Definition syncTurn (dstIndex : Z) (outcome : connect_result) (locked : bool) (lastBlockCount : Z) :
    M state (option (Z * Z)) :=
  fun s =>
    let next count s' :=
      match nextSyncNodeIndex dstIndex with
      | Ok i => (Ok (Some (i, count)), s')
      | Err e => (Err e, s')
      end in
    match sync dstIndex outcome locked s with
    | (Ok n, s') => next n s'
    | (Err ExitRequestedException, s') => (Ok None, s')
    | (Err OutOfFuel, s') => (Err OutOfFuel, s')
    | (Err _, s') => next lastBlockCount s'
    end.

Definition getSyncInfo : M state SyncInfo :=
  let idle := {| si_isSyncing := false; si_startingBlock := 0; si_currentBlock := 0; si_highestBlock := 0 |} in
  now ← cl_on_chain getCurrentTimeSec;
  s ← get;
  let stamp := ci_lastCommittedBlockTimeStamp (sc_info (cl_chain s)) in
  let last := ci_lastCommittedBlockID (sc_info (cl_chain s)) in
  if now <? u64 (ts_s stamp + ALLOWED_CATCHUP_DELAY_S) then mret idle
  else
    let highestBlock := foldl (fun m (i : option PeerStateInfo) =>
      match i with Some i => if m <? ps_lastBlockId i then ps_lastBlockId i else m | None => m end) 0 (cl_peers s) in
    if highestBlock <=? last then mret idle
    else mret {| si_isSyncing := true; si_startingBlock := cl_lastStartingBlock s; si_currentBlock := last;
                 si_highestBlock := highestBlock |}.
End Client.
