(* ===== verification/CatchupTheorems.v ===== *)
(** * Theorems about catchup

    The client asks all the other nodes in turn; a node that is behind gets the
    blocks it misses from a node that stores them, over any cutting of the bytes;
    and some limits of the code. *)

From stdpp Require Import base tactics gmap list strings.
From Stdlib Require Import ZArith Lia.
From S2P Require Import Prelude Bytes Messages LruCache LevelDb LevelDbSets ProposalVector ProtocolDbs.
From S2P Require Import Transactions Pricing PendingQueue Blocks Fragments BlockStore ProposalStore OtherDbs.
From S2P Require Import Schain SchainTheorems Headers Tcp ProposalServer Catchup.

(** ** The order of the destinations *)
Section RoundRobin.
Context (C : chain_config).
Local Abbreviation n := (cc_nodeCount C).
Local Abbreviation self := (cc_schainIndex C).
Context (Hn : 2 <= n < 2 ^ 63) (Hself : 1 <= self <= n).

(** The index after [d], around the circle. *)
Definition successor (d : Z) : Z := d mod n + 1.

Lemma successor_range d : 1 <= successor d <= n.
Proof. unfold successor. pose proof (Z.mod_pos_bound d n). lia. Qed.

Lemma next_index_eq d : 1 <= d <= n -> u64 (u64 (d - 1) + 1) mod n = successor d - 1.
Proof.
  intros Hd. unfold successor. rewrite (u64_small (d - 1)), u64_small by lia.
  replace (d - 1 + 1) with d by lia. lia.
Qed.

Lemma nextSyncNodeIndex_spec d :
  1 <= d <= n ->
  nextSyncNodeIndex C d =
    Ok (if successor d =? self then successor self else successor d).
Proof.
  intros Hd. unfold nextSyncNodeIndex. pose proof (successor_range d) as Hs.
  assert (u64 (self - 1) = self - 1) as Hself1 by (apply u64_small; lia).
  cbn [nextIndexLoop]. rewrite next_index_eq, Hself1 by done.
  destruct (Z.eqb_spec (successor d - 1) (self - 1)) as [He|He].
  - assert (successor d = self) as Hsd by lia. rewrite Hsd, Z.eqb_refl.
    assert (u64 (self - 1 + 1) mod n = successor self - 1) as ->.
    { rewrite u64_small by lia. unfold successor. replace (self - 1 + 1) with self by lia. lia. }
    pose proof (successor_range self) as Hss.
    assert (successor self <> self) as Hne.
    { unfold successor. destruct (Z.eq_dec self n) as [->|]; [rewrite Z.mod_same by lia; lia|].
      rewrite Z.mod_small by lia. lia. }
    rewrite (proj2 (Z.eqb_neq _ _)) by lia. cbn [mbind res_bind]. rewrite u64_small by lia. f_equal. lia.
  - rewrite (proj2 (Z.eqb_neq (successor d) self)) by lia. cbn [mbind res_bind].
    rewrite u64_small by lia. f_equal. lia.
Qed.

(** The destination after [k] turns. *)
Fixpoint destination (k : nat) (d : Z) : res Z :=
  match k with
  | O => Ok d
  | S k => i ← nextSyncNodeIndex C d; destination k i
  end.

(** The steps from [d] to [j] around the circle. *)
Definition distance (d j : Z) : Z := (j - d) mod n.

Lemma distance_successor d j :
  1 <= d <= n -> 1 <= j <= n -> d <> j -> distance (successor d) j = distance d j - 1.
Proof.
  intros Hd Hj Hne. unfold distance, successor.
  destruct (Z.eq_dec d n) as [->|Hdn].
  - rewrite Z.mod_same by lia. rewrite (Z.mod_small (j - (0 + 1))) by lia.
    symmetry. replace (j - n) with (j + (-1) * n) by lia. rewrite Z.mod_add by lia. rewrite Z.mod_small by lia. lia.
  - rewrite (Z.mod_small d) by lia. destruct (Z.lt_ge_cases d j).
    + rewrite !Z.mod_small by lia. lia.
    + replace (j - (d + 1)) with (j - (d + 1) + n + (-1) * n) by lia.
      replace (j - d) with (j - d + n + (-1) * n) by lia. rewrite !Z.mod_add by lia.
      rewrite !Z.mod_small by lia. lia.
Qed.

Lemma destination_reaches m d j :
  distance d j = Z.of_nat m -> 1 <= d <= n -> 1 <= j <= n -> j <> self ->
  exists k, (k <= m)%nat /\ destination k d = Ok j.
Proof.
  revert d. induction m as [m IH] using lt_wf_ind. intros d Hm Hd Hj Hjs.
  destruct (decide (d = j)) as [->|Hne]; [exists 0%nat; split; [lia|done]|].
  pose proof (distance_successor d j Hd Hj Hne) as Hs. pose proof (successor_range d) as Hr.
  assert (0 <= distance (successor d) j) by (apply Z.mod_pos_bound; lia).
  destruct (Z.eqb_spec (successor d) self) as [He|He].
  - assert (self <> j) as Hne' by lia.
    pose proof (distance_successor self j Hself Hj Hne') as Hs'. rewrite <- He in Hs' at 2.
    assert (0 <= distance (successor self) j) by (apply Z.mod_pos_bound; lia).
    destruct (IH (m - 2)%nat ltac:(lia) (successor self)) as (k & Hk & Hdest);
      [lia|apply successor_range|done|done|].
    exists (S k). split; [lia|]. cbn [destination]. rewrite nextSyncNodeIndex_spec by done.
    rewrite (proj2 (Z.eqb_eq _ _)) by done. done.
  - destruct (IH (m - 1)%nat ltac:(lia) (successor d)) as (k & Hk & Hdest); [lia|done|done|done|].
    exists (S k). split; [lia|]. cbn [destination]. rewrite nextSyncNodeIndex_spec by done.
    rewrite (proj2 (Z.eqb_neq _ _)) by done. done.
Qed.

Lemma nextSyncNodeIndex_member d :
  1 <= d <= n -> exists i, nextSyncNodeIndex C d = Ok i /\ 1 <= i <= n /\ i <> self.
Proof.
  intros Hd. rewrite nextSyncNodeIndex_spec by done. eexists. split; [done|].
  destruct (Z.eqb_spec (successor d) self) as [He|He]; [|split; [apply successor_range|done]].
  split; [apply successor_range|]. unfold successor.
  destruct (Z.eq_dec self n) as [->|]; [rewrite Z.mod_same by lia; lia|]. rewrite Z.mod_small by lia. lia.
Qed.

(** The choice of the next node to ask always ends: the loop that skips the
    node itself makes at most two turns when there are at least two nodes.  It
    never returns the node itself, and every other node is asked within as many
    turns as there are nodes. *)
Theorem next_sync_node_terminates d :
  1 <= d <= n ->
  (exists i, nextSyncNodeIndex C d = Ok i /\ 1 <= i <= n /\ i <> self) /\
  (forall j, 1 <= j <= n -> j <> self -> exists k, (k < Z.to_nat n)%nat /\ destination k d = Ok j).
Proof.
  intros Hd. split; [by apply nextSyncNodeIndex_member|]. intros j Hj Hjs.
  assert (0 <= distance d j < n) as Hdist by (apply Z.mod_pos_bound; lia).
  destruct (destination_reaches (Z.to_nat (distance d j)) d j) as (k & Hk & Hr); [lia|done|done|done|].
  exists k. split; [lia|done].
Qed.
End RoundRobin.

(** A single node has nobody to ask: the loop would not end. *)
Lemma next_index_alone fuel : nextIndexLoop 1 1 0 fuel = Err OutOfFuel.
Proof. induction fuel as [|fuel IH]; [done|]. cbn [nextIndexLoop]. exact IH. Qed.

Lemma next_sync_node_terminates_witness :
  (exists i, nextSyncNodeIndex demo_chain 1 = Ok i /\ 1 <= i <= 4 /\ i <> 2) /\
  destination demo_chain 2 1 = Ok 4.
Proof.
  assert (2 <= cc_nodeCount demo_chain < 2 ^ 63) as Hn by (cbn; lia).
  assert (1 <= cc_schainIndex demo_chain <= cc_nodeCount demo_chain) as Hs by (cbn; lia).
  assert (1 <= 1 <= cc_nodeCount demo_chain) as Hd by (cbn; lia).
  split; [exact (proj1 (next_sync_node_terminates demo_chain Hn Hs 1 Hd))|reflexivity].
Defined.

(** ** Dead nodes *)

(** The time of a node that stays dead is not renewed, so that it is only
    skipped during the first interval. *)
Lemma dead_node_time_kept n i t t' m :
  0 < i <= n -> m !! i = None ->
  wp (addDeadNode n i t ;; addDeadNode n i t' ;; getDeathTimeMs n i) m (fun r _ => r = Ok t).
Proof.
  intros Hi Hm. unfold addDeadNode, getDeathTimeMs, check.
  rewrite (proj2 (Z.ltb_lt 0 i)), (proj2 (Z.leb_le i n)) by lia. wp_simpl.
  rewrite Hm, bool_decide_eq_true_2 by done. wp_simpl.
  rewrite lookup_insert_eq, bool_decide_eq_false_2 by done. wp_simpl. by rewrite lookup_insert_eq.
Qed.

(** ** A complete exchange *)
Section Exchange.
Context {D : Type} `{HealthyStore D}.
Context (C C' : chain_config) (K : crypto) (nodes : node_infos).
Context (serverMax clientMax patch : Z).
Context (parse_dump : forall j, json_plain j -> cr_json_parse K (cr_json_dump K j) = Ok j).

#[local] Hint Extern 0 (BlockFormat CommittedBlock) => exact (catchup_format K) : typeclass_instances.
Context {format_ok : @BlockFormatOk CommittedBlock (catchup_format K)}.

(** The server has the blocks [bs] after block [a], with the bytes [ls]. *)
Record offers (s : schain D) (a : Z) (bs : list CommittedBlock) (ls : list (list Z)) : Prop := {
  of_inv : bd_inv (cc_blockCfg C) (st_block (sc_stores s));
  of_last : ci_lastCommittedBlockID (sc_info s) = a + zlen bs;
  of_range : 0 <= a /\ a + zlen bs < 2 ^ 64;
  of_nonempty : bs <> [];
  of_blocks : Forall (fun b => bf_wf b /\ bf_signed b /\ daSigPresent patch b = true) bs;
  of_bytes : serializeAll bs = Ok ls;
  of_size : zlen (concat ls) + 2 < 2 ^ 63;
  of_stored : forall j l, ls !! j = Some l ->
    stored (cc_blockCfg C) (st_block (sc_stores s)) (a + 1 + Z.of_nat j) = Some l
}.

(** The fields of the request and of the answer. *)
Definition request_header (schainID a nodeID : Z) : Header :=
  setComplete (newHeader "BlckCatchupReq" (BodyCatchupRequest schainID a nodeID)).

Definition request_fields (schainID a nodeID : Z) : json :=
  addCatchupRequestFields schainID a nodeID
    (addStatusFields (request_header schainID a nodeID) {["type"%string := JStr "BlckCatchupReq"]}).

Definition answer_header (sizes : list Z) (last ts : Z) : Header :=
  mkHeader "BlckCatchupRsp" CONNECTION_PROCEED CONNECTION_OK true (BodyCatchupResponse (Some sizes) last ts).

Definition answer_fields (sizes : list Z) (last ts : Z) : json :=
  addCatchupResponseFields (Some sizes) last ts
    (addStatusFields (answer_header sizes last ts) {["type"%string := JStr "BlckCatchupRsp"]}).

Local Abbreviation sendable_ := (sendable (cr_u256_str K) (cr_json_dump K)).
Local Abbreviation header_bytes_ := (header_bytes (cr_json_dump K)).

Lemma readMagic_ok inc out sent rest :
  delivers inc (le_bytes 8 MAGIC_NUMBER ++ rest) ->
  exists inc', readMagic (mkConn inc out sent) = (Ok tt, mkConn inc' out sent) /\ delivers inc' rest.
Proof.
  intros Hd. destruct (readBytes_delivers 8 8 inc out sent _ _ Hd) as (inc' & Hr & Hd'); [done..|].
  exists inc'. split; [|done]. unfold readMagic. cbv beta iota delta [mbind M_bind mret M_ret nested].
  rewrite Hr. cbn [rnested]. reflexivity.
Qed.

Lemma request_lookup schainID a nodeID :
  0 <= schainID < 2 ^ 64 -> 0 <= a < 2 ^ 64 -> 0 <= nodeID < 2 ^ 64 ->
  let j := request_fields schainID a nodeID in
  getString j "type" = Ok "BlckCatchupReq"%string /\ getUint64 j "schainID" = Ok schainID /\
  getUint64 j "blockID" = Ok a /\ getUint64 j "nodeID" = Ok nodeID.
Proof.
  intros H1 H2 H3 j. unfold j, request_fields, addCatchupRequestFields, addStatusFields, getString, getUint64, nullCheck.
  look. rewrite lookup_singleton_eq. cbn [mbind res_bind]. by rewrite !u64_small by done.
Qed.

(** What the server makes of the request. *)
Lemma createBlockCatchupResponse_spec s a bs ls :
  offers (sv_chain s) a bs ls ->
  wp (createBlockCatchupResponse C serverMax (newHeader "BlckCatchupRsp" (BodyCatchupResponse None 0 0)) a) s
    (fun r s' => sv_conn s' = sv_conn s /\ exists k,
       (1 <= k <= length bs)%nat /\ (k = 1%nat \/ zlen (concat (take k ls)) <= serverMax) /\
       (k = length bs \/ serverMax < zlen (concat (take (S k) ls))) /\
       r = Ok (answer_header (map zlen (take k ls)) (a + zlen bs)
                 (ts_s (ci_lastCommittedBlockTimeStamp (sc_info (sv_chain s)))),
               Some ([91] ++ concat (take k ls) ++ [93])) /\
       deserializeBlockList patch (map zlen (take k ls)) ([91] ++ concat (take k ls) ++ [93]) 0 true =
         Ok (map bf_clean (take k bs))).
Proof.
  intros [Hinv Hlast [Ha Hmax] Hne Hbs Hls Hsz Hst]. unfold createBlockCatchupResponse, on_chain.
  wp_simpl. rewrite wp_zoom. unfold getLastCommittedBlockID, getLastCommittedBlockTimeStamp. wp_simpl.
  assert (0 < zlen bs) as Hpos by (destruct bs; [done|unfold zlen; cbn; lia]).
  rewrite Hlast, (proj2 (Z.leb_gt (a + zlen bs) a)) by lia. wp_simpl. rewrite wp_zoom. wp_simpl.
  rewrite wp_zoom. wp_simpl. cbn [sv_chain]. rewrite Hlast, (proj2 (Z.leb_gt (a + zlen bs) a)) by lia.
  wp_simpl. rewrite wp_zoom. unfold on_blockDb, on_stores. rewrite !wp_zoom. cbn [sv_chain].
  rewrite u64_small by lia. replace (a + zlen bs) with (a + 1 + zlen bs - 1) at 1 by lia.
  eapply wp_mono; [apply (getSerializedBlocks_spec _ serverMax patch _ (a + 1) bs ls true); try done; lia|].
  cbv beta. intros r s' (_ & k & -> & Hk & Hfit & Hfull & Hd). wp_simpl.
  assert (0 < zlen (map zlen (take k ls))) as Hz.
  { destruct (serializeAll_spec patch bs ls Hbs Hls) as [Hll _].
    unfold zlen. rewrite length_map, length_take. lia. }
  split; [intros _|rewrite (proj2 (Z.ltb_lt _ _)) by done; done]. wp_simpl. cbn [rcheck mbind res_bind negb hd_complete setStatusSubStatus newHeader rnested sv_conn].
  split; [done|]. exists k. split_and!; try lia; try done.
Qed.

(** The bytes that the client writes and the ones that the server answers. *)
Definition request_bytes (a : Z) : list Z :=
  le_bytes 8 MAGIC_NUMBER ++ header_bytes_ (request_fields (cc_schainID C) a (cc_nodeID C')).

Definition answer_bytes (ls : list (list Z)) (last ts : Z) : list Z :=
  header_bytes_ (answer_fields (map zlen ls) last ts) ++ [91] ++ concat ls ++ [93].

Record configs_ok (a : Z) : Prop := {
  co_schain : cc_schainID C' = cc_schainID C;
  co_words : 0 <= cc_schainID C < 2 ^ 64 /\ 0 <= a < 2 ^ 64 /\ 0 <= cc_nodeID C' < 2 ^ 64;
  co_request : sendable_ (request_header (cc_schainID C) a (cc_nodeID C')) MAX_HEADER_SIZE
    (request_fields (cc_schainID C) a (cc_nodeID C'))
}.

Lemma server_answers s a bs ls inc out sent :
  configs_ok a -> offers (sv_chain s) a bs ls ->
  let last := a + zlen bs in
  let ts := ts_s (ci_lastCommittedBlockTimeStamp (sc_info (sv_chain s))) in
  (forall k, (1 <= k <= length bs)%nat ->
     sendable_ (answer_header (map zlen (take k ls)) last ts) MAX_CATCHUP_DOWNLOAD_BYTES
       (answer_fields (map zlen (take k ls)) last ts)) ->
  sv_conn s = mkConn inc out sent -> delivers inc (request_bytes a) -> accepts out ->
  wp (catchup_processNextAvailableConnection C K nodes serverMax) s (fun r s' => r = Ok tt /\ exists k,
    (1 <= k <= length bs)%nat /\ (k = 1%nat \/ zlen (concat (take k ls)) <= serverMax) /\
    (k = length bs \/ serverMax < zlen (concat (take (S k) ls))) /\
    cn_sent (sv_conn s') = sent ++ answer_bytes (take k ls) last ts /\
    deserializeBlockList patch (map zlen (take k ls)) ([91] ++ concat (take k ls) ++ [93]) 0 true =
      Ok (map bf_clean (take k bs))).
Proof.
  intros [_ (Hw1 & Hw2 & Hw3) Hreq] Hof last ts Hans Hconn Hdel Hacc.
  destruct (request_lookup _ _ _ Hw1 Hw2 Hw3) as (Ht & Hsid & Hbid & Hnid).
  set (j := request_fields _ _ _) in *. unfold request_bytes in Hdel. fold j in Hdel.
  destruct (readMagic_ok inc out sent _ Hdel) as (inc1 & Hmagic & Hdel1).
  rewrite <- (app_nil_r (header_bytes_ j)) in Hdel1.
  destruct (readJsonHeader_ok _ _ _ parse_dump _ _ _ _ out sent _ Hreq Hdel1) as (inc2 & Hjson & _).
  unfold catchup_processNextAvailableConnection, on_conn.
  eapply wp_step; [eapply zoom_run; rewrite Hconn, Hmagic; reflexivity|].
  eapply wp_step; [apply nested_run, zoom_run; exact Hjson|]. cbn [sv_chain sv_signed].
  eapply wp_step; [unfold lift_res; rewrite Ht; reflexivity|].
  rewrite bool_decide_eq_true_2 by done. eapply wp_step; [reflexivity|].
  rewrite wp_bind. unfold responseOrError, wp at 1.
  assert (Hresp := createBlockCatchupResponse_spec (mkServer (sv_chain s) (mkConn inc2 out sent) (sv_signed s)) a bs ls Hof).
  cbn [sv_chain sv_conn] in Hresp. fold last ts in Hresp. unfold wp in Hresp.
  unfold createResponseHeaderAndBinary, check.
  rewrite Hsid, Hbid, Hnid. cbv beta iota delta [mbind M_bind mret M_ret lift_res nested].
  rewrite Z.eqb_refl, Ht. cbv beta iota. rewrite bool_decide_eq_true_2 by done.
  destruct (createBlockCatchupResponse _ _ _ _ _) as [r s1]. cbn [fst snd] in Hresp.
  destruct Hresp as (Hc1 & k & Hk & Hfit & Hfull & -> & Hd). cbn [rnested fst snd].
  destruct (writeHeader_ok _ _ _ _ _ inc2 out sent (Hans k Hk) Hacc) as (out2 & Hsend & Hacc2).
  destruct (writeBytes_accepted ([91] ++ concat (take k ls) ++ [93]) out2 inc2
    (sent ++ header_bytes_ (answer_fields (map zlen (take k ls)) last ts)) Hacc2) as (out3 & Hwrite & _).
  { unfold zlen. cbn. lia. }
  eapply wp_step; [apply nested_run; unfold send; apply zoom_run; rewrite Hc1; exact Hsend|].
  unfold wp. cbv beta iota. erewrite zoom_run by exact Hwrite. cbn [rnested fst snd sv_conn cn_sent].
  split; [done|]. exists k. split_and!; try done; try lia. unfold answer_bytes. by rewrite <- app_assoc.
Qed.

(** ** What the client makes of the answer *)
Lemma total_size (ls : list (list Z)) acc :
  0 <= acc -> acc + zlen (concat ls) < 2 ^ 64 ->
  foldl (fun total size => u64 (total + size)) acc (map zlen ls) = acc + zlen (concat ls).
Proof.
  revert acc. induction ls as [|l ls IH]; intros acc Ha Hl.
  - cbn. unfold zlen. cbn. lia.
  - cbn [concat map foldl] in *. rewrite zlen_app in *. pose proof (zlen_nonneg l). pose proof (zlen_nonneg (concat ls)).
    rewrite u64_small by lia. rewrite IH by lia. lia.
Qed.

Lemma map_zlen_u64 (ls : list (list Z)) : zlen (concat ls) < 2 ^ 64 -> map u64 (map zlen ls) = map zlen ls.
Proof.
  intros Hmax. apply map_u64_id, Forall_map, list.Forall_forall. intros l Hin. unfold word.
  apply list_elem_of_split in Hin as (l1 & l2 & ->). rewrite concat_app in Hmax. cbn [concat] in Hmax.
  rewrite !zlen_app in Hmax. pose proof (zlen_nonneg (concat l1)). pose proof (zlen_nonneg (concat l2)).
  pose proof (zlen_nonneg l). lia.
Qed.

Lemma parseBlockSizes_answer (ls : list (list Z)) last ts :
  ls <> [] -> 4 <= zlen (concat ls) <= clientMax -> zlen (concat ls) + 2 < 2 ^ 64 ->
  parseBlockSizes clientMax (answer_fields (map zlen ls) last ts) = Ok (zlen (concat ls) + 2, map zlen ls).
Proof.
  intros Hne Hl Hmax. unfold parseBlockSizes, answer_fields, addCatchupResponseFields. look.
  rewrite map_zlen_u64, total_size by lia.
  assert (zlen (map (zlen (A := Z)) ls) <> 0) as Hz by (destruct ls; [done|unfold zlen; cbn; lia]).
  rewrite (proj2 (Z.eqb_neq _ _)) by done. rewrite (proj2 (Z.ltb_ge (0 + _) 4)), (proj2 (Z.ltb_ge clientMax _)) by lia.
  cbn [rcheck negb mbind res_bind]. by rewrite u64_small by lia.
Qed.

(** A first block above the limit of the client is sent, and refused. *)
Lemma oversized_answer_refused (ls : list (list Z)) last ts :
  ls <> [] -> clientMax < zlen (concat ls) -> 4 <= zlen (concat ls) < 2 ^ 64 ->
  parseBlockSizes clientMax (answer_fields (map zlen ls) last ts) = Err NetworkProtocolException.
Proof.
  intros Hne Hbig Hl. unfold parseBlockSizes, answer_fields, addCatchupResponseFields. look.
  rewrite map_zlen_u64, total_size by lia.
  assert (zlen (map (zlen (A := Z)) ls) <> 0) as Hz by (destruct ls; [done|unfold zlen; cbn; lia]).
  rewrite (proj2 (Z.eqb_neq _ _)) by done. rewrite (proj2 (Z.ltb_ge (0 + _) 4)), (proj2 (Z.ltb_lt clientMax _)) by lia.
  done.
Qed.

Lemma serialized_sizes (bs : list CommittedBlock) ls :
  Forall (fun b => bf_wf b /\ bf_signed b /\ daSigPresent patch b = true) bs -> serializeAll bs = Ok ls ->
  Forall (fun l => 9 <= zlen l) ls.
Proof.
  intros Hbs. revert ls. induction Hbs as [|b bs (Hwf & _ & _) _ IH]; intros ls Hs; cbn [serializeAll] in Hs.
  { injection Hs as <-. constructor. }
  destruct (bf_roundtrip b Hwf) as (_ & bytes & Hser & _ & Hsane & _). rewrite Hser in Hs. cbn [mbind res_bind] in Hs.
  destruct (serializeAll bs) as [ls'|]; cbn [mbind res_bind] in Hs; [|done]. injection Hs as <-.
  constructor; [|by apply IH]. unfold serializedSanityCheck, at_is in Hsane.
  destruct (at_ bytes 8) as [x|] eqn:Hat; [|done]. apply at_drop in Hat as [? _]. lia.
Qed.

(** The client may ask [dst]: a known node that is not dead. *)
Record may_ask (c : client D) (dst : Z) : Prop := {
  ma_index : 0 < dst <= cc_nodeCount C' /\ dst <> cc_schainIndex C';
  ma_known : is_Some (getNodeInfoByIndex nodes dst);
  ma_peers : dst <= zlen (cl_peers c) < 2 ^ 64;
  ma_alive : exists now, (getCurrentTimeMs (cl_chain c)).1 = Ok now /\
    u64 (default 0 (cl_deadNodes c !! dst) + NODE_DEATH_INTERVAL_MS) <= now
}.

Lemma extractPeer_answer sizes last ts :
  0 <= last < 2 ^ 64 -> 0 <= ts < 2 ^ 64 ->
  exists info, extractPeer (answer_fields sizes last ts) = Ok info.
Proof.
  intros Hl Ht. unfold extractPeer, answer_fields, addCatchupResponseFields. look.
  cbn [mbind res_bind]. rewrite !u64_small by done. by eexists.
Qed.

Lemma getDeathTime_run (m : gmap Z Z) dst :
  0 < dst <= cc_nodeCount C' -> getDeathTimeMs (cc_nodeCount C') dst m = (Ok (default 0 (m !! dst)), m).
Proof.
  intros Hd. unfold getDeathTimeMs, check. by rewrite (proj2 (Z.ltb_lt 0 dst)), (proj2 (Z.leb_le dst _)) by lia.
Qed.

Lemma markAlive_run (m : gmap Z Z) dst :
  0 < dst <= cc_nodeCount C' -> markAliveNode (cc_nodeCount C') dst m = (Ok tt, delete dst m).
Proof.
  intros Hd. unfold markAliveNode, check. by rewrite (proj2 (Z.ltb_lt 0 dst)), (proj2 (Z.leb_le dst _)) by lia.
Qed.

Lemma updatePeer_run (c : client D) dst info :
  0 < dst <= zlen (cl_peers c) -> zlen (cl_peers c) < 2 ^ 64 ->
  exists peers, updatePeer dst info c =
    (Ok tt, mkClient (cl_chain c) (cl_conn c) (cl_deadNodes c) peers (cl_lastStartingBlock c)).
Proof.
  intros Hd Hp. destruct info as [i|]; [|exists (cl_peers c); by destruct c].
  unfold updatePeer. cbv beta iota delta [mbind M_bind mret M_ret get].
  rewrite u64_small, (proj2 (Z.ltb_lt _ _)) by lia. by eexists.
Qed.

(** The parsing of the answer. *)
Lemma readMissingBlocks_run (c : client D) (ls : list (list Z)) last ts inc out sent blocks :
  ls <> [] -> 4 <= zlen (concat ls) <= clientMax -> zlen (concat ls) + 2 < 2 ^ 63 ->
  cl_conn c = mkConn inc out sent -> delivers inc ([91] ++ concat ls ++ [93]) ->
  deserializeBlockList patch (map zlen ls) ([91] ++ concat ls ++ [93]) 0 true = Ok blocks -> blocks <> [] ->
  exists inc', readMissingBlocks K clientMax patch (answer_fields (map zlen ls) last ts) c =
    (Ok blocks, mkClient (cl_chain c) (mkConn inc' out sent) (cl_deadNodes c) (cl_peers c) (cl_lastStartingBlock c)).
Proof.
  intros Hne Hl Hmax Hc Hd Hparse Hb.
  assert (zlen ([91] ++ concat ls ++ [93]) = zlen (concat ls) + 2) as Hz.
  { rewrite !zlen_app. change (zlen [91]) with 1. change (zlen [93]) with 1. lia. }
  rewrite <- (app_nil_r (_ ++ _)) in Hd.
  destruct (readBytes_delivers (zlen (concat ls) + 2) (zlen (concat ls) + 2) inc out sent _ _ Hd)
    as (inc' & Hread & _); [lia..|].
  exists inc'. unfold readMissingBlocks.
  eapply run_step; [unfold lift_res; rewrite parseBlockSizes_answer by lia || done; reflexivity|]. cbv beta iota.
  eapply run_step; [unfold lift_res, allocate; rewrite (proj2 (Z.ltb_lt _ _)) by lia; reflexivity|].
  eapply run_step; [apply nested_run, zoom_run; rewrite Hc; exact Hread|].
  apply nested_run. eapply run_step; [unfold lift_res; unfold client_format, catchup_format in *; rewrite Hparse; reflexivity|].
  assert (zlen blocks <> 0) as Hzb by (destruct blocks; [done|unfold zlen; cbn; lia]).
  rewrite (proj2 (Z.eqb_neq _ _)), andb_false_r by done. by eapply run_step.
Qed.

Lemma client_receives c dst locked a (ls : list (list Z)) last ts inc out blocks :
  configs_ok a -> ci_lastCommittedBlockID (sc_info (cl_chain c)) = a -> may_ask c dst ->
  0 <= last < 2 ^ 64 -> 0 <= ts < 2 ^ 64 ->
  sendable_ (answer_header (map zlen ls) last ts) MAX_CATCHUP_DOWNLOAD_BYTES (answer_fields (map zlen ls) last ts) ->
  ls <> [] -> 4 <= zlen (concat ls) <= clientMax -> zlen (concat ls) + 2 < 2 ^ 63 ->
  deserializeBlockList patch (map zlen ls) ([91] ++ concat ls ++ [93]) 0 true = Ok blocks -> blocks <> [] ->
  accepts out -> delivers inc (answer_bytes ls last ts) ->
  exists c', cl_chain c' = (getCurrentTimeMs (cl_chain c)).2 /\ cl_lastStartingBlock c' = a /\
    cn_sent (cl_conn c') = request_bytes a /\
    sync C' K nodes clientMax patch dst (Connected (mkConn inc out [])) locked c =
      cl_on_chain (blockCommitsArrivedThroughCatchup C' K locked blocks) c'.
Proof.
  intros [Hsid _ Hreq] Hlast [[Hi Hself] [nid Hknown] [Hp1 Hp2] (now & Hnow & Halive)] Hl Ht Hans Hne Hsz Hmax
    Hparse Hb Hacc Hdel.
  destruct (getCurrentTimeMs (cl_chain c)) as [r0 ch] eqn:Htime. cbn [fst snd] in *. subst r0.
  assert (ci_lastCommittedBlockID (sc_info ch) = a) as Hch.
  { pose proof (getCurrentTimeMs_keeps sc_info (fun _ _ => eq_refl) (cl_chain c)) as Hk.
    rewrite Htime in Hk. cbn in Hk. by rewrite Hk. }
  destruct (writeBytes_accepted (le_bytes 8 MAGIC_NUMBER) out inc [] Hacc) as (out1 & Hmagic & Hacc1); [done|].
  destruct (writeHeader_ok _ _ _ _ _ inc out1 (le_bytes 8 MAGIC_NUMBER) Hreq Hacc1) as (out2 & Hhead & _).
  destruct (readJsonHeader_ok _ _ _ parse_dump _ _ _ inc out2 (request_bytes a) _ Hans Hdel) as (inc1 & Hjson & Hdel1).
  destruct (extractPeer_answer (map zlen ls) last ts Hl Ht) as [info Hinfo].
  destruct (updatePeer_run (mkClient ch (mkConn inc1 out2 (request_bytes a)) (delete dst (cl_deadNodes c))
    (cl_peers c) (cl_lastStartingBlock c)) dst info) as [peers Hpeer]; [cbn; lia|done|].
  destruct (readMissingBlocks_run (mkClient ch (mkConn inc1 out2 (request_bytes a)) (delete dst (cl_deadNodes c)) peers a)
    ls last ts inc1 out2 (request_bytes a) blocks) as [inc2 Hmiss]; [done..|].
  exists (mkClient ch (mkConn inc2 out2 (request_bytes a)) (delete dst (cl_deadNodes c)) peers a).
  do 3 (split; [done|]). unfold sync.
  eapply run_step; [apply zoom_run; reflexivity|]. rewrite Hlast, Hsid.
  eapply run_step; [unfold lift_res, mkCatchupRequest; rewrite bool_decide_eq_true_2 by (by eexists); reflexivity|].
  eapply run_step; [rewrite (proj2 (Z.eqb_neq _ _)) by done; reflexivity|].
  eapply run_step; [apply zoom_run; by apply getDeathTime_run|].
  eapply run_step; [apply zoom_run; cbn [cl_chain]; exact Htime|].
  eapply run_step; [rewrite (proj2 (Z.ltb_ge _ _)) by done; reflexivity|].
  eapply run_step.
  { unfold openSocket. rewrite Hknown. eapply run_step; [apply zoom_run; by apply markAlive_run|]. reflexivity. }
  eapply run_step; [apply nested_run, zoom_run; exact Hmagic|].
  eapply run_step; [apply nested_run, zoom_run; exact Hhead|].
  eapply run_step; [apply nested_run, zoom_run; exact Hjson|].
  eapply run_step; [unfold lift_res; rewrite Hinfo; reflexivity|].
  eapply run_step; [exact Hpeer|].
  eapply run_step; [reflexivity|]. cbn -[cl_on_chain].
  eapply run_step; [reflexivity|]. eapply run_step; [apply zoom_run; reflexivity|].
  cbn [cl_chain]. rewrite Hch. eapply run_step; [reflexivity|].
  eapply run_step; [apply nested_run; exact Hmiss|]. reflexivity.
Qed.

(** *** Whatever a peer sends *)

(** The block has the hash of its contents, and its signatures verify. *)
Definition verified (b : CommittedBlock) : Prop :=
  block_authentic (cr_blake3 K) (cr_export_bits K) (cr_verifyECDSASig K) (cr_verifyThresholdSig K)
    (cr_verifyDAProofSig K) b /\ daSigPresent patch b = true.

Lemma parseBlocks_verified sizes bytes index bs e :
  parseBlocks patch sizes bytes index = (bs, e) -> Forall verified bs.
Proof.
  revert index bs e. induction sizes as [|size sizes IH]; intros index bs e; cbn [parseBlocks]; [by intros [= <- <-]|].
  unfold parseListedBlock. destruct (rcheck _ (_ <=? zlen bytes)); cbn [mbind res_bind]; [|by intros [= <- <-]].
  destruct (rcheck _ (index <=? _)); cbn [mbind res_bind]; [|by intros [= <- <-]].
  destruct (bf_parse _ true) as [b|] eqn:Hp; cbn [mbind res_bind]; [|by intros [= <- <-]].
  destruct (daSigPresent patch b) eqn:Hda; cbn [rcheck mbind res_bind]; [|by intros [= <- <-]].
  destruct (parseBlocks patch sizes bytes _) as [bs' e'] eqn:Hps. intros [= <- <-].
  constructor; [|by eapply IH]. split; [|done]. exact (deserialized_authentic _ _ _ _ _ _ _ _ _ Hp).
Qed.

Lemma deserializeBlockList_verified sizes bytes offset partial bs :
  deserializeBlockList patch sizes bytes offset partial = Ok bs -> Forall verified bs.
Proof.
  unfold deserializeBlockList, mkCommittedBlockList, at_is. intros Hd. repeat rinv Hd.
  destruct (parseBlocks patch sizes bytes _) as [bs' e] eqn:Hp. apply parseBlocks_verified in Hp.
  destruct e; [destruct (_ && _); [|done]|]; by injection Hd as <-.
Qed.

(** What the chain of the client has committed. *)
Definition client_chain (c : client D) := committed (cl_chain c).

Lemma wp_bind_keeps {S X A B} (f : S -> X) (c : M S A) (k : A -> M S B) s (Q : res B -> S -> Prop) :
  keeps f c -> (forall e s', f s' = f s -> Q (Err e) s') -> (forall a s', f s' = f s -> wp (k a) s' Q) -> wp (c ≫= k) s Q.
Proof.
  intros Hc He Hk. rewrite wp_bind. unfold wp at 1. specialize (Hc s). destruct (c s) as [[a|e] s']; [by apply Hk|by apply He].
Qed.

Lemma client_keeps_chain {A} (c : M (schain D) A) : keeps committed c -> keeps client_chain (cl_on_chain c).
Proof. intros Hc s. unfold cl_on_chain, zoom, client_chain. specialize (Hc (cl_chain s)). by destruct (c (cl_chain s)). Qed.

Lemma client_keeps_conn {A} (c : M connection A) : keeps client_chain (cl_on_conn c).
Proof. apply keeps_zoom. by intros. Qed.

Lemma client_keeps_dead {A} (c : M (gmap Z Z) A) : keeps client_chain (cl_on_dead c).
Proof. apply keeps_zoom. by intros. Qed.

Lemma getTime_committed : keeps committed (getCurrentTimeMs (D := D)).
Proof. by apply getCurrentTimeMs_keeps. Qed.

Lemma openSocket_keeps dst outcome : keeps client_chain (openSocket C' nodes dst outcome).
Proof.
  unfold openSocket. destruct (getNodeInfoByIndex nodes dst); [|apply keeps_throw]. destruct outcome.
  - apply keeps_bind; [apply client_keeps_dead|intros _; apply client_keeps_conn].
  - apply keeps_bind; [apply client_keeps_chain, getTime_committed|intros now].
    apply keeps_bind; [apply client_keeps_dead|intros _; apply keeps_throw].
  - apply keeps_throw.
Qed.

Lemma updatePeer_keeps dst info : keeps client_chain (updatePeer dst info).
Proof. intros c. unfold updatePeer. destruct info as [i|]; [|done]. rewrite mbind_run. cbn. by case_match. Qed.

Lemma readMissingBlocks_verified response c :
  wp (readMissingBlocks K clientMax patch response) c (fun r c' => client_chain c' = client_chain c /\
    forall bs, r = Ok bs -> Forall verified bs).
Proof.
  unfold readMissingBlocks. rewrite wp_bind. destruct (parseBlockSizes clientMax response) as [[total sizes]|e]; wp_simpl; [|done].
  destruct (allocate total); wp_simpl; [|done].
  apply (keeps_wp client_chain); [apply client_keeps_conn|]. unfold wp at 1.
  destruct (cl_on_conn _ c) as [[bytes|e] c1]; cbn [fst snd rnested]; intros Hc1; [|done].
  wp_simpl. destruct (deserializeBlockList patch sizes bytes 0 true) as [bs|e] eqn:Hd; wp_simpl; [|done].
  split; intros _; wp_simpl; (split; [done|]); [|done]. intros bs' [= <-]. by eapply deserializeBlockList_verified.
Qed.

(** Nothing is committed, or the chain is handed verified blocks. *)
Definition hands_over (locked : bool) (c : client D) (r : res Z) (c' : client D) : Prop :=
  client_chain c' = client_chain c \/
  exists blocks c1, Forall verified blocks /\ client_chain c1 = client_chain c /\
    cl_on_chain (blockCommitsArrivedThroughCatchup C' K locked blocks) c1 = (r, c').

Lemma sync_verified dst outcome locked c :
  wp (sync C' K nodes clientMax patch dst outcome locked) c (hands_over locked c).
Proof.
  assert (forall (r : res Z) c', client_chain c' = client_chain c -> hands_over locked c r c') as Hq by (by left).
  unfold sync.
  apply (wp_bind_keeps client_chain); [apply client_keeps_chain, keeps_gets|by auto|intros last c1 H1].
  apply (wp_bind_keeps client_chain); [apply keeps_lift|intros; apply Hq; congruence|intros req c2 H2].
  apply (wp_bind_keeps client_chain); [apply keeps_check|intros; apply Hq; congruence|intros [] c3 H3].
  apply (wp_bind_keeps client_chain); [apply client_keeps_dead|intros; apply Hq; congruence|intros death c4 H4].
  apply (wp_bind_keeps client_chain); [apply client_keeps_chain, getTime_committed|intros; apply Hq; congruence|intros now c5 H5].
  apply (wp_bind_keeps client_chain); [apply keeps_check|intros; apply Hq; congruence|intros [] c6 H6].
  apply (wp_bind_keeps client_chain); [apply openSocket_keeps|intros; apply Hq; congruence|intros [] c7 H7].
  apply (wp_bind_keeps client_chain); [apply keeps_nested, client_keeps_conn|intros; apply Hq; congruence|intros [] c8 H8].
  apply (wp_bind_keeps client_chain); [apply keeps_nested, client_keeps_conn|intros; apply Hq; congruence|intros [] c9 H9].
  apply (wp_bind_keeps client_chain); [apply keeps_nested, client_keeps_conn|intros; apply Hq; congruence|intros response c10 H10].
  apply (wp_bind_keeps client_chain); [apply keeps_lift|intros; apply Hq; congruence|intros info c11 H11].
  apply (wp_bind_keeps client_chain); [apply updatePeer_keeps|intros; apply Hq; congruence|intros [] c12 H12].
  apply (wp_bind_keeps client_chain); [apply keeps_lift|intros; apply Hq; congruence|intros status c13 H13].
  assert (client_chain c13 = client_chain c) as Hc13 by congruence. clear H1 H2 H3 H4 H5 H6 H7 H8 H9 H10 H11 H12 H13.
  destruct (u32 status =? CONNECTION_DISCONNECT); [rewrite wp_ret; by apply Hq|].
  apply (wp_bind_keeps client_chain); [apply keeps_check|intros; apply Hq; congruence|intros [] c14 H14].
  apply (wp_bind_keeps client_chain); [apply client_keeps_chain, keeps_gets|intros; apply Hq; congruence|intros last' c15 H15].
  rewrite wp_bind, wp_modify. cbv beta iota. set (c16 := mkClient _ _ _ _ _).
  assert (client_chain c16 = client_chain c) as Hc16 by (change (client_chain c16) with (client_chain c15); congruence).
  rewrite wp_bind, wp_nested. eapply wp_mono; [apply readMissingBlocks_verified|]. cbv beta.
  intros [blocks|e] c17 [Hc17 Hv]; cbn [rnested]; [|apply Hq; congruence].
  unfold wp. right. exists blocks, c17. split; [by apply Hv|]. split; [congruence|]. apply surjective_pairing.
Qed.

(** C18: A node that is behind catches up with a peer.  If a node that has
    committed [a] blocks asks a peer that has the blocks [bs] after them, the
    request that it writes makes the peer answer, and the answer is read,
    parsed and verified to exactly the first [k] of these blocks, which are then
    handed to the chain: at least one, and all of them unless the next one does
    not fit the limit of a download.  This holds whatever parts of the bytes the
    two sockets accept and deliver at a time.  And whatever any peer answers
    instead, a request leaves the committed part of the chain as it is, or hands the
    chain only blocks with the hash of their contents whose signatures verify (the
    threshold signature, the proposer's, and the data availability signature where
    there is one, which is where the patch asks for it). *)
Theorem catchup_exchange s c dst locked a bs ls inc out :
  let last := a + zlen bs in
  let ts := ts_s (ci_lastCommittedBlockTimeStamp (sc_info (sv_chain s))) in
  configs_ok a -> offers (sv_chain s) a bs ls -> 0 <= ts < 2 ^ 64 ->
  (forall k, (1 <= k <= length bs)%nat ->
     sendable_ (answer_header (map zlen (take k ls)) last ts) MAX_CATCHUP_DOWNLOAD_BYTES
       (answer_fields (map zlen (take k ls)) last ts)) ->
  serverMax <= clientMax -> zlen (concat (take 1 ls)) <= clientMax ->
  ci_lastCommittedBlockID (sc_info (cl_chain c)) = a -> may_ask c dst ->
  sv_conn s = mkConn inc out [] -> delivers inc (request_bytes a) -> accepts out ->
  (exists s' k,
    catchup_processNextAvailableConnection C K nodes serverMax s = (Ok tt, s') /\
    (1 <= k <= length bs)%nat /\ (k = length bs \/ serverMax < zlen (concat (take (S k) ls))) /\
    forall inc' out', accepts out' -> delivers inc' (cn_sent (sv_conn s')) ->
      exists c', cl_chain c' = (getCurrentTimeMs (cl_chain c)).2 /\ cl_lastStartingBlock c' = a /\
        cn_sent (cl_conn c') = request_bytes a /\
        sync C' K nodes clientMax patch dst (Connected (mkConn inc' out' [])) locked c =
          cl_on_chain (blockCommitsArrivedThroughCatchup C' K locked (map bf_clean (take k bs))) c') /\
  (forall dst' outcome locked' c1, wp (sync C' K nodes clientMax patch dst' outcome locked') c1 (hands_over locked' c1)).
Proof.
  intros last ts Hcfg Hof Hts Hsend Hmax Hfirst Hlast Hask Hconn Hdel Hacc. split; [|apply sync_verified].
  pose proof (server_answers s a bs ls inc out [] Hcfg Hof Hsend Hconn Hdel Hacc) as Hserver.
  destruct (catchup_processNextAvailableConnection _ _ _ _ s) as [r s'] eqn:Hrun.
  eapply wp_run in Hserver as (-> & k & Hk & Hfit & Hfull & Hsent & Hd); [|exact Hrun].
  exists s', k. do 3 (split; [done|]). intros inc' out' Hacc' Hdel'.
  rewrite app_nil_l in Hsent. rewrite Hsent in Hdel'.
  destruct Hof as [_ _ [Ha Hm] Hne Hbs Hls Hsz _]. pose proof (zlen_nonneg bs).
  assert (length ls = length bs) as Hll by (by eapply serializeAll_spec).
  pose proof (serialized_sizes bs ls Hbs Hls) as H9.
  assert (zlen (concat (take k ls)) <= zlen (concat ls)) as Htake.
  { rewrite <- (take_drop k ls) at 2. rewrite concat_app, zlen_app. pose proof (zlen_nonneg (concat (drop k ls))). lia. }
  apply (client_receives c dst locked a (take k ls) last ts inc' out' (map bf_clean (take k bs)));
    [exact Hcfg|exact Hlast|exact Hask|unfold last; lia|exact Hts|exact (Hsend k Hk)| | |lia|exact Hd| |exact Hacc'|exact Hdel'].
  - destruct ls, k; cbn in *; [lia..|done].
  - split.
    + destruct ls as [|l ls]; cbn in Hll; [lia|]. apply Forall_cons in H9 as [H9 _]. destruct k as [|k]; [lia|].
      cbn [take concat]. rewrite zlen_app. pose proof (zlen_nonneg (concat (take k ls))). lia.
    + destruct Hfit as [->|]; [done|lia].
  - destruct bs, k; cbn in *; [done..|lia|done].
Qed.
End Exchange.

(** ** Witness *)
Section ExchangeDemo.
#[local] Hint Extern 0 (BlockFormat CommittedBlock) => exact (catchup_format demo_crypto) : typeclass_instances.

Definition peer_nodes : node_infos := {| ni_byId := {[5 := 1; 7 := 2]}; ni_byIndex := {[1 := 5; 2 := 7]} |}.

Definition peer_chain : schain (gmap string string) :=
  mkSchain (mkInfo 12 {| ts_s := 1700000000; ts_ms := 13 |} 0 0 0 0 0 0 0)
    (mkStatus 0 false true false 0 1000 0) (demo_stores (demo_store (putUnsafe 12 demo_bytes (lru_new 3))))
    (mkOutput [] [] [] [] []) (mkWorld [1700000000500] [] [] [] []).

Definition behind_client : client (gmap string string) :=
  mkClient (mkSchain (mkInfo 11 {| ts_s := 1699999000; ts_ms := 0 |} 0 0 0 0 0 0 0)
    (mkStatus 0 false true false 0 1000 0) (demo_stores (demo_store (lru_new 3)))
    (mkOutput [] [] [] [] []) (mkWorld [1700000000500] [] [] [] [])) (mkConn [] [] []) ∅ (replicate 4 None) 0.

Lemma demo_offers :
  @offers _ _ demo_chain demo_crypto 1 demo_format_ok peer_chain 11 [demo_block] [demo_bytes].
Proof.
  constructor; [| |split; [lia|reflexivity]|done| | | |].
  - apply demo_store_inv; [apply lru_putUnsafe_inv; by apply lru_new_inv|done].
  - reflexivity.
  - apply Forall_singleton. split; [exact demo_bf_wf|]. split; [exact demo_bf_signed|reflexivity].
  - exact demo_serialized.
  - vm_compute. reflexivity.
  - intros [|j] l Hj; [|done]. apply (inj Some) in Hj as <-. unfold stored.
    replace (lru_lookup _ _) with (Some demo_bytes); [done|].
    symmetry. apply lru_lookup_put; [by apply lru_new_inv|done].
Qed.

Definition demo_answer : json := answer_fields [zlen demo_bytes] 12 1700000000.

Lemma demo_answer_sendable :
  sendable demo_str demo_dump (answer_header [zlen demo_bytes] 12 1700000000) MAX_CATCHUP_DOWNLOAD_BYTES demo_answer.
Proof.
  split; [done|]. split; [done|]. split.
  - unfold demo_answer, answer_fields, addCatchupResponseFields, addStatusFields.
    assert (0 <= zlen demo_bytes < 2 ^ 64) by (split; vm_compute; [discriminate|reflexivity]).
    apply json_plain_insert; [|by apply Forall_singleton].
    do 5 (apply json_plain_insert; [|by vm_compute]). apply json_plain_insert.
    + intros k v Hk. by rewrite lookup_empty in Hk.
    + unfold plain. cbn. repeat constructor.
  - vm_compute. repeat split; discriminate.
Qed.

Lemma demo_request_sendable :
  sendable demo_str demo_dump (request_header 1 11 7) MAX_HEADER_SIZE (request_fields 1 11 7).
Proof.
  split; [done|]. split; [done|]. split.
  - unfold request_fields, addCatchupRequestFields, addStatusFields.
    do 5 (apply json_plain_insert; [|by vm_compute]). apply json_plain_insert.
    + intros k v Hk. by rewrite lookup_empty in Hk.
    + unfold plain. cbn. repeat constructor.
  - vm_compute. repeat split; discriminate.
Qed.

Lemma demo_configs : configs_ok demo_chain demo_chain demo_crypto 11.
Proof. constructor; [done|cbn; lia|exact demo_request_sendable]. Qed.

Lemma demo_may_ask : may_ask demo_chain peer_nodes behind_client 1.
Proof.
  constructor; [cbn; lia|by eexists|by split; vm_compute|]. exists 1700000000500. split; [reflexivity|].
  vm_compute. discriminate.
Qed.

Definition demo_inbox : list recv_event :=
  [RecvChunk (take 3 (request_bytes demo_chain demo_chain demo_crypto 11));
   RecvChunk (drop 3 (request_bytes demo_chain demo_chain demo_crypto 11))].

Lemma demo_inbox_delivers : delivers demo_inbox (request_bytes demo_chain demo_chain demo_crypto 11).
Proof.
  exists [take 3 (request_bytes demo_chain demo_chain demo_crypto 11);
          drop 3 (request_bytes demo_chain demo_chain demo_crypto 11)].
  split; [done|]. split; [repeat constructor; vm_compute; discriminate|].
  cbn [concat]. by rewrite app_nil_r, take_drop.
Qed.

Lemma catchup_exchange_witness :
  exists s' : server (gmap string string), catchup_processNextAvailableConnection demo_chain demo_crypto peer_nodes 100000
      (mkServer peer_chain (mkConn demo_inbox [] []) []) = (Ok tt, s') /\
    forall inc', delivers inc' (cn_sent (sv_conn s')) -> exists c',
      sync demo_chain demo_crypto peer_nodes 100000 1 1 (Connected (mkConn inc' [] [])) true behind_client =
        cl_on_chain (blockCommitsArrivedThroughCatchup demo_chain demo_crypto true [@bf_clean _ _ demo_format_ok demo_block]) c'.
Proof.
  destruct (catchup_exchange demo_chain demo_chain demo_crypto peer_nodes 100000 100000 1 demo_parse_dump
    (format_ok := demo_format_ok)
    (mkServer peer_chain (mkConn demo_inbox [] []) []) behind_client 1 true 11 [demo_block] [demo_bytes]
    demo_inbox []) as [(s' & k & Hrun & Hk & _ & Hsync) _].
  - exact demo_configs.
  - exact demo_offers.
  - cbn. lia.
  - intros [|[|k]] Hk; [exfalso; lia|exact demo_answer_sendable|exfalso; cbn in Hk; lia].
  - lia.
  - vm_compute. discriminate.
  - reflexivity.
  - exact demo_may_ask.
  - reflexivity.
  - exact demo_inbox_delivers.
  - constructor.
  - exists s'. split; [exact Hrun|]. intros inc' Hdel. assert (k = 1%nat) as -> by (cbn in Hk; lia).
    destruct (Hsync inc' [] (Forall_nil_2 _) Hdel) as (c' & _ & _ & _ & Hs). exists c'. exact Hs.
Defined.
End ExchangeDemo.
