(* ===== verification/Finalize.v ===== *)
(** * Downloading a decided proposal

    Model of [BlockFinalizeDownloader]
    ([src/blockfinalize/client/BlockFinalizeDownloader.cpp]): a node that does
    not have the proposal of a decided block asks every other node for a
    fragment of it, one thread per node, and joins the fragments.  The threads
    share the hash, the data availability signature and the fragments; each has
    its own connection.  The random choices and the outcomes of the connections
    are arguments. *)

From stdpp Require Import base tactics gmap list strings.
From Stdlib Require Import ZArith Lia.
From S2P Require Import Prelude Bytes Messages LevelDb LevelDbSets ProposalVector ProtocolDbs.
From S2P Require Import Transactions Pricing PendingQueue Blocks Fragments BlockStore ProposalStore OtherDbs.
From S2P Require Import Schain Headers Tcp ProposalServer Catchup.

Record downloader {D : Type} := mkDownloader {
  dl_client : client D;
  dl_fragmentList : FragmentList;
  dl_blockHash : string;
  dl_daSig : option string
}.
Arguments downloader : clear implicits.
Arguments mkDownloader {D}.

Section Downloader.
Context {D : Type} `{KVStore D}.
Context (C : chain_config) (K : crypto) (nodes : node_infos).
Context (patchTimestampS blockId proposerIndex : Z).
Local Abbreviation state := (downloader D).

(** The constructor; its log line about an own proposal is left out. *)
Definition newDownloader (c : client D) : res state :=
  fragments ← mkFragmentList blockId (u64 (cc_nodeCount C - 1));
  rcheck InvalidStateException (1 <? cc_nodeCount C) ;;
  Ok (mkDownloader c fragments "" None).

Definition dl_on_client {A} (c : M (client D) A) : M state A :=
  zoom dl_client (fun x s => mkDownloader x (dl_fragmentList s) (dl_blockHash s) (dl_daSig s)) c.

Definition dl_on_chain {A} (c : M (schain D) A) : M state A := dl_on_client (cl_on_chain c).

Definition dl_on_conn {A} (c : M connection A) : M state A := dl_on_client (cl_on_conn c).

Definition on_fragments {A} (c : M FragmentList A) : M state A :=
  zoom dl_fragmentList (fun x s => mkDownloader (dl_client s) x (dl_blockHash s) (dl_daSig s)) c.

(** ** The fields of an answer *)
Definition readFragmentSize (response : json) : res Z :=
  result ← getUint64 response "fragmentSize";
  rcheck NetworkProtocolException (negb (result =? 0)) ;; Ok result.

Definition readBlockSize (response : json) : res Z :=
  result ← getUint64 response "blockSize";
  rcheck NetworkProtocolException (negb (result =? 0)) ;; Ok result.

Definition readBlockHash (response : json) : res string := getString response "blockHash".

Definition readDAProofSig (response : json) : M state string :=
  stamp ← dl_on_chain getLastCommittedBlockTimeStamp;
  lift_res (if verifyDASigsPatch patchTimestampS (ts_s stamp)
            then getString response "daSig" else maybeGetString response "daSig").

(** The critical section of [readBlockFragment]: the first hash is the expected
    one, and the first signature has to verify for it. *)
Definition noteHashAndSig (h sig : string) : M state unit :=
  s ← get;
  (if bool_decide (dl_blockHash s = ""%string)
   then modify (fun s => mkDownloader (dl_client s) (dl_fragmentList s) h (dl_daSig s))
   else if bool_decide (dl_blockHash s <> h)
   then dl_on_chain addBlockErrorAnalyzer ;; CHECK_STATE (bool_decide (h = dl_blockHash s))
   else mret tt) ;;
  s ← get;
  if bool_decide (dl_daSig s = None) && bool_decide (sig <> ""%string) then
    blakeHash ← lift_res (fromHex h);
    lift_res (cr_verifyDAProofSig K blakeHash sig blockId (2 ^ 64 - 1)) ;;
    modify (fun s => mkDownloader (dl_client s) (dl_fragmentList s) (dl_blockHash s) (Some sig))
  else mret tt.

Definition readBlockFragment (response : json) (fragmentIndex nodeCount : Z) : M state BlockProposalFragment :=
  fragmentSize ← lift_res (readFragmentSize response);
  blockSize ← lift_res (readBlockSize response);
  h ← lift_res (readBlockHash response);
  CHECK_STATE (bool_decide (h <> ""%string)) ;;
  sig ← readDAProofSig response;
  noteHashAndSig h sig ;;
  lift_res (allocate fragmentSize) ;;
  serializedFragment ← nested NetworkProtocolException (dl_on_conn (io_readBytes fragmentSize fragmentSize));
  s ← get;
  nested NetworkProtocolException
    (lift_res (mkFragment blockId (u64 (nodeCount - 1)) fragmentIndex serializedFragment blockSize (dl_blockHash s))).

(** ** One download *)
Definition downloadFragment (dstIndex fragmentIndex : Z) (outcome : connect_result) (random : Z) : M state Z :=
  nested InvalidStateException
    (header ← lift_res (mkFinalizeRequest (cc_nodeCount C) (cc_schainID C) blockId proposerIndex (cc_nodeID C)
       fragmentIndex);
     CHECK_STATE (negb (dstIndex =? cc_schainIndex C)) ;;
     death ← dl_on_client (cl_on_dead (getDeathTimeMs (cc_nodeCount C) dstIndex));
     now ← dl_on_chain getCurrentTimeMs;
     check ConnectionRefusedException (negb (now <? u64 (death + NODE_DEATH_INTERVAL_MS))) ;;
     dl_on_client (openSocket C nodes dstIndex outcome) ;;
     nested NetworkProtocolException (dl_on_conn (writeMagic false)) ;;
     nested NetworkProtocolException (dl_on_conn (writeHeader (cr_json_dump K) (cr_u256_str K) header)) ;;
     response ← nested NetworkProtocolException
       (dl_on_conn (readJsonHeader (cr_json_parse K) MAX_HEADER_SIZE));
     status ← lift_res (getUint64 response "status");
     if u32 status =? CONNECTION_DISCONNECT then mret 0
     else
       check NetworkProtocolException (u32 status =? CONNECTION_PROCEED) ;;
       blockFragment ← nested NetworkProtocolException
         (readBlockFragment response fragmentIndex (cc_nodeCount C));
       '(_, next) ← on_fragments (addFragment blockFragment random);
       mret next).

(** ** The thread of one peer *)

(** The first fragment: the node itself is left out of the numbering. *)
Definition firstFragment (dstIndex : Z) : Z :=
  if cc_schainIndex C <? dstIndex then u64 (dstIndex - 1) else dstIndex.

(** The tests at the head of the loop. *)
Definition stillNeeded : M state bool :=
  exit ← dl_on_chain isExitRequested;
  if (exit : bool) then mret false
  else
    complete ← on_fragments isComplete;
    if (complete : bool) then mret false
    else if cc_isFinalizationDownloadOnly C then mret true
    else
      last ← dl_on_chain getLastCommittedBlockID;
      if blockId <=? last then mret false
      else
        proposal ← dl_on_chain (sc_getBlockProposal C K blockId proposerIndex);
        match proposal with
        | None => mret true
        | Some p =>
            have ← dl_on_chain (on_daProofDb (haveDAProof (cc_daProofCfg C) (bp_blockID p) (bp_proposerIndex p)));
            mret (negb have)
        end.

(** [try] around one download: the next fragment, or [None] when the thread
    ends.  A failed download is repeated unless the fragments are complete. *)
Definition tryDownload (dstIndex fragmentIndex : Z) (outcome : connect_result) (random : Z) :
    M state (option Z) :=
  fun s =>
    match downloadFragment dstIndex fragmentIndex outcome random s with
    | (Ok next, s') => (Ok (if next =? 0 then None else Some next), s')
    | (Err OutOfFuel, s') => (Err OutOfFuel, s')
    | (Err ExitRequestedException, s') => (Ok None, s')
    | (Err _, s') =>
        (complete ← on_fragments isComplete;
         mret (if (complete : bool) then None else Some fragmentIndex)) s'
    end.

(** The loop, over the connections that the thread makes; [true]: it ended. *)
Fixpoint workerThreadFragmentDownloadLoop (dstIndex nextFragment : Z)
    (attempts : list (connect_result * Z)) : M state bool :=
  needed ← stillNeeded;
  if (needed : bool) then
    match attempts with
    | [] => mret false
    | (outcome, random) :: attempts =>
        next ← tryDownload dstIndex nextFragment outcome random;
        match next with
        | None => mret true
        | Some nextFragment => workerThreadFragmentDownloadLoop dstIndex nextFragment attempts
        end
    end
  else mret true.

(** The whole thread. *)
Definition workerThread (dstIndex : Z) (attempts : list (connect_result * Z)) : M state bool :=
  exit ← dl_on_chain isExitRequested;
  if (exit : bool) then mret true
  else workerThreadFragmentDownloadLoop dstIndex (firstFragment dstIndex) attempts.

(** [BlockFinalizeDownloaderThreadPool]: the destinations of the threads. *)
Definition createThread (threadIndex : Z) : option Z :=
  let destinationIndex := u64 (threadIndex + 1) in
  if destinationIndex =? cc_schainIndex C then None else Some destinationIndex.

Definition startService : list Z := omap createThread (seqZ 0 (cc_nodeCount C)).

(** ** The result, after all threads ended *)
Definition downloadedProposal : M state (option BlockProposal) :=
  nested InvalidStateException
    (complete ← on_fragments isComplete;
     if (complete : bool) then
       bytes ← on_fragments serialize_fragments;
       block ← lift_res (deserializeProposal (cr_blake3 K) (cr_u256_parse K) (cr_export_bits K)
         (cr_json_parse K) (cr_verifyECDSASig K) bytes true);
       CHECK_STATE (bp_proposerIndex block =? proposerIndex) ;;
       s ← get;
       (if bool_decide (dl_blockHash s <> ""%string) then
          h ← lift_res (fromHex (dl_blockHash s));
          CHECK_STATE (bool_decide (bp_hash block = h))
        else mret tt) ;;
       mret (Some block)
     else mret None).

(** The text of the signature; a trivial signature has none. *)
Definition getDaSig (timeStampS : Z) : M state (option string) :=
  s ← get;
  (if verifyDASigsPatch patchTimestampS timeStampS
   then CHECK_STATE (bool_decide (is_Some (dl_daSig s))) else mret tt) ;;
  mret (dl_daSig s).
End Downloader.
