(* ===== verification/FinalizeTheorems.v ===== *)
(** * Theorems about downloading a decided proposal

    Whatever the other nodes answer and however the threads interleave, the
    proposal that the node gets is the one whose hash the data availability
    signature certifies; and if the other nodes answer honestly, the node gets
    the proposal. *)

From stdpp Require Import base tactics gmap list strings relations.
From Stdlib Require Import ZArith Lia.
From S2P Require Import Prelude Bytes Messages LruCache LevelDb LevelDbSets ProposalVector ProtocolDbs.
From S2P Require Import Transactions Pricing PendingQueue Blocks Fragments BlockStore ProposalStore OtherDbs.
From S2P Require Import Schain SchainTheorems Headers Tcp ProposalServer ChainHashes Catchup CatchupTheorems Finalize.

(** ** Safety *)
Section Safety.
Context {D : Type} `{KVStore D}.
Context (C : chain_config) (K : crypto) (nodes : node_infos).
Context (patch blockId proposerIndex : Z).
Local Abbreviation state := (downloader D).
Implicit Types s : state.

(** What the threads share. *)
Definition shared s : FragmentList * string * option string := (dl_fragmentList s, dl_blockHash s, dl_daSig s).

(** An atomic action of a thread: the critical section of [readBlockFragment],
    the insertion of a fragment under the lock of the list, or something that
    leaves what is shared alone. *)
Inductive dl_step : state -> state -> Prop :=
  | dl_note s h sig : h <> ""%string -> dl_step s (noteHashAndSig K blockId h sig s).2
  | dl_add s f random :
      fr_blockHash f = dl_blockHash s -> fr_blockHash f <> ""%string ->
      dl_step s (on_fragments (addFragment f random) s).2
  | dl_local s s' : shared s' = shared s -> dl_step s s'.

(** A method is made of such actions. *)
Definition threaded {A} (c : M state A) : Prop := forall s, rtc dl_step s (c s).2.

Lemma threaded_keeps {A} (c : M state A) : keeps shared c -> threaded c.
Proof. intros Hc s. apply rtc_once, dl_local, Hc. Qed.

Lemma threaded_bind {A B} (c : M state A) (k : A -> M state B) :
  threaded c -> (forall a, threaded (k a)) -> threaded (c ≫= k).
Proof.
  intros Hc Hk s. unfold mbind, M_bind. specialize (Hc s). destruct (c s) as [[a|e] s1]; [|done].
  etrans; [exact Hc|apply Hk].
Qed.

Lemma threaded_nested {A} e (c : M state A) : threaded c -> threaded (nested e c).
Proof. intros Hc s. unfold nested. specialize (Hc s). by destruct (c s). Qed.

Lemma threaded_if {A} (b : bool) (c d : M state A) : threaded c -> threaded d -> threaded (if b then c else d).
Proof. by destruct b. Qed.

Lemma on_client_shared {A} (c : M (client D) A) : keeps shared (dl_on_client c).
Proof. by apply keeps_zoom. Qed.

Lemma on_chain_shared {A} (c : M (schain D) A) : keeps shared (dl_on_chain c).
Proof. apply on_client_shared. Qed.

Lemma on_conn_shared {A} (c : M connection A) : keeps shared (dl_on_conn c).
Proof. apply on_client_shared. Qed.

Lemma isComplete_reads : keeps id isComplete.
Proof.
  unfold isComplete, checkSanity. repeat first
    [apply keeps_bind; [|intros]|apply keeps_if|apply keeps_get|apply keeps_check|apply keeps_ret].
Qed.

Lemma isComplete_shared : keeps shared (on_fragments (D := D) isComplete).
Proof.
  intros s. unfold on_fragments, zoom. pose proof (isComplete_reads (dl_fragmentList s)) as Hr.
  destruct (isComplete (dl_fragmentList s)) as [r l]. unfold id in Hr. cbn in Hr. by subst l.
Qed.

Ltac threads :=
  repeat first
    [ apply threaded_nested | apply threaded_bind; [|intros] | apply threaded_if
    | progress intros | apply threaded_keeps; first
        [ apply keeps_lift | apply keeps_get | apply keeps_ret | apply keeps_check | apply keeps_throw
        | apply on_chain_shared | apply on_client_shared | apply on_conn_shared | apply isComplete_shared ] ].

Lemma readDAProofSig_shared j : keeps shared (readDAProofSig (D := D) patch j).
Proof. unfold readDAProofSig. apply keeps_bind; [apply on_chain_shared|intros; apply keeps_lift]. Qed.

(** The actions until the fragment is there, and the one that adds it. *)
Lemma noteHashAndSig_hash h sig s s' :
  h <> ""%string -> noteHashAndSig K blockId h sig s = (Ok tt, s') -> dl_blockHash s' = h.
Proof.
  intros Hh. unfold noteHashAndSig. cbv beta iota delta [mbind M_bind get mret M_ret modify].
  case_bool_decide as He; [|case_bool_decide as Hne].
  - case_match; [|by intros [= <-]]. unfold lift_res. repeat case_match; by intros [= <-].
  - unfold check. rewrite bool_decide_eq_false_2 by done. by destruct (dl_on_chain addBlockErrorAnalyzer s) as [[]].
  - case_match; [|by intros [= <-]]. unfold lift_res.
    repeat case_match; by intros [= <-].
Qed.

Lemma threaded_check {A} e (b : bool) (k : M state A) :
  (b = true -> threaded k) -> threaded (check e b ;; k).
Proof. intros Hk s. destruct b; [by apply Hk|]. apply rtc_refl. Qed.

Lemma readBlockFragment_threaded j i n : threaded (readBlockFragment K patch blockId j i n).
Proof.
  unfold readBlockFragment. do 3 (apply threaded_bind; [threads|intros]).
  apply threaded_check. intros Hh%bool_decide_eq_true.
  apply threaded_bind; [apply threaded_keeps, readDAProofSig_shared|intros sig].
  apply threaded_bind; [intros s; apply rtc_once; by constructor|]. threads.
Qed.

Lemma mkFragment_inv b n i data size h f :
  mkFragment b n i data size h = Ok f ->
  fr_blockHash f = h /\ h <> ""%string /\ fr_data f = data /\ fr_index f = i.
Proof.
  unfold mkFragment. destruct (bool_decide (h <> ""%string)) eqn:Hh; [|done]. apply bool_decide_eq_true in Hh.
  unfold rcheck. cbn [mbind res_bind]. cbv beta iota.
  repeat match goal with |- context [if ?b then _ else _] => destruct b; cbn [mbind res_bind]; [|done] end.
  by intros [= <-].
Qed.

Lemma readBlockFragment_hash j i n s f s' :
  readBlockFragment K patch blockId j i n s = (Ok f, s') ->
  fr_blockHash f = dl_blockHash s' /\ fr_blockHash f <> ""%string.
Proof.
  intros Hrun. eapply (wp_run _ s (fun r s' => forall f, r = Ok f ->
    fr_blockHash f = dl_blockHash s' /\ fr_blockHash f <> ""%string)); [|exact Hrun|done].
  clear Hrun f s'. unfold readBlockFragment.
  assert (forall (A : Type) (c : M state A) (k : A -> M state BlockProposalFragment) s,
    (forall a s, wp (k a) s (fun r s' => forall f, r = Ok f ->
      fr_blockHash f = dl_blockHash s' /\ fr_blockHash f <> ""%string)) ->
    wp (c ≫= k) s (fun r s' => forall f, r = Ok f ->
      fr_blockHash f = dl_blockHash s' /\ fr_blockHash f <> ""%string)) as Hstep.
  { intros A c k s0 Hk. rewrite wp_bind. unfold wp at 1. destruct (c s0) as [[a|e] s1]; [apply Hk|done]. }
  do 8 (apply Hstep; intros ? ?). wp_simpl. intros f Hf.
  match type of Hf with rnested _ ?r = _ => destruct r as [f'|] eqn:Hm; [|done] end.
  cbn in Hf. injection Hf as <-. apply mkFragment_inv in Hm as (-> & ? & _). done.
Qed.

Lemma downloadFragment_threaded dst i outcome random :
  threaded (downloadFragment C K nodes patch blockId proposerIndex dst i outcome random).
Proof.
  unfold downloadFragment. apply threaded_nested.
  do 10 (apply threaded_bind; [threads|intros]). apply threaded_if; [threads|].
  apply threaded_bind; [threads|intros _]. intros s. unfold mbind at 1, M_bind at 1.
  pose proof (readBlockFragment_threaded a7 i (cc_nodeCount C) s) as Hread.
  unfold nested. destruct (readBlockFragment K patch blockId a7 i (cc_nodeCount C) s) as [[f|e] s1] eqn:Hrun; [|done].
  apply readBlockFragment_hash in Hrun as [Hf Hne]. cbn [rnested fst snd] in *. etrans; [exact Hread|].
  apply rtc_once. unfold mbind, M_bind. pose proof (dl_add s1 f random Hf Hne) as Hadd.
  destruct (on_fragments (addFragment f random) s1) as [[[b next]|e] s2]; exact Hadd.
Qed.

Lemma stillNeeded_threaded : threaded (stillNeeded C K blockId proposerIndex).
Proof.
  unfold stillNeeded. threads. destruct a2 as [p|]; [|threads]. threads.
Qed.

Lemma tryDownload_threaded dst i outcome random :
  threaded (tryDownload C K nodes patch blockId proposerIndex dst i outcome random).
Proof.
  intros s. unfold tryDownload.
  pose proof (downloadFragment_threaded dst i outcome random s) as Hd.
  destruct (downloadFragment _ _ _ _ _ _ _ _ _ _ s) as [[next|e] s1]; [exact Hd|]. cbn [snd] in Hd.
  assert (rtc dl_step s ((complete ← on_fragments isComplete;
    mret (if (complete : bool) then None else Some i)) s1).2) as Hc.
  { etrans; [exact Hd|]. revert s1 Hd. assert (threaded (complete ← on_fragments isComplete;
      mret (if (complete : bool) then None else Some i))) as Ht by threads. intros s1 _. apply Ht. }
  destruct e; first [exact Hc|exact Hd].
Qed.

Lemma worker_threaded dst i attempts :
  threaded (workerThreadFragmentDownloadLoop C K nodes patch blockId proposerIndex dst i attempts).
Proof.
  revert i. induction attempts as [|[outcome random] attempts IH]; intros i;
    cbn [workerThreadFragmentDownloadLoop]; (apply threaded_bind; [apply stillNeeded_threaded|intros needed]).
  - threads.
  - apply threaded_if; [|threads]. apply threaded_bind; [apply tryDownload_threaded|intros [j|]; [apply IH|threads]].
Qed.

Lemma workerThread_threaded dst attempts :
  threaded (workerThread C K nodes patch blockId proposerIndex dst attempts).
Proof.
  unfold workerThread. apply threaded_bind; [threads|intros exit]. apply threaded_if; [threads|apply worker_threaded].
Qed.

(** *** Invariant *)
Record dl_inv s : Prop := {
  di_total : 0 < fl_totalFragments (dl_fragmentList s);
  di_hash : fl_fragments (dl_fragmentList s) <> ∅ -> dl_blockHash s <> ""%string;
  di_sig : forall sig, dl_daSig s = Some sig ->
    exists h, fromHex (dl_blockHash s) = Ok h /\ cr_verifyDAProofSig K h sig blockId (2 ^ 64 - 1) = Ok tt
}.

Lemma fromHex_nonempty h x : fromHex h = Ok x -> h <> ""%string.
Proof. intros Hf ->. done. Qed.

Lemma dl_inv_shared s s' : shared s' = shared s -> dl_inv s -> dl_inv s'.
Proof. intros [= Hf Hh Hs] [H1 H2 H3]. constructor; by rewrite ?Hf, ?Hh, ?Hs. Qed.

Lemma noteSig_inv h sig s :
  dl_blockHash s = h -> dl_inv s ->
  wp (s ← get;
      if bool_decide (dl_daSig s = None) && bool_decide (sig <> ""%string) then
        blakeHash ← lift_res (fromHex h);
        lift_res (cr_verifyDAProofSig K blakeHash sig blockId (2 ^ 64 - 1)) ;;
        modify (fun s => mkDownloader (dl_client s) (dl_fragmentList s) (dl_blockHash s) (Some sig))
      else mret tt) s (fun _ s' => dl_inv s').
Proof.
  intros Hs Hi. wp_simpl. destruct (_ && _); [|done]. wp_simpl.
  destruct (fromHex h) as [x|e] eqn:Hx; [|done]. wp_simpl.
  destruct (cr_verifyDAProofSig K x sig blockId (2 ^ 64 - 1)) as [[]|] eqn:Hv; [|done]. wp_simpl.
  destruct Hi. constructor; cbn [dl_fragmentList dl_blockHash dl_daSig]; [done|done|].
  intros sig' [= <-]. exists x. by rewrite Hs.
Qed.

Lemma noteHashAndSig_inv h sig s : h <> ""%string -> dl_inv s -> dl_inv (noteHashAndSig K blockId h sig s).2.
Proof.
  intros Hh Hi. change (wp (noteHashAndSig K blockId h sig) s (fun _ s' => dl_inv s')).
  unfold noteHashAndSig. rewrite wp_bind, wp_get. cbv beta iota. rewrite wp_bind.
  destruct (bool_decide_reflect (dl_blockHash s = ""%string)) as [He|He].
  - rewrite wp_modify. cbv beta iota. apply noteSig_inv; [done|]. destruct Hi as [H1 H2 H3].
    constructor; cbn; [done|done|]. intros sig' Hs. destruct (H3 sig' Hs) as (x & Hx & _).
    by apply fromHex_nonempty in Hx.
  - destruct (bool_decide_reflect (dl_blockHash s <> h)) as [Hne|Heq%dec_stable].
    + rewrite wp_bind. unfold wp at 1. pose proof (on_chain_shared addBlockErrorAnalyzer s) as Hsh.
      destruct (dl_on_chain addBlockErrorAnalyzer s) as [[[]|e] s1]; cbn [fst snd] in *;
        [|by eapply dl_inv_shared].
      rewrite bool_decide_eq_false_2 by done. by eapply dl_inv_shared.
    + rewrite wp_ret. cbv beta iota. by apply noteSig_inv.
Qed.

Lemma addFragment_frame f random l :
  let l' := (addFragment f random l).2 in fl_totalFragments l' = fl_totalFragments l.
Proof.
  assert (keeps fl_totalFragments (addFragment f random)) as Hk; [|exact (Hk l)].
  unfold addFragment, nextIndexToRetrieve, checkSanity. repeat first
    [ apply keeps_bind; [|intros] | apply keeps_if | apply keeps_get | apply keeps_check | apply keeps_ret
    | apply reads_keeps, isComplete_reads | by intros ? | case_match ].
Qed.

Lemma dl_step_inv s s' : dl_step s s' -> dl_inv s -> dl_inv s'.
Proof.
  intros [s0 h sig Hh|s0 f random Hf Hne|s0 s1 Hs] Hi.
  - by apply noteHashAndSig_inv.
  - destruct Hi as [H1 H2 H3]. unfold on_fragments, zoom. pose proof (addFragment_frame f random (dl_fragmentList s0)) as Ht.
    destruct (addFragment f random (dl_fragmentList s0)) as [r l]. cbn [snd] in Ht. constructor; cbn.
    + by rewrite Ht.
    + intros _. by rewrite <- Hf.
    + exact H3.
  - by eapply dl_inv_shared.
Qed.

Lemma newDownloader_inv c s : newDownloader C blockId c = Ok s -> dl_inv s.
Proof.
  unfold newDownloader, mkFragmentList. destruct (Z.ltb_spec 0 (u64 (cc_nodeCount C - 1))); [|done].
  cbn [rcheck mbind res_bind]. destruct (1 <? cc_nodeCount C); [|done]. cbn [rcheck mbind res_bind].
  intros [= <-]. by constructor.
Qed.

(** The first hash that any peer announces is kept, also when the signature
    that comes with it does not verify, and from then on every answer with
    another hash is refused. *)
Lemma first_hash_kept h sig s :
  h <> ""%string -> dl_blockHash s = ""%string -> dl_blockHash (noteHashAndSig K blockId h sig s).2 = h.
Proof.
  intros Hh Hs. change (wp (noteHashAndSig K blockId h sig) s (fun _ s' => dl_blockHash s' = h)).
  unfold noteHashAndSig. wp_simpl. rewrite bool_decide_eq_true_2 by done. wp_simpl. destruct (_ && _); [|done].
  wp_simpl. destruct (fromHex h); [|done]. wp_simpl. by destruct (cr_verifyDAProofSig _ _ _ _ _).
Qed.

Lemma other_hash_refused h sig s :
  dl_blockHash s <> ""%string -> dl_blockHash s <> h ->
  exists s', noteHashAndSig K blockId h sig s = (Err InvalidStateException, s') /\ shared s' = shared s.
Proof.
  intros Hs Hne. unfold noteHashAndSig. cbv beta iota delta [mbind M_bind get].
  rewrite bool_decide_eq_false_2, bool_decide_eq_true_2 by done.
  pose proof (on_chain_shared addBlockErrorAnalyzer s) as Hsh.
  assert ((dl_on_chain addBlockErrorAnalyzer s).1 = Ok tt) as Hok by done.
  destruct (dl_on_chain addBlockErrorAnalyzer s) as [r s1]. cbn in Hok, Hsh. subst r.
  unfold check. rewrite bool_decide_eq_false_2 by done. by exists s1.
Qed.

(** *** The result *)

(** The proposal is one of the decided proposer: its hash is the hash of its
    fields and transactions, and the proposer signed it. *)
Record authentic_proposal (p : BlockProposal) : Prop := {
  ap_proposer : bp_proposerIndex p = proposerIndex;
  ap_hash : bp_calculateHash (cr_blake3 K) (cr_export_bits K) (bp_proposerIndex p) (bp_proposerNodeID p)
    (bp_schainID p) (bp_blockID p) (bp_timeStamp p) (bp_timeStampMs p) (bp_stateRoot p)
    (bp_transactionList p) = Ok (bp_hash p);
  ap_signature : proposerIndex <> 0 ->
    cr_verifyECDSASig K (bp_hash p) (bp_signature p) (bp_proposerNodeID p) (bp_timeStamp p) = Ok tt
}.

Lemma deserializeProposal_authentic bytes p :
  deserializeProposal (cr_blake3 K) (cr_u256_parse K) (cr_export_bits K) (cr_json_parse K)
    (cr_verifyECDSASig K) bytes true = Ok p ->
  bp_proposerIndex p = proposerIndex -> authentic_proposal p.
Proof.
  intros Hd Hi. unfold deserializeProposal in Hd.
  destruct (extractHeader bytes) as [hs|]; cbn [mbind res_bind] in Hd; [|done].
  destruct (bool_decide (hs <> _)); cbn [rcheck mbind res_bind] in Hd; [|done].
  destruct (rnested _ _) as [h|]; cbn [mbind res_bind] in Hd; [|done].
  destruct (deserializeTransactions _ _ _ _) as [l|]; cbn [mbind res_bind] in Hd; [|done].
  unfold getSignature in Hd. destruct (bool_decide (bh_signature h <> _)); cbn [rcheck mbind res_bind] in Hd; [|done].
  destruct (mkBlockProposal _ _ _ _ _ _ _ _ _ _ _ _) as [q|] eqn:Hq; cbn [mbind res_bind] in Hd; [|done].
  apply mkBlockProposal_hash in Hq as (Hhash & Hpi & Hsig & Hts).
  destruct (if true && negb _ then _ else _) as [[]|] eqn:He; cbn [mbind res_bind] in Hd; [|done].
  injection Hd as <-. constructor; [done|done|]. intros Hne.
  rewrite <- Hpi, Hi, (proj2 (Z.eqb_neq _ 0) Hne) in He. cbn [andb negb] in He. apply rnested_all_Ok in He.
  unfold verifyProposalECDSA in He. do 4 (match type of He with
      | rcheck _ ?b ≫= _ = _ => destruct b; cbn [rcheck mbind res_bind] in He; [|done]
      end).
  rewrite <- Hsig in He. by apply rnested_all_Ok in He.
Qed.

(** What the node may conclude from a download that succeeded. *)
Definition certified s (p : BlockProposal) : Prop :=
  authentic_proposal p /\ fromHex (dl_blockHash s) = Ok (bp_hash p) /\
  forall sig, dl_daSig s = Some sig ->
    cr_verifyDAProofSig K (bp_hash p) sig blockId (2 ^ 64 - 1) = Ok tt.

Lemma isComplete_true l l' : isComplete l = (Ok true, l') ->
  l' = l /\ (0 < fl_totalFragments l -> fl_fragments l <> ∅).
Proof.
  intros Hc. pose proof (isComplete_reads l) as Hr. rewrite Hc in Hr. cbn in Hr. unfold id in Hr. split; [done|].
  intros Ht He. revert Hc. unfold isComplete, checkSanity, check.
  cbv beta iota delta [mbind M_bind get].
  assert (zsize (fl_fragments l) = 0) as -> by (by rewrite He).
  destruct (0 <=? fl_totalFragments l); cbv beta iota delta [mret M_ret]; [|done].
  assert (zsize (fl_fragments l) = 0) as -> by (by rewrite He). by rewrite (proj2 (Z.eqb_neq 0 _)) by lia.
Qed.

Lemma downloadedProposal_certified s :
  dl_inv s ->
  wp (downloadedProposal K proposerIndex) s (fun r s' => forall p, r = Ok (Some p) ->
    certified s' p /\ dl_blockHash s' = dl_blockHash s /\ dl_daSig s' = dl_daSig s).
Proof.
  intros Hi. unfold downloadedProposal. rewrite wp_nested.
  apply (wp_mono _ _ (fun r s' => forall p, r = Ok (Some p) ->
    certified s' p /\ dl_blockHash s' = dl_blockHash s /\ dl_daSig s' = dl_daSig s)).
  2:{ intros [[q|]|e] s' Hq p Hp; [|done|by destruct e]. injection Hp as ->. by apply Hq. }
  rewrite wp_bind. unfold on_fragments at 1. rewrite wp_zoom. unfold wp at 1.
  destruct (isComplete (dl_fragmentList s)) as [[[]|e] l] eqn:Hc; cbn [fst snd]; [| |done].
  2:{ rewrite wp_ret. done. }
  apply isComplete_true in Hc as [-> Hfr]. specialize (Hfr (di_total s Hi)).
  rewrite wp_bind. unfold on_fragments. rewrite wp_zoom. unfold wp at 1. cbn [dl_fragmentList dl_client dl_blockHash dl_daSig].
  destruct (serialize_fragments (dl_fragmentList s)) as [[bytes|e] l']; cbn [fst snd]; [|done].
  rewrite wp_bind, wp_lift. destruct (deserializeProposal _ _ _ _ _ bytes true) as [q|e] eqn:Hd; [|done].
  wp_simpl. split; [intros Hpi%Z.eqb_eq|done]. cbn [dl_blockHash dl_daSig].
  rewrite bool_decide_eq_true_2 by (by apply (di_hash s Hi)). wp_simpl.
  destruct (fromHex (dl_blockHash s)) as [h|e] eqn:Hh; [|done]. wp_simpl.
  split; [intros Heq%bool_decide_eq_true|done]. intros p [= <-]. split; [|done]. cbn [dl_blockHash dl_daSig].
  split; [by eapply deserializeProposal_authentic|]. cbn. rewrite Heq. split; [done|].
  intros sig Hs. destruct (di_sig s Hi sig Hs) as (h' & Hh' & Hv). rewrite Hh in Hh'. by injection Hh' as ->.
Qed.

(** C19: A downloaded proposal is the certified one.  Whatever the other nodes
    send, and in whatever order the actions of the threads interleave, if the
    download returns a proposal, it is an authentic proposal of the decided
    proposer, its hash is the one that was announced for it, and a data
    availability signature that the node goes on with is a valid one for exactly
    this hash and block.  Every run of a thread is made of the actions that are
    considered. *)
Theorem downloaded_proposal_certified c s0 s :
  newDownloader C blockId c = Ok s0 -> rtc dl_step s0 s ->
  wp (downloadedProposal K proposerIndex) s (fun r s' => forall p, r = Ok (Some p) ->
    certified s' p /\
    (forall t sig s'', getDaSig patch t s' = (Ok (Some sig), s'') ->
       cr_verifyDAProofSig K (bp_hash p) sig blockId (2 ^ 64 - 1) = Ok tt)) /\
  forall dst attempts, rtc dl_step s (workerThread C K nodes patch blockId proposerIndex dst attempts s).2.
Proof.
  intros Hnew Hsteps. split; [|intros; apply workerThread_threaded].
  assert (dl_inv s) as Hi.
  { apply newDownloader_inv in Hnew. induction Hsteps as [|s1 s2 s3 Hstep _ IH]; [done|].
    apply IH. by eapply dl_step_inv. }
  eapply wp_mono; [by apply downloadedProposal_certified|]. cbv beta. intros r s' Hq p ->.
  destruct (Hq p eq_refl) as (Hcert & _). split; [done|]. intros t sig s'' Hg. apply Hcert.
  unfold getDaSig in Hg. cbv beta iota delta [mbind M_bind get mret M_ret check] in Hg.
  destruct (verifyDASigsPatch patch t); [destruct (bool_decide (is_Some (dl_daSig s')))|];
    cbv beta iota delta [throw] in Hg; by injection Hg.
Qed.
End Safety.

(** ** The first fragments *)

(** The threads ask all other nodes, and each for another fragment: together
    they first ask for every fragment once. *)
Lemma first_fragments (C : chain_config) :
  1 <= cc_schainIndex C <= cc_nodeCount C -> cc_nodeCount C < 2 ^ 64 ->
  map (firstFragment C) (startService C) = seqZ 1 (cc_nodeCount C - 1).
Proof.
  intros Hself Hn. unfold startService. set (self := cc_schainIndex C) in *. set (m := cc_nodeCount C) in *.
  replace (seqZ 0 m) with (seqZ 0 (self - 1) ++ [self - 1] ++ seqZ self (m - self)).
  2:{ replace m with ((self - 1) + (1 + (m - self))) at 2 by lia. rewrite !seqZ_app by lia.
      replace (0 + (self - 1)) with (self - 1) by lia. replace (self - 1 + 1) with self by lia. done. }
  replace (m - 1) with ((self - 1) + (m - self)) by lia. rewrite seqZ_app by lia. replace (1 + (self - 1)) with self by lia.
  rewrite !omap_app, !map_app. cbn [omap list_omap]. unfold createThread at 2. fold self.
  rewrite u64_small by lia. replace (self - 1 + 1) with self by lia. rewrite Z.eqb_refl, app_nil_l. f_equal.
  - assert (forall l, (forall i, i ∈ l -> 0 <= i < self - 1) ->
      map (firstFragment C) (omap (createThread C) l) = map (Z.add 1) l) as Hlow.
    { induction l as [|i l IH]; intros Hl; [done|]. cbn [omap list_omap map].
      assert (0 <= i < self - 1) as Hi by (apply Hl; left). unfold createThread at 1. fold self.
      rewrite u64_small, (proj2 (Z.eqb_neq _ _)) by lia. cbn [map]. unfold firstFragment at 1. fold self.
      rewrite (proj2 (Z.ltb_ge _ _)), IH by (lia || (intros j Hj; apply Hl; by right)). f_equal. lia. }
    rewrite Hlow by (intros i Hi%elem_of_seqZ; lia).
    change (map (Z.add 1) (seqZ 0 (self - 1))) with (Z.add 1 <$> seqZ 0 (self - 1)). by rewrite fmap_add_seqZ.
  - assert (forall l, (forall i, i ∈ l -> self <= i < m) ->
      map (firstFragment C) (omap (createThread C) l) = l) as Hhigh.
    { induction l as [|i l IH]; intros Hl; [done|]. cbn [omap list_omap map].
      assert (self <= i < m) as Hi by (apply Hl; left). unfold createThread at 1. fold self.
      rewrite u64_small, (proj2 (Z.eqb_neq _ _)) by lia. cbn [map]. unfold firstFragment at 1. fold self.
      rewrite (proj2 (Z.ltb_lt _ _)), u64_small, IH by (lia || (intros j Hj; apply Hl; by right)). f_equal. lia. }
    apply Hhigh. intros i Hi%elem_of_seqZ. lia.
Qed.

(** ** Completeness *)
Section Honest.
Context {D : Type} `{KVStore D}.
Context (C C' : chain_config) (K : crypto) (nodes : node_infos) (patch serverMax : Z).
Context (parse_dump : forall j, json_plain j -> cr_json_parse K (cr_json_dump K j) = Ok j).

(** The proposal, its bytes and its data availability signature. *)
Context (p q : BlockProposal) (sp : list Z) (sig : string).
Local Abbreviation blockId := (bp_blockID p).
Local Abbreviation proposerIndex := (bp_proposerIndex p).
Local Abbreviation hash := (toHex (bp_hash p)).
Local Abbreviation n := (cc_nodeCount C - 1).
Local Abbreviation sendable_ := (sendable (cr_u256_str K) (cr_json_dump K)).
Local Abbreviation header_bytes_ := (header_bytes (cr_json_dump K)).
Local Abbreviation parse_ := (deserializeProposal (cr_blake3 K) (cr_u256_parse K) (cr_export_bits K)
  (cr_json_parse K) (cr_verifyECDSASig K)).

Definition finalize_request (i : Z) : Header :=
  setComplete (newHeader "BlckFinalizeReq" (BodyFinalizeRequest
    {| ar_schainID := cc_schainID C; ar_proposerIndex := proposerIndex; ar_blockID := blockId |} i (cc_nodeID C'))).

Definition finalize_request_fields (i : Z) : json :=
  addFinalizeRequestFields
    {| ar_schainID := cc_schainID C; ar_proposerIndex := proposerIndex; ar_blockID := blockId |} i (cc_nodeID C')
    (addStatusFields (finalize_request i) {["type"%string := JStr "BlckFinalizeReq"]}).

Definition fragment_header (i : Z) : Header :=
  mkHeader "BlckFnlzRsp" CONNECTION_PROCEED CONNECTION_OK true (BodyFinalizeResponse
    {| fz_fragmentSize := zlen (data sp n blockId hash i); fz_blockSize := zlen sp; fz_blockHash := hash;
       fz_daProofSig := sig |}).

Definition fragment_fields (i : Z) : json :=
  <["daSig"%string := JStr sig]> (<["blockSize"%string := JNum (zlen sp)]>
    (<["fragmentSize"%string := JNum (zlen (data sp n blockId hash i))]> (<["blockHash"%string := JStr hash]>
      (addStatusFields (fragment_header i) {["type"%string := JStr "BlckFnlzRsp"]})))).

Definition finalize_request_bytes (i : Z) : list Z :=
  le_bytes 8 MAGIC_NUMBER ++ header_bytes_ (finalize_request_fields i).

Definition fragment_bytes (i : Z) : list Z :=
  header_bytes_ (fragment_fields i) ++ data sp n blockId hash i.

(** The proposal is served by the other nodes: it is well formed and signed,
    and its headers fit. *)
Record servable : Prop := {
  sv_bytes : serializeProposal (cr_blake3 K) (cr_u256_str K) (cr_json_dump K) p = Ok sp;
  sv_parse : parse_ sp true = Ok q /\ bp_proposerIndex q = proposerIndex /\ bp_hash q = bp_hash p;
  sv_sane : serializedSanityCheck sp = Ok tt;
  sv_size : 16 < zlen sp < 2 ^ 62 /\ n - 1 <= zlen sp / n;
  sv_hash : Forall is_byte (bp_hash p) /\ hash_sized (bp_hash p);
  sv_sig : sig <> ""%string /\ cr_verifyDAProofSig K (bp_hash p) sig blockId (2 ^ 64 - 1) = Ok tt;
  sv_counts : 1 < cc_nodeCount C < 2 ^ 64 /\ cc_nodeCount C' = cc_nodeCount C /\ cc_schainID C' = cc_schainID C;
  sv_words : 0 <= cc_schainID C < 2 ^ 64 /\ 0 < blockId < 2 ^ 64 /\ 0 < proposerIndex <= cc_nodeCount C /\
    0 <= cc_nodeID C' < 2 ^ 64;
  sv_request : forall i, 1 <= i <= n -> sendable_ (finalize_request i) MAX_HEADER_SIZE (finalize_request_fields i);
  sv_answer : forall i, 1 <= i <= n -> sendable_ (fragment_header i) MAX_HEADER_SIZE (fragment_fields i)
}.
Context (Hp : servable).

Lemma hash_nonempty : hash <> ""%string.
Proof.
  destruct (sv_hash Hp) as [Hb Hl]. pose proof (fromHex_toHex _ Hb Hl) as Hf. by apply fromHex_nonempty in Hf.
Qed.

Lemma n_pos : 0 < n.
Proof. pose proof (sv_counts Hp). lia. Qed.

Lemma sp_size : 0 < zlen sp < 2 ^ 63.
Proof. pose proof (sv_size Hp). lia. Qed.

Lemma data_size i : 1 <= i <= n -> 2 < zlen (data sp n blockId hash i) < 2 ^ 63.
Proof.
  intros Hi. pose proof (sv_size Hp) as [Hs Hl]. unfold data.
  rewrite zlen_frag by (try apply n_pos; try apply sp_size; done).
  pose proof (piece_bounds sp n n_pos sp_size Hl i Hi).
  pose proof (start_bounds sp n n_pos sp_size Hl i Hi). lia.
Qed.

Lemma fragment_lookup i :
  1 <= i <= n ->
  let j := fragment_fields i in
  getUint64 j "status" = Ok CONNECTION_PROCEED /\ readFragmentSize j = Ok (zlen (data sp n blockId hash i)) /\
  readBlockSize j = Ok (zlen sp) /\ readBlockHash j = Ok hash /\ getString j "daSig" = Ok sig /\
  maybeGetString j "daSig" = Ok sig.
Proof.
  intros Hi j. pose proof (data_size i Hi). pose proof sp_size.
  unfold j, fragment_fields, addStatusFields, readFragmentSize, readBlockSize, readBlockHash, maybeGetString,
    getString, getUint64, nullCheck. look. cbn [mbind res_bind].
  split; [done|]. rewrite !u64_small by lia. by rewrite !(proj2 (Z.eqb_neq _ 0)) by lia.
Qed.

(** *** The client *)
Local Abbreviation state := (downloader D).
Implicit Types s : state.

(** What is shared after the fragments [X]. *)
Record collected (X : gset Z) s : Prop := {
  cd_fragments : frag_inv sp n blockId hash X (dl_fragmentList s);
  cd_hash : (X = ∅ /\ dl_blockHash s = ""%string /\ dl_daSig s = None) \/
    (dl_blockHash s = hash /\ dl_daSig s = Some sig)
}.

Lemma collected_shared X s s' : shared s' = shared s -> collected X s -> collected X s'.
Proof. intros [= Hf Hh Hs] [H1 H2]. constructor; by rewrite ?Hf, ?Hh, ?Hs. Qed.

Lemma newDownloader_collected c s : newDownloader C' blockId c = Ok s -> collected ∅ s.
Proof.
  pose proof (sv_counts Hp) as (Hc & Hc' & _). unfold newDownloader, mkFragmentList.
  rewrite Hc', u64_small, (proj2 (Z.ltb_lt 0 n)), (proj2 (Z.ltb_lt 1 _)) by lia. cbn [rcheck mbind res_bind].
  intros [= <-]. constructor; cbn; [|by left]. constructor; cbn; [set_solver| | |done|done|done|by left].
  - intros i. rewrite lookup_empty. by rewrite decide_False by set_solver.
  - symmetry. apply filter_all. set_solver.
Qed.

Lemma noteHashAndSig_run X s :
  collected X s ->
  noteHashAndSig K blockId hash sig s =
    (Ok tt, mkDownloader (dl_client s) (dl_fragmentList s) hash (Some sig)).
Proof.
  intros [_ Hs]. pose proof (sv_hash Hp) as [Hb Hl]. pose proof (sv_sig Hp) as [Hsig Hver].
  unfold noteHashAndSig. cbv beta iota delta [mbind M_bind get modify mret M_ret].
  destruct Hs as [(_ & Hh & Hd)|[Hh Hd]].
  - rewrite bool_decide_eq_true_2 by done. cbn [dl_daSig dl_client dl_fragmentList dl_blockHash].
    rewrite Hd, !bool_decide_eq_true_2 by done. cbn [andb]. unfold lift_res.
    by rewrite fromHex_toHex, Hver by done.
  - rewrite (bool_decide_eq_false_2 (dl_blockHash s = _)), (bool_decide_eq_false_2 (dl_blockHash s <> _)); cycle 1.
    { intros Hne. by apply Hne. }
    { rewrite Hh. apply hash_nonempty. }
    rewrite bool_decide_eq_false_2; [|by rewrite Hd]. cbn [andb]. destruct s. cbn in *. by subst.
Qed.

Lemma readDAProofSig_run i s : 1 <= i <= n -> readDAProofSig patch (fragment_fields i) s = (Ok sig, s).
Proof.
  intros Hi. destruct (fragment_lookup i Hi) as (_ & _ & _ & _ & Hs & Hm). unfold readDAProofSig.
  eapply run_step; [apply zoom_run, zoom_run; reflexivity|]. unfold lift_res. rewrite Hs, Hm.
  destruct s as [[]]. by destruct (verifyDASigsPatch _ _).
Qed.

Lemma mkFragment_data i :
  1 <= i <= n -> mkFragment blockId n i (data sp n blockId hash i) (zlen sp) hash = Ok (frag sp n blockId hash i).
Proof.
  intros Hi. pose proof (sv_words Hp) as (_ & [Hb _] & _).
  apply mkFragment_ok; auto using hash_nonempty, n_pos, sp_size. apply (sv_size Hp).
Qed.

Lemma readBlockFragment_run X i s inc out sent rest :
  collected X s -> 1 <= i <= n -> cl_conn (dl_client s) = mkConn inc out sent ->
  delivers inc (data sp n blockId hash i ++ rest) ->
  exists c, readBlockFragment K patch blockId (fragment_fields i) i (cc_nodeCount C') s =
    (Ok (frag sp n blockId hash i), mkDownloader c (dl_fragmentList s) hash (Some sig)).
Proof.
  intros Hc Hi Hconn Hdel. destruct (fragment_lookup i Hi) as (_ & Hf & Hb & Hh & _).
  pose proof (data_size i Hi) as Hd. pose proof (sv_counts Hp) as (Hn & Hn' & _).
  destruct (readBytes_delivers (zlen (data sp n blockId hash i)) (zlen (data sp n blockId hash i)) inc out sent _ _ Hdel)
    as (inc' & Hread & _); [lia..|].
  eexists. unfold readBlockFragment.
  do 3 (eapply run_step; [unfold lift_res; first [rewrite Hf|rewrite Hb|rewrite Hh]; reflexivity|]).
  eapply run_step; [rewrite bool_decide_eq_true_2 by apply hash_nonempty; reflexivity|].
  eapply run_step; [by apply readDAProofSig_run|].
  eapply run_step; [by eapply noteHashAndSig_run|].
  eapply run_step; [unfold lift_res, allocate; rewrite (proj2 (Z.ltb_lt _ _)) by lia; reflexivity|].
  eapply run_step; [apply nested_run, zoom_run, zoom_run; cbn [dl_client]; rewrite Hconn; exact Hread|].
  eapply run_step; [reflexivity|]. cbn [dl_blockHash].
  apply nested_run. unfold lift_res. rewrite Hn', u64_small by lia. by rewrite mkFragment_data.
Qed.

Lemma finalizeRequest_run i :
  1 <= i <= n ->
  mkFinalizeRequest (cc_nodeCount C') (cc_schainID C') blockId proposerIndex (cc_nodeID C') i = Ok (finalize_request i).
Proof.
  intros Hi. pose proof (sv_counts Hp) as (_ & -> & ->). pose proof (sv_words Hp) as (_ & _ & Hpi & _).
  unfold mkFinalizeRequest, mkAbstractBlockRequestHeader.
  rewrite (proj2 (Z.leb_le proposerIndex _)), (proj2 (Z.ltb_lt 0 proposerIndex)) by lia. cbn [rcheck mbind res_bind].
  by rewrite (proj2 (Z.ltb_lt 0 i)), (proj2 (Z.leb_le i n)) by lia.
Qed.

(** Projections of the state that a step leaves behind. *)
Ltac tidy := cbn [dl_client dl_fragmentList dl_blockHash dl_daSig cl_chain cl_conn cl_deadNodes cl_peers
  cl_lastStartingBlock].

Lemma downloadFragment_honest X i dst random s inc out :
  collected X s -> 1 <= i <= n -> 0 <= random -> may_ask C' nodes (dl_client s) dst -> accepts out ->
  delivers inc (fragment_bytes i) ->
  wp (downloadFragment C' K nodes patch blockId proposerIndex dst i (Connected (mkConn inc out [])) random) s
    (fun r s' => (exists next, r = Ok next /\ (next = 0 \/ 1 <= next <= n)) /\ collected ({[i]} ∪ X) s').
Proof.
  intros Hcol Hi Hrand [[Hidx Hself] [nid Hknown] _ (now & Hnow & Halive)] Hacc Hdel.
  destruct (getCurrentTimeMs (cl_chain (dl_client s))) as [r0 ch] eqn:Htime. cbn [fst snd] in *. subst r0.
  destruct (writeBytes_accepted (le_bytes 8 MAGIC_NUMBER) out inc [] Hacc) as (out1 & Hmagic & Hacc1); [done|].
  destruct (writeHeader_ok _ _ _ _ _ inc out1 (le_bytes 8 MAGIC_NUMBER) (sv_request Hp i Hi) Hacc1) as (out2 & Hhead & _).
  destruct (readJsonHeader_ok _ _ _ parse_dump _ _ _ inc out2 (finalize_request_bytes i) _ (sv_answer Hp i Hi) Hdel)
    as (inc1 & Hjson & Hdel1).
  destruct (fragment_lookup i Hi) as (Hst & _).
  rewrite <- (app_nil_r (data _ _ _ _ i)) in Hdel1.
  set (s1 := mkDownloader (mkClient ch (mkConn inc1 out2 (finalize_request_bytes i)) (delete dst (cl_deadNodes (dl_client s)))
    (cl_peers (dl_client s)) (cl_lastStartingBlock (dl_client s))) (dl_fragmentList s) (dl_blockHash s) (dl_daSig s)).
  assert (collected X s1) as Hcol1 by exact (collected_shared X s s1 eq_refl Hcol).
  destruct (readBlockFragment_run X i s1 inc1 out2 _ [] Hcol1 Hi eq_refl Hdel1) as [c Hfrag].
  unfold downloadFragment. rewrite wp_nested.
  eapply wp_step; [unfold lift_res; rewrite finalizeRequest_run by done; reflexivity|].
  eapply wp_step; [rewrite (proj2 (Z.eqb_neq _ _)) by done; reflexivity|].
  eapply wp_step; [apply zoom_run, zoom_run; by apply getDeathTime_run|]. tidy.
  eapply wp_step; [apply zoom_run, zoom_run; cbn [cl_chain dl_client]; exact Htime|]. tidy.
  eapply wp_step; [rewrite (proj2 (Z.ltb_ge _ _)) by done; reflexivity|].
  eapply wp_step.
  { apply zoom_run. unfold openSocket. rewrite Hknown. eapply run_step; [apply zoom_run; by apply markAlive_run|]. reflexivity. } tidy.
  eapply wp_step; [apply nested_run, zoom_run, zoom_run; exact Hmagic|]. tidy.
  eapply wp_step; [apply nested_run, zoom_run, zoom_run; exact Hhead|]. tidy.
  eapply wp_step; [apply nested_run, zoom_run, zoom_run; exact Hjson|]. tidy.
  eapply wp_step; [apply lift_run; exact Hst|].
  change (u32 CONNECTION_PROCEED =? CONNECTION_DISCONNECT) with false. cbv iota.
  change (u32 CONNECTION_PROCEED =? CONNECTION_PROCEED) with true.
  eapply wp_step; [apply check_run|].
  eapply wp_step; [apply nested_run; exact Hfrag|].
  rewrite wp_bind. unfold on_fragments. rewrite wp_zoom. cbn [dl_fragmentList s1].
  pose proof (sv_words Hp) as (_ & [Hb _] & _).
  eapply wp_mono; [apply addFragment_spec; eauto using hash_nonempty, n_pos, sp_size|].
  - apply (sv_size Hp).
  - apply Hcol.
  - cbv beta. intros r l (Hl & next & -> & Hnext). wp_simpl. cbn [rnested]. split.
    + exists next. split; [done|]. destruct Hnext as [|[? _]]; [by left|by right].
    + constructor; [exact Hl|]. by right.
Qed.

(** *** The server *)

(** The chain finds the proposal and its signature. *)
Definition has_proposal (ch : schain D) : Prop := forall h conn signed, exists ch',
  findProposal C K h blockId proposerIndex (mkServer ch conn signed) =
    (Ok (inr (p, sig)), mkServer ch' conn signed).

(** The databases of the chain hold the proposal with its signature: as a
    proposal with a data availability proof, or, when the proposal or its proof
    is gone, in the committed block. *)
Inductive stores_proposal (ch : schain D) : Prop :=
  | stores_proven ch1 ch2 ch3 :
      sc_getBlockProposal C K blockId proposerIndex ch = (Ok (Some p), ch1) ->
      on_daProofDb (haveDAProof (cc_daProofCfg C) blockId proposerIndex) ch1 = (Ok true, ch2) ->
      on_daProofDb (getDASig (cc_daProofCfg C) blockId proposerIndex) ch2 = (Ok sig, ch3) ->
      stores_proposal ch
  | stores_committed b ch1 ch2 :
      sc_getBlockProposal C K blockId proposerIndex ch = (Ok None, ch1) ->
      sc_getBlock C K blockId ch1 = (Ok (Some b), ch2) -> cb_block b = p -> cb_daSig b = sig ->
      stores_proposal ch
  | stores_unproven b x ch1 ch2 ch3 :
      sc_getBlockProposal C K blockId proposerIndex ch = (Ok (Some x), ch1) ->
      on_daProofDb (haveDAProof (cc_daProofCfg C) (bp_blockID x) (bp_proposerIndex x)) ch1 = (Ok false, ch2) ->
      sc_getBlock C K blockId ch2 = (Ok (Some b), ch3) -> cb_block b = p -> cb_daSig b = sig ->
      stores_proposal ch.

Lemma stores_has_proposal ch : stores_proposal ch -> has_proposal ch.
Proof.
  intros [ch1 ch2 ch3 H1 H2 H3|b ch1 ch2 H1 H2 Hb Hs|b x ch1 ch2 ch3 H1 H2 H3 Hb Hs] h conn signed; unfold findProposal.
  - exists ch3. eapply run_step; [apply zoom_run; exact H1|]. eapply run_step; [apply zoom_run; exact H2|].
    eapply run_step; [apply zoom_run; exact H3|]. reflexivity.
  - exists ch2. eapply run_step; [apply zoom_run; exact H1|]. eapply run_step; [reflexivity|].
    eapply run_step; [apply zoom_run; exact H2|]. cbv beta iota. rewrite Hb, Hs, Z.eqb_refl. reflexivity.
  - exists ch3. eapply run_step; [apply zoom_run; exact H1|]. eapply run_step; [apply zoom_run; exact H2|].
    eapply run_step; [apply zoom_run; exact H3|]. cbv beta iota. rewrite Hb, Hs, Z.eqb_refl. reflexivity.
Qed.

Lemma request_fields_lookup i :
  1 <= i <= n ->
  let j := finalize_request_fields i in
  getString j "type" = Ok "BlckFinalizeReq"%string /\ getUint64 j "schainID" = Ok (cc_schainID C) /\
  getUint64 j "blockID" = Ok blockId /\ getUint64 j "nodeID" = Ok (cc_nodeID C') /\
  getUint64 j "fragmentIndex" = Ok i /\ getUint64 j "proposerIndex" = Ok proposerIndex.
Proof.
  intros Hi j. pose proof (sv_words Hp) as (H1 & H2 & H3 & H4). pose proof (sv_counts Hp) as (H5 & _).
  unfold j, finalize_request_fields, addFinalizeRequestFields, addBlockFields, addStatusFields, getString, getUint64,
    nullCheck. look. rewrite lookup_singleton_eq. cbn [mbind res_bind ar_schainID ar_blockID ar_proposerIndex].
  by rewrite !u64_small by lia.
Qed.

Lemma createBlockFinalizeResponse_run ch conn signed i :
  has_proposal ch -> 1 <= i <= n ->
  exists ch', createBlockFinalizeResponse C K (finalize_request_fields i)
    (newHeader "BlckFnlzRsp" (BodyFinalizeResponse {| fz_fragmentSize := 0; fz_blockSize := 0;
       fz_blockHash := ""; fz_daProofSig := "" |})) blockId (mkServer ch conn signed) =
    (Ok (fragment_header i, Some (data sp n blockId hash i)), mkServer ch' conn signed).
Proof.
  intros Hhas Hi. destruct (request_fields_lookup i Hi) as (_ & _ & _ & _ & Hf & Hpi).
  pose proof (sv_words Hp) as (_ & [Hb _] & Hr & _). pose proof (sv_sig Hp) as [Hsig _]. pose proof (data_size i Hi).
  destruct (Hhas (newHeader "BlckFnlzRsp" (BodyFinalizeResponse {| fz_fragmentSize := 0; fz_blockSize := 0;
    fz_blockHash := ""; fz_daProofSig := "" |})) conn signed) as [ch' Hfind].
  exists ch'. unfold createBlockFinalizeResponse. apply nested_run.
  eapply run_step; [unfold lift_res; rewrite Hf; reflexivity|].
  rewrite (proj2 (Z.ltb_ge i 1)), (proj2 (Z.ltb_ge n i)) by lia. cbn [orb].
  eapply run_step; [unfold lift_res; rewrite Hpi; reflexivity|].
  rewrite (proj2 (Z.ltb_ge proposerIndex 1)), (proj2 (Z.ltb_ge (cc_nodeCount C) i)) by lia. cbn [orb].
  eapply run_step; [exact Hfind|]. cbv beta iota.
  eapply run_step; [rewrite bool_decide_eq_true_2 by done; reflexivity|].
  eapply run_step; [unfold lift_res; rewrite (sv_bytes Hp); reflexivity|].
  eapply run_step; [unfold lift_res; rewrite getFragment_ok; [reflexivity|..]; auto using hash_nonempty, n_pos, sp_size;
    apply (sv_size Hp)|].
  eapply run_step; [|reflexivity]. unfold lift_res, setFragmentParams. f_equal.
  fold (data sp n blockId hash i). pose proof (sv_size Hp) as [Hs _].
  rewrite (proj2 (Z.ltb_lt 2 _)), (proj2 (Z.ltb_lt 16 _)), !bool_decide_eq_true_2 by (done || lia || apply hash_nonempty).
  reflexivity.
Qed.

Lemma server_sends_fragment ch signed i inc out :
  has_proposal ch -> is_Some (getNodeInfoById nodes (cc_nodeID C')) -> 1 <= i <= n ->
  delivers inc (finalize_request_bytes i) -> accepts out ->
  exists s' : server D, catchup_processNextAvailableConnection C K nodes serverMax (mkServer ch (mkConn inc out []) signed) =
    (Ok tt, s') /\ cn_sent (sv_conn s') = fragment_bytes i.
Proof.
  intros Hhas [idx Hnode] Hi Hdel Hacc. destruct (request_fields_lookup i Hi) as (Ht & Hsid & Hbid & Hnid & _ & _).
  destruct (readMagic_ok inc out [] _ Hdel) as (inc1 & Hmagic & Hdel1).
  rewrite <- (app_nil_r (header_bytes_ _)) in Hdel1.
  destruct (readJsonHeader_ok _ _ _ parse_dump _ _ _ _ out [] _ (sv_request Hp i Hi) Hdel1) as (inc2 & Hjson & _).
  destruct (createBlockFinalizeResponse_run ch (mkConn inc2 out []) signed i Hhas Hi) as [ch' Hresp].
  destruct (writeHeader_ok _ _ _ _ _ inc2 out [] (sv_answer Hp i Hi) Hacc) as (out2 & Hsend & Hacc2).
  destruct (writeBytes_accepted (data sp n blockId hash i) out2 inc2 (header_bytes_ (fragment_fields i)) Hacc2)
    as (out3 & Hwrite & _); [pose proof (data_size i Hi); lia|].
  eexists. split.
  - unfold catchup_processNextAvailableConnection.
    eapply run_step; [eapply zoom_run; cbn [sv_conn]; rewrite Hmagic; reflexivity|].
    eapply run_step; [apply nested_run, zoom_run; exact Hjson|]. cbn [sv_chain sv_signed].
    eapply run_step; [unfold lift_res; rewrite Ht; reflexivity|].
    rewrite bool_decide_eq_false_2, bool_decide_eq_true_2 by done. eapply run_step; [reflexivity|].
    eapply run_step.
    { unfold responseOrError, createResponseHeaderAndBinary. erewrite (nested_run _ _ _ (fragment_header i, Some (data sp n blockId hash i))); [reflexivity|].
      eapply run_step; [unfold lift_res; rewrite Hsid; reflexivity|].
      eapply run_step; [unfold lift_res; rewrite Hbid; reflexivity|].
      eapply run_step; [unfold lift_res; rewrite Hnid; reflexivity|].
      eapply run_step; [rewrite Z.eqb_refl; reflexivity|].
      eapply run_step; [unfold lift_res; rewrite Ht; reflexivity|].
      rewrite bool_decide_eq_false_2, bool_decide_eq_true_2, Hnode by done. exact Hresp. }
    cbv beta iota. eapply run_step; [apply nested_run; unfold send; apply zoom_run; exact Hsend|].
    apply nested_run, zoom_run. exact Hwrite.
  - reflexivity.
Qed.

(** *** All fragments *)

(** Downloads from peers that answer honestly, in any order, with anything
    between them that leaves alone what the threads share: failed connections,
    the clock, the chain. *)
Inductive honest_run : state -> list Z -> state -> Prop :=
  | hr_nil s : honest_run s [] s
  | hr_local s s1 l s' : shared s1 = shared s -> honest_run s1 l s' -> honest_run s l s'
  | hr_download s i dst random inc out l s' :
      1 <= i <= n -> 0 <= random -> may_ask C' nodes (dl_client s) dst -> accepts out ->
      delivers inc (fragment_bytes i) ->
      honest_run (downloadFragment C' K nodes patch blockId proposerIndex dst i
        (Connected (mkConn inc out [])) random s).2 l s' ->
      honest_run s (i :: l) s'.

Lemma honest_run_collected s l s' X :
  honest_run s l s' -> collected X s -> collected (list_to_set l ∪ X) s'.
Proof.
  intros Hrun. revert X. induction Hrun as [s|s s1 l s' Hs _ IH|s i dst random inc out l s' Hi Hr Ha Ho Hd _ IH]; intros X Hc.
  - by rewrite (union_empty_l_L X : list_to_set [] ∪ X = X).
  - apply IH. by eapply collected_shared.
  - pose proof (downloadFragment_honest X i dst random s inc out Hc Hi Hr Ha Ho Hd) as [_ Hc1].
    apply IH in Hc1. cbn [list_to_set]. by rewrite <- (assoc_L (∪)), (comm_L (∪) {[i]}), <- (assoc_L (∪)), (comm_L (∪) X) .
Qed.

Lemma downloadedProposal_complete s :
  collected (members n) s -> wp (downloadedProposal K proposerIndex) s (fun r _ => r = Ok (Some q)).
Proof.
  intros [Hf Hs]. pose proof (sv_words Hp) as (_ & [Hb _] & _). pose proof (sv_size Hp) as [_ Hlong].
  pose proof (sv_parse Hp) as (Hq & Hqi & Hqh). pose proof (sv_hash Hp) as [Hby Hsz].
  pose proof (sv_sane Hp) as Hsane. unfold serializedSanityCheck, at_is in Hsane.
  assert (dl_blockHash s = hash) as Hhash.
  { destruct Hs as [[He _]|[Hh _]]; [|done]. assert (1 ∈ members n) as Hin by (apply elem_of_members; pose proof n_pos; lia).
    rewrite He in Hin. set_solver. }
  unfold downloadedProposal. rewrite wp_nested, wp_bind. unfold on_fragments. rewrite wp_zoom.
  eapply wp_mono; [exact (isComplete_spec sp n blockId hash hash_nonempty Hb n_pos sp_size Hlong _ _ Hf)|]. cbv beta. intros r l (-> & ->).
  rewrite bool_decide_eq_true_2 by done. rewrite wp_bind, wp_zoom. cbn [dl_fragmentList].
  destruct (at_ sp 8) as [x|] eqn:Hat; cbn [mbind res_bind] in Hsane; [|done].
  destruct (x =? 123) eqn:Hx; cbn [rcheck mbind res_bind] in Hsane; [|done].
  destruct (back_is 62 sp) eqn:Hback; [|done].
  eapply wp_mono; [apply (serialize_fragments_spec sp n blockId hash hash_nonempty Hb n_pos sp_size Hlong _ Hf); [|done]|].
  { unfold at_is. rewrite Hat. cbn [mbind res_bind]. by rewrite Hx. }
  cbv beta. intros r l ->. rewrite wp_bind, wp_lift, Hq. wp_simpl. rewrite Hqi, Z.eqb_refl. split; [intros _|done].
  cbn [dl_blockHash]. rewrite Hhash, bool_decide_eq_true_2 by apply hash_nonempty. wp_simpl.
  rewrite fromHex_toHex by done. wp_simpl. rewrite Hqh, bool_decide_eq_true_2 by done. split; done.
Qed.

(** C20: A decided proposal is downloaded.  A node whose databases hold the
    proposal with its data availability signature, or the committed block made
    of it, answers a request for a fragment with that fragment; and a node that has read the answers for all fragments, from any
    peers, in any order and whatever parts of the bytes the sockets deliver at a
    time, ends with exactly this proposal and its signature. *)
Theorem finalize_download_completes c s0 l s :
  newDownloader C' blockId c = Ok s0 -> honest_run s0 l s -> (forall i, 1 <= i <= n -> i ∈ l) ->
  wp (downloadedProposal K proposerIndex) s (fun r _ => r = Ok (Some q)) /\ dl_daSig s = Some sig /\
  forall ch signed i inc out,
    stores_proposal ch -> is_Some (getNodeInfoById nodes (cc_nodeID C')) -> 1 <= i <= n ->
    delivers inc (finalize_request_bytes i) -> accepts out ->
    exists s' : server D, catchup_processNextAvailableConnection C K nodes serverMax
      (mkServer ch (mkConn inc out []) signed) = (Ok tt, s') /\ cn_sent (sv_conn s') = fragment_bytes i.
Proof.
  intros Hnew Hrun Hall. apply newDownloader_collected in Hnew.
  pose proof (honest_run_collected s0 l s ∅ Hrun Hnew) as Hcol.
  assert (list_to_set l ∪ ∅ = members n) as Heq.
  { apply set_eq. intros i. split; [intros Hi; by apply (fi_sub _ _ _ _ _ _ (cd_fragments _ _ Hcol))|].
    intros Hi%elem_of_members%Hall. set_solver. }
  rewrite Heq in Hcol. split; [by apply downloadedProposal_complete|]. split; [|by intros; apply server_sends_fragment; [apply stores_has_proposal|..]].
  destruct Hcol as [_ [[He _]|[_ Hs]]]; [|done].
  assert (1 ∈ members n) as Hin by (apply elem_of_members; pose proof n_pos; lia). rewrite He in Hin. set_solver.
Qed.
End Honest.

(** ** Witnesses *)
Section FinalizeDemo.
Definition demo_sp : list Z := Eval vm_compute in
  match serializeProposal demo_hash demo_str demo_dump demo_proposal with Ok l => l | Err _ => [] end.

Definition demo_q : BlockProposal := Eval vm_compute in
  match deserializeProposal demo_hash demo_u256_parse demo_export demo_json_parse (fun _ _ _ _ => Ok tt) demo_sp true with
  | Ok p => p | Err _ => demo_proposal end.

Lemma json_plain_type s : plain s -> json_plain {["type"%string := JStr s]}.
Proof.
  intros Hs. apply (json_plain_insert ∅); [|exact Hs]. intros k v Hk. by rewrite lookup_empty in Hk.
Qed.

Local Abbreviation demo_fields := (fragment_fields demo_chain demo_proposal demo_sp "da").
Local Abbreviation demo_fragment := (fragment_bytes demo_chain demo_crypto demo_proposal demo_sp "da").

Lemma demo_fragment_sendable i :
  1 <= i <= 3 ->
  sendable demo_str demo_dump (fragment_header demo_chain demo_proposal demo_sp "da" i) MAX_HEADER_SIZE (demo_fields i).
Proof.
  intros Hi. assert (i = 1 \/ i = 2 \/ i = 3) as Hcases by lia.
  split; [done|]. split; [done|]. split.
  - unfold fragment_fields, addStatusFields.
    apply json_plain_insert; [|unfold plain; cbn; repeat constructor].
    apply json_plain_insert; [|by vm_compute].
    apply json_plain_insert; [|by destruct Hcases as [->|[->| ->]]; vm_compute].
    apply json_plain_insert; [|apply plain_toHex].
    do 2 (apply json_plain_insert; [|done]). apply json_plain_type. unfold plain. cbn. repeat constructor.
  - destruct Hcases as [->|[->| ->]]; vm_compute; repeat split; discriminate.
Qed.

Lemma demo_finalize_request_sendable i :
  1 <= i <= 3 ->
  sendable demo_str demo_dump (finalize_request demo_chain demo_chain demo_proposal i) MAX_HEADER_SIZE
    (finalize_request_fields demo_chain demo_chain demo_proposal i).
Proof.
  intros Hi. assert (i = 1 \/ i = 2 \/ i = 3) as Hcases by lia.
  split; [done|]. split; [done|]. split.
  - unfold finalize_request_fields, addFinalizeRequestFields, addBlockFields, addStatusFields.
    apply json_plain_insert; [|done]. apply json_plain_insert; [|lia].
    do 5 (apply json_plain_insert; [|done]). apply json_plain_type. unfold plain. cbn. repeat constructor.
  - destruct Hcases as [->|[->| ->]]; vm_compute; repeat split; discriminate.
Qed.

Lemma demo_servable : servable demo_chain demo_chain demo_crypto demo_proposal demo_q demo_sp "da".
Proof.
  constructor.
  - vm_compute. reflexivity.
  - split; [|split]; vm_compute; reflexivity.
  - vm_compute. reflexivity.
  - split; [split|]; vm_compute; (reflexivity || discriminate).
  - split; [apply demo_hash_bytes|done].
  - done.
  - cbn. lia.
  - cbn. lia.
  - exact demo_finalize_request_sendable.
  - exact demo_fragment_sendable.
Qed.

Definition demo_start : downloader (gmap string string) :=
  mkDownloader behind_client {| fl_fragments := ∅; fl_missing := [1; 2; 3]; fl_blockSize := -1; fl_blockHash := "";
    fl_isSerialized := false; fl_blockID := 12; fl_totalFragments := 3 |} "" None.

Definition on_time (s : downloader (gmap string string)) : downloader (gmap string string) :=
  mkDownloader behind_client (dl_fragmentList s) (dl_blockHash s) (dl_daSig s).

Definition demo_fetch (i : Z) (s : downloader (gmap string string)) : downloader (gmap string string) :=
  (downloadFragment demo_chain demo_crypto peer_nodes 1 12 2 1 i
    (Connected (mkConn [RecvChunk (demo_fragment i)] [] [])) 0 (on_time s)).2.

Definition demo_end : downloader (gmap string string) := demo_fetch 1 (demo_fetch 3 (demo_fetch 2 demo_start)).

Local Abbreviation demo_honest := (honest_run demo_chain demo_chain demo_crypto peer_nodes 1 demo_proposal demo_sp "da").

Lemma demo_fetch_run i s l s' : 1 <= i <= 3 -> demo_honest (demo_fetch i s) l s' -> demo_honest s (i :: l) s'.
Proof.
  intros Hi Hrun. apply (hr_local _ _ _ _ _ _ _ _ s (on_time s)); [done|].
  apply (hr_download _ _ _ _ _ _ _ _ (on_time s) i 1 0 [RecvChunk (demo_fragment i)] []); [done|lia| | | |exact Hrun].
  - exact demo_may_ask.
  - constructor.
  - exists [demo_fragment i]. split; [done|]. split; [|by cbn [concat]; rewrite app_nil_r].
    repeat constructor. unfold fragment_bytes, header_bytes. by destruct (le_bytes 8 _) eqn:He.
Qed.

Lemma demo_end_run : demo_honest demo_start [2; 3; 1] demo_end.
Proof. do 3 (apply demo_fetch_run; [lia|]). apply hr_nil. Qed.

Lemma demo_new : newDownloader demo_chain 12 behind_client = Ok demo_start.
Proof. reflexivity. Qed.

(** A chain that got the proposal, and its data availability proof. *)
Definition demo_holder : schain (gmap string string) :=
  (on_daProofDb (addDAProof (cc_daProofCfg demo_chain)
     {| da_blockID := 12; da_proposerIndex := 2; da_hash := bp_hash demo_proposal; da_thresholdSig := "da" |})
   (on_proposalDb (addBlockProposal (cc_proposalCfg demo_chain) (cc_nodeCount demo_chain) (cc_schainIndex demo_chain)
     demo_hash demo_str demo_dump demo_proposal) peer_chain).2).2.

Lemma demo_holder_stores : stores_proposal demo_chain demo_crypto demo_proposal "da" demo_holder.
Proof. eapply stores_proven; vm_compute; reflexivity. Qed.

Definition demo_asked : list recv_event := [RecvChunk (finalize_request_bytes demo_chain demo_chain demo_crypto demo_proposal 3)].

Lemma demo_asked_delivers :
  delivers demo_asked (finalize_request_bytes demo_chain demo_chain demo_crypto demo_proposal 3).
Proof.
  exists [finalize_request_bytes demo_chain demo_chain demo_crypto demo_proposal 3]. split; [done|]. split.
  - apply Forall_singleton. unfold finalize_request_bytes. by destruct (le_bytes 8 _) eqn:He.
  - cbn [concat]. by rewrite app_nil_r.
Qed.

Lemma finalize_download_completes_witness :
  wp (downloadedProposal demo_crypto 2) demo_end (fun r _ => r = Ok (Some demo_q)) /\ dl_daSig demo_end = Some "da"%string /\
  exists s', catchup_processNextAvailableConnection demo_chain demo_crypto peer_nodes 100000
    (mkServer demo_holder (mkConn demo_asked [] []) []) = (Ok tt, s') /\ cn_sent (sv_conn s') = demo_fragment 3.
Proof.
  destruct (finalize_download_completes demo_chain demo_chain demo_crypto peer_nodes 1 100000 demo_parse_dump
    demo_proposal demo_q demo_sp "da" demo_servable behind_client demo_start [2; 3; 1] demo_end demo_new demo_end_run)
    as (Hw & Hs & Hserver).
  - intros i Hi. cbn in Hi. assert (i = 1 \/ i = 2 \/ i = 3) as Hcases by lia.
    destruct Hcases as [->|[->| ->]]; repeat constructor.
  - split; [exact Hw|]. split; [exact Hs|]. refine (Hserver demo_holder [] 3 demo_asked [] demo_holder_stores _ _ demo_asked_delivers _).
    + exists 2. vm_compute. reflexivity.
    + split; vm_compute; discriminate.
    + constructor.
Defined.

Lemma demo_fetch_steps i s : rtc (dl_step demo_crypto 12) s (demo_fetch i s).
Proof.
  eapply rtc_l; [|apply (downloadFragment_threaded demo_chain demo_crypto peer_nodes 1 12 2)]. by apply dl_local.
Qed.

Lemma demo_steps : rtc (dl_step demo_crypto 12) demo_start demo_end.
Proof.
  unfold demo_end. etrans; [apply (demo_fetch_steps 2)|]. etrans; [apply (demo_fetch_steps 3)|]. apply demo_fetch_steps.
Qed.

Lemma demo_complete : collected demo_chain demo_proposal demo_sp "da" (members 3) demo_end.
Proof.
  pose proof (honest_run_collected demo_chain demo_chain demo_crypto peer_nodes 1 demo_parse_dump demo_proposal demo_q
    demo_sp "da" demo_servable demo_start [2; 3; 1] demo_end ∅ demo_end_run
    (newDownloader_collected demo_chain demo_chain demo_crypto demo_parse_dump demo_proposal demo_q demo_sp "da" demo_servable _ _ demo_new)) as Hc.
  assert (list_to_set [2; 3; 1] ∪ ∅ = members 3) as Heq by reflexivity. by rewrite <- Heq.
Qed.

Lemma downloaded_proposal_certified_witness :
  certified demo_crypto 12 2 (downloadedProposal demo_crypto 2 demo_end).2 demo_q.
Proof.
  destruct (downloaded_proposal_certified demo_chain demo_crypto peer_nodes 1 12 2 behind_client demo_start demo_end
    demo_new demo_steps) as [Hw _].
  refine (proj1 (Hw demo_q _)).
  exact (downloadedProposal_complete demo_chain demo_chain demo_crypto demo_parse_dump demo_proposal demo_q demo_sp "da" demo_servable
    demo_end demo_complete).
Defined.
End FinalizeDemo.
