(* ===== verification/NetMessages.v ===== *)
(** * Consensus messages on the wire

    The JSON form of the consensus messages ([src/messages/NetworkMessage.cpp]
    and its subclasses in [src/protocols] and [src/oracle]), their hash, and
    their signatures with session keys ([src/crypto/CryptoManager.cpp]).  The
    RapidJSON library, the hash function and the signature schemes are
    parameters. *)

From stdpp Require Import base tactics gmap list strings.
From Stdlib Require Import ZArith Lia Ascii.
From S2P Require Import Prelude Bytes Messages BinConsensus LruCache Transactions Blocks.

Definition SESSION_PUBLIC_KEY_CACHE_SIZE : Z := 16.

(** The fields of the oracle messages. *)
Inductive wire_child :=
  | NoChild
  | OracleRequest (requestSpec : string)
  | OracleResponse (oracleResult receipt : string).

(** A [NetworkMessage] with the fields that only the wire needs. *)
Record WireMessage {share : Type} := {
  wm_base : NetworkMessage share;
  wm_srcNodeID : Z;
  wm_sigShareString : string;
  wm_ecdsaSig : string;
  wm_publicKey : string;
  wm_pkSig : string;
  wm_child : wire_child
}.
Arguments WireMessage : clear implicits.

Definition getTypeString (t : MsgType) : string :=
  match t with
  | MSG_BVB_BROADCAST => "B"
  | MSG_AUX_BROADCAST => "A"
  | MSG_BLOCK_SIGN_BROADCAST => "S"
  | MSG_ORACLE_REQ_BROADCAST => "O"
  | MSG_ORACLE_RSP => "R"
  | _ => "history"
  end.

(** ** RapidJSON

    An object is the list of its members, in order. *)
Definition document : Type := list (string * jval).

(** [HasMember] and [operator[]]: the first member of that name. *)
Fixpoint member (d : document) (name : string) : option jval :=
  match d with
  | [] => None
  | (k, v) :: d => if String.eqb k name then Some v else member d name
  end.

Definition getUint64Rapid (d : document) (name : string) : res Z :=
  match member d name with
  | Some (JNum n) => rcheck InvalidStateException ((0 <=? n) && (n <? 2 ^ 64)) ;; Ok n
  | _ => Err InvalidStateException
  end.

Definition getStringRapid (d : document) (name : string) : res string :=
  match member d name with
  | Some (JStr s) => Ok (c_str s)
  | _ => Err InvalidStateException
  end.

(** What the messages use of [CryptoManager] and of the oracle. *)
Record net_crypto {share : Type} := {
  nc_blake3 : list Z -> list Z;
  nc_write : document -> string;
  nc_parse : string -> res document;
  nc_createSigShare : string -> Z -> Z -> Z -> bool -> res share;
  nc_isSGXEnabled : bool;
  nc_isSyncOnlyNode : bool;
  nc_signSessionECDSA : list Z -> Z -> res (string * string * string);
  nc_verifyECDSASig : list Z -> string -> Z -> Z -> res unit;
  nc_verifyEdDSA : string -> string -> list Z -> res unit;
  nc_parseSpec : string -> res unit
}.
Arguments net_crypto : clear implicits.

Section Wire.
Context {share : Type} (N : net_crypto share).
Local Abbreviation message := (WireMessage share).

(** ** Printing *)
Definition childFields (c : wire_child) : document :=
  match c with
  | NoChild => []
  | OracleRequest spec => [("spec"%string, JStr spec)]
  | OracleResponse result receipt => [("rslt"%string, JStr result); ("rcpt"%string, JStr receipt)]
  end.

(** The members that the writer is given. *)
Definition messageFields (m : message) : document :=
  let b := wm_base m in
  [("type"%string, JStr (getTypeString (nm_type b))); ("si"%string, JNum (nm_schainID b));
   ("bi"%string, JNum (nm_blockID b)); ("bpi"%string, JNum (nm_blockProposerIndex b));
   ("mt"%string, JNum (msg_type_code (nm_type b))); ("mi"%string, JNum (nm_msgID b));
   ("sni"%string, JNum (wm_srcNodeID m)); ("ssi"%string, JNum (nm_srcSchainIndex b));
   ("r"%string, JNum (nm_round b)); ("t"%string, JNum (nm_timeMs b)); ("v"%string, JNum (u8 (nm_value b)))] ++
  (if bool_decide (wm_sigShareString m = ""%string) then [] else [("sss"%string, JStr (wm_sigShareString m))]) ++
  [("sig"%string, JStr (wm_ecdsaSig m)); ("pk"%string, JStr (wm_publicKey m)); ("pks"%string, JStr (wm_pkSig m))] ++
  childFields (wm_child m).

(** [serializeToStringLite]: without the chain and the block. *)
Definition liteFields (m : message) : document :=
  filter (fun kv => kv.1 <> "si"%string /\ kv.1 <> "bi"%string)
    (messageFields {| wm_base := wm_base m; wm_srcNodeID := wm_srcNodeID m; wm_sigShareString := wm_sigShareString m;
       wm_ecdsaSig := wm_ecdsaSig m; wm_publicKey := wm_publicKey m; wm_pkSig := wm_pkSig m; wm_child := NoChild |}).

Definition serializeToStringLite (m : message) : res string :=
  rcheck InvalidStateException (bool_decide (wm_ecdsaSig m <> ""%string)) ;;
  Ok (nc_write N (liteFields m)).

Definition serializeMessage (m : message) : res string :=
  rcheck InvalidStateException (bool_decide (wm_ecdsaSig m <> ""%string)) ;;
  let s := nc_write N (messageFields m) in
  rcheck InvalidStateException (16 <? Z.of_nat (String.length s)) ;;
  Ok s.

(** ** Parsing *)

(** The constructor of [NetworkMessage] for received messages. *)
Definition mkNetworkMessage (type : MsgType) (srcNodeID blockID blockProposerIndex r value timeMs schainId
    msgID : Z) (sigShareStr ecdsaSig publicKey pkSig : string) (srcSchainIndex : Z) (child : wire_child) :
    res message :=
  rcheck InvalidStateException (negb (blockID =? 0)) ;;
  rcheck InvalidArgumentException (0 <? srcSchainIndex) ;;
  rcheck InvalidArgumentException (bool_decide (ecdsaSig <> ""%string)) ;;
  rcheck InvalidArgumentException (0 <? timeMs) ;;
  sigShare ← (if bool_decide (sigShareStr = ""%string) then Ok None
              else s ← nc_createSigShare N sigShareStr schainId blockID srcSchainIndex (r <? COMMON_COIN_ROUND);
                   Ok (Some s));
  Ok {| wm_base := {| nm_type := type; nm_schainID := schainId; nm_msgID := msgID; nm_blockID := blockID;
          nm_blockProposerIndex := blockProposerIndex; nm_round := r; nm_value := value; nm_timeMs := timeMs;
          nm_srcSchainIndex := srcSchainIndex; nm_sigShare := sigShare |};
        wm_srcNodeID := srcNodeID; wm_sigShareString := sigShareStr; wm_ecdsaSig := ecdsaSig;
        wm_publicKey := publicKey; wm_pkSig := pkSig; wm_child := child |}.

(** The fields of any received message. *)
Record raw_message := {
  rm_schainID : Z; rm_blockID : Z; rm_blockProposerIndex : Z; rm_type : string; rm_msgID : Z;
  rm_srcNodeID : Z; rm_srcSchainIndex : Z; rm_round : Z; rm_timeMs : Z; rm_value : Z;
  rm_sigShare : string; rm_ecdsaSig : string; rm_publicKey : string; rm_pkSig : string
}.

(** [lite] leaves out the chain and the block: those of the node. *)
Definition parseFields (d : document) (schainID lastCommittedBlockID : Z) (lite : bool) : res raw_message :=
  sChainID ← (if lite then Ok schainID else getUint64Rapid d "si");
  blockID ← (if lite then Ok (u64 (lastCommittedBlockID + 1)) else getUint64Rapid d "bi");
  blockProposerIndex ← getUint64Rapid d "bpi";
  type ← getStringRapid d "type";
  msgID ← getUint64Rapid d "mi";
  srcNodeID ← getUint64Rapid d "sni";
  srcSchainIndex ← getUint64Rapid d "ssi";
  round ← getUint64Rapid d "r";
  timeMs ← getUint64Rapid d "t";
  value ← getUint64Rapid d "v";
  sigShare ← (if bool_decide (is_Some (member d "sss")) then getStringRapid d "sss" else Ok ""%string);
  ecdsaSig ← getStringRapid d "sig";
  publicKey ← getStringRapid d "pk";
  pkSig ← getStringRapid d "pks";
  rcheck InvalidStateException (bool_decide (ecdsaSig <> ""%string)) ;;
  Ok {| rm_schainID := sChainID; rm_blockID := blockID; rm_blockProposerIndex := blockProposerIndex;
        rm_type := type; rm_msgID := msgID; rm_srcNodeID := srcNodeID; rm_srcSchainIndex := srcSchainIndex;
        rm_round := round; rm_timeMs := timeMs; rm_value := u8 value; rm_sigShare := sigShare;
        rm_ecdsaSig := ecdsaSig; rm_publicKey := publicKey; rm_pkSig := pkSig |}.

Definition isspace (c : ascii) : bool :=
  let x := char_code c in (x =? 32) || ((9 <=? x) && (x <=? 13)).

Fixpoint removeSpaces (s : string) : string :=
  match s with
  | EmptyString => EmptyString
  | String c s => if isspace c then removeSpaces s else String c (removeSpaces s)
  end.

Definition mkBVBMessage (m : raw_message) : res message :=
  mkNetworkMessage MSG_BVB_BROADCAST (rm_srcNodeID m) (rm_blockID m) (rm_blockProposerIndex m) (rm_round m)
    (rm_value m) (rm_timeMs m) (rm_schainID m) (rm_msgID m) "" (rm_ecdsaSig m) (rm_publicKey m) (rm_pkSig m)
    (rm_srcSchainIndex m) NoChild.

Definition mkAUXMessage (m : raw_message) : res message :=
  w ← mkNetworkMessage MSG_AUX_BROADCAST (rm_srcNodeID m) (rm_blockID m) (rm_blockProposerIndex m) (rm_round m)
    (rm_value m) (rm_timeMs m) (rm_schainID m) (rm_msgID m) (rm_sigShare m) (rm_ecdsaSig m) (rm_publicKey m)
    (rm_pkSig m) (rm_srcSchainIndex m) NoChild;
  rcheck InvalidStateException
    (negb ((COMMON_COIN_ROUND <=? rm_round m) && nc_isSGXEnabled N) || bool_decide (rm_sigShare m <> ""%string)) ;;
  Ok w.

(** The round and the value of a block signature are fixed. *)
Definition mkBlockSignMessage (m : raw_message) : res message :=
  w ← mkNetworkMessage MSG_BLOCK_SIGN_BROADCAST (rm_srcNodeID m) (rm_blockID m) (rm_blockProposerIndex m) 4 0
    (rm_timeMs m) (rm_schainID m) (rm_msgID m) (rm_sigShare m) (rm_ecdsaSig m) (rm_publicKey m) (rm_pkSig m)
    (rm_srcSchainIndex m) NoChild;
  rcheck InvalidArgumentException (bool_decide (rm_sigShare m <> ""%string)) ;;
  Ok w.

Definition mkOracleRequestMessage (d : document) (m : raw_message) : res message :=
  spec ← getStringRapid d "spec";
  rcheck InvalidStateException (bool_decide (spec <> ""%string)) ;;
  w ← mkNetworkMessage MSG_ORACLE_REQ_BROADCAST (rm_srcNodeID m) (rm_blockID m) 0 0 0 (rm_timeMs m)
    (rm_schainID m) (rm_msgID m) "" (rm_ecdsaSig m) (rm_publicKey m) (rm_pkSig m) (rm_srcSchainIndex m)
    (OracleRequest (removeSpaces spec));
  rcheck InvalidStateException (front_is 123 (string_bytes spec) && back_is 125 (string_bytes spec)) ;;
  nc_parseSpec N (removeSpaces spec) ;;
  Ok w.

Definition mkOracleResponseMessage (d : document) (m : raw_message) : res message :=
  result ← getStringRapid d "rslt";
  rcheck InvalidStateException (bool_decide (result <> ""%string)) ;;
  receipt ← getStringRapid d "rcpt";
  rcheck InvalidStateException (bool_decide (receipt <> ""%string)) ;;
  mkNetworkMessage MSG_ORACLE_RSP (rm_srcNodeID m) (rm_blockID m) 0 0 0 (rm_timeMs m) (rm_schainID m)
    (rm_msgID m) "" (rm_ecdsaSig m) (rm_publicKey m) (rm_pkSig m) (rm_srcSchainIndex m)
    (OracleResponse result receipt).

Definition parseMessage (header : string) (schainID lastCommittedBlockID : Z) (lite : bool) : res message :=
  rcheck InvalidArgumentException (bool_decide (header <> ""%string)) ;;
  '(d, m) ← rnested InvalidStateException
    (d ← rnested_all InvalidStateException (nc_parse N (c_str header));
     m ← parseFields d schainID lastCommittedBlockID lite;
     Ok (d, m));
  rnested InvalidStateException
    (rcheck InvalidSchainException (schainID =? rm_schainID m) ;;
     if bool_decide (rm_type m = "B"%string) then mkBVBMessage m
     else if bool_decide (rm_type m = "A"%string) then mkAUXMessage m
     else if bool_decide (rm_type m = "S"%string) then mkBlockSignMessage m
     else if bool_decide (rm_type m = "O"%string) then mkOracleRequestMessage d m
     else if bool_decide (rm_type m = "R"%string) then mkOracleResponseMessage d m
     else Err InvalidStateException).

(** ** The hash *)
Definition text_input (s : string) : list Z :=
  le_bytes 4 (u32 (Z.of_nat (String.length s))) ++ string_bytes s.

Definition childInput (c : wire_child) : list Z :=
  match c with
  | NoChild => []
  | OracleRequest spec => text_input spec
  | OracleResponse result receipt => text_input result ++ text_input receipt
  end.

Definition messageInput (m : message) : list Z :=
  let b := wm_base m in
  le_bytes 8 (nm_schainID b) ++ le_bytes 8 (nm_blockID b) ++ le_bytes 8 (nm_blockProposerIndex b) ++
  le_bytes 8 (nm_msgID b) ++ le_bytes 8 (wm_srcNodeID m) ++ le_bytes 8 (nm_srcSchainIndex b) ++
  le_bytes 8 (nm_round b) ++ le_bytes 1 (nm_value b) ++ text_input (getTypeString (nm_type b)) ++
  text_input (wm_sigShareString m) ++ childInput (wm_child m).

Definition messageHash (m : message) : list Z := nc_blake3 N (messageInput m).

(** ** Signatures *)
Definition signSession (hash : list Z) (blockId : Z) : res (string * string * string) :=
  if nc_isSGXEnabled N then
    '(signature, pubKey, pkSig) ← nc_signSessionECDSA N hash blockId;
    rcheck InvalidStateException (bool_decide (signature <> ""%string)) ;;
    rcheck InvalidStateException (bool_decide (pubKey <> ""%string)) ;;
    rcheck InvalidStateException (bool_decide (pkSig <> ""%string)) ;;
    Ok (signature, pubKey, pkSig)
  else Ok (toHex hash, ""%string, ""%string).

Definition signMessage (m : message) : res message :=
  '(signature, publicKey, pkSig) ← signSession (messageHash m) (nm_blockID (wm_base m));
  rcheck InvalidStateException (bool_decide (signature <> ""%string)) ;;
  Ok {| wm_base := wm_base m; wm_srcNodeID := wm_srcNodeID m; wm_sigShareString := wm_sigShareString m;
        wm_ecdsaSig := signature; wm_publicKey := publicKey; wm_pkSig := pkSig; wm_child := wm_child m |}.

Definition calculatePublicKeyHash (publicKey : string) (blockID : Z) : list Z :=
  nc_blake3 N (le_bytes 8 blockID ++ string_bytes publicKey).

(** A real signature that arrives in test mode ends the process; here it is
    refused. *)
Definition verifySessionEdDSASig (hash : list Z) (sig publicKey : string) : res unit :=
  rnested_all InvalidStateException
    (rcheck InvalidArgumentException (bool_decide (sig <> ""%string)) ;;
     if nc_isSGXEnabled N then nc_verifyEdDSA N publicKey sig hash
     else if nc_isSyncOnlyNode N then Ok tt
     else
       rcheck FatalError (negb (has_char ":" sig)) ;;
       rcheck InvalidStateException (bool_decide (sig = toHex hash))).

(** The key of a node, or of the one it replaces. *)
Definition verifyPublicKey (pkeyHash : list Z) (pkSig : string) (nodeId : Z * Z) (timeStamp : Z) : res unit :=
  match nc_verifyECDSASig N pkeyHash pkSig nodeId.1 timeStamp with
  | Ok _ => Ok tt
  | Err OutOfFuel => Err OutOfFuel
  | Err _ =>
      if negb (nodeId.2 =? 2 ^ 64 - 1)
      then rnested_all InvalidStateException (nc_verifyECDSASig N pkeyHash pkSig nodeId.2 timeStamp)
      else Err InvalidStateException
  end.

(** The state is the cache of verified session keys, by their signatures. *)
Definition verifySessionSigAndKey (hash : list Z) (sig publicKey pkSig : string) (blockID : Z)
    (nodeId : Z * Z) (timeStamp : Z) : M (lru_cache string string) unit :=
  CHECK_STATE (bool_decide (sig <> ""%string)) ;;
  known ← lru_getIfExists pkSig;
  match known with
  | Some publicKey2 => CHECK_STATE (bool_decide (publicKey2 = publicKey))
  | None =>
      if nc_isSGXEnabled N then
        lift_res (verifyPublicKey (calculatePublicKeyHash publicKey blockID) pkSig nodeId timeStamp) ;;
        lru_put pkSig publicKey
      else mret tt
  end ;;
  lift_res (rnested_all InvalidStateException (verifySessionEdDSASig hash sig publicKey)).

(** [NetworkMessage::verify] and [CryptoManager::verifyNetworkMsg]. *)
Definition verifyMessage (m : message) (stamp : TimeStamp) : M (lru_cache string string) unit :=
  nested_all InvalidStateException
    (CHECK_STATE (bool_decide (wm_ecdsaSig m <> ""%string)) ;;
     verifySessionSigAndKey (messageHash m) (wm_ecdsaSig m) (wm_publicKey m) (wm_pkSig m) (nm_blockID (wm_base m))
       (wm_srcNodeID m, 2 ^ 64 - 1) (getLinuxTimeMs stamp)).
End Wire.
