(* ===== verification/MessageTheorems.v ===== *)
(** * Theorems about messages on the wire

    A message that a node prints parses back at a peer; its hash binds all that
    the protocol reads of it; and a message that verifies was signed with a
    certified session key. *)

From stdpp Require Import base tactics gmap list strings.
From Stdlib Require Import ZArith Lia Ascii.
From S2P Require Import Prelude Bytes Messages BinConsensus LruCache Transactions Blocks NetMessages.

(** ** Round trip *)

(** Text that JSON and C strings carry unchanged. *)
Definition wire_text (s : string) : Prop := plain s /\ c_str s = s.

Definition wire_val (v : jval) : Prop :=
  match v with
  | JNum n => word 64 n
  | JStr s => wire_text s
  | JArr _ => False
  end.

(** What RapidJSON promises: an object parses back from its text, which has no
    zero byte and spends at least five characters on a member. *)
Class JsonLaws {share} (N : net_crypto share) : Prop := {
  json_parse_write : forall d, Forall (fun kv => wire_val kv.2) d -> nc_parse N (nc_write N d) = Ok d;
  json_write_text : forall d, Forall (fun kv => wire_val kv.2) d -> c_str (nc_write N d) = nc_write N d;
  json_write_length : forall d, (5 * length d <= String.length (nc_write N d))%nat
}.

Section RoundTrip.
Context {share : Type} (N : net_crypto share).
Local Abbreviation message := (WireMessage share).
Implicit Types m : message.

(** What the constructor of each kind of message establishes. *)
Definition kind_wf m : Prop :=
  let b := wm_base m in
  let sss := wm_sigShareString m in
  match nm_type b, wm_child m with
  | MSG_BVB_BROADCAST, NoChild => sss = ""%string
  | MSG_AUX_BROADCAST, NoChild =>
      COMMON_COIN_ROUND <= nm_round b -> nc_isSGXEnabled N = true -> sss <> ""%string
  | MSG_BLOCK_SIGN_BROADCAST, NoChild => nm_round b = 4 /\ nm_value b = 0 /\ sss <> ""%string
  | MSG_ORACLE_REQ_BROADCAST, OracleRequest spec =>
      nm_blockProposerIndex b = 0 /\ nm_round b = 0 /\ nm_value b = 0 /\ sss = ""%string /\
      wire_text spec /\ removeSpaces spec = spec /\ nc_parseSpec N spec = Ok tt /\
      front_is 123 (string_bytes spec) = true /\ back_is 125 (string_bytes spec) = true
  | MSG_ORACLE_RSP, OracleResponse result receipt =>
      nm_blockProposerIndex b = 0 /\ nm_round b = 0 /\ nm_value b = 0 /\ sss = ""%string /\
      wire_text result /\ result <> ""%string /\ wire_text receipt /\ receipt <> ""%string
  | _, _ => False
  end.

(** The share is the one that the text of it stands for. *)
Definition share_wf m : Prop :=
  let b := wm_base m in
  match nm_sigShare b with
  | None => wm_sigShareString m = ""%string
  | Some sh =>
      wm_sigShareString m <> ""%string /\
      nc_createSigShare N (wm_sigShareString m) (nm_schainID b) (nm_blockID b) (nm_srcSchainIndex b)
        (nm_round b <? COMMON_COIN_ROUND) = Ok sh
  end.

Record wire_wf m : Prop := {
  ww_schainID : word 64 (nm_schainID (wm_base m));
  ww_blockID : 0 < nm_blockID (wm_base m) < 2 ^ 64;
  ww_proposer : word 64 (nm_blockProposerIndex (wm_base m));
  ww_msgID : word 64 (nm_msgID (wm_base m));
  ww_srcNodeID : word 64 (wm_srcNodeID m);
  ww_srcIndex : 0 < nm_srcSchainIndex (wm_base m) < 2 ^ 64;
  ww_round : word 64 (nm_round (wm_base m));
  ww_time : 0 < nm_timeMs (wm_base m) < 2 ^ 64;
  ww_value : word 8 (nm_value (wm_base m));
  ww_share : wire_text (wm_sigShareString m);
  ww_sig : wire_text (wm_ecdsaSig m) /\ wm_ecdsaSig m <> ""%string;
  ww_key : wire_text (wm_publicKey m);
  ww_keySig : wire_text (wm_pkSig m);
  ww_shareOk : share_wf m;
  ww_kind : kind_wf m
}.

Lemma u8_small z : word 8 z -> u8 z = z.
Proof. apply wrap_small. Qed.

Lemma u8_word z : word 64 (u8 z).
Proof. unfold word, u8. pose proof (wrap_range 8 z). lia. Qed.

Lemma type_text t : wire_text (getTypeString t).
Proof. by destruct t; split; vm_compute; repeat constructor. Qed.

Lemma messageFields_plain m : wire_wf m -> Forall (fun kv => wire_val kv.2) (messageFields m).
Proof.
  intros []. unfold messageFields. rewrite !Forall_app. split_and!.
  - repeat (apply Forall_cons; split); cbn; auto using type_text; unfold word in *; try lia.
    + by destruct (nm_type (wm_base m)).
    + rewrite u8_small by done. lia.
  - case_bool_decide; [constructor|]. by apply Forall_singleton.
  - destruct ww_sig0. by repeat (apply Forall_cons; split).
  - unfold kind_wf in *. destruct (nm_type (wm_base m)), (wm_child m); cbn; try done;
      repeat (apply Forall_cons; split); cbn; intuition.
Qed.

Lemma member_uint64 d name n : member d name = Some (JNum n) -> word 64 n -> getUint64Rapid d name = Ok n.
Proof.
  unfold getUint64Rapid, word. intros -> Hn. unfold rcheck.
  by rewrite (proj2 (Z.leb_le 0 n)), (proj2 (Z.ltb_lt n (2 ^ 64))) by lia.
Qed.

Lemma member_text d name s : member d name = Some (JStr s) -> wire_text s -> getStringRapid d name = Ok s.
Proof. unfold getStringRapid. intros -> [_ Hs]. by rewrite Hs. Qed.

(** The members of the printed object, whether or not there is a share. *)
Lemma member_share m :
  member (messageFields m) "sss" =
  if bool_decide (wm_sigShareString m = ""%string) then None else Some (JStr (wm_sigShareString m)).
Proof.
  unfold messageFields. case_bool_decide; [|done]. by destruct (wm_child m).
Qed.

Definition raw_of m : raw_message :=
  let b := wm_base m in
  {| rm_schainID := nm_schainID b; rm_blockID := nm_blockID b; rm_blockProposerIndex := nm_blockProposerIndex b;
     rm_type := getTypeString (nm_type b); rm_msgID := nm_msgID b; rm_srcNodeID := wm_srcNodeID m;
     rm_srcSchainIndex := nm_srcSchainIndex b; rm_round := nm_round b; rm_timeMs := nm_timeMs b;
     rm_value := nm_value b; rm_sigShare := wm_sigShareString m; rm_ecdsaSig := wm_ecdsaSig m;
     rm_publicKey := wm_publicKey m; rm_pkSig := wm_pkSig m |}.

(** Reads the next field of a printed message. *)
Ltac field :=
  first [erewrite member_uint64 | erewrite member_text];
  [|unfold messageFields; case_bool_decide; reflexivity|first [done | apply type_text | apply u8_word | unfold word in *; lia]];
  cbn [mbind res_bind].

Lemma parseFields_messageFields m schainID last :
  wire_wf m -> parseFields (messageFields m) schainID last false = Ok (raw_of m).
Proof.
  intros []. unfold parseFields. destruct ww_sig0 as [Hs Hs']. do 10 field.
  assert ((if bool_decide (is_Some (member (messageFields m) "sss")) then getStringRapid (messageFields m) "sss"
           else Ok ""%string) = Ok (wm_sigShareString m)) as ->.
  { pose proof (member_share m) as Hm. destruct (decide (wm_sigShareString m = ""%string)) as [He|He].
    - rewrite bool_decide_eq_true_2 in Hm by done. rewrite Hm. by rewrite bool_decide_eq_false_2, He by by intros [].
    - rewrite bool_decide_eq_false_2 in Hm by done. rewrite bool_decide_eq_true_2 by (rewrite Hm; eauto).
      by apply member_text. }
  cbn [mbind res_bind]. do 3 field. rewrite bool_decide_eq_true_2 by done. cbn [rcheck mbind res_bind].
  unfold raw_of. rewrite !u8_small by (rewrite ?u8_small by done; done). done.
Qed.

(** The constructor takes the fields back. *)
Lemma mkNetworkMessage_fields m :
  wire_wf m ->
  mkNetworkMessage N (nm_type (wm_base m)) (wm_srcNodeID m) (nm_blockID (wm_base m))
    (nm_blockProposerIndex (wm_base m)) (nm_round (wm_base m)) (nm_value (wm_base m)) (nm_timeMs (wm_base m))
    (nm_schainID (wm_base m)) (nm_msgID (wm_base m)) (wm_sigShareString m) (wm_ecdsaSig m) (wm_publicKey m)
    (wm_pkSig m) (nm_srcSchainIndex (wm_base m)) (wm_child m) = Ok m.
Proof.
  intros []. destruct m as [[] ? sss ? ? ? ?]. unfold share_wf in *. cbn in *. unfold mkNetworkMessage.
  rewrite (proj2 (Z.eqb_neq _ 0)), !(proj2 (Z.ltb_lt 0 _)) by lia.
  rewrite (bool_decide_eq_true_2 (_ <> _)) by tauto. cbn [negb rcheck mbind res_bind].
  destruct nm_sigShare as [sh|]; [destruct ww_shareOk0 as [Hs ->]|subst sss; done].
  by rewrite bool_decide_eq_false_2.
Qed.

(** What the type of the message selects. *)
Definition mkKind (d : document) (r : raw_message) : res message :=
  if bool_decide (rm_type r = "B"%string) then mkBVBMessage N r
  else if bool_decide (rm_type r = "A"%string) then mkAUXMessage N r
  else if bool_decide (rm_type r = "S"%string) then mkBlockSignMessage N r
  else if bool_decide (rm_type r = "O"%string) then mkOracleRequestMessage N d r
  else if bool_decide (rm_type r = "R"%string) then mkOracleResponseMessage N d r
  else Err InvalidStateException.

Lemma front_nonempty c s : front_is c (string_bytes s) = true -> s <> ""%string.
Proof. by intros Hf ->. Qed.

Lemma child_spec m spec :
  wm_child m = OracleRequest spec -> member (messageFields m) "spec" = Some (JStr spec).
Proof. intros Hc. unfold messageFields. rewrite Hc. by case_bool_decide. Qed.

Lemma child_result m result receipt :
  wm_child m = OracleResponse result receipt ->
  member (messageFields m) "rslt" = Some (JStr result) /\ member (messageFields m) "rcpt" = Some (JStr receipt).
Proof. intros Hc. unfold messageFields. rewrite Hc. by case_bool_decide. Qed.

(** Decides the comparisons of type names. *)
Ltac literals :=
  repeat match goal with
  | |- context [bool_decide (String ?c ?s = String ?c' ?s')] =>
      let b := eval vm_compute in (bool_decide (String c s = String c' s')) in
      match b with
      | true => change (bool_decide (String c s = String c' s')) with true
      | false => change (bool_decide (String c s = String c' s')) with false
      end
  end; cbv beta iota.

Lemma mkKind_fields m : wire_wf m -> mkKind (messageFields m) (raw_of m) = Ok m.
Proof.
  intros Hm. pose proof (mkNetworkMessage_fields m Hm) as Hk. pose proof (ww_kind m Hm) as Hw.
  pose proof (child_spec m) as Hspec. pose proof (child_result m) as Hres.
  revert Hspec Hres. generalize (messageFields m) as d. intros d Hspec Hres. clear Hm.
  destruct m as [[type ? ? ? ? ? ? ? ? ?] ? sss ? ? ? child]. unfold kind_wf in Hw. cbn in Hk, Hw, Hspec, Hres.
  unfold mkKind. destruct type, child as [|spec|result receipt]; try done; cbn; literals;
    unfold mkBVBMessage, mkAUXMessage, mkBlockSignMessage, mkOracleRequestMessage, mkOracleResponseMessage; cbn.
  - by subst sss.
  - rewrite Hk. cbn [mbind res_bind].
    destruct (COMMON_COIN_ROUND <=? nm_round) eqn:Hr, (nc_isSGXEnabled N); cbn; [|done..].
    by rewrite bool_decide_eq_true_2 by (apply Hw; [lia|done]).
  - destruct Hw as (-> & -> & Hw). rewrite Hk. cbn [mbind res_bind]. by rewrite bool_decide_eq_true_2.
  - destruct Hw as (-> & -> & -> & -> & Ht & Hs & Hp & Hf & Hb). rewrite (member_text _ _ spec) by auto.
    cbn [mbind res_bind]. rewrite bool_decide_eq_true_2 by by eapply front_nonempty. cbn [rcheck mbind res_bind].
    rewrite Hs, Hk, Hf, Hb. cbn [andb rcheck mbind res_bind]. by rewrite Hp.
  - destruct Hw as (-> & -> & -> & -> & Ht & Hn & Ht' & Hn'). destruct (Hres _ _ eq_refl) as [H1 H2].
    rewrite (member_text d "rslt" result H1 Ht). cbn [mbind res_bind]. rewrite bool_decide_eq_true_2 by done.
    cbn [rcheck mbind res_bind]. rewrite (member_text d "rcpt" receipt H2 Ht'). cbn [mbind res_bind].
    rewrite bool_decide_eq_true_2 by done. cbn [rcheck mbind res_bind]. by rewrite Hk.
Qed.

Context {L : JsonLaws N}.

Lemma parseMessage_fields m last :
  wire_wf m ->
  parseMessage N (nc_write N (messageFields m)) (nm_schainID (wm_base m)) last false = Ok m.
Proof.
  intros Hm. pose proof (messageFields_plain m Hm) as Hp. unfold parseMessage.
  assert (nc_write N (messageFields m) <> ""%string) as Hne.
  { pose proof (json_write_length (messageFields m)) as Hl. intros He. rewrite He in Hl. cbn in Hl. lia. }
  rewrite (bool_decide_eq_true_2 (_ <> _)) by done. rewrite json_write_text, json_parse_write by done.
  cbn [rcheck mbind res_bind rnested_all]. rewrite parseFields_messageFields by done.
  cbn [mbind res_bind rnested rm_schainID raw_of]. rewrite Z.eqb_refl. cbn [rcheck mbind res_bind].
  fold (mkKind (messageFields m) (raw_of m)). by rewrite (mkKind_fields m Hm).
Qed.

Lemma serializeMessage_ok m : wm_ecdsaSig m <> ""%string -> serializeMessage N m = Ok (nc_write N (messageFields m)).
Proof.
  intros Hs. unfold serializeMessage. rewrite (bool_decide_eq_true_2 _ Hs).
  cbn [rcheck mbind res_bind]. rewrite (proj2 (Z.ltb_lt 16 _)); [done|].
  pose proof (json_write_length (messageFields m)) as Hl. unfold messageFields in Hl at 1.
  rewrite !length_app in Hl. cbn [length] in Hl. lia.
Qed.

(** C32: A message that a node has signed is printed, and any node of the chain
    parses the text back to the same message: every field, the share and the
    fields of the oracle messages included. *)
Theorem message_roundtrip m last :
  wire_wf m ->
  exists text, serializeMessage N m = Ok text /\
    parseMessage N text (nm_schainID (wm_base m)) last false = Ok m.
Proof.
  intros Hm. exists (nc_write N (messageFields m)). split; [|by apply parseMessage_fields].
  apply serializeMessage_ok, Hm.
Qed.
End RoundTrip.

(** ** Parsed messages are well formed *)
Section Parsed.
Context {share : Type} (N : net_crypto share).
Local Abbreviation message := (WireMessage share).
Implicit Types m : message.

(** The kinds of messages, each with its fields and its share. *)
Definition kind_ok m : Prop :=
  match nm_type (wm_base m), wm_child m with
  | MSG_BVB_BROADCAST, NoChild => nm_sigShare (wm_base m) = None
  | MSG_AUX_BROADCAST, NoChild =>
      COMMON_COIN_ROUND <= nm_round (wm_base m) -> nc_isSGXEnabled N = true -> is_Some (nm_sigShare (wm_base m))
  | MSG_BLOCK_SIGN_BROADCAST, NoChild => is_Some (nm_sigShare (wm_base m))
  | MSG_ORACLE_REQ_BROADCAST, OracleRequest spec => nc_parseSpec N spec = Ok tt
  | MSG_ORACLE_RSP, OracleResponse result receipt => result <> ""%string /\ receipt <> ""%string
  | _, _ => False
  end.

(** What the consensus may rely on in a message from the network: nothing about
    the peer that sent it is assumed. *)
Record parsed_wf (schainID : Z) m : Prop := {
  pw_schain : nm_schainID (wm_base m) = schainID;
  pw_blockID : 0 < nm_blockID (wm_base m) < 2 ^ 64;
  pw_source : 0 < nm_srcSchainIndex (wm_base m) < 2 ^ 64;
  pw_words : word 64 (nm_blockProposerIndex (wm_base m)) /\ word 64 (nm_msgID (wm_base m)) /\
    word 64 (wm_srcNodeID m) /\ word 64 (nm_round (wm_base m)) /\ 0 < nm_timeMs (wm_base m) < 2 ^ 64;
  pw_value : word 8 (nm_value (wm_base m));
  pw_sig : wm_ecdsaSig m <> ""%string;
  pw_share : share_wf N m;
  pw_kind : kind_ok m
}.

Lemma getUint64Rapid_range d name n : getUint64Rapid d name = Ok n -> word 64 n.
Proof.
  unfold getUint64Rapid, word. destruct (member d name) as [[]|]; try done. intros Hn. rinv Hn.
  injection Hn as <-. lia.
Qed.

Record raw_wf (r : raw_message) : Prop := {
  rw_schainID : word 64 (rm_schainID r);
  rw_blockID : word 64 (rm_blockID r);
  rw_words : word 64 (rm_blockProposerIndex r) /\ word 64 (rm_msgID r) /\ word 64 (rm_srcNodeID r) /\
    word 64 (rm_srcSchainIndex r) /\ word 64 (rm_round r) /\ word 64 (rm_timeMs r);
  rw_value : word 8 (rm_value r)
}.

Lemma parseFields_wf d schainID last r : parseFields d schainID last false = Ok r -> raw_wf r.
Proof.
  intros Hr. unfold parseFields in Hr. rinv Hr. injection Hr as <-.
  split; cbn; [by eapply getUint64Rapid_range..| |by apply wrap_range].
  split_and!; by eapply getUint64Rapid_range.
Qed.

(** What the constructor establishes. *)
Lemma mkNetworkMessage_ok type sni bi bpi r v t si mi sss sig pk pks ssi child m :
  mkNetworkMessage N type sni bi bpi r v t si mi sss sig pk pks ssi child = Ok m ->
  word 64 bi -> word 64 ssi -> word 64 t -> word 64 bpi -> word 64 mi -> word 64 sni -> word 64 r -> word 8 v ->
  (share_wf N m -> nm_type (wm_base m) = type -> wm_child m = child -> wm_sigShareString m = sss ->
   nm_round (wm_base m) = r -> kind_ok m) ->
  parsed_wf si m.
Proof.
  unfold mkNetworkMessage, word. intros Hm Hb Hs Ht Hbp Hmi Hsn Hr Hv Hk. rinv Hm.
  apply negb_true_iff, Z.eqb_neq in Hc. apply bool_decide_eq_true_1 in Hc1.
  injection Hm as <-. assert (share_wf N {| wm_base := {| nm_type := type; nm_schainID := si; nm_msgID := mi;
    nm_blockID := bi; nm_blockProposerIndex := bpi; nm_round := r; nm_value := v; nm_timeMs := t;
    nm_srcSchainIndex := ssi; nm_sigShare := x |}; wm_srcNodeID := sni; wm_sigShareString := sss;
    wm_ecdsaSig := sig; wm_publicKey := pk; wm_pkSig := pks; wm_child := child |}) as Hw.
  { unfold share_wf. cbn. case_bool_decide as He; [by injection Hx as <-|]. rinv Hx. by injection Hx as <-. }
  split; cbn; try done; unfold word; split_and?; try lia; try done. by apply Hk.
Qed.

Lemma share_some m : share_wf N m -> wm_sigShareString m <> ""%string -> is_Some (nm_sigShare (wm_base m)).
Proof. unfold share_wf. destruct (nm_sigShare (wm_base m)); [eauto|]. by intros ->. Qed.

Lemma share_none m : share_wf N m -> wm_sigShareString m = ""%string -> nm_sigShare (wm_base m) = None.
Proof. unfold share_wf. destruct (nm_sigShare (wm_base m)); [|done]. by intros [Hs _] He. Qed.

Lemma kind_key m : kind_ok m -> 0 < nm_blockID (wm_base m) -> exists k, createProtocolKey (wm_base m) = Ok k.
Proof.
  intros Hk Hb. unfold createProtocolKey. rewrite (proj2 (Z.ltb_lt 0 _) Hb).
  unfold kind_ok in Hk. destruct (nm_type (wm_base m)); try done; by eexists.
Qed.

Lemma mkKind_wf d r m : raw_wf r -> mkKind N d r = Ok m -> parsed_wf (rm_schainID r) m.
Proof.
  intros [Hs Hb (Hw1 & Hw2 & Hw3 & Hw4 & Hw5 & Hw6) Hv]. unfold mkKind.
  case_bool_decide; [|case_bool_decide; [|case_bool_decide; [|case_bool_decide; [|case_bool_decide; [|done]]]]].
  - unfold mkBVBMessage. intros Hm. eapply mkNetworkMessage_ok; [exact Hm|try done..].
    unfold kind_ok. intros Hw -> -> He _. by apply share_none.
  - unfold mkAUXMessage. intros Hm. rinv Hm. injection Hm as <-.
    eapply mkNetworkMessage_ok; [exact Hx|try done..]. unfold kind_ok. intros Hw -> -> He -> Hr Hg.
    apply share_some; [done|]. rewrite He. rewrite Hg, (proj2 (Z.leb_le _ _) Hr) in Hc. by apply bool_decide_eq_true_1 in Hc.
  - unfold mkBlockSignMessage. intros Hm. rinv Hm. injection Hm as <-. apply bool_decide_eq_true_1 in Hc.
    eapply mkNetworkMessage_ok; [exact Hx|try done..]. unfold kind_ok. intros Hw -> -> He _.
    apply share_some; [done|by rewrite He].
  - unfold mkOracleRequestMessage. intros Hm. rinv Hm. injection Hm as <-.
    eapply mkNetworkMessage_ok; [exact Hx0|try done..]. unfold kind_ok. intros _ -> -> _ _. by destruct x1.
  - unfold mkOracleResponseMessage. intros Hm. rinv Hm. eapply mkNetworkMessage_ok; [exact Hm|try done..].
    unfold kind_ok. intros _ -> -> _ _. by apply bool_decide_eq_true_1 in Hc, Hc0.
Qed.

Lemma parseMessage_wf text schainID last m :
  parseMessage N text schainID last false = Ok m -> parsed_wf schainID m.
Proof.
  unfold parseMessage. intros Hm. rinv Hm. destruct x as [d r]. rinv Hm. rinv Hx.
  injection Hx as -> ->. apply Z.eqb_eq in Hc0 as ->. fold (mkKind N d r) in Hm.
  apply parseFields_wf in Hx1. by apply (mkKind_wf d).
Qed.

(** C33: Whatever bytes a peer sends, a message that parses is well formed: it is
    for this chain, its block, sender and time are not zero, its integers fit
    their types, it carries the share that its kind needs and the fields of its
    kind, and it has a protocol key. *)
Theorem parsed_message_wf text schainID last m :
  parseMessage N text schainID last false = Ok m ->
  parsed_wf schainID m /\ exists k, createProtocolKey (wm_base m) = Ok k.
Proof.
  intros Hm%parseMessage_wf. split; [done|]. by apply kind_key; apply Hm.
Qed.
End Parsed.

(** ** The hash binds the content *)
Section Binding.
Context {share : Type} (N : net_crypto share).
Local Abbreviation message := (WireMessage share).
Implicit Types m : message.

Definition short (s : string) : Prop := Z.of_nat (String.length s) < 2 ^ 32.

Definition child_short (c : wire_child) : Prop :=
  match c with
  | NoChild => True
  | OracleRequest spec => short spec
  | OracleResponse result receipt => short result /\ short receipt
  end.

(** The texts that are hashed have lengths of 32 bits. *)
Definition texts_short m : Prop := short (wm_sigShareString m) /\ child_short (wm_child m).

(** What the protocols read of a message, apart from the time of sending. *)
Definition same_content m m' : Prop :=
  let b := wm_base m in let b' := wm_base m' in
  nm_type b = nm_type b' /\ nm_schainID b = nm_schainID b' /\ nm_blockID b = nm_blockID b' /\
  nm_blockProposerIndex b = nm_blockProposerIndex b' /\ nm_msgID b = nm_msgID b' /\
  wm_srcNodeID m = wm_srcNodeID m' /\ nm_srcSchainIndex b = nm_srcSchainIndex b' /\
  nm_round b = nm_round b' /\ nm_value b = nm_value b' /\
  wm_sigShareString m = wm_sigShareString m' /\ nm_sigShare b = nm_sigShare b' /\ wm_child m = wm_child m'.

Lemma text_input_inj s s' k k' :
  short s -> short s' -> text_input s ++ k = text_input s' ++ k' -> s = s' /\ k = k'.
Proof.
  unfold text_input, short. rewrite <- !app_assoc. intros Hs Hs' Heq.
  assert (forall t, word 32 (u32 (Z.of_nat (String.length t)))) as Hw by (intros; by apply wrap_range).
  apply le_bytes_app_inj in Heq as [Hl Heq]; [|apply Hw..].
  unfold u32 in Hl. rewrite !wrap_small in Hl by lia.
  apply app_inj_1 in Heq as [Hb ->]; [|rewrite !length_string_bytes; lia].
  split; [|done]. by rewrite <- (bytes_string_bytes s), Hb, bytes_string_bytes.
Qed.

Lemma type_short t : short (getTypeString t).
Proof. by destruct t. Qed.

(** The kind of a message tells which extra fields it has. *)
Lemma kind_child_inj m m' :
  kind_wf N m -> kind_wf N m' -> getTypeString (nm_type (wm_base m)) = getTypeString (nm_type (wm_base m')) ->
  child_short (wm_child m) -> child_short (wm_child m') -> childInput (wm_child m) = childInput (wm_child m') ->
  nm_type (wm_base m) = nm_type (wm_base m') /\ wm_child m = wm_child m'.
Proof.
  unfold kind_wf. intros Hk Hk' Ht.
  destruct (nm_type (wm_base m)), (wm_child m) as [|spec|rs rc]; try done;
    destruct (nm_type (wm_base m')), (wm_child m') as [|spec'|rs' rc']; try done; cbn [childInput child_short].
  - intros Hs Hs' Heq. rewrite <- (app_nil_r (text_input spec)), <- (app_nil_r (text_input spec')) in Heq.
    by apply text_input_inj in Heq as [-> _].
  - intros [H1 H2] [H1' H2'] Heq. apply text_input_inj in Heq as [-> Heq]; [|done..].
    rewrite <- (app_nil_r (text_input rc)), <- (app_nil_r (text_input rc')) in Heq.
    by apply text_input_inj in Heq as [-> _].
Qed.

Lemma messageInput_inj m m' :
  wire_wf N m -> wire_wf N m' -> texts_short m -> texts_short m' -> messageInput m = messageInput m' ->
  same_content m m'.
Proof.
  intros [] [] [Hs Hc] [Hs' Hc'] Heq. unfold messageInput in Heq.
  do 7 (apply le_bytes_app_inj in Heq as [? Heq]; [|unfold word in *; lia..]).
  apply le_bytes_app_inj in Heq as [? Heq]; [|done..].
  apply text_input_inj in Heq as [Ht Heq]; [|apply type_short..].
  apply text_input_inj in Heq as [Hss Heq]; [|done..].
  apply kind_child_inj in Heq as [??]; [|done..].
  split_and!; try done. unfold share_wf in *.
  destruct (nm_sigShare (wm_base m)), (nm_sigShare (wm_base m')); naive_solver congruence.
Qed.

(** The hash of a message, which is what its signature covers, binds all that
    the protocols read of it: two messages with the same hash have the same type,
    chain, block, proposer, sender, round, value and share, or the hash function
    has a collision on them. *)
Theorem message_hash_binding m m' :
  wire_wf N m -> wire_wf N m' -> texts_short m -> texts_short m' -> messageHash N m = messageHash N m' ->
  same_content m m' \/ (messageInput m <> messageInput m' /\ nc_blake3 N (messageInput m) = nc_blake3 N (messageInput m')).
Proof.
  intros Hm Hm' Hs Hs' Hh. destruct (decide (messageInput m = messageInput m')) as [Heq|Hne]; [left|by right].
  by apply messageInput_inj.
Qed.

(** The time of sending is not bound. *)
Lemma hash_ignores_time m (t : Z) :
  messageHash N {| wm_base := {| nm_type := nm_type (wm_base m); nm_schainID := nm_schainID (wm_base m);
    nm_msgID := nm_msgID (wm_base m); nm_blockID := nm_blockID (wm_base m);
    nm_blockProposerIndex := nm_blockProposerIndex (wm_base m); nm_round := nm_round (wm_base m);
    nm_value := nm_value (wm_base m); nm_timeMs := t; nm_srcSchainIndex := nm_srcSchainIndex (wm_base m);
    nm_sigShare := nm_sigShare (wm_base m) |}; wm_srcNodeID := wm_srcNodeID m;
    wm_sigShareString := wm_sigShareString m; wm_ecdsaSig := wm_ecdsaSig m; wm_publicKey := wm_publicKey m;
    wm_pkSig := wm_pkSig m; wm_child := wm_child m |} = messageHash N m.
Proof. done. Qed.
End Binding.

(** ** Signatures *)
Section Authenticity.
Context {share : Type} (N : net_crypto share) (sgx : nc_isSGXEnabled N = true).
Local Abbreviation message := (WireMessage share).
Implicit Types m : message.
Implicit Types c : lru_cache string string.

(** The key was certified by a node for a block. *)
Definition key_certified (pkSig pk : string) (node blockID : Z) : Prop :=
  exists t, nc_verifyECDSASig N (calculatePublicKeyHash N pk blockID) pkSig node t = Ok tt.

(** The session keys that are remembered were certified. *)
Definition keys_inv c : Prop :=
  lru_inv c /\ forall pkSig pk, lru_lookup c pkSig = Some pk -> exists node blockID, key_certified pkSig pk node blockID.

(** What a signature on a message stands for. *)
Definition signed m : Prop :=
  nc_verifyEdDSA N (wm_publicKey m) (wm_ecdsaSig m) (messageHash N m) = Ok tt.

Lemma keys_inv_new max : 0 <= max -> keys_inv (lru_new max).
Proof. intros. by split; [apply lru_new_inv|]. Qed.

Lemma keys_inv_touch k c : keys_inv c -> keys_inv (lru_touch k c).
Proof.
  intros [Hi Hk]. split; [by apply lru_touch_inv|]. intros s pk. rewrite lru_lookup_touch by done. apply Hk.
Qed.

Lemma keys_inv_put s pk c node blockID :
  keys_inv c -> key_certified s pk node blockID -> keys_inv (putUnsafe s pk c).
Proof.
  intros [Hi Hk] Hc. split; [by apply lru_putUnsafe_inv|]. intros s' pk' Hl.
  destruct (decide (s = s')) as [<-|Hne]; [|eapply Hk, lru_lookup_put_ne; eauto].
  exists node, blockID. pose proof (putUnsafe_refines s pk c Hi) as (_ & Hp & _).
  unfold lru_lookup in Hl. rewrite Hp in Hl. unfold spec_put in Hl.
  destruct (Z.to_nat (lru_max_size c)) as [|k] eqn:Hz; [done|]. cbn [take] in Hl. rewrite assoc_cons in Hl.
  rewrite decide_True in Hl by done. by injection Hl as <-.
Qed.

Lemma verifySessionEdDSASig_sound h sig pk :
  verifySessionEdDSASig N h sig pk = Ok tt -> nc_verifyEdDSA N pk sig h = Ok tt.
Proof.
  unfold verifySessionEdDSASig. intros Hv%rnested_all_ok. revert Hv. rewrite sgx. by case_bool_decide.
Qed.

Lemma verifyPublicKey_sound h pkSig node stamp :
  verifyPublicKey N h pkSig (node, 2 ^ 64 - 1) stamp = Ok tt -> nc_verifyECDSASig N h pkSig node stamp = Ok tt.
Proof. unfold verifyPublicKey. cbn. by destruct (nc_verifyECDSASig N h pkSig node stamp) as [[]|[]]. Qed.

(** The signature, once the key is accepted. *)
Lemma edDSA_step m c (P : Prop) :
  keys_inv c -> P ->
  wp (lift_res (rnested_all InvalidStateException
        (verifySessionEdDSASig N (messageHash N m) (wm_ecdsaSig m) (wm_publicKey m)))) c
    (fun r c' => keys_inv c' /\ (rnested_all InvalidStateException r = Ok tt -> signed m /\ P)).
Proof.
  intros Hk HP. wp_simpl. split; [done|]. intros Hv%rnested_all_ok%rnested_all_ok.
  split; [by apply verifySessionEdDSASig_sound|done].
Qed.

Lemma verifyMessage_sound m stamp c :
  keys_inv c ->
  wp (verifyMessage N m stamp) c (fun r c' => keys_inv c' /\
    (r = Ok tt -> signed m /\
     if lru_lookup c (wm_pkSig m) is Some pk then pk = wm_publicKey m
     else key_certified (wm_pkSig m) (wm_publicKey m) (wm_srcNodeID m) (nm_blockID (wm_base m)))).
Proof.
  intros Hk. unfold verifyMessage, verifySessionSigAndKey. rewrite sgx. wp_steps; try done.
  apply wp_lru_getIfExists; [apply Hk|]. pose proof (keys_inv_touch (wm_pkSig m) c Hk) as Hk'.
  destruct (lru_lookup c (wm_pkSig m)) as [pk|]; wp_simpl.
  - split; intros Hpk; [|by split]. by apply edDSA_step, (bool_decide_eq_true_1 _ Hpk).
  - destruct (verifyPublicKey _ _ _ _ _) as [[]|e] eqn:Hv; [|split; [done|by destruct e]].
    apply verifyPublicKey_sound in Hv. unfold lru_put. wp_simpl.
    apply edDSA_step; [eapply keys_inv_put; [done|]|]; by eexists.
Qed.

(** A message that verifies carries a signature of its hash under a session key
    that a node certified for a block; the cache of verified keys only ever holds
    certified keys. *)
Lemma verified_message_certified m stamp c :
  keys_inv c ->
  wp (verifyMessage N m stamp) c (fun r c' => keys_inv c' /\
    (r = Ok tt -> signed m /\ exists node blockID, key_certified (wm_pkSig m) (wm_publicKey m) node blockID)).
Proof.
  intros Hk. eapply wp_mono; [by apply verifyMessage_sound|]. cbn beta. intros r c' [Hk' Hr].
  split; [done|]. intros [Hs Hc]%Hr. split; [done|]. destruct (lru_lookup c (wm_pkSig m)) eqn:Hl; [subst|by eauto].
  by apply Hk in Hl.
Qed.

(** The node of a remembered key is not compared: with the key of another node
    in the cache, a message may name any sender. *)
Lemma cached_key_any_node m stamp c :
  keys_inv c -> lru_lookup c (wm_pkSig m) = Some (wm_publicKey m) -> wm_ecdsaSig m <> ""%string -> signed m ->
  wp (verifyMessage N m stamp) c (fun r _ => r = Ok tt).
Proof.
  intros Hk Hl Hs Hg. unfold verifyMessage, verifySessionSigAndKey. rewrite (bool_decide_eq_true_2 _ Hs). wp_simpl.
  split; [intros _|done]. split; [intros _|done]. apply wp_lru_getIfExists; [apply Hk|]. rewrite Hl. wp_simpl.
  rewrite bool_decide_eq_true_2 by done. split; [intros _|done].
  unfold verifySessionEdDSASig. rewrite (bool_decide_eq_true_2 _ Hs), sgx. unfold signed in Hg. cbn. by rewrite Hg.
Qed.
End Authenticity.

(** ** Signing *)
Section Signing.
Context {share : Type} (N : net_crypto share) (myNode : Z).
Local Abbreviation message := (WireMessage share).
Implicit Types m : message.

(** What the wallet promises of the session keys that it makes. *)
Definition signs_correctly : Prop :=
  forall h blockID sig pk pkSig, nc_signSessionECDSA N h blockID = Ok (sig, pk, pkSig) ->
    nc_verifyEdDSA N pk sig h = Ok tt /\
    forall t, nc_verifyECDSASig N (calculatePublicKeyHash N pk blockID) pkSig myNode t = Ok tt.

Lemma no_colon_bytes l : Forall (fun c => 0 <= c < 256 /\ c <> 58) l -> has_char ":" (bytes_string l) = false.
Proof.
  induction 1 as [|c l [Hc Hn] _ IH]; [done|]. cbn [bytes_string has_char]. rewrite IH, orb_false_r.
  apply Ascii.eqb_neq. intros He. apply (f_equal N_of_ascii) in He. rewrite N_ascii_embedding in He by lia.
  cbn in He. lia.
Qed.

Lemma hexval_char n : 0 <= n < 16 -> 0 <= hexval n < 256 /\ hexval n <> 58.
Proof. intros Hn. unfold hexval. destruct (Z.ltb_spec n 10); lia. Qed.

Lemma toHex_no_colon h : has_char ":" (toHex h) = false.
Proof.
  apply no_colon_bytes. induction h as [|b h IH]; cbn [carray2Hex]; [constructor|].
  repeat constructor; try apply hexval_char; try apply land15_range. done.
Qed.

Lemma signSession_sgx h blockID x :
  nc_isSGXEnabled N = true -> signSession N h blockID = Ok x -> nc_signSessionECDSA N h blockID = Ok x.
Proof.
  intros Hx. unfold signSession. rewrite Hx. destruct (nc_signSessionECDSA N h blockID) as [[[a b] c]|]; cbn; [|done].
  by destruct (bool_decide (a <> _)), (bool_decide (b <> _)), (bool_decide (c <> _)).
Qed.

(** A signature that was made for a hash verifies for it. *)
Lemma signSession_verifies h blockID sig pk pkSig :
  signs_correctly -> signSession N h blockID = Ok (sig, pk, pkSig) -> sig <> ""%string ->
  verifySessionEdDSASig N h sig pk = Ok tt.
Proof.
  intros Hl Hs Hne. unfold verifySessionEdDSASig. rewrite (bool_decide_eq_true_2 _ Hne). cbn [rcheck mbind res_bind].
  destruct (nc_isSGXEnabled N) eqn:Hx.
  - apply signSession_sgx, Hl in Hs as [He _]; [|done]. by rewrite He.
  - revert Hs. unfold signSession. rewrite Hx. intros [= <- <- <-]. destruct (nc_isSyncOnlyNode N); [done|].
    rewrite toHex_no_colon. cbn. by rewrite bool_decide_eq_true_2.
Qed.

(** A message that a node signs verifies at every peer: the signature is
    accepted, with the session key certified by the sender or already known to
    the peer, in production and in test mode. *)
Lemma signed_message_verifies m m' stamp c :
  signs_correctly -> wm_srcNodeID m = myNode -> signMessage N m = Ok m' ->
  lru_inv c -> (forall pk, lru_lookup c (wm_pkSig m') = Some pk -> pk = wm_publicKey m') ->
  wp (verifyMessage N m' stamp) c (fun r _ => r = Ok tt).
Proof.
  intros Hl Hn Hm Hi Hc. unfold signMessage in Hm.
  destruct (signSession N (messageHash N m) (nm_blockID (wm_base m))) as [[[sig pk] pkSig]|] eqn:Hs; cbn in Hm; [|done].
  destruct (bool_decide (sig <> ""%string)) eqn:Hne; cbn in Hm; [|done]. apply bool_decide_eq_true_1 in Hne.
  injection Hm as <-. pose proof (signSession_verifies _ _ _ _ _ Hl Hs Hne) as Hv.
  unfold verifyMessage, verifySessionSigAndKey. cbn [wm_ecdsaSig wm_publicKey wm_pkSig wm_base wm_srcNodeID] in *.
  rewrite (bool_decide_eq_true_2 _ Hne). wp_simpl. split; [intros _|done]. split; [intros _|done].
  apply wp_lru_getIfExists; [done|]. destruct (lru_lookup c pkSig) as [pk'|].
  - wp_simpl. rewrite (bool_decide_eq_true_2 (pk' = pk)) by auto. split; [intros _|done]. 
    change (messageHash N _) with (messageHash N m). by rewrite Hv.
  - destruct (nc_isSGXEnabled N) eqn:Hx; wp_simpl; change (messageHash N _) with (messageHash N m); [|by rewrite Hv].
    unfold verifyPublicKey. cbn [fst]. rewrite Hn. apply signSession_sgx, Hl in Hs as [_ ->]; [|done].
    unfold lru_put. wp_simpl. by rewrite Hv.
Qed.

(** The index of the sender is not tied to its node: the same signer is accepted
    under the index of any other node. *)
Lemma sender_index_unbound m stamp c (i : Z) m' :
  signs_correctly -> wm_srcNodeID m = myNode -> lru_inv c ->
  signMessage N {| wm_base := {| nm_type := nm_type (wm_base m); nm_schainID := nm_schainID (wm_base m);
    nm_msgID := nm_msgID (wm_base m); nm_blockID := nm_blockID (wm_base m);
    nm_blockProposerIndex := nm_blockProposerIndex (wm_base m); nm_round := nm_round (wm_base m);
    nm_value := nm_value (wm_base m); nm_timeMs := nm_timeMs (wm_base m); nm_srcSchainIndex := i;
    nm_sigShare := nm_sigShare (wm_base m) |}; wm_srcNodeID := wm_srcNodeID m;
    wm_sigShareString := wm_sigShareString m; wm_ecdsaSig := wm_ecdsaSig m; wm_publicKey := wm_publicKey m;
    wm_pkSig := wm_pkSig m; wm_child := wm_child m |} = Ok m' ->
  (forall pk, lru_lookup c (wm_pkSig m') = Some pk -> pk = wm_publicKey m') ->
  nm_srcSchainIndex (wm_base m') = i /\ wp (verifyMessage N m' stamp) c (fun r _ => r = Ok tt).
Proof.
  intros Hl Hn Hi Hs Hc. split; [|eapply signed_message_verifies; [exact Hl| |exact Hs|done|done]; exact Hn].
  unfold signMessage in Hs. rinv Hs. destruct x as [[sig pk] pkSig]. rinv Hs. by injection Hs as <-.
Qed.
End Signing.

(** ** Witnesses *)

(** A wallet that signs a hash with its text, and a writer of objects. *)
Definition toy_write (d : document) : string :=
  (bits (encode d) +:+ String ":" (foldr (fun _ s => "     " +:+ s) "" d))%string.

Definition toy_parse (s : string) : res document :=
  match decode (read_bits s) with Some d => Ok d | None => Err JsonError end.

Definition toy_name : string := "key".

Definition toy_sum (l : list Z) : list Z := le_bytes 32 (le_value l).

Definition toy_verify (h : list Z) (sig : string) : res unit :=
  rcheck InvalidStateException (bool_decide (sig = ("1" +:+ toHex h)%string)).

Definition toy_net_at {share} (mk : string -> share) : net_crypto share := {|
  nc_blake3 := toy_sum; nc_write := toy_write; nc_parse := toy_parse;
  nc_createSigShare := fun s _ _ _ _ => Ok (mk s); nc_isSGXEnabled := true; nc_isSyncOnlyNode := false;
  nc_signSessionECDSA := fun h b =>
    Ok (("1" +:+ toHex h)%string, toy_name, ("1" +:+ toHex (toy_sum (le_bytes 8 b ++ string_bytes toy_name)))%string);
  nc_verifyECDSASig := fun h sig _ _ => toy_verify h sig;
  nc_verifyEdDSA := fun _ sig h => toy_verify h sig;
  nc_parseSpec := fun _ => Ok tt |}.

Definition toy_net : net_crypto string := toy_net_at id.

Lemma bits_text p s : c_str s = s -> c_str (bits p +:+ s) = bits p +:+ s.
Proof.
  intros Hs. induction p as [p IH|p IH|]; [| |done]; cbn [bits];
    change (String ?c ?x +:+ s) with (String c (x +:+ s)); cbn; by rewrite IH.
Qed.

Lemma spaces_app s : "     " +:+ s = String " " (String " " (String " " (String " " (String " " s)))).
Proof. done. Qed.

#[export] Instance toy_laws {share} (mk : string -> share) : JsonLaws (toy_net_at mk).
Proof.
  split.
  - intros d _. unfold toy_net_at, nc_parse, nc_write, toy_parse, toy_write. by rewrite read_bits_app, decode_encode.
  - intros d _. apply bits_text. cbn. f_equal. induction d as [|kv d IH]; [done|].
    cbn [foldr]. rewrite spaces_app. cbn. by rewrite IH.
  - intros d. unfold nc_write, toy_net_at, toy_write. rewrite string_length_app. cbn [String.length].
    enough (5 * length d <= String.length (foldr (fun _ s => "     " +:+ s) "" d))%nat by lia.
    induction d as [|kv d IH]; [done|]. cbn [foldr]. rewrite spaces_app. cbn [length String.length]. lia.
Qed.

Lemma toy_signs {share} (mk : string -> share) node : signs_correctly (toy_net_at mk) node.
Proof.
  intros h b sig pk pkSig Hs. unfold toy_net_at, nc_signSessionECDSA in Hs.
  apply (inj Ok) in Hs. apply (inj2 pair) in Hs as [Hp Hc].
  apply (inj2 pair) in Hp as [H1 Hk].
  split; [|intros t]; unfold toy_net_at, nc_verifyEdDSA, nc_verifyECDSASig, toy_verify;
    rewrite bool_decide_eq_true_2; [done|by rewrite H1|done|].
  rewrite <- Hc, <- Hk. done.
Qed.

(** An AUX vote of node 2 in the round of the common coin. *)
Definition toy_vote (value : Z) (sig pk pkSig : string) : WireMessage string := {|
  wm_base := {| nm_type := MSG_AUX_BROADCAST; nm_schainID := 1; nm_msgID := 7; nm_blockID := 9;
    nm_blockProposerIndex := 3; nm_round := 3; nm_value := value; nm_timeMs := 1700000000000;
    nm_srcSchainIndex := 2; nm_sigShare := Some "12:34"%string |};
  wm_srcNodeID := 4; wm_sigShareString := "12:34"; wm_ecdsaSig := sig; wm_publicKey := pk; wm_pkSig := pkSig;
  wm_child := NoChild |}.

Lemma toy_vote_wf value sig :
  word 8 value -> wire_text sig -> sig <> ""%string -> wire_wf toy_net (toy_vote value sig "key" "cert").
Proof.
  intros Hv Ht Hs. constructor; cbn; unfold word; try lia; try done.
  all: try (split; [vm_compute; repeat constructor|done]).
Qed.

Lemma toy_text : wire_text "sig" /\ wire_text "other".
Proof. repeat split; vm_compute; repeat constructor. Qed.

Lemma message_roundtrip_witness :
  exists text, serializeMessage toy_net (toy_vote 1 "sig" "key" "cert") = Ok text /\
    parseMessage toy_net text 1 0 false = Ok (toy_vote 1 "sig" "key" "cert").
Proof. apply (message_roundtrip toy_net (toy_vote 1 "sig" "key" "cert") 0), toy_vote_wf; [by vm_compute|apply toy_text|done]. Defined.

Lemma message_hash_binding_witness :
  same_content (toy_vote 1 "sig" "key" "cert") (toy_vote 1 "other" "key" "cert").
Proof.
  destruct toy_text as [Ht Ht'].
  destruct (message_hash_binding toy_net (toy_vote 1 "sig" "key" "cert") (toy_vote 1 "other" "key" "cert"))
    as [Hs|[Hne _]]; [by apply toy_vote_wf..|by vm_compute|by vm_compute|done|exact Hs|by destruct Hne].
Defined.

Lemma parsed_message_wf_witness :
  parsed_wf toy_net 1 (toy_vote 1 "sig" "key" "cert") /\
  exists k, createProtocolKey (wm_base (toy_vote 1 "sig" "key" "cert")) = Ok k.
Proof.
  apply (parsed_message_wf toy_net (nc_write toy_net (messageFields (toy_vote 1 "sig" "key" "cert"))) 1 0).
  apply (parseMessage_fields toy_net (toy_vote 1 "sig" "key" "cert") 0), toy_vote_wf; [by vm_compute|apply toy_text|done].
Defined.
