(* ===== verification/Network.v ===== *)
(** * The network agent

    Model of [Network] ([src/network/Network.cpp]) with the transport of
    [ZMQNetwork] ([src/network/ZMQNetwork.cpp]) as a stream of outcomes: messages
    for a future block or round are deferred, messages that a peer does not
    accept are delayed, messages that were seen are dropped. *)

From stdpp Require Import base tactics gmap list strings.
From Stdlib Require Import ZArith Lia.
From S2P Require Import Prelude Bytes Messages BinConsensus LruCache LevelDb BlockSigShare ProposalVector BlockConsensus.
From S2P Require Import Transactions Blocks OtherDbs NetMessages.

Definition MAX_DEFERRED_QUEUE_SIZE_FOR_BLOCK : Z := 1024.
Definition MAX_DELAYED_MESSAGE_SENDS : Z := 128.
Definition KNOWN_MSG_HASHES_SIZE : Z := 1024.
Definition MAX_CONSENSUS_MESSAGE_LEN : Z := 4096.

(** [nt_nodes] is [nodeInfosByIndex]; [nt_badNetwork] is a test mode. *)
Record net_config := {
  nt_nodeCount : Z;
  nt_schainIndex : Z;
  nt_schainID : Z;
  nt_nodes : gmap Z Z;
  nt_catchupBlocks : Z;
  nt_badNetwork : bool;
  nt_msgCfg : db_config
}.

(** [NetworkMessageEnvelope]. *)
Record NetEnvelope {share : Type} := {
  ne_message : WireMessage share;
  ne_srcSchainIndex : Z;
  ne_arrivalTime : Z
}.
Arguments NetEnvelope : clear implicits.

(** The outcome of [zmq_send]; past the end of the stream all are accepted. *)
Inductive send_outcome :=
  | SendAccepted
  | SendAgain
  | SendFails.

(** The outcome of [zmq_recv]: the bytes of a message, cut at the length of the
    buffer, with the length of the message as it was sent. *)
Inductive recv_outcome :=
  | Received (text : string) (length : Z)
  | RecvAgain
  | RecvFails.

(** The state of the agent, with the parts of the node that it works on: the
    last block of the chain, the consensus agent, the session keys, the database
    of outgoing messages, and the queues of the chain and of the oracle. *)
Record network {D share sig : Type} := mkNetwork {
  nw_deferred : gmap Z (list (NetEnvelope share));
  nw_delayed : list (list (WireMessage share * Z));
  nw_known : lru_cache string bool;
  nw_last : Z;
  nw_stamp : TimeStamp;
  nw_agent : agent_state share sig;
  nw_keys : lru_cache string string;
  nw_outgoing : msg_db D;
  nw_posted : list (NetEnvelope share);
  nw_oracle : list (NetEnvelope share);
  nw_sent : list (Z * WireMessage share);
  nw_sends : list send_outcome;
  nw_recvs : list recv_outcome;
  nw_exits : list bool
}.
Arguments network : clear implicits.
Arguments mkNetwork {D share sig}.

Section Network.
Context {D : Type} `{KVStore D}.
Context {share shareset sig : Type}.
Context (T : net_config) (N : net_crypto share) (A : agent_env share shareset sig) (now : Z).
Local Abbreviation state := (network D share sig).
Local Abbreviation message := (WireMessage share).
Local Abbreviation envelope := (NetEnvelope share).

(** ** Fields *)
Definition set_deferred x (s : state) : state :=
  mkNetwork x (nw_delayed s) (nw_known s) (nw_last s) (nw_stamp s) (nw_agent s) (nw_keys s) (nw_outgoing s)
    (nw_posted s) (nw_oracle s) (nw_sent s) (nw_sends s) (nw_recvs s) (nw_exits s).
Definition set_delayed x (s : state) : state :=
  mkNetwork (nw_deferred s) x (nw_known s) (nw_last s) (nw_stamp s) (nw_agent s) (nw_keys s) (nw_outgoing s)
    (nw_posted s) (nw_oracle s) (nw_sent s) (nw_sends s) (nw_recvs s) (nw_exits s).
Definition set_known x (s : state) : state :=
  mkNetwork (nw_deferred s) (nw_delayed s) x (nw_last s) (nw_stamp s) (nw_agent s) (nw_keys s) (nw_outgoing s)
    (nw_posted s) (nw_oracle s) (nw_sent s) (nw_sends s) (nw_recvs s) (nw_exits s).
Definition set_agent x (s : state) : state :=
  mkNetwork (nw_deferred s) (nw_delayed s) (nw_known s) (nw_last s) (nw_stamp s) x (nw_keys s) (nw_outgoing s)
    (nw_posted s) (nw_oracle s) (nw_sent s) (nw_sends s) (nw_recvs s) (nw_exits s).
Definition set_keys x (s : state) : state :=
  mkNetwork (nw_deferred s) (nw_delayed s) (nw_known s) (nw_last s) (nw_stamp s) (nw_agent s) x (nw_outgoing s)
    (nw_posted s) (nw_oracle s) (nw_sent s) (nw_sends s) (nw_recvs s) (nw_exits s).
Definition set_outgoing x (s : state) : state :=
  mkNetwork (nw_deferred s) (nw_delayed s) (nw_known s) (nw_last s) (nw_stamp s) (nw_agent s) (nw_keys s) x
    (nw_posted s) (nw_oracle s) (nw_sent s) (nw_sends s) (nw_recvs s) (nw_exits s).
Definition set_posted x (s : state) : state :=
  mkNetwork (nw_deferred s) (nw_delayed s) (nw_known s) (nw_last s) (nw_stamp s) (nw_agent s) (nw_keys s)
    (nw_outgoing s) x (nw_oracle s) (nw_sent s) (nw_sends s) (nw_recvs s) (nw_exits s).
Definition set_oracle x (s : state) : state :=
  mkNetwork (nw_deferred s) (nw_delayed s) (nw_known s) (nw_last s) (nw_stamp s) (nw_agent s) (nw_keys s)
    (nw_outgoing s) (nw_posted s) x (nw_sent s) (nw_sends s) (nw_recvs s) (nw_exits s).
Definition set_sent x y (s : state) : state :=
  mkNetwork (nw_deferred s) (nw_delayed s) (nw_known s) (nw_last s) (nw_stamp s) (nw_agent s) (nw_keys s)
    (nw_outgoing s) (nw_posted s) (nw_oracle s) x y (nw_recvs s) (nw_exits s).
Definition set_exits x (s : state) : state :=
  mkNetwork (nw_deferred s) (nw_delayed s) (nw_known s) (nw_last s) (nw_stamp s) (nw_agent s) (nw_keys s)
    (nw_outgoing s) (nw_posted s) (nw_oracle s) (nw_sent s) (nw_sends s) (nw_recvs s) x.

Definition set_recvs x (s : state) : state :=
  mkNetwork (nw_deferred s) (nw_delayed s) (nw_known s) (nw_last s) (nw_stamp s) (nw_agent s) (nw_keys s)
    (nw_outgoing s) (nw_posted s) (nw_oracle s) (nw_sent s) (nw_sends s) x (nw_exits s).

Definition net_isExitRequested : M state bool :=
  s ← get;
  match nw_exits s with
  | [] => mret false
  | e :: es => put (set_exits es s) ;; mret e
  end.

Definition exitCheck : M state unit :=
  e ← net_isExitRequested; check ExitRequestedException (negb e).

(** [Schain::postMessage] and [OracleResultAssemblyAgent::postMessage]. *)
Definition net_postMessage (me : envelope) : M state unit :=
  exitCheck ;;
  CHECK_STATE (negb (nm_blockID (wm_base (ne_message me)) =? 0)) ;;
  modify (fun s => set_posted (nw_posted s ++ [me]) s).

Definition oracle_postMessage (me : envelope) : M state unit :=
  exitCheck ;;
  CHECK_STATE (negb (nm_blockID (wm_base (ne_message me)) =? 0)) ;;
  modify (fun s => set_oracle (nw_oracle s ++ [me]) s).

(** ** Deferred messages *)

(** [push_back], and [pop_front] above the limit. *)
Definition push_limited {B} (limit : Z) (l : list B) (x : B) : list B :=
  let l := l ++ [x] in if limit <? zlen l then drop 1 l else l.

Definition addToDeferredMessageQueue (me : envelope) : M state unit :=
  let blockID := nm_blockID (wm_base (ne_message me)) in
  modify (fun s => set_deferred
    (<[blockID := push_limited MAX_DEFERRED_QUEUE_SIZE_FOR_BLOCK (default [] (nw_deferred s !! blockID)) me]>
      (nw_deferred s)) s).

Definition pullMessagesForCurrentBlockID : M state (list envelope) :=
  s ← get;
  let currentBlockID := u64 (nw_last s + 1) in
  put (set_deferred (filter (fun kv => currentBlockID < kv.1) (nw_deferred s)) s) ;;
  mret (concat (map snd (filter (fun kv => kv.1 <= currentBlockID) (map_items (nw_deferred s))))).

Definition is_oracle (m : message) : bool :=
  bool_decide (nm_type (wm_base m) = MSG_ORACLE_REQ_BROADCAST) ||
  bool_decide (nm_type (wm_base m) = MSG_ORACLE_RSP).

Definition postDeferOrDrop (me : envelope) : M state unit :=
  s ← get;
  let currentBlockID := u64 (nw_last s + 1) in
  let m := ne_message me in
  let bid := nm_blockID (wm_base m) in
  if currentBlockID <? bid then addToDeferredMessageQueue me
  else if u64 (bid + MAX_ACTIVE_CONSENSUSES) <=? currentBlockID then mret tt
  else if is_oracle m then oracle_postMessage me
  else
    post ← zoom nw_agent set_agent (shouldPost A (wm_base m));
    if (post : bool) then net_postMessage me else addToDeferredMessageQueue me.

(** ** Sending *)

(** [zmq_send]: a message that is accepted is in [nw_sent].  Past the end of the
    stream no peer accepts anything more. *)
Definition zmq_send (dst : Z) (m : message) : M state send_outcome :=
  s ← get;
  match nw_sends s with
  | [] => mret SendAgain
  | SendAccepted :: os => put (set_sent (nw_sent s ++ [(dst, m)]) os s) ;; mret SendAccepted
  | o :: os => put (set_sent (nw_sent s) os s) ;; mret o
  end.

Definition interruptableSend (dst : Z) (m : message) : M state bool :=
  exitCheck ;;
  rc ← zmq_send dst m;
  exitCheck ;;
  match rc with
  | SendAccepted => mret true
  | SendAgain => mret false
  | SendFails => throw NetworkProtocolException
  end.

(** [ZMQNetwork::sendMessage]: the result tells whether it was accepted. *)
Definition sendMessage (dst : Z) (m : message) : M state bool :=
  lift_res (serializeMessage N m) ;;
  exitCheck ;;
  interruptableSend dst m.

(** [delayedSends.at( dstIndex - 1 )]. *)
Definition addToDelayedSends (m : message) (dst : Z) : M state unit :=
  s ← get;
  match nw_delayed s !! Z.to_nat (u64 (dst - 1)) with
  | None => throw StdOutOfRange
  | Some l =>
      put (set_delayed (<[Z.to_nat (u64 (dst - 1)) := push_limited MAX_DELAYED_MESSAGE_SENDS l (m, dst)]>
        (nw_delayed s)) s)
  end.

Definition destinations : list Z := (map_items (nt_nodes T)).*1.

(** One pass over the nodes that have not accepted the message yet. *)
Fixpoint sendPass (dsts : list Z) (m : message) (sent : gset Z) : M state (gset Z) :=
  match dsts with
  | [] => mret sent
  | dst :: dsts =>
      if negb (dst =? nt_schainIndex T) && bool_decide (dst ∉ sent) then
        ok ← sendMessage dst m;
        sendPass dsts m (if (ok : bool) then {[dst]} ∪ sent else sent)
      else sendPass dsts m sent
  end.

Fixpoint sendToTwoThirds (m : message) (sent : gset Z) (fuel : nat) : M state (gset Z) :=
  if u64 (3 * (zsize sent + 1)) <? u64 (nt_nodeCount T * 2) then
    match fuel with
    | O => throw OutOfFuel
    | S fuel => sent ← sendPass destinations m sent; sendToTwoThirds m sent fuel
    end
  else mret sent.

Fixpoint delayRest (dsts : list Z) (m : message) (sent : gset Z) : M state unit :=
  match dsts with
  | [] => mret tt
  | dst :: dsts =>
      when (negb (dst =? nt_schainIndex T) && bool_decide (dst ∉ sent)) (addToDelayedSends m dst) ;;
      delayRest dsts m sent
  end.

(** [try { saveMsg } catch ( exception& )]. *)
Definition saveOutgoing (m : message) : M state unit :=
  fun s =>
    let '(r, db) := saveMsg (nt_msgCfg T) message (serializeMessage N) (fun m => nm_blockID (wm_base m)) m
      (nw_outgoing s) in
    (match r with Err OutOfFuel => Err OutOfFuel | _ => Ok tt end, set_outgoing db s).

(** The message that is sent: the object is signed in place. *)
Definition broadcastMessageImpl (m : message) (isFirstBroadcast : bool) : M state message :=
  if nm_blockID (wm_base m) <=? nt_catchupBlocks T then mret m
  else if (nm_blockID (wm_base m) =? 5) && nt_badNetwork T then mret m
  else
    nested_all InvalidStateException
      (m ← (if isFirstBroadcast then m ← lift_res (signMessage N m); saveOutgoing m ;; mret m else mret m);
       s ← get;
       sent ← sendToTwoThirds m ∅ (S (length (nw_sends s)));
       delayRest destinations m sent ;;
       mret m).

Definition broadcastMessage (m : message) : M state message := broadcastMessageImpl m true.
Definition rebroadcastMessage (m : message) : M state message := broadcastMessageImpl m false.

(** Oracle messages are sent once. *)
Fixpoint sendOracle (dsts : list Z) (m : message) : M state unit :=
  match dsts with
  | [] => mret tt
  | dst :: dsts =>
      (if negb (dst =? nt_schainIndex T) then sendMessage dst m ;; mret tt
       else oracle_postMessage {| ne_message := m; ne_srcSchainIndex := dst; ne_arrivalTime := now |}) ;;
      sendOracle dsts m
  end.

Definition broadcastOracleRequestMessage (m : message) : M state unit :=
  nested_all InvalidStateException (m ← lift_res (signMessage N m); sendOracle destinations m).

Definition sendOracleResponseMessage (m : message) (dst : Z) : M state unit :=
  nested_all InvalidStateException
    (m ← lift_res (signMessage N m);
     if negb (dst =? nt_schainIndex T) then
       CHECK_STATE (bool_decide (is_Some (nt_nodes T !! dst))) ;; sendMessage dst m ;; mret tt
     else oracle_postMessage {| ne_message := m; ne_srcSchainIndex := dst; ne_arrivalTime := now |}).

(** At most one message for every node. *)
Fixpoint trySending (indices : list Z) : M state unit :=
  match indices with
  | [] => mret tt
  | i :: indices =>
      (if negb (i =? nt_schainIndex T - 1) then
         s ← get;
         match nw_delayed s !! Z.to_nat i with
         | None => throw StdOutOfRange
         | Some [] => mret tt
         | Some ((m, dst) :: _) =>
             ok ← sendMessage dst m;
             when ok (modify (fun s => set_delayed (alter (drop 1) (Z.to_nat i) (nw_delayed s)) s))
         end
       else mret tt) ;;
      trySending indices
  end.

Definition trySendingDelayedSends : M state unit := trySending (seqZ 0 (nt_nodeCount T)).

Definition computeTotalDelayedSends (s : state) : Z :=
  foldl (fun total l => u64 (total + zlen l)) 0 (nw_delayed s).

(** ** Deferred messages

    One turn of [deferredMessagesLoop]; [false] ends it. *)
Fixpoint postAll (messages : list envelope) : M state bool :=
  match messages with
  | [] => mret true
  | me :: messages =>
      e ← net_isExitRequested;
      if (e : bool) then mret false else postDeferOrDrop me ;; postAll messages
  end.

(** Exceptions of the standard library are not caught. *)
Definition is_std (e : exn) : bool :=
  match e with
  | OutOfFuel | StdRangeError | StdOutOfRange | StdLengthError | StdUnderflowError | JsonError => true
  | _ => false
  end.

Definition deferredWork : M state bool :=
  deferredMessages ← pullMessagesForCurrentBlockID;
  go ← postAll deferredMessages;
  if (go : bool) then trySendingDelayedSends ;; mret true else mret false.

Definition deferredTurn : M state bool :=
  fun s =>
    match deferredWork s with
    | (Ok go, s') => (Ok go, s')
    | (Err e, s') =>
        if bool_decide (e = ExitRequestedException) then (Ok false, s')
        else if is_std e then (Err e, s')
        else (Ok true, s')
    end.

Fixpoint deferredMessagesLoop (turns : nat) : M state unit :=
  match turns with
  | O => throw OutOfFuel
  | S turns =>
      e ← net_isExitRequested;
      if (e : bool) then mret tt
      else go ← deferredTurn; if (go : bool) then deferredMessagesLoop turns else mret tt
  end.

(** ** Receiving *)

(** [interruptableRecv]: past the end of the stream no message arrives and the
    node waits. *)
Fixpoint recv (rs : list recv_outcome) : M state (string * Z) :=
  exitCheck ;;
  match rs with
  | [] => throw OutOfFuel
  | r :: rs =>
      modify (set_recvs rs) ;;
      exitCheck ;;
      match r with
      | Received text length => mret (text, length)
      | RecvAgain => recv rs
      | RecvFails => throw NetworkProtocolException
      end
  end.

Definition interruptableRecv : M state (string * Z) :=
  s ← get; recv (nw_recvs s).

(** A chain of one node has no one to receive from: it waits for the exit. *)
Fixpoint waitForExit (exits : list bool) : M state unit :=
  match exits with
  | [] => throw OutOfFuel
  | _ :: exits => exitCheck ;; waitForExit exits
  end.

Definition readMessageFromNetwork : M state string :=
  exitCheck ;;
  when (nt_nodeCount T =? 1) (s ← get; waitForExit (nw_exits s)) ;;
  '(text, rc) ← interruptableRecv;
  check NetworkProtocolException (rc <? MAX_CONSENSUS_MESSAGE_LEN) ;;
  mret text.

Definition receiveMessage : M state envelope :=
  text ← readMessageFromNetwork;
  s ← get;
  m ← lift_res (parseMessage N text (nt_schainID T) (nw_last s) false);
  zoom nw_keys set_keys (verifyMessage N m (nw_stamp s)) ;;
  match nt_nodes T !! nm_srcSchainIndex (wm_base m) with
  | None => throw InvalidStateException
  | Some _ =>
      lift_res (createProtocolKey (wm_base m)) ;;
      mret {| ne_message := m; ne_srcSchainIndex := nm_srcSchainIndex (wm_base m); ne_arrivalTime := now |}
  end.

Definition processReceived (me : envelope) : M state unit :=
  let m := ne_message me in
  if nm_blockID (wm_base m) <=? nt_catchupBlocks T then mret tt
  else
    fresh ← zoom nw_known set_known (lru_putIfDoesNotExist (toHex (messageHash N m)) true);
    if negb fresh then mret tt
    else if is_oracle m then oracle_postMessage me
    else postDeferOrDrop me.

(** One turn of [networkReadLoop]; [false] ends it. *)
Definition readWork : M state unit := me ← receiveMessage; processReceived me.

Definition networkReadTurn : M state bool :=
  fun s =>
    match readWork s with
    | (Ok _, s') => (Ok true, s')
    | (Err OutOfFuel, s') => (Err OutOfFuel, s')
    | (Err (ExitRequestedException | FatalError), s') => (Ok false, s')
    | (Err _, s') => (Ok true, s')
    end.

Fixpoint networkReadLoop (turns : nat) : M state unit :=
  match turns with
  | O => throw OutOfFuel
  | S turns =>
      e ← net_isExitRequested;
      if (e : bool) then mret tt
      else go ← networkReadTurn; if (go : bool) then networkReadLoop turns else mret tt
  end.

(** ** Construction *)
Definition mkNet (isSyncOnlyNode : bool) (packetLoss : option Z) (s : state) : res state :=
  rcheck InvalidStateException (negb isSyncOnlyNode) ;;
  rcheck InvalidStateException (match packetLoss with Some pl => u32 pl <=? 100 | None => true end) ;;
  Ok (set_deferred ∅ (set_delayed (replicate (Z.to_nat (nt_nodeCount T)) [])
       (set_known (lru_new KNOWN_MSG_HASHES_SIZE) s))).
End Network.
