(* ===== verification/NetworkTheorems.v ===== *)
(** * Theorems about the network agent

    The queues of the agent stay within their limits whatever arrives and
    whatever the peers accept; a broadcast reaches two thirds of the nodes and
    is kept for the others; a deferred message is posted, deferred again or too
    old; and what a node posts has verified. *)

From stdpp Require Import base tactics gmap list strings relations sorting.
From Stdlib Require Import ZArith Lia.
From S2P Require Import Prelude Bytes Messages BinConsensus LruCache LevelDb BlockSigShare ProposalVector BlockConsensus.
From S2P Require Import BlockTheorems Transactions Blocks OtherDbs NetMessages MessageTheorems Network.

(** Unfolds the monad. *)
Ltac run := cbv beta iota delta [mbind M_bind get mret M_ret put modify lift_res throw check when].

Lemma modify_keeps {S X} (f : S -> X) (g : S -> S) : (forall s, f (g s) = f s) -> keeps f (modify g).
Proof. intros Hf s. apply Hf. Qed.

Section Queues.
Context {D : Type} `{KVStore D}.
Context {share shareset sig : Type}.
Context (T : net_config) (N : net_crypto share) (A : agent_env share shareset sig) (now : Z).
Local Abbreviation state := (network D share sig).
Local Abbreviation envelope := (NetEnvelope share).
Implicit Types s : state.

(** ** Frames *)
Definition queues s := (nw_deferred s, nw_delayed s, nw_known s).

Lemma exit_keeps {X} (f : state -> X) :
  (forall s es, f (set_exits es s) = f s) -> keeps f (net_isExitRequested (sig := sig)).
Proof. intros Hf s. unfold net_isExitRequested. run. destruct (nw_exits s); cbn; auto. Qed.

Lemma exitCheck_keeps {X} (f : state -> X) :
  (forall s es, f (set_exits es s) = f s) -> keeps f (exitCheck (sig := sig)).
Proof. intros Hf. apply keeps_bind; [by apply exit_keeps|intros]. apply keeps_check. Qed.

(** Splits a method into parts that keep a field. *)
Ltac frames_with tac :=
  repeat first
    [ tac | apply exitCheck_keeps; solve [auto] | apply exit_keeps; solve [auto]
    | apply modify_keeps; intros; solve [auto] | apply keeps_zoom; solve [auto]
    | apply keeps_ret | apply keeps_throw | apply keeps_lift | apply keeps_get
    | apply keeps_check | apply keeps_if | apply keeps_when | apply keeps_nested_all
    | apply keeps_bind; [|intros] | done ].
Ltac frames := frames_with fail.

Lemma post_keeps {X} (f : state -> X) me :
  (forall s es, f (set_exits es s) = f s) -> (forall s x, f (set_posted x s) = f s) ->
  keeps f (net_postMessage me).
Proof. intros He Hp. unfold net_postMessage. frames. Qed.

Lemma oracle_keeps {X} (f : state -> X) me :
  (forall s es, f (set_exits es s) = f s) -> (forall s x, f (set_oracle x s) = f s) ->
  keeps f (oracle_postMessage me).
Proof. intros He Hp. unfold oracle_postMessage. frames. Qed.

Lemma zmq_send_keeps {X} (f : state -> X) dst m :
  (forall s x y, f (set_sent x y s) = f s) -> keeps f (zmq_send dst m).
Proof. intros Hp s. unfold zmq_send. run. destruct (nw_sends s) as [|[]]; cbn; auto. Qed.

Lemma sendMessage_keeps {X} (f : state -> X) dst m :
  (forall s es, f (set_exits es s) = f s) -> (forall s x y, f (set_sent x y s) = f s) ->
  keeps f (sendMessage N dst m).
Proof.
  intros He Hp. unfold sendMessage, interruptableSend.
  frames_with ltac:(apply zmq_send_keeps; solve [auto]). destruct a2; frames.
Qed.

Lemma sendPass_keeps {X} (f : state -> X) dsts m sent :
  (forall s es, f (set_exits es s) = f s) -> (forall s x y, f (set_sent x y s) = f s) ->
  keeps f (sendPass T N dsts m sent).
Proof.
  intros He Hp. revert sent. induction dsts as [|dst dsts IH]; intros sent; cbn [sendPass]; [apply keeps_ret|].
  apply keeps_if; [|apply IH]. apply keeps_bind; [by apply sendMessage_keeps|]. intros []; apply IH.
Qed.

Lemma sendToTwoThirds_keeps {X} (f : state -> X) m sent fuel :
  (forall s es, f (set_exits es s) = f s) -> (forall s x y, f (set_sent x y s) = f s) ->
  keeps f (sendToTwoThirds T N m sent fuel).
Proof.
  intros He Hp. revert sent. induction fuel as [|fuel IH]; intros sent; cbn [sendToTwoThirds]; frames.
  by apply sendPass_keeps.
Qed.

Lemma saveOutgoing_keeps {X} (f : state -> X) m :
  (forall s x, f (set_outgoing x s) = f s) -> keeps f (saveOutgoing T N m).
Proof. intros Hp s. unfold saveOutgoing. destruct (saveMsg _ _ _ _ _ _). apply Hp. Qed.

Lemma sendOracle_keeps {X} (f : state -> X) dsts m :
  (forall s es, f (set_exits es s) = f s) -> (forall s x y, f (set_sent x y s) = f s) ->
  (forall s x, f (set_oracle x s) = f s) -> keeps f (sendOracle T N now dsts m).
Proof.
  intros He Hp Ho. induction dsts as [|dst dsts IH]; cbn [sendOracle]; [apply keeps_ret|].
  apply keeps_bind; [|done]. apply keeps_if; [|by apply oracle_keeps].
  apply keeps_bind; [by apply sendMessage_keeps|intros; apply keeps_ret].
Qed.

(** ** The queues are bounded *)
Definition blockID_of (me : envelope) : Z := nm_blockID (wm_base (ne_message me)).

Record net_inv s : Prop := {
  ni_deferred : forall b l, nw_deferred s !! b = Some l ->
    zlen l <= MAX_DEFERRED_QUEUE_SIZE_FOR_BLOCK /\ Forall (fun me => blockID_of me = b) l;
  ni_nodes : length (nw_delayed s) = Z.to_nat (nt_nodeCount T);
  ni_delayed : forall i l, nw_delayed s !! i = Some l ->
    zlen l <= MAX_DELAYED_MESSAGE_SENDS /\ Forall (fun md => u64 (md.2 - 1) = Z.of_nat i) l;
  ni_known : lru_inv (nw_known s) /\ lru_max_size (nw_known s) = KNOWN_MSG_HASHES_SIZE
}.

(** A method keeps the invariant, however it ends. *)
Definition preserves {B} (c : M state B) : Prop := moves (fun s s' => net_inv s -> net_inv s') c.

#[local] Instance inv_preorder : PreOrder (fun s s' => net_inv s -> net_inv s').
Proof. split; [by intros ?|intros ???; tauto]. Qed.

Lemma net_inv_queues s s' : queues s' = queues s -> net_inv s -> net_inv s'.
Proof. unfold queues. intros [= H1 H2 H3] []. by split; rewrite ?H1, ?H2, ?H3. Qed.

Lemma preserves_keeps {B} (c : M state B) : keeps queues c -> preserves c.
Proof. apply moves_keeps, net_inv_queues. Qed.

Lemma push_limited_spec {B} limit (l : list B) x (P : B -> Prop) :
  0 <= limit -> zlen l <= limit -> Forall P l -> P x ->
  zlen (push_limited limit l x) <= limit /\ Forall P (push_limited limit l x).
Proof.
  intros Hl Hz HP Hx. unfold push_limited. rewrite zlen_app. change (zlen [x]) with 1.
  assert (Forall P (l ++ [x])) by (apply Forall_app; auto).
  destruct (Z.ltb_spec limit (zlen l + 1)); [|rewrite zlen_app; change (zlen [x]) with 1; split; [lia|done]].
  split; [|by apply Forall_drop]. unfold zlen. rewrite length_drop, length_app. cbn. unfold zlen in *. lia.
Qed.

Lemma addToDeferred_preserves me : preserves (addToDeferredMessageQueue me).
Proof.
  intros s []. split; cbn; [|done..]. intros b l. destruct (decide (blockID_of me = b)) as [<-|Hne].
  - unfold blockID_of. rewrite lookup_insert_eq. intros [= <-]. apply push_limited_spec; [done|..|done].
    + destruct (nw_deferred s !! _) eqn:Hd; [by eapply ni_deferred0|done].
    + destruct (nw_deferred s !! _) eqn:Hd; [by eapply ni_deferred0|constructor].
  - rewrite lookup_insert_ne by done. apply ni_deferred0.
Qed.

Lemma pull_preserves : preserves (pullMessagesForCurrentBlockID (sig := sig)).
Proof.
  intros s []. unfold pullMessagesForCurrentBlockID. run. split; cbn; [|done..].
  intros b l [Hl _]%map_lookup_filter_Some. by apply ni_deferred0.
Qed.

Ltac preserved_with tac :=
  repeat first
    [ tac
    | apply preserves_keeps; first
        [ apply keeps_ret | apply keeps_throw | apply keeps_lift | apply keeps_get | apply keeps_check
        | by apply exitCheck_keeps | by apply exit_keeps | by apply post_keeps | by apply oracle_keeps
        | by apply sendMessage_keeps | by apply sendOracle_keeps | by apply sendToTwoThirds_keeps
        | by apply saveOutgoing_keeps | by apply keeps_zoom ]
    | apply addToDeferred_preserves | apply pull_preserves
    | apply moves_if | apply moves_when; [typeclasses eauto|] | apply moves_nested_all
    | apply moves_bind; [typeclasses eauto| |intros] ].
Ltac preserved := preserved_with fail.

Lemma postDeferOrDrop_preserves me : preserves (postDeferOrDrop A me).
Proof. unfold postDeferOrDrop. preserved. Qed.

Lemma postAll_preserves l : preserves (postAll A l).
Proof.
  induction l as [|me l IH]; cbn [postAll]; preserved_with ltac:(apply postDeferOrDrop_preserves || apply IH).
Qed.

Lemma addToDelayedSends_preserves m dst : preserves (addToDelayedSends m dst).
Proof.
  intros s [] . unfold addToDelayedSends. run. destruct (nw_delayed s !! _) as [l|] eqn:Hl; [|done].
  assert (Z.of_nat (Z.to_nat (u64 (dst - 1))) = u64 (dst - 1)) as Hz by (pose proof (u64_range (dst - 1)); lia).
  split; cbn; [done|by rewrite length_insert| |done].
  intros i l'. destruct (decide (Z.to_nat (u64 (dst - 1)) = i)) as [<-|Hne].
  - rewrite list_lookup_insert_eq by by eapply lookup_lt_Some. intros [= <-].
    apply push_limited_spec; [done|by eapply ni_delayed0..|]. by rewrite Hz.
  - rewrite list_lookup_insert_ne by done. apply ni_delayed0.
Qed.

Lemma delayRest_preserves dsts m sent : preserves (delayRest T dsts m sent).
Proof.
  induction dsts as [|dst dsts IH]; cbn [delayRest];
    preserved_with ltac:(apply addToDelayedSends_preserves || apply IH).
Qed.

Lemma broadcast_preserves m first : preserves (broadcastMessageImpl T N m first).
Proof. unfold broadcastMessageImpl. destruct first; preserved_with ltac:(apply delayRest_preserves). Qed.

Lemma pop_delayed_preserves i :
  preserves (modify (fun s => set_delayed (alter (drop 1) (Z.to_nat i) (nw_delayed s)) s)).
Proof.
  intros s []. split; cbn; [done|by rewrite length_alter| |done].
  intros j l. rewrite list_lookup_alter. intros Hl.
  destruct (decide (Z.to_nat i = j)) as [<-|]; [|by apply ni_delayed0].
  destruct (nw_delayed s !! Z.to_nat i) as [k|] eqn:Hk; [|done]. injection Hl as <-.
  destruct (ni_delayed0 _ _ Hk) as [Hz Hf]. split; [|by apply Forall_drop].
  unfold zlen in *. rewrite length_drop. lia.
Qed.

Lemma trySending_preserves l : preserves (trySending T N l).
Proof.
  induction l as [|i l IH]; cbn [trySending]; [by preserved|].
  apply moves_bind; [typeclasses eauto| |intros; apply IH].
  apply moves_if; [|preserved]. apply moves_bind; [typeclasses eauto|preserved|]. intros s0.
  destruct (nw_delayed s0 !! Z.to_nat i) as [[|[m dst] k]|];
    preserved_with ltac:(apply pop_delayed_preserves).
Qed.

Lemma trySending_keeps {X} (f : state -> X) l :
  (forall s es, f (set_exits es s) = f s) -> (forall s x y, f (set_sent x y s) = f s) ->
  (forall s x, f (set_delayed x s) = f s) -> keeps f (trySending T N l).
Proof.
  intros He Hs Hd. induction l as [|i l IH]; cbn [trySending]; [apply keeps_ret|].
  apply keeps_bind; [|done]. apply keeps_if; [|apply keeps_ret]. apply keeps_bind; [apply keeps_get|]. intros s0.
  destruct (nw_delayed s0 !! Z.to_nat i) as [[|[m dst] k]|]; frames_with ltac:(by apply sendMessage_keeps).
Qed.

Lemma deferredTurn_state s : (deferredTurn T N A s).2 = (deferredWork T N A s).2.
Proof.
  unfold deferredTurn. destruct (deferredWork T N A s) as [[go|e] s']; [done|]. by destruct (bool_decide _), (is_std e).
Qed.

Lemma deferredTurn_preserves : preserves (deferredTurn T N A).
Proof.
  assert (preserves (deferredWork T N A)) as Hw; [|intros s; rewrite deferredTurn_state; apply Hw].
  unfold deferredWork. preserved_with ltac:(apply postAll_preserves || apply trySending_preserves).
Qed.

(** Receiving touches the streams, the session keys and the known messages. *)
Lemma recv_keeps {X} (f : state -> X) rs :
  (forall s es, f (set_exits es s) = f s) -> (forall s x, f (set_recvs x s) = f s) -> keeps f (recv rs).
Proof.
  intros He Hr. induction rs as [|[] rs IH]; cbn [recv]; frames_with ltac:(exact IH).
Qed.

Lemma waitForExit_keeps {X} (f : state -> X) es :
  (forall s es, f (set_exits es s) = f s) -> keeps f (waitForExit es).
Proof. intros He. induction es as [|e es IH]; cbn [waitForExit]; frames_with ltac:(exact IH). Qed.

Lemma readMessage_keeps {X} (f : state -> X) :
  (forall s es, f (set_exits es s) = f s) -> (forall s x, f (set_recvs x s) = f s) ->
  keeps f (readMessageFromNetwork T).
Proof.
  intros He Hr. unfold readMessageFromNetwork, interruptableRecv.
  frames_with ltac:(by apply waitForExit_keeps || by apply recv_keeps). destruct a1. frames.
Qed.

Lemma receiveMessage_keeps {X} (f : state -> X) :
  (forall s es, f (set_exits es s) = f s) -> (forall s x, f (set_recvs x s) = f s) ->
  (forall s x, f (set_keys x s) = f s) -> keeps f (receiveMessage T N now).
Proof.
  intros He Hr Hk. unfold receiveMessage. frames_with ltac:(by apply readMessage_keeps).
  destruct (nt_nodes T !! _); frames.
Qed.

Lemma known_preserves key :
  preserves (zoom nw_known set_known (lru_putIfDoesNotExist key true)).
Proof.
  intros s []. unfold zoom. destruct ni_known0 as [Hi Hm].
  assert (lru_inv (lru_putIfDoesNotExist key true (nw_known s)).2 /\
    lru_max_size (lru_putIfDoesNotExist key true (nw_known s)).2 = KNOWN_MSG_HASHES_SIZE) as Hl.
  { unfold lru_putIfDoesNotExist. run. destruct (existsUnsafe key (nw_known s)); cbn; [done|].
    split; [by apply lru_putUnsafe_inv|by rewrite lru_put_max]. }
  destruct (lru_putIfDoesNotExist key true (nw_known s)) as [r c]. by split.
Qed.

Lemma networkReadTurn_state s : (networkReadTurn T N A now s).2 = (readWork T N A now s).2.
Proof. unfold networkReadTurn. destruct (readWork T N A now s) as [[u|e] s']; [done|]. by destruct e. Qed.

Lemma networkReadTurn_preserves : preserves (networkReadTurn T N A now).
Proof.
  assert (preserves (readWork T N A now)) as Hw; [|intros s; rewrite networkReadTurn_state; apply Hw].
  unfold readWork. apply moves_bind; [typeclasses eauto|apply preserves_keeps; by apply receiveMessage_keeps|].
  intros me. unfold processReceived.
  preserved_with ltac:(apply known_preserves || apply postDeferOrDrop_preserves).
Qed.

Lemma oracle_preserves m dst :
  preserves (broadcastOracleRequestMessage T N now m) /\ preserves (sendOracleResponseMessage T N now m dst).
Proof. unfold broadcastOracleRequestMessage, sendOracleResponseMessage. split; preserved. Qed.
(** ** Deferred messages are not lost *)

(** The entries of a map of lists. *)
Definition entries {B} (m : gmap Z (list B)) : list B := concat (map_to_list m).*2.

Lemma concat_perm {B} (ls ls' : list (list B)) : ls ≡ₚ ls' -> concat ls ≡ₚ concat ls'.
Proof.
  induction 1 as [|x ls ls' _ IH|x y ls|ls1 ls2 ls3 _ IH1 _ IH2]; cbn; [done|by rewrite IH| |by rewrite IH1].
  rewrite !app_assoc. by rewrite (Permutation_app_comm y x).
Qed.

Lemma entries_insert {B} (m : gmap Z (list B)) k l x :
  default [] (m !! k) = l -> entries (<[k := l ++ [x]]> m) ≡ₚ x :: entries m.
Proof.
  intros Hl. unfold entries. rewrite <- insert_delete_eq.
  rewrite (concat_perm _ (((k, l ++ [x]) :: map_to_list (delete k m)).*2));
    [|by rewrite map_to_list_insert by apply lookup_delete_eq].
  cbn. rewrite <- app_assoc. cbn. rewrite <- Permutation_middle. constructor.
  destruct (m !! k) as [l'|] eqn:Hk; cbn in Hl; subst l.
  - by rewrite <- (concat_perm _ _ (fmap_Permutation snd _ _ (map_to_list_delete m k l' Hk))).
  - by rewrite delete_id.
Qed.

Lemma map_to_list_filtered {B} (P : Z * B -> Prop) `{!forall x, Decision (P x)} (m : gmap Z B) :
  map_to_list (filter P m) ≡ₚ filter P (map_to_list m).
Proof.
  apply NoDup_Permutation; [apply NoDup_map_to_list|apply NoDup_filter, NoDup_map_to_list|].
  intros [k v]. rewrite elem_of_map_to_list, list_elem_of_filter, elem_of_map_to_list, map_lookup_filter_Some. tauto.
Qed.

(** What the loop of deferred messages takes out, and what stays. *)
Definition pulled s : list envelope :=
  concat (map snd (filter (fun kv => kv.1 <= u64 (nw_last s + 1)) (map_items (nw_deferred s)))).

Definition kept s : gmap Z (list envelope) := filter (fun kv => u64 (nw_last s + 1) < kv.1) (nw_deferred s).

Lemma pull_run s : pullMessagesForCurrentBlockID s = (Ok (pulled s), set_deferred (kept s) s).
Proof. done. Qed.

Lemma pulled_kept s : pulled s ++ entries (kept s) ≡ₚ entries (nw_deferred s).
Proof.
  unfold pulled, entries, kept.
  rewrite (concat_perm _ _ (fmap_Permutation snd _ _ (map_to_list_filtered _ (nw_deferred s)))).
  change (map snd ?l) with (l.*2). rewrite <- concat_app, <- fmap_app. apply concat_perm, fmap_Permutation.
  rewrite (map_items_perm (nw_deferred s)).
  etrans; [|apply (filter_app_complement (fun kv : Z * list envelope => kv.1 <= u64 (nw_last s + 1)))].
  apply Permutation_app_head. apply reflexive_eq, list_filter_iff. intros [k l]; cbn. lia.
Qed.

(** The messages of one block among those that are taken out. *)
Definition of_block (b : Z) (l : list envelope) : list envelope := filter (fun me => blockID_of me = b) l.

Lemma of_block_items b (items : list (Z * list envelope)) :
  NoDup items.*1 -> (forall k l, (k, l) ∈ items -> Forall (fun me => blockID_of me = k) l) ->
  (forall l, (b, l) ∈ items -> of_block b (concat items.*2) = l) /\
  ((forall l, (b, l) ∉ items) -> of_block b (concat items.*2) = []).
Proof.
  induction items as [|[k l] items IH]; intros Hnd Hf; cbn in *.
  { split; [intros l Hl; by apply elem_of_nil in Hl|done]. }
  apply NoDup_cons in Hnd as [Hk Hnd].
  destruct IH as [IH1 IH2]; [done|intros; apply Hf; by right|].
  pose proof (Hf k l ltac:(left)) as Hl. unfold of_block in *. rewrite filter_app.
  destruct (decide (k = b)) as [->|Hne].
  - rewrite (filter_all _ l) by (intros x Hx; by eapply Forall_forall in Hl).
    assert (forall l, (b, l) ∉ items) as Hno
      by (intros l' Hl'; apply Hk, list_elem_of_fmap; by exists (b, l')).
    rewrite IH2, app_nil_r by done. split; [|intros Hl'; by destruct (Hl' l); left].
    intros l' [[= ->]|Hl']%elem_of_cons; [done|by apply Hno in Hl'].
  - rewrite (filter_none _ l) by (intros x Hx; eapply Forall_forall in Hl; [|done]; congruence).
    cbn. split; [intros l' [[= -> ->]|Hl']%elem_of_cons; [done|by apply IH1]|].
    intros Hl'. apply IH2. intros l'' Hin. by eapply Hl'; right.
Qed.

Lemma pulled_of_block s b :
  net_inv s ->
  zlen (default [] (kept s !! b)) + zlen (of_block b (pulled s)) <= MAX_DEFERRED_QUEUE_SIZE_FOR_BLOCK.
Proof.
  intros Hi. unfold pulled. change (map snd ?l) with (l.*2).
  destruct (of_block_items b (filter (fun kv => kv.1 <= u64 (nw_last s + 1)) (map_items (nw_deferred s)))) as [H1 H2].
  { apply NoDup_fmap_filter, NoDup_map_items_keys. }
  { intros k l [_ Hl%elem_of_map_items]%list_elem_of_filter. by eapply ni_deferred. }
  unfold kept. destruct (decide (u64 (nw_last s + 1) < b)) as [Hb|Hb].
  - rewrite H2; [|intros l [Hl _]%list_elem_of_filter; cbn in Hl; lia]. change (zlen []) with 0.
    destruct (filter _ (nw_deferred s) !! b) as [l|] eqn:Hl; cbn; [|done].
    apply map_lookup_filter_Some in Hl as [Hl _]. pose proof (proj1 (ni_deferred s Hi b l Hl)). lia.
  - rewrite map_lookup_filter_None_2 by (right; intros l _; cbn; lia). cbn. change (zlen []) with 0.
    destruct (nw_deferred s !! b) as [l|] eqn:Hl.
    + rewrite (H1 l); [rewrite Z.add_0_l; by eapply (ni_deferred s Hi)|]. apply list_elem_of_filter. cbn.
      split; [lia|by apply elem_of_map_items].
    + rewrite H2; [done|]. intros l [_ Hin%elem_of_map_items]%list_elem_of_filter. congruence.
Qed.

(** All messages that the agent holds for the node. *)
Definition held s : list envelope := nw_posted s ++ nw_oracle s ++ entries (nw_deferred s).

(** A message for a block that is decided: the consensus has no use for it. *)
Definition too_old (last : Z) (me : envelope) : Prop := u64 (blockID_of me + MAX_ACTIVE_CONSENSUSES) <= u64 (last + 1).

Definition room s (l : list envelope) : Prop :=
  forall b, zlen (default [] (nw_deferred s !! b)) + zlen (of_block b l) <= MAX_DEFERRED_QUEUE_SIZE_FOR_BLOCK.

(** One message is handed on, kept or too old; nothing else moves. *)
Definition handled (me : envelope) s s' : Prop :=
  nw_last s' = nw_last s /\ (forall l, room s (me :: l) -> room s' l) /\
  exists dropped, held s' ++ dropped ≡ₚ me :: held s /\ Forall (too_old (nw_last s)) dropped.

Lemma of_block_cons b me l :
  of_block b (me :: l) = (if decide (blockID_of me = b) then [me] else []) ++ of_block b l.
Proof. unfold of_block. rewrite filter_cons. by case_decide. Qed.

Lemma room_cons s me l : room s (me :: l) -> room s l.
Proof.
  intros Hr b. specialize (Hr b). rewrite of_block_cons, zlen_app in Hr.
  pose proof (zlen_nonneg (if decide (blockID_of me = b) then [me] else [])). lia.
Qed.

Lemma defer_handled me s :
  room s [me] -> handled me s (addToDeferredMessageQueue me s).2.
Proof.
  intros Hr. assert (push_limited MAX_DEFERRED_QUEUE_SIZE_FOR_BLOCK (default [] (nw_deferred s !! blockID_of me)) me
    = default [] (nw_deferred s !! blockID_of me) ++ [me]) as Hp.
  { unfold push_limited. specialize (Hr (blockID_of me)). rewrite of_block_cons, decide_True in Hr by done.
    rewrite zlen_app in Hr |- *. change (zlen [me]) with 1 in *. change (zlen (of_block (blockID_of me) [])) with 0 in Hr.
    destruct (Z.ltb_spec MAX_DEFERRED_QUEUE_SIZE_FOR_BLOCK (zlen (default [] (nw_deferred s !! blockID_of me)) + 1)); [lia|done]. }
  unfold addToDeferredMessageQueue. fold (blockID_of me). split_and!; [done| |].
  - intros l Hl b. specialize (Hl b). rewrite of_block_cons, zlen_app in Hl. cbn. rewrite Hp.
    destruct (decide (blockID_of me = b)) as [<-|Hne].
    + rewrite lookup_insert_eq. cbn [default from_option id]. rewrite zlen_app. lia.
    + rewrite lookup_insert_ne by done. change (zlen []) with 0 in Hl. lia.
  - exists []. split; [|constructor]. unfold held. cbn. rewrite app_nil_r, Hp, entries_insert by done.
    by rewrite <- !Permutation_middle.
Qed.

(** Frame of the messages that are held. *)
Lemma handled_frame me s s1 s' :
  nw_last s1 = nw_last s -> nw_deferred s1 = nw_deferred s -> nw_posted s1 = nw_posted s -> nw_oracle s1 = nw_oracle s ->
  handled me s1 s' -> handled me s s'.
Proof. unfold handled, room, held. by intros -> -> -> ->. Qed.

Lemma room_deferred s s' l : nw_deferred s' = nw_deferred s -> room s l -> room s' l.
Proof. unfold room. by intros ->. Qed.

Definition holdings s := (nw_last s, nw_deferred s, nw_posted s, nw_oracle s).

Lemma post_handled me s s' : net_postMessage me s = (Ok tt, s') -> handled me s s'.
Proof.
  unfold net_postMessage, exitCheck. cbn. 
  pose proof (exit_keeps holdings ltac:(done) s) as He. revert He. run.
  destruct (net_isExitRequested s) as [[e|] s1]; [|done]. destruct e; [done|]. cbn [negb]. intros [= H1 H2 H3 H4].
  destruct (nm_blockID _ =? 0); [done|]. cbn [negb]. intros [= <-].
  apply (handled_frame _ s s1); try done. split_and!; [done|intros l Hl%room_cons; by apply (room_deferred s1)|].
  exists []. split; [|constructor]. unfold held. cbn. rewrite app_nil_r, <- !app_assoc. cbn [app]. by rewrite <- Permutation_middle.
Qed.

Lemma oracle_handled me s s' : oracle_postMessage me s = (Ok tt, s') -> handled me s s'.
Proof.
  unfold oracle_postMessage, exitCheck.
  pose proof (exit_keeps holdings ltac:(done) s) as He. revert He. run.
  destruct (net_isExitRequested s) as [[e|] s1]; [|done]. destruct e; [done|]. cbn [negb]. intros [= H1 H2 H3 H4].
  destruct (nm_blockID _ =? 0); [done|]. cbn [negb]. intros [= <-].
  apply (handled_frame _ s s1); try done. split_and!; [done|intros l Hl%room_cons; by apply (room_deferred s1)|].
  exists []. split; [|constructor]. unfold held. cbn. rewrite app_nil_r, <- !app_assoc. cbn [app].
  by rewrite <- !Permutation_middle.
Qed.

Lemma postDeferOrDrop_handled me s s' :
  postDeferOrDrop A me s = (Ok tt, s') -> room s [me] -> handled me s s'.
Proof.
  intros Hp Hr. unfold postDeferOrDrop in Hp. fold (blockID_of me) in Hp. revert Hp.
  cbv beta iota delta [mbind M_bind get].
  destruct (u64 (nw_last s + 1) <? blockID_of me). { intros Hd. pose proof (defer_handled me s Hr). by rewrite Hd in *. }
  destruct (Z.leb_spec (u64 (blockID_of me + MAX_ACTIVE_CONSENSUSES)) (u64 (nw_last s + 1))).
  { intros [= <-]. split_and!; [done|by apply room_cons|]. exists [me]. split; [by rewrite Permutation_app_comm|].
    by apply Forall_singleton. }
  destruct (is_oracle (ne_message me)); [apply oracle_handled|].
  unfold zoom. destruct (shouldPost A _ (nw_agent s)) as [[post|e] ag]; [|done].
  set (s1 := set_agent ag s). destruct post.
  - intros Hp. by apply (handled_frame _ s s1), post_handled.
  - intros Hp. apply (handled_frame _ s s1); try done. pose proof (defer_handled me s1 Hr) as Hd. by rewrite Hp in Hd.
Qed.

Lemma postAll_handled l s s' :
  postAll A l s = (Ok true, s') -> room s l ->
  exists dropped, held s' ++ dropped ≡ₚ l ++ held s /\ Forall (too_old (nw_last s)) dropped.
Proof.
  revert s. induction l as [|me l IH]; intros s; cbn [postAll]; [intros [= <-] _; exists []; by rewrite app_nil_r|].
  intros Hp Hr. revert Hp. pose proof (exit_keeps holdings ltac:(done) s) as He. revert He.
  cbv beta iota delta [mbind M_bind]. destruct (net_isExitRequested s) as [[[]|] s1]; [done| |done].
  cbn [fst snd]. intros [= H1 H2 H3 H4]. destruct (postDeferOrDrop A me s1) as [[[]|] s2] eqn:Hd; [|done]. intros Hp.
  assert (room s1 (me :: l)) as Hr1 by by eapply room_deferred.
  destruct (postDeferOrDrop_handled me s1 s2) as (Hl & Hr2 & dropped & Hh & Ho); [done| |].
  { intros b. specialize (Hr1 b). rewrite of_block_cons, zlen_app in Hr1 |- *. pose proof (zlen_nonneg (of_block b l)).
    change (of_block b []) with (@nil envelope). change (zlen (@nil envelope)) with 0. lia. }
  destruct (IH s2 Hp (Hr2 l Hr1)) as (dropped' & Hh' & Ho'). exists (dropped' ++ dropped).
  rewrite H1 in Ho. rewrite Hl, H1 in Ho'. split; [|by apply Forall_app].
  assert (held s1 = held s) as <- by (unfold held; by rewrite H2, H3, H4).
  by rewrite app_assoc, Hh', <- app_assoc, Hh, <- Permutation_middle.
Qed.

(** C30: A turn of the loop of deferred messages that does not throw loses nothing:
    every message that was deferred for the current block or an earlier one is
    posted to the chain or to the oracle or deferred again, or its block is too
    old for the consensus. *)
Theorem deferred_messages_conserved s s' :
  net_inv s -> deferredWork T N A s = (Ok true, s') ->
  exists dropped, held s' ++ dropped ≡ₚ held s /\ Forall (too_old (nw_last s)) dropped.
Proof.
  intros Hi. unfold deferredWork. cbv beta iota delta [mbind M_bind]. rewrite pull_run.
  destruct (postAll A (pulled s) (set_deferred (kept s) s)) as [[[]|] s1] eqn:Hp; [|done..].
  destruct (postAll_handled _ _ _ Hp) as (dropped & Hh & Ho); [intros b; by apply pulled_of_block|].
  intros Hs. exists dropped. split; [|done].
  assert (keeps holdings (trySendingDelayedSends T N)) as Hk by (by apply trySending_keeps).
  specialize (Hk s1). destruct (trySendingDelayedSends T N s1) as [[[]|] s2]; [|done]. injection Hs as <-.
  injection Hk as H1 H2 H3 H4. assert (held s2 = held s1) as -> by (unfold held; by rewrite H2, H3, H4).
  rewrite Hh. unfold held. cbn. rewrite <- (pulled_kept s), !(app_assoc (nw_posted s)).
  apply Permutation_app_swap_app.
Qed.

(** ** A message that throws *)

(** A vote for the current block that names a proposer who does not exist; while
    its block is in the future such a message is deferred without a check. *)
Definition poisoned (last : Z) (me : envelope) : Prop :=
  let b := wm_base (ne_message me) in
  (nm_type b = MSG_BVB_BROADCAST \/ nm_type b = MSG_AUX_BROADCAST) /\
  0 < nm_blockID b <= u64 (last + 1) /\ ~ too_old last me /\
  (nm_blockProposerIndex b <= 0 \/ be_nodeCount (sg_bin (ae_sig A)) < nm_blockProposerIndex b).

Lemma getRound_throws (key : ProtocolKey) ag :
  pk_blockProposerIndex key <= 0 \/ be_nodeCount (sg_bin (ae_sig A)) < pk_blockProposerIndex key ->
  getRound A key ag = (Err InvalidArgumentException, ag).
Proof.
  intros Hp. unfold getRound, getChild. run. destruct (Z.ltb_spec 0 (pk_blockProposerIndex key)); [|done].
  by destruct (Z.leb_spec (pk_blockProposerIndex key) (be_nodeCount (sg_bin (ae_sig A)))); [lia|].
Qed.

Lemma shouldPost_throws (m : NetworkMessage share) ag :
  nm_type m = MSG_BVB_BROADCAST \/ nm_type m = MSG_AUX_BROADCAST -> 0 < nm_blockID m ->
  nm_blockProposerIndex m <= 0 \/ be_nodeCount (sg_bin (ae_sig A)) < nm_blockProposerIndex m ->
  shouldPost A m ag = (Err InvalidArgumentException, ag).
Proof.
  intros Ht Hb Hp. unfold shouldPost.
  assert (createProtocolKey m = Ok {| pk_blockID := nm_blockID m; pk_blockProposerIndex := nm_blockProposerIndex m |}) as ->.
  { unfold createProtocolKey. rewrite (proj2 (Z.ltb_lt 0 _) Hb). by destruct Ht as [-> | ->]. }
  rewrite bool_decide_eq_false_2 by (by destruct Ht as [-> | ->]).
  cbv beta iota delta [mbind M_bind lift_res]. by rewrite getRound_throws.
Qed.

Lemma poisoned_throws me s :
  poisoned (nw_last s) me -> postDeferOrDrop A me s = (Err InvalidArgumentException, set_agent (nw_agent s) s).
Proof.
  intros (Ht & Hb & Ho & Hp). unfold too_old, blockID_of in Ho. unfold postDeferOrDrop.
  cbv beta iota delta [mbind M_bind get].
  destruct (Z.ltb_spec (u64 (nw_last s + 1)) (nm_blockID (wm_base (ne_message me)))); [lia|].
  rewrite (proj2 (Z.leb_gt _ _)) by lia.
  assert (is_oracle (ne_message me) = false) as ->.
  { unfold is_oracle. destruct Ht as [Ht|Ht]; rewrite Ht; reflexivity. }
  unfold zoom. by rewrite shouldPost_throws by (done || lia).
Qed.

(** One vote with an impossible proposer makes the loop of deferred messages
    lose all that it has taken out behind it: the exception is logged and the loop
    goes on, nothing of the batch is posted, and nothing is left of it in the
    queue. *)
Theorem poisoned_batch_lost s bad rest :
  nw_exits s = [] -> pulled s = bad :: rest -> poisoned (nw_last s) bad ->
  exists s', deferredTurn T N A s = (Ok true, s') /\ nw_posted s' = nw_posted s /\ nw_oracle s' = nw_oracle s /\
    forall b, nw_deferred s' !! b = if decide (b <= u64 (nw_last s + 1)) then None else nw_deferred s !! b.
Proof.
  intros He Hp Hb. unfold deferredTurn, deferredWork. cbv beta iota delta [mbind M_bind]. rewrite pull_run, Hp.
  cbn [postAll]. cbv beta iota delta [mbind M_bind].
  assert (net_isExitRequested (set_deferred (kept s) s) = (Ok false, set_deferred (kept s) s)) as ->.
  { unfold net_isExitRequested. run. cbn. by rewrite He. }
  rewrite poisoned_throws by done. cbn. eexists. split_and!; [done..|]. cbn. intros b. unfold kept. case_decide.
  - apply map_lookup_filter_None_2. right. cbn. lia.
  - destruct (nw_deferred s !! b) as [l|] eqn:Hl; [|by apply map_lookup_filter_None_2; left].
    apply map_lookup_filter_Some. cbn. split; [done|lia].
Qed.
End Queues.

(** ** Broadcasts *)
Section Broadcast.
Context {D : Type} `{HealthyStore D}.
Context {share sig : Type}.
Context (T : net_config) (N : net_crypto share).
Local Abbreviation state := (network D share sig).
Local Abbreviation message := (WireMessage share).
Implicit Types s : state.
Implicit Types m : message.

(** The nodes are numbered from one, and this node is one of them. *)
Record config_wf : Prop := {
  cw_nodes : forall i, is_Some (nt_nodes T !! i) <-> 1 <= i <= nt_nodeCount T;
  cw_self : 1 <= nt_schainIndex T <= nt_nodeCount T;
  cw_count : nt_nodeCount T < 2 ^ 32
}.

(** The node is not asked to exit and no send fails for good. *)
Definition quiet s : Prop := nw_exits s = [] /\ SendFails ∉ nw_sends s.

Definition peer (dst : Z) : Prop := dst ∈ destinations T /\ dst <> nt_schainIndex T.

#[local] Instance send_outcome_eq_dec : EqDecision send_outcome.
Proof. solve_decision. Defined.

(** The sends that the sockets are going to accept. *)
Definition acceptances s : Z := zlen (filter (.= SendAccepted) (nw_sends s)).

(** With the sender, the nodes that are going to accept are two thirds. *)
Definition peers_accept s : Prop := nt_nodeCount T * 2 <= 3 * (acceptances s + 1).

Definition z_of (b : bool) : Z := if b then 1 else 0.

Lemma acceptances_cons s s1 o :
  nw_sends s = o :: nw_sends s1 -> acceptances s = acceptances s1 + z_of (bool_decide (o = SendAccepted)).
Proof.
  intros Ho. unfold acceptances, zlen. rewrite Ho, filter_cons.
  destruct (decide (o = SendAccepted)); [rewrite bool_decide_eq_true_2 by done|rewrite bool_decide_eq_false_2 by done];
    cbn [length z_of]; lia.
Qed.

Lemma exitCheck_quiet s : nw_exits s = [] -> exitCheck s = (Ok tt, s).
Proof. intros He. unfold exitCheck, net_isExitRequested. run. by rewrite He. Qed.

Lemma sendMessage_quiet dst m s text :
  serializeMessage N m = Ok text -> quiet s ->
  exists ok s1, sendMessage N dst m s = (Ok ok, s1) /\ quiet s1 /\
    nw_sends s1 = drop 1 (nw_sends s) /\ acceptances s = acceptances s1 + z_of ok /\
    nw_sent s1 = nw_sent s ++ (if ok then [(dst, m)] else []).
Proof.
  intros Hm [He Hs]. unfold sendMessage, interruptableSend. cbv beta iota delta [mbind M_bind lift_res].
  rewrite Hm, !exitCheck_quiet by done. unfold zmq_send. cbv beta iota delta [mbind M_bind get put mret M_ret].
  destruct (nw_sends s) as [|o os] eqn:Ho.
  - rewrite exitCheck_quiet by done. exists false, s. split; [done|]. split; [split; [done|]; rewrite Ho; apply not_elem_of_nil|].
    split; [done|]. split; [cbn; lia|]. by rewrite app_nil_r.
  - apply not_elem_of_cons in Hs as [Hf Hs].
    destruct o; [| |done]; rewrite exitCheck_quiet by done; eexists _, _; (split; [reflexivity|]);
      (split; [done|]); (split; [done|]); (split; [by rewrite (acceptances_cons s (set_sent (nw_sent s) os s) _ Ho)|]);
      cbn; by rewrite ?app_nil_r.
Qed.

(** One pass over the nodes. *)
Lemma sendPass_quiet dsts m sent s text :
  serializeMessage N m = Ok text -> quiet s ->
  exists l s1, sendPass T N dsts m sent s = (Ok (sent ∪ list_to_set l), s1) /\ quiet s1 /\
    nw_sent s1 = nw_sent s ++ ((., m) <$> l) /\
    Forall (fun dst => dst ∈ dsts /\ dst <> nt_schainIndex T) l /\
    (length (nw_sends s1) <= length (nw_sends s))%nat /\
    (nw_sends s <> [] -> forall dst, dst ∈ dsts -> dst <> nt_schainIndex T -> dst ∉ sent ->
       (length (nw_sends s1) < length (nw_sends s))%nat) /\
    acceptances s = acceptances s1 + zlen l /\ NoDup l /\ (list_to_set l : gset Z) ## sent.
Proof.
  intros Hm. revert sent s. induction dsts as [|dst dsts IH]; intros sent s Hq; cbn [sendPass].
  { exists [], s. replace (sent ∪ list_to_set []) with sent by set_solver.
    split; [done|]. split; [done|]. split; [by rewrite app_nil_r|]. split; [done|]. split; [done|].
    split; [by intros _ ? ?%elem_of_nil|]. split; [unfold zlen; cbn; lia|]. split; [by apply NoDup_nil|set_solver]. }
  destruct (negb (dst =? nt_schainIndex T) && bool_decide (dst ∉ sent)) eqn:Hd.
  - apply andb_true_iff in Hd as [Hself%negb_true_iff%Z.eqb_neq Hsent%bool_decide_eq_true_1].
    destruct (sendMessage_quiet dst m s text Hm Hq) as (ok & s1 & Hr & Hq1 & Hs1 & Hok & Hsent1).
    destruct (IH (if ok then {[dst]} ∪ sent else sent) s1 Hq1) as (l & s2 & Hr2 & Hq2 & Hsent2 & Hl & Hlen & Hp & He & Hnd & Hdj).
    exists ((if ok then [dst] else []) ++ l), s2.
    assert (length (nw_sends s1) = pred (length (nw_sends s))) as Hlen1
      by (rewrite Hs1, length_drop; lia).
    split_and!.
    + cbv beta iota delta [mbind M_bind]. rewrite Hr, Hr2. do 2 f_equal. destruct ok; set_solver.
    + done.
    + rewrite Hsent2, Hsent1, <- app_assoc. by destruct ok.
    + apply Forall_app. split; [destruct ok; [apply Forall_singleton; split; [left|done]|done]|].
      eapply Forall_impl; [exact Hl|]. intros x [??]. split; [by right|done].
    + lia.
    + intros Hn _ _ _ _. destruct (nw_sends s); [done|]. cbn in *. lia.
    + rewrite Hok, He, zlen_app. destruct ok; unfold zlen; cbn; lia.
    + destruct ok; [|done]. apply NoDup_cons. split; [|done]. intros Hin. apply (Hdj dst); [by apply elem_of_list_to_set|set_solver].
    + destruct ok; set_solver.
  - destruct (IH sent s Hq) as (l & s2 & Hr2 & Hq2 & Hsent2 & Hl & Hlen & Hp & He & Hnd & Hdj).
    assert (dst = nt_schainIndex T \/ dst ∈ sent) as Hno.
    { apply andb_false_iff in Hd as [Hd|Hd]; [left; by apply negb_false_iff, Z.eqb_eq in Hd|right].
      apply bool_decide_eq_false_1 in Hd. by destruct (decide (dst ∈ sent)). }
    exists l, s2. split_and!; try done.
    + eapply Forall_impl; [exact Hl|]. intros x [??]. split; [by right|done].
    + intros Hn x [->|Hx]%elem_of_cons ??; [naive_solver|]. by eapply Hp.
Qed.

Context (W : config_wf).

Lemma elem_of_destinations i : i ∈ destinations T <-> 1 <= i <= nt_nodeCount T.
Proof.
  rewrite <- (cw_nodes W). unfold destinations. rewrite list_elem_of_fmap. split.
  - intros ([k v] & -> & Hin%elem_of_map_items). by exists v.
  - intros [v Hv]. exists (i, v). split; [done|by apply elem_of_map_items].
Qed.

Lemma destinations_nodup : NoDup (destinations T).
Proof. apply NoDup_map_items_keys. Qed.

Definition peers : gset Z := members (nt_nodeCount T) ∖ {[nt_schainIndex T]}.

Lemma size_peers : zsize peers = nt_nodeCount T - 1.
Proof.
  pose proof (cw_self W). unfold peers, zsize. rewrite size_difference, size_singleton.
  - pose proof (size_members (nt_nodeCount T)). lia.
  - intros i ->%elem_of_singleton. by apply elem_of_members.
Qed.

Lemma elem_of_peers i : i ∈ peers <-> i ∈ destinations T /\ i <> nt_schainIndex T.
Proof. unfold peers. rewrite elem_of_destinations. rewrite elem_of_difference, elem_of_members. set_solver. Qed.

(** The loop goes on exactly while two thirds are not reached. *)
Lemma two_thirds_test (sent : gset Z) :
  sent ⊆ peers ->
  (u64 (3 * (zsize sent + 1)) <? u64 (nt_nodeCount T * 2)) = (3 * (zsize sent + 1) <? nt_nodeCount T * 2).
Proof.
  intros Hs%zsize_subseteq. rewrite size_peers in Hs. pose proof (cw_count W). pose proof (cw_self W).
  assert (0 <= zsize sent) by (unfold zsize; lia). by rewrite !u64_small by lia.
Qed.

Lemma not_all_sent (sent : gset Z) :
  sent ⊆ peers -> 3 * (zsize sent + 1) < nt_nodeCount T * 2 -> exists dst, dst ∈ peers /\ dst ∉ sent.
Proof.
  intros Hs Hlt. destruct (decide (peers ⊆ sent)) as [Hsub|Hsub].
  - apply zsize_subseteq in Hsub. rewrite size_peers in Hsub. pose proof (cw_self W). lia.
  - destruct (set_choose_or_empty (peers ∖ sent)) as [[x Hx]|He]; [exists x; set_solver|].
    exfalso. apply Hsub. intros x Hx. destruct (decide (x ∈ sent)); [done|set_solver].
Qed.

Lemma sendToTwoThirds_quiet m sent s text fuel :
  serializeMessage N m = Ok text -> quiet s -> sent ⊆ peers -> (length (nw_sends s) < fuel)%nat ->
  nt_nodeCount T * 2 <= 3 * (zsize sent + acceptances s + 1) ->
  exists l s1, sendToTwoThirds T N m sent fuel s = (Ok (sent ∪ list_to_set l), s1) /\ quiet s1 /\
    nw_sent s1 = nw_sent s ++ ((., m) <$> l) /\ sent ∪ list_to_set l ⊆ peers /\
    nt_nodeCount T * 2 <= 3 * (zsize (sent ∪ list_to_set l : gset Z) + 1) /\
    NoDup l /\ (list_to_set l : gset Z) ## sent.
Proof.
  intros Hm. revert sent s. induction fuel as [|fuel IH]; intros sent s Hq Hs Hf Hacc; [lia|]; cbn [sendToTwoThirds];
    rewrite (two_thirds_test sent Hs); destruct (Z.ltb_spec (3 * (zsize sent + 1)) (nt_nodeCount T * 2)) as [Hlt|Hge].
  - destruct (sendPass_quiet (destinations T) m sent s text Hm Hq) as (l & s1 & Hr & Hq1 & Hsent & Hl & Hlen & Hp & He & Hnd & Hdj).
    assert (sent ∪ list_to_set l ⊆ peers) as Hs1.
    { intros x [?|Hx%elem_of_list_to_set]%elem_of_union; [by apply Hs|].
      apply elem_of_peers. by eapply Forall_forall in Hl. }
    destruct (not_all_sent sent Hs Hlt) as (x & [Hx Hxs]%elem_of_peers & Hxn).
    assert (nw_sends s <> []) as Hne.
    { intros Hn. unfold acceptances in Hacc. rewrite Hn in Hacc. change (zlen (filter _ [])) with 0 in Hacc. lia. }
    destruct (IH (sent ∪ list_to_set l) s1 Hq1 Hs1) as (l' & s2 & Hr2 & Hq2 & Hsent2 & Hs2 & Hge & Hnd' & Hdj');
      [specialize (Hp Hne x Hx Hxs Hxn); lia| |].
    { unfold zsize in *. rewrite size_union, size_list_to_set by done. unfold zlen in He. lia. }
    exists (l ++ l'), s2. cbv beta iota delta [mbind M_bind]. rewrite Hr, Hr2. cbn [fst snd].
    assert (sent ∪ list_to_set l ∪ list_to_set l' = (sent ∪ list_to_set (l ++ l') : gset Z)) as Hu by set_solver.
    rewrite Hu in *. split_and!; try done; [by rewrite Hsent2, Hsent, fmap_app, app_assoc| |].
    + apply NoDup_app. split_and!; [done| |done]. intros y Hy Hy'. apply (Hdj' y); [by apply elem_of_list_to_set|].
      apply elem_of_union. right. by apply elem_of_list_to_set.
    + set_solver.
  - exists [], s. replace (sent ∪ list_to_set []) with sent by set_solver. rewrite app_nil_r.
    do 5 (split; [done|]). split; [by apply NoDup_nil|set_solver].
Qed.

Lemma last_push_limited {B} limit (l : list B) x : 1 <= limit -> last (push_limited limit l x) = Some x.
Proof.
  intros Hl. unfold push_limited. rewrite zlen_app. change (zlen [x]) with 1.
  destruct (Z.ltb_spec limit (zlen l + 1)); [|by rewrite last_snoc].
  destruct l as [|y l]; [change (zlen []) with 0 in *; lia|]. change (drop 1 ((y :: l) ++ [x])) with (l ++ [x]). by rewrite last_snoc.
Qed.

Definition waits dst m s : Prop :=
  exists l, nw_delayed s !! Z.to_nat (dst - 1) = Some l /\ last l = Some (m, dst).

Lemma addToDelayedSends_run m dst s :
  1 <= dst <= nt_nodeCount T -> length (nw_delayed s) = Z.to_nat (nt_nodeCount T) ->
  exists s1, addToDelayedSends m dst s = (Ok tt, s1) /\ waits dst m s1 /\
    length (nw_delayed s1) = length (nw_delayed s) /\ nw_sent s1 = nw_sent s /\
    forall i, i <> Z.to_nat (dst - 1) -> nw_delayed s1 !! i = nw_delayed s !! i.
Proof.
  intros Hd Hlen. pose proof (cw_count W). unfold addToDelayedSends. run. rewrite u64_small by lia.
  destruct (lookup_lt_is_Some_2 (nw_delayed s) (Z.to_nat (dst - 1))) as [l Hl]; [lia|]. rewrite Hl.
  eexists. split; [done|]. cbn. split_and!; [|by rewrite length_insert|done|].
  - eexists. cbn. rewrite list_lookup_insert_eq by by eapply lookup_lt_Some.
    split; [done|]. by apply last_push_limited.
  - intros i Hi. by rewrite list_lookup_insert_ne.
Qed.

Lemma delayRest_run dsts m sent s :
  NoDup dsts -> Forall (fun dst => 1 <= dst <= nt_nodeCount T) dsts ->
  length (nw_delayed s) = Z.to_nat (nt_nodeCount T) ->
  exists s1, delayRest T dsts m sent s = (Ok tt, s1) /\
    (nw_sent s1 = nw_sent s /\ length (nw_delayed s1) = length (nw_delayed s)) /\
    (forall i, Forall (fun dst => i <> Z.to_nat (dst - 1)) dsts -> nw_delayed s1 !! i = nw_delayed s !! i) /\
    forall dst, dst ∈ dsts -> dst <> nt_schainIndex T -> dst ∉ sent -> waits dst m s1.
Proof.
  intros Hnd Hr. revert s. induction Hr as [|dst dsts Hd Hr IH]; intros s Hlen; cbn [delayRest].
  { exists s. split_and!; try done. intros ? Hin. by apply elem_of_nil in Hin. }
  apply NoDup_cons in Hnd as [Hnin Hnd]. cbv beta iota delta [mbind M_bind when mret M_ret].
  assert (Forall (fun d => Z.to_nat (dst - 1) <> Z.to_nat (d - 1)) dsts) as Hfar.
  { apply Forall_forall. intros d Hin. eapply Forall_forall in Hr; [|done]. assert (d <> dst) by congruence. lia. }
  destruct (negb (dst =? nt_schainIndex T) && bool_decide (dst ∉ sent)) eqn:Hb.
  - destruct (addToDelayedSends_run m dst s Hd Hlen) as (s1 & -> & [l [Hl Hlast]] & Hlen1 & Hsent & Hother).
    destruct (IH Hnd s1) as (s2 & -> & [Hsent2 Hlen2] & Hother2 & Hw); [congruence|].
    exists s2. split_and!; [done|congruence|congruence|..].
    + intros i Hi. inversion Hi; subst. by rewrite Hother2, Hother.
    + intros d [->|Hin]%elem_of_cons ??; [|by apply Hw]. exists l. by rewrite Hother2.
  - destruct (IH Hnd s Hlen) as (s2 & -> & [Hsent2 Hlen2] & Hother2 & Hw). exists s2. split_and!; [done|done|done|..].
    + intros i Hi. inversion Hi; subst. by apply Hother2.
    + intros d [->|Hin]%elem_of_cons Hne Hns; [|by apply Hw]. exfalso.
      rewrite (proj2 (Z.eqb_neq _ _) Hne), bool_decide_eq_true_2 in Hb by done. done.
Qed.

Lemma serializeMessage_fuel m : serializeMessage N m <> Err OutOfFuel.
Proof.
  unfold serializeMessage. destruct (bool_decide _); cbn; [|done]. by destruct (16 <? _).
Qed.

Lemma saveOutgoing_run m s :
  db_wf (md_db (nw_outgoing s)) -> exists db, saveOutgoing T N m s = (Ok tt, set_outgoing db s).
Proof.
  intros Hwf. unfold saveOutgoing.
  assert (wp (saveMsg (nt_msgCfg T) message (serializeMessage N) (fun m => nm_blockID (wm_base m)) m) (nw_outgoing s)
    (fun r _ => r <> Err OutOfFuel)) as Hf.
  { unfold saveMsg, on_mdb. wp_simpl. pose proof (serializeMessage_fuel m) as Hs.
    destruct (serializeMessage N m) as [text|e]; [|by destruct e]. wp_steps; try done.
    rewrite wp_zoom. cbn [md_db]. apply readString_spec; [done|]. wp_steps; [|done].
    rewrite wp_zoom. eapply wp_mono; [by apply writeString_spec|]. cbn beta. by intros r db (-> & _). }
  unfold wp in Hf. destruct (saveMsg _ _ _ _ _ _) as [r db]. exists db. by destruct r as [|[]].
Qed.

Lemma delayRest_keeps {X} (f : state -> X) dsts m sent :
  (forall s x, f (set_delayed x s) = f s) -> keeps f (delayRest T dsts m sent).
Proof.
  intros Hp. induction dsts as [|dst dsts IH]; cbn [delayRest]; [apply keeps_ret|].
  apply keeps_bind; [|done]. apply keeps_when. intros s. unfold addToDelayedSends. run.
  destruct (nw_delayed s !! _); cbn; auto.
Qed.

Lemma broadcast_run m m' s text (first : bool) :
  nt_catchupBlocks T < nm_blockID (wm_base m) -> nt_badNetwork T = false ->
  (if first then signMessage N m = Ok m' else m' = m) -> serializeMessage N m' = Ok text ->
  quiet s -> peers_accept s ->
  length (nw_delayed s) = Z.to_nat (nt_nodeCount T) -> (first = true -> db_wf (md_db (nw_outgoing s))) ->
  exists (l : list Z) s', broadcastMessageImpl T N m first s = (Ok m', s') /\
    nw_sent s' = nw_sent s ++ ((., m') <$> l) /\
    nt_nodeCount T * 2 <= 3 * (zsize (list_to_set l : gset Z) + 1) /\
    (quiet s' /\ length (nw_delayed s') = Z.to_nat (nt_nodeCount T) /\ NoDup l) /\
    forall dst, 1 <= dst <= nt_nodeCount T -> dst = nt_schainIndex T \/ dst ∈ l \/ waits dst m' s'.
Proof.
  intros Hb Hbad Hsign Htext Hq Hacc Hlen Hwf. unfold broadcastMessageImpl.
  rewrite (proj2 (Z.leb_gt _ _) Hb), Hbad, andb_false_r.
  assert (exists s0, (if first then m0 ← lift_res (signMessage N m); saveOutgoing T N m0 ;; mret m0 else mret m) s
    = (Ok m', s0) /\ quiet s0 /\ nw_sends s0 = nw_sends s /\ nw_delayed s0 = nw_delayed s /\ nw_sent s0 = nw_sent s)
    as (s0 & Hs0 & Hq0 & Hsends & Hdel & Hsent).
  { destruct first; [|subst; by exists s]. run. rewrite Hsign.
    destruct (saveOutgoing_run m' s (Hwf eq_refl)) as [db ->]. by exists (set_outgoing db s). }
  destruct (sendToTwoThirds_quiet m' ∅ s0 text (S (length (nw_sends s0))) Htext Hq0)
    as (l & s1 & Hr & Hq1 & Hsent1 & Hsub & Htwo & Hnd & _); [set_solver|lia|unfold peers_accept, acceptances in *; rewrite Hsends; change (zsize ∅) with 0; lia|].
  assert (nw_delayed s1 = nw_delayed s0) as Hdel1.
  { pose proof (sendToTwoThirds_keeps T N (nw_delayed : state -> _) m' ∅ (S (length (nw_sends s0)))) as Hk.
    specialize (Hk ltac:(done) ltac:(done) s0). by rewrite Hr in Hk. }
  destruct (delayRest_run (destinations T) m' (∅ ∪ list_to_set l) s1) as (s2 & Hr2 & [Hsent2 Hlen2] & _ & Hw);
    [apply destinations_nodup| |congruence|].
  { apply Forall_forall. intros i. apply elem_of_destinations. }
  exists l, s2. unfold nested_all. cbv beta iota delta [mbind M_bind]. cbv beta iota delta [mbind M_bind] in Hs0.
  rewrite Hs0. cbv beta iota delta [get]. rewrite Hr, Hr2. rewrite union_empty_l_L in *.
  pose proof (delayRest_keeps (fun s => (nw_exits s, nw_sends s)) (destinations T) m' (list_to_set l) ltac:(done) s1) as Hk.
  rewrite Hr2 in Hk. cbn in Hk. injection Hk as Hex Hse.
  split; [done|]. split; [by rewrite Hsent2, Hsent1, Hsent|]. split; [done|].
  split; [split_and!; [by unfold quiet; rewrite Hex, Hse|congruence|done]|].
  intros dst Hd. destruct (decide (dst = nt_schainIndex T)); [by left|right].
  destruct (decide (dst ∈ l)); [by left|right]. apply Hw; [by apply elem_of_destinations|done|set_solver].
Qed.

(** C23: A broadcast that is neither interrupted nor fails for good ends as soon
    as the peers accept it: if the sockets are going to accept enough sends to
    reach two thirds of the nodes, this one included, after refusing any number of
    them, the message is signed, more than two thirds of the nodes have it, each
    other node once at most, and for every node that does not have it it is the
    last one in the queue of delayed messages. *)
Theorem broadcast_reaches_nodes m m' s text (first : bool) :
  nt_catchupBlocks T < nm_blockID (wm_base m) -> nt_badNetwork T = false ->
  (if first then signMessage N m = Ok m' else m' = m) -> serializeMessage N m' = Ok text ->
  quiet s -> peers_accept s ->
  length (nw_delayed s) = Z.to_nat (nt_nodeCount T) -> db_wf (md_db (nw_outgoing s)) ->
  exists (l : list Z) s', broadcastMessageImpl T N m first s = (Ok m', s') /\
    nw_sent s' = nw_sent s ++ ((., m') <$> l) /\ NoDup l /\
    nt_nodeCount T * 2 <= 3 * (zsize (list_to_set l : gset Z) + 1) /\
    forall dst, 1 <= dst <= nt_nodeCount T -> dst = nt_schainIndex T \/ dst ∈ l \/ waits dst m' s'.
Proof.
  intros Hb Hbad Hsign Htext Hq Hacc Hlen Hwf.
  destruct (broadcast_run m m' s text first Hb Hbad Hsign Htext Hq Hacc Hlen (fun _ => Hwf)) as (l & s' & H1 & H2 & H3 & (_ & _ & Hnd) & H4). by exists l, s'.
Qed.
End Broadcast.

(** ** Runs of the agent *)
Section Runs.
Context {D : Type} `{KVStore D}.
Context {share shareset sig : Type}.
Context (T : net_config) (N : net_crypto share).
Local Abbreviation state := (network D share sig).
Local Abbreviation envelope := (NetEnvelope share).
Implicit Types s : state.

(** What may happen: a turn of one of the loops, a call of the node, or the rest
    of the node moves on: blocks are committed, posted messages are taken, the
    streams of outcomes are whatever the environment does next. *)
Inductive net_step s : state -> Prop :=
  | ns_read (A : agent_env share shareset sig) now : net_step s (networkReadTurn T N A now s).2
  | ns_deferred (A : agent_env share shareset sig) : net_step s (deferredTurn T N A s).2
  | ns_broadcast m first : net_step s (broadcastMessageImpl T N m first s).2
  | ns_oracleRequest now m : net_step s (broadcastOracleRequestMessage T N now m s).2
  | ns_oracleResponse now m dst : net_step s (sendOracleResponseMessage T N now m dst s).2
  | ns_node last stamp agent outgoing taken taken' sends recvs exits :
      net_step s (mkNetwork (nw_deferred s) (nw_delayed s) (nw_known s) last stamp agent (nw_keys s) outgoing
        (drop taken (nw_posted s)) (drop taken' (nw_oracle s)) (nw_sent s) sends recvs exits).

Lemma net_step_inv s s' : net_step s s' -> net_inv T s -> net_inv T s'.
Proof.
  destruct 1; [apply networkReadTurn_preserves|apply deferredTurn_preserves|apply broadcast_preserves
    |apply (oracle_preserves T N now m 0)|apply (oracle_preserves T N now m dst)|by apply net_inv_queues].
Qed.

Lemma mkNet_inv isSync loss s0 s : mkNet T isSync loss s0 = Ok s -> net_inv T s.
Proof.
  unfold mkNet. intros Hs. rinv Hs. injection Hs as <-. split; cbn.
  - intros b l Hl. by rewrite lookup_empty in Hl.
  - by rewrite length_replicate.
  - intros i l [-> _]%lookup_replicate. by split.
  - split; [by apply lru_new_inv|done].
Qed.

Lemma reachable_inv isSync loss s0 s1 s : mkNet T isSync loss s0 = Ok s1 -> rtc net_step s1 s -> net_inv T s.
Proof.
  intros Hm%mkNet_inv Hr. revert Hm. induction Hr as [|x y z Hxy _ IH]; [done|].
  intros Hx. by eapply IH, net_step_inv.
Qed.

Lemma total_delayed_bound (ls : list (list (WireMessage share * Z))) total max :
  0 <= total -> 0 <= max -> Forall (fun l => zlen l <= max) ls ->
  0 <= foldl (fun total l => u64 (total + zlen l)) total ls <= total + max * Z.of_nat (length ls).
Proof.
  revert total. induction ls as [|l ls IH]; intros total Ht Hm Hf; cbn [foldl length]; [lia|].
  apply Forall_cons in Hf as [Hl Hf]. pose proof (zlen_nonneg l).
  pose proof (Z.mod_le (total + zlen l) (2 ^ 64)). pose proof (u64_range (total + zlen l)).
  assert (u64 (total + zlen l) <= total + zlen l) by (unfold u64, wrap in *; lia).
  specialize (IH (u64 (total + zlen l)) ltac:(lia) Hm Hf). lia.
Qed.

(** C31: Whatever messages arrive and whatever the peers accept, the agent stays
    within its limits: at most 1024 deferred messages for a block, at most 128
    delayed messages for a node, at most 1024 hashes of known messages; every
    message waits in the queue of its block or of its node. *)
Theorem network_queues_bounded isSync loss s0 s1 s :
  mkNet T isSync loss s0 = Ok s1 -> rtc net_step s1 s -> 0 <= nt_nodeCount T ->
  (forall b l, nw_deferred s !! b = Some l ->
     zlen l <= MAX_DEFERRED_QUEUE_SIZE_FOR_BLOCK /\ Forall (fun me => blockID_of me = b) l) /\
  (forall i l, nw_delayed s !! i = Some l ->
     zlen l <= MAX_DELAYED_MESSAGE_SENDS /\ Forall (fun md => u64 (md.2 - 1) = Z.of_nat i) l) /\
  computeTotalDelayedSends s <= MAX_DELAYED_MESSAGE_SENDS * nt_nodeCount T /\
  zlen (lru_list (nw_known s)) <= KNOWN_MSG_HASHES_SIZE.
Proof.
  intros Hm Hr Hn. destruct (reachable_inv _ _ _ _ _ Hm Hr) as [Hd Hl Hs [Hk Hx]]. split_and!; [done|done|..].
  - unfold computeTotalDelayedSends.
    destruct (total_delayed_bound (nw_delayed s) 0 MAX_DELAYED_MESSAGE_SENDS) as [_ Hb]; [done|done| |].
    { apply Forall_lookup. intros i l Hi. by eapply Hs. }
    rewrite Hl in Hb. unfold MAX_DELAYED_MESSAGE_SENDS in *. lia.
  - rewrite <- Hx. unfold zlen, lru_list. rewrite length_fmap. apply Hk.
Qed.

(** ** What is posted was verified *)
Context (sgx : nc_isSGXEnabled N = true).

(** The message parsed, is for this chain, names a member as its sender, and is
    signed with a certified session key. *)
Definition authentic (me : envelope) : Prop :=
  let m := ne_message me in
  parsed_wf N (nt_schainID T) m /\ signed N m /\
  (exists node blockID, key_certified N (wm_pkSig m) (wm_publicKey m) node blockID) /\
  is_Some (nt_nodes T !! ne_srcSchainIndex me) /\ ne_srcSchainIndex me = nm_srcSchainIndex (wm_base m).

Record auth_inv s : Prop := {
  au_keys : keys_inv N (nw_keys s);
  au_posted : Forall authentic (nw_posted s);
  au_deferred : forall b l, nw_deferred s !! b = Some l -> Forall authentic l
}.

Definition carries {B} (c : M state B) : Prop := moves (fun s s' => auth_inv s -> auth_inv s') c.

#[local] Instance auth_preorder : PreOrder (fun s s' => auth_inv s -> auth_inv s').
Proof. split; [by intros ?|intros ???; tauto]. Qed.

Definition checked s := (nw_keys s, nw_posted s, nw_deferred s).

Lemma carries_keeps {B} (c : M state B) : keeps checked c -> carries c.
Proof. apply moves_keeps. unfold checked. intros s s' [= H1 H2 H3] []. by split; rewrite ?H1, ?H2, ?H3. Qed.

Lemma auth_inv_checked s s' : checked s' = checked s -> auth_inv s -> auth_inv s'.
Proof. unfold checked. intros [= H1 H2 H3] []. by split; rewrite ?H1, ?H2, ?H3. Qed.

Lemma receiveMessage_authentic now s :
  auth_inv s -> wp (receiveMessage T N now) s (fun r s' => auth_inv s' /\ forall me, r = Ok me -> authentic me).
Proof.
  intros Ha. unfold receiveMessage. wp_simpl.
  pose proof (readMessage_keeps T (checked : state -> _) ltac:(done) ltac:(done) s) as Hr.
  unfold wp at 1. destruct (readMessageFromNetwork T s) as [[text|e] s1]; cbn [fst snd] in *;
    apply (auth_inv_checked s s1) in Ha; try done. clear s Hr. wp_simpl.
  destruct (parseMessage N text (nt_schainID T) (nw_last s1) false) as [m|e] eqn:Hp; [|done].
  wp_simpl. rewrite wp_zoom. eapply wp_mono; [by apply (verified_message_certified N sgx), Ha|]. cbn beta.
  intros r c [Hk Hv]. assert (auth_inv (set_keys c s1)) as Ha' by (by destruct Ha). 
  destruct r as [[]|e]; [|done]. destruct (Hv eq_refl) as [Hs Hc].
  destruct (nt_nodes T !! nm_srcSchainIndex (wm_base m)) as [node|] eqn:Hn; wp_simpl; [|done].
  destruct (createProtocolKey (wm_base m)); wp_simpl; [|done]. split; [done|]. intros me [= <-].
  split_and!; cbn; [by eapply parseMessage_wf|done|done|by rewrite Hn|done].
Qed.

Lemma defer_carries me : authentic me -> carries (addToDeferredMessageQueue me).
Proof.
  intros Hme s [Hk Hp Hd]. split; cbn; [done..|]. fold (blockID_of me). intros b l.
  destruct (decide (blockID_of me = b)) as [<-|Hne]; [|rewrite lookup_insert_ne by done; apply Hd].
  rewrite lookup_insert_eq. intros [= <-]. unfold push_limited.
  assert (Forall authentic (default [] (nw_deferred s !! blockID_of me) ++ [me])) as Hf.
  { apply Forall_app. split; [|by apply Forall_singleton].
    destruct (nw_deferred s !! blockID_of me) eqn:Hb; [by eapply Hd|constructor]. }
  destruct (_ <? _); [by apply Forall_drop|done].
Qed.

Lemma post_carries me : authentic me -> carries (net_postMessage me).
Proof.
  intros Hme. unfold net_postMessage.
  apply moves_bind; [typeclasses eauto|apply carries_keeps; by apply exitCheck_keeps|intros].
  apply moves_bind; [typeclasses eauto|apply moves_check; typeclasses eauto|intros].
  intros s [Hk Hp Hd]. split; cbn; [done| |done]. apply Forall_app. split; [done|by apply Forall_singleton].
Qed.

Ltac carried_with tac :=
  repeat first
    [ tac
    | apply carries_keeps; first
        [ apply keeps_ret | apply keeps_throw | apply keeps_lift | apply keeps_get | apply keeps_check
        | by apply exitCheck_keeps | by apply exit_keeps | by apply oracle_keeps
        | by apply sendMessage_keeps | by apply sendOracle_keeps | by apply sendToTwoThirds_keeps
        | by apply saveOutgoing_keeps | by apply trySending_keeps | by apply keeps_zoom ]
    | by apply post_carries | by apply defer_carries
    | apply moves_if | apply moves_when; [typeclasses eauto|] | apply moves_nested_all
    | apply moves_bind; [typeclasses eauto| |intros] ].

Lemma postDeferOrDrop_carries (A : agent_env share shareset sig) me : authentic me -> carries (postDeferOrDrop A me).
Proof. intros Hme. unfold postDeferOrDrop. carried_with fail. Qed.

Lemma postAll_carries (A : agent_env share shareset sig) l : Forall authentic l -> carries (postAll A l).
Proof.
  induction 1 as [|me l Hme _ IH]; cbn [postAll]; carried_with ltac:(by apply postDeferOrDrop_carries || apply IH).
Qed.

Lemma deferredTurn_carries (A : agent_env share shareset sig) : carries (deferredTurn T N A).
Proof.
  intros s Ha. rewrite deferredTurn_state.
  assert (auth_inv (set_deferred (kept s) s)) as Ha'.
  { destruct Ha as [Hk Hp Hd]. split; cbn; [done..|]. intros b l [Hl _]%map_lookup_filter_Some. by eapply Hd. }
  assert (Forall authentic (pulled s)) as Hp.
  { apply Forall_concat. change (map snd ?l) with (l.*2). apply Forall_forall.
    intros l ([k l'] & -> & [_ Hin%elem_of_map_items]%list_elem_of_filter)%list_elem_of_fmap. by eapply Ha. }
  set (c := (go ← postAll A (pulled s);
    if (go : bool) then trySendingDelayedSends T N ;; mret true else mret false) : M state bool).
  change (deferredWork T N A s) with (c (set_deferred (kept s) s)).
  assert (carries c) as Hc by (unfold c; carried_with ltac:(by apply postAll_carries)). by apply Hc.
Qed.

Lemma networkReadTurn_carries (A : agent_env share shareset sig) now : carries (networkReadTurn T N A now).
Proof.
  intros s Ha. rewrite networkReadTurn_state. unfold readWork.
  pose proof (receiveMessage_authentic now s Ha) as Hr. unfold wp in Hr. unfold mbind, M_bind.
  destruct (receiveMessage T N now s) as [[me|e] s1]; [|by apply Hr]. destruct Hr as [Ha1 Hme].
  specialize (Hme me eq_refl). revert Ha1. generalize s1. change (carries (processReceived T N A me)).
  unfold processReceived. carried_with ltac:(by apply postDeferOrDrop_carries).
Qed.

Lemma delayRest_carries dsts m sent : carries (delayRest T dsts m sent).
Proof.
  apply carries_keeps. induction dsts as [|dst dsts IH]; cbn [delayRest]; [apply keeps_ret|].
  apply keeps_bind; [|done]. apply keeps_when. intros s. unfold addToDelayedSends. run.
  by destruct (nw_delayed s !! _).
Qed.

Lemma net_step_auth s s' : net_step s s' -> auth_inv s -> auth_inv s'.
Proof.
  destruct 1; [apply networkReadTurn_carries|apply deferredTurn_carries|..|].
  - revert s. change (carries (broadcastMessageImpl T N m first)). unfold broadcastMessageImpl.
    destruct first; carried_with ltac:(apply delayRest_carries).
  - revert s. change (carries (broadcastOracleRequestMessage T N now m)).
    unfold broadcastOracleRequestMessage. carried_with fail.
  - revert s. change (carries (sendOracleResponseMessage T N now m dst)).
    unfold sendOracleResponseMessage. carried_with fail.
  - intros [Hk Hp Hd]. split; cbn; [done|by apply Forall_drop|done].
Qed.

(** C22: Every message that reaches the consensus was checked: whatever bytes
    arrive and in whatever order messages are deferred, posted and taken, a
    message in the queue of the chain parsed, belongs to this chain, names a
    member as its sender and is signed with a session key that a node certified. *)
Theorem posted_messages_authentic isSync loss s0 s1 s :
  mkNet T isSync loss s0 = Ok s1 -> nw_posted s0 = [] -> keys_inv N (nw_keys s0) -> rtc net_step s1 s ->
  Forall authentic (nw_posted s).
Proof.
  intros Hm Hp Hk Hr. assert (auth_inv s1) as Ha.
  { unfold mkNet in Hm. rinv Hm. injection Hm as <-. split; cbn; [done|by rewrite Hp|].
    intros b l Hl. by rewrite lookup_empty in Hl. }
  cut (auth_inv s); [by intros []|]. clear Hm Hp Hk. revert Ha.
  induction Hr as [|x y z Hxy _ IH]; [done|]. intros Hx. by eapply IH, net_step_auth.
Qed.
End Runs.

(** ** Witnesses: node 1 of a chain of four, after block 8 *)
Definition toy_config : net_config := {|
  nt_nodeCount := 4; nt_schainIndex := 1; nt_schainID := 1; nt_nodes := {[1 := 11; 2 := 12; 3 := 13; 4 := 14]};
  nt_catchupBlocks := 0; nt_badNetwork := false; nt_msgCfg := demo_config |}.

Definition toy_crypto : net_crypto (Z * Z) := toy_net_at (fun _ => (0, 0)).

Definition toy_message (type : MsgType) (blockID proposer : Z) : WireMessage (Z * Z) := {|
  wm_base := {| nm_type := type; nm_schainID := 1; nm_msgID := 7; nm_blockID := blockID;
    nm_blockProposerIndex := proposer; nm_round := 0; nm_value := 1; nm_timeMs := 1700000000000;
    nm_srcSchainIndex := 2; nm_sigShare := None |};
  wm_srcNodeID := 12; wm_sigShareString := ""; wm_ecdsaSig := "sig"; wm_publicKey := "key"; wm_pkSig := "cert";
  wm_child := NoChild |}.

Definition toy_envelope (type : MsgType) (blockID proposer : Z) : NetEnvelope (Z * Z) :=
  {| ne_message := toy_message type blockID proposer; ne_srcSchainIndex := 2; ne_arrivalTime := 0 |}.

Definition toy_network (deferred : gmap Z (list (NetEnvelope (Z * Z)))) (sends : list send_outcome) :
    network (gmap string string) (Z * Z) Z :=
  mkNetwork deferred (replicate 4 []) (lru_new KNOWN_MSG_HASHES_SIZE) 8 {| ts_s := 1700000000; ts_ms := 0 |}
    (newAgent demo_agent_env 8) (lru_new SESSION_PUBLIC_KEY_CACHE_SIZE) (mkMsgDb empty_db 0) [] [] [] sends [] [].

Lemma toy_config_wf : config_wf toy_config.
Proof.
  split; [|done|done]. intros i. cbn [nt_nodes nt_nodeCount toy_config].
  rewrite <- elem_of_dom. rewrite !dom_insert_L, dom_singleton_L. set_unfold. lia.
Qed.

Lemma toy_network_inv b (l : list (NetEnvelope (Z * Z))) sends :
  zlen l <= MAX_DEFERRED_QUEUE_SIZE_FOR_BLOCK -> Forall (fun me => blockID_of me = b) l ->
  net_inv toy_config (toy_network {[b := l]} sends).
Proof.
  intros Hl Hb. split; [|done| |split; [by apply lru_new_inv|done]].
  - cbn. intros b' l' [<- <-]%lookup_singleton_Some. done.
  - cbn [nw_delayed toy_network]. intros i l' [-> _]%lookup_replicate. by split.
Qed.

(** The proposals of nodes 2 and 3 for block 9 are posted. *)
Lemma deferred_messages_conserved_witness :
  exists (s' : network (gmap string string) (Z * Z) Z) dropped,
    held s' ++ dropped ≡ₚ [toy_envelope MSG_BVB_BROADCAST 9 2; toy_envelope MSG_BVB_BROADCAST 9 3] /\
    length (nw_posted s') = 2%nat.
Proof.
  set (s := toy_network {[9 := [toy_envelope MSG_BVB_BROADCAST 9 2; toy_envelope MSG_BVB_BROADCAST 9 3]]} []).
  destruct (deferred_messages_conserved toy_config toy_crypto demo_agent_env s
    (deferredWork toy_config toy_crypto demo_agent_env s).2) as (dropped & Hd & _).
  - apply toy_network_inv; [done|by repeat constructor].
  - by vm_compute.
  - eexists _, dropped. split; [exact Hd|by vm_compute].
Defined.

(** A vote for proposer 9 of four takes the vote behind it with it. *)
Lemma poisoned_batch_lost_witness :
  exists s', deferredTurn toy_config toy_crypto demo_agent_env
      (toy_network {[9 := [toy_envelope MSG_BVB_BROADCAST 9 9; toy_envelope MSG_BVB_BROADCAST 9 2]]} []) =
      (Ok true, s') /\ nw_posted s' = [] /\ nw_deferred s' !! 9 = None.
Proof.
  destruct (poisoned_batch_lost toy_config toy_crypto demo_agent_env
    (toy_network {[9 := [toy_envelope MSG_BVB_BROADCAST 9 9; toy_envelope MSG_BVB_BROADCAST 9 2]]} [])
    (toy_envelope MSG_BVB_BROADCAST 9 9) [toy_envelope MSG_BVB_BROADCAST 9 2]) as (s' & Hr & Hp & _ & Hd); [done..| |].
  - split_and!; [by left|by vm_compute|by vm_compute|by vm_compute|by right].
  - exists s'. split_and!; [done|done|by rewrite Hd].
Defined.

Lemma network_queues_bounded_witness :
  exists s1, mkNet toy_config false None (toy_network ∅ [SendAgain]) = Ok s1 /\
    computeTotalDelayedSends
      (broadcastMessageImpl toy_config toy_crypto (toy_message MSG_BVB_BROADCAST 9 2) false s1).2
    <= MAX_DELAYED_MESSAGE_SENDS * 4.
Proof.
  eexists. split; [reflexivity|].
  eapply (network_queues_bounded (shareset := Z) toy_config toy_crypto false None (toy_network ∅ [SendAgain]));
    [reflexivity|apply rtc_once, ns_broadcast|done].
Defined.

(** A peer whose messages are a short text: the vote of node 2, signed. *)
Definition toy_signed : WireMessage (Z * Z) :=
  match signMessage toy_crypto (toy_message MSG_BVB_BROADCAST 9 2) with
  | Ok m => m
  | Err _ => toy_message MSG_BVB_BROADCAST 9 2
  end.

Definition toy_reader : net_crypto (Z * Z) := {|
  nc_blake3 := nc_blake3 toy_crypto; nc_write := nc_write toy_crypto;
  nc_parse := fun text => if bool_decide (text = "the signed vote of node 2"%string) then Ok (messageFields toy_signed)
                          else Err JsonError;
  nc_createSigShare := nc_createSigShare toy_crypto; nc_isSGXEnabled := true; nc_isSyncOnlyNode := false;
  nc_signSessionECDSA := nc_signSessionECDSA toy_crypto; nc_verifyECDSASig := nc_verifyECDSASig toy_crypto;
  nc_verifyEdDSA := nc_verifyEdDSA toy_crypto; nc_parseSpec := nc_parseSpec toy_crypto |}.

(** Garbage, and the vote. *)
Definition toy_inbox : network (gmap string string) (Z * Z) Z :=
  set_recvs [Received "{}" 2; Received "the signed vote of node 2" 25] (toy_network ∅ []).

Definition toy_read (s : network (gmap string string) (Z * Z) Z) : network (gmap string string) (Z * Z) Z :=
  (networkReadTurn toy_config toy_reader demo_agent_env 0 s).2.

Lemma posted_messages_authentic_witness :
  exists s1, mkNet toy_config false None toy_inbox = Ok s1 /\
    nw_posted (toy_read (toy_read s1)) = [{| ne_message := toy_signed; ne_srcSchainIndex := 2; ne_arrivalTime := 0 |}] /\
    Forall (authentic toy_config toy_reader) (nw_posted (toy_read (toy_read s1))).
Proof.
  eexists. split; [reflexivity|]. split; [by vm_compute|].
  eapply (posted_messages_authentic (shareset := Z) toy_config toy_reader eq_refl false None toy_inbox);
    [reflexivity|reflexivity|by apply keys_inv_new|].
  eapply (rtc_l _ _ (toy_read _)); [exact (ns_read _ _ _ demo_agent_env 0)|].
  apply rtc_once. exact (ns_read _ _ _ demo_agent_env 0).
Defined.

(** Nodes 2 and 4 do not accept the message at first; then the first two sends
    that are accepted are enough. *)
Lemma broadcast_reaches_nodes_witness :
  exists (l : list Z) s',
    broadcastMessageImpl toy_config toy_crypto (toy_message MSG_BVB_BROADCAST 9 2) false
      (toy_network ∅ [SendAgain; SendAccepted; SendAgain; SendAccepted]) =
      (Ok (toy_message MSG_BVB_BROADCAST 9 2), s') /\
    8 <= 3 * (zsize (list_to_set l : gset Z) + 1).
Proof.
  destruct (broadcast_reaches_nodes toy_config toy_crypto toy_config_wf (toy_message MSG_BVB_BROADCAST 9 2)
    (toy_message MSG_BVB_BROADCAST 9 2) (toy_network ∅ [SendAgain; SendAccepted; SendAgain; SendAccepted])
    (nc_write toy_crypto (messageFields (toy_message MSG_BVB_BROADCAST 9 2))) false)
    as (l & s' & Hr & _ & _ & Ht & _); [done|done|done| | | |done|apply empty_db_wf|].
  - apply (serializeMessage_ok (L := toy_laws _) (toy_net_at _)). discriminate.
  - split; [done|]. set_solver.
  - vm_compute. discriminate.
  - by exists l, s'.
Defined.
