(* ===== verification/SgxClient.v ===== *)
(** * The client of the SGX wallet

    Model of [SgxZmqClient] and [SgxZmqMessage] ([src/sgxclient]) and of the
    calls of [CryptoManager] ([src/crypto/CryptoManager.cpp]) that sign with a
    key of the wallet: over ZeroMQ, or over HTTP when ZeroMQ does not answer.
    The wallet, the JSON libraries and OpenSSL are parameters. *)

From stdpp Require Import base tactics gmap list strings.
From Stdlib Require Import ZArith Lia Ascii.
From S2P Require Import Prelude Bytes LruCache Transactions Blocks Headers NetMessages.

Inductive zmq_status := ZMQ_UNKNOWN | ZMQ_TRUE | ZMQ_FALSE.

(** What a wait for the wallet gives: an answer (made with the given random
    choices of the wallet), no connection or no answer in time, or an error of
    the library. *)
Inductive wallet_event :=
  | WalletAnswers (nonce : Z)
  | WalletSilent
  | WalletFails (e : exn).

Record wallet_env := {
  wl_sign : bool;
  wl_cert : string;
  wl_key : string;
  wl_pubkey : Type;
  wl_dump : json -> string;
  wl_parse : string -> res document;
  wl_write : document -> string;
  wl_digestSign : string -> string;
  wl_readCert : string -> res wl_pubkey;
  wl_digestVerify : wl_pubkey -> string -> list Z -> bool;
  wl_zmqServe : Z -> string -> string;
  wl_httpServe : Z -> json -> json
}.

Record wallet_state {W : wallet_env} := mkWallet {
  ws_requests : Z;
  ws_status : zmq_status;
  ws_serverDown : bool;
  ws_connected : bool;
  ws_verifiedCerts : lru_cache string (wl_pubkey W);
  ws_events : list (bool * wallet_event)
}.
Arguments wallet_state : clear implicits.
Arguments mkWallet {_}.

Section Client.
Context (W : wallet_env).
Local Abbreviation state := (wallet_state W).

Definition newWallet (events : list (bool * wallet_event)) : state :=
  mkWallet 0 ZMQ_UNKNOWN false false (lru_new 256) events.

Definition set_requests (n : Z) (s : state) : state :=
  mkWallet n (ws_status s) (ws_serverDown s) (ws_connected s) (ws_verifiedCerts s) (ws_events s).
Definition setZmqStatus (st : zmq_status) (s : state) : state :=
  mkWallet (ws_requests s) st (ws_serverDown s) (ws_connected s) (ws_verifiedCerts s) (ws_events s).
Definition set_serverDown (b : bool) (s : state) : state :=
  mkWallet (ws_requests s) (ws_status s) b (ws_connected s) (ws_verifiedCerts s) (ws_events s).
Definition set_events (es : list (bool * wallet_event)) (s : state) : state :=
  mkWallet (ws_requests s) (ws_status s) (ws_serverDown s) (ws_connected s) (ws_verifiedCerts s) es.
Definition set_certs (c : lru_cache string (wl_pubkey W)) (s : state) : state :=
  mkWallet (ws_requests s) (ws_status s) (ws_serverDown s) (ws_connected s) c (ws_events s).

(** The socket itself is a library object. *)
Definition reconnect : M state unit := modify (fun s =>
  mkWallet (ws_requests s) (ws_status s) (ws_serverDown s) true (ws_verifiedCerts s) (ws_events s)).

(** ** Messages of the wallet *)
Inductive wallet_message := BLSSignRsp (d : document) | ECDSASignRsp (d : document).

Definition message_doc (m : wallet_message) : document :=
  match m with BLSSignRsp d | ECDSASignRsp d => d end.

(** The constructor [SgxZmqMessage]: a warning has to be a string. *)
Definition mkWalletMessage (mk : document -> wallet_message) (d : document) : res wallet_message :=
  match member d "warn" with
  | None | Some (JStr _) => Ok (mk d)
  | Some _ => Err InvalidStateException
  end.

Definition buildResponse (type : string) (d : document) : res wallet_message :=
  if bool_decide (type = "BLSSignRsp"%string) then mkWalletMessage BLSSignRsp d
  else if bool_decide (type = "ECDSASignRsp"%string) then mkWalletMessage ECDSASignRsp d
  else Err InvalidStateException.

Definition braces (s : string) : bool := front_is 123 (string_bytes s) && back_is 125 (string_bytes s).

(** [SgxZmqMessage::parse] of an answer. *)
Definition parseAnswer (msg : string) : res wallet_message :=
  rcheck InvalidStateException (5 <? Z.of_nat (String.length msg)) ;;
  rcheck InvalidStateException (braces msg) ;;
  d ← rnested_all InvalidStateException (wl_parse W (c_str msg));
  match member d "status" with
  | Some (JNum status) => rcheck InvalidStateException (status =? 0)
  | _ => Err InvalidStateException
  end ;;
  type ← getStringRapid d "type";
  buildResponse type d.

(** [std::string::substr( 2 )]. *)
Definition substr2 (s : string) : res string :=
  match s with
  | String _ (String _ s) => Ok s
  | _ => Err StdOutOfRange
  end.

Definition signature_text (r v s : string) : res string :=
  r ← substr2 r;
  s ← substr2 s;
  Ok (v +:+ ":" +:+ r +:+ ":" +:+ s).

Definition rsp_getSignature (d : document) : res string :=
  r ← getStringRapid d "signature_r";
  v ← getStringRapid d "signature_v";
  s ← getStringRapid d "signature_s";
  signature_text r v s.

(** ** Requests *)

(** [regex_replace( str, "\\s+", "" )]. *)
Definition signString (str : string) : res string :=
  rcheck InvalidStateException (bool_decide (str <> ""%string)) ;;
  Ok (wl_digestSign W (removeSpaces str)).

(** [RemoveMember] of RapidJSON moves the last member into the gap. *)
Fixpoint split_member (d : document) (name : string) : option (document * document) :=
  match d with
  | [] => None
  | (k, v) :: d =>
      if String.eqb k name then Some ([], d)
      else '(pre, post) ← split_member d name; Some ((k, v) :: pre, post)
  end.

Definition RemoveMember (d : document) (name : string) : document :=
  match split_member d name with
  | None => d
  | Some (pre, post) =>
      match last post with
      | None => pre
      | Some kv => pre ++ kv :: take (length post - 1) post
      end
  end.

(** The buffer for the signature has 256 bytes; a longer one is written past
    its end, here it is refused. *)
Definition verifySig (pubkey : wl_pubkey W) (str sig : string) : res unit :=
  rcheck InvalidStateException (bool_decide (str <> ""%string)) ;;
  let binLen := Z.of_nat (String.length sig) / 2 in
  rcheck FatalError (binLen <=? 256) ;;
  binSig ← cArrayFromHex sig binLen;
  rcheck InvalidStateException (wl_digestVerify W pubkey (removeSpaces str) binSig).

Definition on_certs {A} (c : M (lru_cache string (wl_pubkey W)) A) : M state A :=
  zoom ws_verifiedCerts set_certs c.

Definition verifyMsgSig (msg : string) : M state unit :=
  d ← lift_res (rnested_all InvalidStateException (wl_parse W (c_str msg)));
  lift_res (getStringRapid d "type") ;;
  crt ← lift_res (getStringRapid d "cert");
  msgSig ← lift_res (getStringRapid d "msgSig");
  known ← on_certs (lru_exists crt);
  (if (known : bool) then mret tt
   else
     handle ← lift_res (wl_readCert W crt);
     on_certs (lru_put crt handle)) ;;
  publicKey ← on_certs (lru_get crt);
  lift_res (verifySig publicKey (wl_write W (RemoveMember d "msgSig")) msgSig).

(** The request with its signature before the closing brace. *)
Definition quote : ascii := "034".

Definition appendSig (reqStr sig : string) : string :=
  String.substring 0 (String.length reqStr - 1) reqStr +:+
    String "," (String quote ("msgSig" +:+ String quote (String ":" (String quote (sig +:+ String quote "}"))))).

(** The loop of [doZmqRequestReply]; the request was sent. *)
Fixpoint awaitReply (req : string) (throwOnTimeout : bool) (events : list (bool * wallet_event)) :
    M state string :=
  match events with
  | [] => throw OutOfFuel
  | (exits, e) :: events =>
      modify (set_events events) ;;
      match e with
      | WalletFails e => throw e
      | WalletSilent =>
          check ExitRequestedException (negb exits) ;;
          modify (set_serverDown true) ;;
          if throwOnTimeout then throw InvalidStateException
          else reconnect ;; awaitReply req throwOnTimeout events
      | WalletAnswers nonce =>
          check ExitRequestedException (negb exits) ;;
          let reply := wl_zmqServe W nonce req in
          CHECK_STATE (bool_decide (c_str reply = reply)) ;;
          CHECK_STATE (5 <? Z.of_nat (String.length reply)) ;;
          CHECK_STATE (braces reply) ;;
          modify (set_serverDown false) ;;
          mret reply
      end
  end.

Definition doZmqRequestReply (req : string) (throwOnTimeout : bool) : M state string :=
  s ← get;
  (if ws_connected s then mret tt else reconnect) ;;
  awaitReply req throwOnTimeout (ws_events s).

(** Every tenth request is verified before it is sent. *)
Definition doRequestReply (req : json) (throwOnTimeout : bool) : M state wallet_message :=
  CHECK_STATE (negb (wl_sign W) || bool_decide (wl_cert W <> ""%string)) ;;
  CHECK_STATE (negb (wl_sign W) || bool_decide (wl_key W <> ""%string)) ;;
  let reqStr := wl_dump W (if wl_sign W then <["cert"%string := JStr (wl_cert W)]> req else req) in
  CHECK_STATE (back_is 125 (string_bytes reqStr)) ;;
  reqStr ← (if wl_sign W then sig ← lift_res (signString reqStr); mret (appendSig reqStr sig)
            else mret reqStr);
  s ← get;
  (if ws_requests s mod 10 =? 0 then verifyMsgSig reqStr else mret tt) ;;
  modify (fun s => set_requests (u64 (ws_requests s + 1)) s) ;;
  CHECK_STATE (braces reqStr) ;;
  resultStr ← doZmqRequestReply reqStr throwOnTimeout;
  CHECK_STATE (5 <? Z.of_nat (String.length resultStr)) ;;
  CHECK_STATE (braces resultStr) ;;
  result ← lift_res (parseAnswer resultStr);
  status ← lift_res (getUint64Rapid (message_doc result) "status");
  CHECK_STATE (status =? 0) ;;
  mret result.

Definition blsSignRequest (keyShareName messageHash : string) (t n : Z) : json :=
  <["t"%string := JNum t]> (<["n"%string := JNum n]> (<["messageHash"%string := JStr messageHash]>
    (<["keyShareName"%string := JStr keyShareName]> (<["type"%string := JStr "BLSSignReq"]> ∅)))).

Definition blsSignMessageHash (keyShareName messageHash : string) (t n : Z) (throwOnTimeout : bool) :
    M state string :=
  result ← doRequestReply (blsSignRequest keyShareName messageHash t n) throwOnTimeout;
  match result with
  | BLSSignRsp d => lift_res (getStringRapid d "signatureShare")
  | _ => throw InvalidStateException
  end.

Definition ecdsaSignRequest (base : Z) (keyName messageHash : string) : json :=
  <["messageHash"%string := JStr messageHash]> (<["keyName"%string := JStr keyName]>
    (<["base"%string := JNum base]> (<["type"%string := JStr "ECDSASignReq"]> ∅))).

Definition ecdsaSignMessageHash (base : Z) (keyName messageHash : string) (throwOnTimeout : bool) :
    M state string :=
  result ← doRequestReply (ecdsaSignRequest base keyName messageHash) throwOnTimeout;
  match result with
  | ECDSASignRsp d => lift_res (rsp_getSignature d)
  | _ => throw InvalidStateException
  end.

(** ** Signing, with HTTP as a fallback *)

Definition sampleHash : string := "0102030405060708091011121314151617181920212223242526272829303132".

(** [try { probe } catch ( ... )]: the probe decides how to connect. *)
Definition probeZMQ (probe : M state string) : M state unit := fun s =>
  match ws_status s with
  | ZMQ_UNKNOWN =>
      match probe s with
      | (Ok _, s') => (Ok tt, setZmqStatus ZMQ_TRUE s')
      | (Err OutOfFuel, s') => (Err OutOfFuel, s')
      | (Err _, s') => (Ok tt, setZmqStatus ZMQ_FALSE s')
      end
  | _ => (Ok tt, s)
  end.

Definition checkZMQStatusIfUnknownECDSA (keyName : string) : M state unit :=
  probeZMQ (ecdsaSignMessageHash 16 keyName sampleHash true).

Definition checkZMQStatusIfUnknownBLS (keyName : string) (t n : Z) : M state unit :=
  probeZMQ (blsSignMessageHash keyName sampleHash t n true).

(** [RETRY_BEGIN ... RETRY_END]: again as long as the wallet does not answer;
    the calls that sign check for an exit first. *)
Fixpoint httpRetry (exitCheck : bool) (req : json) (events : list (bool * wallet_event)) : M state json :=
  match events with
  | [] => throw OutOfFuel
  | (exits, e) :: events =>
      modify (set_events events) ;;
      check ExitRequestedException (negb (exitCheck && exits)) ;;
      match e with
      | WalletFails e => throw e
      | WalletSilent => httpRetry exitCheck req events
      | WalletAnswers nonce => mret (wl_httpServe W nonce req)
      end
  end.

Definition httpCall (exitCheck : bool) (req : json) : M state json :=
  s ← get;
  httpRetry exitCheck req (ws_events s).

(** [JSONFactory::checkSGXStatus] and [getString]. *)
Definition checkSGXStatus (j : json) : res unit :=
  match j !! "status"%string with
  | Some (JNum status) => rcheck InvalidStateException (status =? 0)
  | _ => Err InvalidStateException
  end.

Definition json_string (j : json) (key : string) : res string :=
  match j !! key with
  | Some (JStr s) => Ok s
  | _ => Err InvalidStateException
  end.

Definition sgxSignECDSA (hash : list Z) (keyName : string) : M state string :=
  checkZMQStatusIfUnknownECDSA keyName ;;
  s ← get;
  match ws_status s with
  | ZMQ_TRUE => ecdsaSignMessageHash 16 keyName (toHex hash) false
  | _ =>
      result ← httpCall true (ecdsaSignRequest 16 keyName (toHex hash));
      lift_res (checkSGXStatus result) ;;
      r ← lift_res (json_string result "signature_r");
      v ← lift_res (json_string result "signature_v");
      s ← lift_res (json_string result "signature_s");
      lift_res (signature_text r v s)
  end.

(** The wallet's part of [signSigShare]. *)
Definition sgxSignBLS (hash : list Z) (keyName : string) (t n : Z) : M state string :=
  checkZMQStatusIfUnknownBLS keyName t n ;;
  s ← get;
  match ws_status s with
  | ZMQ_TRUE => blsSignMessageHash keyName (toHex hash) t n false
  | _ =>
      result ← httpCall true (blsSignRequest keyName (toHex hash) t n);
      lift_res (checkSGXStatus result) ;;
      lift_res (json_string result "signatureShare")
  end.

Definition isServerDown (s : state) : bool := ws_serverDown s.
End Client.
