(* ===== verification/Crypto.v ===== *)
(** * Signatures

    Model of [CryptoManager] ([src/crypto/CryptoManager.cpp]): which key
    verifies a signature, session keys, signature shares, sets of shares and
    threshold signatures ([ConsensusEdDSASigShare], [ConsensusEdDSASignature],
    [ConsensusEdDSASigShareSet], [ConsensusBLSSigShare], [ConsensusBLSSignature],
    [ConsensusSigShareSet] and the [Mockup] classes of [src/crypto]).  OpenSSL,
    libBLS, BLAKE3 and the wallet are parameters. *)

From stdpp Require Import base tactics gmap list strings.
From Stdlib Require Import ZArith Lia Ascii.
From S2P Require Import Prelude Bytes Messages BinConsensus LruCache Transactions ProtocolDbs Blocks Headers NetMessages SgxClient.

Definition SESSION_KEY_CACHE_SIZE : Z := 2.

(** The libraries. *)
Record crypto_libs := {
  cl_blake3 : list Z -> list Z;
  cl_keccak : list Z -> list Z;
  cl_edKey : Type;
  cl_edGenerate : Z -> cl_edKey;
  cl_edPublic : cl_edKey -> string;
  cl_edSign : cl_edKey -> list Z -> string;
  cl_edVerify : string -> string -> list Z -> bool;
  cl_ecKey : Type;
  cl_ecPoint : string -> string -> option cl_ecKey;
  cl_ecVerify : cl_ecKey -> string -> string -> list Z -> bool;
  cl_blsKey : Type;
  cl_blsSig : Type;
  cl_blsShare : Type;
  cl_blsSet : Type;
  cl_blsVerify : cl_blsKey -> list Z -> cl_blsSig -> bool;
  cl_blsSigOf : string -> Z -> Z -> res cl_blsSig;
  cl_blsSigText : cl_blsSig -> res string;
  cl_blsRandom : cl_blsSig -> res Z;
  cl_blsShareOf : string -> Z -> Z -> Z -> res cl_blsShare;
  cl_blsShareText : cl_blsShare -> res string;
  cl_blsShareIndex : cl_blsShare -> Z;
  cl_blsShareVerify : list string -> list Z -> cl_blsShare -> Z -> Z -> res bool;
  cl_blsSetNew : Z -> Z -> cl_blsSet;
  cl_blsSetAdd : cl_blsSet -> cl_blsShare -> res (bool * cl_blsSet);
  cl_blsSetEnough : cl_blsSet -> bool;
  cl_blsSetMerge : cl_blsSet -> res cl_blsSig
}.

(** The fields of [CryptoManager] that are set once. *)
Record crypto_config {L : crypto_libs} := {
  cm_isSGXEnabled : bool;
  cm_isSyncNode : bool;
  cm_verifyRealSignatures : bool;
  cm_totalSigners : Z;
  cm_requiredSigners : Z;
  cm_schainID : Z;
  cm_schainIndex : Z;
  cm_nodeIDs : list Z;
  cm_sgxECDSAKeyName : string;
  cm_sgxBlsKeyName : string;
  cm_ecdsaPublicKeyMap : gmap Z string;
  cm_historicECDSAPublicKeys : gmap Z string;
  cm_historicNodeGroups : gmap Z (list Z);
  cm_sgxBLSPublicKey : option (cl_blsKey L);
  cm_previousBlsPublicKeys : gmap Z (cl_blsKey L);
  cm_blsPublicKeySharesMapByIndex : gmap Z (list string);
  cm_simulateBLSSigFailBlock : Z
}.
Arguments crypto_config : clear implicits.

Record crypto_state {L : crypto_libs} {W : wallet_env} := mkCrypto {
  cs_wallet : wallet_state W;
  cs_sessionKeys : lru_cache Z (cl_edKey L * string * string);
  cs_sessionPublicKeys : lru_cache string string;
  cs_generated : Z
}.
Arguments crypto_state : clear implicits.
Arguments mkCrypto {_ _}.

(** ** Text *)

(** Before and after the first occurrence of a character. *)
Fixpoint cut (c : ascii) (s : string) : option (string * string) :=
  match s with
  | EmptyString => None
  | String d s =>
      if Ascii.eqb d c then Some (EmptyString, s)
      else '(x, y) ← cut c s; Some (String d x, y)
  end.

(** [boost::lexical_cast< uint64_t >]: an optional sign and digits; a negative
    number wraps around. *)
Definition lexical_cast_u64 (s : string) : res Z :=
  let '(neg, s) :=
    match s with
    | String c s' =>
        if char_code c =? 45 then (true, s')
        else if char_code c =? 43 then (false, s') else (false, s)
    | EmptyString => (false, s)
    end in
  if bool_decide (s = ""%string) || negb (all_digits s) then Err StdBadCast
  else
    let v := (read_digits s 0 false).1 in
    if 2 ^ 64 <=? v then Err StdBadCast
    else Ok (if (neg : bool) then u64 (- v) else v).

Definition stoi (s : string) : res Z :=
  let s := skip_spaces s in
  let '(neg, s) :=
    match s with
    | String c s' =>
        if char_code c =? 45 then (true, s')
        else if char_code c =? 43 then (false, s') else (false, s)
    | EmptyString => (false, s)
    end in
  let '(v, seen) := read_digits s 0 false in
  let v := if (neg : bool) then - v else v in
  if negb seen then Err InvalidArgumentException
  else if (v <? - 2 ^ 31) || (2 ^ 31 <=? v) then Err StdOutOfRange
  else Ok v.

(** A missing port is reported by [substr]. *)
Definition parseSGXDomainAndPort (url : string) : res (string * Z) :=
  rcheck InvalidArgumentException (bool_decide (url <> ""%string)) ;;
  match cut ":" url with
  | None => Err InvalidStateException
  | Some (_, rest) =>
      rest ← substr2 rest;
      match cut ":" rest with
      | None => Err StdOutOfRange
      | Some (domain, port) =>
          n ← rnested_all InvalidStateException (stoi port);
          Ok (domain, u64 n)
      end
  end.

(** ** Maps by finish time *)

(** [upper_bound] and the entry before it. *)
Fixpoint upper_bound {A} (t : Z) (l : list (Z * A)) (prev : option A) : option (A * option A) :=
  match l with
  | [] => None
  | (k, a) :: l => if t <? k then Some (a, prev) else upper_bound t l (Some a)
  end.

Definition groups_at {A} (m : gmap Z A) (t : Z) : option (A * option A) := upper_bound t (map_items m) None.

Definition NO_TIME : Z := 2 ^ 64 - 1.

Section CryptoManager.
Context (L : crypto_libs) (W : wallet_env) (C : crypto_config L) (parseSpec : string -> res unit).
Local Abbreviation state := (crypto_state L W).
Local Abbreviation blake3 := (cl_blake3 L).

Definition set_wallet (w : wallet_state W) (s : state) : state :=
  mkCrypto w (cs_sessionKeys s) (cs_sessionPublicKeys s) (cs_generated s).
Definition set_sessionKeys c (s : state) : state :=
  mkCrypto (cs_wallet s) c (cs_sessionPublicKeys s) (cs_generated s).
Definition set_sessionPublicKeys c (s : state) : state :=
  mkCrypto (cs_wallet s) (cs_sessionKeys s) c (cs_generated s).
Definition set_generated n (s : state) : state :=
  mkCrypto (cs_wallet s) (cs_sessionKeys s) (cs_sessionPublicKeys s) n.

Definition on_wallet {A} (c : M (wallet_state W) A) : M state A := zoom cs_wallet set_wallet c.
Definition on_sessionKeys {A} (c : M (lru_cache Z (cl_edKey L * string * string)) A) : M state A :=
  zoom cs_sessionKeys set_sessionKeys c.
Definition on_publicKeys {A} (c : M (lru_cache string string) A) : M state A :=
  zoom cs_sessionPublicKeys set_sessionPublicKeys c.

Definition newCrypto (events : list (bool * wallet_event)) : state :=
  mkCrypto (newWallet W events) (lru_new SESSION_KEY_CACHE_SIZE) (lru_new SESSION_PUBLIC_KEY_CACHE_SIZE) 0.

(** ** Keys *)

(** The iterator is dereferenced without a comparison with [end()]; here a
    time after the last group is an error. *)
Definition getSgxBlsPublicKey (timestamp : Z) : res (cl_blsKey L * option (cl_blsKey L)) :=
  if (timestamp =? NO_TIME) || (zsize (cm_previousBlsPublicKeys C) <? 2) then
    match cm_sgxBLSPublicKey C with
    | Some key => Ok (key, None)
    | None => Err InvalidStateException
    end
  else
    match groups_at (cm_previousBlsPublicKeys C) timestamp with
    | Some keys => Ok keys
    | None => Err FatalError
    end.

(** The result is empty when there is no key. *)
Definition getECDSAHistoricPublicKeyForNodeId (nodeId timeStamp : Z) : res string :=
  groups ← (if timeStamp =? NO_TIME
            then Ok ((fun g => (g, None)) <$> cm_historicNodeGroups C !! timeStamp)
            else match groups_at (cm_historicNodeGroups C) timeStamp with
                 | Some groups => Ok (Some groups)
                 | None => Err FatalError
                 end);
  match groups with
  | None => Ok ""%string
  | Some (group, before) =>
      if bool_decide (nodeId ∈ group) || bool_decide (nodeId ∈ default [] before)
      then Ok (default ""%string (cm_historicECDSAPublicKeys C !! nodeId))
      else Ok ""%string
  end.

Definition getECDSAPublicKeyForNodeId (nodeId timeStamp : Z) : res string :=
  match cm_ecdsaPublicKeyMap C !! nodeId with
  | Some key => Ok key
  | None => getECDSAHistoricPublicKeyForNodeId nodeId timeStamp
  end.

(** [Schain::getNodeIDByIndex]; the index 0 is a null pointer. *)
Definition cm_getNodeIDByIndex (index : Z) : res Z :=
  rcheck InvalidArgumentException (index <=? zlen (cm_nodeIDs C)) ;;
  match cm_nodeIDs C !! Z.to_nat (index - 1) with
  | Some id => rcheck FatalError (0 <? index) ;; Ok id
  | None => Err FatalError
  end.

(** [operator[]] of a vector; past its end here an error. *)
Definition node_at (group : list Z) (index : Z) : res Z :=
  match group !! Z.to_nat (u64 (index - 1)) with Some id => Ok id | None => Err FatalError end.

Definition getHistoricNodeIDByIndex (index timeStamp : Z) : res (Z * Z) :=
  if (timeStamp =? NO_TIME) || (zsize (cm_historicNodeGroups C) <? 2) then
    nodeId ← cm_getNodeIDByIndex index;
    Ok (nodeId, NO_TIME)
  else
    match groups_at (cm_historicNodeGroups C) timeStamp with
    | None => Err FatalError
    | Some (group, None) => nodeId ← node_at group index; Ok (nodeId, NO_TIME)
    | Some (group, Some before) =>
        nodeId1 ← node_at group index;
        nodeId2 ← node_at before index;
        Ok (nodeId1, nodeId2)
    end.

(** ** ECDSA *)

(** [OpenSSLECDSAKey::importSGXPubKey]: two coordinates in hexadecimal. *)
Definition importSGXPubKey (publicKey : string) : res (cl_ecKey L) :=
  rcheck InvalidArgumentException (bool_decide (publicKey <> ""%string)) ;;
  rcheck StdOutOfRange (64 <=? Z.of_nat (String.length publicKey)) ;;
  match cl_ecPoint L (String.substring 0 64 publicKey) (String.substring 64 128 publicKey) with
  | Some key => Ok key
  | None => Err InvalidStateException
  end.

(** [OpenSSLECDSAKey::verifySGXSig]: [v:r:s]. *)
Definition verifySGXSig (key : cl_ecKey L) (sig : string) (hash : list Z) : res unit :=
  rcheck InvalidStateException
    match cut ":" sig with
    | None | Some (_, EmptyString) => false
    | Some (_, rest) =>
        match cut ":" rest with
        | None | Some (_, EmptyString) => false
        | Some (r, s) => negb (bool_decide (r = s)) && cl_ecVerify L key r s hash
        end
    end.

Definition verifyECDSA (hash : list Z) (sig publicKey : string) : res unit :=
  key ← importSGXPubKey publicKey;
  rnested_all InvalidStateException (verifySGXSig key sig hash).

(** A real signature that arrives in test mode ends the process; here it is
    refused. *)
Definition verifyECDSASig (hash : list Z) (sig : string) (nodeId timeStamp : Z) : res unit :=
  rcheck InvalidArgumentException (bool_decide (sig <> ""%string)) ;;
  rnested_all InvalidStateException
    (if cm_isSGXEnabled C then
       pubKey ← getECDSAPublicKeyForNodeId nodeId timeStamp;
       rcheck InvalidStateException (bool_decide (pubKey <> ""%string)) ;;
       rnested_all InvalidStateException (verifyECDSA hash sig pubKey)
     else if cm_isSyncNode C then Ok tt
     else
       rcheck FatalError (negb (has_char ":" sig)) ;;
       rcheck InvalidStateException (bool_decide (sig = toHex hash))).

Definition sign (hash : list Z) : M state string :=
  if cm_isSGXEnabled C then
    CHECK_STATE (bool_decide (cm_sgxECDSAKeyName C <> ""%string)) ;;
    on_wallet (sgxSignECDSA W hash (cm_sgxECDSAKeyName C))
  else mret (toHex hash).

Definition hashForOracle (text : string) : string := toHex (cl_keccak L (string_bytes text)).

(** The result of the oracle is always signed over ZeroMQ. *)
Definition signOracleResult (text : string) : M state string :=
  if cm_isSGXEnabled C then
    CHECK_STATE (bool_decide (cm_sgxECDSAKeyName C <> ""%string)) ;;
    on_wallet (ecdsaSignMessageHash W 16 (cm_sgxECDSAKeyName C) (hashForOracle text) true)
  else mret (hashForOracle text).

(** ** Session keys *)
Definition keyHash (publicKey : string) (blockID : Z) : list Z :=
  blake3 (le_bytes 8 blockID ++ string_bytes publicKey).

Definition localGenerateFastKey : M state (cl_edKey L * string) :=
  s ← get;
  modify (set_generated (cs_generated s + 1)) ;;
  let key := cl_edGenerate L (cs_generated s) in
  mret (key, cl_edPublic L key).

Definition signSessionECDSA (hash : list Z) (blockID : Z) : M state (string * string * string) :=
  known ← on_sessionKeys (lru_getIfExists blockID);
  '(privateKey, publicKey, pkSig) ←
    match known with
    | Some (privateKey, publicKey, pkSig) =>
        CHECK_STATE (bool_decide (publicKey <> ""%string)) ;;
        CHECK_STATE (bool_decide (pkSig <> ""%string)) ;;
        mret (privateKey, publicKey, pkSig)
    | None =>
        '(privateKey, publicKey) ← localGenerateFastKey;
        CHECK_STATE (bool_decide (cm_sgxECDSAKeyName C <> ""%string)) ;;
        pkSig ← on_wallet (sgxSignECDSA W (keyHash publicKey blockID) (cm_sgxECDSAKeyName C));
        CHECK_STATE (bool_decide (pkSig <> ""%string)) ;;
        on_sessionKeys (lru_put blockID (privateKey, publicKey, pkSig)) ;;
        mret (privateKey, publicKey, pkSig)
    end;
  mret (cl_edSign L privateKey hash, publicKey, pkSig).

(** [CryptoManager::signSession]. *)
Definition cm_signSession (hash : list Z) (blockId : Z) : M state (string * string * string) :=
  if cm_isSGXEnabled C then
    '(signature, pubKey, pkSig) ← signSessionECDSA hash blockId;
    CHECK_STATE (bool_decide (signature <> ""%string)) ;;
    CHECK_STATE (bool_decide (pubKey <> ""%string)) ;;
    CHECK_STATE (bool_decide (pkSig <> ""%string)) ;;
    mret (signature, pubKey, pkSig)
  else mret (toHex hash, ""%string, ""%string).

(** [OpenSSLEdDSAKey::importPubKey] and [verifySig]. *)
Definition verifyEdDSA (publicKey sig : string) (hash : list Z) : res unit :=
  rcheck InvalidStateException (bool_decide (publicKey <> ""%string)) ;;
  rcheck InvalidStateException (cl_edVerify L publicKey sig hash).

(** ** Shares *)
Record EdDSASigShare := mkEdShare {
  es_text : string;
  es_blockId : Z;
  es_timestamp : Z;
  es_signerIndex : Z;
  es_sig : string;
  es_publicKey : string;
  es_pkSig : string
}.

Inductive SigShare :=
  | EdDSAShare (s : EdDSASigShare)
  | BLSShare (s : cl_blsShare L) (blockId signerIndex : Z)
  | MockupShare (text : string) (blockId signerIndex : Z).

Definition mkEdDSASigShare (sigShare : string) (blockID timestamp totalSigners : Z) : res EdDSASigShare :=
  match boost_tokens ";" sigShare with
  | [t0; t1; t2; t3] =>
      signerIndex ← lexical_cast_u64 t0;
      rcheck InvalidStateException (0 <? signerIndex) ;;
      rcheck InvalidStateException (signerIndex <=? totalSigners) ;;
      Ok (mkEdShare sigShare blockID timestamp signerIndex t1 t2 t3)
  | _ => Err InvalidStateException
  end.

Definition mkMockupSigShare (sigShare : string) (blockID signerIndex : Z) : res SigShare :=
  rcheck InvalidArgumentException (bool_decide (sigShare <> ""%string)) ;;
  rcheck InvalidArgumentException (cm_requiredSigners C <=? cm_totalSigners C) ;;
  Ok (MockupShare sigShare blockID signerIndex).

Definition mkBLSSigShare (sigShare : string) (blockID signerIndex : Z) : res SigShare :=
  rcheck InvalidArgumentException (bool_decide (sigShare <> ""%string)) ;;
  s ← rnested_all InvalidStateException
        (cl_blsShareOf L sigShare signerIndex (cm_requiredSigners C) (cm_totalSigners C));
  Ok (BLSShare s blockID signerIndex).

Definition getSignerIndex (s : SigShare) : Z :=
  match s with
  | EdDSAShare s => es_signerIndex s
  | BLSShare _ _ i | MockupShare _ _ i => i
  end.

Definition shareString (s : SigShare) : res string :=
  match s with
  | EdDSAShare s => Ok (es_text s)
  | BLSShare s _ _ => rnested_all InvalidStateException (cl_blsShareText L s)
  | MockupShare t _ _ => rcheck InvalidStateException (bool_decide (t <> ""%string)) ;; Ok t
  end.

Definition shareHash (s : SigShare) : res (list Z) :=
  t ← shareString s;
  Ok (blake3 (string_bytes t)).

Definition createSigShare (sigShare : string) (schainID blockID signerIndex : Z) (forceMockup : bool) :
    res SigShare :=
  rcheck InvalidArgumentException (bool_decide (sigShare <> ""%string)) ;;
  rcheck InvalidStateException (cm_requiredSigners C <=? cm_totalSigners C) ;;
  if cm_isSGXEnabled C && negb forceMockup then mkBLSSigShare sigShare blockID signerIndex
  else mkMockupSigShare sigShare blockID signerIndex.

Definition createDAProofSigShare (sigShare : string) (blockID signerIndex timestamp : Z) (forceMockup : bool) :
    res SigShare :=
  rcheck InvalidArgumentException (bool_decide (sigShare <> ""%string)) ;;
  if cm_isSGXEnabled C && negb forceMockup
  then s ← mkEdDSASigShare sigShare blockID timestamp (cm_totalSigners C); Ok (EdDSAShare s)
  else mkMockupSigShare sigShare blockID signerIndex.

(** ** Verification of session signatures

    [NetMessages] models it for any crypto manager; this is the one here. *)
Definition cm_net (signSession : list Z -> Z -> res (string * string * string)) : net_crypto SigShare :=
  {| nc_blake3 := blake3;
     nc_write := wl_write W;
     nc_parse := wl_parse W;
     nc_createSigShare := createSigShare;
     nc_isSGXEnabled := cm_isSGXEnabled C;
     nc_isSyncOnlyNode := cm_isSyncNode C;
     nc_signSessionECDSA := signSession;
     nc_verifyECDSASig := verifyECDSASig;
     nc_verifyEdDSA := verifyEdDSA;
     nc_parseSpec := parseSpec |}.

(** Verification does not sign. *)
Definition verifier : net_crypto SigShare := cm_net (fun _ _ => Err InvalidStateException).

Definition ed_verify (s : EdDSASigShare) (hash : list Z) (schainIndex : Z) : M state unit :=
  nested_all InvalidStateException
    (ids ← lift_res (getHistoricNodeIDByIndex schainIndex (es_timestamp s));
     on_publicKeys (verifySessionSigAndKey verifier hash (es_sig s) (es_publicKey s) (es_pkSig s)
       (es_blockId s) ids (es_timestamp s))).

(** ** Sets of shares and threshold signatures *)
Record EdDSASignature := mkEdSignature {
  eg_text : string;
  eg_shares : gmap Z EdDSASigShare
}.

Inductive Signature :=
  | EdDSASig (s : EdDSASignature)
  | BLSSig (s : cl_blsSig L) (blockId : Z)
  | MockupSig (text : string) (blockId : Z).

Inductive SigShareSet :=
  | EdDSASet (blockId timestamp : Z) (m : gmap Z string)
  | BLSSet (blockId : Z) (s : cl_blsSet L)
  | MockupSet (blockId : Z) (m : gmap Z string).

(** The loop of the constructor [ConsensusEdDSASignature]. *)
Fixpoint collectSignature (tokens : list string) (blockId timestamp totalSigners : Z)
    (shares : gmap Z EdDSASigShare) : res (gmap Z EdDSASigShare) :=
  match tokens with
  | [] => Ok shares
  | t :: tokens =>
      share ← mkEdDSASigShare t blockId timestamp totalSigners;
      rcheck InvalidStateException (bool_decide (shares !! es_signerIndex share = None)) ;;
      collectSignature tokens blockId timestamp totalSigners (<[es_signerIndex share := share]> shares)
  end.

Definition mkEdDSASignature (mergedSig : string) (blockId timestamp totalSigners requiredSigners : Z) :
    res EdDSASignature :=
  rcheck InvalidArgumentException (bool_decide (mergedSig <> ""%string)) ;;
  shares ← collectSignature (boost_tokens "*" mergedSig) blockId timestamp totalSigners ∅;
  rcheck InvalidArgumentException (zsize shares =? requiredSigners) ;;
  Ok (mkEdSignature mergedSig shares).

Definition mkBLSSignature (sig : string) (blockId : Z) : res Signature :=
  rcheck InvalidArgumentException (bool_decide (sig <> ""%string)) ;;
  s ← rnested_all InvalidStateException (cl_blsSigOf L sig (cm_requiredSigners C) (cm_totalSigners C));
  Ok (BLSSig s blockId).

Definition signatureString (s : Signature) : res string :=
  match s with
  | EdDSASig s => Ok (eg_text s)
  | BLSSig s _ => rnested_all InvalidStateException (cl_blsSigText L s)
  | MockupSig t _ => rcheck InvalidStateException (bool_decide (t <> ""%string)) ;; Ok t
  end.

(** The random number of the common coin; [None] for the class that has none. *)
Definition getRandom (s : Signature) : option (res Z) :=
  match s with
  | EdDSASig _ => None
  | BLSSig s _ => Some (rnested_all InvalidStateException (cl_blsRandom L s))
  | MockupSig _ bi => Some (Ok (u64 (u64 (bi * bi) mod 3 + bi)))
  end.

Definition createSigShareSet (blockId : Z) : res SigShareSet :=
  if cm_isSGXEnabled C then Ok (BLSSet blockId (cl_blsSetNew L (cm_requiredSigners C) (cm_totalSigners C)))
  else
    rcheck InvalidArgumentException (0 <? cm_requiredSigners C) ;;
    rcheck InvalidArgumentException (cm_requiredSigners C <=? cm_totalSigners C) ;;
    Ok (MockupSet blockId ∅).

Definition createDAProofSigShareSet (blockId timestamp : Z) : res SigShareSet :=
  if cm_isSGXEnabled C then Ok (EdDSASet blockId timestamp ∅)
  else
    rcheck InvalidArgumentException (0 <? cm_requiredSigners C) ;;
    rcheck InvalidArgumentException (cm_requiredSigners C <=? cm_totalSigners C) ;;
    Ok (MockupSet blockId ∅).

Definition set_isEnough (s : SigShareSet) : bool :=
  match s with
  | EdDSASet _ _ m | MockupSet _ m => cm_requiredSigners C <=? zsize m
  | BLSSet _ s => cl_blsSetEnough L s
  end.

Definition addSigShare (set : SigShareSet) (share : SigShare) : res (bool * SigShareSet) :=
  match set, share with
  | EdDSASet b t m, EdDSAShare s =>
      if bool_decide (is_Some (m !! es_signerIndex s)) then Ok (false, set)
      else Ok (true, EdDSASet b t (<[es_signerIndex s := es_text s]> m))
  | BLSSet b m, BLSShare s _ _ =>
      '(added, m) ← cl_blsSetAdd L m s;
      Ok (added, BLSSet b m)
  | MockupSet b m, _ =>
      if set_isEnough set then Ok (false, set)
      else if bool_decide (is_Some (m !! getSignerIndex share)) then Ok (false, set)
      else
        match share with
        | MockupShare t _ i => Ok (true, MockupSet b (<[i := t]> m))
        | _ => Err InvalidStateException
        end
  | _, _ => Err InvalidStateException
  end.

(** The shares, each followed by an asterisk. *)
Fixpoint star_join (l : list string) : string :=
  match l with
  | [] => ""
  | s :: l => s +:+ String "*" (star_join l)
  end.

Fixpoint pop_back_char (s : string) : string :=
  match s with
  | EmptyString | String _ EmptyString => EmptyString
  | String c s => String c (pop_back_char s)
  end.

Definition mergeSignature (set : SigShareSet) : res Signature :=
  match set with
  | EdDSASet blockId timestamp m =>
      rcheck InvalidStateException (set_isEnough set) ;;
      let mergedSig := pop_back_char (star_join (map_items m).*2) in
      rcheck InvalidStateException (bool_decide (mergedSig <> ""%string)) ;;
      s ← mkEdDSASignature mergedSig blockId timestamp (cm_totalSigners C) (cm_requiredSigners C);
      Ok (EdDSASig s)
  | BLSSet blockId s =>
      rcheck InvalidStateException (set_isEnough set) ;;
      sig ← cl_blsSetMerge L s;
      Ok (BLSSig sig blockId)
  | MockupSet blockId m =>
      h ← match (map_items m).*2 with
          | [] => Ok ""%string
          | t :: _ => rcheck InvalidStateException (bool_decide (t <> ""%string)) ;; Ok t
          end;
      rcheck InvalidStateException (bool_decide (h <> ""%string)) ;;
      Ok (MockupSig h blockId)
  end.

(** ** Signing *)
Definition signDAProofSigShare (hash : list Z) (blockId timestamp : Z) (forceMockup : bool) : M state SigShare :=
  if cm_isSGXEnabled C && negb forceMockup then
    '(sig, publicKey, pkSig) ← signSessionECDSA hash blockId;
    let share := to_string (cm_schainIndex C) +:+ ";" +:+ sig +:+ ";" +:+ publicKey +:+ ";" +:+ pkSig in
    s ← lift_res (mkEdDSASigShare share blockId timestamp (cm_totalSigners C));
    mret (EdDSAShare s)
  else lift_res (mkMockupSigShare (toHex hash) blockId (cm_schainIndex C)).

Definition signDAProof (p : BlockProposal) : M state (SigShare * string * string * string) :=
  sigShare ← signDAProofSigShare (bp_hash p) (bp_blockID p) (bp_timeStamp p) false;
  h ← lift_res (shareHash sigShare);
  '(ecdsaSig, pubKey, pubKeySig) ← cm_signSession (merkleTreeMerge blake3 (bp_hash p) h) (bp_blockID p);
  mret (sigShare, ecdsaSig, pubKey, pubKeySig).

Definition signSigShare (hash : list Z) (blockId : Z) (forceMockup : bool) : M state SigShare :=
  if cm_isSGXEnabled C && negb forceMockup then
    CHECK_STATE (bool_decide (cm_sgxBlsKeyName C <> ""%string)) ;;
    sigShare ← on_wallet (sgxSignBLS W hash (cm_sgxBlsKeyName C) (cm_requiredSigners C) (cm_totalSigners C));
    s ← lift_res (cl_blsShareOf L sigShare (cm_schainIndex C) (cm_requiredSigners C) (cm_totalSigners C));
    mret (BLSShare s blockId (cl_blsShareIndex L s))
  else lift_res (mkMockupSigShare (toHex hash) blockId (cm_schainIndex C)).

Definition signBinaryConsensusSigShare (hash : list Z) (blockId round : Z) : M state SigShare :=
  signSigShare hash blockId (round <? COMMON_COIN_ROUND).

Definition signBlockSigShare (hash : list Z) (blockId : Z) : M state SigShare :=
  signSigShare hash blockId false.

(** The signature that the proposal gets. *)
Definition signProposal (p : BlockProposal) : M state BlockProposal :=
  signature ← sign (bp_hash p);
  CHECK_STATE (bool_decide (signature <> ""%string)) ;;
  mret {| bp_schainID := bp_schainID p; bp_proposerNodeID := bp_proposerNodeID p; bp_blockID := bp_blockID p;
          bp_proposerIndex := bp_proposerIndex p; bp_timeStamp := bp_timeStamp p;
          bp_timeStampMs := bp_timeStampMs p; bp_stateRoot := bp_stateRoot p;
          bp_transactionList := bp_transactionList p; bp_hash := bp_hash p; bp_signature := signature |}.

(** ** Verification *)
Definition verifyDAProofSigShare (sigShare : SigShare) (schainIndex : Z) (hash : list Z) (forceMockup : bool) :
    M state unit :=
  nested_all InvalidStateException
    (if cm_isSGXEnabled C && negb forceMockup then
       match sigShare with
       | EdDSAShare s =>
           CHECK_STATE (es_signerIndex s =? schainIndex) ;;
           ed_verify s hash schainIndex
       | _ => throw InvalidStateException
       end
     else mret tt).

(** [ConsensusEdDSASignature::verify]: the shares in the order of the signers. *)
Definition ed_verifySignature (sig : EdDSASignature) (hash : list Z) : M state unit :=
  nested_all InvalidStateException (mapM_ (fun x => ed_verify x.2 hash x.1) (map_items (eg_shares sig))).

Definition verifyDAProofThresholdSig (hash : list Z) (signature : string) (blockId timestamp : Z) :
    M state Signature :=
  CHECK_ARGUMENT (bool_decide (signature <> ""%string)) ;;
  nested_all InvalidStateException
    (if cm_verifyRealSignatures C then
       sig ← lift_res (mkEdDSASignature signature blockId timestamp (cm_totalSigners C) (cm_requiredSigners C));
       ed_verifySignature sig hash ;;
       mret (EdDSASig sig)
     else
       CHECK_STATE (cm_isSyncNode C || bool_decide (signature = toHex hash)) ;;
       mret (MockupSig signature blockId)).

(** With the key of the group at that time, or of the group before. *)
Definition verifyThresholdSig (signature : Signature) (hash : list Z) (ts : TimeStamp) : res unit :=
  rnested_all InvalidStateException
    (if cm_verifyRealSignatures C then
       match signature with
       | BLSSig s _ =>
           '(first, second) ← getSgxBlsPublicKey (ts_s ts);
           if cl_blsVerify L first hash s then Ok tt
           else
             match second with
             | None => Err InvalidStateException
             | Some second => rcheck InvalidStateException (cl_blsVerify L second hash s)
             end
       | _ => Err InvalidStateException
       end
     else Ok tt).

Definition verifyBlockSig (sigStr : string) (blockId : Z) (hash : list Z) (ts : TimeStamp) : res unit :=
  rnested_all InvalidStateException
    (rcheck InvalidSignatureException
       (negb ((0 <? cm_simulateBLSSigFailBlock C) && (cm_simulateBLSSigFailBlock C =? blockId))) ;;
     if cm_verifyRealSignatures C then
       signature ← mkBLSSignature sigStr blockId;
       verifyThresholdSig signature hash ts
     else Ok tt).

(** The first check looks up whether the index is positive, as a number. *)
Definition verifyBlsSigShare (s : cl_blsShare L) (hash : list Z) : res unit :=
  let keys := cm_blsPublicKeySharesMapByIndex C in
  let i := cl_blsShareIndex L s in
  rnested_all InvalidStateException
    (rcheck InvalidStateException (zsize keys =? zlen (cm_nodeIDs C)) ;;
     rcheck InvalidStateException (bool_decide (is_Some (keys !! (if 0 <? i then 1 else 0)))) ;;
     match keys !! i with
     | None => Err StdOutOfRange
     | Some key =>
         ok ← rnested_all InvalidStateException
                (cl_blsShareVerify L key hash s (cm_requiredSigners C) (cm_totalSigners C));
         rcheck InvalidStateException ok
     end).

Definition cm_verifyThresholdSigShare (sigShare : SigShare) (hash : list Z) : res unit :=
  rcheck InvalidStateException (negb (cm_isSyncNode C)) ;;
  rnested_all InvalidStateException
    (if cm_isSGXEnabled C then
       match sigShare with
       | BLSShare s _ _ => verifyBlsSigShare s hash
       | _ => Err InvalidStateException
       end
     else Ok tt).

(** ** Collecting the shares of a proposal

    What [DASigShareDB::addAndMergeSigShareAndVerifySig] calls. *)
Fixpoint addDAShares (shares : list SigShare) (set : SigShareSet) : res SigShareSet :=
  match shares with
  | [] => Ok set
  | share :: shares =>
      '(_, set) ← addSigShare set share;
      addDAShares shares set
  end.

Definition mergeDAShares (blockId timestamp : Z) (shares : list SigShare) : res string :=
  set ← createDAProofSigShareSet blockId timestamp;
  set ← addDAShares shares set;
  sig ← mergeSignature set;
  signatureString sig.

Definition createDAShare (sigShare : string) (blockID signerIndex timestamp : Z) : res SigShare :=
  createDAProofSigShare sigShare blockID signerIndex timestamp false.
End CryptoManager.

(** ** Construction *)

(** What the constructor takes from the node. *)
Record node_config {L : crypto_libs} := {
  nd_sgxEnabled : bool;
  nd_isSyncNode : bool;
  nd_nodeID : Z;
  nd_totalSigners : Z;
  nd_requiredSigners : Z;
  nd_schainID : Z;
  nd_schainIndex : Z;
  nd_nodeIDs : list Z;
  nd_ecdsaPublicKeys : option (list string);
  nd_blsPublicKey : option (cl_blsKey L);
  nd_previousBLSPublicKeys : gmap Z (cl_blsKey L);
  nd_historicECDSAPublicKeys : gmap Z string;
  nd_historicNodeGroups : gmap Z (list Z);
  nd_sgxUrl : string;
  nd_ecdsaKeyName : string;
  nd_blsKeyName : string;
  nd_blsPublicKeys : option (list (list string));
  nd_simulateBLSSigFailBlock : Z
}.
Arguments node_config : clear implicits.

Definition nd_verifyRealSignatures {L} (n : node_config L) : bool :=
  nd_sgxEnabled n || (nd_isSyncNode n && bool_decide (is_Some (nd_blsPublicKey n))).

(** [vector::at] for consecutive indices. *)
Fixpoint populate {A} (ids : list Z) (values : list A) (m : gmap Z A) : res (gmap Z A) :=
  match ids, values with
  | [], _ => Ok m
  | _ :: _, [] => Err StdOutOfRange
  | id :: ids, v :: values => populate ids values (<[id := v]> m)
  end.

(** [sgxURL] without a final slash. *)
Definition trimURL (url : string) : string :=
  if back_is 47 (string_bytes url) then pop_back_char url else url.

Definition getSGXEcdsaPublicKey (W : wallet_env) (keyName : string) : M (wallet_state W) string :=
  CHECK_ARGUMENT (bool_decide (keyName <> ""%string)) ;;
  result ← httpCall W false (<["keyName"%string := JStr keyName]> (<["type"%string := JStr "getPublicECDSAKey"]> ∅));
  lift_res (checkSGXStatus result) ;;
  lift_res (json_string result "publicKey").

Definition mkCryptoManager (L : crypto_libs) (W : wallet_env) (n : node_config L) :
    M (wallet_state W) (crypto_config L) :=
  CHECK_ARGUMENT (nd_requiredSigners n <=? nd_totalSigners n) ;;
  let real := nd_verifyRealSignatures n in
  keyMap ← (if real then
              match nd_ecdsaPublicKeys n with
              | None => throw InvalidStateException
              | Some keys =>
                  CHECK_STATE (bool_decide (is_Some (nd_blsPublicKey n))) ;;
                  lift_res (populate (nd_nodeIDs n) keys ∅)
              end
            else mret ∅);
  blsShares ← (if nd_sgxEnabled n then
                 lift_res (parseSGXDomainAndPort (trimURL (nd_sgxUrl n))) ;;
                 CHECK_STATE (bool_decide (nd_ecdsaKeyName n <> ""%string)) ;;
                 CHECK_STATE (bool_decide (nd_blsKeyName n <> ""%string)) ;;
                 match nd_blsPublicKeys n with
                 | None => throw InvalidStateException
                 | Some shares =>
                     CHECK_STATE (zlen (boost_tokens ":" (nd_blsKeyName n)) =? 7) ;;
                     CHECK_STATE (zlen (boost_tokens ":" (nd_ecdsaKeyName n)) =? 2) ;;
                     m ← lift_res (populate (seqZ 1 (zlen (nd_nodeIDs n))) shares ∅);
                     onServer ← getSGXEcdsaPublicKey W (nd_ecdsaKeyName n);
                     match keyMap !! nd_nodeID n with
                     | None => throw StdOutOfRange
                     | Some inConfig => CHECK_STATE (bool_decide (onServer = inConfig)) ;; mret m
                     end
                 end
               else mret ∅);
  mret {| cm_isSGXEnabled := nd_sgxEnabled n; cm_isSyncNode := nd_isSyncNode n; cm_verifyRealSignatures := real;
          cm_totalSigners := nd_totalSigners n; cm_requiredSigners := nd_requiredSigners n;
          cm_schainID := nd_schainID n; cm_schainIndex := nd_schainIndex n; cm_nodeIDs := nd_nodeIDs n;
          cm_sgxECDSAKeyName := nd_ecdsaKeyName n; cm_sgxBlsKeyName := nd_blsKeyName n;
          cm_ecdsaPublicKeyMap := keyMap;
          cm_historicECDSAPublicKeys := if real then nd_historicECDSAPublicKeys n else ∅;
          cm_historicNodeGroups := if real then nd_historicNodeGroups n else ∅;
          cm_sgxBLSPublicKey := if real then nd_blsPublicKey n else None;
          cm_previousBlsPublicKeys := if real then nd_previousBLSPublicKeys n else ∅;
          cm_blsPublicKeySharesMapByIndex := blsShares;
          cm_simulateBLSSigFailBlock := nd_simulateBLSSigFailBlock n |}.
