(* ===== verification/CryptoTheorems.v ===== *)
(** * Theorems about signatures

    Which keys and shares [CryptoManager] accepts, that honest shares give a
    signature that verifies, and what one key can forge. *)

From stdpp Require Import base tactics gmap list strings sorting.
From Stdlib Require Import ZArith Lia Ascii.
From S2P Require Import Prelude Bytes Messages BinConsensus LruCache Transactions ProtocolDbs Blocks Headers NetMessages MessageTheorems SgxClient Crypto.

(** ** Tokens *)
Lemma star_join_tokens l : Forall (token "*") l -> boost_tokens "*" (star_join l) = l.
Proof.
  induction 1 as [|x l Hx _ IH]; [done|]. cbn [star_join]. by rewrite tokenize_app, IH, tokenize_token.
Qed.

Lemma pop_back_char_app x c : pop_back_char (x +:+ String c "") = x.
Proof.
  induction x as [|d x IH]; [done|]. change (String d x +:+ String c "") with (String d (x +:+ String c "")).
  cbn [pop_back_char]. rewrite IH. by destruct x.
Qed.

(** The merged text without its last asterisk has the same tokens. *)
Lemma pop_back_star l : l <> [] -> exists t, star_join l = t +:+ "*" /\ pop_back_char (star_join l) = t.
Proof.
  intros Hl. assert (exists t, star_join l = t +:+ "*") as [t Ht].
  { induction l as [|x l IH]; [done|]. destruct l as [|y l]; [by exists x|].
    destruct IH as [t Ht]; [done|]. exists (x +:+ String "*" t). cbn [star_join] in *. rewrite Ht.
    clear. induction x as [|d x IH]; [done|]. by apply (f_equal (String d)) in IH. }
  exists t. split; [done|]. rewrite Ht. apply pop_back_char_app.
Qed.

Lemma merged_tokens l : Forall (token "*") l -> boost_tokens "*" (pop_back_char (star_join l)) = l.
Proof.
  intros Hl. destruct (decide (l = [])) as [->|Hn]; [done|].
  destruct (pop_back_star l Hn) as (t & Ht & ->).
  rewrite <- (star_join_tokens l Hl) at 1. rewrite Ht, (tokenize_app "*" t ""). by rewrite app_nil_r.
Qed.

Lemma lexical_cast_to_string z : 0 <= z < 2 ^ 64 -> lexical_cast_u64 (to_string z) = Ok z.
Proof.
  intros Hz. unfold lexical_cast_u64. pose proof (to_string_digits z) as Hd. pose proof (to_string_nonempty z) as Hn.
  pose proof (read_digits_to_string z ltac:(lia)) as Hr. revert Hd Hn Hr.
  destruct (to_string z) as [|c s]; [done|]. intros Hd Hn Hr. pose proof Hd as Hd'. cbn [all_digits] in Hd'.
  destruct (digit_value c) eqn:Hc; [|done]. destruct (digit_not_special _ _ Hc) as (_ & H2 & H3).
  rewrite H2, H3, Hd, Hr. cbn [fst]. rewrite bool_decide_eq_false_2 by done. cbn [negb orb].
  by rewrite (proj2 (Z.leb_gt _ _)) by lia.
Qed.

(** ** Groups by finish time *)

(** The first entry of a sorted list that ends after [t], with the one before. *)
Lemma upper_bound_spec {A} t (l : list (Z * A)) prev a before :
  Sorted item_le l -> NoDup l.*1 ->
  upper_bound t l prev = Some (a, before) <->
  exists l1 k l2, l = l1 ++ (k, a) :: l2 /\ t < k /\ Forall (fun x => x.1 <= t) l1 /\
    before = match last l1 with Some x => Some x.2 | None => prev end.
Proof.
  intros Hs%Sorted_StronglySorted Hn; [|intros [] [] []; unfold item_le; cbn; lia]. revert prev.
  induction l as [|[k x] l IH]; intros prev; cbn [upper_bound].
  { split; [done|]. by intros ([] & ? & ? & ? & _). }
  apply StronglySorted_inv in Hs as [Hs Hk]. cbn in Hn. apply NoDup_cons in Hn as [_ Hn].
  specialize (IH Hs Hn). destruct (Z.ltb_spec t k) as [Hlt|Hge].
  - split.
    + intros [= -> ->]. by exists [], k, l.
    + intros ([|[k1 x1] l1] & k' & l2 & Heq & Ht & Hall & ->); cbn in Heq; injection Heq as -> -> ->; [done|].
      apply Forall_cons in Hall as [Hk1 _]. cbn in Hk1. lia.
  - rewrite IH. split.
    + intros (l1 & k' & l2 & -> & Ht & Hall & ->). exists ((k, x) :: l1), k', l2.
      split_and!; [done|done|by constructor|]. rewrite last_cons. by destruct (last l1).
    + intros ([|[k1 x1] l1] & k' & l2 & Heq & Ht & Hall & ->); cbn in Heq; injection Heq as -> -> ->; [lia|].
      apply Forall_cons in Hall as [_ Hall]. exists l1, k', l2. split_and!; [done|done|done|].
      rewrite last_cons. by destruct (last l1).
Qed.

(** The group in charge at a time: the one that finishes next. *)
Definition in_charge {A} (m : gmap Z A) (t k : Z) (a : A) : Prop :=
  m !! k = Some a /\ t < k /\ forall k', is_Some (m !! k') -> k' <= t \/ k <= k'.

(** The group before: the last one that has finished. *)
Definition finished_last {A} (m : gmap Z A) (t : Z) (before : option A) : Prop :=
  match before with
  | None => forall k', is_Some (m !! k') -> t < k'
  | Some b => exists k, m !! k = Some b /\ k <= t /\ forall k', is_Some (m !! k') -> k' <= k \/ t < k'
  end.

Lemma groups_at_sound {A} (m : gmap Z A) t a before :
  groups_at m t = Some (a, before) -> (exists k, in_charge m t k a) /\ finished_last m t before.
Proof.
  unfold groups_at. rewrite upper_bound_spec; [|apply map_items_sorted|apply NoDup_map_items_keys].
  intros (l1 & k & l2 & Hm & Ht & Hl1 & ->).
  pose proof (map_items_sorted m) as Hs. rewrite Hm in Hs.
  apply Sorted_StronglySorted in Hs; [|intros [] [] []; unfold item_le; cbn; lia].
  assert (forall k', is_Some (m !! k') -> (exists x, (k', x) ∈ l1) \/ k <= k') as Hk.
  { intros k' [x Hx%elem_of_map_items]. rewrite Hm in Hx. apply elem_of_app in Hx as [Hx|Hx]; [by eauto|right].
    apply StronglySorted_app in Hs as (_ & _ & Hs). apply StronglySorted_inv in Hs as [_ Hs].
    apply elem_of_cons in Hx as [[= -> _]|Hx]; [done|]. by eapply Forall_forall in Hs; [|exact Hx]. }
  rewrite Forall_forall in Hl1. split.
  - exists k. split_and!; [apply elem_of_map_items; rewrite Hm; set_solver|done|].
    intros k' [[x Hx]|?]%Hk; [|by right]. left. by apply Hl1 in Hx.
  - destruct (last l1) as [[k0 b]|] eqn:Hlast; cbn.
    + apply last_Some in Hlast as [l0 ->]. exists k0. split_and!.
      * apply elem_of_map_items. rewrite Hm. set_solver.
      * apply (Hl1 (k0, b)). set_solver.
      * intros k' [[x Hx]|?]%Hk; [|right; lia]. left.
        rewrite <- app_assoc in Hs. apply elem_of_app in Hx as [Hx|Hx%list_elem_of_singleton].
        -- apply StronglySorted_app in Hs as (Hs & _ & _). apply (Hs (k', x) (k0, b)); set_solver.
        -- by injection Hx as -> ->.
    + apply last_None in Hlast as ->. intros k' [[x Hx]|?]%Hk; [by apply elem_of_nil in Hx|lia].
Qed.

(** With a last group that never finishes there is always a group in charge. *)
Lemma groups_at_total {A} (m : gmap Z A) t :
  (exists k, is_Some (m !! k) /\ t < k) -> is_Some (groups_at m t).
Proof.
  intros (k & [a Ha%elem_of_map_items] & Hk). unfold groups_at. generalize (None : option A) as prev.
  revert Ha. induction (map_items m) as [|[k' a'] l IH]; [by intros ?%elem_of_nil|].
  intros [[= -> ->]|Ha]%elem_of_cons prev; cbn; [by rewrite (proj2 (Z.ltb_lt _ _))|].
  destruct (t <? k'); [done|]. by apply IH.
Qed.

(** ** The text of a share *)
Definition share_text (i : Z) (sig pk pkSig : string) : string :=
  to_string i +:+ ";" +:+ sig +:+ ";" +:+ pk +:+ ";" +:+ pkSig.

Lemma char_app c y : String c "" +:+ y = String c y.
Proof. done. Qed.

Lemma to_string_token c i : digit_value c = None -> token c (to_string i).
Proof.
  intros Hc. split; [apply to_string_nonempty|]. apply all_digits_no_char; [done|]. apply to_string_digits.
Qed.

Lemma share_text_tokens i sig pk pkSig :
  token ";" sig -> token ";" pk -> token ";" pkSig ->
  boost_tokens ";" (share_text i sig pk pkSig) = [to_string i; sig; pk; pkSig].
Proof.
  intros H1 H2 H3. unfold share_text. rewrite !(char_app ";").
  rewrite (tokenize_app ";" (to_string i)), (tokenize_app ";" sig), (tokenize_app ";" pk).
  by rewrite !tokenize_token by (done || by apply to_string_token).
Qed.

Lemma share_text_star i sig pk pkSig :
  token "*" sig -> token "*" pk -> token "*" pkSig -> token "*" (share_text i sig pk pkSig).
Proof.
  intros [_ H1] [_ H2] [_ H3]. destruct (to_string_token "*" i eq_refl) as [Hn H0]. unfold share_text. split.
  - by destruct (to_string i).
  - by rewrite !has_char_app, H0, H1, H2, H3.
Qed.

Lemma mkEdDSASigShare_text i sig pk pkSig b t n :
  1 <= i <= n -> n < 2 ^ 64 -> token ";" sig -> token ";" pk -> token ";" pkSig ->
  mkEdDSASigShare (share_text i sig pk pkSig) b t n =
    Ok (mkEdShare (share_text i sig pk pkSig) b t i sig pk pkSig).
Proof.
  intros Hi Hn H1 H2 H3. unfold mkEdDSASigShare. rewrite share_text_tokens, lexical_cast_to_string by (done || lia).
  cbn [mbind res_bind]. by rewrite (proj2 (Z.ltb_lt _ _)), (proj2 (Z.leb_le _ _)) by lia.
Qed.

(** What any share that is accepted looks like. *)
Lemma mkEdDSASigShare_sound t b ts n s :
  mkEdDSASigShare t b ts n = Ok s ->
  es_text s = t /\ es_blockId s = b /\ es_timestamp s = ts /\ 1 <= es_signerIndex s <= n.
Proof.
  unfold mkEdDSASigShare. destruct (boost_tokens ";" t) as [|t0 [|t1 [|t2 [|t3 []]]]]; try done.
  intros Hs. rinv Hs. injection Hs as <-. cbn. split_and!; [done..|lia|lia].
Qed.

(** The constructor of a merged signature collects exactly its shares. *)
Lemma collectSignature_sound l b ts n acc m :
  collectSignature l b ts n acc = Ok m ->
  zsize m = zsize acc + zlen l /\
  forall i s, m !! i = Some s ->
    acc !! i = Some s \/ exists t, t ∈ l /\ mkEdDSASigShare t b ts n = Ok s /\ es_signerIndex s = i.
Proof.
  revert acc. induction l as [|t l IH]; intros acc; cbn [collectSignature].
  { intros [= ->]. unfold zlen; cbn. split; [lia|by left]. }
  intros Hs. rinv Hs. rename Hc into Hn. apply bool_decide_eq_true_1 in Hn.
  apply IH in Hs as [Hsz Hs]. split.
  { rewrite Hsz. unfold zsize, zlen. rewrite map_size_insert_None by done. cbn. lia. }
  intros i s [Hi|(t' & Ht & Hm & Hi)]%Hs; [|right; set_solver].
  apply lookup_insert_Some in Hi as [[<- <-]|[_ Hi]]; [right; set_solver|by left].
Qed.

Lemma collectSignature_complete (l : list (Z * string)) b ts n acc :
  NoDup l.*1 -> (forall i, i ∈ l.*1 -> acc !! i = None) ->
  (forall i t, (i, t) ∈ l -> exists s, mkEdDSASigShare t b ts n = Ok s /\ es_signerIndex s = i) ->
  exists m, collectSignature l.*2 b ts n acc = Ok m.
Proof.
  revert acc. induction l as [|[i t] l IH]; intros acc Hnd Hacc Hl; cbn [collectSignature fmap list_fmap snd]; [by eauto|].
  cbn in Hnd. apply NoDup_cons in Hnd as [Hi Hnd].
  destruct (Hl i t) as (s & Hs & Hsi); [by left|]. rewrite Hs. cbn [mbind res_bind].
  rewrite Hsi, (bool_decide_eq_true_2 (acc !! i = None)) by (apply Hacc; by left). cbn [rcheck].
  apply IH; [done| |intros j u Hj; apply Hl; by right].
  intros j Hj. rewrite lookup_insert_ne by (intros ->; done). apply Hacc. by right.
Qed.

Lemma list_to_map_items {A} (m : gmap Z A) : list_to_map (map_items m) = m.
Proof.
  rewrite <- (list_to_map_to_list m) at 2. apply list_to_map_proper; [apply NoDup_map_items_keys|apply map_items_perm].
Qed.

(** ** Session signatures *)
Section Session.
Context {share : Type} (N : net_crypto share) (sgx : nc_isSGXEnabled N = true).
Implicit Types c : lru_cache string string.

Lemma verifyPublicKey_some h pkSig ids ts :
  verifyPublicKey N h pkSig ids ts = Ok tt -> exists node, nc_verifyECDSASig N h pkSig node ts = Ok tt.
Proof.
  unfold verifyPublicKey. destruct (nc_verifyECDSASig N h pkSig ids.1 ts) as [[]|e] eqn:H1; [by eauto|].
  destruct e; try done; destruct (negb _); try done; intros Hv%rnested_all_ok; by eauto.
Qed.

(** A signature that is accepted is valid under a key that a node certified. *)
Lemma verifySession_sound hash sig pk pkSig b ids ts c :
  keys_inv N c ->
  wp (verifySessionSigAndKey N hash sig pk pkSig b ids ts) c (fun r c' => keys_inv N c' /\
    (r = Ok tt -> nc_verifyEdDSA N pk sig hash = Ok tt /\ exists node b', key_certified N pkSig pk node b')).
Proof.
  intros Hk. unfold verifySessionSigAndKey. rewrite sgx. wp_steps; try done.
  apply wp_lru_getIfExists; [apply Hk|]. pose proof (keys_inv_touch N pkSig c Hk) as Hk'.
  destruct (lru_lookup c pkSig) as [pk2|] eqn:Hl; wp_simpl.
  - split; intros Hpk; [|done]. apply bool_decide_eq_true_1 in Hpk as ->. split; [done|].
    intros Hv%rnested_all_ok. apply (verifySessionEdDSASig_sound N sgx) in Hv. split; [done|]. by apply Hk in Hl.
  - destruct (verifyPublicKey _ _ _ _ _) as [[]|e] eqn:Hv; [|done].
    apply verifyPublicKey_some in Hv as [node Hv]. unfold lru_put. wp_simpl.
    split; [eapply keys_inv_put; [done|by eexists]|]. intros Hs%rnested_all_ok.
    apply (verifySessionEdDSASig_sound N sgx) in Hs. split; [done|]. by exists node, b, ts.
Qed.

Lemma verifySessionEdDSASig_complete hash sig pk :
  sig <> ""%string -> nc_verifyEdDSA N pk sig hash = Ok tt -> verifySessionEdDSASig N hash sig pk = Ok tt.
Proof.
  intros Hs Hv. unfold verifySessionEdDSASig. rewrite (bool_decide_eq_true_2 _ Hs), sgx. cbn. by rewrite Hv.
Qed.

(** With a remembered key nothing else is compared. *)
Lemma verifySession_cached hash sig pk pkSig b ids ts c (Q : res unit -> _ -> Prop) :
  lru_inv c -> lru_lookup c pkSig = Some pk -> sig <> ""%string -> nc_verifyEdDSA N pk sig hash = Ok tt ->
  Q (Ok tt) (lru_touch pkSig c) ->
  wp (verifySessionSigAndKey N hash sig pk pkSig b ids ts) c Q.
Proof.
  intros Hi Hl Hs Hv HQ. unfold verifySessionSigAndKey. rewrite (bool_decide_eq_true_2 _ Hs). wp_simpl.
  split; [intros _|done]. apply wp_lru_getIfExists; [done|]. rewrite Hl. wp_simpl.
  rewrite bool_decide_eq_true_2 by done. split; [intros _|done].
  by rewrite verifySessionEdDSASig_complete.
Qed.

(** A new key that is certified is accepted and remembered. *)
Lemma verifySession_new hash sig pk pkSig b ids ts c (Q : res unit -> _ -> Prop) :
  lru_inv c -> lru_lookup c pkSig = None -> sig <> ""%string -> nc_verifyEdDSA N pk sig hash = Ok tt ->
  verifyPublicKey N (calculatePublicKeyHash N pk b) pkSig ids ts = Ok tt ->
  Q (Ok tt) (putUnsafe pkSig pk (lru_touch pkSig c)) ->
  wp (verifySessionSigAndKey N hash sig pk pkSig b ids ts) c Q.
Proof.
  intros Hi Hl Hs Hv Hk HQ. unfold verifySessionSigAndKey. rewrite (bool_decide_eq_true_2 _ Hs), sgx. wp_simpl.
  split; [intros _|done]. apply wp_lru_getIfExists; [done|]. rewrite Hl. unfold lru_put. wp_simpl. rewrite Hk. wp_simpl.
  by rewrite verifySessionEdDSASig_complete.
Qed.
End Session.

(** ** Data availability signatures *)
Section Threshold.
Context (L : crypto_libs) (W : wallet_env) (C : crypto_config L) (parseSpec : string -> res unit).
Context (sgx : cm_isSGXEnabled C = true) (real : cm_verifyRealSignatures C = true).
Local Abbreviation V := (verifier L W C parseSpec).
Local Abbreviation state := (crypto_state L W).
Implicit Types s : state.
Implicit Types sh : EdDSASigShare.

(** A share of a signer for a hash: it is a valid signature under a session key
    that some node certified. *)
Definition share_signed (hash : list Z) sh : Prop :=
  cl_edVerify L (es_publicKey sh) (es_sig sh) hash = true /\
  exists node b, key_certified V (es_pkSig sh) (es_publicKey sh) node b.

Lemma verifyEdDSA_ok pk sig h : verifyEdDSA L pk sig h = Ok tt <-> pk <> ""%string /\ cl_edVerify L pk sig h = true.
Proof.
  unfold verifyEdDSA. case_bool_decide; cbn; [|naive_solver]. destruct (cl_edVerify L pk sig h); naive_solver.
Qed.

Lemma ed_verify_sound sh hash i s :
  keys_inv V (cs_sessionPublicKeys s) ->
  wp (ed_verify L W C parseSpec sh hash i) s (fun r s' =>
    keys_inv V (cs_sessionPublicKeys s') /\ (r = Ok tt -> share_signed hash sh)).
Proof.
  intros Hk. unfold ed_verify, on_publicKeys. wp_simpl.
  destruct (getHistoricNodeIDByIndex L C i (es_timestamp sh)) as [ids|e]; wp_simpl; [|split; [done|by destruct e]].
  rewrite wp_zoom. eapply wp_mono; [apply (verifySession_sound V sgx), Hk|]. cbn beta. intros r c [Hc Hr].
  split; [exact Hc|]. intros Hv%rnested_all_ok. apply Hr in Hv as [Hv Hn].
  split; [|exact Hn]. by apply verifyEdDSA_ok in Hv as [_ ->].
Qed.

Lemma mapM_verify_sound hash (l : list (Z * EdDSASigShare)) s :
  keys_inv V (cs_sessionPublicKeys s) ->
  wp (mapM_ (fun x => ed_verify L W C parseSpec x.2 hash x.1) l) s (fun r s' =>
    keys_inv V (cs_sessionPublicKeys s') /\ (r = Ok tt -> forall i sh, (i, sh) ∈ l -> share_signed hash sh)).
Proof.
  revert s. induction l as [|[i sh] l IH]; intros s Hk; cbn [mapM_]; wp_simpl.
  { split; [done|]. by intros _ i sh ?%elem_of_nil. }
  eapply wp_mono; [by apply ed_verify_sound|]. cbn beta. intros [[]|e] s' [Hk' Hs]; [|done].
  eapply wp_mono; [by apply IH|]. cbn beta. intros r s2 [Hk2 Hr]. split; [done|].
  intros Hok j sh' [[= -> ->]|Hj]%elem_of_cons; [by apply Hs|by eapply Hr].
Qed.

(** Shared by the theorem below and the one on stored proofs. *)
Lemma verified_da_signature hash signature b t s :
  keys_inv V (cs_sessionPublicKeys s) ->
  wp (verifyDAProofThresholdSig L W C parseSpec hash signature b t) s (fun r s' =>
    keys_inv V (cs_sessionPublicKeys s') /\
    forall g, r = Ok g -> exists shares,
      g = EdDSASig L (mkEdSignature signature shares) /\ zsize shares = cm_requiredSigners C /\
      forall i sh, shares !! i = Some sh ->
        1 <= i <= cm_totalSigners C /\ es_signerIndex sh = i /\ es_text sh ∈ boost_tokens "*" signature /\
        share_signed hash sh).
Proof.
  intros Hk. unfold verifyDAProofThresholdSig. rewrite real. wp_steps; try done.
  destruct (mkEdDSASignature _ _ _ _ _) as [g|e] eqn:Hg; wp_simpl; [|split; [done|by destruct e]].
  unfold ed_verifySignature. wp_simpl. eapply wp_mono; [by apply mapM_verify_sound|].
  cbn beta. intros [[]|e] s' [Hk' Hv]; cbn [rnested_all]; wp_simpl; [|by destruct e; split].
  split; [done|]. intros g' [= <-]. unfold mkEdDSASignature in Hg. rinv Hg. injection Hg as <-.
  apply collectSignature_sound in Hx as [_ Hcol]. eexists. split_and!; [done|by apply Z.eqb_eq|].
  intros i sh Hi. specialize (Hv eq_refl i sh). rewrite elem_of_map_items in Hv. specialize (Hv Hi).
  apply Hcol in Hi as [Hi|(y & Hy & Hm & Hi)]; [by rewrite lookup_empty in Hi|].
  apply mkEdDSASigShare_sound in Hm as (Ht & _ & _ & Hr). subst. exact (conj Hr (conj eq_refl (conj Hy Hv))).
Qed.

(** *** One key *)

(** The signature that the holder of one session key makes, alone. *)
Definition forged_signature (sig pk pkSig : string) : string :=
  pop_back_char (star_join ((fun i => share_text i sig pk pkSig) <$> seqZ 1 (cm_requiredSigners C))).

Lemma ed_verify_cached sh hash i s (Q : res unit -> state -> Prop) :
  lru_inv (cs_sessionPublicKeys s) -> is_ok (getHistoricNodeIDByIndex L C i (es_timestamp sh)) = true ->
  lru_lookup (cs_sessionPublicKeys s) (es_pkSig sh) = Some (es_publicKey sh) ->
  es_sig sh <> ""%string -> es_publicKey sh <> ""%string ->
  cl_edVerify L (es_publicKey sh) (es_sig sh) hash = true ->
  Q (Ok tt) (set_sessionPublicKeys L W (lru_touch (es_pkSig sh) (cs_sessionPublicKeys s)) s) ->
  wp (ed_verify L W C parseSpec sh hash i) s Q.
Proof.
  intros Hi Hids Hl Hs Hp Hv HQ. unfold ed_verify, on_publicKeys. wp_simpl.
  destruct (getHistoricNodeIDByIndex L C i _) as [ids|]; [|done]. wp_simpl. rewrite wp_zoom.
  apply (verifySession_cached V sgx); [done|done|done|by apply verifyEdDSA_ok|done].
Qed.

Lemma mapM_verify_cached hash sig pk pkSig (l : list (Z * EdDSASigShare)) s :
  lru_inv (cs_sessionPublicKeys s) -> lru_lookup (cs_sessionPublicKeys s) pkSig = Some pk ->
  sig <> ""%string -> pk <> ""%string -> cl_edVerify L pk sig hash = true ->
  (forall i sh, (i, sh) ∈ l -> es_sig sh = sig /\ es_publicKey sh = pk /\ es_pkSig sh = pkSig /\
     is_ok (getHistoricNodeIDByIndex L C i (es_timestamp sh)) = true) ->
  wp (mapM_ (fun x => ed_verify L W C parseSpec x.2 hash x.1) l) s (fun r _ => r = Ok tt).
Proof.
  intros Hi Hl Hs Hp Hv. revert s Hi Hl. induction l as [|[i sh] l IH]; intros s Hi Hl Hall; cbn [mapM_]; wp_simpl; [done|].
  destruct (Hall i sh) as (Hsg & Hpk & Hps & Hids); [by left|]. subst.
  apply ed_verify_cached; [done..|]. apply IH.
  - by apply lru_touch_inv.
  - cbn. by rewrite lru_lookup_touch.
  - intros j sh' Hj. apply Hall. by right.
Qed.

Lemma mkEdDSASignature_merged (l : list (Z * string)) b t n :
  l <> [] -> NoDup l.*1 -> Forall (token "*") l.*2 ->
  (forall i x, (i, x) ∈ l -> exists sh, mkEdDSASigShare x b t n = Ok sh /\ es_signerIndex sh = i) ->
  exists m, mkEdDSASignature (pop_back_char (star_join l.*2)) b t n (zlen l) =
      Ok (mkEdSignature (pop_back_char (star_join l.*2)) m) /\
    forall i sh, m !! i = Some sh -> exists x, (i, x) ∈ l /\ mkEdDSASigShare x b t n = Ok sh.
Proof.
  intros Hn Hnd Htok Hl. unfold mkEdDSASignature. rewrite (merged_tokens l.*2 Htok).
  destruct (collectSignature_complete l b t n ∅ Hnd) as [m Hm]; [by intros; rewrite lookup_empty|done|].
  pose proof (collectSignature_sound _ _ _ _ _ _ Hm) as [Hsz Hs]. rewrite Hm. exists m.
  assert (pop_back_char (star_join l.*2) <> ""%string) as Hne.
  { intros He. apply (f_equal (boost_tokens "*")) in He. rewrite (merged_tokens l.*2 Htok) in He. by destruct l. }
  rewrite (bool_decide_eq_true_2 _ Hne). cbn [rcheck mbind res_bind].
  rewrite (proj2 (Z.eqb_eq _ _)) by (rewrite Hsz; unfold zsize, zlen; rewrite map_size_empty, length_fmap; lia).
  split; [done|]. intros i sh [Hi|(x & Hx & Hmk & Hi)]%Hs; [by rewrite lookup_empty in Hi|].
  apply list_elem_of_fmap in Hx as ([j y] & Hy & Hj). cbn in Hy. subst.
  destruct (Hl j y Hj) as (sh' & Hsh' & Hj'). rewrite Hsh' in Hmk. injection Hmk as <-. rewrite Hj' in *. by eauto.
Qed.

(** A merged text is accepted when its shares are. *)
Lemma verify_merged (l : list (Z * string)) hash b t s :
  0 < cm_requiredSigners C -> zlen l = cm_requiredSigners C -> NoDup l.*1 -> Forall (token "*") l.*2 ->
  (forall i x, (i, x) ∈ l -> exists sh, mkEdDSASigShare x b t (cm_totalSigners C) = Ok sh /\ es_signerIndex sh = i) ->
  (forall l', (forall i sh, (i, sh) ∈ l' -> exists x, (i, x) ∈ l /\ mkEdDSASigShare x b t (cm_totalSigners C) = Ok sh) ->
     wp (mapM_ (fun x => ed_verify L W C parseSpec x.2 hash x.1) l') s (fun r _ => r = Ok tt)) ->
  wp (verifyDAProofThresholdSig L W C parseSpec hash (pop_back_char (star_join l.*2)) b t) s
    (fun r _ => is_ok r = true).
Proof.
  intros Hr Hlen Hnd Htok Hl Hv.
  destruct (mkEdDSASignature_merged l b t (cm_totalSigners C)) as (m & Hm & Hms); [|done..|].
  { intros ->. unfold zlen in Hlen; cbn in Hlen. lia. }
  unfold verifyDAProofThresholdSig. rewrite real.
  assert (pop_back_char (star_join l.*2) <> ""%string) as Hne by (intros He; by rewrite He in Hm).
  rewrite (bool_decide_eq_true_2 _ Hne). wp_simpl. split; [intros _|done]. rewrite Hlen in Hm. rewrite Hm. wp_simpl.
  unfold ed_verifySignature. wp_simpl. eapply wp_mono; [apply Hv|].
  - intros i sh Hi%elem_of_map_items. by apply Hms.
  - cbn beta. intros r s' ->. cbn [rnested_all]. by wp_simpl.
Qed.

(** The holder of one session key passes for the required number of signers,
    once that key is remembered. *)
Lemma forged_signature_verifies hash sig pk pkSig b t s :
  1 <= cm_requiredSigners C <= cm_totalSigners C -> cm_totalSigners C < 2 ^ 64 ->
  token ";" sig -> token ";" pk -> token ";" pkSig -> token "*" sig -> token "*" pk -> token "*" pkSig ->
  (forall i, 1 <= i <= cm_requiredSigners C -> is_ok (getHistoricNodeIDByIndex L C i t) = true) ->
  lru_inv (cs_sessionPublicKeys s) -> lru_lookup (cs_sessionPublicKeys s) pkSig = Some pk ->
  cl_edVerify L pk sig hash = true ->
  wp (verifyDAProofThresholdSig L W C parseSpec hash (forged_signature sig pk pkSig) b t) s
    (fun r _ => is_ok r = true).
Proof.
  intros Hr Htot H1 H2 H3 S1 S2 S3 Hids Hi Hl Hv.
  set (l := (fun i => (i, share_text i sig pk pkSig)) <$> seqZ 1 (cm_requiredSigners C)).
  assert (l.*2 = (fun i => share_text i sig pk pkSig) <$> seqZ 1 (cm_requiredSigners C)) as Hl2.
  { unfold l. by rewrite <- list_fmap_compose. }
  assert (forall i x, (i, x) ∈ l -> 1 <= i <= cm_requiredSigners C /\ x = share_text i sig pk pkSig) as Hin.
  { intros i x [j [[= -> ->] Hj%elem_of_seqZ]]%list_elem_of_fmap. split; [lia|done]. }
  unfold forged_signature. rewrite <- Hl2. apply verify_merged; [lia| | | | |].
  - unfold zlen, l. rewrite length_fmap, length_seqZ. lia.
  - unfold l. rewrite <- list_fmap_compose. rewrite list_fmap_id. apply NoDup_seqZ.
  - rewrite Hl2. apply Forall_fmap, Forall_forall. intros i _. by apply share_text_star.
  - intros i x [Hx ->]%Hin. rewrite mkEdDSASigShare_text by (done || lia). by eauto.
  - intros l' Hl'. apply (mapM_verify_cached hash sig pk pkSig); [done|done|apply H1|apply H2|done|].
    intros i sh (x & [Hx ->]%Hin & Hmk)%Hl'. rewrite mkEdDSASigShare_text in Hmk by (done || lia).
    injection Hmk as <-. split_and!; [done..|]. by apply Hids.
Qed.

(** *** Honest signers *)

(** A share as a node of the chain makes it: certified by the node that has the
    index of the signer at that time. *)
Definition honest_share (hash : list Z) (b t i : Z) (x : string) (sig pk pkSig : string) : Prop :=
  x = share_text i sig pk pkSig /\ 1 <= i <= cm_totalSigners C /\
  (token ";" sig /\ token ";" pk /\ token ";" pkSig) /\ (token "*" sig /\ token "*" pk /\ token "*" pkSig) /\
  cl_edVerify L pk sig hash = true /\
  exists ids, getHistoricNodeIDByIndex L C i t = Ok ids /\
    verifyPublicKey V (calculatePublicKeyHash V pk b) pkSig ids t = Ok tt.

(** The remembered keys agree with a function from signatures to keys. *)
Definition keys_agree (keyOf : string -> string) (c : lru_cache string string) : Prop :=
  lru_inv c /\ forall k v, lru_lookup c k = Some v -> v = keyOf k.

Lemma keys_agree_touch f k c : keys_agree f c -> keys_agree f (lru_touch k c).
Proof. intros [Hi Hf]. split; [by apply lru_touch_inv|]. intros k' v. rewrite lru_lookup_touch by done. apply Hf. Qed.

Lemma keys_agree_put f k c : keys_agree f c -> keys_agree f (putUnsafe k (f k) c).
Proof.
  intros [Hi Hf]. split; [by apply lru_putUnsafe_inv|]. intros k' v Hl.
  destruct (decide (k = k')) as [<-|Hne]; [|by eapply Hf, lru_lookup_put_ne].
  destruct (putUnsafe_refines k (f k) c Hi) as (_ & Hp & _). unfold lru_lookup in Hl. rewrite Hp in Hl.
  unfold spec_put in Hl. destruct (Z.to_nat (lru_max_size c)); [done|]. cbn [take] in Hl.
  rewrite assoc_cons, decide_True in Hl by done. by injection Hl as <-.
Qed.

Lemma ed_verify_honest hash b t i x sig pk pkSig sh keyOf s :
  cm_totalSigners C < 2 ^ 64 -> honest_share hash b t i x sig pk pkSig -> pk = keyOf pkSig ->
  mkEdDSASigShare x b t (cm_totalSigners C) = Ok sh -> keys_agree keyOf (cs_sessionPublicKeys s) ->
  wp (ed_verify L W C parseSpec sh hash i) s (fun r s' => r = Ok tt /\ keys_agree keyOf (cs_sessionPublicKeys s')).
Proof.
  intros Ht (-> & Hi & (T1 & T2 & T3) & _ & Hv & ids & Hids & Hk) -> Hmk Ha.
  rewrite mkEdDSASigShare_text in Hmk by (done || lia). injection Hmk as <-.
  unfold ed_verify, on_publicKeys. wp_simpl. cbn [es_timestamp es_sig es_publicKey es_pkSig es_blockId].
  rewrite Hids. wp_simpl. rewrite wp_zoom.
  assert (nc_verifyEdDSA V (keyOf pkSig) sig hash = Ok tt) as Hed by (apply verifyEdDSA_ok; split; [apply T2|done]).
  destruct (lru_lookup (cs_sessionPublicKeys s) pkSig) as [v|] eqn:Hl.
  - apply (verifySession_cached V sgx); [apply Ha|by rewrite (proj2 Ha _ _ Hl) in Hl|apply T1|done|].
    split; [done|]. by apply keys_agree_touch.
  - apply (verifySession_new V sgx); [apply Ha|done|apply T1|done|done|]. split; [done|].
    cbn. by apply keys_agree_put, keys_agree_touch.
Qed.

Lemma honest_parses hash b t i x sig pk pkSig :
  cm_totalSigners C < 2 ^ 64 -> honest_share hash b t i x sig pk pkSig ->
  mkEdDSASigShare x b t (cm_totalSigners C) = Ok (mkEdShare x b t i sig pk pkSig) /\ token "*" x.
Proof.
  intros Hn (-> & Hi & (T1 & T2 & T3) & (S1 & S2 & S3) & _). split.
  - by rewrite mkEdDSASigShare_text.
  - by apply share_text_star.
Qed.

Lemma mapM_verify_honest hash b t keyOf (l : list (Z * EdDSASigShare)) s :
  cm_totalSigners C < 2 ^ 64 ->
  (forall i sh, (i, sh) ∈ l -> exists x sig pk pkSig, honest_share hash b t i x sig pk pkSig /\ pk = keyOf pkSig /\
     mkEdDSASigShare x b t (cm_totalSigners C) = Ok sh) ->
  keys_agree keyOf (cs_sessionPublicKeys s) ->
  wp (mapM_ (fun x => ed_verify L W C parseSpec x.2 hash x.1) l) s (fun r _ => r = Ok tt).
Proof.
  intros Hn. revert s. induction l as [|[i sh] l IH]; intros s Hl Ha; cbn [mapM_]; wp_simpl; [done|].
  destruct (Hl i sh) as (x & sig & pk & pkSig & Hh & Hk & Hmk); [by left|].
  eapply wp_mono; [by eapply ed_verify_honest|]. cbn beta. intros r s' [-> Ha'].
  apply IH; [|done]. intros j sh' Hj. apply Hl. by right.
Qed.

Lemma createDAShare_ok x b i t sh :
  x <> ""%string -> mkEdDSASigShare x b t (cm_totalSigners C) = Ok sh ->
  createDAShare L C x b i t = Ok (EdDSAShare L sh).
Proof.
  intros Hx Hs. unfold createDAShare, createDAProofSigShare. rewrite (bool_decide_eq_true_2 _ Hx), sgx. cbn.
  by rewrite Hs.
Qed.

(** The loop of [DASigShareDB] collects the texts that it was given. *)
Lemma addDAShares_texts p b t (l : list (Z * string)) acc :
  dp_blockID p = b -> dp_timeStampS p = t ->
  NoDup l.*1 -> (forall i, i ∈ l.*1 -> acc !! i = None) ->
  (forall i x, (i, x) ∈ l -> exists sh, mkEdDSASigShare x b t (cm_totalSigners C) = Ok sh /\ es_signerIndex sh = i /\
     x <> ""%string) ->
  exists shares, collectShares (SigShare L) (createDAShare L C) p l = Ok shares /\
    addDAShares L C shares (EdDSASet L b t acc) = Ok (EdDSASet L b t (list_to_map l ∪ acc)).
Proof.
  intros Hb Ht. revert acc. induction l as [|[i x] l IH]; intros acc Hnd Hacc Hl; cbn [collectShares].
  { exists []. split; [done|]. cbn. by rewrite map_empty_union. }
  cbn in Hnd. apply NoDup_cons in Hnd as [Hi Hnd].
  destruct (Hl i x) as (sh & Hsh & Hidx & Hne); [by left|]. rewrite Hb, Ht, (createDAShare_ok x b i t sh) by done.
  destruct (IH (<[i := x]> acc)) as (shares & Hc & Ha); [done| |intros j y Hj; apply Hl; by right|].
  { intros j Hj. rewrite lookup_insert_ne by (intros ->; done). apply Hacc. by right. }
  cbn [mbind res_bind]. rewrite Hc. eexists. split; [done|]. cbn [addDAShares addSigShare].
  pose proof (mkEdDSASigShare_sound _ _ _ _ _ Hsh) as (Htext & _). rewrite Hidx, Htext.
  rewrite (bool_decide_eq_false_2 (is_Some (acc !! i)))
    by (rewrite (Hacc i) by (by left); by intros [? [=]]).
  cbn [mbind res_bind]. rewrite Ha. do 2 f_equal. cbn [list_to_map foldr fst snd].
  rewrite <- insert_union_r by (by apply not_elem_of_list_to_map). by rewrite insert_union_l.
Qed.

(** Shares of enough honest signers merge to a signature that verifies. *)
Lemma honest_shares_merge keyOf (tm : gmap Z string) p b t s :
  0 < cm_requiredSigners C -> cm_totalSigners C < 2 ^ 64 -> zsize tm = cm_requiredSigners C ->
  dp_blockID p = b -> dp_timeStampS p = t ->
  (forall i x, tm !! i = Some x ->
     exists sig pk pkSig, honest_share (dp_hash p) b t i x sig pk pkSig /\ pk = keyOf pkSig) ->
  keys_agree keyOf (cs_sessionPublicKeys s) ->
  exists shares sig, collectShares (SigShare L) (createDAShare L C) p (map_items tm) = Ok shares /\
    mergeDAShares L C b t shares = Ok sig /\
    wp (verifyDAProofThresholdSig L W C parseSpec (dp_hash p) sig b t) s (fun r _ => is_ok r = true).
Proof.
  intros Hr Hn Hsz Hb Ht Hh Ha.
  assert (forall i x, (i, x) ∈ map_items tm -> exists sh,
    mkEdDSASigShare x b t (cm_totalSigners C) = Ok sh /\ es_signerIndex sh = i /\ token "*" x) as Hp.
  { intros i x (sig & pk & pkSig & Hx & _)%elem_of_map_items%Hh. apply honest_parses in Hx as [-> Hx]; [|done]. by eauto. }
  assert (zlen (map_items tm) = cm_requiredSigners C) as Hlen by (rewrite <- Hsz; unfold zlen, zsize; by rewrite length_map_items).
  assert (Forall (token "*") (map_items tm).*2) as Htok.
  { apply Forall_fmap, Forall_forall. intros [i x] Hx. by destruct (Hp i x Hx) as (sh & _ & _ & Hx'). }
  destruct (addDAShares_texts p b t (map_items tm) ∅ Hb Ht) as (shares & Hc & Hadd).
  { apply NoDup_map_items_keys. }
  { intros; by rewrite lookup_empty. }
  { intros i x (sh & ? & ? & [? _])%Hp. by eauto. }
  rewrite map_union_empty, (list_to_map_items tm) in Hadd.
  destruct (mkEdDSASignature_merged (map_items tm) b t (cm_totalSigners C)) as (m & Hm & _); [|apply NoDup_map_items_keys|done| |].
  { intros He. rewrite He in Hlen. unfold zlen in Hlen. cbn in Hlen. lia. }
  { intros i x (sh & ? & ? & _)%Hp. by eauto. }
  exists shares, (pop_back_char (star_join (map_items tm).*2)). split_and!; [done| |].
  - unfold mergeDAShares, createDAProofSigShareSet. rewrite sgx. cbn [mbind res_bind]. rewrite Hadd.
    cbn [mbind res_bind mergeSignature set_isEnough].
    rewrite Hsz, Z.leb_refl. cbn [rcheck mbind res_bind].
    rewrite (bool_decide_eq_true_2 (pop_back_char _ <> ""%string)) by (intros He; by rewrite He in Hm).
    cbn [rcheck mbind res_bind]. by rewrite <- Hlen, Hm.
  - apply verify_merged; [done|done|apply NoDup_map_items_keys|done| |].
    + intros i x (sh & ? & ? & _)%Hp. by eauto.
    + intros l' Hl'. eapply mapM_verify_honest; [done| |done].
      intros i sh (x & Hx%elem_of_map_items & Hmk)%Hl'. destruct (Hh i x Hx) as (sig & pk & pkSig & ? & ?). by eauto 10.
Qed.
End Threshold.

(** ** Signing with session keys *)

(** What the code relies on in OpenSSL: signatures verify, and PEM keys and
    base64 signatures have neither a semicolon nor an asterisk. *)
Class EdDSALaws (L : crypto_libs) : Prop := {
  ed_sign_verify : forall k h, cl_edVerify L (cl_edPublic L k) (cl_edSign L k h) h = true;
  ed_public_token : forall k c, c = ";"%char \/ c = "*"%char -> token c (cl_edPublic L k);
  ed_sign_token : forall k h c, c = ";"%char \/ c = "*"%char -> token c (cl_edSign L k h)
}.

Section SessionKeys.
Context (L : crypto_libs) (W : wallet_env) (C : crypto_config L).
Local Abbreviation state := (crypto_state L W).
Implicit Types s : state.

(** [good h sig]: the wallet's signatures of a hash. *)
Context (good : list Z -> string -> Prop).
Context (wallet_good : forall h w, wp (sgxSignECDSA W h (cm_sgxECDSAKeyName C)) w
  (fun r _ => forall sig, r = Ok sig -> good h sig)).

(** The session keys that a node holds are certified for their blocks. *)
Definition session_inv s : Prop :=
  (lru_inv (cs_sessionKeys s) /\ 1 <= lru_max_size (cs_sessionKeys s)) /\
  forall b k pk pkSig, lru_lookup (cs_sessionKeys s) b = Some (k, pk, pkSig) ->
    pk = cl_edPublic L k /\ good (keyHash L pk b) pkSig.

(** A signature for a block, under a certified key that is kept. *)
Definition session_signed (h : list Z) (b : Z) (r : res (string * string * string)) s : Prop :=
  forall sig pk pkSig, r = Ok (sig, pk, pkSig) ->
    exists k, sig = cl_edSign L k h /\ pk = cl_edPublic L k /\ good (keyHash L pk b) pkSig /\ pkSig <> ""%string /\
      lru_lookup (cs_sessionKeys s) b = Some (k, pk, pkSig).

Lemma session_inv_new events : session_inv (newCrypto L W events).
Proof. split; [split; [by apply lru_new_inv|done]|done]. Qed.

Lemma session_inv_put s b k pk pkSig :
  session_inv s -> pk = cl_edPublic L k -> good (keyHash L pk b) pkSig ->
  session_inv (set_sessionKeys L W (putUnsafe b (k, pk, pkSig) (cs_sessionKeys s)) s).
Proof.
  intros [[Hi Hm] Hk] Hpk Hg. split.
  { split; [by apply lru_putUnsafe_inv|]. cbn. by rewrite lru_put_max. }
  cbn. intros b' k' pk' pkSig' Hl. destruct (decide (b = b')) as [<-|Hne]; [|by eapply Hk, lru_lookup_put_ne].
  rewrite lru_lookup_put in Hl by done. by injection Hl as <- <- <-.
Qed.

Lemma session_inv_touch s b :
  session_inv s -> session_inv (set_sessionKeys L W (lru_touch b (cs_sessionKeys s)) s).
Proof.
  intros [[Hi Hm] Hk]. split; [split; [by apply lru_touch_inv|cbn; by rewrite lru_touch_max]|].
  cbn. intros b' k pk pkSig. rewrite lru_lookup_touch by done. apply Hk.
Qed.

Lemma signSessionECDSA_spec h b s :
  session_inv s ->
  wp (signSessionECDSA L W C h b) s (fun r s' => session_inv s' /\ session_signed h b r s').
Proof.
  intros Hs. unfold signSessionECDSA, on_sessionKeys. wp_simpl. rewrite wp_zoom.
  apply wp_lru_getIfExists; [apply Hs|]. pose proof (session_inv_touch s b Hs) as Hs'.
  destruct (lru_lookup (cs_sessionKeys s) b) as [[[k pk] pkSig]|] eqn:Hl; wp_simpl.
  - pose proof (proj2 Hs _ _ _ _ Hl) as [-> Hg]. wp_steps; try done.
    intros sig pk' pkSig' [= <- <- <-]. exists k. split_and!; [done..| |].
    + by apply (bool_decide_eq_true_1 _ H0).
    + cbn. by rewrite lru_lookup_touch by apply Hs.
  - unfold localGenerateFastKey, on_wallet. wp_simpl. wp_steps; try done. rewrite wp_zoom.
    eapply wp_mono; [apply wallet_good|]. cbn beta. intros [pkSig|e] w Hg; [|by split]. specialize (Hg pkSig eq_refl).
    wp_simpl. split; intros Hne; [|by split]. apply bool_decide_eq_true_1 in Hne. unfold lru_put. rewrite wp_zoom. wp_simpl.
    split.
    + by apply (session_inv_put (set_wallet L W w (set_generated L W _ (set_sessionKeys L W _ s)))).
    + intros sig pk' pkSig' [= <- <- <-]. eexists. split_and!; [done..|]. apply lru_lookup_put; apply Hs'.
Qed.

(** A key that is kept signs the next message for its block without a call of
    the wallet. *)
Lemma session_key_kept h b s k pk pkSig :
  session_inv s -> lru_lookup (cs_sessionKeys s) b = Some (k, pk, pkSig) -> pk <> ""%string -> pkSig <> ""%string ->
  wp (signSessionECDSA L W C h b) s (fun r s' =>
    r = Ok (cl_edSign L k h, pk, pkSig) /\ cs_wallet s' = cs_wallet s /\ cs_generated s' = cs_generated s).
Proof.
  intros Hs Hl Hpk Hps. unfold signSessionECDSA, on_sessionKeys. wp_simpl. rewrite wp_zoom.
  apply wp_lru_getIfExists; [apply Hs|]. rewrite Hl. wp_simpl.
  rewrite (bool_decide_eq_true_2 _ Hpk), (bool_decide_eq_true_2 _ Hps). by wp_steps.
Qed.
End SessionKeys.

(** ** From the signer to the verifier *)

(** The share that a node signs is honest for every node that knows the key of
    its wallet. *)
Lemma signed_share_honest (L : crypto_libs) `{!EdDSALaws L} (W W' : wallet_env) (C C' : crypto_config L) parseSpec
    (hash : list Z) (b t : Z) ids (s : crypto_state L W) :
  let V := verifier L W' C' parseSpec in
  let good h sig := token ";" sig /\ token "*" sig /\ verifyPublicKey V h sig ids t = Ok tt in
  cm_isSGXEnabled C = true -> cm_totalSigners C = cm_totalSigners C' -> cm_totalSigners C < 2 ^ 64 ->
  1 <= cm_schainIndex C <= cm_totalSigners C ->
  getHistoricNodeIDByIndex L C' (cm_schainIndex C) t = Ok ids ->
  (forall h w, wp (sgxSignECDSA W h (cm_sgxECDSAKeyName C)) w (fun r _ => forall sig, r = Ok sig -> good h sig)) ->
  session_inv L W good s ->
  wp (signDAProofSigShare L W C hash b t false) s (fun r s' =>
    session_inv L W good s' /\
    forall share, r = Ok share -> exists sh,
      share = EdDSAShare L sh /\ es_blockId sh = b /\ es_signerIndex sh = cm_schainIndex C /\
      honest_share L W' C' parseSpec hash b t (cm_schainIndex C) (es_text sh) (es_sig sh) (es_publicKey sh) (es_pkSig sh)).
Proof.
  intros V good Hsgx Htot Hn Hi Hids Hw Hs. unfold signDAProofSigShare. rewrite Hsgx. cbn [negb andb]. wp_simpl.
  eapply wp_mono; [by apply (signSessionECDSA_spec L W C good Hw)|]. cbn beta.
  intros [[[sig pk] pkSig]|e] s' [Hs' Hr]; [|by split]. wp_simpl.
  destruct (Hr _ _ _ eq_refl) as (k & -> & -> & (G1 & G2 & G3) & _ & _).
  fold (share_text (cm_schainIndex C) (cl_edSign L k hash) (cl_edPublic L k) pkSig).
  rewrite mkEdDSASigShare_text by (done || (by apply ed_sign_token; left) || (by apply ed_public_token; left)).
  wp_simpl. split; [done|]. intros share [= <-]. eexists. split_and!; [done..|]. unfold honest_share. cbn.
  rewrite <- Htot. pose proof (ed_sign_token k hash). pose proof (ed_public_token k).
  pose proof (ed_sign_verify k hash). by eauto 20.
Qed.

(** ** Which key verifies *)
Section Keys.
Context (L : crypto_libs) (C : crypto_config L).

(** The keys of the groups that may have signed at a time: the group in charge
    and the one before it. *)
Definition group_of {A} (m : gmap Z A) (t : Z) (a : A) : Prop :=
  (exists k, in_charge m t k a) \/ finished_last m t (Some a).

Lemma in_charge_unique {A} (m : gmap Z A) t k k' a a' : in_charge m t k a -> in_charge m t k' a' -> a = a'.
Proof.
  intros (Ha & Hk & Hm) (Ha' & Hk' & Hm'). destruct (Hm k'), (Hm' k); eauto; try lia.
  assert (k = k') as -> by lia. congruence.
Qed.

Lemma finished_last_unique {A} (m : gmap Z A) t b b' : finished_last m t b -> finished_last m t b' -> b = b'.
Proof.
  destruct b as [b|], b' as [b'|]; cbn; [| | |done].
  - intros (k & Hb & Hk & Hm) (k' & Hb' & Hk' & Hm'). f_equal.
    destruct (Hm k'), (Hm' k); eauto; try lia. assert (k = k') as -> by lia. congruence.
  - intros (k & Hb & Hk & _) Hm. specialize (Hm k ltac:(by eauto)). lia.
  - intros Hm (k & Hb & Hk & _). specialize (Hm k ltac:(by eauto)). lia.
Qed.

(** The choice of the keys, when the last group never finishes. *)
Lemma groups_at_group_of {A} (m : gmap Z A) t :
  is_Some (m !! NO_TIME) -> t < NO_TIME ->
  exists a before, groups_at m t = Some (a, before) /\ forall x, group_of m t x <-> x = a \/ before = Some x.
Proof.
  intros Hm Ht. destruct (groups_at_total m t) as [[a before] Hg]; [by exists NO_TIME|].
  exists a, before. split; [done|]. apply groups_at_sound in Hg as [[k Hk] Hb]. intros x. split.
  - intros [[k' Hk']|Hx]; [left; by eapply in_charge_unique|right; by eapply finished_last_unique].
  - intros [-> | ->]; [left; by eauto|by right].
Qed.

Lemma verifyThresholdSig_groups sig b hash ts :
  cm_verifyRealSignatures C = true -> 2 <= zsize (cm_previousBlsPublicKeys C) ->
  is_Some (cm_previousBlsPublicKeys C !! NO_TIME) -> ts_s ts < NO_TIME ->
  verifyThresholdSig L C (BLSSig L sig b) hash ts = Ok tt <->
  exists key, group_of (cm_previousBlsPublicKeys C) (ts_s ts) key /\ cl_blsVerify L key hash sig = true.
Proof.
  intros Hreal Hsz Hlast Ht. unfold verifyThresholdSig, getSgxBlsPublicKey. rewrite Hreal.
  rewrite (proj2 (Z.eqb_neq _ _)), (proj2 (Z.ltb_ge _ _)) by lia. cbn [orb].
  destruct (groups_at_group_of _ _ Hlast Ht) as (key & before & -> & Hg). cbn [mbind res_bind].
  destruct (cl_blsVerify L key hash sig) eqn:Hv.
  - split; [intros _|done]. exists key. split; [apply Hg; by left|done].
  - destruct before as [old|]; cbn [rcheck].
    + destruct (cl_blsVerify L old hash sig) eqn:Hv'; cbn; (split; [|done || intros (x & [->|[= ->]]%Hg & Hx)]).
      * intros _. exists old. split; [apply Hg; by right|done].
      * done.
      * congruence.
      * congruence.
    + split; [done|]. by intros (x & [->|[=]]%Hg & Hx); congruence.
Qed.

Lemma verifyBlockSig_groups text b hash ts :
  cm_verifyRealSignatures C = true -> 2 <= zsize (cm_previousBlsPublicKeys C) ->
  is_Some (cm_previousBlsPublicKeys C !! NO_TIME) -> ts_s ts < NO_TIME ->
  cm_simulateBLSSigFailBlock C = 0 -> text <> ""%string ->
  verifyBlockSig L C text b hash ts = Ok tt <->
  exists sig key, cl_blsSigOf L text (cm_requiredSigners C) (cm_totalSigners C) = Ok sig /\
    group_of (cm_previousBlsPublicKeys C) (ts_s ts) key /\ cl_blsVerify L key hash sig = true.
Proof.
  intros Hreal Hsz Hlast Ht Hsim Htext. unfold verifyBlockSig, mkBLSSignature. rewrite Hsim, Hreal.
  rewrite (bool_decide_eq_true_2 _ Htext). cbn [Z.ltb Z.compare andb negb rcheck mbind res_bind].
  destruct (cl_blsSigOf L text _ _) as [sig|e] eqn:Hs; cbn [mbind res_bind rnested_all].
  - split.
    + intros Hv%rnested_all_ok. apply verifyThresholdSig_groups in Hv as (key & ? & ?); by eauto.
    + intros (sig' & key & [= <-] & ? & ?).
      by rewrite (proj2 (verifyThresholdSig_groups sig b hash ts Hreal Hsz Hlast Ht)) by eauto.
  - split; [by destruct e|]. naive_solver.
Qed.

(** The key of a node: of a current member, or of a member of the group in
    charge or of the one before. *)
Definition node_key (node t : Z) (key : string) : Prop :=
  cm_ecdsaPublicKeyMap C !! node = Some key \/
  (cm_ecdsaPublicKeyMap C !! node = None /\ cm_historicECDSAPublicKeys C !! node = Some key /\
   exists group, group_of (cm_historicNodeGroups C) t group /\ node ∈ group).

Lemma getECDSAPublicKeyForNodeId_sound node t key :
  is_Some (cm_historicNodeGroups C !! NO_TIME) -> t < NO_TIME -> key <> ""%string ->
  getECDSAPublicKeyForNodeId L C node t = Ok key <-> node_key node t key.
Proof.
  intros Hlast Ht Hk. unfold getECDSAPublicKeyForNodeId, node_key.
  destruct (cm_ecdsaPublicKeyMap C !! node) as [k|]; [naive_solver|].
  unfold getECDSAHistoricPublicKeyForNodeId. rewrite (proj2 (Z.eqb_neq _ _)) by lia.
  destruct (groups_at_group_of _ _ Hlast Ht) as (group & before & -> & Hg). cbn [mbind res_bind].
  case_bool_decide as H1; cbn [orb]; [|case_bool_decide as H2].
  - split.
    + intros [= Hd]. right. destruct (cm_historicECDSAPublicKeys C !! node) eqn:Hn; cbn in Hd; [|done]. subst.
      split_and!; [done..|]. exists group. split; [apply Hg; by left|done].
    + intros [?|(_ & -> & _)]; [done|]. done.
  - split.
    + intros [= Hd]. right. destruct (cm_historicECDSAPublicKeys C !! node) eqn:Hn; cbn in Hd; [|done]. subst.
      split_and!; [done..|]. destruct before as [g|]; [|by apply elem_of_nil in H2]. exists g. split; [apply Hg; by right|done].
    + intros [?|(_ & -> & _)]; [done|]. done.
  - split; [naive_solver|]. intros [?|(_ & _ & g & [-> | ->]%Hg & Hin)]; [done|by destruct H1|by destruct H2].
Qed.
End Keys.

(** ** A client without a certificate *)
Section NoCertificate.
Context (W : wallet_env) (unsigned : wl_sign W = false).

(** Of the JSON libraries: an object without a certificate is printed and read
    as an object without a certificate. *)
Context (no_cert : forall j d, j !! "cert"%string = None -> wl_parse W (c_str (wl_dump W j)) = Ok d ->
  member d "cert" = None).

(** The next request is one that is verified, and ZeroMQ was not found to work. *)
Definition zmq_unused (w : wallet_state W) : Prop := ws_requests w mod 10 = 0 /\ ws_status w <> ZMQ_TRUE.

(** The client verifies its own request, which has no signature: it is never
    sent. *)
Lemma doRequestReply_unsigned req throws w :
  req !! "cert"%string = None -> ws_requests w mod 10 = 0 ->
  exists e, doRequestReply W req throws w = (Err e, w).
Proof.
  intros Hc Hw. assert (wp (doRequestReply W req throws) w (fun r w' => exists e, r = Err e /\ w' = w)) as Hwp.
  { unfold doRequestReply. rewrite unsigned. cbn [negb orb]. wp_simpl.
    do 3 (split; [intros _|by eauto]). rewrite Hw. cbn [Z.eqb]. unfold verifyMsgSig. wp_simpl.
    destruct (wl_parse W (c_str (wl_dump W req))) as [d|e] eqn:Hd; cbn [rnested_all]; [|destruct e; by eauto].
    wp_simpl. destruct (getStringRapid d "type"); [|by eauto]. wp_simpl.
    unfold getStringRapid at 1. rewrite (no_cert req d Hc Hd). by eauto. }
  destruct (doRequestReply W req throws w) as [r w'] eqn:Hr. destruct (wp_run _ _ _ _ _ Hwp Hr) as (e & -> & ->). by eauto.
Qed.

Lemma sign_requests_unsigned w :
  ws_requests w mod 10 = 0 ->
  (forall base key h throws, exists e, ecdsaSignMessageHash W base key h throws w = (Err e, w)) /\
  (forall key h t n throws, exists e, blsSignMessageHash W key h t n throws w = (Err e, w)).
Proof.
  intros Hw. split; intros; unfold ecdsaSignMessageHash, blsSignMessageHash, mbind, M_bind;
    (edestruct doRequestReply_unsigned as [e He]; [|exact Hw|rewrite He; by eauto]); done.
Qed.

(** The probe finds that ZeroMQ does not work. *)
Lemma probe_unsigned probe w :
  (exists e, probe w = (Err e, w)) -> zmq_unused w -> wp (probeZMQ W probe) w (fun _ w' => zmq_unused w').
Proof.
  intros [e He] [Hr Hs]. unfold wp, probeZMQ. destruct (ws_status w) eqn:Hst; [|done|by split; [|cbn; rewrite Hst]].
  rewrite He. assert (zmq_unused (setZmqStatus W ZMQ_FALSE w)) by (by split).
  assert (zmq_unused w) by (split; [done|by rewrite Hst]). by destruct e.
Qed.

Lemma httpRetry_unused ex req events w :
  zmq_unused w -> wp (httpRetry W ex req events) w (fun _ w' => zmq_unused w').
Proof.
  revert w. induction events as [|[exits e] events IH]; intros w Hw; cbn [httpRetry]; [done|].
  wp_simpl. assert (zmq_unused (set_events W events w)) as Hw' by exact Hw. split; [intros _|done].
  destruct e; wp_simpl; [done|by apply IH|done].
Qed.

Lemma http_unused {A} ex req (k : json -> M (wallet_state W) A) w :
  (forall j, keeps id (k j)) -> zmq_unused w -> wp (httpCall W ex req ≫= k) w (fun _ w' => zmq_unused w').
Proof.
  intros Hk Hw. unfold httpCall. wp_simpl. eapply wp_mono; [by apply httpRetry_unused|]. cbn beta.
  intros [j|e] w' Hw'; [|done]. unfold wp. specialize (Hk j w'). unfold id in Hk. by rewrite Hk.
Qed.

Lemma wallet_signing_unused h key t n w :
  zmq_unused w ->
  wp (sgxSignECDSA W h key) w (fun _ w' => zmq_unused w') /\ wp (sgxSignBLS W h key t n) w (fun _ w' => zmq_unused w').
Proof.
  intros Hw. destruct (sign_requests_unsigned w (proj1 Hw)) as [He Hb].
  split; [unfold sgxSignECDSA, checkZMQStatusIfUnknownECDSA|unfold sgxSignBLS, checkZMQStatusIfUnknownBLS];
    rewrite wp_bind; (eapply wp_mono; [by apply probe_unsigned|]); cbn beta; intros [[]|e] w' Hw'; try done;
    rewrite wp_bind, wp_get; destruct (ws_status w') eqn:Hst; try (by destruct (proj2 Hw'));
    apply http_unused; try done; intros j; repeat first [apply keeps_bind; [apply keeps_lift|intros []]|apply keeps_bind; [apply keeps_lift|intros ?]|apply keeps_lift].
Qed.
End NoCertificate.

(** ** The properties *)
Section Properties.
Context (L : crypto_libs) (W : wallet_env) (C : crypto_config L) (parseSpec : string -> res unit).
Local Abbreviation V := (verifier L W C parseSpec).

(** C34: A data availability signature that a node accepts consists of shares of
    the required number of different members, each a valid signature of the hash
    under a session key that was certified with the ECDSA key of a node; and the
    cache of session keys keeps only certified keys. *)
Theorem da_signature_quorum hash signature b t (s : crypto_state L W) :
  cm_isSGXEnabled C = true -> cm_verifyRealSignatures C = true -> keys_inv V (cs_sessionPublicKeys s) ->
  wp (verifyDAProofThresholdSig L W C parseSpec hash signature b t) s (fun r s' =>
    keys_inv V (cs_sessionPublicKeys s') /\
    forall g, r = Ok g -> exists shares,
      g = EdDSASig L (mkEdSignature signature shares) /\ zsize shares = cm_requiredSigners C /\
      forall i sh, shares !! i = Some sh ->
        1 <= i <= cm_totalSigners C /\ es_signerIndex sh = i /\ es_text sh ∈ boost_tokens "*" signature /\
        share_signed L W C parseSpec hash sh).
Proof. intros. by apply verified_da_signature. Qed.

(** C35: Different members are not different keys: once a session key is
    remembered, its holder alone makes a signature that counts for the required
    number of members, for any hash, block and time. *)
Theorem da_signature_one_key hash sig pk pkSig b t (s : crypto_state L W) :
  cm_isSGXEnabled C = true -> cm_verifyRealSignatures C = true ->
  1 <= cm_requiredSigners C <= cm_totalSigners C -> cm_totalSigners C < 2 ^ 64 ->
  (forall c, c = ";"%char \/ c = "*"%char -> token c sig /\ token c pk /\ token c pkSig) ->
  (forall i, 1 <= i <= cm_requiredSigners C -> is_ok (getHistoricNodeIDByIndex L C i t) = true) ->
  lru_inv (cs_sessionPublicKeys s) -> lru_lookup (cs_sessionPublicKeys s) pkSig = Some pk ->
  cl_edVerify L pk sig hash = true ->
  wp (verifyDAProofThresholdSig L W C parseSpec hash (forged_signature L C sig pk pkSig) b t) s
    (fun r _ => is_ok r = true).
Proof.
  intros Hsgx Hreal Hr Hn Htok. destruct (Htok ";"%char) as (? & ? & ?); [by left|].
  destruct (Htok "*"%char) as (? & ? & ?); [by right|]. by apply forged_signature_verifies.
Qed.

(** A member that signs with its own wallet and session keys. *)
Definition member_signs (keyOf : string -> string) (hash : list Z) (b t i : Z) (x : string) : Prop :=
  exists (Wi : wallet_env) (Ci : crypto_config L) ids (si si' : crypto_state L Wi) sh,
    let good h sig := token ";" sig /\ token "*" sig /\ verifyPublicKey V h sig ids t = Ok tt in
    cm_isSGXEnabled Ci = true /\ cm_totalSigners Ci = cm_totalSigners C /\ cm_schainIndex Ci = i /\
    1 <= i <= cm_totalSigners C /\ getHistoricNodeIDByIndex L C i t = Ok ids /\
    (forall h w, wp (sgxSignECDSA Wi h (cm_sgxECDSAKeyName Ci)) w (fun r _ => forall sig, r = Ok sig -> good h sig)) /\
    session_inv L Wi good si /\
    signDAProofSigShare L Wi Ci hash b t false si = (Ok (EdDSAShare L sh), si') /\
    es_text sh = x /\ es_publicKey sh = keyOf (es_pkSig sh).

Lemma member_signs_honest `{!EdDSALaws L} keyOf hash b t i x :
  cm_totalSigners C < 2 ^ 64 -> member_signs keyOf hash b t i x ->
  exists sig pk pkSig, honest_share L W C parseSpec hash b t i x sig pk pkSig /\ pk = keyOf pkSig.
Proof.
  intros Hn (Wi & Ci & ids & si & si' & sh & Hsgx & Htot & Hi & Hrange & Hids & Hw & Hs & Hsign & <- & Hk).
  subst i. pose proof (signed_share_honest L Wi W Ci C parseSpec hash b t ids si) as Hh. cbv zeta in Hh.
  specialize (Hh Hsgx Htot). rewrite Htot in Hh. specialize (Hh Hn Hrange Hids Hw Hs).
  destruct (wp_run _ _ _ _ _ Hh Hsign) as [_ Hr]. destruct (Hr _ eq_refl) as (sh' & [= <-] & _ & _ & Hshare). by eauto.
Qed.

(** When the required number of members sign a proposal, each with its own
    wallet, the proposer merges their shares into one signature, and every node
    that knows the members' keys accepts it. *)
Theorem da_shares_merge `{!EdDSALaws L} keyOf (tm : gmap Z string) p (s : crypto_state L W) :
  cm_isSGXEnabled C = true -> cm_verifyRealSignatures C = true ->
  0 < cm_requiredSigners C -> cm_totalSigners C < 2 ^ 64 -> zsize tm = cm_requiredSigners C ->
  (forall i x, tm !! i = Some x -> member_signs keyOf (dp_hash p) (dp_blockID p) (dp_timeStampS p) i x) ->
  keys_agree keyOf (cs_sessionPublicKeys s) ->
  exists shares sig, collectShares (SigShare L) (createDAShare L C) p (map_items tm) = Ok shares /\
    mergeDAShares L C (dp_blockID p) (dp_timeStampS p) shares = Ok sig /\
    wp (verifyDAProofThresholdSig L W C parseSpec (dp_hash p) sig (dp_blockID p) (dp_timeStampS p)) s
      (fun r _ => is_ok r = true).
Proof.
  intros Hsgx Hreal Hr Hn Hsz Hm Ha. eapply honest_shares_merge; try done.
  intros i x Hx%Hm. by apply member_signs_honest in Hx.
Qed.

(** A block signature is accepted exactly when it verifies under the key of
    the group of nodes in charge at the time of the block, or of the group right
    before it. *)
Theorem block_signature_group text b hash ts :
  cm_verifyRealSignatures C = true -> 2 <= zsize (cm_previousBlsPublicKeys C) ->
  is_Some (cm_previousBlsPublicKeys C !! NO_TIME) -> ts_s ts < NO_TIME ->
  cm_simulateBLSSigFailBlock C = 0 -> text <> ""%string ->
  verifyBlockSig L C text b hash ts = Ok tt <->
  exists sig key, cl_blsSigOf L text (cm_requiredSigners C) (cm_totalSigners C) = Ok sig /\
    group_of (cm_previousBlsPublicKeys C) (ts_s ts) key /\ cl_blsVerify L key hash sig = true.
Proof. apply verifyBlockSig_groups. Qed.

(** The ECDSA key that verifies a node's signature is the one of a current
    member, or the recorded key of a node that belonged to the group in charge at
    that time or to the group before it; every other node has none. *)
Theorem node_key_selection node t key :
  is_Some (cm_historicNodeGroups C !! NO_TIME) -> t < NO_TIME -> key <> ""%string ->
  getECDSAPublicKeyForNodeId L C node t = Ok key <-> node_key L C node t key.
Proof. apply getECDSAPublicKeyForNodeId_sound. Qed.

(** Without a client certificate the wallet is never reached over ZeroMQ,
    because the client rejects its own first request: signing falls back to HTTP
    for good, and the oracle, which has no fallback, can never sign a result. *)
Theorem no_certificate_no_oracle (s : crypto_state L W) text hash b :
  wl_sign W = false -> cm_isSGXEnabled C = true ->
  (forall j d, j !! "cert"%string = None -> wl_parse W (c_str (wl_dump W j)) = Ok d -> member d "cert" = None) ->
  zmq_unused W (cs_wallet s) ->
  is_ok (signOracleResult L W C text s).1 = false /\ (signOracleResult L W C text s).2 = s /\
  wp (sign L W C hash) s (fun _ s' => zmq_unused W (cs_wallet s')) /\
  wp (signBlockSigShare L W C hash b) s (fun _ s' => zmq_unused W (cs_wallet s')).
Proof.
  intros Hu Hsgx Hno Hz.
  destruct (sign_requests_unsigned W Hu Hno (cs_wallet s) (proj1 Hz)) as [He _].
  destruct (He 16 (cm_sgxECDSAKeyName C) (hashForOracle L text) true) as [e Hreq].
  assert (exists e, signOracleResult L W C text s = (Err e, s)) as [e' ->].
  { unfold signOracleResult. rewrite Hsgx. unfold mbind, M_bind, check. case_bool_decide; [|by eauto].
    cbn. unfold on_wallet, zoom. rewrite Hreq. exists e. by destruct s. }
  split_and!; [done..| |].
  - unfold sign. rewrite Hsgx. wp_simpl. split; [intros _|done]. unfold on_wallet. rewrite wp_zoom.
    exact (proj1 (wallet_signing_unused W Hu Hno hash _ 0 0 _ Hz)).
  - unfold signBlockSigShare, signSigShare. rewrite Hsgx. cbn [andb negb]. wp_simpl. split; [intros _|done].
    unfold on_wallet. rewrite wp_zoom. eapply wp_mono; [exact (proj2 (wallet_signing_unused W Hu Hno hash _ _ _ _ Hz))|].
    intros [x|e2] w Hw; [|done]. wp_simpl. destruct (cl_blsShareOf L x _ _ _); wp_simpl; done.
Qed.
End Properties.

(** ** Examples

    A toy scheme: the public key names the private one, and a signature repeats
    the hash. *)
Definition is_hex_char (c : ascii) : bool :=
  let n := char_code c in ((48 <=? n) && (n <=? 57)) || ((97 <=? n) && (n <=? 102)).

Lemma toHex_no_char c h : is_hex_char c = false -> has_char c (toHex h) = false.
Proof.
  unfold is_hex_char, toHex. intros Hc. assert (forall n, 0 <= n < 16 -> hexval n <> char_code c /\ 0 <= hexval n < 256) as Hv.
  { intros n Hn. unfold hexval. destruct (Z.ltb_spec n 10); lia. }
  induction h as [|x h IH]; [done|]. cbn [carray2Hex bytes_string has_char]. rewrite IH, orb_false_r.
  assert (forall n, 0 <= n < 16 -> Ascii.eqb c (ascii_of_N (Z.to_N (hexval n))) = false) as He.
  { intros n [Hne Hr]%Hv. apply Ascii.eqb_neq. intros ->. apply Hne. unfold char_code.
    rewrite N_ascii_embedding by lia. lia. }
  by rewrite !He by (apply land15_range || done).
Qed.

Definition toy_public (k : Z) : string := "K" +:+ to_string k.
Definition toy_sign (k : Z) (h : list Z) : string := "S" +:+ to_string k +:+ "h" +:+ toHex h.
Definition toy_pad : string := "000000000000000000000000000000000000000000000000000000000000".

Definition toy_libs : crypto_libs := {|
  cl_blake3 := fun l => take 32 (l ++ repeat 7 32); cl_keccak := fun l => take 32 (l ++ repeat 7 32);
  cl_edKey := Z; cl_edGenerate := id; cl_edPublic := toy_public; cl_edSign := toy_sign;
  cl_edVerify := fun pk sig h =>
    match pk with String _ k => String.eqb sig ("S" +:+ k +:+ "h" +:+ toHex h) | EmptyString => false end;
  cl_ecKey := string; cl_ecPoint := fun x _ => Some x;
  cl_ecVerify := fun key r s h => String.eqb key (toy_pad +:+ r) && String.eqb s ("s" +:+ toHex h);
  cl_blsKey := Z; cl_blsSig := Z; cl_blsShare := Z; cl_blsSet := list Z;
  cl_blsVerify := fun key _ sig => key =? sig;
  cl_blsSigOf := fun t _ _ => lexical_cast_u64 t; cl_blsSigText := fun s => Ok (to_string s); cl_blsRandom := Ok;
  cl_blsShareOf := fun _ i _ _ => Ok i; cl_blsShareText := fun s => Ok (to_string s); cl_blsShareIndex := id;
  cl_blsShareVerify := fun _ _ _ _ _ => Ok true;
  cl_blsSetNew := fun _ _ => []; cl_blsSetAdd := fun l s => Ok (true, s :: l); cl_blsSetEnough := fun l => 3 <=? zlen l;
  cl_blsSetMerge := fun _ => Ok 20 |}.

#[local] Instance toy_laws : EdDSALaws toy_libs.
Proof.
  split.
  - intros k h. cbn. apply String.eqb_refl.
  - intros k c Hc. split; [done|]. cbn [cl_edPublic toy_libs]. unfold toy_public.
    rewrite has_char_app, (proj2 (to_string_token c k ltac:(by destruct Hc as [-> | ->]))). by destruct Hc as [-> | ->].
  - intros k h c Hc. split; [done|]. cbn [cl_edSign toy_libs]. unfold toy_sign.
    rewrite !has_char_app, (proj2 (to_string_token c k ltac:(by destruct Hc as [-> | ->]))), toHex_no_char
      by (by destruct Hc as [-> | ->]). by destruct Hc as [-> | ->].
Qed.

(** A wallet that only answers over HTTP. *)
Definition toy_wallet : wallet_env := {|
  wl_sign := false; wl_cert := ""; wl_key := ""; wl_pubkey := unit;
  wl_dump := fun _ => ""%string; wl_parse := fun _ => Err InvalidStateException; wl_write := fun _ => ""%string;
  wl_digestSign := id; wl_readCert := fun _ => Err InvalidStateException; wl_digestVerify := fun _ _ _ => false;
  wl_zmqServe := fun _ _ => ""%string;
  wl_httpServe := fun _ req =>
    match req !! "keyName"%string, req !! "messageHash"%string with
    | Some (JStr key), Some (JStr h) =>
        <["status"%string := JNum 0]> (<["signature_r"%string := JStr ("0x" +:+ key)]>
          (<["signature_v"%string := JStr "0"]> (<["signature_s"%string := JStr ("0xs" +:+ h)]> ∅)))
    | _, _ => ∅
    end |}.

Definition toy_key (i : Z) : string := "key" +:+ to_string i.

(** Four members, three of them required; one rotation, at time 1000. *)
Definition toy_manager (i : Z) : crypto_config toy_libs := {|
  cm_isSGXEnabled := true; cm_isSyncNode := false; cm_verifyRealSignatures := true;
  cm_totalSigners := 4; cm_requiredSigners := 3; cm_schainID := 1; cm_schainIndex := i;
  cm_nodeIDs := [101; 102; 103; 104]; cm_sgxECDSAKeyName := toy_key i; cm_sgxBlsKeyName := "bls";
  cm_ecdsaPublicKeyMap := list_to_map ((fun i => (100 + i, toy_pad +:+ toy_key i)) <$> [1; 2; 3; 4]);
  cm_historicECDSAPublicKeys := {[105 := toy_pad +:+ toy_key 5]};
  cm_historicNodeGroups := <[1000 := [101; 102; 103; 105]]> {[NO_TIME := [101; 102; 103; 104]]};
  cm_sgxBLSPublicKey := Some (20 : cl_blsKey toy_libs);
  cm_previousBlsPublicKeys := <[1000 := (10 : cl_blsKey toy_libs)]> {[NO_TIME := 20]};
  cm_blsPublicKeySharesMapByIndex := ∅; cm_simulateBLSSigFailBlock := 0 |}.

Definition toy_events : list (bool * wallet_event) := repeat (false, WalletAnswers 0) 4.
Definition toy_state : crypto_state toy_libs toy_wallet := newCrypto toy_libs toy_wallet toy_events.
Definition toy_spec (_ : string) : res unit := Ok tt.
Local Abbreviation toy_V := (verifier toy_libs toy_wallet (toy_manager 1) toy_spec).

(** The share of a member for a hash, block 5, time 2000. *)
Definition toy_share (i : Z) : string :=
  match (signDAProofSigShare toy_libs toy_wallet (toy_manager i) (repeat 9 32) 5 2000 false toy_state).1 with
  | Ok (EdDSAShare _ s) => es_text s
  | _ => ""
  end.

Definition toy_shares : gmap Z string := list_to_map ((fun i => (i, toy_share i)) <$> [1; 2; 4]).

Definition toy_signature : res string :=
  shares ← collectShares _ (createDAShare toy_libs (toy_manager 1))
    {| dp_blockID := 5; dp_proposerIndex := 1; dp_hash := repeat 9 32; dp_timeStampS := 2000 |} (map_items toy_shares);
  mergeDAShares toy_libs (toy_manager 1) 5 2000 shares.

Local Abbreviation toy_verify text :=
  (verifyDAProofThresholdSig toy_libs toy_wallet (toy_manager 1) toy_spec (repeat 9 32) text 5 2000).

Lemma toy_keys_inv : keys_inv toy_V (cs_sessionPublicKeys toy_state).
Proof. by apply keys_inv_new. Qed.

Definition toy_text : string := match toy_signature with Ok text => text | Err _ => "" end.

Example toy_verifies : is_ok toy_signature && is_ok (toy_verify toy_text toy_state).1 = true.
Proof. by vm_compute. Qed.

Lemma da_signature_quorum_witness :
  exists shares,
    (toy_verify toy_text toy_state).1 = Ok (EdDSASig toy_libs (mkEdSignature toy_text shares)) /\ zsize shares = 3 /\
    forall i sh, shares !! i = Some sh ->
      1 <= i <= 4 /\ share_signed toy_libs toy_wallet (toy_manager 1) toy_spec (repeat 9 32) sh.
Proof.
  pose proof (da_signature_quorum toy_libs toy_wallet (toy_manager 1) toy_spec (repeat 9 32) toy_text 5 2000 toy_state
    eq_refl eq_refl toy_keys_inv) as [_ Hq].
  pose proof (proj2 (andb_prop _ _ toy_verifies)) as Hok. destruct (toy_verify toy_text toy_state).1 as [g|]; [|done].
  destruct (Hq g eq_refl) as (shares & -> & Hsz & Hsh). exists shares. split_and!; [done..|].
  intros i sh Hi. destruct (Hsh i sh Hi) as (Hr & _ & _ & Hs). by split.
Defined.

(** The key of member 1, remembered from any of its messages. *)
Definition toy_pkSig : string := "0:key1:s".
Definition toy_remembers : crypto_state toy_libs toy_wallet :=
  set_sessionPublicKeys toy_libs toy_wallet (putUnsafe toy_pkSig (toy_public 0) (lru_new 16)) toy_state.

Lemma da_signature_one_key_witness :
  wp (verifyDAProofThresholdSig toy_libs toy_wallet (toy_manager 2) toy_spec (repeat 1 32)
        (forged_signature toy_libs (toy_manager 2) (toy_sign 0 (repeat 1 32)) (toy_public 0) toy_pkSig) 6 2000)
    toy_remembers (fun r _ => is_ok r = true).
Proof.
  apply da_signature_one_key.
  - reflexivity.
  - reflexivity.
  - cbn. lia.
  - cbn. lia.
  - intros c [-> | ->]; split_and!; (split; [discriminate|reflexivity]).
  - intros i Hi. cbn in Hi. assert (i = 1 \/ i = 2 \/ i = 3) as [-> | [-> | ->]] by lia; vm_compute; reflexivity.
  - apply lru_putUnsafe_inv, lru_new_inv. lia.
  - vm_compute. reflexivity.
  - vm_compute. reflexivity.
Defined.

(** What the toy wallet answers. *)
Lemma toy_wallet_signs key h w :
  wp (sgxSignECDSA toy_wallet h key) w (fun r _ => forall sig, r = Ok sig ->
    sig = "0:" +:+ key +:+ ":" +:+ "s" +:+ toHex h).
Proof.
  unfold sgxSignECDSA. rewrite wp_bind. unfold wp at 1.
  destruct (checkZMQStatusIfUnknownECDSA toy_wallet key w) as [[[]|e] w'] eqn:Hp; cbn [fst snd]; [|done].
  rewrite wp_bind, wp_get.
  assert (forall ex events w0, wp (httpRetry toy_wallet ex (ecdsaSignRequest 16 key (toHex h)) events) w0
    (fun r _ => forall j, r = Ok j -> j = wl_httpServe toy_wallet 0 (ecdsaSignRequest 16 key (toHex h)))) as Hh.
  { intros ex events. induction events as [|[ex' e] events IH]; intros w0; cbn [httpRetry]; [done|].
    wp_simpl. split; [intros _|done]. destruct e; wp_simpl; [by intros j [= <-]|apply IH|done]. }
  destruct (ws_status w'); [|done|]; unfold httpCall; rewrite wp_bind, wp_bind, wp_get;
    (eapply wp_mono; [apply Hh|]); cbn beta; intros [j|e] w2 Hj; try done; rewrite (Hj j eq_refl); by intros sig [= <-].
Qed.

Definition toy_good (i t : Z) (h : list Z) (sig : string) : Prop :=
  token ";" sig /\ token "*" sig /\ verifyPublicKey toy_V h sig
    (match getHistoricNodeIDByIndex toy_libs (toy_manager 1) i t with Ok ids => ids | Err _ => (0, 0) end) t = Ok tt.

Lemma toy_verifyECDSASig h i :
  i = 1 \/ i = 2 \/ i = 4 ->
  verifyECDSASig toy_libs (toy_manager 1) h ("0:" +:+ toy_key i +:+ ":" +:+ "s" +:+ toHex h) (100 + i) 2000 = Ok tt.
Proof.
  intros Hi. unfold verifyECDSASig. rewrite (bool_decide_eq_true_2 (_ +:+ _ <> ""%string)) by discriminate. cbn [rcheck mbind res_bind].
  change (cm_isSGXEnabled (toy_manager 1)) with true. cbv iota.
  assert (getECDSAPublicKeyForNodeId toy_libs (toy_manager 1) (100 + i) 2000 = Ok (toy_pad +:+ toy_key i)) as ->
    by (by destruct Hi as [-> | [-> | ->]]; vm_compute).
  cbn [mbind res_bind]. rewrite (bool_decide_eq_true_2 (_ +:+ _ <> ""%string)) by discriminate.
  cbn [rcheck mbind res_bind]. unfold verifyECDSA.
  assert (importSGXPubKey toy_libs (toy_pad +:+ toy_key i) = Ok (toy_pad +:+ toy_key i)) as ->
    by (by destruct Hi as [-> | [-> | ->]]; vm_compute).
  cbn [mbind res_bind]. unfold verifySGXSig.
  set (y := "s" +:+ toHex h).
  assert (cut ":" ("0:" +:+ toy_key i +:+ ":" +:+ y) = Some ("0"%string, toy_key i +:+ ":" +:+ y)) as -> by reflexivity.
  assert (cut ":" (toy_key i +:+ ":" +:+ y) = Some (toy_key i, y)) as -> by (by destruct Hi as [-> | [-> | ->]]).
  assert (exists c k, toy_key i +:+ ":" +:+ y = String c k) as (c & k & ->) by (by destruct Hi as [-> | [-> | ->]]; eauto).
  unfold y. rewrite bool_decide_eq_false_2 by (by destruct Hi as [-> | [-> | ->]]).
  assert (cl_ecVerify toy_libs (toy_pad +:+ toy_key i) (toy_key i) ("s" +:+ toHex h) h = true) as Hv.
  { cbn [cl_ecVerify toy_libs]. by rewrite !String.eqb_refl. }
  by rewrite Hv.
Qed.

(** The current members' signatures are good. *)
Lemma toy_member_good i h w :
  i = 1 \/ i = 2 \/ i = 4 ->
  wp (sgxSignECDSA toy_wallet h (cm_sgxECDSAKeyName (toy_manager i))) w
    (fun r _ => forall sig, r = Ok sig -> toy_good i 2000 h sig).
Proof.
  intros Hi. eapply wp_mono; [apply toy_wallet_signs|]. cbn beta. intros r _ Hr sig ->.
  rewrite (Hr sig eq_refl). clear Hr. split_and!.
  - split; [done|]. rewrite !has_char_app, toHex_no_char by done. by destruct Hi as [-> | [-> | ->]].
  - split; [done|]. rewrite !has_char_app, toHex_no_char by done. by destruct Hi as [-> | [-> | ->]].
  - pose proof (toy_verifyECDSASig h i Hi) as Hv. unfold verifyPublicKey.
    assert ((match getHistoricNodeIDByIndex toy_libs (toy_manager 1) i 2000 with Ok ids => ids | Err _ => (0, 0) end).1
      = 100 + i) as -> by (by destruct Hi as [-> | [-> | ->]]; vm_compute).
    change (nc_verifyECDSASig toy_V) with (verifyECDSASig toy_libs (toy_manager 1)).
    change (cm_sgxECDSAKeyName (toy_manager i)) with (toy_key i). by rewrite Hv.
Qed.

Definition toy_da : DaProposal :=
  {| dp_blockID := 5; dp_proposerIndex := 1; dp_hash := repeat 9 32; dp_timeStampS := 2000 |}.

Lemma toy_member_signs i :
  i = 1 \/ i = 2 \/ i = 4 ->
  member_signs toy_libs toy_wallet (toy_manager 1) toy_spec (fun _ => toy_public 0) (repeat 9 32) 5 2000 i (toy_share i).
Proof.
  intros Hi.
  destruct (signDAProofSigShare toy_libs toy_wallet (toy_manager i) (repeat 9 32) 5 2000 false toy_state)
    as [r s'] eqn:Hs.
  assert (exists sh, r = Ok (EdDSAShare toy_libs sh) /\ es_text sh = toy_share i /\ es_publicKey sh = toy_public 0)
    as (sh & -> & Ht & Hpk).
  { assert (match r with Ok (EdDSAShare _ sh) => String.eqb (es_publicKey sh) (toy_public 0) | _ => false end = true)
      as Hr by (apply (f_equal fst) in Hs; cbn [fst] in Hs; subst r; destruct Hi as [-> | [-> | ->]]; vm_compute; reflexivity).
    unfold toy_share. rewrite Hs. cbn [fst]. destruct r as [[sh|sh b' i'|x b' i']|e]; try discriminate.
    exists sh. by apply String.eqb_eq in Hr. }
  exists toy_wallet, (toy_manager i),
    (match getHistoricNodeIDByIndex toy_libs (toy_manager 1) i 2000 with Ok ids => ids | Err _ => (0, 0) end),
    toy_state, s', sh.
  split; [done|]. split; [done|]. split; [done|]. split; [cbn; lia|].
  split; [by destruct Hi as [-> | [-> | ->]]; vm_compute|].
  split; [intros h w; by apply toy_member_good|]. split; [apply session_inv_new|]. by split_and!.
Qed.

Lemma da_shares_merge_witness :
  exists shares sig, collectShares _ (createDAShare toy_libs (toy_manager 1)) toy_da (map_items toy_shares) = Ok shares /\
    mergeDAShares toy_libs (toy_manager 1) 5 2000 shares = Ok sig /\
    wp (verifyDAProofThresholdSig toy_libs toy_wallet (toy_manager 1) toy_spec (repeat 9 32) sig 5 2000) toy_state
      (fun r _ => is_ok r = true).
Proof.
  apply (da_shares_merge toy_libs toy_wallet (toy_manager 1) toy_spec (fun _ => toy_public 0) toy_shares toy_da toy_state).
  - reflexivity.
  - reflexivity.
  - reflexivity.
  - reflexivity.
  - vm_compute. reflexivity.
  - intros i x Hx. apply elem_of_list_to_map_2 in Hx. apply list_elem_of_fmap in Hx as (j & [= -> ->] & Hj).
    apply toy_member_signs. set_solver.
  - split; [by apply lru_new_inv|done].
Defined.

Lemma block_signature_group_witness :
  verifyBlockSig toy_libs (toy_manager 1) "10" 7 (repeat 9 32) {| ts_s := 1500; ts_ms := 0 |} = Ok tt.
Proof.
  apply block_signature_group; [reflexivity|vm_compute; discriminate|vm_compute; eauto|reflexivity|reflexivity|done|].
  exists 10, 10. split; [vm_compute; reflexivity|]. split; [|reflexivity]. right. exists 1000.
  split; [vm_compute; reflexivity|]. split; [done|]. intros k Hk. cbn -[NO_TIME] in Hk.
  rewrite lookup_insert_is_Some, lookup_singleton_is_Some in Hk. destruct Hk as [<-|[_ <-]]; [left; done|right; vm_compute; done].
Defined.

Lemma node_key_selection_witness :
  node_key toy_libs (toy_manager 1) 105 1500 (toy_pad +:+ toy_key 5).
Proof.
  apply node_key_selection; [vm_compute; eauto|reflexivity|discriminate|]. vm_compute. reflexivity.
Defined.

Lemma no_certificate_no_oracle_witness :
  is_ok (signOracleResult toy_libs toy_wallet (toy_manager 1) "result" toy_state).1 = false /\
  wp (sign toy_libs toy_wallet (toy_manager 1) (repeat 9 32)) toy_state (fun _ s' => zmq_unused toy_wallet (cs_wallet s')).
Proof.
  destruct (no_certificate_no_oracle toy_libs toy_wallet (toy_manager 1) toy_state "result" (repeat 9 32) 5)
    as (H1 & _ & H2 & _); [reflexivity|reflexivity|intros j d _ H; discriminate H|by split|]. by split.
Defined.

(** ** A node that only synchronizes

    It verifies block signatures when it has the keys, but no share of a data
    availability signature: any text of the right form is accepted. *)
Lemma ed_verify_sync (L : crypto_libs) W (C : crypto_config L) parseSpec hash i sh (s : crypto_state L W) :
  cm_isSGXEnabled C = false -> cm_isSyncNode C = true -> cs_sessionPublicKeys s = lru_new SESSION_PUBLIC_KEY_CACHE_SIZE ->
  es_sig sh <> ""%string -> is_ok (getHistoricNodeIDByIndex L C i (es_timestamp sh)) = true ->
  wp (ed_verify L W C parseSpec sh hash i) s
    (fun r s' => r = Ok tt /\ cs_sessionPublicKeys s' = lru_new SESSION_PUBLIC_KEY_CACHE_SIZE).
Proof.
  intros Hsgx Hsync Hc Hs Hi. unfold ed_verify, on_publicKeys. wp_simpl.
  destruct (getHistoricNodeIDByIndex L C i (es_timestamp sh)) as [ids|]; [|done]. wp_simpl. rewrite wp_zoom, Hc.
  unfold verifySessionSigAndKey. rewrite (bool_decide_eq_true_2 _ Hs). wp_simpl. split; [intros _|done].
  apply wp_lru_getIfExists; [by apply lru_new_inv|]. change (nc_isSGXEnabled _) with (cm_isSGXEnabled C). rewrite Hsgx.
  wp_simpl. unfold verifySessionEdDSASig. rewrite (bool_decide_eq_true_2 _ Hs).
  change (nc_isSGXEnabled _) with (cm_isSGXEnabled C). change (nc_isSyncOnlyNode _) with (cm_isSyncNode C).
  by rewrite Hsgx, Hsync.
Qed.

Lemma mapM_verify_sync (L : crypto_libs) W (C : crypto_config L) parseSpec hash (l : list (Z * EdDSASigShare))
    (s : crypto_state L W) :
  cm_isSGXEnabled C = false -> cm_isSyncNode C = true -> cs_sessionPublicKeys s = lru_new SESSION_PUBLIC_KEY_CACHE_SIZE ->
  (forall i sh, (i, sh) ∈ l -> es_sig sh <> ""%string /\ is_ok (getHistoricNodeIDByIndex L C i (es_timestamp sh)) = true) ->
  wp (mapM_ (fun x => ed_verify L W C parseSpec x.2 hash x.1) l) s (fun r _ => r = Ok tt).
Proof.
  intros Hsgx Hsync. revert s. induction l as [|[i sh] l IH]; intros s Hc Hl; cbn [mapM_]; wp_simpl; [done|].
  destruct (Hl i sh) as [Hs Hi]; [by left|]. eapply wp_mono; [by apply ed_verify_sync|]. cbn beta.
  intros r s' [-> Hc']. apply IH; [done|]. intros j sh' Hj. apply Hl. by right.
Qed.

Lemma sync_node_accepts_any (L : crypto_libs) W (C : crypto_config L) parseSpec hash b t (l : list (Z * string))
    (s : crypto_state L W) :
  cm_isSGXEnabled C = false -> cm_isSyncNode C = true -> cm_verifyRealSignatures C = true ->
  cs_sessionPublicKeys s = lru_new SESSION_PUBLIC_KEY_CACHE_SIZE ->
  0 < cm_requiredSigners C -> zlen l = cm_requiredSigners C -> NoDup l.*1 -> Forall (token "*") l.*2 ->
  (forall i x, (i, x) ∈ l -> exists sh, mkEdDSASigShare x b t (cm_totalSigners C) = Ok sh /\ es_signerIndex sh = i /\
     es_sig sh <> ""%string /\ is_ok (getHistoricNodeIDByIndex L C i t) = true) ->
  wp (verifyDAProofThresholdSig L W C parseSpec hash (pop_back_char (star_join l.*2)) b t) s
    (fun r _ => is_ok r = true).
Proof.
  intros Hsgx Hsync Hreal Hc Hr Hlen Hnd Htok Hl. apply verify_merged; [done..| |].
  - intros i x (sh & ? & ? & _)%Hl. by eauto.
  - intros l' Hl'. apply mapM_verify_sync; [done..|]. intros i sh (x & Hx & Hmk)%Hl'.
    destruct (Hl i x Hx) as (sh' & Hsh & _ & Hsig & Hids). rewrite Hsh in Hmk. injection Hmk as <-.
    apply mkEdDSASigShare_sound in Hsh as (_ & _ & -> & _). by split.
Qed.

(** The port of the wallet cannot be left out. *)
Example wallet_url_without_port : parseSGXDomainAndPort "https://wallet" = Err StdOutOfRange.
Proof. reflexivity. Qed.

Example wallet_url : parseSGXDomainAndPort "https://wallet:1026" = Ok ("wallet"%string, 1026).
Proof. reflexivity. Qed.
