(* ===== verification/ProposalClient.v ===== *)
(** * The proposal client

    Model of [AbstractClientAgent] ([src/abstracttcpclient/AbstractClientAgent.cpp]),
    the queues of proposals and data availability proofs with one thread per
    node, and of [BlockProposalClientAgent]
    ([src/blockproposal/pusher/BlockProposalClientAgent.cpp]), which pushes them
    to a node and collects its signature share. *)

From stdpp Require Import base tactics gmap list strings.
From Stdlib Require Import ZArith Lia.
From S2P Require Import Prelude Bytes Messages LruCache LevelDb LevelDbSets ProposalVector ProtocolDbs.
From S2P Require Import Transactions Pricing PendingQueue Blocks Fragments BlockStore ProposalStore OtherDbs.
From S2P Require Import Schain Headers Tcp ProposalServer Catchup NetMessages SgxClient Crypto.

Definition MAX_PROPOSAL_QUEUE_SIZE : Z := 4.

(** The state of the agent.  [pu_current] is the item that the thread of a node
    is sending, [pu_done] the items that it is done with, in order. *)
Record pusher {D : Type} {L : crypto_libs} {W : wallet_env} := mkPusher {
  pu_client : client D;
  pu_crypto : crypto_state L W;
  pu_queues : gmap Z (list client_item);
  pu_current : gmap Z client_item;
  pu_done : gmap Z (list client_item)
}.
Arguments pusher : clear implicits.
Arguments mkPusher {D L W}.

Section Pusher.
Context {D : Type} `{KVStore D}.
Context (C : chain_config) (K : crypto) (nodes : node_infos).
Context (L : crypto_libs) (W : wallet_env) (CM : crypto_config L) (parseSpec : string -> res unit).
Local Abbreviation state := (pusher D L W).

Definition set_client x (s : state) : state :=
  mkPusher x (pu_crypto s) (pu_queues s) (pu_current s) (pu_done s).
Definition set_crypto x (s : state) : state :=
  mkPusher (pu_client s) x (pu_queues s) (pu_current s) (pu_done s).
Definition set_queues x (s : state) : state :=
  mkPusher (pu_client s) (pu_crypto s) x (pu_current s) (pu_done s).
Definition set_current x (s : state) : state :=
  mkPusher (pu_client s) (pu_crypto s) (pu_queues s) x (pu_done s).
Definition set_done x (s : state) : state :=
  mkPusher (pu_client s) (pu_crypto s) (pu_queues s) (pu_current s) x.

Definition on_client {A} (c : M (client D) A) : M state A := zoom pu_client set_client c.
Definition on_crypto {A} (c : M (crypto_state L W) A) : M state A := zoom pu_crypto set_crypto c.
Definition pu_on_conn {A} (c : M connection A) : M state A := on_client (cl_on_conn c).
Definition pu_on_chain {A} (c : M (schain D) A) : M state A := on_client (cl_on_chain c).

(** ** Sending a proposal *)
Definition readHeader : M state json := pu_on_conn (readJsonHeader (cr_json_parse K) MAX_HEADER_SIZE).
Definition sendHeader (h : Header) : M state unit :=
  nested NetworkProtocolException (pu_on_conn (writeHeader (cr_json_dump K) (cr_u256_str K) h)).

Definition readMissingTransactionsRequestHeader : M state Z :=
  js ← readHeader;
  lift_res (getUint64 js "status") ;;
  lift_res (getUint64 js "substatus") ;;
  lift_res (getUint64 js "count").

(** The hashes, each of [PARTIAL_HASH_LEN] bytes. *)
Fixpoint cutHashes (count : nat) (bytes : list Z) : list (list Z) :=
  match count with
  | O => []
  | S count => take (Z.to_nat PARTIAL_HASH_LEN) bytes :: cutHashes count (drop (Z.to_nat PARTIAL_HASH_LEN) bytes)
  end.

(** A set, so that repeated hashes count once. *)
Definition readMissingHashes (count : Z) : M state (gset (list Z)) :=
  CHECK_ARGUMENT (0 <? count) ;;
  let bytesToRead := u64 (count * PARTIAL_HASH_LEN) in
  lift_res (allocate bytesToRead) ;;
  CHECK_STATE (0 <? bytesToRead) ;;
  buffer ← nested NetworkProtocolException (pu_on_conn (io_readBytes bytesToRead bytesToRead));
  nested NetworkProtocolException
    (check StdOutOfRange (count * PARTIAL_HASH_LEN <=? zlen buffer) ;;
     mret (list_to_set (cutHashes (Z.to_nat count) buffer))).

Definition selectMissing (missing : gset (list Z)) (ts : list Transaction) : list Transaction :=
  filter (fun t => tx_getPartialHash (cr_blake3 K) t ∈ missing) ts.

Fixpoint missingSizes (ts : list Transaction) : res (list Z) :=
  match ts with
  | [] => Ok []
  | t :: ts => x ← getSerializedSize t false; l ← missingSizes ts; Ok (x :: l)
  end.

Definition sendMissing (p : BlockProposal) (count : Z) : M state unit :=
  missingHashes ← nested NetworkProtocolException (readMissingHashes count);
  let missingTransactions := selectMissing missingHashes (tl_transactions (bp_transactionList p)) in
  sizes ← lift_res (missingSizes missingTransactions);
  CHECK_STATE (zlen missingTransactions =? count) ;;
  sendHeader (setComplete (newHeader "MsngTxsRsp" (BodyMissingResponse sizes))) ;;
  nested NetworkProtocolException
    (bytes ← lift_res (tl_serialize (cr_blake3 K) false (mkTransactionList missingTransactions)).1;
     pu_on_conn (io_writeBytes bytes)).

(** The partial hashes of all transactions, then the transactions that the node
    does not have. *)
Definition sendTransactions (p : BlockProposal) : M state unit :=
  let ts := tl_transactions (bp_transactionList p) in
  phList ← lift_res (createPartialHashesList (cr_blake3 K) (zlen ts) ts);
  (if 0 <? ph_transactionCount phList
   then nested NetworkProtocolException (pu_on_conn (io_writeBytes (ph_partialHashes phList)))
   else mret tt) ;;
  count ← nested NetworkProtocolException readMissingTransactionsRequestHeader;
  if count =? 0 then mret tt else sendMissing p count.

Definition readAndProcessFinalProposalResponseHeader : M state Header :=
  js ← readHeader;
  status ← lift_res (getUint64 js "status");
  subStatus ← lift_res (getUint64 js "substatus");
  if u32 status =? CONNECTION_SUCCESS then
    sss ← lift_res (getString js "sss");
    sig ← lift_res (getString js "sig");
    pk ← lift_res (getString js "pk");
    pks ← lift_res (getString js "pks");
    lift_res (mkFinalResponse sss sig pk pks)
  else lift_res (mkFinalResponseError (u32 status) (u32 subStatus)).

(** [try { ... } catch ( ... ) {}] around the two fields. *)
Definition statusOf (response : json) : Z * Z :=
  match getUint64 response "status" with
  | Err _ => (CONNECTION_STATUS_UNKNOWN, CONNECTION_SUBSTATUS_UNKNOWN)
  | Ok status =>
      match getUint64 response "substatus" with
      | Err _ => (u32 status, CONNECTION_SUBSTATUS_UNKNOWN)
      | Ok substatus => (u32 status, u32 substatus)
      end
  end.

(** The share of the node, verified and handed to the chain. *)
Definition acceptShare (p : BlockProposal) (index : Z) (sss sig pk pks : string) : M state unit :=
  sigShare ← lift_res (createDAProofSigShare L CM sss (bp_blockID p) index (bp_timeStamp p) false);
  on_crypto (verifyDAProofSigShare L W CM parseSpec sigShare index (bp_hash p) false) ;;
  h ← lift_res (shareHash L sigShare);
  nodeID ← match getNodeInfoByIndex nodes index with
           | Some id => mret id
           | None => throw InvalidStateException
           end;
  nested_all InvalidStateException
    (on_crypto (on_publicKeys L W (verifySessionSigAndKey (verifier L W CM parseSpec)
       (merkleTreeMerge (cr_blake3 K) (bp_hash p) h) sig pk pks (bp_blockID p) (nodeID, NO_TIME) (bp_timeStamp p)))) ;;
  text ← lift_res (shareString L sigShare);
  pu_on_chain (daProofSigShareArrived C K
    {| ss_text := text; ss_blockId := bp_blockID p; ss_signerIndex := getSignerIndex L sigShare |} p).

Definition sendBlockProposal (p : BlockProposal) (index : Z) : M state (Z * Z) :=
  header ← lift_res (mkProposalRequest (cc_nodeCount C) (cc_schainID C) (cc_schainIndex C) (cc_nodeID C) p);
  sendHeader header ;;
  response ← readHeader;
  let result := statusOf response in
  if negb (result.1 =? CONNECTION_PROCEED) then mret result
  else
    sendTransactions p ;;
    finalHeader ← readAndProcessFinalProposalResponseHeader;
    let finalResult := getStatusSubStatus finalHeader in
    if negb (finalResult.1 =? CONNECTION_SUCCESS) then mret finalResult
    else
      match hd_body finalHeader with
      | BodyFinalResponse sss sig pk pks => acceptShare p index sss sig pk pks
      | _ => throw InvalidStateException
      end ;;
      mret finalResult.

(** ** Sending a data availability proof *)
Definition sendDAProof (proof : DAProof) : M state (Z * Z) :=
  header ← lift_res (mkDAProofRequest (cc_nodeCount C) (cc_schainID C) (cc_schainIndex C) (cc_nodeID C) proof
    (da_blockID proof));
  sendHeader header ;;
  response ← readHeader;
  mret (statusOf response).

Definition sendItemImpl (item : client_item) (index : Z) : M state (Z * Z) :=
  match item with
  | ItemProposal p => sendBlockProposal p index
  | ItemProof proof => sendDAProof proof
  end.

(** ** The queues *)

(** The loop of [sendItem]: again as long as the node asks to retry later.  Each
    attempt is a new connection. *)
Fixpoint sendItem (item : client_item) (dstIndex : Z) (outcomes : list connect_result) : M state unit :=
  match outcomes with
  | [] => throw OutOfFuel
  | outcome :: outcomes =>
      CHECK_STATE (negb (dstIndex =? cc_schainIndex C)) ;;
      death ← on_client (cl_on_dead (getDeathTimeMs (cc_nodeCount C) dstIndex));
      now ← pu_on_chain getCurrentTimeMs;
      check ConnectionRefusedException (negb (now <? u64 (death + NODE_DEATH_INTERVAL_MS))) ;;
      on_client (openSocket C nodes dstIndex outcome) ;;
      nested NetworkProtocolException (pu_on_conn (writeMagic false)) ;;
      result ← sendItemImpl item dstIndex;
      if negb (result.1 =? CONNECTION_RETRY_LATER) then mret tt
      else sendItem item dstIndex outcomes
  end.

Definition indices : list Z := seqZ 1 (cc_nodeCount C).

(** The constructor. *)
Definition newPusher (c : client D) (k : crypto_state L W) : state :=
  mkPusher c k (list_to_map ((fun i => (i, [])) <$> indices)) ∅ ∅.

(** One destination of [enqueueItemImpl]: the oldest item goes when the queue is
    too long. *)
Definition pushItem (item : client_item) (q : list client_item) : list client_item :=
  let q := q ++ [item] in
  if MAX_PROPOSAL_QUEUE_SIZE <? zlen q then drop 1 q else q.

Definition enqueueAt (item : client_item) (i : Z) : M state unit :=
  s ← get;
  match pu_queues s !! i with
  | None => throw InvalidStateException
  | Some q => put (set_queues (<[i := pushItem item q]> (pu_queues s)) s)
  end.

(** Every destination has a lock of its own: other threads run in between. *)
Definition enqueueItemImpl (item : client_item) : M state unit := mapM_ (enqueueAt item) indices.

(** A turn of the thread of a node in [workerThreadItemSendLoop]: it takes an
    item, or tries to send the one that it has; what [sendItem] throws is logged
    and the item is sent again.  An item for the node itself is dropped.  The
    thread runs only after the start of the node, which [sendItem] checks. *)
Definition takeItem (dstIndex : Z) : M state unit :=
  s ← get;
  match pu_queues s !! dstIndex with
  | Some (item :: q) =>
      put (set_current (<[dstIndex := item]> (pu_current s)) (set_queues (<[dstIndex := q]> (pu_queues s)) s))
  | _ => mret tt
  end.

Definition finishItem (item : client_item) (dstIndex : Z) : M state unit :=
  modify (fun s => set_done (<[dstIndex := default [] (pu_done s !! dstIndex) ++ [item]]> (pu_done s))
    (set_current (delete dstIndex (pu_current s)) s)).

Definition sendTurn (dstIndex : Z) (outcomes : list connect_result) : M state unit :=
  s ← get;
  match pu_current s !! dstIndex with
  | None => takeItem dstIndex
  | Some item =>
      if dstIndex =? cc_schainIndex C then finishItem item dstIndex
      else fun s =>
        match sendItem item dstIndex outcomes s with
        | (Ok _, s') => finishItem item dstIndex s'
        | (Err _, s') => (Ok tt, s')
        end
  end.
End Pusher.
