(* ===== verification/ProposalClientTheorems.v ===== *)
(** * Properties of the proposal client

    The queues of the proposal client keep the order of the items and their
    newest ones, what the client sends for the transactions that a server asks
    for is what the server needs, and a share reaches the chain only after it was
    verified. *)

From stdpp Require Import base tactics gmap list strings.
From Stdlib Require Import ZArith Lia.
From S2P Require Import Prelude Bytes Messages LruCache LevelDb LevelDbSets ProposalVector ProtocolDbs.
From S2P Require Import Transactions Pricing PendingQueue Blocks Fragments BlockStore ProposalStore OtherDbs.
From S2P Require Import Schain Headers Tcp ProposalServer Catchup CatchupTheorems NetMessages MessageTheorems SgxClient Crypto.
From S2P Require Import SchainTheorems CryptoTheorems ProposalClient.

(** ** What the exchange with a node keeps *)
Section Frames.
Context {D : Type} (K : crypto) (L : crypto_libs) (W : wallet_env).
Local Abbreviation state := (pusher D L W).
Implicit Types s : state.

Definition with_conn (x : connection) (c : client D) : client D :=
  mkClient (cl_chain c) x (cl_deadNodes c) (cl_peers c) (cl_lastStartingBlock c).

Lemma pu_on_conn_run {A} (c : M connection A) s :
  pu_on_conn L W c s = let '(r, x) := c (cl_conn (pu_client s)) in (r, set_client L W (with_conn x (pu_client s)) s).
Proof. unfold pu_on_conn, on_client, cl_on_conn, zoom. destruct (c (cl_conn (pu_client s))). done. Qed.

Context {X : Type} (f : state -> X) (Hf : forall s x, f (set_client L W (with_conn x (pu_client s)) s) = f s).

Lemma pu_on_conn_keeps {A} (c : M connection A) : keeps f (pu_on_conn L W c).
Proof. intros s. rewrite pu_on_conn_run. destruct (c (cl_conn (pu_client s))). apply Hf. Qed.

(** Splits a method into parts that keep [f]. *)
Ltac qframes :=
  repeat first
    [ apply pu_on_conn_keeps | apply keeps_ret | apply keeps_throw | apply keeps_lift | apply keeps_get
    | apply keeps_check | apply keeps_if | apply keeps_nested | apply keeps_nested_all
    | apply keeps_bind; [|intros] | done ].

Lemma readHeader_keeps : keeps f (readHeader K L W).
Proof. unfold readHeader. qframes. Qed.

Lemma sendHeader_keeps h : keeps f (sendHeader K L W h).
Proof. unfold sendHeader. qframes. Qed.

Lemma sendTransactions_keeps p : keeps f (sendTransactions K L W p).
Proof.
  unfold sendTransactions, sendMissing, readMissingTransactionsRequestHeader, readMissingHashes.
  qframes; first [apply readHeader_keeps|apply sendHeader_keeps].
Qed.

Lemma readFinal_keeps : keeps f (readAndProcessFinalProposalResponseHeader K L W).
Proof. unfold readAndProcessFinalProposalResponseHeader. qframes. Qed.

Lemma sendDAProof_keeps C proof : keeps f (sendDAProof C K L W proof).
Proof. unfold sendDAProof. qframes; first [apply readHeader_keeps|apply sendHeader_keeps]. Qed.
End Frames.

(** ** The queues *)
Section Queues.
Context {D : Type} `{KVStore D}.
Context (C : chain_config) (K : crypto) (nodes : node_infos).
Context (L : crypto_libs) (W : wallet_env) (CM : crypto_config L) (parseSpec : string -> res unit).
Local Abbreviation state := (pusher D L W).
Implicit Types s : state.
Implicit Types q enq : list client_item.

Definition queue_view s := (pu_queues s, pu_current s, pu_done s).

Ltac qframes :=
  repeat first
    [ apply keeps_ret | apply keeps_throw | apply keeps_lift | apply keeps_get | apply keeps_check
    | apply keeps_if | apply keeps_nested | apply keeps_nested_all | apply (keeps_zoom queue_view); done
    | apply keeps_bind; [|intros] | done ].

Lemma acceptShare_view p i sss sig pk pks :
  keeps queue_view (acceptShare (D := D) C K nodes L W CM parseSpec p i sss sig pk pks).
Proof.
  unfold acceptShare, on_crypto, pu_on_chain, on_client. qframes.
  destruct (getNodeInfoByIndex nodes i); qframes.
Qed.

Lemma sendItemImpl_view item i :
  keeps queue_view (sendItemImpl (D := D) C K nodes L W CM parseSpec item i).
Proof.
  destruct item; cbn [sendItemImpl]; [|by apply sendDAProof_keeps].
  unfold sendBlockProposal.
  repeat first [by apply readFinal_keeps|by apply readHeader_keeps|by apply sendHeader_keeps|by apply sendTransactions_keeps
               |progress qframes].
  destruct (hd_body _); try apply acceptShare_view; qframes.
Qed.

Lemma sendItem_view item i outcomes :
  keeps queue_view (sendItem (D := D) C K nodes L W CM parseSpec item i outcomes).
Proof.
  induction outcomes as [|o outcomes IH]; cbn [sendItem]; [apply keeps_throw|].
  unfold pu_on_chain, pu_on_conn, on_client. qframes; try apply sendItemImpl_view; apply IH.
Qed.

(** What the thread of a node took out of its queue, in order. *)
Definition handled s (i : Z) : list client_item :=
  default [] (pu_done s !! i) ++ option_list (pu_current s !! i).

(** The queue of a node against the items that were pushed to it: it holds the
    last ones, what was taken out came before them and in order, and the newest
    item is never dropped. *)
Definition in_order (i : Z) enq s : Prop :=
  exists q pre, pu_queues s !! i = Some q /\ enq = pre ++ q /\ zlen q <= MAX_PROPOSAL_QUEUE_SIZE /\
    handled s i `sublist_of` pre /\ last (handled s i ++ q) = last enq.

Lemma in_order_view i enq s s' : queue_view s' = queue_view s -> in_order i enq s -> in_order i enq s'.
Proof. intros [= Hq Hc Hd]. unfold in_order, handled. by rewrite Hq, Hc, Hd. Qed.

Lemma pushItem_suffix item pre q h :
  h `sublist_of` pre -> zlen q <= MAX_PROPOSAL_QUEUE_SIZE ->
  exists pre', pre ++ q ++ [item] = pre' ++ pushItem item q /\ h `sublist_of` pre' /\
    zlen (pushItem item q) <= MAX_PROPOSAL_QUEUE_SIZE /\ exists q', pushItem item q = q' ++ [item].
Proof.
  intros Hh Hq. unfold pushItem. destruct (Z.ltb_spec MAX_PROPOSAL_QUEUE_SIZE (zlen (q ++ [item]))) as [Hl|Hl].
  - destruct q as [|x q]; [done|]. exists (pre ++ [x]). cbn. split_and!; [by rewrite <- app_assoc| | |by exists q].
    + by apply sublist_inserts_r.
    + revert Hq. unfold zlen. cbn [length drop app]. rewrite drop_0, length_app. cbn [length]. lia.
  - exists pre. split_and!; [done..|by exists q].
Qed.

Lemma enqueueAt_order item i j enq s :
  in_order i enq s -> is_Some (pu_queues s !! j) ->
  wp (enqueueAt L W item j) s (fun r s' => r = Ok tt /\ in_order i (enq ++ (if decide (i = j) then [item] else [])) s').
Proof.
  intros (q & pre & Hq & -> & Hm & Hh & Hl) [qj Hj]. unfold enqueueAt. wp_simpl. rewrite Hj. wp_simpl.
  split; [done|]. destruct (decide (i = j)) as [->|Hne].
  - rewrite Hq in Hj. injection Hj as <-. destruct (pushItem_suffix item pre q _ Hh Hm) as (pre' & He & Hh' & Hm' & q' & Hq').
    exists (pushItem item q), pre'. cbn [pu_queues set_queues]. rewrite lookup_insert_eq, <- app_assoc.
    split_and!; [done..|]. rewrite He, Hq', !app_assoc. by rewrite !last_snoc.
  - exists q, pre. cbn [pu_queues set_queues]. rewrite lookup_insert_ne, app_nil_r by done. done.
Qed.

Lemma takeItem_order i j enq s :
  in_order i enq s -> pu_current s !! j = None ->
  wp (takeItem L W j) s (fun r s' => r = Ok tt /\ in_order i enq s').
Proof.
  intros Hs Hc. unfold takeItem. wp_simpl.
  destruct (pu_queues s !! j) as [[|x qj]|] eqn:Hj; wp_simpl; [done| |done]. split; [done|].
  destruct Hs as (q & pre & Hq & -> & Hm & Hh & Hl). destruct (decide (i = j)) as [->|Hne].
  - rewrite Hq in Hj. injection Hj as ->. exists qj, (pre ++ [x]). unfold handled in *.
    cbn [pu_queues pu_current pu_done set_current set_queues]. rewrite !lookup_insert_eq, Hc in *. cbn [option_list] in *.
    rewrite app_nil_r in *. split_and!; [done|by rewrite <- app_assoc|unfold zlen in *; cbn in *; lia| |].
    + by apply sublist_app.
    + by rewrite <- app_assoc.
  - exists q, pre. unfold handled in *. cbn [pu_queues pu_current pu_done set_current set_queues].
    by rewrite !lookup_insert_ne by done.
Qed.

Lemma finishItem_order i item j enq s :
  in_order i enq s -> pu_current s !! j = Some item ->
  wp (finishItem L W item j) s (fun r s' => r = Ok tt /\ in_order i enq s').
Proof.
  intros (q & pre & Hq & -> & Hm & Hh & Hl) Hc. unfold finishItem. wp_simpl. split; [done|].
  exists q, pre. unfold handled in *. cbn [pu_queues pu_current pu_done set_current set_done].
  destruct (decide (i = j)) as [->|Hne].
  - rewrite lookup_insert_eq, lookup_delete_eq. rewrite Hc in *. cbn [default option_list] in *. by rewrite app_nil_r.
  - by rewrite lookup_insert_ne, lookup_delete_ne by done.
Qed.

Lemma sendTurn_order i j outcomes enq s :
  in_order i enq s ->
  wp (sendTurn C K nodes L W CM parseSpec j outcomes) s (fun r s' => r = Ok tt /\ in_order i enq s').
Proof.
  intros Hs. unfold sendTurn. wp_simpl. destruct (pu_current s !! j) as [item|] eqn:Hc; [|by apply takeItem_order].
  destruct (j =? cc_schainIndex C); [by apply finishItem_order|]. unfold wp.
  pose proof (sendItem_view item j outcomes s) as Hv. destruct (sendItem _ _ _ _ _ _ _ _ _ _ _) as [[]  s'].
  - apply finishItem_order; [by eapply in_order_view|]. by injection Hv as _ -> _.
  - split; [done|]. by eapply in_order_view.
Qed.

(** The actions of the threads: a turn of the loop of [enqueueItemImpl] in any
    thread, a turn of the thread of a node, and whatever else changes the chain
    and the keys. *)
Inductive pusher_op :=
  | PushTo (item : client_item) (i : Z)
  | Turn (i : Z) (outcomes : list connect_result)
  | Elsewhere (c : client D) (k : crypto_state L W).

Definition run_op (op : pusher_op) : M state unit :=
  match op with
  | PushTo item i => enqueueAt L W item i
  | Turn i outcomes => sendTurn C K nodes L W CM parseSpec i outcomes
  | Elsewhere c k => modify (fun s => set_client L W c (set_crypto L W k s))
  end.

Definition op_ok (op : pusher_op) : Prop :=
  match op with PushTo _ i => i ∈ indices C | _ => True end.

(** The items pushed to a node. *)
Definition pushed_to (i : Z) (ops : list pusher_op) : list client_item :=
  ops ≫= (fun op => match op with PushTo item j => if decide (i = j) then [item] else [] | _ => [] end).

Lemma run_op_order op i enq s :
  op_ok op -> (forall j, j ∈ indices C -> is_Some (pu_queues s !! j)) -> in_order i enq s ->
  wp (run_op op) s (fun r s' => r = Ok tt /\ in_order i (enq ++ pushed_to i [op]) s').
Proof.
  intros Hop Hall Hs. unfold pushed_to. destruct op as [item j|j outcomes|c k]; cbn; rewrite ?app_nil_r.
  - by apply enqueueAt_order; auto.
  - by apply sendTurn_order.
  - wp_simpl. split; [done|]. by eapply in_order_view.
Qed.

Lemma run_ops_order ops (enq : Z -> list client_item) s :
  Forall op_ok ops -> (forall i, i ∈ indices C -> in_order i (enq i) s) ->
  wp (mapM_ run_op ops) s (fun r s' => forall i, i ∈ indices C -> r = Ok tt /\ in_order i (enq i ++ pushed_to i ops) s').
Proof.
  revert enq s. induction ops as [|op ops IH]; intros enq s Hops Hs; cbn [mapM_].
  { wp_simpl. intros i Hi. cbn. rewrite app_nil_r. auto. }
  apply Forall_cons in Hops as [Hop Hops].
  assert (forall i, i ∈ indices C -> wp (run_op op) s (fun r s' => r = Ok tt /\ in_order i (enq i ++ pushed_to i [op]) s'))
    as Hone.
  { intros i Hi. apply run_op_order; [done| |by apply Hs]. intros j Hj. destruct (Hs j Hj) as (q & _ & Hq & _). by eexists. }
  wp_simpl. unfold wp at 1. unfold wp at 1 in Hone. destruct (run_op op s) as [[[]|e] s'].
  - eapply wp_mono; [apply (IH (fun i => enq i ++ pushed_to i [op])); [done|]|].
    + intros i Hi. apply (Hone i Hi).
    + cbn beta. intros r s2 Hr i Hi. destruct (Hr i Hi) as [-> Hi2]. split; [done|].
      unfold pushed_to in *. cbn [mbind list_bind] in *. by rewrite app_nil_r, <- app_assoc in Hi2.
  - intros i Hi. by destruct (Hone i Hi).
Qed.

Lemma newPusher_order (c : client D) (k : crypto_state L W) i : i ∈ indices C -> in_order i [] (newPusher C L W c k).
Proof.
  intros Hi. exists [], []. unfold newPusher, handled. cbn [pu_queues pu_current pu_done].
  split_and!; [|done..]. apply elem_of_list_to_map_1.
  - rewrite <- list_fmap_compose. cbn. rewrite list_fmap_id. apply NoDup_seqZ.
  - apply list_elem_of_fmap. by exists i.
Qed.

(** The queues of the proposal client are in order.  However the threads of
    the nodes and the threads that enqueue items interleave, whatever is sent
    and whatever fails, no step throws, and for every node what its thread has
    taken out is, in order, a part of the items pushed to it before the ones that
    still wait; those are the last ones pushed, at most four, and the newest item
    is never dropped. *)
Theorem proposal_items_in_order c k ops i :
  Forall op_ok ops -> i ∈ indices C ->
  exists s, mapM_ run_op ops (newPusher C L W c k) = (Ok tt, s) /\ in_order i (pushed_to i ops) s.
Proof.
  intros Hops Hi. pose proof (run_ops_order ops (fun _ => []) (newPusher C L W c k) Hops) as Hr.
  destruct (mapM_ run_op ops _) as [r s] eqn:Hrun. eapply wp_run in Hr; [|by apply newPusher_order|exact Hrun].
  destruct (Hr i Hi) as [-> Ho]. by eauto.
Qed.
End Queues.

(** ** The share that a node answers *)
Section Shares.
Context {D : Type} `{KVStore D}.
Context (C : chain_config) (K : crypto) (nodes : node_infos).
Context (L : crypto_libs) (W : wallet_env) (CM : crypto_config L) (parseSpec : string -> res unit).
Context (sgx : cm_isSGXEnabled CM = true).
Local Abbreviation state := (pusher D L W).
Local Abbreviation V := (verifier L W CM parseSpec).
Implicit Types s : state.

Definition chain_of s : schain D := cl_chain (pu_client s).
Definition keys_of s : lru_cache string string := cs_sessionPublicKeys (pu_crypto s).
Definition inner s := (chain_of s, pu_crypto s).

(** The chain is untouched or was given one share, of the node [i] and verified
    for the proposal. *)
Definition share_handed (p : BlockProposal) (i : Z) s s' : Prop :=
  keys_inv V (keys_of s') /\
  (chain_of s' = chain_of s \/
   exists sh, es_signerIndex sh = i /\ share_signed L W CM parseSpec (bp_hash p) sh /\
     chain_of s' = (daProofSigShareArrived C K
       {| ss_text := es_text sh; ss_blockId := bp_blockID p; ss_signerIndex := i |} p (chain_of s)).2).

Lemma verifyShare_sound sh i h s :
  keys_inv V (keys_of s) ->
  wp (on_crypto L W (verifyDAProofSigShare L W CM parseSpec sh i h false)) s (fun r s' =>
    keys_inv V (keys_of s') /\ chain_of s' = chain_of s /\
    (r = Ok tt -> exists e, sh = EdDSAShare L e /\ es_signerIndex e = i /\ share_signed L W CM parseSpec h e)).
Proof.
  intros Hk. unfold on_crypto, verifyDAProofSigShare. rewrite wp_zoom, wp_nested_all, sgx. cbn [andb negb].
  destruct sh as [e| |]; wp_simpl; try (split_and!; [exact Hk|done|done]).
  split; intros He; [|split_and!; [exact Hk|done|done]]. apply Z.eqb_eq in He.
  eapply wp_mono; [by apply ed_verify_sound|]. cbn beta. intros r c [Hc Hr]. split_and!; [exact Hc|done|].
  intros Hok%rnested_all_ok. eauto.
Qed.

Lemma verifySession_chain s hash sig pk pks b ids ts :
  keys_inv V (keys_of s) ->
  wp (on_crypto L W (on_publicKeys L W (verifySessionSigAndKey V hash sig pk pks b ids ts))) s (fun _ s' =>
    keys_inv V (keys_of s') /\ chain_of s' = chain_of s).
Proof.
  intros Hk. unfold on_crypto, on_publicKeys. rewrite !wp_zoom.
  eapply wp_mono; [apply (verifySession_sound V sgx), Hk|]. cbn beta. by intros r c [Hc _].
Qed.

Lemma acceptShare_sound p i sss sig pk pks s :
  keys_inv V (keys_of s) ->
  wp (acceptShare C K nodes L W CM parseSpec p i sss sig pk pks) s (fun _ s' => share_handed p i s s').
Proof.
  intros Hk. unfold acceptShare. rewrite wp_bind, wp_lift.
  destruct (createDAProofSigShare _ _ _ _ _ _ _) as [sh|e]; [|by split; [|left]].
  rewrite wp_bind. eapply wp_mono; [by apply verifyShare_sound|]. cbn beta. intros [[]|e] s1 (Hk1 & Hc1 & Hsh); [|by split; [|left]].
  destruct (Hsh eq_refl) as (ed & -> & Hi & Hsig). rewrite wp_bind, wp_lift. cbn [shareHash shareString mbind res_bind].
  rewrite wp_bind. destruct (getNodeInfoByIndex nodes i) as [id|]; [rewrite wp_ret|rewrite wp_throw; by split; [|left]].
  rewrite wp_bind, wp_nested_all. eapply wp_mono; [by apply verifySession_chain|]. cbn beta.
  intros r s2 [Hk2 Hc2]. rewrite Hc1 in Hc2. destruct (rnested_all _ r) as [[]|e]; [|by split; [|left]].
  rewrite wp_bind, wp_lift. unfold pu_on_chain, on_client, cl_on_chain. rewrite !wp_zoom.
  cbn [getSignerIndex shareString]. rewrite Hi. unfold wp. split; [exact Hk2|]. right. exists ed. split_and!; [done..|].
  unfold chain_of in *. by rewrite <- Hc2.
Qed.

Lemma share_handed_inner p i s s1 s2 : inner s1 = inner s -> share_handed p i s1 s2 -> share_handed p i s s2.
Proof. unfold share_handed, inner. by intros [= -> _]. Qed.

Lemma inner_keys s s' : inner s' = inner s -> keys_of s' = keys_of s.
Proof. intros Hv. exact (f_equal (fun x => cs_sessionPublicKeys x.2) Hv). Qed.

(** A step that leaves the chain and the keys alone. *)
Lemma share_step {A B} (c : M state A) (k : A -> M state B) p i s :
  keys_inv V (keys_of s) -> keeps inner c ->
  (forall a s', inner s' = inner s -> keys_inv V (keys_of s') -> wp (k a) s' (fun _ s2 => share_handed p i s' s2)) ->
  wp (c ≫= k) s (fun _ s2 => share_handed p i s s2).
Proof.
  intros Hk Hc Hw. rewrite wp_bind. pose proof (Hc s) as Hv. unfold wp at 1. destruct (c s) as [[a|e] s']; cbn [fst snd] in *.
  - assert (keys_inv V (keys_of s')) as Hk' by (by rewrite (inner_keys _ _ Hv)).
    eapply wp_mono; [by apply Hw|]. cbn beta. intros _ s2. by apply share_handed_inner.
  - apply (share_handed_inner p i s s'); [done|]. split; [by rewrite (inner_keys _ _ Hv)|by left].
Qed.

(** Only verified shares count.  Whatever the node [i] answers to a pushed
    proposal, the chain is left alone or is given one signature share, and then
    the share names [i] as its signer and is a valid signature of the hash of
    this proposal under a session key that a node has certified; the session keys
    stay certified. *)
Theorem pushed_proposal_share_verified p i s :
  keys_inv V (keys_of s) ->
  wp (sendBlockProposal C K nodes L W CM parseSpec p i) s (fun _ s' => share_handed p i s s').
Proof.
  intros Hk. unfold sendBlockProposal.
  do 3 (apply share_step; [done|by first [apply keeps_lift|apply sendHeader_keeps|apply readHeader_keeps]|];
    clear Hk; cbn beta; intros ? ? _ Hk).
  rewrite wp_if. split; intros _; [by split; [|left]|].
  apply share_step; [done|by apply sendTransactions_keeps|]. clear Hk. intros [] s1 _ Hk.
  apply share_step; [done|by apply readFinal_keeps|]. clear Hk. intros final s2 _ Hk.
  rewrite wp_if. split; intros _; [by split; [|left]|]. rewrite wp_bind.
  destruct (hd_body final); try by (split; [|left]). eapply wp_mono; [by apply acceptShare_sound|].
  cbn beta. by intros [[]|e] s3 Hs3.
Qed.
End Shares.

(** ** Witnesses *)
Section PusherDemo.
Local Abbreviation D := (gmap string string).

Definition idle_pusher : pusher D toy_libs toy_wallet :=
  newPusher demo_chain toy_libs toy_wallet behind_client toy_state.

Definition demo_item (b : Z) : client_item :=
  ItemProof {| da_blockID := b; da_proposerIndex := 2; da_hash := demo_hash []; da_thresholdSig := "da" |}.

(** The first item is being sent, in vain, while six more are pushed. *)
Definition demo_ops : list (pusher_op (D := D) toy_libs toy_wallet) :=
  [PushTo toy_libs toy_wallet (demo_item 1) 1; Turn toy_libs toy_wallet 1 [];
   PushTo toy_libs toy_wallet (demo_item 1) 2; Turn toy_libs toy_wallet 1 [Refused]] ++
  map (fun b => PushTo toy_libs toy_wallet (demo_item b) 1) [2; 3; 4; 5; 6; 7].

Lemma proposal_items_in_order_witness :
  exists s, mapM_ (run_op demo_chain demo_crypto peer_nodes toy_libs toy_wallet (toy_manager 2) toy_spec) demo_ops idle_pusher =
      (Ok tt, s) /\
    in_order toy_libs toy_wallet 1 (map demo_item [1; 2; 3; 4; 5; 6; 7]) s /\
    pu_queues s !! 1 = Some (map demo_item [4; 5; 6; 7]) /\ pu_current s !! 1 = Some (demo_item 1).
Proof.
  destruct (proposal_items_in_order demo_chain demo_crypto peer_nodes toy_libs toy_wallet (toy_manager 2) toy_spec
    behind_client toy_state demo_ops 1) as (s & Hrun & Ho).
  - repeat constructor; cbn; apply elem_of_seqZ; lia.
  - apply elem_of_seqZ. cbn. lia.
  - exists s. split; [exact Hrun|]. split; [exact Ho|].
    assert (s = (mapM_ (run_op demo_chain demo_crypto peer_nodes toy_libs toy_wallet (toy_manager 2) toy_spec) demo_ops
      idle_pusher).2) as -> by (unfold idle_pusher; by rewrite Hrun).
    split; vm_compute; reflexivity.
Defined.

(** Node 1 knows all transactions, signs and answers. *)
Definition pushed_crypto : crypto := {|
  cr_blake3 := cl_blake3 toy_libs; cr_u256_str := demo_str; cr_u256_parse := demo_u256_parse;
  cr_export_bits := demo_export; cr_json_dump := demo_dump; cr_json_parse := demo_json_parse;
  cr_verifyECDSASig := fun _ _ _ _ => Ok tt; cr_verifyThresholdSig := fun _ _ _ _ => Ok tt;
  cr_verifyDAProofSig := fun _ _ _ _ => Ok tt; cr_signProposal := fun _ => Ok "sig"%string;
  cr_signDAProof := fun p => Ok {| ss_text := "share"; ss_blockId := bp_blockID p; ss_signerIndex := 2 |};
  cr_share := string; cr_createDAProofSigShare := fun t _ _ _ => Ok t;
  cr_mergeSignature := fun _ _ _ => Ok "da"%string |}.

Definition node_answer : list Z :=
  match (signDAProof toy_libs toy_wallet (toy_manager 1) demo_proposal toy_state).1 with
  | Ok (EdDSAShare _ share, sig, pk, pks) =>
      header_bytes demo_dump (<["status"%string := JNum CONNECTION_PROCEED]> (<["substatus"%string := JNum CONNECTION_OK]> ∅)) ++
      header_bytes demo_dump (<["status"%string := JNum 0]> (<["substatus"%string := JNum 0]> (<["count"%string := JNum 0]> ∅))) ++
      header_bytes demo_dump (addFinalResponseFields (es_text share) sig pk pks
        (<["status"%string := JNum CONNECTION_SUCCESS]> (<["substatus"%string := JNum CONNECTION_OK]> ∅)))
  | _ => []
  end.

Definition pushing : pusher D toy_libs toy_wallet :=
  set_client toy_libs toy_wallet (with_conn (mkConn [RecvChunk node_answer] [] []) behind_client) idle_pusher.

Local Abbreviation push_demo :=
  (sendBlockProposal demo_chain pushed_crypto {| ni_byId := ∅; ni_byIndex := {[1 := 101]} |} toy_libs toy_wallet
    (toy_manager 2) toy_spec demo_proposal 1).

Lemma push_accepted : (push_demo pushing).1 = Ok (CONNECTION_SUCCESS, CONNECTION_OK).
Proof. vm_compute. reflexivity. Qed.
Lemma pushed_proposal_share_verified_witness :
  exists sh, es_signerIndex sh = 1 /\ share_signed toy_libs toy_wallet (toy_manager 2) toy_spec (bp_hash demo_proposal) sh /\
    chain_of toy_libs toy_wallet (push_demo pushing).2 = (daProofSigShareArrived demo_chain pushed_crypto
      {| ss_text := es_text sh; ss_blockId := 12; ss_signerIndex := 1 |} demo_proposal
      (chain_of toy_libs toy_wallet pushing)).2.
Proof.
  destruct (pushed_proposal_share_verified demo_chain pushed_crypto {| ni_byId := ∅; ni_byIndex := {[1 := 101]} |}
    toy_libs toy_wallet (toy_manager 2) toy_spec eq_refl demo_proposal 1 pushing) as [_ [Hsame|Hsh]].
  - by apply keys_inv_new.
  - exfalso. apply (f_equal (fun c : schain D => fmap (M := option) size <$> ld_db (st_daSig (sc_stores c)))) in Hsame.
    vm_compute in Hsame. discriminate.
  - exact Hsh.
Defined.
End PusherDemo.
