(* ===== verification/ProposalExchange.v ===== *)
(** * The transactions of a proposal on their way to another node

    Both ends of the exchange in which a proposal reaches a node: the proposer
    ([ProposalClient]) sends the partial hashes of its transactions, the node
    ([ProposalServer]) asks for the ones that it does not know, and puts the
    answer and its own transactions together. *)

From stdpp Require Import base tactics gmap list sorting strings.
From Stdlib Require Import ZArith Lia.
From S2P Require Import Prelude Bytes Messages LruCache LevelDb LevelDbSets ProposalVector ProtocolDbs.
From S2P Require Import Transactions Pricing PendingQueue Blocks Fragments BlockStore ProposalStore OtherDbs.
From S2P Require Import Schain Headers Tcp ProposalServer Catchup CatchupTheorems NetMessages SgxClient Crypto.
From S2P Require Import SchainTheorems CryptoTheorems ProposalClient ProposalClientTheorems.

(** ** Positions *)
Section Positions.
Context {A B : Type} (P : A -> option B).

(** The elements that [P] selects, with their positions from [k] on. *)
Fixpoint positions_of (k : Z) (l : list A) : list (Z * B) :=
  match l with
  | [] => []
  | a :: l => match P a with
              | Some b => (k, b) :: positions_of (k + 1) l
              | None => positions_of (k + 1) l
              end
  end.

Lemma positions_of_values k l : (positions_of k l).*2 = omap P l.
Proof. revert k. induction l as [|a l IH]; intros k; [done|]. cbn. destruct (P a); cbn; by rewrite IH. Qed.

Lemma positions_of_ge k l j b : (j, b) ∈ positions_of k l -> k <= j.
Proof.
  revert k. induction l as [|a l IH]; intros k; cbn; [by intros ?%elem_of_nil|].
  destruct (P a); [|intros ?%IH; lia]. intros [[= -> ->]|?%IH]%elem_of_cons; lia.
Qed.

Lemma positions_of_sorted k l : StronglySorted Z.lt (positions_of k l).*1.
Proof.
  revert k. induction l as [|a l IH]; intros k; cbn; [constructor|]. destruct (P a); cbn; [|apply IH].
  constructor; [apply IH|]. apply list.Forall_forall. intros j ([j' b'] & -> & ?%positions_of_ge)%list_elem_of_fmap.
  cbn. lia.
Qed.

Lemma positions_of_fresh k l : list_to_map (M := gmap Z B) (positions_of (k + 1) l) !! k = None.
Proof.
  apply not_elem_of_list_to_map_1. intros ([j b] & -> & Hj%positions_of_ge)%list_elem_of_fmap. cbn in *. lia.
Qed.

Lemma positions_of_lookup k l i : list_to_map (M := gmap Z B) (positions_of k l) !! (k + Z.of_nat i) = l !! i ≫= P.
Proof.
  revert k i. induction l as [|a l IH]; intros k [|i]; cbn [positions_of]; [done..| |].
  - rewrite Z.add_0_r. cbn. destruct (P a) as [b|]; cbn; [by rewrite lookup_insert_eq|apply positions_of_fresh].
  - change ((a :: l) !! S i) with (l !! i). rewrite <- (IH (k + 1) i). replace (k + Z.of_nat (S i)) with (k + 1 + Z.of_nat i) by lia.
    destruct (P a); cbn; [|done]. by rewrite lookup_insert_ne by lia.
Qed.
End Positions.

Lemma omap_filter {A B} (P : A -> Prop) `{!forall a, Decision (P a)} (f : A -> B) (l : list A) :
  omap (fun a => if decide (P a) then Some (f a) else None) l = f <$> filter P l.
Proof.
  induction l as [|a l IH]; [done|]. cbn [omap list_omap]. rewrite IH.
  destruct (decide (P a)); [by rewrite filter_cons_True|by rewrite filter_cons_False].
Qed.

Lemma filter_same {A} (P Q : A -> Prop) `{!forall a, Decision (P a), !forall a, Decision (Q a)} (l : list A) :
  (forall a, a ∈ l -> P a <-> Q a) -> filter P l = filter Q l.
Proof.
  induction l as [|a l IH]; intros Hl; [done|].
  assert (filter P l = filter Q l) as Heq by (apply IH; intros b Hb; apply Hl; by right).
  assert (P a <-> Q a) as Ha by (apply Hl; by left). destruct (decide (P a)).
  - rewrite !filter_cons_True by tauto. by rewrite Heq.
  - by rewrite !filter_cons_False by tauto.
Qed.

Section Exchange.
Context {D : Type} `{KVStore D}.
Context (C : chain_config) (K : crypto).
Context (L : crypto_libs) (W : wallet_env).
Context (blake3_length : forall x, hash_sized (cr_blake3 K x)).
Context (parse_dump : forall j, json_plain j -> cr_json_parse K (cr_json_dump K j) = Ok j).
Local Abbreviation phash := (tx_getPartialHash (cr_blake3 K)).
Local Abbreviation sendable_ := (sendable (cr_u256_str K) (cr_json_dump K)).
Local Abbreviation header_bytes_ := (header_bytes (cr_json_dump K)).
Implicit Types ts : list Transaction.
Implicit Types known : gmap (list Z) Transaction.

Definition unknown known ts : list Transaction := filter (fun t => known !! phash t = None) ts.

(** The partial hashes are good enough: a known transaction and one of the list,
    or two of the list, with the same partial hash are the same. *)
Definition distinct known ts : Prop :=
  (forall t u, t ∈ ts -> known !! phash t = Some u -> u = t) /\
  (forall t u, t ∈ ts -> u ∈ ts -> phash t = phash u -> t = u).

Definition missing_request (n : Z) : Header := setComplete (newHeader "MsngTxsReq" (BodyMissingRequest n)).
Definition missing_request_fields (n : Z) : json :=
  <["count"%string := JNum n]> (addStatusFields (missing_request n) {["type"%string := JStr "MsngTxsReq"]}).

Definition missing_answer (sizes : list Z) : Header := setComplete (newHeader "MsngTxsRsp" (BodyMissingResponse sizes)).
Definition missing_answer_fields (sizes : list Z) : json :=
  <["sizes"%string := JArr sizes]> (addStatusFields (missing_answer sizes) {["type"%string := JStr "MsngTxsRsp"]}).

(** What the node writes, and what the proposer writes. *)
Definition node_bytes ts : list Z := header_bytes_ (missing_request_fields (zlen ts)) ++ concat (map phash ts).
Definition proposer_answer ts : list Z :=
  if decide (ts = []) then []
  else header_bytes_ (missing_answer_fields (tx_sizes (cr_blake3 K) ts false)) ++ list_bytes (cr_blake3 K) ts false.
Definition proposer_bytes known ts : list Z := concat (map phash ts) ++ proposer_answer (unknown known ts).

(** *** Lists of partial hashes *)
Lemma zlen_hashes ts : zlen (concat (map phash ts)) = zlen ts * PARTIAL_HASH_LEN.
Proof.
  induction ts as [|t ts IH]; [done|]. cbn [map concat]. rewrite zlen_app, IH, (length_partialHash _ blake3_length).
  unfold zlen. cbn [length]. lia.
Qed.

Definition hash_list ts : PartialHashesList :=
  {| ph_transactionCount := zlen ts; ph_partialHashes := concat (map phash ts) |}.

Lemma createPartialHashesList_ok ts : createPartialHashesList (cr_blake3 K) (zlen ts) ts = Ok (hash_list ts).
Proof.
  unfold createPartialHashesList, PARTIAL_HASH_LEN.
  replace (Z.to_nat (zlen ts)) with (length ts) by (unfold zlen; lia).
  replace (Z.to_nat (zlen ts * 8)) with (length ts * 8)%nat by (unfold zlen; lia).
  pose proof (fillPartialHashes_ok _ blake3_length [] ts (length ts) eq_refl) as Hf. cbn [app length map concat] in Hf.
  by rewrite Hf.
Qed.

Lemma hash_list_lookup ts i t : ts !! i = Some t -> getPartialHash (hash_list ts) (Z.of_nat i) = Ok (phash t).
Proof.
  destruct (partial_hashes_lookup _ blake3_length ts) as (p & Hp & Hl & _).
  rewrite createPartialHashesList_ok in Hp. injection Hp as <-. apply Hl.
Qed.

Lemma cutHashes_ok ts rest : cutHashes (length ts) (concat (map phash ts) ++ rest) = map phash ts.
Proof.
  induction ts as [|t ts IH]; [done|]. cbn [length cutHashes map concat]. rewrite <- app_assoc.
  pose proof (length_partialHash _ blake3_length t) as Hl.
  replace (Z.to_nat PARTIAL_HASH_LEN) with (length (phash t)) by (unfold zlen in Hl; lia).
  by rewrite take_app_length, drop_app_length, IH.
Qed.

(** The proposer selects just the transactions that the node does not know. *)
Lemma selectMissing_ok known ts :
  selectMissing K (list_to_set (map phash (unknown known ts))) ts = unknown known ts.
Proof.
  unfold selectMissing, unknown. apply filter_same. intros t Ht.
  rewrite elem_of_list_to_set, list_elem_of_fmap. split.
  - intros (u & Hp & [Hu _]%list_elem_of_filter). by rewrite Hp.
  - intros Hn. exists t. split; [done|]. by apply list_elem_of_filter.
Qed.

Lemma missingSizes_ok ts : Forall valid_tx ts -> missingSizes ts = Ok (tx_sizes (cr_blake3 K) ts false).
Proof.
  induction 1 as [|t ts Hv%valid_zlen _ IH]; [done|]. cbn [missingSizes tx_sizes map]. unfold getSerializedSize.
  rewrite (proj2 (Z.ltb_lt _ _) Hv), IH. cbn [mbind res_bind rcheck mret res_ret].
  by rewrite (zlen_tx_bytes _ blake3_length), Z.add_0_r.
Qed.

(** *** The headers *)
Lemma missing_request_lookup n :
  0 <= n < 2 ^ 64 ->
  is_ok (getUint64 (missing_request_fields n) "status") = true /\
  is_ok (getUint64 (missing_request_fields n) "substatus") = true /\
  getUint64 (missing_request_fields n) "count" = Ok n.
Proof.
  intros Hn. unfold missing_request_fields, addStatusFields, getUint64, nullCheck. look. cbn [mbind res_bind].
  by rewrite (u64_small n).
Qed.

Lemma missing_answer_sizes sizes : missing_answer_fields sizes !! "sizes"%string = Some (JArr sizes).
Proof. unfold missing_answer_fields. by rewrite lookup_insert_eq. Qed.

(** *** The proposer *)
Local Abbreviation pstate := (pusher D L W).
Implicit Types s : pstate.

Definition at_conn (x : connection) s : pstate := set_client L W (with_conn x (pu_client s)) s.

Lemma conn_run {A} (c : M connection A) x s r x' :
  c x = (r, x') -> pu_on_conn L W c (at_conn x s) = (r, at_conn x' s).
Proof. intros Hc. rewrite pu_on_conn_run. cbn. by rewrite Hc. Qed.

Lemma readHeader_run h j inc out sent rest s :
  sendable_ h MAX_HEADER_SIZE j -> delivers inc (header_bytes_ j ++ rest) ->
  exists inc', readHeader K L W (at_conn (mkConn inc out sent) s) = (Ok j, at_conn (mkConn inc' out sent) s) /\
    delivers inc' rest.
Proof.
  intros Hs Hd. destruct (readJsonHeader_ok _ _ _ parse_dump _ _ _ _ out sent _ Hs Hd) as (inc' & Hr & Hd').
  exists inc'. split; [|done]. by apply conn_run.
Qed.

Lemma sendHeader_run h m j inc out sent s :
  sendable_ h m j -> accepts out ->
  exists out', sendHeader K L W h (at_conn (mkConn inc out sent) s) =
    (Ok tt, at_conn (mkConn inc out' (sent ++ header_bytes_ j)) s) /\ accepts out'.
Proof.
  intros Hs Ha. destruct (writeHeader_ok _ _ _ _ _ inc out sent Hs Ha) as (out' & Hw & Ha').
  exists out'. split; [|done]. by apply nested_run, conn_run.
Qed.

Lemma writeBytes_run bytes inc out sent s :
  accepts out -> 0 < zlen bytes ->
  exists out', pu_on_conn L W (io_writeBytes bytes) (at_conn (mkConn inc out sent) s) =
    (Ok tt, at_conn (mkConn inc out' (sent ++ bytes)) s) /\ accepts out'.
Proof.
  intros Ha Hp. destruct (writeBytes_accepted bytes out inc sent Ha Hp) as (out' & Hw & Ha').
  exists out'. split; [|done]. by apply conn_run.
Qed.

Lemma readMissingHashes_run ts inc out sent rest s :
  0 < zlen ts -> zlen ts * PARTIAL_HASH_LEN < 2 ^ 63 -> delivers inc (concat (map phash ts) ++ rest) ->
  exists inc', readMissingHashes L W (zlen ts) (at_conn (mkConn inc out sent) s) =
    (Ok (list_to_set (map phash ts)), at_conn (mkConn inc' out sent) s) /\ delivers inc' rest.
Proof.
  intros Hp Hm Hd. pose proof (zlen_hashes ts) as Hz. unfold PARTIAL_HASH_LEN in *.
  destruct (readBytes_delivers (zlen ts * 8) (zlen ts * 8) inc out sent _ _ Hd) as (inc' & Hr & Hd'); [lia..|].
  exists inc'. split; [|done]. unfold readMissingHashes, PARTIAL_HASH_LEN, allocate.
  eapply run_step; [rewrite (proj2 (Z.ltb_lt 0 _)) by lia; reflexivity|].
  rewrite u64_small by lia. eapply run_step; [apply lift_run; rewrite (proj2 (Z.ltb_lt _ _)) by lia; reflexivity|].
  eapply run_step; [rewrite (proj2 (Z.ltb_lt 0 _)) by lia; reflexivity|].
  eapply run_step; [by apply nested_run, conn_run|]. apply nested_run.
  eapply run_step; [rewrite (proj2 (Z.leb_le _ _)) by lia; reflexivity|].
  replace (Z.to_nat (zlen ts)) with (length ts) by (unfold zlen; lia).
  pose proof (cutHashes_ok ts []) as Hc. rewrite app_nil_r in Hc. by rewrite Hc.
Qed.

(** The headers fit into a buffer, and the sizes into machine words. *)
Record transferable ts : Prop := {
  fi_valid : Forall valid_tx ts;
  fi_size : zlen (list_bytes (cr_blake3 K) ts false) < 2 ^ 63;
  fi_hashes : zlen ts * PARTIAL_HASH_LEN < 2 ^ 63;
  fi_request : sendable_ (missing_request (zlen ts)) MAX_HEADER_SIZE (missing_request_fields (zlen ts));
  fi_answer : sendable_ (missing_answer (tx_sizes (cr_blake3 K) ts false)) MAX_HEADER_SIZE
    (missing_answer_fields (tx_sizes (cr_blake3 K) ts false))
}.

Lemma fits_count ts : transferable ts -> 0 <= zlen ts < 2 ^ 63.
Proof. intros [_ _ Hh _ _]. pose proof (zlen_nonneg ts). unfold PARTIAL_HASH_LEN in Hh. lia. Qed.

Lemma sendMissing_run known p inc out sent rest s :
  let ts := tl_transactions (bp_transactionList p) in
  let miss := unknown known ts in
  miss <> [] -> transferable miss -> delivers inc (concat (map phash miss) ++ rest) -> accepts out ->
  exists inc' out', sendMissing K L W p (zlen miss) (at_conn (mkConn inc out sent) s) =
    (Ok tt, at_conn (mkConn inc' out' (sent ++ proposer_answer miss)) s) /\ delivers inc' rest /\ accepts out'.
Proof.
  intros ts miss Hne Hfit Hd Ha. pose proof (fits_count _ Hfit) as Hc.
  assert (0 < zlen miss) as Hp by (destruct miss; [done|unfold zlen; cbn [length]; lia]).
  destruct (readMissingHashes_run miss inc out sent rest s Hp (fi_hashes _ Hfit) Hd) as (inc1 & Hr & Hd1).
  destruct (sendHeader_run _ _ _ inc1 out sent s (fi_answer _ Hfit) Ha) as (out1 & Hh & Ha1).
  destruct (writeBytes_run (list_bytes (cr_blake3 K) miss false) inc1 out1
    (sent ++ header_bytes_ (missing_answer_fields (tx_sizes (cr_blake3 K) miss false))) s Ha1) as (out2 & Hw & Ha2).
  { unfold list_bytes, zlen. cbn [app length]. lia. }
  exists inc1, out2. split; [|done]. unfold sendMissing.
  eapply run_step; [by apply nested_run|]. cbv zeta. fold ts.
  rewrite (selectMissing_ok known ts : selectMissing K (list_to_set (map phash miss)) ts = miss).
  eapply run_step; [apply lift_run, missingSizes_ok, Hfit|].
  eapply run_step; [rewrite Z.eqb_refl; reflexivity|]. eapply run_step; [exact Hh|]. apply nested_run.
  rewrite tl_serialize_ok by apply Hfit. eapply run_step; [reflexivity|]. rewrite Hw.
  unfold proposer_answer. by rewrite decide_False, <- app_assoc.
Qed.

Lemma readRequest_run ts inc out sent rest s :
  transferable ts -> delivers inc (header_bytes_ (missing_request_fields (zlen ts)) ++ rest) ->
  exists inc', readMissingTransactionsRequestHeader K L W (at_conn (mkConn inc out sent) s) =
    (Ok (zlen ts), at_conn (mkConn inc' out sent) s) /\ delivers inc' rest.
Proof.
  intros Hfit Hd. pose proof (fits_count _ Hfit) as Hc.
  destruct (readHeader_run _ _ inc out sent _ s (fi_request _ Hfit) Hd) as (inc1 & Hr & Hd1).
  destruct (missing_request_lookup (zlen ts)) as (Hs1 & Hs2 & Hn); [lia|]. exists inc1. split; [|done].
  unfold readMissingTransactionsRequestHeader. eapply run_step; [exact Hr|].
  destruct (getUint64 _ "status") as [st|]; [|done]. eapply run_step; [reflexivity|].
  destruct (getUint64 _ "substatus") as [sub|]; [|done]. eapply run_step; [reflexivity|]. by apply lift_run.
Qed.

Lemma sendTransactions_run known p inc out sent rest s :
  let ts := tl_transactions (bp_transactionList p) in
  let miss := unknown known ts in
  transferable miss -> delivers inc (node_bytes miss ++ rest) -> accepts out ->
  exists inc' out', sendTransactions K L W p (at_conn (mkConn inc out sent) s) =
    (Ok tt, at_conn (mkConn inc' out' (sent ++ proposer_bytes known ts)) s) /\ delivers inc' rest /\ accepts out'.
Proof.
  intros ts miss Hfit Hd Ha. pose proof (fits_count _ Hfit) as Hc. unfold node_bytes in Hd. rewrite <- app_assoc in Hd.
  assert (exists out1, (if 0 <? zlen ts then nested NetworkProtocolException
      (pu_on_conn L W (io_writeBytes (concat (map phash ts)))) else mret tt) (at_conn (mkConn inc out sent) s) =
      (Ok tt, at_conn (mkConn inc out1 (sent ++ concat (map phash ts))) s) /\ accepts out1) as (out1 & Hw & Ha1).
  { destruct (Z.ltb_spec 0 (zlen ts)) as [Hz|Hz].
    - destruct (writeBytes_run (concat (map phash ts)) inc out sent s Ha) as (out1 & Hw & Ha1).
      { rewrite zlen_hashes. unfold PARTIAL_HASH_LEN. lia. }
      exists out1. split; [|done]. by apply nested_run.
    - exists out. destruct ts as [|t ts']; [by rewrite app_nil_r|unfold zlen in Hz; cbn [length] in Hz; lia]. }
  destruct (readRequest_run miss inc out1 (sent ++ concat (map phash ts)) _ s Hfit Hd) as (inc1 & Hreq & Hd1).
  assert (exists inc' out', (if zlen miss =? 0 then mret tt else sendMissing K L W p (zlen miss))
      (at_conn (mkConn inc1 out1 (sent ++ concat (map phash ts))) s) =
      (Ok tt, at_conn (mkConn inc' out' (sent ++ proposer_bytes known ts)) s) /\ delivers inc' rest /\ accepts out')
    as (inc' & out' & Htail & Hd2 & Ha2).
  { unfold proposer_bytes. fold miss. destruct (Z.eqb_spec (zlen miss) 0) as [Hz|Hz].
    - assert (miss = []) as Hm by (destruct miss; [done|unfold zlen in Hz; cbn [length] in Hz; lia]).
      exists inc1, out1. rewrite Hm in *. by rewrite app_nil_r.
    - destruct (sendMissing_run known p inc1 out1 (sent ++ concat (map phash ts)) rest s) as (inc2 & out2 & Hm & Hd2 & Ha2);
        [intros Hm; apply Hz; fold ts miss in Hm; by rewrite Hm|done..|].
      exists inc2, out2. split; [|done]. fold ts miss in Hm. by rewrite Hm, <- app_assoc. }
  exists inc', out'. split; [|done]. unfold sendTransactions. cbv zeta. fold ts.
  eapply run_step; [apply lift_run, createPartialHashesList_ok|]. cbn [ph_transactionCount ph_partialHashes hash_list].
  eapply run_step; [exact Hw|]. eapply run_step; [apply nested_run, Hreq|]. exact Htail.
Qed.

(** *** The node *)
Local Abbreviation nstate := (server D).
Implicit Types v : nstate.

Definition pending_of v : pending_queue := st_pending (sc_stores (sv_chain v)).
Definition with_pending (q : pending_queue) v : nstate := (on_chain (on_pending (put q)) v).2.
Definition sv_at_conn (x : connection) v : nstate := mkServer (sv_chain v) x (sv_signed v).

Lemma pending_run {A} (c : M pending_queue A) v r q :
  c (pending_of v) = (r, q) -> on_chain (on_pending c) v = (r, with_pending q v).
Proof.
  intros Hc. unfold with_pending, on_chain, on_pending, on_stores, zoom. fold (pending_of v).
  change (st_pending (sc_stores (sv_chain v))) with (pending_of v). by rewrite Hc.
Qed.

Lemma pending_with q v : pending_of (with_pending q v) = q.
Proof. done. Qed.

Lemma with_pending_same v : with_pending (pending_of v) v = v.
Proof. destruct v as [[i st t o w] c sg]. destruct t. reflexivity. Qed.

Lemma getPresentAndMissing_run known ts v :
  knownTransactions (pending_of v) = known ->
  getPresentAndMissingTransactions (hash_list ts) v =
    (Ok (list_to_map (positions_of (fun t => known !! phash t) 0 ts),
         list_to_map (positions_of (fun t => if decide (known !! phash t = None) then Some (phash t) else None) 0 ts)), v).
Proof.
  intros Hk. unfold getPresentAndMissingTransactions. cbn [ph_transactionCount hash_list].
  assert (forall us k present missing, (forall i t, us !! i = Some t -> getPartialHash (hash_list ts) (k + Z.of_nat i) = Ok (phash t)) ->
    splitTransactions (hash_list ts) (seqZ k (zlen us)) present missing v =
    (Ok (list_to_map (positions_of (fun t => known !! phash t) k us) ∪ present,
         list_to_map (positions_of (fun t => if decide (known !! phash t = None) then Some (phash t) else None) k us) ∪ missing), v))
    as Hgen.
  { induction us as [|t us IH]; intros k present missing Hp.
    - cbn. by rewrite !(left_id_L ∅ (∪)).
    - unfold zlen. cbn [length]. rewrite seqZ_cons, Nat2Z.inj_succ, Z.pred_succ by lia. cbn [splitTransactions].
      eapply run_step; [apply lift_run; specialize (Hp 0%nat t eq_refl); by rewrite Z.add_0_r in Hp|].
      eapply run_step; [apply (pending_run (getKnownTransactionByPartialHash (phash t))); reflexivity|].
      rewrite with_pending_same, Hk. rewrite <- Z.add_1_r.
      assert (forall i u, us !! i = Some u -> getPartialHash (hash_list ts) (k + 1 + Z.of_nat i) = Ok (phash u)) as Hp'.
      { intros i u Hi. specialize (Hp (S i) u Hi). by replace (k + 1 + Z.of_nat i) with (k + Z.of_nat (S i)) by lia. }
      cbn [positions_of]. destruct (known !! phash t) as [u|] eqn:Hu.
      + rewrite decide_False by done. cbn [list_to_map foldr uncurry fst snd].
        rewrite <- insert_union_l, (insert_union_r _ _ _ _ (positions_of_fresh _ k us)). by apply IH.
      + rewrite decide_True by done. cbn [list_to_map foldr uncurry fst snd].
        rewrite <- insert_union_l, (insert_union_r _ _ _ _ (positions_of_fresh _ k us)). by apply IH. }
  rewrite Hgen; [by rewrite !(right_id_L ∅ (∪))|]. intros i t Hi. by apply hash_list_lookup.
Qed.

Lemma index_values ts h t : indexTransactions K ts !! h = Some t -> t ∈ ts /\ phash t = h.
Proof.
  unfold indexTransactions. induction ts as [|u ts IH] using rev_ind; [done|]. rewrite foldl_snoc, elem_of_app.
  intros [[<- <-]|[_ [Ht Hh]%IH]]%lookup_insert_Some; [|by split; [left|]]. split; [right; by left|done].
Qed.

Lemma index_lookup ts t :
  t ∈ ts -> (forall u, u ∈ ts -> phash u = phash t -> u = t) -> indexTransactions K ts !! phash t = Some t.
Proof.
  unfold indexTransactions. induction ts as [|u ts IH] using rev_ind; intros Ht Hd; [by apply elem_of_nil in Ht|].
  rewrite foldl_snoc. destruct (decide (phash u = phash t)) as [Heq|Hne].
  - rewrite Heq, lookup_insert_eq. f_equal. apply Hd; [|done]. apply elem_of_app. right. by left.
  - rewrite lookup_insert_ne by done. apply IH; [|intros w Hw; apply Hd, elem_of_app; by left].
    apply elem_of_app in Ht as [Ht|Ht%list_elem_of_singleton]; [done|by subst].
Qed.

Definition pending_ok (q : pending_queue) : Prop :=
  synced (cr_blake3 K) q /\ within (knownTransactionsQueue q) = true.

Lemma pushMissing_run ts v :
  pending_ok (pending_of v) -> (forall t, t ∈ ts -> valid_tx t /\ zlen (tx_data t) < 2 ^ 63) ->
  exists q, pushMissing K (indexTransactions K ts) v = (Ok tt, with_pending q v).
Proof.
  intros Hv Hts. unfold pushMissing.
  assert (forall l v, pending_ok (pending_of v) -> (forall kv, kv ∈ l -> valid_tx kv.2 /\ zlen (tx_data kv.2) < 2 ^ 63) ->
    exists q, mapM_ (fun kv : list Z * Transaction => on_chain (on_pending (pushKnownTransaction (cr_blake3 K) kv.2))) l v =
      (Ok tt, with_pending q v)) as Hgen.
  { clear v Hv. intros l. induction l as [|kv l IH]; intros v Hv Hl.
    - exists (pending_of v). by rewrite with_pending_same.
    - destruct (Hl kv) as [Hval Hsz]; [by left|]. destruct Hv as [Hs Hw].
      pose proof (pushKnownTransaction_spec (cr_blake3 K) _ _ Hs Hw Hval Hsz) as Hp.
      destruct (pushKnownTransaction (cr_blake3 K) kv.2 (pending_of v)) as [r q] eqn:Hrun.
      destruct (wp_run _ _ _ _ _ Hp Hrun) as (-> & Hs' & Hw' & _).
      destruct (IH (with_pending q v)) as [q' Hq]; [by split|intros kv' ?; apply Hl; by right|].
      exists q'. cbn [mapM_]. eapply run_step; [by apply pending_run|]. by rewrite Hq. }
  apply Hgen; [done|]. intros [h t] [Ht _]%elem_of_map_to_list%index_values. by apply Hts.
Qed.

Lemma fits_sizes ts :
  transferable ts -> foldl (fun total size => u64 (total + size)) 2 (tx_sizes (cr_blake3 K) ts false) =
    zlen (list_bytes (cr_blake3 K) ts false) /\
  map u64 (tx_sizes (cr_blake3 K) ts false) = tx_sizes (cr_blake3 K) ts false.
Proof.
  intros [_ Hs _ _ _]. unfold list_bytes in *. rewrite !zlen_app in *. change (zlen [60]) with 1 in *.
  change (zlen [62]) with 1 in *. unfold tx_sizes, txs_bytes in *.
  replace (map (fun t => zlen (tx_bytes (cr_blake3 K) t false)) ts)
    with (map zlen (map (fun t => tx_bytes (cr_blake3 K) t false) ts)) by apply map_map.
  split; [rewrite total_size by lia; lia|apply map_zlen_u64; lia].
Qed.

Lemma fits_tx ts t : transferable ts -> t ∈ ts -> valid_tx t /\ zlen (tx_data t) < 2 ^ 63.
Proof.
  intros [Hv Hs _ _ _] Ht. rewrite list.Forall_forall in Hv. split; [by apply Hv|].
  unfold list_bytes in Hs. rewrite !zlen_app in Hs. change (zlen [60]) with 1 in Hs. change (zlen [62]) with 1 in Hs.
  apply list_elem_of_split in Ht as (l1 & l2 & ->). unfold txs_bytes in Hs. rewrite map_app, concat_app in Hs.
  cbn [map concat] in Hs. rewrite !zlen_app, (zlen_tx_bytes _ blake3_length) in Hs.
  pose proof (zlen_nonneg (concat (map (fun t => tx_bytes (cr_blake3 K) t false) l1))).
  pose proof (zlen_nonneg (concat (map (fun t => tx_bytes (cr_blake3 K) t false) l2))). lia.
Qed.

Lemma sv_conn_run {A} (c : M connection A) x v r x' :
  c x = (r, x') -> on_conn c (sv_at_conn x v) = (r, sv_at_conn x' v).
Proof. intros Hc. unfold on_conn, zoom. cbn. by rewrite Hc. Qed.

Lemma readMissing_run ts inc out sent v :
  transferable ts -> delivers inc (list_bytes (cr_blake3 K) ts false) ->
  exists inc', readMissingTransactions K (missing_answer_fields (tx_sizes (cr_blake3 K) ts false))
      (sv_at_conn (mkConn inc out sent) v) =
    (Ok (indexTransactions K ts), sv_at_conn (mkConn inc' out sent) v).
Proof.
  intros Hfit Hd. destruct (fits_sizes _ Hfit) as [Htot Hmap]. rewrite <- (app_nil_r (list_bytes _ _ _)) in Hd.
  assert (0 < zlen (list_bytes (cr_blake3 K) ts false)) as Hpos by (unfold list_bytes, zlen; cbn [app length]; lia).
  destruct (readBytes_delivers _ _ inc out sent _ _ Hd Hpos eq_refl (Z.le_refl _)) as (inc' & Hr & _).
  exists inc'. unfold readMissingTransactions. rewrite missing_answer_sizes. eapply run_step; [reflexivity|].
  cbv zeta. rewrite Hmap, Htot. unfold allocate.
  eapply run_step; [apply lift_run; rewrite (proj2 (Z.ltb_lt _ _)) by apply Hfit; reflexivity|].
  eapply run_step; [apply sv_conn_run; rewrite Hr; reflexivity|].
  eapply run_step; [apply lift_run, (tl_deserialize_ok _ blake3_length ts false []); [apply Hfit|done|apply Hfit]|]. done.
Qed.

Lemma orderTransactions_run b known ts v :
  distinct known ts ->
  orderTransactions b (hash_list ts) (seqZ 0 (zlen ts)) (list_to_map (positions_of (fun t => known !! phash t) 0 ts))
    (indexTransactions K (unknown known ts)) v = (Ok ts, v).
Proof.
  intros [Hk Hd].
  assert (forall us k, (forall i t, us !! i = Some t -> ts !! (k + i)%nat = Some t) ->
    orderTransactions b (hash_list ts) (seqZ (Z.of_nat k) (zlen us)) (list_to_map (positions_of (fun t => known !! phash t) 0 ts))
      (indexTransactions K (unknown known ts)) v = (Ok us, v)) as Hgen; [|by apply (Hgen ts 0%nat)].
  induction us as [|t us IH]; intros k Hus; [done|]. unfold zlen. cbn [length].
  rewrite seqZ_cons, Nat2Z.inj_succ, Z.pred_succ by lia. cbn [orderTransactions].
  assert (ts !! k = Some t) as Hi by (specialize (Hus 0%nat t eq_refl); by rewrite Nat.add_0_r in Hus).
  pose proof (list_elem_of_lookup_2 _ _ _ Hi) as Ht.
  eapply run_step; [apply lift_run; by apply hash_list_lookup|].
  pose proof (positions_of_lookup (fun t => known !! phash t) 0 ts k) as Hl. rewrite Hi in Hl. cbn [mbind option_bind] in Hl.
  rewrite Z.add_0_l in Hl. rewrite Hl.
  assert (match known !! phash t with Some t => Some t | None => indexTransactions K (unknown known ts) !! phash t end = Some t)
    as Hsel.
  { destruct (known !! phash t) as [u|] eqn:Hu; [f_equal; by eapply Hk|]. apply index_lookup.
    - unfold unknown. by apply list_elem_of_filter.
    - intros u [_ Hin]%list_elem_of_filter Heq. by apply Hd. }
  rewrite Hsel. eapply run_step; [reflexivity|]. replace (Z.succ (Z.of_nat k)) with (Z.of_nat (S k)) by lia.
  eapply run_step; [apply IH|done]. intros i u Hu. specialize (Hus (S i) u Hu). by rewrite Nat.add_succ_r in Hus.
Qed.

(** The hashes that the node asks for, in the order of the proposal. *)
Definition missing_map known ts : gmap Z (list Z) :=
  list_to_map (positions_of (fun t => if decide (known !! phash t = None) then Some (phash t) else None) 0 ts).

Lemma missing_map_items known ts : (map_items (missing_map known ts)).*2 = map phash (unknown known ts).
Proof.
  unfold missing_map. rewrite map_items_sorted_list by apply positions_of_sorted.
  rewrite positions_of_values. apply omap_filter.
Qed.

Lemma zsize_missing_map known ts : zsize (missing_map known ts) = zlen (unknown known ts).
Proof.
  unfold zsize, zlen. rewrite <- length_map_items, <- (length_map phash), <- missing_map_items. by rewrite length_fmap.
Qed.

Lemma missing_map_bytes known ts :
  concat (map (fun kv => take (Z.to_nat PARTIAL_HASH_LEN) kv.2) (map_items (missing_map known ts))) =
  concat (map phash (unknown known ts)).
Proof.
  replace (map (fun kv => take (Z.to_nat PARTIAL_HASH_LEN) kv.2) (map_items (missing_map known ts)))
    with (map (take (Z.to_nat PARTIAL_HASH_LEN)) (map_items (missing_map known ts)).*2) by apply map_map.
  rewrite missing_map_items, map_map. f_equal. apply map_ext. intros t. apply take_ge.
  pose proof (length_partialHash _ blake3_length t). unfold zlen in *. lia.
Qed.

Lemma sv_send_run h m j inc out sent v :
  sendable_ h m j -> accepts out ->
  exists out', send K h (sv_at_conn (mkConn inc out sent) v) =
    (Ok tt, sv_at_conn (mkConn inc out' (sent ++ header_bytes_ j)) v) /\ accepts out'.
Proof.
  intros Hs Ha. destruct (writeHeader_ok _ _ _ _ _ inc out sent Hs Ha) as (out' & Hw & Ha').
  exists out'. split; [|done]. by apply sv_conn_run.
Qed.

(** The transactions that the node fetches. *)
Lemma fetch_run known ts inc out sent v :
  let miss := unknown known ts in
  miss <> [] -> transferable miss -> pending_ok (pending_of v) -> delivers inc (proposer_answer miss) -> accepts out ->
  exists inc' out' q,
    (nested CouldNotSendMessageException (on_conn (writePartialHashes (missing_map known ts))) ;;
     response ← on_conn (readJsonHeader (cr_json_parse K) MAX_HEADER_SIZE);
     fetched ← readMissingTransactions K response;
     pushMissing K fetched ;;
     mret fetched) (sv_at_conn (mkConn inc out sent) v) =
    (Ok (indexTransactions K miss), with_pending q (sv_at_conn (mkConn inc' out' (sent ++ concat (map phash miss))) v)).
Proof.
  intros miss Hne Hfit Hv Hd Ha. unfold proposer_answer in Hd. rewrite decide_False in Hd by done.
  assert (0 < zlen miss) as Hp by (destruct miss; [done|unfold zlen; cbn [length]; lia]).
  destruct (writeBytes_accepted (concat (map phash miss)) out inc sent Ha) as (out1 & Hw & Ha1).
  { rewrite zlen_hashes. unfold PARTIAL_HASH_LEN. lia. }
  destruct (readJsonHeader_ok _ _ _ parse_dump _ _ _ _ out1 (sent ++ concat (map phash miss)) _ (fi_answer _ Hfit) Hd)
    as (inc1 & Hr & Hd1).
  destruct (readMissing_run miss inc1 out1 (sent ++ concat (map phash miss)) v Hfit Hd1) as (inc2 & Hm).
  destruct (pushMissing_run miss (sv_at_conn (mkConn inc2 out1 (sent ++ concat (map phash miss))) v)) as [q Hq];
    [exact Hv|intros t Ht; by eapply fits_tx|].
  exists inc2, out1, q.
  eapply run_step; [apply nested_run, sv_conn_run; unfold writePartialHashes|].
  { eapply run_step; [rewrite zsize_missing_map, (proj2 (Z.ltb_lt _ _)) by done; reflexivity|].
    rewrite missing_map_bytes. exact Hw. }
  eapply run_step; [by apply sv_conn_run|]. eapply run_step; [exact Hm|]. by eapply run_step; [exact Hq|].
Qed.

Lemma readPartialHashes_run ts inc out sent rest v :
  zlen ts <= cc_maxTransactionsPerBlock C -> zlen ts * PARTIAL_HASH_LEN < 2 ^ 63 ->
  delivers inc (concat (map phash ts) ++ rest) ->
  exists inc', readPartialHashes C (zlen ts) (sv_at_conn (mkConn inc out sent) v) =
    (Ok (hash_list ts), sv_at_conn (mkConn inc' out sent) v) /\ delivers inc' rest.
Proof.
  intros Hmax Hsz Hd. unfold readPartialHashes, check. rewrite (proj2 (Z.leb_le _ _) Hmax).
  destruct (Z.eqb_spec (zlen ts) 0) as [Hz|Hz].
  - destruct ts as [|t ts]; [by exists inc|unfold zlen in Hz; cbn [length] in Hz; lia].
  - pose proof (zlen_nonneg ts). pose proof (zlen_hashes ts) as Hl. unfold PARTIAL_HASH_LEN in *.
    destruct (readBytes_delivers (zlen ts * 8) (zlen ts * 8) inc out sent _ _ Hd) as (inc' & Hr & Hd'); [lia..|].
    exists inc'. split; [|done]. rewrite u64_small by lia. eapply run_step; [reflexivity|].
    eapply run_step; [by apply nested_run, sv_conn_run|done].
Qed.

Lemma maybe_fetch_run known ts inc out sent v :
  let miss := unknown known ts in
  transferable miss -> pending_ok (pending_of v) -> delivers inc (proposer_answer miss) -> accepts out ->
  exists v',
    (if zsize (missing_map known ts) =? 0 then mret ∅ else
     nested CouldNotSendMessageException (on_conn (writePartialHashes (missing_map known ts))) ;;
     response ← on_conn (readJsonHeader (cr_json_parse K) MAX_HEADER_SIZE);
     fetched ← readMissingTransactions K response;
     pushMissing K fetched ;;
     mret fetched) (sv_at_conn (mkConn inc out sent) v) = (Ok (indexTransactions K miss), v') /\
    cn_sent (sv_conn v') = sent ++ concat (map phash miss).
Proof.
  intros miss Hfit Hv Hd Ha. rewrite zsize_missing_map. fold miss. destruct (Z.eqb_spec (zlen miss) 0) as [Hz|Hz].
  - assert (miss = []) as -> by (destruct miss; [done|unfold zlen in Hz; cbn [length] in Hz; lia]).
    eexists. split; [done|]. by rewrite app_nil_r.
  - destruct (fetch_run known ts inc out sent v) as (inc2 & out2 & q & Hf); [intros Hm; by apply Hz; unfold miss; rewrite Hm|done..|].
    eexists. split; [exact Hf|done].
Qed.

Lemma collectTransactions_run h known ts inc out sent v :
  pr_txCount h = zlen ts -> zlen ts <= cc_maxTransactionsPerBlock C -> zlen ts * PARTIAL_HASH_LEN < 2 ^ 63 ->
  knownTransactions (pending_of v) = known -> pending_ok (pending_of v) -> distinct known ts -> transferable (unknown known ts) ->
  delivers inc (proposer_bytes known ts) -> accepts out ->
  exists v', collectTransactions C K h (sv_at_conn (mkConn inc out sent) v) = (Ok (mkTransactionList ts), v') /\
    cn_sent (sv_conn v') = sent ++ node_bytes (unknown known ts).
Proof.
  intros Hn Hmax Hsz Hknown Hv Hdist Hfit Hd Ha. set (miss := unknown known ts) in *.
  destruct (readPartialHashes_run ts inc out sent _ v Hmax Hsz Hd) as (inc1 & Hr & Hd1).
  destruct (sv_send_run _ _ _ inc1 out sent v (fi_request _ Hfit) Ha) as (out1 & Hs & Ha1).
  destruct (maybe_fetch_run known ts inc1 out1 (sent ++ header_bytes_ (missing_request_fields (zlen miss))) v Hfit Hv Hd1 Ha1)
    as (v' & Hf & Hsent).
  exists v'. split; [|by rewrite Hsent, <- app_assoc]. unfold collectTransactions. rewrite Hn.
  eapply run_step; [by apply nested_run|]. eapply run_step; [by apply (getPresentAndMissing_run known)|].
  cbv beta iota. fold (missing_map known ts).
  eapply run_step; [apply nested_run; rewrite zsize_missing_map; exact Hs|].
  eapply run_step; [exact Hf|]. eapply run_step; [by apply orderTransactions_run|]. done.
Qed.

(** C21: The transactions of a proposal reach the other node.  The proposer and
    the node, which knows some of the transactions, exchange hashes and missing
    transactions: whatever parts of the bytes the two sockets accept and deliver
    at a time, what each end writes is what the other end reads, the proposer
    ends the exchange without an error, and the node ends up with just the
    transactions of the proposal, in their order, repeated ones included, if
    transactions with the same partial hash are the same. *)
Theorem proposal_transactions_transfer h p v s inc out sent inc' out' sent' rest :
  let ts := tl_transactions (bp_transactionList p) in
  let known := knownTransactions (pending_of v) in
  pr_txCount h = zlen ts -> zlen ts <= cc_maxTransactionsPerBlock C -> zlen ts * PARTIAL_HASH_LEN < 2 ^ 63 ->
  pending_ok (pending_of v) -> distinct known ts -> transferable (unknown known ts) ->
  accepts out -> accepts out' ->
  delivers inc (proposer_bytes known ts) -> delivers inc' (node_bytes (unknown known ts) ++ rest) ->
  (exists v', collectTransactions C K h (sv_at_conn (mkConn inc out sent) v) = (Ok (mkTransactionList ts), v') /\
     cn_sent (sv_conn v') = sent ++ node_bytes (unknown known ts)) /\
  (exists inc2 out2, sendTransactions K L W p (at_conn (mkConn inc' out' sent') s) =
     (Ok tt, at_conn (mkConn inc2 out2 (sent' ++ proposer_bytes known ts)) s) /\ delivers inc2 rest).
Proof.
  intros ts known Hn Hmax Hsz Hv Hdist Hfit Ha Ha' Hd Hd'. split; [by apply collectTransactions_run|].
  destruct (sendTransactions_run known p inc' out' sent' rest s Hfit Hd' Ha') as (inc2 & out2 & Hrun & Hrest & _). eauto.
Qed.
End Exchange.

(** ** Witness *)
Section ExchangeDemo.
Local Abbreviation D := (gmap string string).

Local Abbreviation demo_phash := (tx_getPartialHash demo_hash).

(** A proposal with a repeated transaction, and a node that knows the other one. *)
Definition pushed_proposal : BlockProposal :=
  {| bp_schainID := 1; bp_proposerNodeID := 7; bp_blockID := 12; bp_proposerIndex := 2;
     bp_timeStamp := 1700000000; bp_timeStampMs := 13; bp_stateRoot := 99;
     bp_transactionList := mkTransactionList [demo_tx 3; demo_tx 1; demo_tx 3];
     bp_hash := demo_hash (repeat 0 152); bp_signature := "sig" |}.

Definition knows_one : pending_queue :=
  mkPending {[demo_phash (demo_tx 1) := demo_tx 1]} [demo_tx 1] (zlen (tx_data (demo_tx 1)) + PARTIAL_HASH_LEN).

Definition pushed_to_node : server D := with_pending knows_one (mkServer peer_chain (mkConn [] [] []) []).

Lemma pushed_pending_ok : pending_ok demo_crypto (pending_of pushed_to_node).
Proof.
  split; [split_and!|reflexivity].
  - by apply Forall_singleton.
  - apply NoDup_singleton.
  - reflexivity.
  - reflexivity.
Qed.

Local Abbreviation pushed_known := ({[demo_phash (demo_tx 1) := demo_tx 1]} : gmap (list Z) Transaction).
Local Abbreviation pushed_txs := ([demo_tx 3; demo_tx 1; demo_tx 3] : list Transaction).

Lemma pushed_unknown :
  unknown demo_crypto (knownTransactions (pending_of pushed_to_node)) (tl_transactions (bp_transactionList pushed_proposal)) =
  [demo_tx 3; demo_tx 3].
Proof. vm_compute. reflexivity. Qed.

Lemma demo_phash_ne : demo_phash (demo_tx 3) <> demo_phash (demo_tx 1).
Proof. vm_compute. discriminate. Qed.

Lemma pushed_distinct : distinct demo_crypto pushed_known pushed_txs.
Proof.
  pose proof demo_phash_ne as Hne.
  assert (forall t, t ∈ pushed_txs -> t = demo_tx 3 \/ t = demo_tx 1) as Hts.
  { intros t. rewrite !elem_of_cons, elem_of_nil. tauto. }
  split.
  - intros t u Ht [Hh <-]%lookup_singleton_Some. destruct (Hts t Ht) as [->| ->]; [|done].
    exfalso. apply Hne. symmetry. exact Hh.
  - intros t u Ht Hu Heq. destruct (Hts t Ht) as [->| ->], (Hts u Hu) as [->| ->]; [done| | |done].
    + exfalso. exact (Hne Heq).
    + exfalso. exact (Hne (eq_sym Heq)).
Qed.

Lemma pushed_transferable : transferable demo_crypto [demo_tx 3; demo_tx 3].
Proof.
  constructor.
  - by repeat constructor.
  - vm_compute. reflexivity.
  - vm_compute. reflexivity.
  - split; [done|]. split; [done|]. split; [|vm_compute; repeat split; discriminate].
    unfold missing_request_fields, addStatusFields. do 3 (apply json_plain_insert; [|by vm_compute]). apply json_plain_insert.
    + intros k v Hk. by rewrite lookup_empty in Hk.
    + unfold plain. cbn. repeat constructor.
  - split; [done|]. split; [done|]. split; [|vm_compute; repeat split; discriminate].
    unfold missing_answer_fields, addStatusFields. apply json_plain_insert; [|repeat constructor; vm_compute; discriminate].
    do 2 (apply json_plain_insert; [|by vm_compute]). apply json_plain_insert.
    + intros k v Hk. by rewrite lookup_empty in Hk.
    + unfold plain. cbn. repeat constructor.
Qed.

Local Abbreviation pushed_bytes := (proposer_bytes demo_crypto pushed_known pushed_txs).
Local Abbreviation asked_bytes := (node_bytes demo_crypto [demo_tx 3; demo_tx 3]).

Definition pushed_request : BlockProposalRequestHeader :=
  {| pr_block := {| ar_schainID := 1; ar_blockID := 12; ar_proposerIndex := 2 |}; pr_proposerNodeID := 7;
     pr_timeStamp := 1700000000; pr_timeStampMs := 13; pr_hash := "00"; pr_signature := "sig"; pr_txCount := 3;
     pr_stateRoot := 99 |}.

Lemma whole_delivers bytes : bytes <> [] -> delivers [RecvChunk bytes] bytes.
Proof.
  intros Hne. exists [bytes]. split; [done|]. split; [by apply Forall_singleton|]. cbn. by rewrite app_nil_r.
Qed.

Definition proposer_state : pusher D toy_libs toy_wallet := newPusher demo_chain toy_libs toy_wallet behind_client toy_state.

Lemma proposal_transactions_transfer_witness :
  exists v' inc2 out2,
    collectTransactions demo_chain demo_crypto pushed_request
      (sv_at_conn (mkConn [RecvChunk pushed_bytes] [] []) pushed_to_node) = (Ok (mkTransactionList pushed_txs), v') /\
    cn_sent (sv_conn v') = asked_bytes /\
    sendTransactions demo_crypto toy_libs toy_wallet pushed_proposal
      (at_conn toy_libs toy_wallet (mkConn [RecvChunk asked_bytes] [] []) proposer_state) =
    (Ok tt, at_conn toy_libs toy_wallet (mkConn inc2 out2 pushed_bytes) proposer_state).
Proof.
  destruct (proposal_transactions_transfer demo_chain demo_crypto toy_libs toy_wallet demo_hash_length demo_parse_dump
    pushed_request pushed_proposal pushed_to_node proposer_state [RecvChunk pushed_bytes] [] []
    [RecvChunk asked_bytes] [] [] []) as [(v' & Hc & Hs) (inc2 & out2 & Hp & _)].
  - reflexivity.
  - vm_compute. discriminate.
  - vm_compute. reflexivity.
  - exact pushed_pending_ok.
  - exact pushed_distinct.
  - rewrite pushed_unknown. exact pushed_transferable.
  - constructor.
  - constructor.
  - apply whole_delivers. vm_compute. discriminate.
  - rewrite pushed_unknown, app_nil_r.
    apply whole_delivers. vm_compute. discriminate.
  - rewrite pushed_unknown in Hs.
    exists v', inc2, out2. split; [exact Hc|]. split; [exact Hs|exact Hp].
Defined.
End ExchangeDemo.
