(* ===== verification/OracleSpec.v ===== *)
(** * Requests to the oracle

    Model of [OracleRequestSpec] ([src/oracle/OracleRequestSpec.cpp]): the text
    of a request, its parsing and checks, its proof of work and its making.
    RapidJSON, the URL parser and [inet_pton] are parameters. *)

From stdpp Require Import base tactics list strings.
From Stdlib Require Import ZArith Lia Ascii.
From S2P Require Import Prelude Bytes Blocks SgxClient Crypto.

(** ** Status codes *)
Definition ORACLE_SUCCESS : Z := 0.
Definition ORACLE_UNKNOWN_RECEIPT : Z := 1.
Definition ORACLE_TIMEOUT : Z := 2.
Definition ORACLE_UNKNOWN_ERROR : Z := 4.
Definition ORACLE_RESULT_NOT_READY : Z := 5.
Definition ORACLE_DUPLICATE_REQUEST : Z := 6.
Definition ORACLE_COULD_NOT_CONNECT_TO_ENDPOINT : Z := 7.
Definition ORACLE_ENDPOINT_JSON_RESPONSE_COULD_NOT_BE_PARSED : Z := 8.
Definition ORACLE_INTERNAL_SERVER_ERROR : Z := 9.
Definition ORACLE_INVALID_JSON_REQUEST : Z := 10.
Definition ORACLE_TIME_IN_REQUEST_SPEC_TOO_OLD : Z := 11.
Definition ORACLE_TIME_IN_REQUEST_SPEC_IN_THE_FUTURE : Z := 11.
Definition ORACLE_INVALID_CHAIN_ID : Z := 12.
Definition ORACLE_REQUEST_TOO_LARGE : Z := 13.
Definition ORACLE_RESULT_TOO_LARGE : Z := 14.
Definition ORACLE_ETH_METHOD_NOT_SUPPORTED : Z := 15.
Definition ORACLE_URI_TOO_SHORT : Z := 16.
Definition ORACLE_URI_TOO_LONG : Z := 17.
Definition ORACLE_UNKNOWN_ENCODING : Z := 18.
Definition ORACLE_INVALID_URI_START : Z := 19.
Definition ORACLE_INVALID_URI : Z := 20.
Definition ORACLE_USERNAME_IN_URI : Z := 21.
Definition ORACLE_PASSWORD_IN_URI : Z := 22.
Definition ORACLE_IP_ADDRESS_IN_URI : Z := 23.
Definition ORACLE_UNPARSABLE_SPEC : Z := 24.
Definition ORACLE_NO_CHAIN_ID_IN_SPEC : Z := 25.
Definition ORACLE_NON_UINT64_CHAIN_ID_IN_SPEC : Z := 26.
Definition ORACLE_NO_URI_IN_SPEC : Z := 27.
Definition ORACLE_NON_STRING_URI_IN_SPEC : Z := 28.
Definition ORACLE_NO_ENCODING_IN_SPEC : Z := 29.
Definition ORACLE_NON_STRING_ENCODING_IN_SPEC : Z := 30.
Definition ORACLE_TIME_IN_SPEC_NO_UINT64 : Z := 31.
Definition ORACLE_POW_IN_SPEC_NO_UINT64 : Z := 32.
Definition ORACLE_POW_DID_NOT_VERIFY : Z := 33.
Definition ORACLE_ETH_API_NOT_STRING : Z := 34.
Definition ORACLE_ETH_API_NOT_PROVIDED : Z := 35.
Definition ORACLE_JSPS_NOT_PROVIDED : Z := 36.
Definition ORACLE_JSPS_NOT_ARRAY : Z := 37.
Definition ORACLE_JSPS_EMPTY : Z := 38.
Definition ORACLE_TOO_MANY_JSPS : Z := 39.
Definition ORACLE_JSP_TOO_LONG : Z := 40.
Definition ORACLE_JSP_NOT_STRING : Z := 41.
Definition ORACLE_TRIMS_ITEM_NOT_STRING : Z := 42.
Definition ORACLE_POST_NOT_STRING : Z := 44.
Definition ORACLE_POST_STRING_TOO_LARGE : Z := 45.
Definition ORACLE_NO_PARAMS_ETH_CALL : Z := 46.
Definition ORACLE_PARAMS_ARRAY_INCORRECT_SIZE : Z := 47.
Definition ORACLE_PARAMS_ARRAY_FIRST_ELEMENT_NOT_OBJECT : Z := 48.
Definition ORACLE_PARAMS_INVALID_FROM_ADDRESS : Z := 49.
Definition ORACLE_PARAMS_INVALID_TO_ADDRESS : Z := 50.
Definition ORACLE_PARAMS_ARRAY_INCORRECT_COUNT : Z := 51.
Definition ORACLE_BLOCK_NUMBER_NOT_STRING : Z := 52.
Definition ORACLE_INVALID_BLOCK_NUMBER : Z := 53.
Definition ORACLE_MISSING_FIELD : Z := 54.
Definition ORACLE_INVALID_FIELD : Z := 55.
Definition ORACLE_EMPTY_JSON_RESPONSE : Z := 56.
Definition ORACLE_COULD_NOT_PROCESS_JSPS_IN_JSON_RESPONSE : Z := 57.
Definition ORACLE_NO_TIME_IN_SPEC : Z := 58.
Definition ORACLE_NO_POW_IN_SPEC : Z := 59.
Definition ORACLE_HSPS_TRIMS_SIZE_NOT_EQUAL : Z := 60.
Definition ORACLE_PARAMS_NO_ARRAY : Z := 61.
Definition ORACLE_PARAMS_GAS_NOT_UINT64 : Z := 62.

Definition MAX_ORACLE_SPEC_LEN : Z := 1024.
Definition ORACLE_MAX_URI_SIZE : Z := 1024.
Definition ORACLE_MAX_POST_SIZE : Z := 1024.
Definition ORACLE_MAX_JSPS : Z := 32.
Definition ORACLE_MAX_JSP_SIZE : Z := 1024.

(** ** RapidJSON values *)
Inductive rvalue :=
  | RNull
  | RBool (b : bool)
  | RInt (n : Z)
  | RDouble
  | RStr (s : string)
  | RArr (l : list rvalue)
  | RObj (members : list (string * rvalue)).

(** The first member of that name; [HasMember] on anything but an object is an
    assertion. *)
Fixpoint find_member (members : list (string * rvalue)) (name : string) : option rvalue :=
  match members with
  | [] => None
  | (k, v) :: members => if String.eqb k name then Some v else find_member members name
  end.

Definition getObject (v : rvalue) : res (list (string * rvalue)) :=
  match v with RObj m => Ok m | _ => Err UndefinedBehavior end.

(** [HasMember], or the error; then the type check, or the error. *)
Definition requireMember (m : list (string * rvalue)) (name : string) (missing : Z) : res rvalue :=
  match find_member m name with Some v => Ok v | None => Err (OracleException missing) end.

Definition asUint64 (v : rvalue) (error : Z) : res Z :=
  match v with
  | RInt n => rcheck (OracleException error) ((0 <=? n) && (n <? 2 ^ 64)) ;; Ok n
  | _ => Err (OracleException error)
  end.

Definition asString (v : rvalue) (error : Z) : res string :=
  match v with RStr s => Ok (c_str s) | _ => Err (OracleException error) end.

(** What the oracle uses of the libraries. *)
Record url := { url_userName : string; url_password : string; url_host : string }.

Record oracle_libs := {
  ol_parse : string -> option rvalue;
  ol_url : string -> option url;
  ol_inet : string -> bool
}.

Definition strlen (s : string) : Z := Z.of_nat (String.length s).

(** ** Text *)

(** The double quote. *)
Definition dq : string := String (ascii_of_N 34) EmptyString.
Definition quoted (s : string) : string := dq +:+ s +:+ dq.
Definition field (name : string) : string := quoted name +:+ ":".

Definition is_xdigit (c : ascii) : bool :=
  let n := char_code c in
  ((48 <=? n) && (n <=? 57)) || ((65 <=? n) && (n <=? 70)) || ((97 <=? n) && (n <=? 102)).

Fixpoint all_xdigits (s : string) : bool :=
  match s with EmptyString => true | String c s => is_xdigit c && all_xdigits s end.

(** The rest of a string after [0x]. *)
Definition after_0x (s : string) : option string :=
  match s with
  | String a (String b s) => if (char_code a =? 48) && (char_code b =? 120) then Some s else None
  | _ => None
  end.

Definition isHexEncodedUInt64 (s : string) : bool :=
  (3 <=? strlen s) && (strlen s <=? 18) &&
  match after_0x s with Some digits => all_xdigits digits | None => false end.

Definition isValidEthHexAddressString (address : string) : bool :=
  (strlen address =? 42) && match after_0x address with Some digits => all_xdigits digits | None => false end.

(** [find( prefix ) == 0]. *)
Definition starts_with (prefix s : string) : bool := String.prefix prefix s.

(** [find( char )]: the position of the first such character, if any. *)
Fixpoint find_char (c : ascii) (s : string) (pos : Z) : option Z :=
  match s with
  | EmptyString => None
  | String d s => if Ascii.eqb c d then Some pos else find_char c s (pos + 1)
  end.

(** A position as a condition: [npos] is not zero. *)
Definition position_bool (p : option Z) : bool :=
  match p with Some p => negb (p =? 0) | None => true end.

Record OracleRequestSpec := mkSpecRecord {
  os_spec : string;
  os_chainid : Z;
  os_uri : string;
  os_jsps : list string;
  os_trims : list Z;
  os_requestTime : Z;
  os_post : string;
  os_from : string;
  os_to : string;
  os_data : string;
  os_gas : string;
  os_blockId : string;
  os_encoding : string;
  os_ethApi : string;
  os_pow : Z;
  os_receipt : string;
  os_ethCallCounter : Z
}.

Section Spec.
Context (L : crypto_libs) (OL : oracle_libs).
(** [testMode]: set once, on a test net. *)
Context (testMode : bool).

(** ** Checks *)
Definition checkEncoding (encoding : string) : res unit :=
  rcheck (OracleException ORACLE_UNKNOWN_ENCODING) (String.eqb encoding "json").

Definition checkEthApi (ethApi : string) : res unit :=
  rcheck (OracleException ORACLE_ETH_METHOD_NOT_SUPPORTED) (String.eqb ethApi "eth_call").

Definition isIpAddress (address : string) : bool := ol_inet OL (c_str address).

(** The second alternative of the check of the start is
    [_uri.find( ORACLE_HTTPS_START == 0 || _uri == ORACLE_ETH_URL )]: the pointer
    is not null, so the argument is a truth value, which [find] takes for a
    character. *)
Definition checkURI (uri : string) : res unit :=
  rcheck (OracleException ORACLE_URI_TOO_SHORT) (5 <? strlen uri) ;;
  rcheck (OracleException ORACLE_URI_TOO_LONG) (strlen uri <=? ORACLE_MAX_URI_SIZE) ;;
  rcheck (OracleException ORACLE_INVALID_URI_START)
    (starts_with "http://" uri ||
     position_bool (find_char (ascii_of_N (if String.eqb uri "eth://" then 1 else 0)) uri 0)) ;;
  if negb (String.eqb uri "eth://") && negb testMode then
    match ol_url OL uri with
    | None => Err (OracleException ORACLE_INVALID_URI)
    | Some result =>
        rcheck (OracleException ORACLE_USERNAME_IN_URI) (String.eqb (url_userName result) "") ;;
        rcheck (OracleException ORACLE_PASSWORD_IN_URI) (String.eqb (url_password result) "") ;;
        rcheck (OracleException ORACLE_IP_ADDRESS_IN_URI) (negb (isIpAddress (url_host result)))
    end
  else Ok tt.

(** ** Proof of work *)

(** [u256( "0x" + hash )]. *)
Definition hashNumber (hash : list Z) : Z := foldl (fun n b => 256 * n + b) 0 hash.

(** Division by zero throws. *)
Definition verifyPow (spec : string) : res bool :=
  let binaryHash := hashNumber (cl_keccak L (string_bytes spec)) in
  if binaryHash =? 0 then Err InvalidStateException
  else Ok (10000 <? (2 ^ 256 - 1) / binaryHash).

(** ** Parsing *)
Fixpoint parseJsps (l : list rvalue) : res (list string) :=
  match l with
  | [] => Ok []
  | item :: l =>
      jsp ← asString item ORACLE_JSP_NOT_STRING;
      rcheck (OracleException ORACLE_JSP_TOO_LONG) (strlen jsp <=? ORACLE_MAX_JSP_SIZE) ;;
      jsps ← parseJsps l;
      Ok (jsp :: jsps)
  end.

Fixpoint parseTrims (l : list rvalue) : res (list Z) :=
  match l with
  | [] => Ok []
  | item :: l =>
      trim ← asUint64 item ORACLE_TRIMS_ITEM_NOT_STRING;
      trims ← parseTrims l;
      Ok (trim :: trims)
  end.

Definition parseWebRequestSpec (d : list (string * rvalue)) (s : OracleRequestSpec) : res OracleRequestSpec :=
  v ← requireMember d "jsps" ORACLE_JSPS_NOT_PROVIDED;
  match v with
  | RArr array =>
      rcheck (OracleException ORACLE_JSPS_EMPTY) (negb (bool_decide (array = []))) ;;
      rcheck (OracleException ORACLE_TOO_MANY_JSPS) (zlen array <=? ORACLE_MAX_JSPS) ;;
      jsps ← parseJsps array;
      trims ← match find_member d "trims" with
              | Some (RArr trimArray) =>
                  trims ← parseTrims trimArray;
                  rcheck (OracleException ORACLE_HSPS_TRIMS_SIZE_NOT_EQUAL) (zlen jsps =? zlen trims) ;;
                  Ok trims
              | Some _ => Err UndefinedBehavior
              | None => Ok (replicate (length jsps) 0)
              end;
      post ← match find_member d "post" with
             | Some v =>
                 post ← asString v ORACLE_POST_NOT_STRING;
                 rcheck (OracleException ORACLE_POST_STRING_TOO_LARGE) (strlen post <=? ORACLE_MAX_POST_SIZE) ;;
                 Ok post
             | None => Ok ""%string
             end;
      Ok (mkSpecRecord (os_spec s) (os_chainid s) (os_uri s) jsps trims (os_requestTime s) post (os_from s) (os_to s)
        (os_data s) (os_gas s) (os_blockId s) (os_encoding s) (os_ethApi s) (os_pow s) (os_receipt s)
        (os_ethCallCounter s))
  | _ => Err (OracleException ORACLE_JSPS_NOT_ARRAY)
  end.

Definition checkAndGetParamsField (params0 : list (string * rvalue)) (fieldName : string) : res string :=
  v ← requireMember params0 fieldName ORACLE_MISSING_FIELD;
  asString v ORACLE_INVALID_FIELD.

(** The address that the code checks the second time is [from] again. *)
Definition parseEthApiRequestSpec (d : list (string * rvalue)) (s : OracleRequestSpec) : res OracleRequestSpec :=
  v ← requireMember d "params" ORACLE_NO_PARAMS_ETH_CALL;
  match v with
  | RArr params =>
      match params with
      | [params0; params1] =>
          match params0 with
          | RObj members =>
              from ← checkAndGetParamsField members "from";
              rcheck (OracleException ORACLE_PARAMS_INVALID_FROM_ADDRESS) (isValidEthHexAddressString from) ;;
              to ← checkAndGetParamsField members "to";
              rcheck (OracleException ORACLE_PARAMS_INVALID_TO_ADDRESS) (isValidEthHexAddressString from) ;;
              data ← checkAndGetParamsField members "data";
              gas ← checkAndGetParamsField members "gas";
              rcheck (OracleException ORACLE_PARAMS_GAS_NOT_UINT64) (isHexEncodedUInt64 gas) ;;
              rcheck (OracleException ORACLE_PARAMS_ARRAY_INCORRECT_COUNT) (zlen members =? 4) ;;
              blockId ← asString params1 ORACLE_BLOCK_NUMBER_NOT_STRING;
              rcheck (OracleException ORACLE_INVALID_BLOCK_NUMBER)
                (String.eqb blockId "latest" || isHexEncodedUInt64 blockId) ;;
              Ok (mkSpecRecord (os_spec s) (os_chainid s) (os_uri s) (os_jsps s) (os_trims s) (os_requestTime s)
                (os_post s) from to data gas blockId (os_encoding s) (os_ethApi s) (os_pow s) (os_receipt s)
                (os_ethCallCounter s))
          | _ => Err (OracleException ORACLE_PARAMS_ARRAY_FIRST_ELEMENT_NOT_OBJECT)
          end
      | _ => Err (OracleException ORACLE_PARAMS_ARRAY_INCORRECT_SIZE)
      end
  | _ => Err (OracleException ORACLE_PARAMS_NO_ARRAY)
  end.

(** The constructor, which is [parseSpec]. *)
Definition mkOracleRequestSpec (spec : string) : res OracleRequestSpec :=
  rcheck (OracleException ORACLE_REQUEST_TOO_LARGE) (strlen spec <=? MAX_ORACLE_SPEC_LEN) ;;
  let receipt := hashForOracle L spec in
  match ol_parse OL (c_str spec) with
  | None => Err (OracleException ORACLE_UNPARSABLE_SPEC)
  | Some v =>
      d ← getObject v;
      v ← requireMember d "cid" ORACLE_NO_CHAIN_ID_IN_SPEC;
      chainid ← asUint64 v ORACLE_NON_UINT64_CHAIN_ID_IN_SPEC;
      v ← requireMember d "uri" ORACLE_NO_URI_IN_SPEC;
      uri ← asString v ORACLE_NON_STRING_URI_IN_SPEC;
      checkURI uri ;;
      v ← requireMember d "encoding" ORACLE_NO_ENCODING_IN_SPEC;
      encoding ← asString v ORACLE_NON_STRING_ENCODING_IN_SPEC;
      checkEncoding encoding ;;
      v ← requireMember d "time" ORACLE_NO_TIME_IN_SPEC;
      requestTime ← asUint64 v ORACLE_TIME_IN_SPEC_NO_UINT64;
      rcheck InvalidStateException (0 <? requestTime) ;;
      v ← requireMember d "pow" ORACLE_NO_POW_IN_SPEC;
      pow ← asUint64 v ORACLE_POW_IN_SPEC_NO_UINT64;
      verified ← verifyPow spec;
      rcheck (OracleException ORACLE_POW_DID_NOT_VERIFY) verified ;;
      let s := mkSpecRecord spec chainid uri [] [] requestTime "" "" "" "" "" "" encoding "" pow receipt 0 in
      match find_member d "ethApi" with
      | Some v =>
          ethApi ← asString v ORACLE_ETH_API_NOT_STRING;
          checkEthApi ethApi ;;
          parseEthApiRequestSpec d (mkSpecRecord spec chainid uri [] [] requestTime "" "" "" "" "" "" encoding ethApi pow
            receipt 0)
      | None =>
          rcheck (OracleException ORACLE_ETH_API_NOT_PROVIDED) (negb (String.eqb uri "eth://")) ;;
          parseWebRequestSpec d s
      end
  end.

(** ** Getters *)
Definition isEthApi (s : OracleRequestSpec) : bool := negb (String.eqb (os_ethApi s) "").
Definition isPost (s : OracleRequestSpec) : bool := isEthApi s || negb (String.eqb (os_post s) "").
Definition isEthMainnet (s : OracleRequestSpec) : bool := String.eqb (os_uri s) "eth://".

(** ** Making a request *)
Definition makeSpecStart (chainId : Z) (uri : string) : string :=
  "{" +:+ field "cid" +:+ to_string chainId +:+ "," +:+ field "uri" +:+ quoted uri +:+ ",".

Definition ethCallPart (from to data gas blockId : string) : string :=
  field "params" +:+ "[{" +:+ field "from" +:+ quoted from +:+ "," +:+ field "to" +:+ quoted to +:+ "," +:+
  field "data" +:+ quoted data +:+ "," +:+ field "gas" +:+ quoted gas +:+ "}," +:+ quoted blockId +:+ "],".

(** The loops that write an array: a comma after all but the last element. *)
Fixpoint joined (l : list string) : string :=
  match l with
  | [] => ""
  | [x] => x
  | x :: l => x +:+ "," +:+ joined l
  end.

Definition webPart (jsps : list string) (trims : list Z) (post : string) : res string :=
  let start := field "jsps" +:+ "[" +:+ joined (map quoted jsps) +:+ "]," in
  trimsPart ← (if 0 <? zlen trims then
                 rcheck InvalidStateException (zlen trims =? zlen jsps) ;;
                 Ok (field "trims" +:+ "[" +:+ joined (map to_string trims) +:+ "],")
               else Ok ""%string);
  Ok (start +:+ trimsPart +:+ (if String.eqb post "" then "" else field "post" +:+ quoted post +:+ ",")).

Definition specEnd (encoding : string) (time pow : Z) : string :=
  field "encoding" +:+ quoted encoding +:+ "," +:+ field "time" +:+ to_string time +:+ "," +:+
  field "pow" +:+ to_string pow +:+ "}".

(** What the caller asks for; a web request has no [rq_ethApi]. *)
Record oracle_query := {
  rq_chainId : Z; rq_uri : string; rq_jsps : list string; rq_trims : list Z; rq_post : string;
  rq_ethApi : string; rq_from : string; rq_to : string; rq_data : string; rq_gas : string; rq_blockId : string;
  rq_encoding : string; rq_time : Z
}.

Definition tryMakingSpec (q : oracle_query) (pow : Z) : res string :=
  middle ← (if String.eqb (rq_ethApi q) "" then webPart (rq_jsps q) (rq_trims q) (rq_post q)
            else
              rcheck InvalidStateException (String.eqb (rq_ethApi q) "eth_call") ;;
              Ok (field "ethApi" +:+ quoted (rq_ethApi q) +:+ "," +:+
                  ethCallPart (rq_from q) (rq_to q) (rq_data q) (rq_gas q) (rq_blockId q)));
  Ok (makeSpecStart (rq_chainId q) (rq_uri q) +:+ middle +:+ specEnd (rq_encoding q) (rq_time q) pow).

(** The loop over [pow]. *)
Fixpoint searchPow (q : oracle_query) (pow : Z) (fuel : nat) : res string :=
  match fuel with
  | O => Err OutOfFuel
  | S fuel =>
      spec ← tryMakingSpec q pow;
      found ← verifyPow spec;
      if found : bool then Ok spec else searchPow q (u64 (pow + 1)) fuel
  end.

Definition makeSpec (q : oracle_query) (fuel : nat) : res OracleRequestSpec :=
  rnested_all InvalidStateException (spec ← searchPow q 0 fuel; mkOracleRequestSpec spec).

Definition makeWebSpec (chainId : Z) (uri : string) (jsps : list string) (trims : list Z) (post encoding : string)
    (time : Z) (fuel : nat) : res OracleRequestSpec :=
  makeSpec (Build_oracle_query chainId uri jsps trims post "" "" "" "" "" "" encoding time) fuel.

Definition makeEthCallSpec (chainId : Z) (uri from to data gas block encoding : string) (time : Z) (fuel : nat) :
    res OracleRequestSpec :=
  makeSpec (Build_oracle_query chainId uri [] [] "" "eth_call" from to data gas block encoding time) fuel.

(** ** The body of the HTTP request *)
Definition createEthCallPostString (s : OracleRequestSpec) : string * OracleRequestSpec :=
  let counter := u64 (os_ethCallCounter s + 1) in
  ("{" +:+ field "jsonrpc" +:+ quoted "2.0" +:+ "," +:+ field "method" +:+ quoted "eth_call" +:+ "," +:+
   ethCallPart (os_from s) (os_to s) (os_data s) (os_gas s) (os_blockId s) +:+ field "id" +:+ to_string counter +:+ "}",
   mkSpecRecord (os_spec s) (os_chainid s) (os_uri s) (os_jsps s) (os_trims s) (os_requestTime s) (os_post s) (os_from s)
     (os_to s) (os_data s) (os_gas s) (os_blockId s) (os_encoding s) (os_ethApi s) (os_pow s) (os_receipt s) counter).

Definition whatToPost (s : OracleRequestSpec) : string * OracleRequestSpec :=
  if isEthApi s then createEthCallPostString s else (os_post s, s).
End Spec.
