(* ===== verification/Oracle.v ===== *)
(** * The oracle

    Model of [OracleResult], [OracleReceivedResults], [OracleClient],
    [OracleServerAgent] and [OracleResultAssemblyAgent] ([src/oracle]): a node
    asks all nodes to read a web endpoint, every node signs what it read, and the
    asking node collects the answers until enough of them agree.  The endpoint,
    the JSON libraries and the network are parameters or streams of outcomes. *)

From stdpp Require Import base tactics gmap list sorting strings.
From Stdlib Require Import ZArith Lia Ascii.
From S2P Require Import Prelude Bytes LruCache Blocks NetMessages SgxClient Crypto OracleSpec.

Definition MAX_ORACLE_RESULT_LEN : Z := 1024 * 3.
Definition ORACLE_TIMEOUT_MS : Z := 30000.
Definition ORACLE_REQUEST_AGE_ON_RECEIPT_MS : Z := 10000.
Definition ORACLE_RECEIPTS_MAP_SIZE : Z := 100000.
Definition ORACLE_REQUEST_FUTURE_JITTER_MS : Z := 1000.
Definition NUM_ORACLE_THREADS : Z := 1.

(** ** Values of the JSON library of the web results *)
Inductive nvalue :=
  | NString (s : string)
  | NUnsigned (n : Z)
  | NInteger (n : Z)
  | NFloat (text : string)
  | NBool (b : bool)
  | NNull
  | NStructured.

(** [wb_at] is [json_pointer( jsp )], which may throw, and then [at], which may
    throw too. *)
Record web_libs := {
  wb_doc : Type;
  wb_parse : string -> option wb_doc;
  wb_null : wb_doc;
  wb_at : wb_doc -> string -> res (option nvalue)
}.

Definition int_string (z : Z) : string := if z <? 0 then "-" +:+ to_string (- z) else to_string z.

(** The text of a primitive value; the check of [is_primitive] fails for others. *)
Definition value_text (v : nvalue) : option string :=
  match v with
  | NString s => Some s
  | NUnsigned n => Some (to_string n)
  | NInteger n => Some (int_string n)
  | NFloat t => Some t
  | NBool b => Some (if b then "1" else "0")
  | NNull => Some ""
  | NStructured => None
  end%string.

(** [find_last_of( "," )], then [substr( 0, position + 1 )]. *)
Fixpoint up_to_last (c : ascii) (s : string) : option string :=
  match s with
  | EmptyString => None
  | String d s =>
      match up_to_last c s with
      | Some p => Some (String d p)
      | None => if Ascii.eqb c d then Some (String d EmptyString) else None
      end
  end.

Definition up_to_comma (s : string) : res string :=
  match up_to_last "," s with Some p => Ok p | None => Err InvalidStateException end.

Fixpoint last_char (s : string) : option ascii :=
  match s with
  | EmptyString => None
  | String d EmptyString => Some d
  | String _ s => last_char s
  end.

(** [substr( 0, size() - trim )]. *)
Fixpoint str_take (n : nat) (s : string) : string :=
  match n, s with
  | O, _ | _, EmptyString => EmptyString
  | S n, String c s => String c (str_take n s)
  end.

Record OracleResult := mkResult {
  or_unsigned : string;
  or_text : string;
  or_error : Z;
  or_results : list (option string);
  or_sig : string
}.

(** ** The result as a node receives it *)
Section Received.
Context (OL : oracle_libs).

Fixpoint parseResults (l : list rvalue) : res (list (option string)) :=
  match l with
  | [] => Ok []
  | item :: l =>
      x ← match item with
          | RStr s => Ok (Some (c_str s))
          | RNull => Ok None
          | _ => Err InvalidStateException
          end;
      xs ← parseResults l;
      Ok (x :: xs)
  end.

Definition asInt64 (v : rvalue) : res Z :=
  match v with
  | RInt n => rcheck InvalidStateException ((- 2 ^ 63 <=? n) && (n <? 2 ^ 63)) ;; Ok n
  | _ => Err InvalidStateException
  end.

(** [GetString] and [GetArray] without a check before them. *)
Definition getStringUnchecked (v : rvalue) : res string :=
  match v with RStr s => Ok (c_str s) | _ => Err UndefinedBehavior end.

Definition getArrayUnchecked (v : rvalue) : res (list rvalue) :=
  match v with RArr l => Ok l | _ => Err UndefinedBehavior end.

Definition requireState (m : list (string * rvalue)) (name : string) : res rvalue :=
  match find_member m name with Some v => Ok v | None => Err InvalidStateException end.

Definition parseResultAsJson (text : string) : res OracleResult :=
  unsigned ← up_to_comma text;
  rnested_all InvalidStateException
    (match ol_parse OL (c_str text) with
     | None => Err InvalidStateException
     | Some v =>
         d ← getObject v;
         v ← requireState d "sig";
         sig ← getStringUnchecked v;
         match find_member d "err" with
         | Some v => error ← asInt64 v; Ok (mkResult unsigned text error [] sig)
         | None =>
             v ← requireState d "rslts";
             l ← getArrayUnchecked v;
             results ← parseResults l;
             Ok (mkResult unsigned text ORACLE_SUCCESS results sig)
         end
     end).

(** [parseResult], the constructor for a received text. *)
Definition parseResult (text : string) (spec : OracleRequestSpec) : res OracleResult :=
  rnested_all InvalidStateException
    (rcheck InvalidStateException (String.eqb (os_encoding spec) "json") ;; parseResultAsJson text).

Definition getSig (r : OracleResult) : res string :=
  rcheck InvalidStateException (negb (String.eqb (or_sig r) "")) ;; Ok (or_sig r).
End Received.

(** ** The result as a node makes it *)
Section Made.
Context (OL : oracle_libs) (WB : web_libs).

(** The results that the answer of the endpoint holds: the status and the
    values. *)
Fixpoint readPointers (j : wb_doc WB) (jsps : list string) : res (list (option string)) :=
  match jsps with
  | [] => Ok []
  | jsp :: jsps =>
      v ← wb_at WB j jsp;
      rest ← readPointers j jsps;
      Ok ((v ≫= value_text) :: rest)
  end.

Definition trimResult (trim : Z) (r : option string) : option string :=
  match r with
  | Some text =>
      if trim =? 0 then Some text
      else if strlen text <=? trim then Some ""%string
      else Some (str_take (Z.to_nat (strlen text - trim)) text)
  | None => None
  end.

Definition trimWebResults (spec : OracleRequestSpec) (results : list (option string)) : res (list (option string)) :=
  rcheck InvalidStateException (zlen results =? zlen (os_trims spec)) ;;
  Ok (zip_with trimResult (os_trims spec) results).

(** The status is left alone when everything is read. *)
Definition extractWebResults (spec : OracleRequestSpec) (response : string) (status : Z) :
    res (Z * list (option string)) :=
  if String.eqb response "" then Ok (ORACLE_EMPTY_JSON_RESPONSE, [])
  else
    let '(j, status) :=
      match wb_parse WB response with
      | Some j => (j, status)
      | None => (wb_null WB, ORACLE_ENDPOINT_JSON_RESPONSE_COULD_NOT_BE_PARSED)
      end in
    match readPointers j (os_jsps spec) with
    | Err _ => Ok (ORACLE_COULD_NOT_PROCESS_JSPS_IN_JSON_RESPONSE, [])
    | Ok results => results ← trimWebResults spec results; Ok (status, results)
    end.

Definition readEthCall (response : string) (status : Z) : res (Z * list (option string)) :=
  match ol_parse OL (c_str response) with
  | None => Err InvalidStateException
  | Some v =>
      d ← getObject v;
      match find_member d "result" with
      | Some (RStr s) => Ok (status, [Some (c_str s)])
      | Some _ => Err InvalidStateException
      | None =>
          match find_member d "error" with
          | Some (RObj e) =>
              match find_member e "code" with
              | Some code => error ← asInt64 code; Ok (error, [])
              | None => Err UndefinedBehavior
              end
          | _ => Err InvalidStateException
          end
      end
  end.

(** Whatever is thrown means that the answer is not understood. *)
Definition extractEthCallResults (response : string) (status : Z) : res (Z * list (option string)) :=
  match readEthCall response status with
  | Err UndefinedBehavior => Err UndefinedBehavior
  | Err _ => Ok (ORACLE_ENDPOINT_JSON_RESPONSE_COULD_NOT_BE_PARSED, [])
  | Ok r => Ok r
  end.

Definition result_text (r : option string) : string :=
  match r with Some s => quoted s | None => "null" end.

Definition resultsPart (results : list (option string)) : string :=
  field "rslts" +:+ "[" +:+ joined (map result_text results) +:+ "],".

Definition errorPart (error : Z) : string := field "err" +:+ int_string error +:+ ",".

(** [appendElementsFromTheSpecAsJson]: the text of the request without its last
    element, and then the results or the error. *)
Definition unsignedResult (spec : OracleRequestSpec) (error : Z) (results : list (option string)) : res string :=
  start ← up_to_comma (os_spec spec);
  Ok (start +:+ (if negb (error =? ORACLE_SUCCESS) then errorPart error else resultsPart results)).

Context (L : crypto_libs) (W : wallet_env) (CM : crypto_config L).
Local Abbreviation cstate := (crypto_state L W).

(** [catch ( OracleException& ) { throw; } catch ( ... ) { ... }]. *)
Definition nested_oracle {S A} (c : M S A) : M S A := fun s =>
  match c s with
  | (Err (OracleException e), s') => (Err (OracleException e), s')
  | (r, s') => (rnested_all InvalidStateException r, s')
  end.

Definition signResultAsJson (text : string) : M cstate (string * string) :=
  nested_all InvalidStateException
    (CHECK_STATE (bool_decide (last_char text = Some ","%char)) ;;
     sig ← signOracleResult L W CM text;
     mret (sig, text +:+ field "sig" +:+ quoted sig +:+ "}")).

Definition encodeAndSignResultAsJson (spec : OracleRequestSpec) (error : Z) (results : list (option string)) :
    M cstate OracleResult :=
  nested_oracle
    (unsigned ← nested_all InvalidStateException (lift_res (unsignedResult spec error results));
     '(sig, text) ← signResultAsJson unsigned;
     check (OracleException ORACLE_RESULT_TOO_LARGE) (strlen text <=? MAX_ORACLE_RESULT_LEN) ;;
     mret (mkResult unsigned text error results sig)).

(** The constructor for an answer of the endpoint. *)
Definition mkOracleResult (spec : OracleRequestSpec) (status : Z) (response : string) : M cstate OracleResult :=
  nested_oracle
    ('(error, results) ←
       (if status =? ORACLE_SUCCESS then
          if isEthApi spec then lift_res (extractEthCallResults response status)
          else lift_res (extractWebResults spec response status)
        else mret (status, []));
     CHECK_STATE (String.eqb (os_encoding spec) "json") ;;
     encodeAndSignResultAsJson spec error results).
End Made.

(** ** The collected results *)
Record OracleReceivedResults := mkReceived {
  rr_requiredConfirmations : Z;
  rr_nodeCount : Z;
  rr_requestTime : Z;
  rr_signaturesBySchainIndex : gmap Z string;
  rr_resultsByCount : gmap string Z;
  rr_requestSpec : OracleRequestSpec;
  rr_isSgx : bool
}.

Definition newReceivedResults (spec : OracleRequestSpec) (requiredSigners nodeCount now : Z) (isSgx : bool) :
    OracleReceivedResults :=
  mkReceived (u64 (requiredSigners - 1) / 2 + 1) nodeCount now ∅ ∅ spec isSgx.

(** The count of a new result is one, of a known one it grows. *)
Definition countResult (unsigned : string) (m : gmap string Z) : gmap string Z :=
  <[unsigned := u64 (default 0 (m !! unsigned) + 1)]> m.

Definition insertIfDoesntExist (origin : Z) (r : OracleResult) (s : OracleReceivedResults) : res OracleReceivedResults :=
  rnested_all InvalidStateException
    (sig ← getSig r;
     if bool_decide (is_Some (rr_signaturesBySchainIndex s !! origin)) then Ok s
     else Ok (mkReceived (rr_requiredConfirmations s) (rr_nodeCount s) (rr_requestTime s)
       (<[origin := sig]> (rr_signaturesBySchainIndex s)) (countResult (or_unsigned r) (rr_resultsByCount s))
       (rr_requestSpec s) (rr_isSgx s))).

(** The signatures in the order of the nodes, as many as are required. *)
Fixpoint signatureList (sigs : gmap Z string) (required : Z) (indices : list Z) (sigCount : Z) : list string :=
  match indices with
  | [] => []
  | i :: indices =>
      match sigs !! i with
      | Some sig =>
          if sigCount <? required then quoted sig :: signatureList sigs required indices (sigCount + 1)
          else "null"%string :: signatureList sigs required indices sigCount
      | None => "null"%string :: signatureList sigs required indices sigCount
      end
  end.

(** Without nodes the array is never closed. *)
Definition compileCompleteResultJson (unsigned : string) (s : OracleReceivedResults) : string :=
  unsigned +:+ field "sigs" +:+ "[" +:+
  joined (signatureList (rr_signaturesBySchainIndex s) (rr_requiredConfirmations s) (seqZ 1 (rr_nodeCount s)) 0) +:+
  (if 0 <? rr_nodeCount s then "]}" else "").

(** The results in the order of [std::map< string, uint64_t >]. *)
Definition result_le (x y : string * Z) : Prop := String.leb x.1 y.1 = true.
#[export] Instance result_le_dec : RelDecision result_le.
Proof. intros x y. unfold result_le. apply _. Defined.

Definition resultItems (m : gmap string Z) : list (string * Z) := merge_sort result_le (map_to_list m).

Definition confirmed (s : OracleReceivedResults) : option string :=
  fst <$> head (filter (fun x => rr_requiredConfirmations s <= x.2) (resultItems (rr_resultsByCount s))).

Definition tryGettingResult (now : Z) (s : OracleReceivedResults) : Z * string :=
  if u64 (rr_requestTime s + ORACLE_TIMEOUT_MS) <? now then (ORACLE_TIMEOUT, ""%string)
  else
    match confirmed s with
    | Some unsigned =>
        if String.eqb (os_encoding (rr_requestSpec s)) "json"
        then (ORACLE_SUCCESS, compileCompleteResultJson unsigned s)
        else (ORACLE_INTERNAL_SERVER_ERROR, ""%string)
    | None => (ORACLE_RESULT_NOT_READY, ""%string)
    end.

(** ** The client and the server *)

(** What the agent sends, and the messages that it is given. *)
Inductive oracle_output :=
  | SentRequest (spec : string) (blockID timeMs : Z)
  | SentResponse (result receipt : string) (blockID timeMs dst : Z).

Inductive oracle_message :=
  | OracleRequestArrived (spec : OracleRequestSpec)
  | OracleResponseArrived (result receipt : string).

Record oracle_envelope := { oe_blockID : Z; oe_srcSchainIndex : Z; oe_message : oracle_message }.

(** The caches and queues, and the streams of what the outside does: clock
    readings, outcomes of sending, and answers of the endpoint, [None] when curl
    fails.  [oc_fetched] lists the addresses that were read, with the body of a
    POST request. *)
Record oracle {L : crypto_libs} {W : wallet_env} := mkOracle {
  oc_receiptsMap : lru_cache string OracleReceivedResults;
  oc_assembly : list oracle_envelope;
  oc_requestCounter : Z;
  oc_incomingQueues : list (list oracle_envelope);
  oc_crypto : crypto_state L W;
  oc_out : list oracle_output;
  oc_times : list Z;
  oc_sends : list (res unit);
  oc_curls : list (option string);
  oc_fetched : list (string * option string)
}.
Arguments oracle : clear implicits.
Arguments mkOracle {L W}.

Record oracle_config := {
  of_schainID : Z;
  of_requiredSigners : Z;
  of_nodeCount : Z;
  of_isSgxEnabled : bool;
  of_gethURL : string;
  of_testMode : bool
}.

Section Oracle.
Context (OL : oracle_libs) (WB : web_libs).
Context (L : crypto_libs) (W : wallet_env) (CM : crypto_config L) (F : oracle_config).
Local Abbreviation state := (oracle L W).

Definition set_receipts x (s : state) : state :=
  mkOracle x (oc_assembly s) (oc_requestCounter s) (oc_incomingQueues s) (oc_crypto s) (oc_out s) (oc_times s)
    (oc_sends s) (oc_curls s) (oc_fetched s).
Definition set_assembly x (s : state) : state :=
  mkOracle (oc_receiptsMap s) x (oc_requestCounter s) (oc_incomingQueues s) (oc_crypto s) (oc_out s) (oc_times s)
    (oc_sends s) (oc_curls s) (oc_fetched s).
Definition set_incoming n x (s : state) : state :=
  mkOracle (oc_receiptsMap s) (oc_assembly s) n x (oc_crypto s) (oc_out s) (oc_times s) (oc_sends s) (oc_curls s) (oc_fetched s).
Definition set_oracle_crypto x (s : state) : state :=
  mkOracle (oc_receiptsMap s) (oc_assembly s) (oc_requestCounter s) (oc_incomingQueues s) x (oc_out s) (oc_times s)
    (oc_sends s) (oc_curls s) (oc_fetched s).
Definition set_out x y (s : state) : state :=
  mkOracle (oc_receiptsMap s) (oc_assembly s) (oc_requestCounter s) (oc_incomingQueues s) (oc_crypto s) x (oc_times s)
    y (oc_curls s) (oc_fetched s).
Definition set_times x (s : state) : state :=
  mkOracle (oc_receiptsMap s) (oc_assembly s) (oc_requestCounter s) (oc_incomingQueues s) (oc_crypto s) (oc_out s) x
    (oc_sends s) (oc_curls s) (oc_fetched s).
Definition set_curls x y (s : state) : state :=
  mkOracle (oc_receiptsMap s) (oc_assembly s) (oc_requestCounter s) (oc_incomingQueues s) (oc_crypto s) (oc_out s)
    (oc_times s) (oc_sends s) x y.

Definition newOracle (k : crypto_state L W) (times : list Z) (sends : list (res unit)) (curls : list (option string)) :
    state :=
  mkOracle (lru_new ORACLE_RECEIPTS_MAP_SIZE) [] 0 (replicate (Z.to_nat NUM_ORACLE_THREADS) []) k [] times sends curls [].

Definition on_receipts {A} (c : M (lru_cache string OracleReceivedResults) A) : M state A :=
  zoom oc_receiptsMap set_receipts c.

(** The last reading stays. *)
Definition oc_now : M state Z :=
  s ← get;
  match oc_times s with
  | [] => mret 0
  | [t] => mret t
  | t :: ts => put (set_times ts s) ;; mret t
  end.

(** [broadcastOracleRequestMessage] and [sendOracleResponseMessage]. *)
Definition transmit (o : oracle_output) : M state unit :=
  s ← get;
  match oc_sends s with
  | Err e :: sends => put (set_out (oc_out s) sends s) ;; throw e
  | Ok _ :: sends => put (set_out (oc_out s ++ [o]) sends s)
  | [] => put (set_out (oc_out s ++ [o]) [] s)
  end.

(** *** The asking node *)
Definition broadcastRequest (spec : OracleRequestSpec) (blockID timeMs : Z) : M state Z :=
  nested_all InvalidStateException
    (now ← oc_now;
     isNew ← on_receipts (lru_putIfDoesNotExist (os_receipt spec)
       (newReceivedResults spec (of_requiredSigners F) (of_nodeCount F) now (of_isSgxEnabled F)));
     if negb (isNew : bool) then mret ORACLE_DUPLICATE_REQUEST
     else transmit (SentRequest (os_spec spec) blockID timeMs) ;; mret ORACLE_SUCCESS).

(** The checks of a request: [None] when it passes. *)
Definition checkRequest (spec : OracleRequestSpec) : M state (option Z) :=
  if negb (os_chainid spec =? of_schainID F) then mret (Some ORACLE_INVALID_CHAIN_ID)
  else
    now ← oc_now;
    if u64 (os_requestTime spec + ORACLE_REQUEST_AGE_ON_RECEIPT_MS) <? now
    then oc_now ;; mret (Some ORACLE_TIME_IN_REQUEST_SPEC_TOO_OLD)
    else
      now ← oc_now;
      if u64 (now + ORACLE_REQUEST_FUTURE_JITTER_MS) <? os_requestTime spec
      then oc_now ;; mret (Some ORACLE_TIME_IN_REQUEST_SPEC_IN_THE_FUTURE)
      else mret None.

(** The constructor of the message removes white space and parses. *)
Definition mkRequest (spec : string) (lastCommittedBlockID : Z) : res OracleRequestSpec :=
  rcheck InvalidStateException (negb (lastCommittedBlockID =? 0)) ;;
  mkOracleRequestSpec L OL (of_testMode F) (removeSpaces spec).

(** What the handlers around the constructor return. *)
Definition requestError (e : exn) : res Z :=
  match e with
  | UndefinedBehavior => Err UndefinedBehavior
  | OutOfFuel => Err OutOfFuel
  | OracleException e => Ok e
  | _ => Ok ORACLE_INVALID_JSON_REQUEST
  end.

(** [broadcastRequest], with its handlers. *)
Definition sendRequest (parsed : OracleRequestSpec) (blockID timeMs : Z) : M state Z := fun s =>
  match broadcastRequest parsed blockID timeMs s with
  | (Ok status, s') => (Ok status, s')
  | (Err UndefinedBehavior, s') => (Err UndefinedBehavior, s')
  | (Err OutOfFuel, s') => (Err OutOfFuel, s')
  | (Err _, s') => (Ok ORACLE_INTERNAL_SERVER_ERROR, s')
  end.

(** The status and the receipt. *)
Definition submitOracleRequest (spec : string) (lastCommittedBlockID : Z) : M state (Z * string) :=
  timeMs ← oc_now;
  match mkRequest spec lastCommittedBlockID with
  | Err e => status ← lift_res (requestError e); mret (status, ""%string)
  | Ok parsed =>
      rejected ← checkRequest parsed;
      match rejected with
      | Some e => mret (e, ""%string)
      | None =>
          if String.eqb (os_receipt parsed) "" then mret (ORACLE_INTERNAL_SERVER_ERROR, ""%string)
          else
            status ← sendRequest parsed lastCommittedBlockID timeMs;
            mret (status, os_receipt parsed)
      end
  end.

Definition checkOracleResult (receipt : string) : M state (Z * string) :=
  received ← on_receipts (lru_getIfExists receipt);
  match received with
  | None => mret (ORACLE_UNKNOWN_RECEIPT, ""%string)
  | Some r => now ← oc_now; mret (tryGettingResult now r)
  end.

(** [OracleResponseMessage::getOracleResult]. *)
Definition getOracleResult (text : string) (spec : OracleRequestSpec) : M state OracleResult :=
  r ← lift_res (parseResult OL text spec);
  CHECK_STATE (os_chainid spec =? of_schainID F) ;;
  now ← oc_now;
  CHECK_STATE (now <? u64 (os_requestTime spec + ORACLE_TIMEOUT_MS)) ;;
  now ← oc_now;
  CHECK_STATE (os_requestTime spec <? u64 (now + ORACLE_REQUEST_FUTURE_JITTER_MS)) ;;
  mret r.

(** The check of the origin holds for every number.  The collected results are
    shared through a pointer. *)
Definition processResponseMessage (origin : Z) (text receipt : string) : M state unit :=
  nested_all InvalidStateException
    (CHECK_STATE ((0 <? origin) || (origin <=? of_nodeCount F)) ;;
     received ← on_receipts (lru_getIfExists receipt);
     match received with
     | None => mret tt
     | Some rslts =>
         r ← getOracleResult text (rr_requestSpec rslts);
         rslts' ← lift_res (insertIfDoesntExist origin r rslts);
         on_receipts (modify (lru_modify receipt (fun _ => rslts')))
     end).

(** *** The answering node *)
Definition curlHttp (uri : string) (post : option string) : M state (Z * string) :=
  s ← get;
  put (set_curls (tail (oc_curls s)) (oc_fetched s ++ [(uri, post)]) s) ;;
  match head (oc_curls s) with
  | Some (Some response) => mret (ORACLE_SUCCESS, response)
  | _ => mret (ORACLE_COULD_NOT_CONNECT_TO_ENDPOINT, ""%string)
  end.

Definition on_oracle_crypto {A} (c : M (crypto_state L W) A) : M state A := zoom oc_crypto set_oracle_crypto c.

(** A result that is too large is replaced by its error. *)
Definition makeResult (spec : OracleRequestSpec) (status : Z) (response : string) : M state OracleResult := fun s =>
  match on_oracle_crypto (mkOracleResult OL WB L W CM spec status response) s with
  | (Err (OracleException e), s') => on_oracle_crypto (mkOracleResult OL WB L W CM spec e "") s'
  | (r, s') => (r, s')
  end.

(** The text of the result. *)
Definition doEndpointRequestResponse (spec : OracleRequestSpec) : M state string :=
  let uri := if isEthMainnet spec then of_gethURL F else os_uri spec in
  let '(postString, spec) := whatToPost spec in
  '(status, response) ← curlHttp uri (if isPost spec then Some postString else None);
  r ← makeResult spec status response;
  mret (or_text r).

(** A turn of [workerThreadItemSendLoop], with the message that it took out;
    whatever is thrown is logged. *)
Definition answerRequest (src : Z) (spec : OracleRequestSpec) (lastCommittedBlockID : Z) : M state unit :=
  rejected ← checkRequest spec;
  match rejected with
  | Some _ => mret tt
  | None =>
      text ← doEndpointRequestResponse spec;
      timeMs ← oc_now;
      nested_all InvalidStateException
        (CHECK_STATE (negb (src =? 0)) ;;
         transmit (SentResponse text (os_receipt spec) (u64 (lastCommittedBlockID + 1)) timeMs src))
  end.

(** [catch ( exception& ) { logNested }]. *)
Definition logged (c : M state unit) : M state unit := fun s =>
  match c s with
  | (Err OutOfFuel, s') => (Err OutOfFuel, s')
  | (Err UndefinedBehavior, s') => (Err UndefinedBehavior, s')
  | (_, s') => (Ok tt, s')
  end.

Definition workerTurn (threadNumber : Z) (lastCommittedBlockID : Z) : M state unit :=
  s ← get;
  match oc_incomingQueues s !! Z.to_nat (threadNumber - 1) with
  | Some (e :: q) =>
      put (set_incoming (oc_requestCounter s)
        (<[Z.to_nat (threadNumber - 1) := q]> (oc_incomingQueues s)) s) ;;
      match oe_message e with
      | OracleRequestArrived spec => logged (answerRequest (oe_srcSchainIndex e) spec lastCommittedBlockID)
      | OracleResponseArrived _ _ => throw UndefinedBehavior
      end
  | _ => mret tt
  end.

(** *** Routing *)
Definition oracle_routeAndProcessMessage (e : oracle_envelope) : M state unit :=
  nested_all InvalidStateException
    (CHECK_ARGUMENT (0 <? oe_blockID e) ;;
     match oe_message e with
     | OracleRequestArrived _ =>
         s ← get;
         let value := oc_requestCounter s in
         let i := Z.to_nat (value mod NUM_ORACLE_THREADS) in
         match oc_incomingQueues s !! i with
         | Some q => put (set_incoming (u64 (value + 1)) (<[i := q ++ [e]]> (oc_incomingQueues s)) s)
         | None => put (set_incoming (u64 (value + 1)) (oc_incomingQueues s) s) ;; throw StdOutOfRange
         end
     | OracleResponseArrived text receipt => processResponseMessage (oe_srcSchainIndex e) text receipt
     end).

(** [OracleResultAssemblyAgent::postMessage]. *)
Definition oracle_post (e : oracle_envelope) : M state unit :=
  CHECK_STATE (negb (oe_blockID e =? 0)) ;;
  modify (fun s => set_assembly (oc_assembly s ++ [e]) s).

(** A pass of [messageThreadProcessingLoop]: the queue is taken whole, and what
    a message makes the agent throw is logged. *)
Definition assemblyPass : M state unit :=
  s ← get;
  put (set_assembly [] s) ;;
  mapM_ (fun e => logged (oracle_routeAndProcessMessage e)) (oc_assembly s).
End Oracle.
