(* ===== verification/OracleTheorems.v ===== *)
(** * Properties of the oracle

    A result that the oracle reports was read by enough nodes; what the reported
    signatures are worth; requests and results survive their text form; and
    where the checks of a request do not check. *)

From stdpp Require Import base tactics gmap list sorting strings.
From Stdlib Require Import ZArith Lia Ascii.
From S2P Require Import Prelude Bytes LruCache Blocks NetMessages SgxClient Crypto OracleSpec Oracle.

(** ** Counting answers *)
Section Votes.
Implicit Types votes : gmap Z OracleResult.
Implicit Types r : OracleReceivedResults.

(** The nodes whose answer has the signed part [u]. *)
Definition voters votes (u : string) : gset Z := dom (filter (fun x => or_unsigned x.2 = u) votes).

Lemma elem_of_voters votes u i : i ∈ voters votes u <-> exists v, votes !! i = Some v /\ or_unsigned v = u.
Proof.
  unfold voters. rewrite elem_of_dom. split.
  - intros [v Hv]. apply map_lookup_filter_Some in Hv as [Hv Hu]. eauto.
  - intros (v & Hv & Hu). exists v. by apply map_lookup_filter_Some.
Qed.

Lemma voters_insert votes i v u :
  votes !! i = None ->
  voters (<[i := v]> votes) u = if decide (or_unsigned v = u) then {[i]} ∪ voters votes u else voters votes u.
Proof.
  intros Hi. apply set_eq. intros j. rewrite elem_of_voters. setoid_rewrite lookup_insert_Some.
  case_decide as Hu; rewrite ?elem_of_union, ?elem_of_singleton, elem_of_voters; split.
  - intros (w & [[<- <-]|[Hne Hw]] & Hwu); [by left|right; eauto].
  - intros [->|(w & Hw & Hwu)]; [by eauto|]. exists w. split; [|done]. right. split; [|done]. intros ->. congruence.
  - intros (w & [[<- <-]|[Hne Hw]] & Hwu); [done|eauto].
  - intros (w & Hw & Hwu). exists w. split; [|done]. right. split; [|done]. intros ->. congruence.
Qed.

(** The collected results are the first answers of the nodes, for each of which
    [P] holds. *)
Record votes_ok (n : Z) (P : Z -> OracleResult -> Prop) r votes : Prop := {
  vo_sigs : rr_signaturesBySchainIndex r = or_sig <$> votes;
  vo_counts : forall u, default 0 (rr_resultsByCount r !! u) = zsize (voters votes u);
  vo_range : forall i v, votes !! i = Some v -> 1 <= i <= n /\ P i v
}.

Lemma voters_bound n P r votes u : votes_ok n P r votes -> 0 <= n -> zsize (voters votes u) <= n.
Proof.
  intros Hv Hn. rewrite <- (size_members n Hn). apply zsize_subseteq. intros i (v & Hi & _)%elem_of_voters.
  apply elem_of_members. by apply (vo_range _ _ _ _ Hv) in Hi as [? _].
Qed.

Lemma new_votes_ok n P spec required count now isSgx :
  votes_ok n P (newReceivedResults spec required count now isSgx) ∅.
Proof.
  constructor; cbn.
  - by rewrite fmap_empty.
  - intros u. rewrite lookup_empty. cbn. unfold voters. by rewrite map_filter_empty, dom_empty_L.
  - intros i v Hi. by rewrite lookup_empty in Hi.
Qed.

(** The record after a new answer. *)
Definition with_answer (i : Z) (v : OracleResult) r : OracleReceivedResults :=
  mkReceived (rr_requiredConfirmations r) (rr_nodeCount r) (rr_requestTime r)
    (<[i := or_sig v]> (rr_signaturesBySchainIndex r)) (countResult (or_unsigned v) (rr_resultsByCount r))
    (rr_requestSpec r) (rr_isSgx r).

Lemma with_answer_ok n P r votes i v :
  0 <= n < 2 ^ 64 -> votes_ok n P r votes -> 1 <= i <= n -> P i v -> votes !! i = None ->
  votes_ok n P (with_answer i v r) (<[i := v]> votes).
Proof.
  intros Hn Hv Hi HP Hs.
  assert (forall j w, <[i := v]> votes !! j = Some w -> 1 <= j <= n /\ P j w) as Hrange.
  { intros j w [[<- <-]|[_ Hj]]%lookup_insert_Some; [done|by apply (vo_range _ _ _ _ Hv)]. }
  constructor; cbn; [by rewrite (vo_sigs _ _ _ _ Hv), fmap_insert| |done].
  intros u. unfold countResult. rewrite (voters_insert _ _ _ _ Hs). case_decide as Hu.
  - subst u. rewrite lookup_insert_eq. cbn. rewrite (vo_counts _ _ _ _ Hv).
    assert (i ∉ voters votes (or_unsigned v)) as Hni by (intros (w & ? & _)%elem_of_voters; congruence).
    assert (zsize ({[i]} ∪ voters votes (or_unsigned v)) = zsize (voters votes (or_unsigned v)) + 1) as Hz
      by (unfold zsize; rewrite size_union, size_singleton by set_solver; lia).
    rewrite Hz. apply u64_small. unfold zsize in *.
    assert (zsize ({[i]} ∪ voters votes (or_unsigned v)) <= n) as Hle; [|unfold zsize in *; lia].
    rewrite <- (size_members n) by lia. apply zsize_subseteq. intros j Hj. apply elem_of_members.
    assert (j ∈ voters (<[i := v]> votes) (or_unsigned v)) as (w & Hw & _)%elem_of_voters
      by (by rewrite (voters_insert _ _ _ _ Hs), decide_True). by apply Hrange in Hw as [? _].
  - rewrite lookup_insert_ne by done. apply (vo_counts _ _ _ _ Hv).
Qed.

Lemma insert_answer n P r votes i v :
  votes_ok n P r votes ->
  insertIfDoesntExist i v r =
    if String.eqb (or_sig v) "" then Err InvalidStateException
    else Ok (if decide (is_Some (votes !! i)) then r else with_answer i v r).
Proof.
  intros Hv. unfold insertIfDoesntExist, getSig. destruct (String.eqb (or_sig v) ""); [done|]. cbn [negb rcheck mbind res_bind].
  rewrite (vo_sigs _ _ _ _ Hv), lookup_fmap. destruct (votes !! i) as [w|] eqn:Hi; cbn [fmap option_fmap option_map].
  - rewrite bool_decide_eq_true_2 by done. by rewrite decide_True by done.
  - rewrite bool_decide_eq_false_2 by (by intros [? ?]). rewrite decide_False by (by intros [? ?]).
    unfold with_answer. by rewrite (vo_sigs _ _ _ _ Hv).
Qed.

Lemma insert_votes_ok n P r votes i v r' :
  0 <= n < 2 ^ 64 -> votes_ok n P r votes -> 1 <= i <= n -> P i v -> insertIfDoesntExist i v r = Ok r' ->
  exists votes', votes_ok n P r' votes' /\ rr_requestSpec r' = rr_requestSpec r /\
    rr_requiredConfirmations r' = rr_requiredConfirmations r.
Proof.
  intros Hn Hv Hi HP Hins. rewrite (insert_answer _ _ _ _ _ _ Hv) in Hins. destruct (String.eqb _ _); [done|].
  injection Hins as <-. destruct (decide (is_Some (votes !! i))) as [Hs|Hs]; [by exists votes|].
  exists (<[i := v]> votes). split; [|done]. apply with_answer_ok; try done. by apply eq_None_not_Some.
Qed.

Lemma confirmed_count r u :
  confirmed r = Some u -> exists c, rr_resultsByCount r !! u = Some c /\ rr_requiredConfirmations r <= c.
Proof.
  unfold confirmed. destruct (filter _ _) as [|[u' c] l] eqn:Hf; [done|]. cbn. intros [= ->].
  assert ((u, c) ∈ filter (fun x : string * Z => rr_requiredConfirmations r <= x.2) (resultItems (rr_resultsByCount r)))
    as Hin by (rewrite Hf; by left).
  apply list_elem_of_filter in Hin as [Hc Hin]. unfold resultItems in Hin.
  rewrite (merge_sort_Permutation result_le), elem_of_map_to_list in Hin. eauto.
Qed.

Lemma confirmed_voters n P r votes u :
  votes_ok n P r votes -> confirmed r = Some u -> rr_requiredConfirmations r <= zsize (voters votes u).
Proof. intros Hv (c & Hc & Hle)%confirmed_count. rewrite <- (vo_counts _ _ _ _ Hv), Hc. done. Qed.

Lemma confirmed_complete r u c :
  rr_resultsByCount r !! u = Some c -> rr_requiredConfirmations r <= c -> is_Some (confirmed r).
Proof.
  intros Hu Hc. unfold confirmed.
  assert ((u, c) ∈ filter (fun x : string * Z => rr_requiredConfirmations r <= x.2) (resultItems (rr_resultsByCount r))) as Hin.
  { apply list_elem_of_filter. split; [done|]. unfold resultItems. by rewrite (merge_sort_Permutation result_le), elem_of_map_to_list. }
  destruct (filter _ _); [by apply elem_of_nil in Hin|done].
Qed.
End Votes.

(** ** What the asking node reports *)
Section Asking.
Context (OL : oracle_libs) (WB : web_libs).
Context (L : crypto_libs) (W : wallet_env) (CM : crypto_config L) (F : oracle_config).
Context (Hcount : 0 <= of_nodeCount F < 2 ^ 64).
Local Abbreviation state := (oracle L W).
Implicit Types s : state.
Implicit Types T : list oracle_envelope.

(** The node [i] has answered the request with a text whose parse is [v]. *)
Definition answered T (receipt : string) (spec : OracleRequestSpec) (i : Z) (v : OracleResult) : Prop :=
  exists e text, e ∈ T /\ oe_srcSchainIndex e = i /\ oe_message e = OracleResponseArrived text receipt /\
    parseResult OL text spec = Ok v.

(** Half of the required signers, and one. *)
Definition confirmations : Z := u64 (of_requiredSigners F - 1) / 2 + 1.

Definition collected T (receipt : string) (r : OracleReceivedResults) : Prop :=
  rr_requiredConfirmations r = confirmations /\
  exists votes, votes_ok (of_nodeCount F) (answered T receipt (rr_requestSpec r)) r votes.

Record asking_ok T s : Prop := {
  ak_cache : lru_inv (oc_receiptsMap s);
  ak_size : 1 <= lru_max_size (oc_receiptsMap s);
  ak_collected : forall receipt r, lru_lookup (oc_receiptsMap s) receipt = Some r -> collected T receipt r;
  ak_posted : forall e, e ∈ oc_assembly s -> e ∈ T;
  ak_members : forall e, e ∈ T -> 1 <= oe_srcSchainIndex e <= of_nodeCount F
}.

Lemma collected_mono T T' receipt r : T ⊆ T' -> collected T receipt r -> collected T' receipt r.
Proof.
  intros HT [Hc (votes & Hv)]. split; [done|]. exists votes. destruct Hv as [H1 H2 H3]. constructor; [done..|].
  intros i v Hi. destruct (H3 i v Hi) as [Hr (e & text & He & Hrest)]. split; [done|]. exists e, text. auto.
Qed.

(** What the invariant looks at. *)
Definition asking_view s := (oc_receiptsMap s, oc_assembly s).

Lemma asking_ok_view T s s' : asking_view s' = asking_view s -> asking_ok T s -> asking_ok T s'.
Proof.
  intros [= Hr Ha] [H1 H2 H3 H4 H5]. constructor.
  - by rewrite Hr.
  - by rewrite Hr.
  - by rewrite Hr.
  - by rewrite Ha.
  - done.
Qed.

Lemma now_view : keeps asking_view (oc_now L W).
Proof. intros s. unfold oc_now, mbind, M_bind, get. by destruct (oc_times s) as [|? [|? ?]]. Qed.

Lemma transmit_view o : keeps asking_view (transmit L W o).
Proof. intros s. unfold transmit, mbind, M_bind, get. by destruct (oc_sends s) as [|[] ?]. Qed.

Lemma checkRequest_view spec : keeps asking_view (checkRequest L W F spec).
Proof.
  unfold checkRequest. repeat first [apply now_view|apply keeps_ret|apply keeps_if|apply keeps_bind; [|intros]].
Qed.

Lemma crypto_view {A} (c : M (crypto_state L W) A) : keeps asking_view (on_oracle_crypto L W c).
Proof. apply keeps_zoom. done. Qed.

Lemma makeResult_view spec status response : keeps asking_view (makeResult OL WB L W CM spec status response).
Proof.
  intros s. unfold makeResult. pose proof (crypto_view (mkOracleResult OL WB L W CM spec status response) s) as H1.
  destruct (on_oracle_crypto L W _ s) as [[r|e] s'] eqn:He; [done|].
  destruct e; try done. rewrite <- H1. apply crypto_view.
Qed.

Lemma answerRequest_view src spec last : keeps asking_view (answerRequest OL WB L W CM F src spec last).
Proof.
  unfold answerRequest, doEndpointRequestResponse. apply keeps_bind; [apply checkRequest_view|]. intros [e|]; [apply keeps_ret|].
  destruct (whatToPost spec) as [post spec']. apply keeps_bind.
  - apply keeps_bind; [intros s; unfold curlHttp, mbind, M_bind, get, put; by destruct (head (oc_curls s)) as [[]|]|]. intros [status response].
    apply keeps_bind; [apply makeResult_view|intros; apply keeps_ret].
  - intros text. apply keeps_bind; [apply now_view|]. intros t. apply keeps_nested_all, keeps_bind; [apply keeps_check|].
    intros _. apply transmit_view.
Qed.

Lemma logged_view c : keeps asking_view c -> keeps asking_view (logged L W c).
Proof. intros Hc s. specialize (Hc s). unfold logged. destruct (c s) as [[|[]] s']; done. Qed.

Lemma workerTurn_view i last : keeps asking_view (workerTurn OL WB L W CM F i last).
Proof.
  intros s. unfold workerTurn, mbind, M_bind, get, put. destruct (oc_incomingQueues s !! _) as [[|e q]|]; try done.
  destruct (oe_message e); [|done]. apply (logged_view _ (answerRequest_view _ _ _) (set_incoming L W _ _ s)).
Qed.

(** A step that the invariant does not look at. *)
Lemma asking_step {A B} T (c : M state A) (k : A -> M state B) s :
  keeps asking_view c -> asking_ok T s ->
  (forall a s', asking_ok T s' -> wp (k a) s' (fun _ s2 => asking_ok T s2)) ->
  wp (c ≫= k) s (fun _ s2 => asking_ok T s2).
Proof.
  intros Hc Hs Hk. rewrite wp_bind. pose proof (Hc s) as Hv. unfold wp at 1. destruct (c s) as [[a|e] s'].
  - apply Hk. by eapply asking_ok_view.
  - by eapply asking_ok_view.
Qed.

Lemma asking_done {A} T (c : M state A) s :
  keeps asking_view c -> asking_ok T s -> wp c s (fun _ s2 => asking_ok T s2).
Proof. intros Hc Hs. unfold wp. eapply asking_ok_view; [apply Hc|done]. Qed.

(** *** Requests *)
Lemma put_ok T k r s :
  asking_ok T s -> collected T k r -> asking_ok T (set_receipts L W (putUnsafe k r (oc_receiptsMap s)) s).
Proof.
  intros [Hi Hmax Hc Hp Hm] Hr. constructor; cbn; [by apply lru_putUnsafe_inv|by rewrite lru_put_max| |done..].
  intros receipt r' Hl. destruct (decide (k = receipt)) as [<-|Hne].
  - rewrite lru_lookup_put in Hl by done. by injection Hl as <-.
  - apply Hc. by eapply lru_lookup_put_ne.
Qed.

Lemma broadcastRequest_ok T spec b t s :
  asking_ok T s -> wp (broadcastRequest L W F spec b t) s (fun _ s' => asking_ok T s').
Proof.
  intros Hs. unfold broadcastRequest. rewrite wp_nested_all. apply asking_step; [apply now_view|done|].
  clear s Hs. intros now s Hs. rewrite wp_bind. unfold on_receipts. rewrite wp_zoom.
  unfold lru_putIfDoesNotExist. wp_simpl. destruct (existsUnsafe _ _); wp_simpl.
  - by destruct Hs.
  - apply asking_step; [apply transmit_view| |intros _ s' Hs'; by apply asking_done; [apply keeps_ret|]].
    apply put_ok; [done|]. split; [done|]. eexists. apply new_votes_ok.
Qed.

Lemma submitOracleRequest_ok T spec last s :
  asking_ok T s -> wp (submitOracleRequest OL L W F spec last) s (fun _ s' => asking_ok T s').
Proof.
  intros Hs. unfold submitOracleRequest. apply asking_step; [apply now_view|done|]. clear s Hs. intros t s Hs.
  destruct (mkRequest _ _ _ _ _) as [parsed|e].
  - apply asking_step; [apply checkRequest_view|done|]. clear s Hs. intros [e|] s Hs; [by apply asking_done; [apply keeps_ret|]|].
    rewrite wp_if. split; intros _; [by apply asking_done; [apply keeps_ret|]|]. rewrite wp_bind. unfold sendRequest, wp at 1.
    pose proof (broadcastRequest_ok T parsed last t s Hs) as Hb. unfold wp in Hb.
    destruct (broadcastRequest L W F parsed last t s) as [[st|e] s']; [done|]. by destruct e.
  - apply asking_done; [|done]. apply keeps_bind; [apply keeps_lift|intros; apply keeps_ret].
Qed.

(** *** Answers *)
Lemma touch_ok T k s : asking_ok T s -> asking_ok T (set_receipts L W (lru_touch k (oc_receiptsMap s)) s).
Proof.
  intros [Hi Hmax Hc Hp Hm]. constructor; cbn; [by apply lru_touch_inv| | |done..].
  - unfold lru_touch. by destruct (lru_map _ !! k).
  - intros receipt r. rewrite lru_lookup_touch by done. apply Hc.
Qed.

Lemma modify_ok T k r s :
  asking_ok T s -> collected T k r -> asking_ok T (set_receipts L W (lru_modify k (fun _ => r) (oc_receiptsMap s)) s).
Proof.
  intros [Hi Hmax Hc Hp Hm] Hr. constructor; cbn; [by apply lru_modify_inv|done| |done..].
  intros receipt r'. rewrite lru_lookup_modify. case_decide as Hk; [|apply Hc]. subst receipt.
  destruct (lru_lookup _ k); [|done]. by intros [= <-].
Qed.

Lemma getOracleResult_spec text spec s :
  wp (getOracleResult OL L W F text spec) s (fun q s' =>
    asking_view s' = asking_view s /\ forall v, q = Ok v -> parseResult OL text spec = Ok v).
Proof.
  apply wp_and.
  - enough (keeps asking_view (getOracleResult OL L W F text spec)) as Hk by apply Hk. unfold getOracleResult.
    repeat first [apply now_view|apply keeps_lift|apply keeps_check|apply keeps_ret|apply keeps_bind; [|intros]].
  - unfold getOracleResult. wp_simpl. destruct (parseResult OL text spec) as [r|e]; [|done].
    assert (forall s1, wp (oc_now L W) s1 (fun q _ => True)) as Hnow by done. wp_simpl. split; [intros _|done].
    eapply wp_mono; [apply Hnow|]. intros [t|e] s1 _; [|done]. wp_simpl. split; [intros _|done].
    eapply wp_mono; [apply Hnow|]. intros [t2|e] s2 _; [|done]. wp_simpl. split; [intros _|done]. by intros v [= <-].
Qed.

Lemma processResponse_ok T e text receipt s :
  asking_ok T s -> e ∈ T -> oe_message e = OracleResponseArrived text receipt ->
  wp (processResponseMessage OL L W F (oe_srcSchainIndex e) text receipt) s (fun _ s' => asking_ok T s').
Proof.
  intros Hs He Hm. unfold processResponseMessage. rewrite wp_nested_all. apply asking_step; [apply keeps_check|done|].
  clear s Hs. intros _ s Hs. rewrite wp_bind. unfold on_receipts. rewrite wp_zoom.
  apply wp_lru_getIfExists; [apply Hs|]. apply (touch_ok T receipt) in Hs as Ht.
  destruct (lru_lookup (oc_receiptsMap s) receipt) as [r|] eqn:Hl; [|done].
  apply (ak_collected _ _ Hs) in Hl as [Hreq (votes & Hv)]. rewrite wp_bind.
  eapply wp_mono; [apply getOracleResult_spec|]. cbn beta. intros [v|x] s2 [Hview Hparse]; [|by eapply asking_ok_view].
  specialize (Hparse v eq_refl). apply (asking_ok_view T) in Hview as Hs2; [|done].
  rewrite wp_bind, wp_lift. destruct (insertIfDoesntExist _ v r) as [r'|x] eqn:Hins; [|done].
  rewrite wp_zoom, wp_modify. apply modify_ok; [done|].
  destruct (insert_votes_ok _ (answered T receipt (rr_requestSpec r)) r votes (oe_srcSchainIndex e) v r' Hcount Hv) as (votes' & Hv' & Hsp & Hrq);
    [by apply Hs|by exists e, text|done|].
  split; [by rewrite Hrq|]. exists votes'. by rewrite Hsp.
Qed.

Lemma route_ok T e s :
  asking_ok T s -> e ∈ T -> wp (oracle_routeAndProcessMessage OL L W F e) s (fun _ s' => asking_ok T s').
Proof.
  intros Hs He. unfold oracle_routeAndProcessMessage. rewrite wp_nested_all. apply asking_step; [apply keeps_check|done|].
  clear s Hs. intros _ s Hs. destruct (oe_message e) as [spec|text receipt] eqn:Hm; [|by apply processResponse_ok].
  wp_simpl. by destruct (oc_incomingQueues s !! _); wp_simpl; destruct Hs.
Qed.

Lemma logged_ok T c s : wp c s (fun _ s' => asking_ok T s') -> wp (logged L W c) s (fun _ s' => asking_ok T s').
Proof. unfold wp, logged. destruct (c s) as [[|[]] s']; done. Qed.

Lemma assemblyPass_ok T s : asking_ok T s -> wp (assemblyPass OL L W F) s (fun _ s' => asking_ok T s').
Proof.
  intros Hs. unfold assemblyPass. wp_simpl. pose proof (ak_posted _ _ Hs) as Hq.
  assert (asking_ok T (set_assembly L W [] s)) as Hs1.
  { destruct Hs as [H1 H2 H3 H4 H5]. constructor; try done. cbn. by intros e ?%elem_of_nil. }
  generalize (set_assembly L W [] s) Hs1. clear Hs Hs1. induction (oc_assembly s) as [|e q IH]; intros s1 Hs1; cbn [mapM_]; [done|].
  rewrite wp_bind. eapply wp_mono; [apply logged_ok, route_ok; [done|apply Hq; by left]|]. cbn beta.
  intros [[]|x] s2 Hs2; [|done]. apply IH; [|done]. intros e' He'. apply Hq. by right.
Qed.

(** *** All operations *)
Inductive oracle_op :=
  | OpSubmit (spec : string) (lastCommittedBlockID : Z)
  | OpCheck (receipt : string)
  | OpPost (e : oracle_envelope)
  | OpAssembly
  | OpWorker (threadNumber lastCommittedBlockID : Z)
  | OpWorld (k : crypto_state L W) (times : list Z) (sends : list (res unit)) (curls : list (option string)).

Definition ignore {A} (c : M state A) : M state unit := fun s => (Ok tt, (c s).2).

(** What an operation throws goes to its caller. *)
Definition run_oracle_op (op : oracle_op) : M state unit :=
  match op with
  | OpSubmit spec last => ignore (submitOracleRequest OL L W F spec last)
  | OpCheck receipt => ignore (checkOracleResult L W receipt)
  | OpPost e => ignore (oracle_post L W e)
  | OpAssembly => ignore (assemblyPass OL L W F)
  | OpWorker i last => ignore (workerTurn OL WB L W CM F i last)
  | OpWorld k times sends curls => modify (fun s =>
      set_curls L W curls (oc_fetched s) (set_out L W (oc_out s) sends (set_times L W times (set_oracle_crypto L W k s))))
  end.

Definition posted (ops : list oracle_op) : list oracle_envelope :=
  ops ≫= (fun op => match op with OpPost e => [e] | _ => [] end).

(** The network posts messages of members only. *)
Definition oracle_op_ok (op : oracle_op) : Prop :=
  match op with OpPost e => 1 <= oe_srcSchainIndex e <= of_nodeCount F | _ => True end.

Lemma ignore_ok {A} T (c : M state A) s :
  wp c s (fun _ s' => asking_ok T s') -> wp (ignore c) s (fun _ s' => asking_ok T s').
Proof. done. Qed.

Lemma checkOracleResult_ok T receipt s :
  asking_ok T s -> wp (checkOracleResult L W receipt) s (fun _ s' => asking_ok T s').
Proof.
  intros Hs. unfold checkOracleResult, on_receipts. rewrite wp_bind, wp_zoom. apply wp_lru_getIfExists; [apply Hs|].
  apply (touch_ok T receipt) in Hs. destruct (lru_lookup _ receipt); [|done].
  apply asking_step; [apply now_view|done|]. intros t s' Hs'. by apply asking_done; [apply keeps_ret|].
Qed.

Lemma post_ok T e s :
  asking_ok T s -> 1 <= oe_srcSchainIndex e <= of_nodeCount F ->
  wp (oracle_post L W e) s (fun _ s' => asking_ok (T ++ [e]) s').
Proof.
  intros [H1 H2 H3 H4 H5] He.
  assert (forall receipt r, lru_lookup (oc_receiptsMap s) receipt = Some r -> collected (T ++ [e]) receipt r) as Hc.
  { intros receipt r Hr. eapply collected_mono; [|by apply H3]. set_solver. }
  assert (forall e', e' ∈ T ++ [e] -> 1 <= oe_srcSchainIndex e' <= of_nodeCount F) as Hm by set_solver.
  unfold oracle_post. wp_simpl. split; intros _; constructor; try done; set_solver.
Qed.

Lemma run_op_ok op T s :
  asking_ok T s -> oracle_op_ok op -> wp (run_oracle_op op) s (fun r s' => r = Ok tt /\ asking_ok (T ++ posted [op]) s').
Proof.
  intros Hs Hop. destruct op as [spec last|receipt|e| |i last|k times sends curls]; cbn [run_oracle_op posted]; cbn;
    rewrite ?app_nil_r; (split; [done|]).
  - by apply submitOracleRequest_ok.
  - by apply checkOracleResult_ok.
  - by apply post_ok.
  - by apply assemblyPass_ok.
  - eapply asking_ok_view; [apply workerTurn_view|done].
  - apply (asking_ok_view T s); done.
Qed.

Lemma run_ops_ok ops T s :
  asking_ok T s -> Forall oracle_op_ok ops ->
  wp (mapM_ run_oracle_op ops) s (fun r s' => r = Ok tt /\ asking_ok (T ++ posted ops) s').
Proof.
  revert T s. induction ops as [|op ops IH]; intros T s Hs Hops; cbn [mapM_].
  { wp_simpl. cbn. by rewrite app_nil_r. }
  apply Forall_cons in Hops as [Hop Hops]. rewrite wp_bind. eapply wp_mono; [by apply run_op_ok|]. cbn beta.
  intros r s' [-> Hs']. eapply wp_mono; [by apply IH|]. cbn beta. intros r s2 [-> Hs2]. split; [done|].
  unfold posted in *. cbn [mbind list_bind] in *. by rewrite app_nil_r, <- app_assoc in Hs2.
Qed.

Lemma newOracle_ok k times sends curls : asking_ok [] (newOracle L W k times sends curls).
Proof.
  constructor; cbn; [by apply lru_new_inv|done| |by intros e ?%elem_of_nil..].
  intros receipt r Hr. done.
Qed.

(** A result that is reported was confirmed by enough votes. *)
Lemma reported_result T receipt text s s' :
  asking_ok T s -> checkOracleResult L W receipt s = (Ok (ORACLE_SUCCESS, text), s') ->
  exists (u : string) (rr : OracleReceivedResults) (votes : gmap Z OracleResult),
    votes_ok (of_nodeCount F) (answered T receipt (rr_requestSpec rr)) rr votes /\
    confirmations <= zsize (voters votes u) /\ exists rest, text = u +:+ rest.
Proof.
  intros Hok Hcheck.
  assert (wp (checkOracleResult L W receipt) s (fun r _ => r = Ok (ORACLE_SUCCESS, text) ->
    exists rr now, lru_lookup (oc_receiptsMap s) receipt = Some rr /\ tryGettingResult now rr = (ORACLE_SUCCESS, text))) as Hw.
  { unfold checkOracleResult, on_receipts. rewrite wp_bind, wp_zoom. apply wp_lru_getIfExists; [apply Hok|].
    destruct (lru_lookup _ receipt) as [rr|]; [|done]. rewrite wp_bind. unfold wp at 1.
    destruct (oc_now L W _) as [[now|e] s1]; [|done]. intros [= Hr]. by eauto. }
  destruct (wp_run _ _ _ _ _ Hw Hcheck eq_refl) as (rr & now & Hl & Htry). clear Hw.
  apply (ak_collected _ _ Hok) in Hl as [Hreq (votes & Hv)]. unfold tryGettingResult in Htry.
  destruct (_ <? now); [done|]. destruct (confirmed rr) as [u|] eqn:Hconf; [|done]. destruct (String.eqb _ _); [|done].
  injection Htry as <-. exists u, rr, votes. split; [done|].
  pose proof (confirmed_voters _ _ _ _ _ Hv Hconf) as Hq. rewrite Hreq in Hq. split; [done|by eexists].
Qed.

(** A posted message was signed by some member, and the transport accepts that
    member's messages under the index that it names.  An honest member names its
    own index and signs only the messages that it [sent].  As for the binary
    consensus, the code checks the signature for the node ID in the message and
    not for the index. *)
Definition signed_by_member (byz : gset Z) (accepts : Z -> Z -> Prop) (sent : Z -> oracle_envelope -> Prop)
    (e : oracle_envelope) : Prop :=
  exists sender, accepts sender (oe_srcSchainIndex e) /\
    (sender ∉ byz -> sender = oe_srcSchainIndex e /\ sent sender e).

(** C36: A result that the oracle reports was read by an honest node.  Whatever
    requests are made, whatever messages arrive from members of the chain and in
    whatever order the threads run, if [checkOracleResult] reports success then
    there is one signed part that answers under as many different indices as half
    of the required signers, and one more, had for this receipt, and the reported
    text starts with it.  If the Byzantine members can make themselves heard under
    fewer indices than that, an honest node sent one of these answers. *)
Theorem oracle_result_confirmed ops k times sends curls receipt text byz accepts spoken sent s s' :
  Forall oracle_op_ok ops -> Forall (signed_by_member byz accepts sent) (posted ops) ->
  speak_within byz accepts spoken -> zsize spoken < confirmations ->
  mapM_ run_oracle_op ops (newOracle L W k times sends curls) = (Ok tt, s) ->
  checkOracleResult L W receipt s = (Ok (ORACLE_SUCCESS, text), s') ->
  exists u spec (X : gset Z),
    confirmations <= zsize X /\
    (forall i, i ∈ X -> 1 <= i <= of_nodeCount F /\ exists v, answered (posted ops) receipt spec i v /\ or_unsigned v = u) /\
    (exists i e answer v, i ∈ X /\ i ∉ byz /\ sent i e /\ oe_srcSchainIndex e = i /\
       oe_message e = OracleResponseArrived answer receipt /\ parseResult OL answer spec = Ok v /\ or_unsigned v = u) /\
    (exists rest, text = u +:+ rest).
Proof.
  intros Hops Hfrom [Hbyz Hspeak] HB Hrun Hcheck.
  pose proof (run_ops_ok ops [] _ (newOracle_ok k times sends curls) Hops) as Hs.
  destruct (wp_run _ _ _ _ _ Hs Hrun) as [_ Hok]. clear Hs. cbn [app] in Hok.
  destruct (reported_result _ _ _ _ _ Hok Hcheck) as (u & rr & votes & Hv & Hq & Hrest).
  exists u, (rr_requestSpec rr), (voters votes u).
  assert (forall i, i ∈ voters votes u -> 1 <= i <= of_nodeCount F /\
    exists v, answered (posted ops) receipt (rr_requestSpec rr) i v /\ or_unsigned v = u) as Hall.
  { intros i (v & Hi & Hu)%elem_of_voters. apply (vo_range _ _ _ _ Hv) in Hi as [? ?]. eauto. }
  split_and!; [done|exact Hall| |done].
  assert (voters votes u ∖ spoken ≠ ∅) as [i Hi]%set_choose_L.
  { intros He. assert (voters votes u ⊆ spoken) as Hsub by set_solver. apply zsize_subseteq in Hsub. lia. }
  apply elem_of_difference in Hi as [Hi Hns].
  destruct (Hall i Hi) as (_ & v & (e & answer & He & Hsrc & Hm & Hp) & Hu).
  destruct (proj1 (Forall_forall _ _) Hfrom e He) as (sender & Hacc & Hhonest). rewrite Hsrc in Hacc, Hhonest.
  destruct (decide (sender ∈ byz)) as [Hin|Hnin]; [by destruct (Hns (Hspeak _ _ Hin Hacc))|].
  destruct (Hhonest Hnin) as [-> Hsent]. by exists i, e, answer, v.
Qed.
End Asking.

(** ** The signatures of a reported result *)
Section Signatures.
Implicit Types sigs : gmap Z string.

Lemma quoted_not_null x : quoted x <> "null"%string.
Proof. done. Qed.

Lemma signatureList_length sigs required indices count :
  length (signatureList sigs required indices count) = length indices.
Proof.
  revert count. induction indices as [|i indices IH]; intros count; [done|]. cbn [signatureList].
  destruct (sigs !! i); [destruct (count <? required)|]; cbn [length]; by rewrite IH.
Qed.

(** At most as many as are required. *)
Lemma signatureList_bound sigs required indices count :
  count <= required ->
  count + zlen (filter (fun x => x <> "null"%string) (signatureList sigs required indices count)) <= required.
Proof.
  revert count. induction indices as [|i indices IH]; intros count Hc; cbn [signatureList]; [unfold zlen; cbn; lia|].
  destruct (sigs !! i) as [sig|].
  - destruct (Z.ltb_spec count required).
    + rewrite filter_cons_True by apply quoted_not_null. specialize (IH (count + 1)). unfold zlen in *. cbn [length]. lia.
    + rewrite filter_cons_False by (intros Hn; by apply Hn). by apply IH.
  - rewrite filter_cons_False by (intros Hn; by apply Hn). by apply IH.
Qed.

(** The first node that answered is always listed. *)
Lemma signatureList_first sigs required k m i sig :
  0 < required -> sigs !! i = Some sig -> (forall j, j < i -> sigs !! j = None) -> k <= i < k + Z.of_nat m ->
  signatureList sigs required (seqZ k (Z.of_nat m)) 0 !! Z.to_nat (i - k) = Some (quoted sig).
Proof.
  intros Hr Hi Hj. revert k. induction m as [|m IH]; intros k Hk; [lia|].
  rewrite Nat2Z.inj_succ, seqZ_cons, Z.pred_succ by lia. cbn [signatureList]. destruct (decide (k = i)) as [->|Hne].
  - rewrite Hi, (proj2 (Z.ltb_lt 0 _)) by lia. by rewrite Z.sub_diag.
  - rewrite Hj by lia. replace (Z.to_nat (i - k)) with (S (Z.to_nat (i - Z.succ k))) by lia. cbn. apply IH. lia.
Qed.

(** A reported result need not be signed by the nodes that confirmed it.
    The text that [tryGettingResult] gives for a confirmed result has an entry for
    every node and at most as many signatures as confirmations are required, but
    these are the signatures of the first nodes that answered, whatever they
    answered: the signature of the first one is always there, also when it has
    signed another result, and then fewer signatures than required are for the
    reported one. *)
Theorem oracle_foreign_signature n P r votes now u i v text :
  votes_ok n P r votes -> rr_nodeCount r = n -> 0 < rr_requiredConfirmations r ->
  confirmed r = Some u -> tryGettingResult now r = (ORACLE_SUCCESS, text) ->
  votes !! i = Some v -> (forall j, j < i -> votes !! j = None) -> or_unsigned v <> u ->
  exists l, text = u +:+ field "sigs" +:+ "[" +:+ joined l +:+ "]}" /\ zlen l = n /\
    zlen (filter (fun x => x <> "null"%string) l) <= rr_requiredConfirmations r /\
    l !! Z.to_nat (i - 1) = Some (quoted (or_sig v)) /\
    rr_requiredConfirmations r <= zsize (voters votes u) /\ i ∉ voters votes u.
Proof.
  intros Hv Hn Hr Hc Ht Hi Hj Hu. destruct (vo_range _ _ _ _ Hv i v Hi) as [Hrange _].
  unfold tryGettingResult in Ht. destruct (_ <? now); [done|]. rewrite Hc in Ht. destruct (String.eqb _ _); [|done].
  injection Ht as <-. unfold compileCompleteResultJson. rewrite Hn, (proj2 (Z.ltb_lt 0 n)) by lia.
  eexists. split; [done|]. rewrite (vo_sigs _ _ _ _ Hv). split_and!.
  - unfold zlen. rewrite signatureList_length, length_seqZ. lia.
  - pose proof (signatureList_bound (or_sig <$> votes) (rr_requiredConfirmations r) (seqZ 1 n) 0). lia.
  - replace n with (Z.of_nat (Z.to_nat n)) by lia. apply signatureList_first; [done|by rewrite lookup_fmap, Hi| |lia].
    intros j Hlt. by rewrite lookup_fmap, Hj.
  - by eapply confirmed_voters.
  - intros (w & Hw & Hwu)%elem_of_voters. rewrite Hi in Hw. congruence.
Qed.
End Signatures.
(** ** Requests and their text *)

(** The compact text of a JSON value without escapes. *)
Fixpoint rj_print (v : rvalue) : string :=
  match v with
  | RNull => "null"
  | RBool b => if b then "true" else "false"
  | RInt n => int_string n
  | RDouble => "0.0"
  | RStr s => quoted s
  | RArr l => "[" +:+ joined (map rj_print l) +:+ "]"
  | RObj m => "{" +:+ joined (map (fun x => field x.1 +:+ rj_print x.2) m) +:+ "}"
  end.

(** The members of a request. *)
Definition query_members (q : oracle_query) : list (string * rvalue) :=
  if String.eqb (rq_ethApi q) "" then
    [("jsps"%string, RArr (map RStr (rq_jsps q)))] ++
    (if 0 <? zlen (rq_trims q) then [("trims"%string, RArr (map RInt (rq_trims q)))] else []) ++
    (if String.eqb (rq_post q) "" then [] else [("post"%string, RStr (rq_post q))])
  else
    [("ethApi", RStr (rq_ethApi q));
     ("params", RArr [RObj [("from", RStr (rq_from q)); ("to", RStr (rq_to q)); ("data", RStr (rq_data q));
                            ("gas", RStr (rq_gas q))]; RStr (rq_blockId q)])]%string.

Definition request_members (q : oracle_query) (pow : Z) : list (string * rvalue) :=
  [("cid"%string, RInt (rq_chainId q)); ("uri"%string, RStr (rq_uri q))] ++ query_members q ++
  [("encoding"%string, RStr (rq_encoding q)); ("time"%string, RInt (rq_time q)); ("pow"%string, RInt pow)].

Definition request_text (q : oracle_query) (pow : Z) : string := rj_print (RObj (request_members q pow)).

Lemma int_string_nonneg z : 0 <= z -> int_string z = to_string z.
Proof. intros Hz. unfold int_string. by rewrite (proj2 (Z.ltb_ge _ _)). Qed.

Lemma joined_cons x y l : joined (x :: y :: l) = x +:+ "," +:+ joined (y :: l).
Proof. done. Qed.

Lemma print_strings l : map rj_print (map RStr l) = map quoted l.
Proof. apply map_map. Qed.

Lemma print_numbers l : Forall (fun n => 0 <= n) l -> map rj_print (map RInt l) = map to_string l.
Proof. induction 1 as [|n l Hn _ IH]; [done|]. cbn [map rj_print]. by rewrite int_string_nonneg, IH. Qed.

(** The words of a query. *)
Record query_words (q : oracle_query) : Prop := {
  qw_chain : 0 <= rq_chainId q < 2 ^ 64;
  qw_time : 0 < rq_time q < 2 ^ 64;
  qw_trims : Forall (fun n => 0 <= n < 2 ^ 64) (rq_trims q)
}.

Section Requests.
Context (L : crypto_libs) (OL : oracle_libs) (testMode : bool).

Lemma tryMakingSpec_text q pow :
  query_words q -> 0 <= pow -> (rq_ethApi q = ""%string -> rq_trims q = [] \/ zlen (rq_trims q) = zlen (rq_jsps q)) ->
  (rq_ethApi q = ""%string \/ rq_ethApi q = "eth_call"%string) ->
  tryMakingSpec q pow = Ok (request_text q pow).
Proof.
  intros [Hc Ht Htr] Hp Hlen Heth. assert (Forall (fun n => 0 <= n) (rq_trims q)) as Hnn
    by (eapply Forall_impl; [exact Htr|]; cbn; lia).
  unfold tryMakingSpec, request_text, request_members, query_members, webPart, makeSpecStart, specEnd, ethCallPart.
  destruct (String.eqb_spec (rq_ethApi q) "") as [He|He].
  - specialize (Hlen He). destruct (Z.ltb_spec 0 (zlen (rq_trims q))) as [Hz|Hz].
    + destruct Hlen as [Hlen|Hlen]; [by rewrite Hlen in Hz|]. rewrite Hlen, Z.eqb_refl. cbn [rcheck mbind res_bind].
      destruct (String.eqb_spec (rq_post q) "") as [Hpost|Hpost]; cbn [app rj_print map fst snd];
        rewrite print_strings, print_numbers, !joined_cons, !int_string_nonneg by (done || lia); cbn [joined];
        by rewrite ?string_app_nil_r, <- !string_app_assoc.
    + cbn [rcheck mbind res_bind].
      destruct (String.eqb_spec (rq_post q) "") as [Hpost|Hpost]; cbn [app rj_print map fst snd];
        rewrite print_strings, !joined_cons, !int_string_nonneg by (done || lia); cbn [joined];
        by rewrite ?string_app_nil_r, <- !string_app_assoc.
  - destruct Heth as [Heth|Heth]; [done|]. rewrite Heth. cbn [String.eqb Ascii.eqb Bool.eqb rcheck mbind res_bind].
    cbn [app rj_print map fst snd]. rewrite !joined_cons, !int_string_nonneg by lia. cbn [joined].
    by rewrite <- !string_app_assoc.
Qed.

(** Strings that RapidJSON hands out as they are. *)
Definition clean (s : string) : Prop := c_str s = s.

Record query_common (q : oracle_query) : Prop := {
  qc_words : query_words q;
  qc_uri : clean (rq_uri q) /\ checkURI OL testMode (rq_uri q) = Ok tt;
  qc_encoding : rq_encoding q = "json"%string
}.

Record web_query (q : oracle_query) : Prop := {
  wq_api : rq_ethApi q = ""%string;
  wq_uri : rq_uri q <> "eth://"%string;
  wq_jsps : rq_jsps q <> [] /\ zlen (rq_jsps q) <= ORACLE_MAX_JSPS /\
    Forall (fun jsp => clean jsp /\ strlen jsp <= ORACLE_MAX_JSP_SIZE) (rq_jsps q);
  wq_trims : rq_trims q = [] \/ zlen (rq_trims q) = zlen (rq_jsps q);
  wq_post : clean (rq_post q) /\ strlen (rq_post q) <= ORACLE_MAX_POST_SIZE;
  wq_none : rq_from q = ""%string /\ rq_to q = ""%string /\ rq_data q = ""%string /\ rq_gas q = ""%string /\
    rq_blockId q = ""%string
}.

Record eth_query (q : oracle_query) : Prop := {
  eq_api : rq_ethApi q = "eth_call"%string;
  eq_none : rq_jsps q = [] /\ rq_trims q = [] /\ rq_post q = ""%string;
  eq_from : clean (rq_from q) /\ isValidEthHexAddressString (rq_from q) = true;
  eq_to : clean (rq_to q);
  eq_data : clean (rq_data q);
  eq_gas : clean (rq_gas q) /\ isHexEncodedUInt64 (rq_gas q) = true;
  eq_block : clean (rq_blockId q) /\ (rq_blockId q = "latest"%string \/ isHexEncodedUInt64 (rq_blockId q) = true)
}.

(** The request that the text stands for. *)
Definition spec_of (q : oracle_query) (pow : Z) : OracleRequestSpec :=
  mkSpecRecord (request_text q pow) (rq_chainId q) (rq_uri q) (rq_jsps q)
    (if 0 <? zlen (rq_trims q) then rq_trims q else replicate (length (rq_jsps q)) 0) (rq_time q) (rq_post q) (rq_from q)
    (rq_to q) (rq_data q) (rq_gas q) (rq_blockId q) (rq_encoding q) (rq_ethApi q) pow
    (hashForOracle L (request_text q pow)) 0.

Lemma parseJsps_ok l :
  Forall (fun jsp => clean jsp /\ strlen jsp <= ORACLE_MAX_JSP_SIZE) l -> parseJsps (map RStr l) = Ok l.
Proof.
  induction 1 as [|jsp l [Hc Hs] _ IH]; [done|]. cbn [map parseJsps asString mbind res_bind]. unfold clean in Hc.
  rewrite Hc, (proj2 (Z.leb_le _ _) Hs). cbn [rcheck mbind res_bind]. by rewrite IH.
Qed.

Lemma asUint64_ok n e : 0 <= n < 2 ^ 64 -> asUint64 (RInt n) e = Ok n.
Proof. intros Hn. cbn. by rewrite (proj2 (Z.leb_le _ _)), (proj2 (Z.ltb_lt _ _)) by lia. Qed.

Lemma parseTrims_ok l : Forall (fun n => 0 <= n < 2 ^ 64) l -> parseTrims (map RInt l) = Ok l.
Proof.
  induction 1 as [|n l Hn _ IH]; [done|]. cbn [map parseTrims]. rewrite asUint64_ok by done. cbn [mbind res_bind].
  by rewrite IH.
Qed.

(** The part of a web request. *)
Lemma parseWeb_ok q pow s :
  query_words q -> web_query q ->
  (os_spec s, os_chainid s, os_uri s, os_requestTime s) = (request_text q pow, rq_chainId q, rq_uri q, rq_time q) ->
  (os_from s, os_to s, os_data s, os_gas s, os_blockId s) = (""%string, ""%string, ""%string, ""%string, ""%string) ->
  (os_encoding s, os_ethApi s, os_pow s, os_receipt s, os_ethCallCounter s) =
    (rq_encoding q, ""%string, pow, hashForOracle L (request_text q pow), 0) ->
  parseWebRequestSpec (request_members q pow) s = Ok (spec_of q pow).
Proof.
  intros [_ _ Htr] [Hapi _ (Hne & Hmax & Hj) Htl (Hpc & Hps) (Hn1 & Hn2 & Hn3 & Hn4 & Hn5)] [= E1 E2 E3 E4] [= E5 E6 E7 E8 E9]
    [= E10 E11 E12 E13 E14].
  unfold parseWebRequestSpec, request_members, query_members, spec_of, requireMember.
  rewrite E1, E2, E3, E4, E5, E6, E7, E8, E9, E10, E11, E12, E13, E14, Hapi, Hn1, Hn2, Hn3, Hn4, Hn5.
  cbn [String.eqb app find_member Ascii.eqb Bool.eqb mbind res_bind].
  assert (map RStr (rq_jsps q) <> []) as Hne' by (by destruct (rq_jsps q)).
  rewrite (bool_decide_eq_false_2 _ Hne'). 
  replace (zlen (map RStr (rq_jsps q))) with (zlen (rq_jsps q)) by (unfold zlen; by rewrite length_map).
  rewrite (proj2 (Z.leb_le _ _) Hmax), parseJsps_ok by done. cbn [negb rcheck mbind res_bind]. unfold clean in Hpc.
  destruct (Z.ltb_spec 0 (zlen (rq_trims q))) as [Hz|Hz].
  - assert (zlen (rq_jsps q) =? zlen (rq_trims q) = true) as Heq
      by (destruct Htl as [Htl|Htl]; [by rewrite Htl in Hz|apply Z.eqb_eq; lia]).
    destruct (String.eqb_spec (rq_post q) "") as [Hpost|Hpost];
      cbn [app find_member String.eqb Ascii.eqb Bool.eqb asString mbind res_bind];
      rewrite parseTrims_ok by done; cbn [mbind res_bind]; rewrite Heq; cbn [rcheck mbind res_bind].
    + by rewrite Hpost.
    + rewrite Hpc, (proj2 (Z.leb_le _ _) Hps). done.
  - destruct (String.eqb_spec (rq_post q) "") as [Hpost|Hpost];
      cbn [app find_member String.eqb Ascii.eqb Bool.eqb asString mbind res_bind].
    + by rewrite Hpost.
    + rewrite Hpc, (proj2 (Z.leb_le _ _) Hps). done.
Qed.

(** The part of an Ethereum call. *)
Lemma parseEth_ok q pow :
  eth_query q ->
  parseEthApiRequestSpec (request_members q pow)
    (mkSpecRecord (request_text q pow) (rq_chainId q) (rq_uri q) [] [] (rq_time q) "" "" "" "" "" "" (rq_encoding q)
      "eth_call" pow (hashForOracle L (request_text q pow)) 0) = Ok (spec_of q pow).
Proof.
  intros [Hapi (Hn1 & Hn2 & Hn3) (Hfc & Hf) Htc Hdc (Hgc & Hg) (Hbc & Hb)]. unfold clean in *.
  unfold parseEthApiRequestSpec, request_members, query_members, spec_of, requireMember, checkAndGetParamsField, requireMember.
  rewrite Hapi, Hn1, Hn2, Hn3. cbn [String.eqb app find_member Ascii.eqb Bool.eqb mbind res_bind asString].
  rewrite Hfc, Htc, Hdc, Hgc, Hbc, Hf, Hg. cbn [rcheck mbind res_bind].
  assert (String.eqb (rq_blockId q) "latest" || isHexEncodedUInt64 (rq_blockId q) = true) as ->
    by (destruct Hb as [->| ->]; [done|by rewrite orb_true_r]). done.
Qed.

Lemma mkOracleRequestSpec_ok q pow :
  query_common q -> web_query q \/ eth_query q -> 0 <= pow < 2 ^ 64 ->
  strlen (request_text q pow) <= MAX_ORACLE_SPEC_LEN -> clean (request_text q pow) ->
  ol_parse OL (request_text q pow) = Some (RObj (request_members q pow)) ->
  verifyPow L (request_text q pow) = Ok true ->
  mkOracleRequestSpec L OL testMode (request_text q pow) = Ok (spec_of q pow).
Proof.
  intros [Hw (Huc & Hu) He] Hq Hp Hlen Hct Hparse Hpow. unfold mkOracleRequestSpec, clean in *.
  rewrite (proj2 (Z.leb_le _ _) Hlen), Hct, Hparse. cbn [rcheck mbind res_bind getObject].
  assert (find_member (request_members q pow) "cid" = Some (RInt (rq_chainId q)) /\
    find_member (request_members q pow) "uri" = Some (RStr (rq_uri q)) /\
    find_member (request_members q pow) "encoding" = Some (RStr (rq_encoding q)) /\
    find_member (request_members q pow) "time" = Some (RInt (rq_time q)) /\
    find_member (request_members q pow) "pow" = Some (RInt pow) /\
    find_member (request_members q pow) "ethApi" =
      if String.eqb (rq_ethApi q) "" then None else Some (RStr (rq_ethApi q))) as (F1 & F2 & F3 & F4 & F5 & F6).
  { unfold request_members, query_members.
    destruct (String.eqb (rq_ethApi q) ""), (0 <? zlen (rq_trims q)), (String.eqb (rq_post q) ""); done. }
  unfold requireMember. rewrite F1, F2, F3, F4, F5, F6. cbn [mbind res_bind asString].
  rewrite !asUint64_ok by (destruct Hw; lia || done). cbn [mbind res_bind].
  rewrite Huc, Hu, He. cbn [mbind res_bind c_str]. unfold checkEncoding. cbn [String.eqb Ascii.eqb Bool.eqb rcheck mbind res_bind].
  rewrite (proj2 (Z.ltb_lt 0 _)) by (destruct Hw; lia). cbn [rcheck mbind res_bind]. rewrite Hpow. cbn [rcheck mbind res_bind].
  destruct Hq as [Hq|Hq].
  - rewrite (wq_api _ Hq). cbn [String.eqb]. destruct (String.eqb_spec (rq_uri q) "eth://") as [Hbad|_]; [by destruct (wq_uri _ Hq)|].
    cbn [negb rcheck mbind res_bind]. apply parseWeb_ok; try done. cbn. by rewrite He.
  - rewrite (eq_api _ Hq). cbn -[parseEthApiRequestSpec request_members request_text spec_of]. rewrite <- (parseEth_ok q pow Hq). by rewrite He.
Qed.

Lemma query_text q pow :
  query_words q -> web_query q \/ eth_query q -> 0 <= pow -> tryMakingSpec q pow = Ok (request_text q pow).
Proof.
  intros Hw Hq Hp. apply tryMakingSpec_text; [done..| |].
  - intros Ha. destruct Hq as [Hq|Hq]; [apply Hq|left; apply Hq].
  - destruct Hq as [Hq|Hq]; [left; apply Hq|right; apply Hq].
Qed.

Lemma searchPow_ok q p fuel k :
  query_words q -> web_query q \/ eth_query q -> 0 <= k <= p -> p < 2 ^ 64 -> p - k < Z.of_nat fuel ->
  (forall j, k <= j < p -> verifyPow L (request_text q j) = Ok false) -> verifyPow L (request_text q p) = Ok true ->
  searchPow L q k fuel = Ok (request_text q p).
Proof.
  intros Hw Hq. revert k. induction fuel as [|fuel IH]; intros k Hk Hp Hf Hj Hv; [lia|]. cbn [searchPow].
  rewrite (query_text q k Hw Hq) by lia. cbn [mbind res_bind]. destruct (decide (k = p)) as [->|Hne].
  - by rewrite Hv.
  - rewrite Hj by lia. cbn [mbind res_bind]. rewrite u64_small by lia. apply IH; [lia..|intros j Hj'; apply Hj; lia|done].
Qed.

(** A request that is made is the request that is read.  If the query passes
    the checks, [p] is the first number whose text has the proof of work, the
    text is not too long and RapidJSON reads it as the object that it prints, then
    the search for the proof of work ends at [p], with any fuel above it, and the
    parsed request has all that was asked for, for web requests and for Ethereum
    calls; without trims nothing is cut off. *)
Theorem oracle_request_roundtrip q p fuel :
  query_common q -> web_query q \/ eth_query q -> 0 <= p < 2 ^ 64 -> p < Z.of_nat fuel ->
  (forall j, 0 <= j < p -> verifyPow L (request_text q j) = Ok false) ->
  verifyPow L (request_text q p) = Ok true ->
  strlen (request_text q p) <= MAX_ORACLE_SPEC_LEN -> clean (request_text q p) ->
  ol_parse OL (request_text q p) = Some (RObj (request_members q p)) ->
  makeSpec L OL testMode q fuel = Ok (spec_of q p).
Proof.
  intros Hc Hq Hp Hf Hj Hv Hlen Hcl Hparse. unfold makeSpec.
  rewrite (searchPow_ok q p fuel 0) by (done || lia || apply Hc). cbn [mbind res_bind].
  by rewrite mkOracleRequestSpec_ok.
Qed.
End Requests.

(** ** Answers and their text *)
Lemma up_to_last_app c a b :
  has_char c b = false -> up_to_last c (a +:+ String c b) = Some (a +:+ String c "").
Proof.
  intros Hb. assert (up_to_last c b = None) as Hn.
  { induction b as [|d b IH]; [done|]. cbn in *. apply orb_false_iff in Hb as [Hd Hb]. by rewrite (IH Hb), Hd. }
  induction a as [|d a IH].
  - change ("" +:+ String c b) with (String c b). cbn [up_to_last]. by rewrite Hn, Ascii.eqb_refl.
  - change (String d a +:+ String c b) with (String d (a +:+ String c b)). cbn [up_to_last]. by rewrite IH.
Qed.

Lemma up_to_comma_app a b : has_char "," b = false -> up_to_comma (a +:+ "," +:+ b) = Ok (a +:+ ",").
Proof.
  intros Hb. unfold up_to_comma. change ("," +:+ b) with (String "," b). by rewrite (up_to_last_app "," a b Hb).
Qed.

Lemma joined_snoc l x : l <> [] -> joined (l ++ [x]) = joined l +:+ "," +:+ x.
Proof.
  induction l as [|y l IH]; intros Hl; [done|]. destruct l as [|z l]; [done|].
  change ((y :: z :: l) ++ [x]) with (y :: (z :: l) ++ [x]). destruct ((z :: l) ++ [x]) as [|w k] eqn:He; [by destruct l|].
  rewrite joined_cons, IH, joined_cons by done. by rewrite <- !string_app_assoc.
Qed.

Lemma to_string_no_comma z : has_char "," (to_string z) = false.
Proof. apply all_digits_no_char; [done|apply to_string_digits]. Qed.

Section Answers.
Context (OL : oracle_libs).
Implicit Types q : oracle_query.
Implicit Types results : list (option string).

Definition result_value (r : option string) : rvalue := match r with Some s => RStr s | None => RNull end.

(** The member with the error or with the results. *)
Definition outcome_member (error : Z) results : string * rvalue :=
  if negb (error =? ORACLE_SUCCESS) then ("err"%string, RInt error) else ("rslts"%string, RArr (map result_value results)).

Definition asked_members q : list (string * rvalue) :=
  [("cid"%string, RInt (rq_chainId q)); ("uri"%string, RStr (rq_uri q))] ++ query_members q ++
  [("encoding"%string, RStr (rq_encoding q)); ("time"%string, RInt (rq_time q))].

Definition print_members (m : list (string * rvalue)) : string :=
  joined (map (fun x => field x.1 +:+ rj_print x.2) m).

Definition unsigned_text q (error : Z) results : string :=
  "{" +:+ print_members (asked_members q ++ [outcome_member error results]) +:+ ",".

Definition answer_members q (error : Z) results (sig : string) : list (string * rvalue) :=
  asked_members q ++ [outcome_member error results; ("sig"%string, RStr sig)].

Definition answer_text q error results sig : string := rj_print (RObj (answer_members q error results sig)).

Lemma print_members_snoc m x : m <> [] -> print_members (m ++ [x]) = print_members m +:+ "," +:+ field x.1 +:+ rj_print x.2.
Proof.
  intros Hm. unfold print_members. rewrite map_app. cbn [map]. rewrite joined_snoc by (by destruct m). done.
Qed.

Lemma asked_members_ne q : asked_members q <> [].
Proof. done. Qed.

Lemma request_text_split q pow :
  request_text q pow = ("{" +:+ print_members (asked_members q)) +:+ "," +:+ (field "pow" +:+ int_string pow +:+ "}").
Proof.
  assert (request_members q pow = asked_members q ++ [("pow"%string, RInt pow)]) as He
    by (unfold request_members, asked_members; by rewrite <- !app_assoc).
  unfold request_text. rewrite He.
  change (rj_print (RObj ?m)) with ("{" +:+ print_members m +:+ "}").
  rewrite print_members_snoc by apply asked_members_ne. cbn [fst snd rj_print]. by rewrite <- !string_app_assoc.
Qed.

Lemma outcome_text error results :
  (if negb (error =? ORACLE_SUCCESS) then errorPart error else resultsPart results) =
  field (outcome_member error results).1 +:+ rj_print (outcome_member error results).2 +:+ ",".
Proof.
  unfold outcome_member, errorPart, resultsPart. destruct (negb _); cbn [fst snd rj_print]; [done|].
  rewrite <- !string_app_assoc. do 2 f_equal. f_equal. f_equal. rewrite map_map. apply map_ext. by intros [].
Qed.

(** What a node signs is determined by the request, the status and the values. *)
Lemma unsignedResult_text spec q pow error results :
  os_spec spec = request_text q pow -> 0 <= pow ->
  unsignedResult spec error results = Ok (unsigned_text q error results).
Proof.
  intros Hs Hp. unfold unsignedResult. rewrite Hs, request_text_split, up_to_comma_app.
  - cbn [mbind res_bind]. rewrite outcome_text. unfold unsigned_text. rewrite print_members_snoc by apply asked_members_ne.
    by rewrite <- !string_app_assoc.
  - rewrite !has_char_app, int_string_nonneg, to_string_no_comma by done. done.
Qed.

Lemma answer_text_split q error results sig :
  answer_text q error results sig = unsigned_text q error results +:+ (field "sig" +:+ quoted sig +:+ "}").
Proof.
  unfold answer_text, answer_members, unsigned_text. change (rj_print (RObj ?m)) with ("{" +:+ print_members m +:+ "}").
  change [outcome_member error results; ("sig"%string, RStr sig)] with ([outcome_member error results] ++ [("sig"%string, RStr sig)]).
  rewrite app_assoc, print_members_snoc by (by destruct (asked_members q)). cbn [fst snd rj_print]. by rewrite <- !string_app_assoc.
Qed.
End Answers.
