(* ===== verification/OracleAgreement.v ===== *)
(** * Answers that agree are reported

    The answer that a node makes is read back by the asking node with the same
    signed part, so nodes that read the same are counted together; when enough of
    them have answered in time, the oracle reports the result, whatever the other
    nodes send. *)

From stdpp Require Import base tactics gmap list sorting strings.
From Stdlib Require Import ZArith Lia Ascii.
From S2P Require Import Prelude Bytes LruCache Blocks NetMessages SgxClient Crypto OracleSpec Oracle OracleTheorems.

(** ** Reading an answer *)
Section Reading.
Context (OL : oracle_libs).
Implicit Types q : oracle_query.
Implicit Types results : list (option string).

Definition clean_result (r : option string) : Prop := match r with Some s => clean s | None => True end.

(** The values are not part of an answer with an error. *)
Definition given (error : Z) results : list (option string) := if error =? ORACLE_SUCCESS then results else [].

(** What holds of an answer that a node makes: the strings of the libraries have
    no zero byte and the signature has no comma. *)
Record answer_ok q (error : Z) results (sig : string) : Prop := {
  an_text : clean (answer_text q error results sig);
  an_sig : clean sig /\ has_char "," sig = false /\ sig <> ""%string;
  an_error : - 2 ^ 63 <= error < 2 ^ 63;
  an_results : Forall clean_result results
}.

Definition answer_result q error results sig : OracleResult :=
  mkResult (unsigned_text q error results) (answer_text q error results sig) error (given error results) sig.

Lemma parseResults_ok results : Forall clean_result results -> parseResults (map result_value results) = Ok results.
Proof.
  induction 1 as [|r results Hr _ IH]; [done|]. cbn [map parseResults]. destruct r as [x|]; cbn in Hr |- *; rewrite IH; [|done].
  unfold clean in Hr. by rewrite Hr.
Qed.

Lemma unsigned_text_comma q error results :
  unsigned_text q error results = ("{" +:+ print_members (asked_members q ++ [outcome_member error results])) +:+ ",".
Proof. unfold unsigned_text. by rewrite <- string_app_assoc. Qed.

Lemma answer_unsigned q error results sig :
  has_char "," sig = false -> up_to_comma (answer_text q error results sig) = Ok (unsigned_text q error results).
Proof.
  intros Hs. rewrite answer_text_split, unsigned_text_comma, <- string_app_assoc, up_to_comma_app; [done|].
  unfold quoted. by rewrite !has_char_app, Hs.
Qed.

Lemma find_answer q error results sig :
  find_member (answer_members q error results sig) "sig" = Some (RStr sig) /\
  find_member (answer_members q error results sig) "err" = (if error =? ORACLE_SUCCESS then None else Some (RInt error)) /\
  find_member (answer_members q error results sig) "rslts" =
    (if error =? ORACLE_SUCCESS then Some (RArr (map result_value results)) else None).
Proof.
  unfold answer_members, asked_members, query_members, outcome_member.
  destruct (String.eqb (rq_ethApi q) ""), (0 <? zlen (rq_trims q)), (String.eqb (rq_post q) ""), (error =? ORACLE_SUCCESS); done.
Qed.

Lemma parseResult_answer q error results sig spec :
  answer_ok q error results sig -> os_encoding spec = "json"%string ->
  ol_parse OL (answer_text q error results sig) = Some (RObj (answer_members q error results sig)) ->
  parseResult OL (answer_text q error results sig) spec = Ok (answer_result q error results sig).
Proof.
  intros [Ht (Hs & Hc & _) He Hr] Henc Hparse. unfold parseResult, parseResultAsJson. rewrite Henc.
  cbn [String.eqb Ascii.eqb Bool.eqb rcheck mbind res_bind]. rewrite answer_unsigned by done. cbn [mbind res_bind].
  unfold clean in Ht, Hs. rewrite Ht, Hparse. cbn [getObject mbind res_bind]. unfold requireState.
  destruct (find_answer q error results sig) as (-> & -> & ->). cbn [getStringUnchecked mbind res_bind].
  rewrite Hs. unfold answer_result, given. destruct (Z.eqb_spec error ORACLE_SUCCESS) as [-> |Hne].
  - cbn [getArrayUnchecked mbind res_bind]. by rewrite parseResults_ok.
  - unfold asInt64. rewrite (proj2 (Z.leb_le _ _)), (proj2 (Z.ltb_lt _ _)) by lia.
    done.
Qed.

(** *** Making an answer *)
Section Making.
Context (WB : web_libs) (L : crypto_libs) (W : wallet_env) (CM : crypto_config L).

Lemma signResult_spec text s :
  wp (signResultAsJson L W CM text) s (fun r s' => forall sig full, r = Ok (sig, full) ->
    full = text +:+ field "sig" +:+ quoted sig +:+ "}" /\ signOracleResult L W CM text s = (Ok sig, s')).
Proof.
  unfold signResultAsJson. rewrite wp_nested_all, wp_bind, wp_check. split; [intros _|done].
  rewrite wp_bind. unfold wp at 1. destruct (signOracleResult L W CM text s) as [[sig|e] s']; [|intros; by destruct e].
  wp_simpl. by intros ? ? [= <- <-].
Qed.

Lemma wp_nested_oracle {S A} (c : M S A) s (P : A -> S -> Prop) :
  wp c s (fun r s' => forall v, r = Ok v -> P v s') -> wp (nested_oracle c) s (fun r s' => forall v, r = Ok v -> P v s').
Proof. unfold wp, nested_oracle. destruct (c s) as [[v|e] s']; [done|]. by destruct e. Qed.

(** The answer to [q] that the node makes in state [s]. *)
Definition made q error results (s : crypto_state L W) (v : OracleResult) (s' : crypto_state L W) : Prop :=
  exists sig, v = mkResult (unsigned_text q error results) (answer_text q error results sig) error results sig /\
    strlen (or_text v) <= MAX_ORACLE_RESULT_LEN /\
    signOracleResult L W CM (unsigned_text q error results) s = (Ok sig, s').

Lemma encode_spec spec q pow error results s :
  os_spec spec = request_text q pow -> 0 <= pow ->
  wp (encodeAndSignResultAsJson L W CM spec error results) s (fun r s' => forall v, r = Ok v -> made q error results s v s').
Proof.
  intros Hs Hp. unfold encodeAndSignResultAsJson. rewrite (unsignedResult_text _ _ _ _ _ Hs Hp). apply wp_nested_oracle.
  rewrite wp_bind, wp_nested_all, wp_lift. cbn [rnested_all]. rewrite wp_bind.
  eapply wp_mono; [apply signResult_spec|]. cbn beta. intros [[sig text]|e] s1 H1; [|done].
  destruct (H1 _ _ eq_refl) as [-> Hsig]. rewrite wp_bind, wp_check. split; [intros Hlen%Z.leb_le|done].
  wp_simpl. intros v [= <-]. exists sig. rewrite answer_text_split. done.
Qed.

Lemma mkOracleResult_spec spec q pow status response s :
  os_spec spec = request_text q pow -> 0 <= pow ->
  wp (mkOracleResult OL WB L W CM spec status response) s (fun r s' => forall v, r = Ok v ->
    os_encoding spec = "json"%string /\ exists error results, made q error results s v s').
Proof.
  intros Hs Hp. unfold mkOracleResult. apply wp_nested_oracle. rewrite wp_bind.
  apply (keeps_wp id); [repeat first [apply keeps_if|apply keeps_lift|apply keeps_ret]|].
  unfold wp at 1. destruct (_ s) as [[[error results]|e] s1]; [|done]. cbn. intros ->. rewrite wp_bind, wp_check. split; [intros Henc%String.eqb_eq|done].
  eapply wp_mono; [by eapply encode_spec|]. cbn beta. eauto.
Qed.

(** The asking node reads an answer as the answering node meant it.
    Whatever the endpoint sent and whether reading it failed, if a node makes the
    answer [r] to a request and RapidJSON reads the printed object back, then the
    node has signed exactly the signed part, which the request, the status and the
    values determine; the text is not longer than allowed; and parsing it gives
    the same signed part, signature and status, and the same values unless the
    status is an error.  So nodes that read the same are counted together. *)
Theorem oracle_answer_roundtrip spec q pow status response s r s' :
  os_spec spec = request_text q pow -> 0 <= pow ->
  mkOracleResult OL WB L W CM spec status response s = (Ok r, s') ->
  answer_ok q (or_error r) (or_results r) (or_sig r) ->
  ol_parse OL (or_text r) = Some (RObj (answer_members q (or_error r) (or_results r) (or_sig r))) ->
  or_unsigned r = unsigned_text q (or_error r) (or_results r) /\
  signOracleResult L W CM (or_unsigned r) s = (Ok (or_sig r), s') /\
  strlen (or_text r) <= MAX_ORACLE_RESULT_LEN /\
  exists r', parseResult OL (or_text r) spec = Ok r' /\
    or_unsigned r' = or_unsigned r /\ or_sig r' = or_sig r /\ or_error r' = or_error r /\
    (or_error r = ORACLE_SUCCESS -> or_results r' = or_results r).
Proof.
  intros Hs Hp Hrun Ha Hparse. pose proof (mkOracleResult_spec spec q pow status response s Hs Hp) as Hw.
  destruct (wp_run _ _ _ _ _ Hw Hrun r eq_refl) as (Henc & error & results & sig & -> & Hlen & Hsig).
  cbn [or_unsigned or_text or_error or_results or_sig] in *. split_and!; [done..|].
  eexists. split; [by apply parseResult_answer|]. split_and!; [done..|]. intros ->. done.
Qed.
End Making.
End Reading.

(** ** Enough answers that agree *)
Section Agreement.
Context (OL : oracle_libs).
Context (L : crypto_libs) (W : wallet_env) (F : oracle_config).
Context (Hcount : 0 <= of_nodeCount F < 2 ^ 64).
Local Abbreviation state := (oracle L W).
Implicit Types s : state.

(** The request, the signed part that the honest nodes send, and these nodes. *)
Context (spec : OracleRequestSpec) (receipt u : string) (H : gset Z) (t0 t : Z).

(** A text that RapidJSON handles without a failed assertion. *)
Definition handled (text : string) : Prop :=
  match parseResultAsJson OL text with Err UndefinedBehavior | Err OutOfFuel => False | _ => True end.

(** What the asking node is given: anything that it can parse or reject, but
    honest nodes answer this receipt with the signed part [u] only. *)
Record envelope_ok (e : oracle_envelope) : Prop := {
  en_member : 1 <= oe_srcSchainIndex e <= of_nodeCount F;
  en_handled : forall text k, oe_message e = OracleResponseArrived text k -> handled text;
  en_honest : forall text v, oe_srcSchainIndex e ∈ H -> oe_message e = OracleResponseArrived text receipt ->
    parseResult OL text spec = Ok v -> or_unsigned v = u
}.

(** The answer of an honest node. *)
Definition good_answer (e : oracle_envelope) : Prop :=
  0 < oe_blockID e /\ exists text v, oe_message e = OracleResponseArrived text receipt /\
    parseResult OL text spec = Ok v /\ or_sig v <> ""%string.

(** The collected answers agree with [u] on honest nodes, and cover [D]. *)
Record progress (D : gset Z) s : Prop := {
  pg_inv : lru_inv (oc_receiptsMap s);
  pg_now : oc_times s = [t];
  pg_votes : exists r votes, lru_lookup (oc_receiptsMap s) receipt = Some r /\
    votes_ok (of_nodeCount F) (fun i v => i ∈ H -> or_unsigned v = u) r votes /\
    D ⊆ dom votes /\ rr_requestSpec r = spec /\ rr_requestTime r = t0 /\
    rr_requiredConfirmations r = confirmations F
}.

Lemma progress_view D s s' :
  oc_receiptsMap s' = oc_receiptsMap s -> oc_times s' = oc_times s -> progress D s -> progress D s'.
Proof. intros Hr Ht [H1 H2 H3]. constructor; rewrite ?Hr, ?Ht; done. Qed.

Lemma progress_touch D k s : progress D s -> progress D (set_receipts L W (lru_touch k (oc_receiptsMap s)) s).
Proof.
  intros [H1 H2 (r & votes & Hl & Hrest)]. constructor; cbn; [by apply lru_touch_inv|done|].
  exists r, votes. by rewrite lru_lookup_touch.
Qed.

(** Another receipt is changed. *)
Lemma progress_other D k r s :
  k <> receipt -> progress D s -> progress D (set_receipts L W (lru_modify k (fun _ => r) (oc_receiptsMap s)) s).
Proof.
  intros Hk [H1 H2 (r0 & votes & Hl & Hrest)]. constructor; cbn; [by apply lru_modify_inv|done|].
  exists r0, votes. by rewrite lru_lookup_modify, decide_False.
Qed.

Lemma now_run s : oc_times s = [t] -> oc_now L W s = (Ok t, s).
Proof. intros Ht. unfold oc_now, mbind, M_bind, get. by rewrite Ht. Qed.

(** The checks of the time of an answer. *)
Definition in_time (sp : OracleRequestSpec) : bool :=
  (os_chainid sp =? of_schainID F) && (t <? u64 (os_requestTime sp + ORACLE_TIMEOUT_MS)) &&
  (os_requestTime sp <? u64 (t + ORACLE_REQUEST_FUTURE_JITTER_MS)).

Lemma getOracleResult_run text sp s :
  oc_times s = [t] ->
  getOracleResult OL L W F text sp s =
    (v ← parseResult OL text sp; rcheck InvalidStateException (in_time sp) ;; Ok v, s).
Proof.
  intros Ht. unfold getOracleResult, in_time. unfold mbind, M_bind, lift_res, mret, M_ret, check, throw.
  destruct (parseResult OL text sp) as [v|e]; cbn; [|done]. destruct (_ =? of_schainID F); cbn; [|done].
  rewrite now_run by done. destruct (t <? _); cbn; [|done]. rewrite now_run by done. by destruct (_ <? u64 _).
Qed.

(** Only RapidJSON's assertions escape the handler. *)
Definition caught {A} (q : res A) : Prop :=
  match q with Err UndefinedBehavior | Err OutOfFuel => False | _ => True end.

Lemma caught_nested {A} (q : res A) : caught q -> caught (rnested_all InvalidStateException q).
Proof. destruct q as [|e]; [done|]. by destruct e. Qed.

Lemma parseResult_caught text sp : handled text -> caught (parseResult OL text sp).
Proof. intros Hh. unfold parseResult. apply caught_nested. by destruct (String.eqb _ _). Qed.

Lemma insert_caught i v r : caught (insertIfDoesntExist i v r).
Proof. unfold insertIfDoesntExist, getSig. destruct (String.eqb _ _); [done|]. cbn. by destruct (bool_decide _). Qed.

(** An answer that passes the checks of time, then is counted. *)
Definition counted (i : Z) (text : string) (r : OracleReceivedResults) : res OracleReceivedResults :=
  v ← (v ← parseResult OL text (rr_requestSpec r); rcheck InvalidStateException (in_time (rr_requestSpec r)) ;; Ok v);
  insertIfDoesntExist i v r.

Lemma counted_caught i text r : handled text -> caught (counted i text r).
Proof.
  intros Hh. unfold counted. pose proof (parseResult_caught text (rr_requestSpec r) Hh) as Hp.
  destruct (parseResult _ _ _) as [v|e]; cbn; [|by destruct e]. destruct (in_time _); [|done]. apply insert_caught.
Qed.

Lemma lru_get_run k (c : lru_cache string OracleReceivedResults) :
  lru_inv c -> lru_getIfExists k c = (Ok (lru_lookup c k), lru_touch k c).
Proof.
  intros Hi. pose proof (wp_lru_getIfExists k c (fun q c' => q = Ok (lru_lookup c k) /\ c' = lru_touch k c) Hi
    (conj eq_refl eq_refl)) as Hg. unfold wp in Hg. destruct (lru_getIfExists k c) as [q c']. cbn in Hg. by destruct Hg as [-> ->].
Qed.

Lemma processResponse_run i text k s :
  lru_inv (oc_receiptsMap s) -> oc_times s = [t] -> 1 <= i ->
  let s1 := set_receipts L W (lru_touch k (oc_receiptsMap s)) s in
  processResponseMessage OL L W F i text k s =
    match lru_lookup (oc_receiptsMap s) k with
    | None => (Ok tt, s1)
    | Some r =>
        match counted i text r with
        | Ok r' => (Ok tt, set_receipts L W (lru_modify k (fun _ => r') (oc_receiptsMap s1)) s1)
        | Err x => (rnested_all InvalidStateException (Err x), s1)
        end
    end.
Proof.
  intros Hi Ht Hsrc s1.
  unfold processResponseMessage, nested_all, counted, check, on_receipts, zoom, mbind, M_bind, lift_res.
  rewrite (proj2 (Z.ltb_lt 0 i)) by lia. cbn -[set_receipts lru_getIfExists]. rewrite (lru_get_run _ _ Hi). fold s1.
  destruct (lru_lookup (oc_receiptsMap s) k) as [r|]; [|done].
  rewrite getOracleResult_run by done. unfold mbind, res_bind.
  destruct (parseResult OL text (rr_requestSpec r)) as [v|x]; [|done]. destruct (in_time _); [|done]. cbn.
  by destruct (insertIfDoesntExist i v r).
Qed.

Lemma counted_votes e text r votes r' :
  votes_ok (of_nodeCount F) (fun i v => i ∈ H -> or_unsigned v = u) r votes -> rr_requestSpec r = spec ->
  envelope_ok e -> oe_message e = OracleResponseArrived text receipt -> counted (oe_srcSchainIndex e) text r = Ok r' ->
  exists votes', votes_ok (of_nodeCount F) (fun i v => i ∈ H -> or_unsigned v = u) r' votes' /\
    {[oe_srcSchainIndex e]} ∪ dom votes ⊆ dom votes' /\ rr_requestSpec r' = spec /\
    rr_requestTime r' = rr_requestTime r /\ rr_requiredConfirmations r' = rr_requiredConfirmations r.
Proof.
  intros Hv Hsp [Hm _ Hh] He. unfold counted. rewrite Hsp. destruct (parseResult OL text spec) as [v|x] eqn:Hp; [|done].
  cbn [mbind res_bind]. destruct (in_time spec); [|done]. cbn [rcheck mbind res_bind].
  rewrite (insert_answer _ _ _ _ _ _ Hv). destruct (String.eqb _ _); [done|]. intros [= <-].
  destruct (decide (is_Some (votes !! oe_srcSchainIndex e))) as [Hs|Hs].
  - exists votes. split_and!; try done. apply elem_of_dom in Hs. set_solver.
  - exists (<[oe_srcSchainIndex e := v]> votes). split_and!; try done.
    + apply with_answer_ok; try done; [by eauto|by apply eq_None_not_Some].
    + by rewrite dom_insert_L.
Qed.

Lemma good_counted i text v r :
  rr_requestSpec r = spec -> parseResult OL text spec = Ok v -> or_sig v <> ""%string -> in_time spec = true ->
  is_ok (counted i text r) = true.
Proof.
  intros Hsp Hp Hs Ht. unfold counted. rewrite Hsp, Hp. cbn [mbind res_bind]. rewrite Ht. cbn [rcheck mbind res_bind].
  unfold insertIfDoesntExist, getSig. destruct (String.eqb_spec (or_sig v) ""); [done|]. cbn. by destruct (bool_decide _).
Qed.

Lemma response_progress D e text k s :
  progress D s -> envelope_ok e -> oe_message e = OracleResponseArrived text k ->
  let o := processResponseMessage OL L W F (oe_srcSchainIndex e) text k s in
  caught o.1 /\ progress D o.2 /\
  (good_answer e -> in_time spec = true -> progress ({[oe_srcSchainIndex e]} ∪ D) o.2).
Proof.
  intros Hs He Hm. pose proof (progress_touch D k s Hs) as Ht. destruct (Hs) as [Hi Hnow (r & votes & Hl & Hv & HD & Hsp & Htm & Hrq)].
  cbv zeta. rewrite processResponse_run by (done || apply He).
  assert (handled text) as Hh by (by eapply en_handled).
  destruct (decide (k = receipt)) as [-> |Hk].
  - rewrite Hl. destruct (counted _ text r) as [r'|x] eqn:Hc.
    + destruct (counted_votes e text r votes r' Hv Hsp He Hm Hc) as (votes' & Hv' & Hd & Hsp' & Htm' & Hrq').
      enough (progress ({[oe_srcSchainIndex e]} ∪ D)
        (set_receipts L W (lru_modify receipt (fun _ => r') (lru_touch receipt (oc_receiptsMap s)))
          (set_receipts L W (lru_touch receipt (oc_receiptsMap s)) s))) as Hp.
      { split_and!; [done| |done]. destruct Hp as [P1 P2 (r1 & v1 & Q1 & Q2 & Q3 & Q4)]. constructor; [done..|].
        exists r1, v1. split; [done|]. split; [done|]. split; [set_solver|done]. }
      constructor; cbn; [by apply lru_modify_inv, lru_touch_inv|done|]. exists r', votes'.
      rewrite lru_lookup_modify, decide_True, lru_lookup_touch, Hl by done. split_and!; try done; [set_solver|congruence..].
    + split_and!; [|done|].
      * pose proof (counted_caught (oe_srcSchainIndex e) text r Hh) as Hca. rewrite Hc in Hca. by apply (caught_nested (Err x)).
      * intros (_ & text' & v & Hm' & Hp & Hsig) Hin. rewrite Hm in Hm'. injection Hm' as <-.
        pose proof (good_counted (oe_srcSchainIndex e) text v r Hsp Hp Hsig Hin) as Hok. by rewrite Hc in Hok.
  - assert (good_answer e -> False) as Hng by (intros (_ & ? & ? & Hm' & _); congruence).
    destruct (lru_lookup (oc_receiptsMap s) k) as [r0|]; [|done].
    pose proof (counted_caught (oe_srcSchainIndex e) text r0 Hh) as Hca. destruct (counted _ text r0) as [r'|x].
    + split_and!; [done|by apply (progress_other D k r' (set_receipts L W _ s))|done].
    + split_and!; [by apply (caught_nested (Err x))|done|done].
Qed.

Lemma logged_run c s : caught (c s).1 -> logged L W c s = (Ok tt, (c s).2).
Proof. unfold logged. destruct (c s) as [[a|x] s']; [done|]. by destruct x. Qed.

Lemma route_progress D e s :
  progress D s -> envelope_ok e ->
  exists s', logged L W (oracle_routeAndProcessMessage OL L W F e) s = (Ok tt, s') /\ progress D s' /\
    (good_answer e -> in_time spec = true -> progress ({[oe_srcSchainIndex e]} ∪ D) s').
Proof.
  intros Hs He. set (c := oracle_routeAndProcessMessage OL L W F e).
  enough (caught (c s).1 /\ progress D (c s).2 /\
    (good_answer e -> in_time spec = true -> progress ({[oe_srcSchainIndex e]} ∪ D) (c s).2)) as (Hc & Hp & Hg).
  { exists (c s).2. by rewrite logged_run. }
  subst c. unfold oracle_routeAndProcessMessage, nested_all, mbind, M_bind, check. destruct (Z.ltb_spec 0 (oe_blockID e)) as [Hb|Hb].
  - cbn [mret M_ret]. destruct (oe_message e) as [sp|text k] eqn:Hm.
    + assert (good_answer e -> False) as Hng by (intros (_ & ? & ? & Hm' & _); congruence).
      unfold get, put. cbn. by destruct (oc_incomingQueues s !! _); (split; [done|split; [|done]]); apply (progress_view D s).
    + pose proof (response_progress D e text k s Hs He Hm) as Hr. cbv zeta in Hr. unfold mret, M_ret.
      destruct (processResponseMessage _ _ _ _ _ _ _ s) as [q s']. cbn in *. destruct Hr as (Hc & Hr).
      split; [by apply caught_nested|done].
  - split; [done|]. split; [done|]. intros (Hb' & _). lia.
Qed.

Lemma progress_mono D D' s : D' ⊆ D -> progress D s -> progress D' s.
Proof.
  intros HD [H1 H2 (r & votes & Hl & Hv & Hd & Hrest)]. constructor; [done..|]. exists r, votes.
  split; [done|]. split; [done|]. split; [set_solver|done].
Qed.

(** The nodes that have been counted. *)
Lemma progress_max D s : progress D s -> exists D1, progress D1 s /\ forall D2, progress D2 s -> D2 ⊆ D1.
Proof.
  intros [H1 H2 (r & votes & Hl & Hv & Hd & Hrest)]. exists (dom (rr_signaturesBySchainIndex r)).
  assert (forall votes', votes_ok (of_nodeCount F) (fun i v => i ∈ H -> or_unsigned v = u) r votes' ->
    dom votes' = dom (rr_signaturesBySchainIndex r)) as Hdom by (intros votes' Hv'; by rewrite (vo_sigs _ _ _ _ Hv'), dom_fmap_L).
  split.
  - constructor; [done..|]. exists r, votes. rewrite <- (Hdom votes Hv). done.
  - intros D2 [_ _ (r2 & votes2 & Hl2 & Hv2 & Hd2 & _)]. rewrite Hl in Hl2. injection Hl2 as <-. by rewrite <- (Hdom votes2 Hv2).
Qed.

Lemma pass_progress es D D' s :
  progress D s -> Forall envelope_ok es -> in_time spec = true ->
  (forall i, i ∈ D' -> i ∈ D \/ exists e, e ∈ es /\ oe_srcSchainIndex e = i /\ good_answer e) ->
  exists s', mapM_ (fun e => logged L W (oracle_routeAndProcessMessage OL L W F e)) es s = (Ok tt, s') /\ progress D' s'.
Proof.
  revert D s. induction es as [|e es IH]; intros D s Hs Hes Ht HD'.
  - exists s. split; [done|]. eapply progress_mono; [|done]. intros i Hi.
    destruct (HD' i Hi) as [Hd|(e & He & _)]; [done|by apply elem_of_nil in He].
  - apply Forall_cons in Hes as [He Hes]. destruct (route_progress D e s Hs He) as (s1 & Hrun & Hp & Hg).
    destruct (progress_max D s1 Hp) as (D1 & Hp1 & Hmax).
    destruct (IH D1 s1 Hp1 Hes Ht) as (s' & Hrest & Hend).
    + intros i Hi. destruct (HD' i Hi) as [Hd|(e' & He' & <- & Hgood)]; [left; by apply (Hmax D)|].
      apply elem_of_cons in He' as [-> |He']; [|right; eauto]. left. apply (Hmax _ (Hg Hgood Ht)). set_solver.
    + exists s'. split; [|done]. cbn [mapM_]. unfold mbind, M_bind. by rewrite Hrun.
Qed.

(** *** Reporting *)
Lemma agreeing_voters r votes D :
  votes_ok (of_nodeCount F) (fun i v => i ∈ H -> or_unsigned v = u) r votes -> D ⊆ dom votes -> D ⊆ H ->
  D ⊆ voters votes u.
Proof.
  intros Hv Hd HH i Hi. apply elem_of_voters. specialize (Hd i Hi). apply elem_of_dom in Hd as [v Hv'].
  exists v. split; [done|]. apply (vo_range _ _ _ _ Hv) in Hv' as [_ Hu]. by apply Hu, HH.
Qed.

(** A result that others confirm has fewer voters. *)
Lemma other_voters r votes D u' :
  votes_ok (of_nodeCount F) (fun i v => i ∈ H -> or_unsigned v = u) r votes -> D ⊆ voters votes u -> u' <> u ->
  zsize (voters votes u') <= of_nodeCount F - zsize D.
Proof.
  intros Hv Hd Hne. enough (zsize (voters votes u' ∪ D) <= of_nodeCount F) as Hle.
  { unfold zsize in *. rewrite size_union in Hle; [lia|]. intros i Hi Hi'%Hd.
    apply elem_of_voters in Hi as (v & Hv1 & Hu1), Hi' as (w & Hv2 & Hu2). congruence. }
  rewrite <- (size_members (of_nodeCount F)) by lia. apply zsize_subseteq. intros i Hi. apply elem_of_members.
  assert (i ∈ voters votes u' \/ i ∈ voters votes u) as [(v & Hi' & _)%elem_of_voters|(v & Hi' & _)%elem_of_voters] by set_solver;
    by apply (vo_range _ _ _ _ Hv) in Hi' as [? _].
Qed.

Lemma check_progress D s :
  progress D s -> D ⊆ H -> confirmations F <= zsize D -> 0 < confirmations F -> t <= u64 (t0 + ORACLE_TIMEOUT_MS) ->
  os_encoding spec = "json"%string ->
  exists text s', checkOracleResult L W receipt s = (Ok (ORACLE_SUCCESS, text), s') /\
    (of_nodeCount F - zsize D < confirmations F -> exists rest, text = u +:+ rest).
Proof.
  intros [Hi Ht (r & votes & Hl & Hv & Hd & Hsp & Htm & Hrq)] HH Hc Hpos Htime Henc.
  pose proof (agreeing_voters r votes D Hv Hd HH) as Hag. pose proof (zsize_subseteq _ _ Hag) as Hle.
  destruct (rr_resultsByCount r !! u) as [c|] eqn:Hu; [|specialize (vo_counts _ _ _ _ Hv u); rewrite Hu; cbn; lia].
  assert (rr_requiredConfirmations r <= c) as Hcc by (specialize (vo_counts _ _ _ _ Hv u); rewrite Hu; cbn; lia).
  destruct (confirmed_complete r u c Hu Hcc) as [u' Hu'].
  eexists _, _. split.
  - unfold checkOracleResult, on_receipts, zoom, mbind, M_bind. rewrite (lru_get_run _ _ Hi), Hl.
    rewrite now_run by done. unfold tryGettingResult. rewrite Htm, (proj2 (Z.ltb_ge _ _)) by lia.
    by rewrite Hu', Hsp, Henc.
  - intros Hfew. destruct (decide (u' = u)) as [-> |Hne]; [by eexists|].
    pose proof (other_voters r votes D u' Hv Hag Hne). pose proof (confirmed_voters _ _ _ _ _ Hv Hu'). lia.
Qed.
End Agreement.

(** ** From the request to the report *)
Section Reported.
Context (OL : oracle_libs).
Context (L : crypto_libs) (W : wallet_env) (F : oracle_config).
Local Abbreviation state := (oracle L W).
Implicit Types s : state.

Lemma checkRequest_run t sp s :
  oc_times s = [t] -> exists o, checkRequest L W F sp s = (Ok o, s) /\ o <> Some ORACLE_SUCCESS.
Proof.
  intros Ht. unfold checkRequest. destruct (negb _); [by eexists|]. unfold mbind, M_bind. rewrite (now_run _ _ _ _ Ht).
  destruct (_ <? t); rewrite (now_run _ _ _ _ Ht); [by eexists|]. destruct (_ <? _); [|by eexists].
  rewrite (now_run _ _ _ _ Ht). by eexists.
Qed.

Lemma broadcast_collects sp b tm t s s' :
  lru_inv (oc_receiptsMap s) -> 1 <= lru_max_size (oc_receiptsMap s) -> oc_times s = [t] ->
  broadcastRequest L W F sp b tm s = (Ok ORACLE_SUCCESS, s') ->
  lru_inv (oc_receiptsMap s') /\ lru_lookup (oc_receiptsMap s') (os_receipt sp) =
    Some (newReceivedResults sp (of_requiredSigners F) (of_nodeCount F) t (of_isSgxEnabled F)).
Proof.
  intros Hi Hm Ht. unfold broadcastRequest, nested_all, mbind, M_bind. rewrite (now_run _ _ _ _ Ht).
  unfold on_receipts, zoom, lru_putIfDoesNotExist, mbind, M_bind, get, put.
  destruct (existsUnsafe _ _); [done|]. cbn. unfold transmit, mbind, M_bind, get, put. cbn.
  destruct (oc_sends s) as [|[|e] sends]; cbn; intros Hrun.
  - injection Hrun as <-. cbn. split; [by apply lru_putUnsafe_inv|by apply lru_lookup_put].
  - injection Hrun as <-. cbn. split; [by apply lru_putUnsafe_inv|by apply lru_lookup_put].
  - by destruct e.
Qed.

(** A request that is accepted starts to collect. *)
Lemma submit_collects text last sp t s rc s' :
  lru_inv (oc_receiptsMap s) -> 1 <= lru_max_size (oc_receiptsMap s) -> oc_times s = [t] ->
  mkRequest OL L F text last = Ok sp -> submitOracleRequest OL L W F text last s = (Ok (ORACLE_SUCCESS, rc), s') ->
  rc = os_receipt sp /\ lru_inv (oc_receiptsMap s') /\
  lru_lookup (oc_receiptsMap s') rc = Some (newReceivedResults sp (of_requiredSigners F) (of_nodeCount F) t (of_isSgxEnabled F)).
Proof.
  intros Hi Hm Ht Hmk. unfold submitOracleRequest, mbind, M_bind. rewrite (now_run _ _ _ _ Ht), Hmk.
  destruct (checkRequest_run t sp s Ht) as ([e|] & -> & Hne); [by intros [= -> ]|].
  destruct (String.eqb _ _); [done|]. unfold sendRequest.
  destruct (broadcastRequest L W F sp last t s) as [[st|e] s1] eqn:Hb; [|by destruct e]. unfold mret, M_ret.
  intros [= -> <- <-]. split; [done|]. by eapply broadcast_collects.
Qed.

(** Answers that agree are reported.  After a request was accepted, let the
    queue of the assembly thread hold anything that members sent, in any order,
    and an answer with the same status and values from each node of a set [H]
    that has as many nodes as confirmations are required; what nodes of [H] sent
    for this receipt is that answer.  If the clock is in the window of the request
    and RapidJSON reads what it is given, then the thread handles the whole queue,
    and asking for the result gives success; and if the nodes outside [H] are fewer
    than the confirmations, the text starts with what the nodes of [H] signed. *)
Theorem oracle_agreeing_answers_reported q p text last t0 t es (H : gset Z) error results receipt s0 s1 s2 :
  0 <= of_nodeCount F < 2 ^ 64 -> rq_encoding q = "json"%string -> 0 <= p ->
  lru_inv (oc_receiptsMap s0) -> 1 <= lru_max_size (oc_receiptsMap s0) -> oc_times s0 = [t0] ->
  mkRequest OL L F text last = Ok (spec_of L q p) ->
  submitOracleRequest OL L W F text last s0 = (Ok (ORACLE_SUCCESS, receipt), s1) ->
  oc_receiptsMap s2 = oc_receiptsMap s1 -> oc_times s2 = [t] -> oc_assembly s2 = es ->
  in_time F t (spec_of L q p) = true -> t <= u64 (t0 + ORACLE_TIMEOUT_MS) ->
  confirmations F <= zsize H ->
  (forall e, e ∈ es -> 1 <= oe_srcSchainIndex e <= of_nodeCount F) ->
  (forall e txt k, e ∈ es -> oe_message e = OracleResponseArrived txt k -> handled OL txt) ->
  (forall e txt, e ∈ es -> oe_srcSchainIndex e ∈ H -> oe_message e = OracleResponseArrived txt receipt ->
    exists sig, txt = answer_text q error results sig /\ answer_ok q error results sig /\
      ol_parse OL txt = Some (RObj (answer_members q error results sig))) ->
  (forall i, i ∈ H -> exists e txt, e ∈ es /\ oe_srcSchainIndex e = i /\ 0 < oe_blockID e /\
    oe_message e = OracleResponseArrived txt receipt) ->
  exists s3 reported s4, assemblyPass OL L W F s2 = (Ok tt, s3) /\
    checkOracleResult L W receipt s3 = (Ok (ORACLE_SUCCESS, reported), s4) /\
    (of_nodeCount F - zsize H < confirmations F -> exists rest, reported = unsigned_text q error results +:+ rest).
Proof.
  intros Hn Henc Hp Hi Hm Ht0 Hmk Hsub Hr2 Ht2 Ha Hin Hlate Hconf Hmem Hhan Hhon Hall.
  destruct (submit_collects _ _ _ _ _ _ _ Hi Hm Ht0 Hmk Hsub) as (_ & Hi1 & Hl1).
  set (sp := spec_of L q p) in *. set (u := unsigned_text q error results).
  assert (forall e txt, e ∈ es -> oe_srcSchainIndex e ∈ H -> oe_message e = OracleResponseArrived txt receipt ->
    exists sig, parseResult OL txt sp = Ok (answer_result q error results sig) /\ sig <> ""%string) as Hread.
  { intros e txt He Hs He'. destruct (Hhon e txt He Hs He') as (sig & -> & Hok & Hparse). exists sig.
    split; [by apply parseResult_answer|apply Hok]. }
  assert (Forall (envelope_ok OL F sp receipt u H) es) as Hes.
  { apply Forall_forall. intros e He. constructor; [by apply Hmem|by eauto|].
    intros txt v Hs He' Hv. destruct (Hread e txt He Hs He') as (sig & Hv' & _). rewrite Hv in Hv'. by injection Hv' as ->. }
  assert (progress L W F sp receipt u H t0 t ∅ (set_assembly L W [] s2)) as Hstart.
  { constructor; cbn; [by rewrite Hr2|done|]. eexists _, ∅. rewrite Hr2. split; [done|].
    split; [apply new_votes_ok|]. split; [set_solver|done]. }
  destruct (pass_progress OL L W F Hn sp receipt u H t0 t es ∅ H _ Hstart Hes Hin) as (s3 & Hrun & Hend).
  { intros i Hi'. right. destruct (Hall i Hi') as (e & txt & He & <- & Hb & He').
    destruct (Hread e txt He Hi' He') as (sig & Hv & Hsig). exists e. split_and!; [done..|]. split; [done|]. by eexists _, _. }
  assert (0 < confirmations F) as Hpos.
  { unfold confirmations. pose proof (u64_range (of_requiredSigners F - 1)). pose proof (Z.div_pos (u64 (of_requiredSigners F - 1)) 2). lia. }
  destruct (check_progress L W F Hn sp receipt u H t0 t H s3 Hend) as (rep & s4 & Hck & Hrep); try done.
  exists s3, rep, s4. split; [|done]. unfold assemblyPass, mbind, M_bind, get, put. by rewrite Ha.
Qed.
End Reported.
