(* ===== verification/OracleExamples.v ===== *)
(** * The oracle at concrete inputs

    A chain of four nodes asks for one value of a web page; the properties of the
    oracle at this run, and inputs at which its checks do not check. *)

From stdpp Require Import base tactics gmap list sorting strings.
From Stdlib Require Import ZArith Lia Ascii.
From S2P Require Import Prelude Bytes LruCache Blocks NetMessages SgxClient Crypto CryptoTheorems.
From S2P Require Import OracleSpec Oracle OracleTheorems OracleAgreement.

(** A hash that is small when the text ends with a two and a closing brace. *)
Definition demo_keccak (l : list Z) : list Z :=
  (if bool_decide (reverse l !! 1%nat = Some 50) then 0 else 255) :: 0 :: take 30 (reverse l ++ repeat 7 30).

Definition demo_libs : crypto_libs := {|
  cl_blake3 := cl_blake3 toy_libs; cl_keccak := demo_keccak;
  cl_edKey := Z; cl_edGenerate := id; cl_edPublic := toy_public; cl_edSign := toy_sign; cl_edVerify := cl_edVerify toy_libs;
  cl_ecKey := string; cl_ecPoint := cl_ecPoint toy_libs; cl_ecVerify := cl_ecVerify toy_libs;
  cl_blsKey := Z; cl_blsSig := Z; cl_blsShare := Z; cl_blsSet := list Z;
  cl_blsVerify := cl_blsVerify toy_libs; cl_blsSigOf := cl_blsSigOf toy_libs; cl_blsSigText := cl_blsSigText toy_libs;
  cl_blsRandom := cl_blsRandom toy_libs; cl_blsShareOf := cl_blsShareOf toy_libs; cl_blsShareText := cl_blsShareText toy_libs;
  cl_blsShareIndex := id; cl_blsShareVerify := cl_blsShareVerify toy_libs; cl_blsSetNew := cl_blsSetNew toy_libs;
  cl_blsSetAdd := cl_blsSetAdd toy_libs; cl_blsSetEnough := cl_blsSetEnough toy_libs;
  cl_blsSetMerge := cl_blsSetMerge toy_libs |}.

(** A node without a wallet signs with the hash. *)
Definition demo_manager : crypto_config demo_libs := {|
  cm_isSGXEnabled := false; cm_isSyncNode := false; cm_verifyRealSignatures := true;
  cm_totalSigners := 4; cm_requiredSigners := 3; cm_schainID := 7; cm_schainIndex := 1;
  cm_nodeIDs := [101; 102; 103; 104]; cm_sgxECDSAKeyName := ""; cm_sgxBlsKeyName := "";
  cm_ecdsaPublicKeyMap := ∅; cm_historicECDSAPublicKeys := ∅; cm_historicNodeGroups := ∅;
  cm_sgxBLSPublicKey := None; cm_previousBlsPublicKeys := ∅; cm_blsPublicKeySharesMapByIndex := ∅;
  cm_simulateBLSSigFailBlock := 0 |}.

Definition demo_crypto : crypto_state demo_libs toy_wallet := newCrypto demo_libs toy_wallet [].

Definition demo_query : oracle_query := {|
  rq_chainId := 7; rq_uri := "http://a.b/c"; rq_jsps := ["/p"%string]; rq_trims := []; rq_post := "";
  rq_ethApi := ""; rq_from := ""; rq_to := ""; rq_data := ""; rq_gas := ""; rq_blockId := "";
  rq_encoding := "json"; rq_time := 5000 |}.

Definition demo_results : list (option string) := [Some "42"%string].
Definition demo_sig : string := hashForOracle demo_libs (unsigned_text demo_query 0 demo_results).
Definition demo_answer : string := answer_text demo_query 0 demo_results demo_sig.
Definition demo_receipt : string := hashForOracle demo_libs (request_text demo_query 2).

Definition demo_OL : oracle_libs := {|
  ol_parse := fun s =>
    if String.eqb s (request_text demo_query 2) then Some (RObj (request_members demo_query 2))
    else if String.eqb s demo_answer then Some (RObj (answer_members demo_query 0 demo_results demo_sig))
    else None;
  ol_url := fun _ => Some {| url_userName := ""; url_password := ""; url_host := "a.b" |};
  ol_inet := fun _ => false |}.

(** The endpoint answers with a document that has one value. *)
Definition demo_WB : web_libs := {|
  wb_doc := option string; wb_parse := fun s => Some (Some s); wb_null := None;
  wb_at := fun d jsp => Ok (if String.eqb jsp "/p" then NString <$> d else None) |}.

Definition demo_config : oracle_config := {|
  of_schainID := 7; of_requiredSigners := 3; of_nodeCount := 4; of_isSgxEnabled := false;
  of_gethURL := "http://geth"; of_testMode := false |}.

Definition demo_oracle (t : Z) : oracle demo_libs toy_wallet := newOracle demo_libs toy_wallet demo_crypto [t] [] [].

(** One node sends garbage, the others what they read. *)
Definition demo_envelopes : list oracle_envelope :=
  [{| oe_blockID := 5; oe_srcSchainIndex := 1; oe_message := OracleResponseArrived "garbage," demo_receipt |};
   {| oe_blockID := 5; oe_srcSchainIndex := 2; oe_message := OracleResponseArrived demo_answer demo_receipt |};
   {| oe_blockID := 5; oe_srcSchainIndex := 3; oe_message := OracleResponseArrived demo_answer demo_receipt |};
   {| oe_blockID := 5; oe_srcSchainIndex := 4; oe_message := OracleResponseArrived demo_answer demo_receipt |}].

Definition demo_spec : OracleRequestSpec := spec_of demo_libs demo_query 2.

Lemma fst_run {S A} (c : M S A) s r : (c s).1 = r -> c s = (r, (c s).2).
Proof. intros <-. apply surjective_pairing. Qed.

Lemma demo_web_query : web_query demo_query.
Proof. split; try done; cbn. - by repeat constructor. - by left. Qed.

Lemma demo_common : query_common demo_OL false demo_query.
Proof. split; [split; cbn; [lia..|constructor]|by vm_compute|done]. Qed.

Lemma oracle_request_roundtrip_witness : makeSpec demo_libs demo_OL false demo_query 3 = Ok demo_spec.
Proof.
  apply (oracle_request_roundtrip demo_libs demo_OL false demo_query 2 3).
  - exact demo_common.
  - left. exact demo_web_query.
  - lia.
  - lia.
  - intros j Hj. assert (j = 0 \/ j = 1) as [-> | ->] by lia; by vm_compute.
  - by vm_compute.
  - by vm_compute.
  - by vm_compute.
  - by vm_compute.
Defined.

Definition demo_made := mkOracleResult demo_OL demo_WB demo_libs toy_wallet demo_manager demo_spec 0 "42" demo_crypto.

Lemma oracle_answer_roundtrip_witness :
  exists r r', demo_made.1 = Ok r /\ or_text r = demo_answer /\ parseResult demo_OL (or_text r) demo_spec = Ok r' /\
    or_unsigned r' = or_unsigned r /\ or_results r' = [Some "42"%string].
Proof.
  pose (r := answer_result demo_query 0 demo_results demo_sig).
  destruct (oracle_answer_roundtrip demo_OL demo_WB demo_libs toy_wallet demo_manager demo_spec demo_query 2 0 "42"
    demo_crypto r demo_made.2) as (_ & _ & _ & r' & Hp & Hu & _ & _ & Hr).
  - done.
  - done.
  - apply fst_run. by vm_compute.
  - split; [by vm_compute|by vm_compute|done|by repeat constructor].
  - by vm_compute.
  - exists r, r'. split; [by vm_compute|]. split; [done|]. split; [done|]. split; [done|]. by rewrite Hr.
Defined.

(** ** The run *)
Definition demo_ops : list (oracle_op demo_libs toy_wallet) :=
  [OpSubmit _ _ (request_text demo_query 2) 4] ++ (OpPost _ _ <$> demo_envelopes) ++ [OpAssembly _ _].

Definition demo_run : res unit * oracle demo_libs toy_wallet :=
  mapM_ (run_oracle_op demo_OL demo_WB demo_libs toy_wallet demo_manager demo_config) demo_ops (demo_oracle 6000).

Definition demo_check := checkOracleResult demo_libs toy_wallet demo_receipt demo_run.2.

Definition demo_report : string :=
  unsigned_text demo_query 0 demo_results +:+ field "sigs" +:+ "[null," +:+ quoted demo_sig +:+ "," +:+ quoted demo_sig +:+
  ",null]}".

(** Every node speaks for itself; node 1 is Byzantine. *)
Definition demo_sent (i : Z) (e : oracle_envelope) : Prop := e ∈ demo_envelopes /\ oe_srcSchainIndex e = i.

Lemma demo_signed : Forall (signed_by_member {[1]} (fun j i => j = i) demo_sent) (posted demo_libs toy_wallet demo_ops).
Proof.
  apply Forall_forall. intros e He. exists (oe_srcSchainIndex e). split; [done|]. intros _. by repeat split.
Qed.

Lemma oracle_result_confirmed_witness :
  demo_check.1 = Ok (ORACLE_SUCCESS, demo_report) /\
  exists u spec (X : gset Z), 2 <= zsize X /\
    (forall i, i ∈ X -> 1 <= i <= 4 /\ exists v,
      answered demo_OL (posted demo_libs toy_wallet demo_ops) demo_receipt spec i v /\ or_unsigned v = u) /\
    (exists i e answer v, i ∈ X /\ i ∉ ({[1]} : gset Z) /\ demo_sent i e /\ oe_srcSchainIndex e = i /\
       oe_message e = OracleResponseArrived answer demo_receipt /\ parseResult demo_OL answer spec = Ok v /\
       or_unsigned v = u) /\
    (exists rest, demo_report = u +:+ rest).
Proof.
  assert (demo_check.1 = Ok (ORACLE_SUCCESS, demo_report)) as Hc by (by vm_compute).
  split; [exact Hc|].
  apply (oracle_result_confirmed demo_OL demo_WB demo_libs toy_wallet demo_manager demo_config ltac:(cbn; lia) demo_ops
    demo_crypto [6000] [] [] demo_receipt demo_report {[1]} (fun j i => j = i) {[1]} demo_sent demo_run.2 demo_check.2).
  - repeat constructor; cbn; lia.
  - exact demo_signed.
  - split; [done|]. by intros j i Hj <-.
  - by vm_compute.
  - apply fst_run. by vm_compute.
  - apply fst_run. by vm_compute.
Defined.

Definition demo_submitted :=
  submitOracleRequest demo_OL demo_libs toy_wallet demo_config (request_text demo_query 2) 4 (demo_oracle 6000).

(** Later, with the answers in the queue. *)
Definition demo_waiting : oracle demo_libs toy_wallet :=
  set_times demo_libs toy_wallet [20000] (set_assembly demo_libs toy_wallet demo_envelopes demo_submitted.2).

Lemma demo_answer_ok : answer_ok demo_query 0 demo_results demo_sig.
Proof. split; [by vm_compute|by vm_compute|done|by repeat constructor]. Qed.

Lemma demo_handled e txt k :
  e ∈ demo_envelopes -> oe_message e = OracleResponseArrived txt k -> handled demo_OL txt.
Proof.
  intros He Hm. repeat (apply elem_of_cons in He as [-> |He]; [cbn in Hm; injection Hm as <- <-; by vm_compute|]).
  by apply elem_of_nil in He.
Qed.

Lemma demo_honest e txt :
  e ∈ demo_envelopes -> oe_srcSchainIndex e ∈ ({[2; 3; 4]} : gset Z) -> oe_message e = OracleResponseArrived txt demo_receipt ->
  txt = demo_answer.
Proof.
  intros He Hi Hm. apply elem_of_cons in He as [-> |He]; [cbn in Hi; set_solver|].
  repeat (apply elem_of_cons in He as [-> |He]; [cbn in Hm; by injection Hm as <-|]). by apply elem_of_nil in He.
Qed.

Lemma oracle_agreeing_answers_reported_witness :
  exists s3 rest s4, assemblyPass demo_OL demo_libs toy_wallet demo_config demo_waiting = (Ok tt, s3) /\
    checkOracleResult demo_libs toy_wallet demo_receipt s3 =
      (Ok (ORACLE_SUCCESS, unsigned_text demo_query 0 demo_results +:+ rest), s4).
Proof.
  destruct (oracle_agreeing_answers_reported demo_OL demo_libs toy_wallet demo_config demo_query 2 (request_text demo_query 2) 4
    6000 20000 demo_envelopes {[2; 3; 4]} 0 demo_results demo_receipt (demo_oracle 6000) demo_submitted.2 demo_waiting)
    as (s3 & reported & s4 & Hp & Hc & Hr).
  - cbn. lia.
  - done.
  - lia.
  - by apply lru_new_inv.
  - done.
  - done.
  - by vm_compute.
  - apply fst_run. by vm_compute.
  - done.
  - done.
  - done.
  - by vm_compute.
  - by vm_compute.
  - by vm_compute.
  - intros e He. repeat (apply elem_of_cons in He as [-> |He]; [cbn; lia|]). by apply elem_of_nil in He.
  - exact demo_handled.
  - intros e txt He Hi Hm. exists demo_sig. rewrite (demo_honest e txt He Hi Hm).
    split; [done|]. split; [exact demo_answer_ok|]. by vm_compute.
  - intros i Hi. assert (i = 2 \/ i = 3 \/ i = 4) as [-> |[-> | ->]] by set_solver.
    + eexists _, demo_answer. split; [right; left|done].
    + eexists _, demo_answer. split; [right; right; left|done].
    + eexists _, demo_answer. split; [right; right; right; left|done].
  - destruct (Hr ltac:(by vm_compute)) as [rest ->]. exists s3, rest, s4. split; [exact Hp|exact Hc].
Defined.

(** ** A signature of something else *)
Definition other_answer : OracleResult :=
  answer_result demo_query 0 [Some "41"%string] "other".
Definition split_votes : gmap Z OracleResult :=
  <[1 := other_answer]> (<[2 := answer_result demo_query 0 demo_results "two"]>
    {[3 := answer_result demo_query 0 demo_results "three"]}).
Definition split_received : OracleReceivedResults :=
  with_answer 1 other_answer (with_answer 2 (answer_result demo_query 0 demo_results "two")
    (with_answer 3 (answer_result demo_query 0 demo_results "three") (newReceivedResults demo_spec 3 4 6000 false))).

Lemma split_votes_ok : votes_ok 4 (fun _ _ => True) split_received split_votes.
Proof.
  unfold split_received, split_votes. apply with_answer_ok; [lia| |lia|done|by vm_compute].
  apply with_answer_ok; [lia| |lia|done|by vm_compute].
  rewrite <- insert_empty. apply with_answer_ok; [lia| |lia|done|by vm_compute]. apply new_votes_ok.
Qed.

Definition split_text : string := (tryGettingResult 7000 split_received).2.

Lemma oracle_foreign_signature_witness :
  exists l, split_text = unsigned_text demo_query 0 demo_results +:+ field "sigs" +:+ "[" +:+ joined l +:+ "]}" /\ zlen l = 4 /\
    zlen (filter (fun x => x <> "null"%string) l) <= 2 /\ l !! 0%nat = Some (quoted "other") /\
    2 <= zsize (voters split_votes (unsigned_text demo_query 0 demo_results)) /\
    1 ∉ voters split_votes (unsigned_text demo_query 0 demo_results).
Proof.
  apply (oracle_foreign_signature 4 (fun _ _ => True) split_received split_votes 7000 (unsigned_text demo_query 0 demo_results)
    1 other_answer split_text).
  - exact split_votes_ok.
  - done.
  - by vm_compute.
  - by vm_compute.
  - by vm_compute.
  - done.
  - intros j Hj. apply eq_None_not_Some. intros [v Hv]. apply (vo_range _ _ _ _ split_votes_ok) in Hv as [? _]. lia.
  - by vm_compute.
Defined.

(** ** Where the checks do not check *)

(** The start of an address is never refused: a text without a byte of value zero
    or one passes. *)
Lemma checkURI_any_start OL uri :
  5 < strlen uri <= ORACLE_MAX_URI_SIZE -> has_char (ascii_of_N 0) uri = false -> uri <> "eth://"%string ->
  checkURI OL true uri = Ok tt.
Proof.
  intros Hlen Hc Hne. unfold checkURI. rewrite (proj2 (Z.ltb_lt _ _)), (proj2 (Z.leb_le _ _)) by lia.
  apply String.eqb_neq in Hne. rewrite Hne. cbn [rcheck mbind res_bind negb andb].
  assert (forall p, find_char (ascii_of_N 0) uri p = None) as Hf.
  { clear Hlen Hne. induction uri as [|d uri IH]; intros p; [done|]. cbn [has_char find_char] in *.
    apply orb_false_iff in Hc as [Hd Hc]. rewrite Hd. by apply IH. }
  rewrite Hf. cbn [position_bool]. by rewrite orb_true_r.
Qed.

Example file_uri_accepted : checkURI demo_OL true "file:///etc/passwd" = Ok tt.
Proof. by vm_compute. Qed.

(** The address [to] of an Ethereum call is not checked. *)
Definition bad_call : list (string * rvalue) :=
  [("params", RArr [RObj [("from", RStr "0x00000000000000000000000000000000000000aa"); ("to", RStr "nobody");
     ("data", RStr "0x"); ("gas", RStr "0x1")]; RStr "latest"])]%string.

Example to_address_unchecked :
  is_ok (parseEthApiRequestSpec bad_call demo_spec) && negb (isValidEthHexAddressString "nobody") = true.
Proof. by vm_compute. Qed.

(** Quotes in a value are not escaped: one value and two values have the same
    signed text. *)
Example results_ambiguous :
  unsignedResult demo_spec 0 [Some ("a" +:+ dq +:+ "," +:+ dq +:+ "b")%string] =
  unsignedResult demo_spec 0 [Some "a"%string; Some "b"%string].
Proof. by vm_compute. Qed.

(** After a failed broadcast the receipt stays, and the retry is refused as a
    duplicate, although nobody was asked. *)
Definition failing_oracle : oracle demo_libs toy_wallet :=
  newOracle demo_libs toy_wallet demo_crypto [6000] [Err InvalidStateException] [].

Definition demo_submit := submitOracleRequest demo_OL demo_libs toy_wallet demo_config (request_text demo_query 2) 4.

Definition status (r : res (Z * string)) : option Z := match r with Ok x => Some x.1 | Err _ => None end.

Example failed_broadcast_blocks_retry :
  let '(first, s) := demo_submit failing_oracle in
  let '(second, s') := demo_submit s in
  (status first, status second, oc_out s') = (Some ORACLE_INTERNAL_SERVER_ERROR, Some ORACLE_DUPLICATE_REQUEST, []).
Proof. by vm_compute. Qed.

(** An answer of a node outside of the chain is counted. *)
Example outsider_counted :
  let '(r, s) := processResponseMessage demo_OL demo_libs toy_wallet demo_config 99 demo_answer demo_receipt demo_submitted.2 in
  (r, rr_signaturesBySchainIndex <$> lru_lookup (oc_receiptsMap s) demo_receipt) = (Ok tt, Some {[99 := demo_sig]}).
Proof. by vm_compute. Qed.

(** A text that is JSON but not an object is an undefined behaviour of the asking
    node. *)
Definition array_OL : oracle_libs :=
  {| ol_parse := fun s => if String.eqb s "[1,2]" then Some (RArr [RInt 1; RInt 2]) else ol_parse demo_OL s;
     ol_url := ol_url demo_OL; ol_inet := ol_inet demo_OL |}.

Example array_answer_undefined :
  (processResponseMessage array_OL demo_libs toy_wallet demo_config 2 "[1,2]" demo_receipt demo_submitted.2).1 =
  Err UndefinedBehavior.
Proof. by vm_compute. Qed.
