(* ===== verification/Monitoring.v ===== *)
(** * Monitoring

    Model of [StuckDetectionAgent], [MonitoringAgent] and [LivelinessMonitor]
    ([src/monitoring]).  What the other threads and the
    world do meanwhile is a function of the number of readings made so far. *)

From stdpp Require Import base tactics gmap list sorting strings.
From Stdlib Require Import ZArith Lia.
From S2P Require Import Prelude Bytes Blocks.

(** ** Stuck detection *)

(** The values that the agent reads, by the number of the reading. *)
Record stuck_world := {
  sw_clock : nat -> Z;
  sw_exit : nat -> bool;
  sw_lastCommitTimeMs : nat -> Z;
  sw_lastCommittedBlockID : nat -> Z;
  sw_blockTimeStampS : Z -> res Z;
  sw_sgxDown : nat -> bool;
  sw_connect : nat -> Z -> bool
}.

Record stuck_config := {
  sf_schainIndex : Z;
  sf_nodeCount : Z;
  sf_nodeID : Z;
  sf_startTimeMs : Z;
  sf_stuckRestartIntervalMs : Z;
  sf_healthCheckDir : string
}.

(** The databases that are destroyed before a restart. *)
Inductive stuck_db :=
  | IncomingMsgDB | OutgoingMsgDB | BlockSigShareDB_ | DaSigShareDB | DaProofDB_ | ConsensusStateDB_
  | ProposalVectorDB_ | RandomDB_.

Inductive stuck_output :=
  | Destroyed (db : stuck_db)
  | ProcessExited (code : Z).

Record stuck_agent := mkStuck {
  sa_step : nat;
  sa_files : gset string;
  sa_out : list stuck_output
}.

Section Stuck.
Context (W : stuck_world) (F : stuck_config).
Local Abbreviation state := stuck_agent.

Definition reading {A} (f : nat -> A) : M state A :=
  s ← get;
  put (mkStuck (S (sa_step s)) (sa_files s) (sa_out s)) ;;
  mret (f (sa_step s)).

Definition stuck_emit (o : stuck_output) : M state unit :=
  modify (fun s => mkStuck (sa_step s) (sa_files s) (sa_out s ++ [o])).

Definition stuck_now : M state Z := reading (sw_clock W).

Definition stuck_exitCheck : M state unit :=
  e ← reading (sw_exit W);
  if e : bool then throw ExitRequestedException else mret tt.

(** *** Files; every caller gives a positive iteration. *)
Definition restartFileName (blockID iteration : Z) : string :=
  sf_healthCheckDir F +:+ "/STUCK_RESTART" +:+ "." +:+ to_string (sf_nodeID F) +:+ "." +:+ to_string blockID +:+
  "." +:+ to_string iteration.

Fixpoint countRestarts (restartCounter : Z) (fuel : nat) : M state Z :=
  match fuel with
  | O => throw OutOfFuel
  | S fuel =>
      blockID ← reading (sw_lastCommittedBlockID W);
      s ← get;
      if bool_decide (restartFileName blockID (restartCounter + 1) ∈ sa_files s)
      then countRestarts (restartCounter + 1) fuel
      else mret restartCounter
  end.

Definition getNumberOfPreviousRestarts (fuel : nat) : M state Z := countRestarts 0 fuel.

Definition createStuckRestartFile (iteration : Z) : M state unit :=
  CHECK_STATE (1 <=? iteration) ;;
  blockID ← reading (sw_lastCommittedBlockID W);
  modify (fun s => mkStuck (sa_step s) ({[restartFileName blockID iteration]} ∪ sa_files s) (sa_out s)).

(** *** Connectivity *)
Fixpoint connectToNodes (indices : list Z) (connections : gset Z) : M state (gset Z) :=
  match indices with
  | [] => mret connections
  | i :: indices =>
      if negb (i =? sf_schainIndex F) && negb (bool_decide (i ∈ connections)) then
        e ← reading (sw_exit W);
        if e : bool then throw ExitRequestedException
        else
          c ← reading (fun n => sw_connect W n i);
          connectToNodes indices (if c : bool then {[i]} ∪ connections else connections)
      else connectToNodes indices connections
  end.

Definition enoughConnections (connections : gset Z) : bool :=
  negb (3 * (zsize connections + 1) <? 2 * sf_nodeCount F).

Definition currentTimeSec : M state Z :=
  t ← stuck_now;
  CHECK_STATE (t / 1000 <? MODERN_TIME + 1000000000) ;;
  mret (t / 1000).

Fixpoint connectLoop (beginTime : Z) (connections : gset Z) (fuel : nat) : M state bool :=
  match fuel with
  | O => throw OutOfFuel
  | S fuel =>
      if enoughConnections connections then mret true
      else
        now ← currentTimeSec;
        if 10 <? u64 (now - beginTime) then mret false
        else
          connections ← connectToNodes (seqZ 1 (sf_nodeCount F)) connections;
          connectLoop beginTime connections fuel
  end.

Definition checkNodesAreOnline (fuel : nat) : M state bool :=
  beginTime ← currentTimeSec;
  connectLoop beginTime ∅ fuel.

(** *** The check *)
Definition stuckCheck (restartIntervalMs timeStamp : Z) (fuel : nat) : M state bool :=
  currentTimeMs ← stuck_now;
  if restartIntervalMs <? u64 (currentTimeMs - sf_startTimeMs F) then
    lastCommit ← reading (sw_lastCommitTimeMs W);
    if restartIntervalMs <? u64 (currentTimeMs - lastCommit) then
      now ← stuck_now;
      if restartIntervalMs <? u64 (now - timeStamp) then checkNodesAreOnline fuel else mret false
    else mret false
  else mret false.

Definition cleanupState : M state unit :=
  mapM_ (fun db => stuck_emit (Destroyed db))
    [IncomingMsgDB; OutgoingMsgDB; BlockSigShareDB_; DaSigShareDB; DaProofDB_; ConsensusStateDB_; ProposalVectorDB_;
     RandomDB_].

(** The loop of the check: whether it held for a minute. *)
Fixpoint minuteLoop (startTimeMs restartIntervalMs timeStamp : Z) (fuel : nat) : M state bool :=
  match fuel with
  | O => throw OutOfFuel
  | S fuel' =>
      now ← stuck_now;
      if u64 (now - startTimeMs) <? 60000 then
        stuck_exitCheck ;;
        stuck ← stuckCheck restartIntervalMs timeStamp fuel;
        if stuck : bool then minuteLoop startTimeMs restartIntervalMs timeStamp fuel' else mret false
      else mret true
  end.

Definition stuckForAMinute (restartIntervalMs timeStamp : Z) (fuel : nat) : M state bool :=
  startTimeMs ← stuck_now;
  minuteLoop startTimeMs restartIntervalMs timeStamp fuel.

Definition doStuckCheckAndReturnTimeWhenToRestart (restartIteration : Z) (fuel : nat) : M state Z :=
  CHECK_STATE (1 <=? restartIteration) ;;
  blockID ← reading (sw_lastCommittedBlockID W);
  if blockID <? 2 then mret 0
  else
    down ← reading (sw_sgxDown W);
    if down : bool then mret 0
    else
      timeStampS ← lift_res (sw_blockTimeStampS W blockID);
      let lastBlockTimeStampMs := u64 (timeStampS * 1000) in
      stuck ← stuckForAMinute (sf_stuckRestartIntervalMs F) lastBlockTimeStampMs fuel;
      if negb (stuck : bool) then mret 0
      else
        cleanupState ;;
        mret (u64 (lastBlockTimeStampMs + sf_stuckRestartIntervalMs F + 120000)).

(** *** The restart *)
Fixpoint waitForRestart (restartTimeMs : Z) (fuel : nat) : M state unit :=
  match fuel with
  | O => throw OutOfFuel
  | S fuel =>
      now ← stuck_now;
      if now <? restartTimeMs then stuck_exitCheck ;; waitForRestart restartTimeMs fuel
      else mret tt
  end.

Definition restart (restartTimeMs iteration : Z) (fuel : nat) : M state unit :=
  CHECK_STATE (0 <? restartTimeMs) ;;
  waitForRestart restartTimeMs fuel ;;
  createStuckRestartFile iteration ;;
  stuck_emit (ProcessExited 13).

(** A turn of the loop: the time of the restart, [None] when the thread ends. *)
Definition stuckTurn (restartIteration : Z) (fuel : nat) : M state (option Z) := fun s =>
  match (stuck_exitCheck ;; doStuckCheckAndReturnTimeWhenToRestart restartIteration fuel) s with
  | (Ok t, s') => (Ok (Some t), s')
  | (Err ExitRequestedException, s') => (Ok None, s')
  | (Err OutOfFuel, s') => (Err OutOfFuel, s')
  | (Err UndefinedBehavior, s') => (Err UndefinedBehavior, s')
  | (Err _, s') => (Ok (Some 0), s')
  end.

Fixpoint stuckTurns (restartIteration : Z) (turns fuel : nat) : M state (option Z) :=
  match turns with
  | O => throw OutOfFuel
  | S turns =>
      r ← stuckTurn restartIteration fuel;
      match r with
      | None => mret None
      | Some whenToRestart =>
          if whenToRestart =? 0 then stuckTurns restartIteration turns fuel else mret (Some whenToRestart)
      end
  end.

(** An exit that is requested ends the thread. *)
Definition until_exit (c : M state unit) : M state unit := fun s =>
  match c s with
  | (Err ExitRequestedException, s') => (Ok tt, s')
  | r => r
  end.

Definition stuckDetectionLoop (turns fuel : nat) : M state unit :=
  numberOfPreviousRestarts ← getNumberOfPreviousRestarts fuel;
  let restartIteration := numberOfPreviousRestarts + 1 in
  r ← stuckTurns restartIteration turns fuel;
  match r with
  | None => mret tt
  | Some whenToRestart => until_exit (restart whenToRestart restartIteration fuel)
  end.
End Stuck.

(** ** Liveliness monitors *)

(** The object that the macro [MONITOR] creates at the start of a function. *)
Record LivelinessMonitor := mkLiveliness {
  lm_name : string;
  lm_startTime : Z;
  lm_expiryTime : Z
}.

(** The counter of all monitors, the monitors that exist, those that are
    registered (as weak pointers), and the warnings: a name and a time. *)
Record monitoring := mkMonitoring {
  mo_counter : Z;
  mo_monitors : gmap Z LivelinessMonitor;
  mo_active : gset Z;
  mo_warnings : list (string * Z);
  mo_step : nat
}.

Section Liveliness.
Context (clock : nat -> Z) (exits : nat -> bool).
Local Abbreviation state := monitoring.

Definition mo_reading {A} (f : nat -> A) : M state A :=
  s ← get;
  put (mkMonitoring (mo_counter s) (mo_monitors s) (mo_active s) (mo_warnings s) (S (mo_step s))) ;;
  mret (f (mo_step s)).

(** The identifier of the new monitor. *)
Definition newLivelinessMonitor (name : string) (maxTime : Z) : M state Z :=
  startTime ← mo_reading clock;
  s ← get;
  put (mkMonitoring (u64 (mo_counter s + 1))
    (<[mo_counter s := mkLiveliness name startTime (u64 (startTime + maxTime))]> (mo_monitors s)) (mo_active s)
    (mo_warnings s) (mo_step s)) ;;
  mret (mo_counter s).

Definition registerMonitor (id : Z) : M state unit :=
  modify (fun s => mkMonitoring (mo_counter s) (mo_monitors s) ({[id]} ∪ mo_active s) (mo_warnings s) (mo_step s)).

Definition unregisterMonitor (id : Z) : M state unit :=
  modify (fun s => mkMonitoring (mo_counter s) (mo_monitors s) (mo_active s ∖ {[id]}) (mo_warnings s) (mo_step s)).

Definition destroyLivelinessMonitor (id : Z) : M state unit :=
  unregisterMonitor id ;;
  modify (fun s => mkMonitoring (mo_counter s) (delete id (mo_monitors s)) (mo_active s) (mo_warnings s) (mo_step s)).

Definition destroying {A} (id : Z) (c : M state A) : M state A := fun s =>
  let '(r, s') := c s in (r, (destroyLivelinessMonitor id s').2).

(** A function with the macro [MONITOR2]; the monitor is destroyed however the
    function ends. *)
Definition monitored {A} (name : string) (maxTime : Z) (c : M state A) : M state A :=
  id ← newLivelinessMonitor name maxTime;
  registerMonitor id ;;
  destroying id c.

(** The pass over the copy of the registered monitors, in the order of the
    identifiers. *)
Fixpoint checkMonitors (ids : list Z) : M state unit :=
  match ids with
  | [] => mret tt
  | id :: ids =>
      e ← mo_reading exits;
      if e : bool then mret tt
      else
        s ← get;
        match mo_monitors s !! id with
        | Some m =>
            currentTime ← mo_reading clock;
            when (lm_expiryTime m <? currentTime)
              (modify (fun s => mkMonitoring (mo_counter s) (mo_monitors s) (mo_active s)
                (mo_warnings s ++ [(lm_name m, u64 (currentTime - lm_startTime m))]) (mo_step s))) ;;
            checkMonitors ids
        | None => checkMonitors ids
        end
  end.

Definition monitor (isOnTravis : bool) : M state unit :=
  if isOnTravis then mret tt
  else s ← get; checkMonitors (merge_sort Z.le (elements (mo_active s))).
End Liveliness.
