(* ===== verification/MonitoringTheorems.v ===== *)
(** * Properties of the monitoring threads

    A node restarts only when the chain has stood still and enough nodes can be
    reached, and then it does restart; a monitored function leaves no monitor
    behind, and warnings concern functions that have outlived their time. *)

From stdpp Require Import base tactics gmap list strings.
From Stdlib Require Import ZArith Lia.
From S2P Require Import Prelude Bytes Blocks Monitoring.

(** ** Stuck detection *)
Section Stuck.
Context (W : stuck_world) (F : stuck_config).
Implicit Types s : stuck_agent.

(** What a reading leaves alone. *)
Record frame s s' : Prop := {
  fr_out : sa_out s' = sa_out s;
  fr_files : sa_files s' = sa_files s;
  fr_step : (sa_step s <= sa_step s')%nat
}.

Lemma frame_refl s : frame s s.
Proof. by constructor. Qed.

Lemma frame_trans s1 s2 s3 : frame s1 s2 -> frame s2 s3 -> frame s1 s3.
Proof. intros [? ? ?] [? ? ?]. constructor; [congruence..|lia]. Qed.

(** The state after a reading. *)
Definition tick s : stuck_agent := mkStuck (S (sa_step s)) (sa_files s) (sa_out s).

Lemma frame_tick s : frame s (tick s).
Proof. constructor; cbn; [done..|lia]. Qed.

Lemma wp_reading {A} (f : nat -> A) s Q : wp (reading f) s Q <-> Q (Ok (f (sa_step s))) (tick s).
Proof. done. Qed.

(** A computation that only reads, with [Q] for its result. *)
Definition reads {A} (c : M stuck_agent A) s (Q : res A -> Prop) : Prop :=
  wp c s (fun r s' => frame s s' /\ Q r).

Lemma reads_wp {A} (c : M stuck_agent A) s (P : res A -> Prop) (Q : res A -> stuck_agent -> Prop) :
  reads c s P -> (forall r s', frame s s' -> P r -> Q r s') -> wp c s Q.
Proof. intros [Hf HP] Hk. by apply Hk. Qed.

Lemma reads_bind {A B} (c : M stuck_agent A) (k : A -> M stuck_agent B) s P Q :
  reads c s P -> (forall a s', frame s s' -> P (Ok a) -> reads (k a) s' Q) -> (forall e, P (Err e) -> Q (Err e)) ->
  reads (c ≫= k) s Q.
Proof.
  intros Hc Hk He. unfold reads. rewrite wp_bind. eapply wp_mono with (Q := fun r s' => frame s s' /\ P r); [exact Hc|]. cbn beta. intros [a|e] s' [Hf HP].
  - apply (reads_wp _ _ _ _ (Hk a s' Hf HP)). intros r s2 Hf2 HQ. split; [by eapply frame_trans|done].
  - split; [done|by apply He].
Qed.

Lemma reads_reading {A B} (f : nat -> A) (k : A -> M stuck_agent B) s Q :
  reads (k (f (sa_step s))) (tick s) Q -> reads (reading f ≫= k) s Q.
Proof.
  intros Hk. unfold reads in *. rewrite wp_bind, wp_reading. eapply wp_mono with (Q := fun r s2 => frame (tick s) s2 /\ Q r); [exact Hk|]. cbn beta.
  intros r s' [Hf HQ]. split; [|done]. eapply frame_trans; [apply frame_tick|done].
Qed.

Lemma reads_now {B} (k : Z -> M stuck_agent B) s Q :
  reads (k (sw_clock W (sa_step s))) (tick s) Q -> reads (stuck_now W ≫= k) s Q.
Proof. apply reads_reading. Qed.

Lemma reads_sec {B} (k : Z -> M stuck_agent B) s Q :
  (sw_clock W (sa_step s) / 1000 < MODERN_TIME + 1000000000 -> reads (k (sw_clock W (sa_step s) / 1000)) (tick s) Q) ->
  (MODERN_TIME + 1000000000 <= sw_clock W (sa_step s) / 1000 -> Q (Err InvalidStateException)) ->
  reads (currentTimeSec W ≫= k) s Q.
Proof.
  intros Hk He. unfold reads, currentTimeSec. rewrite !wp_bind. unfold stuck_now. rewrite wp_reading, wp_bind, wp_check.
  split; intros Ht; [|split; [apply frame_tick|by apply He, Z.ltb_ge]].
  rewrite wp_ret. eapply reads_wp; [by apply Hk, Z.ltb_lt|]. intros r s' Hf HQ.
  split; [by eapply frame_trans; [apply frame_tick|]|done].
Qed.

Lemma reads_get {B} (k : stuck_agent -> M stuck_agent B) s Q : reads (k s) s Q -> reads (get ≫= k) s Q.
Proof. done. Qed.

Lemma reads_ret {A} (a : A) s (Q : res A -> Prop) : Q (Ok a) -> reads (mret a) s Q.
Proof. intros HQ. split; [apply frame_refl|done]. Qed.

Lemma reads_throw {A} e s (Q : res A -> Prop) : Q (Err e) -> reads (throw e) s Q.
Proof. intros HQ. split; [apply frame_refl|done]. Qed.

Lemma reads_weaken {A} (c : M stuck_agent A) s (P Q : res A -> Prop) :
  reads c s P -> (forall r, P r -> Q r) -> reads c s Q.
Proof. intros [Hf HP] HPQ. split; auto. Qed.

(** *** Without reason there is no restart *)

(** The peers that ever answer. *)
Definition answering (R : gset Z) : Prop := forall n i, sw_connect W n i = true -> i ∈ R.

Lemma connectToNodes_reads R indices X s :
  answering R -> X ⊆ R ->
  reads (connectToNodes W F indices X) s (fun r => forall Y, r = Ok Y -> Y ⊆ R).
Proof.
  intros HR. revert X s. induction indices as [|i indices IH]; intros X s HX; cbn [connectToNodes].
  { apply reads_ret. by intros Y [= <-]. }
  destruct (negb _ && negb _); [|by apply IH]. apply reads_reading.
  destruct (sw_exit W _); [by apply reads_throw|]. apply reads_reading. apply IH.
  destruct (sw_connect W _ i) eqn:Hc; [|done]. apply HR in Hc. set_solver.
Qed.

Lemma connectLoop_reads R begin X s fuel :
  answering R -> X ⊆ R -> 3 * (zsize R + 1) < 2 * sf_nodeCount F ->
  reads (connectLoop W F begin X fuel) s (fun r => r <> Ok true).
Proof.
  intros HR HX Hfew. revert X s HX. induction fuel as [|fuel IH]; intros X s HX; cbn [connectLoop]; [by apply reads_throw|].
  assert (enoughConnections F X = false) as ->.
  { unfold enoughConnections. apply negb_false_iff, Z.ltb_lt.
    apply zsize_subseteq in HX. lia. }
  apply reads_sec; [intros _|done]. destruct (10 <? _); [by apply reads_ret|].
  eapply reads_bind; [by apply connectToNodes_reads| |by intros e _].
  intros Y s' _ HY. apply IH. by apply HY.
Qed.

(** A reason not to restart: a block was committed within the interval, whenever
    one looks, or too few nodes can be reached. *)
Definition alive : Prop :=
  forall n, 0 <= sw_clock W n - sw_lastCommitTimeMs W (S n) <= sf_stuckRestartIntervalMs F.

Definition isolated : Prop := exists R, answering R /\ 3 * (zsize R + 1) < 2 * sf_nodeCount F.

Context (Hrange : 0 <= sf_stuckRestartIntervalMs F < 2 ^ 64).

Lemma stuckCheck_reads ts fuel s :
  alive \/ isolated -> reads (stuckCheck W F (sf_stuckRestartIntervalMs F) ts fuel) s (fun r => r <> Ok true).
Proof.
  intros Hwhy. unfold stuckCheck. apply reads_now. destruct (_ <? u64 _); [|by apply reads_ret]. apply reads_reading. cbn [tick sa_step].
  destruct (_ <? u64 _) eqn:Hc; [|by apply reads_ret]. apply Z.ltb_lt in Hc.
  destruct Hwhy as [Ha|(R & HR & Hfew)].
  - specialize (Ha (sa_step s)). rewrite u64_small in Hc by lia. lia.
  - apply reads_now. destruct (_ <? u64 _); [|by apply reads_ret]. unfold checkNodesAreOnline. apply reads_sec; [intros _|done].
    eapply connectLoop_reads; [done|set_solver|done].
Qed.

(** The clock does not jump by a minute between two readings. *)
Definition smooth : Prop := forall n, 0 <= sw_clock W (S n) - sw_clock W n < 60000.

Lemma minute_reads ts fuel s :
  smooth -> alive \/ isolated ->
  reads (stuckForAMinute W F (sf_stuckRestartIntervalMs F) ts fuel) s
    (fun r => r <> Ok true).
Proof.
  intros Hsm Hwhy. unfold stuckForAMinute. apply reads_now. destruct fuel as [|fuel]; cbn [minuteLoop]; [by apply reads_throw|].
  apply reads_now. cbn [tick sa_step]. pose proof (Hsm (sa_step s)) as Hj.
  rewrite u64_small, (proj2 (Z.ltb_lt _ _)) by lia.
  eapply (reads_bind _ _ _ (fun _ => True)); [| |by intros e _].
  - unfold stuck_exitCheck. apply reads_reading. destruct (sw_exit W _); [by apply reads_throw|by apply reads_ret].
  - intros _ s' _ _. eapply reads_bind; [by apply stuckCheck_reads| |by intros e _].
    intros [] s2 _ Hr; [done|by apply reads_ret].
Qed.

(** A reason for the whole run. *)
Definition no_reason : Prop :=
  (smooth /\ (alive \/ isolated)) \/ (forall n, sw_sgxDown W n = true) \/ (forall n, sw_lastCommittedBlockID W n < 2).

Lemma doStuckCheck_reads i fuel s :
  no_reason ->
  reads (doStuckCheckAndReturnTimeWhenToRestart W F i fuel) s (fun r => forall t, r = Ok t -> t = 0).
Proof.
  intros Hwhy. unfold doStuckCheckAndReturnTimeWhenToRestart, check. destruct (1 <=? i); [|by apply reads_throw].
  change (mret tt ≫= ?k) with (k tt). apply reads_reading. destruct (Z.ltb_spec (sw_lastCommittedBlockID W (sa_step s)) 2) as [Hb|Hb];
    [apply reads_ret; by intros t [= <-]|]. apply reads_reading.
  destruct (sw_sgxDown W _) eqn:Hd; [apply reads_ret; by intros t [= <-]|].
  destruct Hwhy as [[Hsm Hwhy]|[Hwhy|Hwhy]]; [|by rewrite Hwhy in Hd|specialize (Hwhy (sa_step s)); lia].
  destruct (sw_blockTimeStampS W _) as [ts|e]; [|by apply (reads_throw e)]. change (lift_res (Ok ts) ≫= ?k) with (k ts).
  cbv zeta.
  eapply reads_bind; [by apply minute_reads| |done]. intros [] s' _ Hr; [done|]. apply reads_ret. by intros t [= <-].
Qed.

Lemma countRestarts_reads n fuel s : reads (countRestarts W F n fuel) s (fun _ => True).
Proof.
  revert n s. induction fuel as [|fuel IH]; intros n s; cbn [countRestarts]; [by apply reads_throw|].
  apply reads_reading, reads_get.
  destruct (bool_decide _); [apply IH|by apply reads_ret].
Qed.

Lemma stuckTurn_reads i fuel s :
  no_reason -> reads (stuckTurn W F i fuel) s (fun r => forall t, r = Ok (Some t) -> t = 0).
Proof.
  intros Hwhy. unfold stuckTurn.
  assert (reads (stuck_exitCheck W ;; doStuckCheckAndReturnTimeWhenToRestart W F i fuel) s (fun r => forall t, r = Ok t -> t = 0)) as Hc.
  { eapply (reads_bind _ _ _ (fun _ => True)); [| |by intros e _].
    - unfold stuck_exitCheck. apply reads_reading. destruct (sw_exit W _); [by apply reads_throw|by apply reads_ret].
    - intros _ s' _ _. by apply doStuckCheck_reads. }
  unfold reads, wp in Hc |- *.
  destruct ((stuck_exitCheck W ≫= fun _ => doStuckCheckAndReturnTimeWhenToRestart W F i fuel) s) as [r s'].
  cbn in Hc. destruct Hc as [Hf Ht].
  destruct r as [t|e]; [split; [done|]; intros t' [= <-]; by apply Ht|].
  destruct e; (split; [done|]); by try intros t [= <-].
Qed.

Lemma stuckTurns_reads i turns fuel s :
  no_reason -> reads (stuckTurns W F i turns fuel) s (fun r => forall t, r <> Ok (Some t)).
Proof.
  intros Hwhy. revert s. induction turns as [|turns IH]; intros s; cbn [stuckTurns]; [by apply reads_throw|].
  eapply reads_bind; [by apply stuckTurn_reads| |by intros e _]. intros [t|] s' _ Ht; [|by apply reads_ret].
  rewrite (Ht t eq_refl). apply IH.
Qed.

Lemma stuckDetectionLoop_reads turns fuel s : no_reason -> reads (stuckDetectionLoop W F turns fuel) s (fun _ => True).
Proof.
  intros Hwhy. unfold stuckDetectionLoop. eapply (reads_bind _ _ _ (fun _ => True)); [apply countRestarts_reads| |done].
  intros n s' _ _. eapply reads_bind; [by apply stuckTurns_reads| |done]. intros [t|] s2 _ Hr; [by destruct (Hr t)|by apply reads_ret].
Qed.
End Stuck.

(** *** A stuck chain restarts *)
Section Restarting.
Context (W : stuck_world) (F : stuck_config).
Implicit Types s : stuck_agent.
Context (k0 r : nat) (R : gset Z) (b ts : Z).
Local Abbreviation I := (sf_stuckRestartIntervalMs F).

(** From the reading [k0] on nothing is committed, all reasons to restart hold,
    and the clock advances, at least by one with every [r] readings, but less than
    ten seconds between two of them. *)
Record stuck : Prop := {
  sk_mono : forall n, 0 <= sw_clock W (S n) - sw_clock W n < 10000;
  sk_rate : forall n, sw_clock W n < 2 ^ 41 -> sw_clock W n + 1 <= sw_clock W (n + r);
  sk_small : forall n, 0 <= sw_clock W n <= 2 ^ 41;
  sk_exit : forall n, sw_exit W n = false;
  sk_sgx : forall n, sw_sgxDown W n = false;
  sk_interval : 0 <= I;
  sk_commit : forall n, 0 <= sw_lastCommitTimeMs W n /\ sw_lastCommitTimeMs W n + I < sw_clock W k0;
  sk_start : 0 <= sf_startTimeMs F /\ sf_startTimeMs F + I < sw_clock W k0;
  sk_block : 2 <= b /\ forall n, sw_lastCommittedBlockID W n = b;
  sk_time : sw_blockTimeStampS W b = Ok ts /\ 0 <= ts /\ ts * 1000 + I < sw_clock W k0;
  sk_peers : forall i, i ∈ R -> 1 <= i <= sf_nodeCount F /\ i <> sf_schainIndex F /\ forall n, sw_connect W n i = true;
  sk_enough : 2 * sf_nodeCount F <= 3 * (zsize R + 1)
}.

Context (Hk : stuck).

Lemma clock_mono m n : (m <= n)%nat -> sw_clock W m <= sw_clock W n.
Proof. induction 1 as [|n _ IH]; [lia|]. pose proof (sk_mono Hk n). lia. Qed.

Lemma clock_after n d : sw_clock W n + Z.of_nat d <= 2 ^ 41 -> sw_clock W n + Z.of_nat d <= sw_clock W (n + d * r).
Proof.
  induction d as [|d IH]; intros Hd; [rewrite Nat.add_0_r; lia|]. assert (sw_clock W n + Z.of_nat d <= sw_clock W (n + d * r)) as H1 by lia.
  destruct (decide (sw_clock W (n + d * r) < 2 ^ 41)) as [Hlt|Hge].
  - pose proof (sk_rate Hk _ Hlt). replace (n + S d * r)%nat with (n + d * r + r)%nat by lia. lia.
  - pose proof (clock_mono (n + d * r) (n + S d * r)). lia.
Qed.

(** *** Peers *)
Lemma connectToNodes_all indices X s :
  reads (connectToNodes W F indices X) s (fun q => exists Y, q = Ok Y /\ X ⊆ Y /\ forall i, i ∈ R -> i ∈ indices -> i ∈ Y).
Proof.
  revert X s. induction indices as [|i indices IH]; intros X s; cbn [connectToNodes].
  { apply reads_ret. exists X. split_and!; [done..|]. by intros i _ ?%elem_of_nil. }
  destruct (negb (i =? sf_schainIndex F) && negb (bool_decide (i ∈ X))) eqn:Hc.
  - apply reads_reading. rewrite (sk_exit Hk). apply reads_reading. eapply reads_weaken; [apply IH|].
    intros q (Y & -> & HY & Hall). exists Y. split; [done|]. split; [by destruct (sw_connect W _ i); set_solver|].
    intros j Hj [-> |Hin]%elem_of_cons; [|by apply Hall]. apply HY. destruct (sk_peers Hk i Hj) as (_ & _ & ->). set_solver.
  - eapply reads_weaken; [apply IH|]. intros q (Y & -> & HY & Hall). exists Y. split; [done|]. split; [done|].
    intros j Hj [-> |Hin]%elem_of_cons; [|by apply Hall]. destruct (sk_peers Hk i Hj) as (_ & Hne & _).
    apply Z.eqb_neq in Hne. rewrite Hne in Hc. cbn in Hc. apply negb_false_iff, bool_decide_eq_true in Hc. by apply HY.
Qed.

Lemma enough_mono X Y : X ⊆ Y -> 2 * sf_nodeCount F <= 3 * (zsize X + 1) -> enoughConnections F Y = true.
Proof.
  unfold enoughConnections. intros Hs%zsize_subseteq Hx. apply negb_true_iff, Z.ltb_ge. lia.
Qed.

Lemma online_reads fuel s : (2 <= fuel)%nat -> reads (checkNodesAreOnline W F fuel) s (fun q => q = Ok true).
Proof.
  intros Hf. destruct fuel as [|[|fuel]]; [lia..|]. unfold checkNodesAreOnline.
  assert (forall n, sw_clock W n / 1000 < MODERN_TIME + 1000000000) as Hmodern.
  { intros n. pose proof (sk_small Hk n). unfold MODERN_TIME. apply Z.div_lt_upper_bound; lia. }
  apply reads_sec; [intros _|intros Hm; specialize (Hmodern (sa_step s)); lia]. cbn [connectLoop].
  destruct (enoughConnections F ∅); [by apply reads_ret|].
  apply reads_sec; [intros _|intros Hm; specialize (Hmodern (sa_step (tick s))); lia]. cbn [tick sa_step].
  pose proof (sk_mono Hk (sa_step s)) as Hm. pose proof (sk_small Hk (sa_step s)). pose proof (sk_small Hk (S (sa_step s))).
  set (x := sw_clock W (sa_step s)) in *. set (y := sw_clock W (S (sa_step s))) in *.
  pose proof (Z.div_le_mono x y 1000 ltac:(lia) ltac:(lia)). pose proof (Z.div_le_mono y (x + 10 * 1000) 1000 ltac:(lia) ltac:(lia)) as Hd.
  rewrite Z.div_add in Hd by lia. pose proof (Z.div_pos x 1000). pose proof (Z.div_le_upper_bound x 1000 (2 ^ 41)).
  rewrite u64_small, (proj2 (Z.ltb_ge _ _)) by lia.
  eapply reads_bind; [apply connectToNodes_all| |by intros e (? & ? & _)]. intros Y s' _ (Y' & [= <-] & _ & Hall).
  rewrite (enough_mono R Y); [by apply reads_ret| |apply (sk_enough Hk)].
  intros i Hi. apply Hall; [done|]. apply elem_of_seqZ. pose proof (sk_peers Hk i Hi) as [? _]. lia.
Qed.

(** *** The checks *)
Lemma since_small x n : 0 <= x -> x + I < sw_clock W k0 -> (k0 <= n)%nat -> (I <? u64 (sw_clock W n - x)) = true.
Proof.
  intros Hx Hlt Hn. pose proof (clock_mono k0 n Hn). pose proof (sk_small Hk n). pose proof (sk_interval Hk).
  rewrite u64_small by lia. apply Z.ltb_lt. lia.
Qed.

Lemma stuckCheck_true fuel s :
  (2 <= fuel)%nat -> (k0 <= sa_step s)%nat -> reads (stuckCheck W F I (ts * 1000) fuel) s (fun q => q = Ok true).
Proof.
  intros Hf Hs. unfold stuckCheck. apply reads_now. rewrite since_small by (apply (sk_start Hk) || done).
  apply reads_reading. cbn [tick sa_step]. destruct (sk_commit Hk (S (sa_step s))) as [H0 Hc]. rewrite since_small by done.
  apply reads_now. cbn [tick sa_step]. destruct (sk_time Hk) as (_ & Ht & Hlt). rewrite since_small by lia. by apply online_reads.
Qed.

Lemma minuteLoop_true start N fuel s :
  (forall n, (N <= n)%nat -> start + 60000 <= sw_clock W n) -> sw_clock W k0 <= start -> start <= sw_clock W (sa_step s) ->
  (k0 <= sa_step s)%nat -> (N + 2 < fuel + sa_step s)%nat -> (2 < fuel)%nat ->
  reads (minuteLoop W F start I (ts * 1000) fuel) s (fun q => q = Ok true).
Proof.
  intros HN Hst. revert s. induction fuel as [|fuel IH]; intros s Hle Hs Hf Hf2; [lia|]. cbn [minuteLoop]. apply reads_now.
  pose proof (sk_small Hk (sa_step s)). pose proof (sk_small Hk k0). rewrite u64_small by lia. destruct (Z.ltb_spec (sw_clock W (sa_step s) - start) 60000) as [Hlt|_];
    [|by apply reads_ret].
  assert (sa_step s < N)%nat as Hn by (destruct (decide (N <= sa_step s)%nat) as [Hge|]; [apply HN in Hge; lia|lia]).
  eapply (reads_bind _ _ _ (fun q => q = Ok tt)); [|intros _ s' Hfr _|done].
  { unfold stuck_exitCheck. apply reads_reading. rewrite (sk_exit Hk). by apply reads_ret. }
  destruct Hfr as [_ _ Hs']. cbn [tick sa_step] in Hs'.
  eapply reads_bind; [apply stuckCheck_true; lia|intros q s2 [_ _ Hs2] [= ->]|done].
  apply IH; [|lia..]. pose proof (clock_mono (sa_step s) (sa_step s2)). lia.
Qed.

Lemma waitForRestart_ends X N fuel s :
  (forall n, (N <= n)%nat -> X <= sw_clock W n) -> (N < fuel + sa_step s)%nat -> (0 < fuel)%nat ->
  reads (waitForRestart W X fuel) s (fun q => q = Ok tt).
Proof.
  intros HN. revert s. induction fuel as [|fuel IH]; intros s Hf Hf2; [lia|]. cbn [waitForRestart]. apply reads_now.
  destruct (Z.ltb_spec (sw_clock W (sa_step s)) X) as [Hlt|_]; [|by apply reads_ret].
  assert (sa_step s < N)%nat as Hn by (destruct (decide (N <= sa_step s)%nat) as [Hge|]; [apply HN in Hge; lia|lia]).
  eapply (reads_bind _ _ _ (fun q => q = Ok tt)); [|intros _ s' [_ _ Hs'] _|done].
  { unfold stuck_exitCheck. apply reads_reading. rewrite (sk_exit Hk). by apply reads_ret. }
  cbn [tick sa_step] in Hs'. apply IH; lia.
Qed.

(** *** Counting restarts *)
Lemma restartFileName_inj i j :
  0 <= i -> 0 <= j -> restartFileName F b i = restartFileName F b j -> i = j.
Proof. intros Hi Hj Heq. unfold restartFileName in Heq. repeat apply (inj (String.append _)) in Heq. by apply to_string_inj. Qed.

(** The files of the first [c] restarts are there. *)
Definition restarted (c : Z) (files : gset string) : Prop := forall j, 1 <= j <= c -> restartFileName F b j ∈ files.

Lemma restarted_bound c files : 0 <= c -> restarted c files -> c <= zsize files.
Proof.
  intros Hc Hr. assert (list_to_set (restartFileName F b <$> seqZ 1 c) ⊆ files) as Hs.
  { intros x Hx. apply elem_of_list_to_set, list_elem_of_fmap in Hx as (j & -> & Hj%elem_of_seqZ). apply Hr. lia. }
  apply subseteq_size in Hs. unfold zsize. rewrite size_list_to_set, length_fmap, length_seqZ in Hs; [lia|].
  apply NoDup_fmap_2_strong; [|apply NoDup_seqZ]. intros i j Hi%elem_of_seqZ Hj%elem_of_seqZ. apply restartFileName_inj; lia.
Qed.

Lemma countRestarts_ok c fuel s :
  0 <= c -> restarted c (sa_files s) -> zsize (sa_files s) - c < Z.of_nat fuel ->
  wp (countRestarts W F c fuel) s (fun q s' => exists k, q = Ok k /\ 0 <= k /\ restarted k (sa_files s) /\
    restartFileName F b (k + 1) ∉ sa_files s /\ frame s s' /\
    Z.of_nat (sa_step s') <= Z.of_nat (sa_step s) + (zsize (sa_files s) - c) + 1).
Proof.
  revert c s. induction fuel as [|fuel IH]; intros c s Hc Hr Hf; [pose proof (restarted_bound c _ Hc Hr); lia|].
  cbn [countRestarts]. rewrite wp_bind, wp_reading. destruct (sk_block Hk) as [_ ->]. rewrite wp_bind, wp_get. cbn [tick sa_files].
  destruct (bool_decide _) eqn:Hin.
  - apply bool_decide_eq_true in Hin.
    assert (restarted (c + 1) (sa_files (tick s))) as Hr1 by (intros j Hj; destruct (decide (j = c + 1)) as [-> |]; [done|apply Hr; lia]).
    eapply wp_mono; [apply IH; [lia|done|cbn; lia]|]. cbn beta. intros q s' (k & -> & H0 & H1 & H2 & H3 & H4).
    exists k. split_and!; [done..|by eapply frame_trans; [apply frame_tick|]|]. cbn in H4. lia.
  - apply bool_decide_eq_false in Hin. rewrite wp_ret. exists c. split_and!; [done..|apply frame_tick|].
    pose proof (restarted_bound c _ Hc Hr). cbn. lia.
Qed.

(** *** The turn *)
Lemma cleanupState_run s :
  cleanupState s = (Ok tt, mkStuck (sa_step s) (sa_files s) (sa_out s ++ [Destroyed IncomingMsgDB; Destroyed OutgoingMsgDB;
    Destroyed BlockSigShareDB_; Destroyed DaSigShareDB; Destroyed DaProofDB_; Destroyed ConsensusStateDB_;
    Destroyed ProposalVectorDB_; Destroyed RandomDB_])).
Proof.
  unfold cleanupState. cbn [mapM_]. unfold mbind, M_bind, stuck_emit, modify, mret, M_ret. cbn.
  by rewrite <- !app_assoc.
Qed.

Definition destroyed : list stuck_output :=
  Destroyed <$> [IncomingMsgDB; OutgoingMsgDB; BlockSigShareDB_; DaSigShareDB; DaProofDB_; ConsensusStateDB_; ProposalVectorDB_;
    RandomDB_].

(** When the process is to be restarted. *)
Definition restart_time : Z := ts * 1000 + I + 120000.

Lemma restart_time_small : 0 < restart_time < 2 ^ 64 /\ u64 (u64 (ts * 1000) + I + 120000) = restart_time /\ u64 (ts * 1000) = ts * 1000.
Proof.
  unfold restart_time. destruct (sk_time Hk) as (_ & H0 & Hlt). pose proof (sk_small Hk k0). pose proof (sk_interval Hk).
  rewrite (u64_small (ts * 1000)) by lia. rewrite u64_small by lia. lia.
Qed.

Lemma doStuckCheck_restarts i fuel s :
  1 <= i -> (k0 <= sa_step s)%nat -> sw_clock W (S (S (sa_step s))) + 200000 <= 2 ^ 41 -> 60000 * Z.of_nat r + 4 < Z.of_nat fuel ->
  wp (doStuckCheckAndReturnTimeWhenToRestart W F i fuel) s (fun q s' => q = Ok restart_time /\
    sa_out s' = sa_out s ++ destroyed /\ sa_files s' = sa_files s /\ (sa_step s <= sa_step s')%nat).
Proof.
  intros Hi Hs Hh Hf. unfold doStuckCheckAndReturnTimeWhenToRestart. rewrite wp_bind, wp_check. split; [intros _|intros ?%Z.leb_gt; lia].
  rewrite wp_bind, wp_reading. destruct (sk_block Hk) as [Hb ->]. rewrite (proj2 (Z.ltb_ge b 2)) by lia.
  rewrite wp_bind, wp_reading, (sk_sgx Hk), wp_bind, wp_lift. destruct (sk_time Hk) as (-> & _ & _). cbv zeta.
  destruct restart_time_small as (_ & Hrt & Hts). rewrite wp_bind, Hts.
  set (m := S (S (sa_step s))) in *.
  assert (reads (stuckForAMinute W F I (ts * 1000) fuel) (tick (tick s)) (fun q => q = Ok true)) as Hst.
  { unfold stuckForAMinute. apply reads_now. cbn [tick sa_step]. fold m. apply minuteLoop_true with (N := (m + Z.to_nat 60000 * r)%nat); cbn [tick sa_step].
    - intros n Hn. pose proof (clock_after m (Z.to_nat 60000)). pose proof (clock_mono (m + Z.to_nat 60000 * r) n Hn). lia.
    - apply clock_mono. lia.
    - apply clock_mono. lia.
    - lia.
    - lia.
    - lia. }
  apply (reads_wp _ _ _ _ Hst). intros q s2 Hfr ->. cbn [negb]. rewrite wp_bind. unfold wp at 1. rewrite cleanupState_run.
  cbn [fst snd]. rewrite wp_ret. rewrite Hts in Hrt. rewrite Hrt. destruct Hfr as [Ho Hfi Hst']. cbn in Ho, Hfi, Hst' |- *.
  split; [done|]. split; [by rewrite Ho|]. split; [done|lia].
Qed.

Lemma stuckTurns_restarts i turns fuel s :
  1 <= i -> (k0 <= sa_step s)%nat -> sw_clock W (S (S (S (sa_step s)))) + 200000 <= 2 ^ 41 ->
  60000 * Z.of_nat r + 4 < Z.of_nat fuel -> (0 < turns)%nat ->
  wp (stuckTurns W F i turns fuel) s (fun q s' => q = Ok (Some restart_time) /\
    sa_out s' = sa_out s ++ destroyed /\ sa_files s' = sa_files s /\ (S (sa_step s) <= sa_step s')%nat).
Proof.
  intros Hi Hs Hh Hf Ht. destruct turns as [|turns]; [lia|]. cbn [stuckTurns]. rewrite wp_bind.
  enough (wp (stuckTurn W F i fuel) s (fun q s' => q = Ok (Some restart_time) /\
    sa_out s' = sa_out s ++ destroyed /\ sa_files s' = sa_files s /\ (S (sa_step s) <= sa_step s')%nat)) as H1.
  { eapply wp_mono; [exact H1|]. cbn beta. intros q s' (-> & Hrest). destruct restart_time_small as [Hpos _].
    destruct (Z.eqb_spec restart_time 0); [lia|]. rewrite wp_ret. done. }
  pose proof (doStuckCheck_restarts i fuel (tick s) Hi ltac:(cbn; lia) Hh Hf) as Hd. unfold wp in Hd |- *.
  unfold stuckTurn, stuck_exitCheck, mbind, M_bind, reading, mbind, M_bind, get, put, mret, M_ret. rewrite (sk_exit Hk). fold (tick s).
  destruct (doStuckCheckAndReturnTimeWhenToRestart W F i fuel (tick s)) as [q s']. cbn in Hd. destruct Hd as (-> & Hd). done.
Qed.

Lemma restart_runs i fuel s :
  1 <= i -> (k0 <= sa_step s)%nat -> sw_clock W k0 + 200000 <= 2 ^ 41 -> 120000 * Z.of_nat r + 1 < Z.of_nat fuel ->
  wp (restart W F restart_time i fuel) s (fun q s' => q = Ok tt /\
    sa_out s' = sa_out s ++ [ProcessExited 13] /\ sa_files s' = {[restartFileName F b i]} ∪ sa_files s).
Proof.
  intros Hi Hs Hh Hf. unfold restart. destruct restart_time_small as [Hpos _].
  rewrite wp_bind, wp_check. split; [intros _|intros ?%Z.ltb_ge; lia]. rewrite wp_bind.
  apply (reads_wp _ _ (fun q => q = Ok tt)).
  { apply waitForRestart_ends with (N := (k0 + Z.to_nat 120000 * r)%nat); [|lia..]. intros n Hn.
    pose proof (clock_after k0 (Z.to_nat 120000)). pose proof (clock_mono (k0 + Z.to_nat 120000 * r) n Hn).
    destruct (sk_time Hk) as (_ & _ & Hlt). unfold restart_time. lia. }
  intros q s' [Ho Hfi _] ->. unfold createStuckRestartFile. rewrite !wp_bind, wp_check. split; [intros _|intros ?%Z.leb_gt; lia].
  rewrite wp_bind, wp_reading. destruct (sk_block Hk) as [_ ->]. rewrite wp_modify. unfold stuck_emit. rewrite wp_modify. cbn.
  by rewrite Ho, Hfi.
Qed.
End Restarting.

(** A node does not restart without reason.  However often the chain is
    checked, nothing is destroyed, no restart file is written and the process
    goes on, if a block was committed within the interval whenever one looks, or
    so few peers ever answer that with the node itself they are fewer than two
    thirds (in both cases with a clock that does not jump by a minute between two
    readings), or the SGX server is down, or there is no second block. *)
Theorem no_restart_without_reason W F turns fuel s :
  0 <= sf_stuckRestartIntervalMs F < 2 ^ 64 -> no_reason W F ->
  sa_out (stuckDetectionLoop W F turns fuel s).2 = sa_out s /\
  sa_files (stuckDetectionLoop W F turns fuel s).2 = sa_files s.
Proof. intros Hr Hwhy. destruct (stuckDetectionLoop_reads W F Hr turns fuel s Hwhy) as [[Ho Hf _] _]. done. Qed.

(** C29: A chain that has stood still is restarted.  If from the present reading on
    no block is committed, the start, the last commit and the time stamp of the
    last block are longer ago than the interval, enough peers answer, the SGX server
    is up, the exit is not requested and the clock (below 2^41 ms) advances at
    least by one with every [r] readings and by less than ten seconds between two
    of them, then one turn of the loop, with any fuel above the number of readings in two minutes and the number
    of restart files, destroys the eight databases, waits for the time of the
    restart, writes the restart file with the first free number and ends the
    process. *)
Theorem stuck_chain_restarts W F s r R b ts turns fuel :
  stuck W F (sa_step s) r R b ts ->
  sw_clock W (sa_step s + size (sa_files s) + 4) + 200000 <= 2 ^ 41 ->
  (0 < turns)%nat -> 120000 * Z.of_nat r + zsize (sa_files s) + 4 < Z.of_nat fuel ->
  exists k s', stuckDetectionLoop W F turns fuel s = (Ok tt, s') /\
    0 <= k /\ restarted F b k (sa_files s) /\ restartFileName F b (k + 1) ∉ sa_files s /\
    sa_files s' = {[restartFileName F b (k + 1)]} ∪ sa_files s /\
    sa_out s' = sa_out s ++ destroyed ++ [ProcessExited 13].
Proof.
  intros Hk Hh Ht Hf.
  enough (wp (stuckDetectionLoop W F turns fuel) s (fun q s' => q = Ok tt /\ exists k,
    0 <= k /\ restarted F b k (sa_files s) /\ restartFileName F b (k + 1) ∉ sa_files s /\
    sa_files s' = {[restartFileName F b (k + 1)]} ∪ sa_files s /\ sa_out s' = sa_out s ++ destroyed ++ [ProcessExited 13])) as Hw.
  { unfold wp in Hw. destruct (stuckDetectionLoop W F turns fuel s) as [q s']. cbn in Hw. destruct Hw as [-> (k & Hrest)]. by exists k, s'. }
  unfold stuckDetectionLoop, getNumberOfPreviousRestarts. rewrite wp_bind.
  eapply wp_mono; [apply (countRestarts_ok W F _ r R b ts Hk 0 fuel s); [lia|by intros j Hj; lia|lia]|].
  cbn beta. intros q s1 (k & -> & H0 & Hr & Hn & [Ho Hfi Hst] & Hle). rewrite wp_bind.
  assert (0 <= zsize (sa_files s)) as Hz by (unfold zsize; lia).
  assert (sw_clock W (S (S (S (sa_step s1)))) + 200000 <= 2 ^ 41) as Hh1.
  { pose proof (clock_mono W F _ r R b ts Hk (S (S (S (sa_step s1)))) (sa_step s + size (sa_files s) + 4)). unfold zsize in Hle. lia. }
  eapply wp_mono; [apply (stuckTurns_restarts W F _ r R b ts Hk (k + 1) turns fuel s1); [lia|lia|done|lia|done]|].
  cbn beta. intros q s2 (-> & Ho2 & Hf2 & Hst2). cbn beta iota.
  assert (sw_clock W (sa_step s) + 200000 <= 2 ^ 41) as Hh0.
  { pose proof (clock_mono W F _ r R b ts Hk (sa_step s) (sa_step s + size (sa_files s) + 4)). lia. }
  pose proof (restart_runs W F _ r R b ts Hk (k + 1) fuel s2 ltac:(lia) ltac:(lia) Hh0 ltac:(lia)) as Hrs.
  unfold wp, until_exit in Hrs |- *. destruct (restart W F _ (k + 1) fuel s2) as [q s3]. cbn in Hrs. destruct Hrs as (-> & Ho3 & Hf3).
  cbn. split; [done|]. exists k. split_and!; [done..|by rewrite Hf3, Hf2, Hfi|by rewrite Ho3, Ho2, Ho, <- app_assoc].
Qed.

(** *** At concrete inputs *)
Definition demo_stuck_config : stuck_config :=
  {| sf_schainIndex := 1; sf_nodeCount := 4; sf_nodeID := 11; sf_startTimeMs := 1000; sf_stuckRestartIntervalMs := 10800000;
     sf_healthCheckDir := "/health" |}.

(** A second per reading, until the end of time; the last block is from the
    start. *)
Definition demo_stuck_world : stuck_world :=
  {| sw_clock := fun n => Z.min (20000000 + 1000 * Z.of_nat n) (2 ^ 41); sw_exit := fun _ => false;
     sw_lastCommitTimeMs := fun _ => 2000; sw_lastCommittedBlockID := fun _ => 7; sw_blockTimeStampS := fun _ => Ok 2;
     sw_sgxDown := fun _ => false; sw_connect := fun _ i => bool_decide (i <> 3) |}.

Lemma demo_stuck : stuck demo_stuck_world demo_stuck_config 0 1 {[2; 4]} 7 2.
Proof.
  split; cbn -[Z.of_nat Nat.add]; try done; try lia.

  - intros i Hi. assert (i = 2 \/ i = 4) as [-> | ->] by set_solver; done.
Qed.

Definition demo_stuck_agent : stuck_agent :=
  mkStuck 0 {[restartFileName demo_stuck_config 7 1]} [].

Lemma demo_files : size (sa_files demo_stuck_agent) = 1%nat.
Proof. by vm_compute. Qed.

Lemma stuck_chain_restarts_witness :
  exists k s', stuckDetectionLoop demo_stuck_world demo_stuck_config 1 (Z.to_nat 130000) demo_stuck_agent = (Ok tt, s') /\
    0 <= k /\ restartFileName demo_stuck_config 7 (k + 1) ∉ sa_files demo_stuck_agent /\
    sa_out s' = destroyed ++ [ProcessExited 13].
Proof.
  destruct (stuck_chain_restarts demo_stuck_world demo_stuck_config demo_stuck_agent 1 {[2; 4]} 7 2 1 (Z.to_nat 130000))
    as (k & s' & Hrun & Hk & _ & Hn & _ & Ho).
  - exact demo_stuck.
  - rewrite demo_files. cbn -[Z.of_nat Nat.add]. lia.
  - lia.
  - unfold zsize. rewrite demo_files. lia.
  - exists k, s'. split; [exact Hrun|]. split; [exact Hk|]. split; [exact Hn|exact Ho].
Defined.

(** A chain that commits a block with every reading. *)
Definition demo_alive_world : stuck_world :=
  {| sw_clock := fun n => 20000000 + 1000 * Z.of_nat n; sw_exit := fun _ => false;
     sw_lastCommitTimeMs := fun n => 20000000 + 1000 * (Z.of_nat n - 1); sw_lastCommittedBlockID := fun _ => 7;
     sw_blockTimeStampS := fun _ => Ok 2; sw_sgxDown := fun _ => false; sw_connect := fun _ i => true |}.

Lemma no_restart_without_reason_witness :
  sa_out (stuckDetectionLoop demo_alive_world demo_stuck_config 10 10 demo_stuck_agent).2 = [].
Proof.
  apply (no_restart_without_reason demo_alive_world demo_stuck_config 10 10 demo_stuck_agent).
  - cbn. lia.
  - left. split; [intros n; cbn; lia|]. left. intros n. cbn. lia.
Defined.

(** When the clock jumps by a minute right after the check begins, no check is
    made and the databases are destroyed, although the chain is alive. *)
Definition jumping_world : stuck_world :=
  {| sw_clock := fun n => if bool_decide (n < 3)%nat then 20000000 else 20060000; sw_exit := fun _ => false;
     sw_lastCommitTimeMs := fun n => 20000000; sw_lastCommittedBlockID := fun _ => 7;
     sw_blockTimeStampS := fun _ => Ok 20000; sw_sgxDown := fun _ => false; sw_connect := fun _ i => true |}.

Example jump_destroys :
  let '(r, s) := doStuckCheckAndReturnTimeWhenToRestart jumping_world demo_stuck_config 1 10 demo_stuck_agent in
  (is_ok r, sa_out s) = (true, destroyed).
Proof. by vm_compute. Qed.

(** A block that is committed between the reading of the clock and that of the
    last commit makes the difference wrap around. *)
Definition racing_world : stuck_world :=
  {| sw_clock := fun n => 20000000; sw_exit := fun _ => false; sw_lastCommitTimeMs := fun n => 20000001;
     sw_lastCommittedBlockID := fun _ => 7; sw_blockTimeStampS := fun _ => Ok 2; sw_sgxDown := fun _ => false;
     sw_connect := fun _ i => true |}.

Example race_looks_stuck : (stuckCheck racing_world demo_stuck_config 10800000 2000 10 demo_stuck_agent).1 = Ok true.
Proof. by vm_compute. Qed.

(** ** Liveliness monitors *)
Section Liveliness.
Context (clock : nat -> Z) (exits : nat -> bool).
Implicit Types s : monitoring.

(** Only monitors that exist are registered, and the next identifier is free. *)
Record monitors_ok s : Prop := {
  mi_active : mo_active s ⊆ dom (mo_monitors s);
  mi_fresh : forall id, id ∈ dom (mo_monitors s) -> 0 <= id < mo_counter s
}.

(** A monitored function leaves no monitor behind, whether it returns or throws,
    if what it runs does not. *)
Lemma monitored_clean {A} name maxTime (c : M monitoring A) s :
  0 <= mo_counter s < 2 ^ 64 - 1 -> monitors_ok s ->
  (forall s1, monitors_ok s1 -> wp c s1 (fun _ s2 => mo_monitors s2 = mo_monitors s1 /\ mo_active s2 = mo_active s1)) ->
  wp (monitored clock name maxTime c) s (fun _ s' => mo_monitors s' = mo_monitors s /\ mo_active s' = mo_active s).
Proof.
  intros Hc [Ha Hf] Hin. unfold monitored, newLivelinessMonitor, mo_reading. wp_simpl.
  unfold registerMonitor. wp_simpl. cbn -[destroying].
  match goal with |- wp _ ?x _ => set (s2 := x) end.
  assert (mo_counter s ∉ dom (mo_monitors s)) as Hnew by (intros Hin'; apply Hf in Hin'; lia).
  assert (monitors_ok s2) as H2.
  { split; cbn; [rewrite dom_insert_L; set_solver|]. rewrite dom_insert_L. intros id [->%elem_of_singleton|Hid]%elem_of_union;
      rewrite u64_small by lia; [lia|]. apply Hf in Hid. lia. }
  specialize (Hin s2 H2). unfold wp, destroying in Hin |- *. destruct (c s2) as [r s3]. cbn in Hin |- *. destruct Hin as [Hmon Hact].
  unfold destroyLivelinessMonitor, unregisterMonitor, mbind, M_bind, modify. cbn. rewrite Hmon, Hact. cbn.
  split; [by rewrite delete_insert_id by (by apply not_elem_of_dom)|]. assert (mo_counter s ∉ mo_active s) by set_solver. set_solver.
Qed.

(** Whom [monitor] warns about is registered, exists and has outlived its time. *)
Lemma checkMonitors_warns ids s :
  wp (checkMonitors clock exits ids) s (fun r s' => r = Ok tt /\ mo_monitors s' = mo_monitors s /\
    exists l, mo_warnings s' = mo_warnings s ++ l /\ forall x, x ∈ l -> exists id m n, id ∈ ids /\
      mo_monitors s !! id = Some m /\ lm_expiryTime m < clock n /\ x = (lm_name m, u64 (clock n - lm_startTime m))).
Proof.
  revert s. induction ids as [|id ids IH]; intros s; cbn [checkMonitors].
  { rewrite wp_ret. split_and!; [done..|]. exists []. rewrite app_nil_r. split; [done|]. by intros x ?%elem_of_nil. }
  assert (forall s0, mo_monitors s0 = mo_monitors s -> forall w, mo_warnings s0 = mo_warnings s ++ w ->
    (forall x, x ∈ w -> exists id' m n, id' ∈ id :: ids /\ mo_monitors s !! id' = Some m /\ lm_expiryTime m < clock n /\
      x = (lm_name m, u64 (clock n - lm_startTime m))) ->
    wp (checkMonitors clock exits ids) s0 (fun r s' => r = Ok tt /\ mo_monitors s' = mo_monitors s /\
      exists l, mo_warnings s' = mo_warnings s ++ l /\ forall x, x ∈ l -> exists id' m n, id' ∈ id :: ids /\
      mo_monitors s !! id' = Some m /\ lm_expiryTime m < clock n /\ x = (lm_name m, u64 (clock n - lm_startTime m)))) as Hrest.
  { intros s0 Hm w Hw Hx. eapply wp_mono; [apply IH|]. cbn beta. intros r s' (-> & Hm' & l & Hl & Hall). split; [done|].
    split; [congruence|]. exists (w ++ l). split; [by rewrite Hl, Hw, app_assoc|]. intros x [Hin|Hin]%elem_of_app; [by apply Hx|].
    destruct (Hall x Hin) as (id' & m & n & Hi & Hl' & Hrest). exists id', m, n. rewrite <- Hm. split; [by right|done]. }
  rewrite wp_bind. unfold mo_reading. wp_simpl. destruct (exits (mo_step s)).
  { rewrite wp_ret. split_and!; [done..|]. exists []. rewrite app_nil_r. split; [done|]. by intros x ?%elem_of_nil. }
  wp_simpl. cbn [mo_monitors]. destruct (mo_monitors s !! id) as [m|] eqn:Hm.
  - unfold mo_reading. wp_simpl. split; intros Hlt; wp_simpl.
    + apply Hrest with (w := [(lm_name m, u64 (clock (S (mo_step s)) - lm_startTime m))]); [done..|].
      intros x ->%list_elem_of_singleton. exists id, m, (S (mo_step s)). split; [by left|]. split; [done|]. apply Z.ltb_lt in Hlt. done.
    + apply Hrest with (w := []); [done|by rewrite app_nil_r|]. by intros x ?%elem_of_nil.
  - apply Hrest with (w := []); [done|by rewrite app_nil_r|]. by intros x ?%elem_of_nil.
Qed.
End Liveliness.
