(* ===== verification/Timeouts.v ===== *)
(** * Timeouts

    Model of [TimeoutAgent] ([src/monitoring/TimeoutAgent.cpp]) with
    [rebroadcastAllMessagesForCurrentBlock] of [src/chains/Schain.cpp]: if the
    proposals of a block do not arrive in time, the consensus starts with those
    that did, and if no block is committed for longer, the messages of the
    current block are sent again.  The thread works on the chain and the network
    agent, which the other threads change between any two of its steps. *)

From stdpp Require Import base tactics gmap list strings.
From Stdlib Require Import ZArith Lia.
From S2P Require Import Prelude Bytes Messages LevelDb LevelDbSets ProposalVector ProtocolDbs.
From S2P Require Import Transactions Blocks OtherDbs Schain NetMessages Network.

Definition BLOCK_PROPOSAL_RECEIVE_TIMEOUT_MS : Z := 30000.
Definition REBROADCAST_TIMEOUT_MS : Z := 120000.

(** The chain, the network agent, the number of steps of the other threads so
    far, and the variables of the loop. *)
Record timeouts {D share sig : Type} := mkTimeouts {
  tm_chain : schain D;
  tm_net : network D share sig;
  tm_step : nat;
  tm_lastRebroadCastTime : Z;
  tm_proposalReceiptTimedOut : bool
}.
Arguments timeouts : clear implicits.
Arguments mkTimeouts {D share sig}.

Section Timeouts.
Context {D : Type} `{KVStore D}.
Context {share sig : Type}.
Context (C : chain_config) (T : net_config) (N : net_crypto share).

(** What the other threads do before each step of this one. *)
Context (others : nat -> schain D * network D share sig -> schain D * network D share sig).
Local Abbreviation state := (timeouts D share sig).

Definition others_run : M state unit :=
  modify (fun s =>
    let p := others (tm_step s) (tm_chain s, tm_net s) in
    mkTimeouts p.1 p.2 (S (tm_step s)) (tm_lastRebroadCastTime s) (tm_proposalReceiptTimedOut s)).

Definition on_chain {A} (c : M (schain D) A) : M state A :=
  others_run ;;
  zoom tm_chain (fun x s => mkTimeouts x (tm_net s) (tm_step s) (tm_lastRebroadCastTime s)
    (tm_proposalReceiptTimedOut s)) c.

Definition on_net {A} (c : M (network D share sig) A) : M state A :=
  others_run ;;
  zoom tm_net (fun x s => mkTimeouts (tm_chain s) x (tm_step s) (tm_lastRebroadCastTime s)
    (tm_proposalReceiptTimedOut s)) c.

Definition set_lastRebroadCastTime (t : Z) : M state unit :=
  modify (fun s => mkTimeouts (tm_chain s) (tm_net s) (tm_step s) t (tm_proposalReceiptTimedOut s)).

Definition set_proposalReceiptTimedOut (b : bool) : M state unit :=
  modify (fun s => mkTimeouts (tm_chain s) (tm_net s) (tm_step s) (tm_lastRebroadCastTime s) b).

(** ** Sending the messages of the current block again *)
Fixpoint rebroadcastEach (messages : list (WireMessage share)) : M state unit :=
  match messages with
  | [] => mret tt
  | m :: messages => on_net (rebroadcastMessage T N m) ;; rebroadcastEach messages
  end.

Definition rebroadcastAllMessagesForCurrentBlock : M state unit :=
  last ← on_chain getLastCommittedBlockID;
  messages ← on_net (zoom nw_outgoing set_outgoing
    (getMessages (nt_msgCfg T) (WireMessage share) (fun text => parseMessage N text (nt_schainID T) last false)
      (u64 (last + 1))));
  rebroadcastEach messages.

(** ** The loop *)

(** The last commit or the start, whichever is later. *)
Definition timeZero : M state Z :=
  lastCommitTimeMs ← on_chain (gets (fun c => ci_lastCommitTimeMs (sc_info c)));
  startTimeMs ← on_chain (gets (fun c => ci_startTimeMs (sc_info c)));
  mret (Z.max lastCommitTimeMs startTimeMs).

(** [try { ... } catch ( ... ) {}]. *)
Definition ignoring (c : M state unit) : M state unit := fun s =>
  match c s with
  | (Err OutOfFuel, s') => (Err OutOfFuel, s')
  | (Err UndefinedBehavior, s') => (Err UndefinedBehavior, s')
  | (_, s') => (Ok tt, s')
  end.

Definition checkProposalTimeout (currentBlockId currentTime blockProcessingStart : Z) : M state unit :=
  when (u64 (currentTime - blockProcessingStart) <=? BLOCK_PROPOSAL_RECEIVE_TIMEOUT_MS)
    (set_proposalReceiptTimedOut false) ;;
  timedOut ← gets tm_proposalReceiptTimedOut;
  when (negb timedOut && (2 <? currentBlockId) &&
        (BLOCK_PROPOSAL_RECEIVE_TIMEOUT_MS <? u64 (currentTime - blockProcessingStart)))
    (ignoring
      (on_chain (blockProposalReceiptTimeoutArrived C currentBlockId) ;;
       set_proposalReceiptTimedOut true)).

Definition checkRebroadcast (currentBlockId currentTime : Z) : M state unit :=
  lastRebroadCastTime ← gets tm_lastRebroadCastTime;
  when ((2 <? currentBlockId) && (REBROADCAST_TIMEOUT_MS <? u64 (currentTime - lastRebroadCastTime)))
    (rebroadcastAllMessagesForCurrentBlock ;;
     set_lastRebroadCastTime currentTime).

Definition timeoutWork : M state unit :=
  last ← on_chain getLastCommittedBlockID;
  let currentBlockId := u64 (last + 1) in
  currentTime ← on_chain getCurrentTimeMs;
  blockProcessingStart ← timeZero;
  lastRebroadCastTime ← gets tm_lastRebroadCastTime;
  set_lastRebroadCastTime (Z.max lastRebroadCastTime blockProcessingStart) ;;
  when (2 <? cc_nodeCount C)
    (checkProposalTimeout currentBlockId currentTime blockProcessingStart ;;
     checkRebroadcast currentBlockId currentTime).

(** One turn; [false] ends the loop. *)
Definition timeoutTurn : M state bool := fun s =>
  match timeoutWork s with
  | (Ok _, s') => (Ok true, s')
  | (Err ExitRequestedException, s') => (Ok false, s')
  | (Err OutOfFuel, s') => (Err OutOfFuel, s')
  | (Err UndefinedBehavior, s') => (Err UndefinedBehavior, s')
  | (Err _, s') => (Ok true, s')
  end.

Fixpoint timeoutTurns (turns : nat) : M state unit :=
  match turns with
  | O => mret tt
  | S turns =>
      e ← on_chain isExitRequested;
      if (e : bool) then mret tt
      else
        continue ← timeoutTurn;
        if (continue : bool) then timeoutTurns turns else mret tt
  end.

Definition timeoutLoop (turns : nat) : M state unit :=
  e ← on_chain isExitRequested;
  if (e : bool) then mret tt
  else
    zero ← timeZero;
    blockProcessingStart ← (if zero =? 0 then on_chain getCurrentTimeMs else mret zero);
    set_lastRebroadCastTime blockProcessingStart ;;
    set_proposalReceiptTimedOut false ;;
    timeoutTurns turns.
End Timeouts.
