(* ===== verification/TimeoutTheorems.v ===== *)
(** * Properties of the timeouts

    When a block is not finished in time, the consensus starts with the proposals
    that arrived, and the messages that the node has broadcast for the block are
    sent again to more than two thirds of the nodes, whatever the other threads do
    in between within the bounds that each theorem names. *)

From stdpp Require Import base tactics gmap list sorting strings.
From Stdlib Require Import ZArith Lia.
From S2P Require Import Prelude Bytes Messages LevelDb LevelDbSets ProposalVector ProtocolDbs.
From S2P Require Import Transactions Blocks OtherDbs Schain NetMessages MessageTheorems Network NetworkTheorems.
From S2P Require Import LruCache BlockStore SchainTheorems Timeouts.

(** ** Reading the saved messages *)
Section Saved.
Context {D : Type} `{HealthyStore D}.
Context {message : Type} (cfg : db_config) (parse : string -> res message).
Implicit Types s : msg_db D.

(** The keys of the messages of a block begin with this. *)
Definition block_prefix (b : Z) : string := (dc_version cfg +:+ ":" +:+ to_string b)%string.

(** What is stored under such a key. *)
Definition saved (b : Z) s (text : string) : Prop :=
  exists k, String.prefix (block_prefix b) k = true /\ db_lookup (md_db s) k = Some text.

Lemma prefix_cons a p q : String.prefix (String a p) (String a q) = String.prefix p q.
Proof. cbn. by destruct (Ascii.ascii_dec a a). Qed.

Lemma prefix_append p q : String.prefix p (p +:+ q) = true.
Proof.
  induction p as [|a p IH]; [by destruct q|]. change (String a p +:+ q)%string with (String a (p +:+ q)). by rewrite prefix_cons.
Qed.

Lemma prefix_createKey2 b c : String.prefix (block_prefix b) (createKey2 cfg b c) = true.
Proof.
  unfold createKey2, block_prefix. generalize (":" +:+ to_string c)%string. intros t.
  induction (dc_version cfg) as [|a v IH]; [exact (prefix_append (":" +:+ to_string b) t)|]. by rewrite <- prefix_cons with (a := a) in IH.
Qed.

Lemma parseAll_run items :
  (forall kt, kt ∈ items -> exists m, parse kt.2 = Ok m) ->
  exists ms, parseAll message parse items = Ok ms /\
    forall m, m ∈ ms <-> exists kt, kt ∈ items /\ parse kt.2 = Ok m.
Proof.
  induction items as [|[k t] items IH]; intros Hp; cbn [parseAll].
  { exists []. split; [done|]. intros m. split; [by intros ?%elem_of_nil|]. by intros (? & ?%elem_of_nil & _). }
  destruct (Hp (k, t)) as [m Hm]; [by left|]. cbn [snd] in Hm. rewrite Hm.
  destruct IH as (ms & Hms & Hall); [intros kt Hin; apply Hp; by right|]. cbn [mbind res_bind]. rewrite Hms. cbn [mbind res_bind].
  exists (m :: ms). split; [done|]. intros m'. rewrite elem_of_cons, Hall. split.
  - intros [-> |(kt & Hin & Hkt)]; [exists (k, t); split; [by left|done]|exists kt; split; [by right|done]].
  - intros (kt & [-> |Hin]%elem_of_cons & Hkt); [left; cbn in Hkt; congruence|right; eauto].
Qed.

Lemma getMessages_run b s :
  db_wf (md_db s) -> (forall text, saved b s text -> exists m, parse text = Ok m) ->
  exists ms, getMessages cfg message parse b s = (Ok ms, s) /\
    forall m, m ∈ ms <-> exists text, saved b s text /\ parse text = Ok m.
Proof.
  intros Hwf Hp. destruct (readPrefixRange_run (block_prefix b) (md_db s) Hwf) as (tm & Hr & Hl).
  assert (forall kt, kt ∈ text_items tm <-> String.prefix (block_prefix b) kt.1 = true /\ db_lookup (md_db s) kt.1 = Some kt.2) as Hit.
  { intros [k t]. unfold text_items. rewrite merge_sort_Permutation, elem_of_map_to_list, Hl. cbn.
    destruct (String.prefix _ k); naive_solver. }
  destruct (parseAll_run (text_items tm)) as (ms & Hms & Hall).
  { intros kt [Hk Ht]%Hit. apply Hp. by exists kt.1. }
  exists ms. split.
  - unfold getMessages. fold (block_prefix b). unfold nested_all, mbind, M_bind, on_mdb, zoom. rewrite Hr. cbn [lift_res].
    unfold lift_res. rewrite Hms. cbn. by destruct s.
  - intros m. rewrite Hall. split.
    + intros (kt & [Hk Ht]%Hit & Hm). exists kt.2. split; [by exists kt.1|done].
    + intros (text & (k & Hk & Ht) & Hm). exists (k, text). split; [by apply Hit|done].
Qed.

(** Saving under a fresh key adds the text and no other. *)
Definition text_added (b : Z) s s' (text : string) : Prop :=
  saved b s' text /\ db_wf (md_db s') /\ forall b' text', saved b' s' text' -> text' = text \/ saved b' s text'.

Lemma saveMsg_saves serialize (block : message -> Z) m text s :
  serialize m = Ok text -> text <> ""%string -> db_wf (md_db s) ->
  db_lookup (md_db s) (createKey2 cfg (block m) (md_counter s)) = None ->
  exists s', saveMsg cfg message serialize block m s = (Ok true, s') /\ text_added (block m) s s' text.
Proof.
  intros Ht Hne Hwf Hfresh.
  enough (wp (saveMsg cfg message serialize block m) s (fun r s' => r = Ok true /\ text_added (block m) s s' text)) as Hw.
  { unfold wp in Hw. destruct (saveMsg _ _ _ _ _ s) as [r s']. exists s'. cbn in Hw. destruct Hw as [-> Hs]. done. }
  unfold saveMsg, on_mdb. wp_simpl. rewrite Ht. wp_simpl. rewrite (bool_decide_eq_true_2 (text <> _)) by done.
  split; [intros _|done]. wp_simpl. rewrite (bool_decide_eq_true_2 (createKey2 _ _ _ <> _)) by apply createKey2_nonempty.
  split; [intros _|done]. rewrite wp_zoom. cbn [md_db]. apply readString_spec; [done|]. rewrite Hfresh. cbn [default from_option].
  rewrite bool_decide_eq_true_2 by done. wp_simpl. rewrite wp_zoom. cbn [md_db]. eapply wp_mono; [by apply writeString_spec|].
  cbv beta. intros r db (-> & Hwf' & s1 & _ & Hret & Hlk). wp_simpl. split; [done|].
  set (key := createKey2 cfg (block m) (md_counter s)) in *. split; [|split; [done|]].
  - exists key. split; [apply prefix_createKey2|]. cbn [md_db]. rewrite Hlk, decide_True by done.
    destruct (Hret key) as [He|[_ He]]; by rewrite He, ?Hfresh.
  - intros b' text' (k & Hk & Hl). cbn [md_db] in Hl. rewrite Hlk in Hl. destruct (decide (k = key)) as [-> |_].
    + left. destruct (Hret key) as [He|[_ He]]; rewrite He, ?Hfresh in Hl; cbn in Hl; congruence.
    + right. exists k. split; [done|]. destruct (Hret k) as [He|[_ He]]; congruence.
Qed.

(** After a restart the counter begins at zero again, so that the key may be
    taken: the message is not saved. *)
Lemma saveMsg_taken serialize (block : message -> Z) m text old s :
  serialize m = Ok text -> text <> ""%string -> db_wf (md_db s) -> old <> ""%string -> old <> text ->
  db_lookup (md_db s) (createKey2 cfg (block m) (md_counter s)) = Some old ->
  exists s', saveMsg cfg message serialize block m s = (Ok false, s') /\ md_db s' = md_db s.
Proof.
  intros Ht Hne Hwf Ho Hot Htaken.
  enough (wp (saveMsg cfg message serialize block m) s (fun r s' => r = Ok false /\ md_db s' = md_db s)) as Hw.
  { unfold wp in Hw. destruct (saveMsg _ _ _ _ _ s) as [r s']. exists s'. cbn in Hw. destruct Hw as [-> Hs]. done. }
  unfold saveMsg, on_mdb. wp_simpl. rewrite Ht. wp_simpl. rewrite (bool_decide_eq_true_2 (text <> _)) by done.
  split; [intros _|done]. wp_simpl. rewrite (bool_decide_eq_true_2 (createKey2 _ _ _ <> _)) by apply createKey2_nonempty.
  split; [intros _|done]. rewrite wp_zoom. cbn [md_db]. apply readString_spec; [done|]. rewrite Htaken. cbn [default from_option id].
  rewrite bool_decide_eq_false_2 by done. wp_simpl. by rewrite bool_decide_eq_false_2 by done.
Qed.
End Saved.

(** ** Among the other threads *)
Section Turns.
Context {D : Type} `{HealthyStore D}.
Context {share sig : Type}.
Context (C : chain_config) (T : net_config) (N : net_crypto share).
Context (others : nat -> schain D * network D share sig -> schain D * network D share sig).
Local Abbreviation state := (timeouts D share sig).
Local Abbreviation node := (schain D * network D share sig)%type.
Local Abbreviation message := (WireMessage share).
Implicit Types s : state.

Definition node_of s : node := (tm_chain s, tm_net s).

(** The node as the next step finds it. *)
Definition seen s : node := others (tm_step s) (node_of s).

Lemma wp_on_chain {A} (c : M (schain D) A) s Q :
  wp (on_chain others c) s Q <->
  wp c (seen s).1 (fun r x => Q r (mkTimeouts x (seen s).2 (S (tm_step s)) (tm_lastRebroadCastTime s)
    (tm_proposalReceiptTimedOut s))).
Proof. unfold on_chain. rewrite wp_bind. unfold others_run. rewrite wp_modify, wp_zoom. done. Qed.

Lemma wp_on_net {A} (c : M (network D share sig) A) s Q :
  wp (on_net others c) s Q <->
  wp c (seen s).2 (fun r x => Q r (mkTimeouts (seen s).1 x (S (tm_step s)) (tm_lastRebroadCastTime s)
    (tm_proposalReceiptTimedOut s))).
Proof. unfold on_net. rewrite wp_bind. unfold others_run. rewrite wp_modify, wp_zoom. done. Qed.

(** What a turn needs to know of the chain, besides the clock. *)
Record chain_at (b zc zs : Z) (c : schain D) : Prop := {
  ca_last : ci_lastCommittedBlockID (sc_info c) = b;
  ca_commit : ci_lastCommitTimeMs (sc_info c) = zc;
  ca_start : ci_startTimeMs (sc_info c) = zs
}.

(** The next reading of the clock satisfies [P]. *)
Definition clock_reads (P : Z -> Prop) (c : schain D) : Prop :=
  exists t, (getCurrentTimeMs c).1 = Ok t /\ P t.

Lemma clock_run P c : clock_reads P c -> exists t w,
  getCurrentTimeMs c = (Ok t, mkSchain (sc_info c) (sc_status c) (sc_stores c) (sc_output c) w) /\ P t /\
  wd_exits w = wd_exits (sc_world c).
Proof.
  intros (t & Ht & HP). unfold getCurrentTimeMs, on_world, zoom, mbind, M_bind, get, put, mret, M_ret in *.
  destruct (wd_times (sc_world c)) as [|t1 [|t2 ts]]; cbn in *; injection Ht as <-; eexists _, _; split_and!; done.
Qed.

Lemma chain_at_world b zc zs c w :
  chain_at b zc zs c -> chain_at b zc zs (mkSchain (sc_info c) (sc_status c) (sc_stores c) (sc_output c) w).
Proof. by intros []. Qed.

Context (b zc zs : Z) (Hb : 2 <= b < 2 ^ 64 - 1).
Context (G : node -> Prop) (P : Z -> Prop).

(** The last commit and the start stand, and [G] holds. *)
Definition steady (p : node) : Prop := chain_at b zc zs p.1 /\ G p.

(** The other threads and the clock respect [G], and until the clock is read the
    others respect [P] too. *)
Record respects : Prop := {
  rs_others : forall k p, steady p -> steady (others k p);
  rs_clock : forall k p, steady p -> clock_reads P p.1 -> clock_reads P (others k p).1;
  rs_world : forall c w n, G (c, n) -> wd_exits w = wd_exits (sc_world c) ->
    G (mkSchain (sc_info c) (sc_status c) (sc_stores c) (sc_output c) w, n)
}.
Context (HR : respects).

Lemma seen_steady s : steady (node_of s) -> steady (seen s).
Proof. apply (rs_others HR). Qed.

(** A turn reads the clock between two steps of the others and goes on with the
    time of the last commit or of the start. *)
Lemma turn_runs s Q :
  steady (node_of s) -> clock_reads P (tm_chain s) -> 2 < cc_nodeCount C ->
  (forall t s', P t -> steady (node_of s') ->
     tm_proposalReceiptTimedOut s' = tm_proposalReceiptTimedOut s ->
     tm_lastRebroadCastTime s' = Z.max (tm_lastRebroadCastTime s) (Z.max zc zs) ->
     wp (checkProposalTimeout C others (b + 1) t (Z.max zc zs) ;;
         checkRebroadcast T N others (b + 1) t) s' Q) ->
  wp (timeoutWork C T N others) s Q.
Proof.
  intros Hs Hc Hn Hk. unfold timeoutWork. rewrite wp_bind, wp_on_chain. unfold getLastCommittedBlockID. rewrite wp_gets.
  pose proof (seen_steady s Hs) as H1. pose proof (rs_clock HR (tm_step s) _ Hs Hc) as Hc1. fold (seen s) in Hc1.
  rewrite (ca_last _ _ _ _ (proj1 H1)). cbv zeta. rewrite (u64_small (b + 1)) by lia. rewrite wp_bind, wp_on_chain.
  set (s1 := mkTimeouts (seen s).1 _ _ _ _). assert (steady (node_of s1)) as Hs1 by (unfold node_of, s1; cbn; by rewrite <- surjective_pairing).
  pose proof (seen_steady s1 Hs1) as H2. destruct (clock_run P _ (rs_clock HR (tm_step s1) (node_of s1) Hs1 Hc1)) as (t & w & Hr & HP & Hw).
  fold (seen s1) in Hr, Hw. unfold wp at 1. rewrite Hr. cbn [fst snd].
  unfold timeZero. rewrite !wp_bind, wp_on_chain, wp_gets.
  match goal with |- context [seen ?x] => set (s2 := x) end.
  assert (steady (node_of s2)) as Hs2.
  { destruct H2 as [Ha HG]. split; [by apply chain_at_world|]. apply (rs_world HR); [by rewrite <- surjective_pairing|done]. }
  pose proof (seen_steady s2 Hs2) as H3. rewrite (ca_commit _ _ _ _ (proj1 H3)). rewrite wp_bind, wp_on_chain, wp_gets.
  match goal with |- context [seen ?x] => lazymatch x with s2 => fail | _ => set (s3 := x) end end.
  assert (steady (node_of s3)) as Hs3 by (unfold node_of, s3; cbn; by rewrite <- surjective_pairing).
  pose proof (seen_steady s3 Hs3) as H4. rewrite (ca_start _ _ _ _ (proj1 H4)). rewrite wp_ret, wp_bind, wp_gets.
  unfold set_lastRebroadCastTime. rewrite wp_bind, wp_modify. rewrite wp_when. split; [intros _|intros ?%Z.ltb_ge; lia].
  apply (Hk t); [done|by unfold node_of; cbn; rewrite <- surjective_pairing|done|done].
Qed.
End Turns.

(** ** Broadcasts are repeated *)
Section Rebroadcast.
Context {D : Type} `{HealthyStore D}.
Context {share sig : Type}.
Context (C : chain_config) (T : net_config) (N : net_crypto share).
Context (others : nat -> schain D * network D share sig -> schain D * network D share sig).
Local Abbreviation node := (schain D * network D share sig)%type.
Local Abbreviation message := (WireMessage share).
Implicit Types s : timeouts D share sig.
Implicit Types n : network D share sig.

(** No exit is requested, no send fails for good, and there is a queue of
    delayed messages for every node. *)
Definition ready n : Prop := quiet n /\ length (nw_delayed n) = Z.to_nat (nt_nodeCount T).

(** A message that can be broadcast. *)
Definition sendable (m : message) : Prop :=
  nt_catchupBlocks T < nm_blockID (wm_base m) /\ exists text, serializeMessage N m = Ok text.

(** Among [new] there is the message to enough nodes: with the sender they are at
    least two thirds. *)
Definition sent_to_quorum (new : list (Z * message)) (m : message) : Prop :=
  exists l, (forall dst, dst ∈ l -> (dst, m) ∈ new) /\ nt_nodeCount T * 2 <= 3 * (zsize (list_to_set l : gset Z) + 1).

Lemma sent_to_quorum_mono new new' m : new ⊆ new' -> sent_to_quorum new m -> sent_to_quorum new' m.
Proof. intros Hs (l & Hl & Hq). exists l. split; [|done]. intros dst Hd. by apply Hs, Hl. Qed.

Context (W : config_wf T) (Hbad : nt_badNetwork T = false).
Context (Hready : forall k p, ready p.2 ->
  ready (others k p).2 /\ peers_accept T (others k p).2 /\ exists new, nw_sent (others k p).2 = nw_sent p.2 ++ new).

Lemma rebroadcastEach_run ms s :
  Forall sendable ms -> ready (tm_net s) ->
  wp (rebroadcastEach T N others ms) s (fun r s' => r = Ok tt /\
    tm_proposalReceiptTimedOut s' = tm_proposalReceiptTimedOut s /\ exists new,
    nw_sent (tm_net s') = nw_sent (tm_net s) ++ new /\ forall m, m ∈ ms -> sent_to_quorum new m).
Proof.
  intros Hms. revert s. induction Hms as [|m ms [Hcatch (text & Htext)] _ IH]; intros s Hs; cbn [rebroadcastEach].
  { rewrite wp_ret. split_and!; [done..|]. exists []. rewrite app_nil_r. split; [done|]. by intros m ?%elem_of_nil. }
  rewrite wp_bind, wp_on_net. destruct (Hready (tm_step s) (node_of s) Hs) as ([Hq Hl] & Hacc & new0 & Hn0).
  fold (seen others s) in Hq, Hl, Hacc, Hn0.
  destruct (broadcast_run T N W m m (seen others s).2 text false Hcatch Hbad eq_refl Htext Hq Hacc Hl ltac:(done)) as
    (l & n' & Hr & Hsent & Hquorum & (Hq' & Hl' & _) & _).
  unfold wp at 1. unfold rebroadcastMessage. rewrite Hr. cbn [fst snd].
  eapply wp_mono; [apply IH; exact (conj Hq' Hl')|]. cbn beta. intros r s' (-> & Hf & new & Hnew & Hall). split; [done|]. split; [done|].
  cbn [tm_net] in Hnew. exists (new0 ++ ((., m) <$> l) ++ new). split.
  { rewrite Hnew, Hsent, Hn0. cbn [node_of snd]. by rewrite <- !app_assoc. }
  intros m' [-> |Hin]%elem_of_cons.
  - exists l. split; [|done]. intros dst Hd. rewrite !elem_of_app. right. left. by apply list_elem_of_fmap_2 with (f := (., m)).
  - eapply sent_to_quorum_mono; [|by apply Hall]. intros x Hx. rewrite !elem_of_app. auto.
Qed.
End Rebroadcast.

(** *** The turn *)
Section Unfinished.
Context {D : Type} `{HealthyStore D}.
Context {share sig : Type}.
Context (C : chain_config) (T : net_config) (N : net_crypto share).
Context (others : nat -> schain D * network D share sig -> schain D * network D share sig).
Local Abbreviation node := (schain D * network D share sig)%type.
Implicit Types s : timeouts D share sig.
Implicit Types n : network D share sig.
Context (W : config_wf T) (Hbad : nt_badNetwork T = false).
Context (b zc zs : Z) (Hb : 2 <= b < 2 ^ 64 - 1) (Hz : 0 <= Z.max zc zs).
Local Abbreviation prefixed := (saved (nt_msgCfg T) (b + 1)).

(** Every saved message of the current block can be parsed and sent. *)
Definition texts_ok n : Prop :=
  db_wf (md_db (nw_outgoing n)) /\ forall text, prefixed (nw_outgoing n) text ->
    exists m, parseMessage N text (nt_schainID T) b false = Ok m /\ sendable T N m.

(** What the other threads and the peers may do while the block is not finished:
    the other threads commit no block, forget no saved message, do not end the
    node and let the clock be read as before; no send fails for good, and the
    peers go on accepting: before each step of the turn enough sends are going
    to be accepted. *)
Record unfinished (p p' : node) : Prop := {
  un_chain : chain_at b zc zs p.1 -> chain_at b zc zs p'.1;
  un_ready : ready T p.2 -> ready T p'.2;
  un_accept : peers_accept T p'.2;
  un_sent : exists new, nw_sent p'.2 = nw_sent p.2 ++ new;
  un_texts : texts_ok p.2 -> texts_ok p'.2;
  un_saved : forall text, prefixed (nw_outgoing p.2) text -> prefixed (nw_outgoing p'.2) text;
  un_clock : forall P, clock_reads P p.1 -> clock_reads P p'.1
}.
Context (Hothers : forall k p, unfinished p (others k p)).

(** The node during the turn: what was sent and saved before is still there. *)
Definition resending (n0 : network D share sig) (p : node) : Prop :=
  ready T p.2 /\ texts_ok p.2 /\ (exists new, nw_sent p.2 = nw_sent n0 ++ new) /\
  forall text, prefixed (nw_outgoing n0) text -> prefixed (nw_outgoing p.2) text.

Lemma resending_respects n0 P : respects others b zc zs (resending n0) P.
Proof.
  split.
  - intros k p [Ha (Hr & Ht & (new & Hn) & Hs)]. destruct (Hothers k p) as [H1 H2 _ (new' & H3) H4 H5 _]. split; [auto|].
    split; [auto|]. split; [auto|]. split; [|auto]. exists (new ++ new'). by rewrite H3, Hn, app_assoc.
  - intros k p _. apply un_clock, Hothers.
  - done.
Qed.

Lemma rebroadcastAll_run n0 s :
  steady b zc zs (resending n0) (node_of s) ->
  wp (rebroadcastAllMessagesForCurrentBlock T N others) s (fun r s' => r = Ok tt /\
    exists new, nw_sent (tm_net s') = nw_sent n0 ++ new /\
      forall text, prefixed (nw_outgoing n0) text ->
        exists m, parseMessage N text (nt_schainID T) b false = Ok m /\ sent_to_quorum T new m).
Proof.
  intros Hs. pose proof (rs_others _ _ _ _ _ _ (resending_respects n0 (fun _ => True))) as Hnext.
  unfold rebroadcastAllMessagesForCurrentBlock. rewrite wp_bind, wp_on_chain. unfold getLastCommittedBlockID. rewrite wp_gets.
  pose proof (Hnext (tm_step s) _ Hs) as H1. fold (seen others s) in H1. rewrite (ca_last _ _ _ _ (proj1 H1)), (u64_small (b + 1)) by lia.
  match goal with |- wp _ ?x _ => set (s1 := x) end.
  assert (steady b zc zs (resending n0) (node_of s1)) as Hs1 by (unfold node_of, s1; cbn; by rewrite <- surjective_pairing).
  rewrite wp_bind, wp_on_net, wp_zoom. pose proof (Hnext (tm_step s1) _ Hs1) as H2. fold (seen others s1) in H2.
  destruct H2 as [Ha (Hr & [Hwf Hok] & (new & Hnew) & Hsaved)].
  destruct (getMessages_run (nt_msgCfg T) (fun text => parseMessage N text (nt_schainID T) b false) (b + 1)
    (nw_outgoing (seen others s1).2) Hwf) as (ms & Hms & Hall).
  { intros text Ht. destruct (Hok text Ht) as (m & Hm & _). by exists m. }
  unfold wp at 1. rewrite Hms. cbn [fst snd].
  eapply wp_mono; [apply (rebroadcastEach_run T N others W Hbad)|].
  - intros k p Hp. split; [by apply (un_ready _ _ (Hothers k p))|].
    split; [apply (un_accept _ _ (Hothers k p))|apply (un_sent _ _ (Hothers k p))].
  - apply Forall_forall. intros m (text & Ht & Hm)%Hall. destruct (Hok text Ht) as (m' & Hm' & Hsend). congruence.
  - exact Hr.
  - cbn beta. intros r s' (-> & _ & new' & Hsent & Hq). split; [done|]. exists (new ++ new').
    cbn [tm_net] in Hsent. split; [rewrite Hsent; cbn; by rewrite Hnew, app_assoc|].
    intros text Ht. destruct (Hok text (Hsaved text Ht)) as (m & Hm & _). exists m. split; [done|].
    eapply sent_to_quorum_mono; [|apply Hq, Hall; eauto]. intros x Hx. rewrite elem_of_app. auto.
Qed.

Lemma timeoutWork_resends s :
  2 < cc_nodeCount C -> tm_proposalReceiptTimedOut s = true ->
  chain_at b zc zs (tm_chain s) -> ready T (tm_net s) -> texts_ok (tm_net s) ->
  clock_reads (fun t => Z.max (tm_lastRebroadCastTime s) (Z.max zc zs) + REBROADCAST_TIMEOUT_MS < t < 2 ^ 64) (tm_chain s) ->
  wp (timeoutWork C T N others) s (fun r s' => r = Ok tt /\
    Z.max (tm_lastRebroadCastTime s) (Z.max zc zs) + REBROADCAST_TIMEOUT_MS < tm_lastRebroadCastTime s' /\
    exists new, nw_sent (tm_net s') = nw_sent (tm_net s) ++ new /\
      forall text, prefixed (nw_outgoing (tm_net s)) text ->
        exists m, parseMessage N text (nt_schainID T) b false = Ok m /\ sent_to_quorum T new m).
Proof.
  intros Hn Hflag Hc Hr Ht Hclock. unfold REBROADCAST_TIMEOUT_MS in *.
  eapply (turn_runs C T N others b zc zs Hb (resending (tm_net s)) _ (resending_respects _ _)); [|exact Hclock|done|].
  { split; [done|]. split; [done|]. split; [done|]. split; [exists []; by rewrite app_nil_r|done]. }
  intros t s' [Hlate Hlt] Hs' Hf Hl. unfold checkProposalTimeout, set_proposalReceiptTimedOut. 
  rewrite !wp_bind, wp_when. unfold BLOCK_PROPOSAL_RECEIVE_TIMEOUT_MS. rewrite u64_small by lia.
  split; [intros ?%Z.leb_le; lia|intros _]. rewrite wp_bind, wp_gets, Hf, Hflag. cbn [negb andb]. change (when false ?c) with (mret tt : M (timeouts D share sig) unit).
  rewrite wp_ret. unfold checkRebroadcast, REBROADCAST_TIMEOUT_MS. rewrite wp_bind, wp_gets, Hl, u64_small by lia.
  rewrite wp_when. split; [intros _|intros [?%Z.ltb_ge|?%Z.ltb_ge]%andb_false_iff; lia].
  rewrite wp_bind. eapply wp_mono; [by apply (rebroadcastAll_run (tm_net s))|]. cbn beta. intros r s2 (-> & Hnew).
  unfold set_lastRebroadCastTime. rewrite wp_modify. cbn. split; [done|]. split; [lia|done].
Qed.
End Unfinished.

Section Repeated.
Context {D : Type} `{HealthyStore D}.
Context {share sig : Type}.
Context (T : net_config) (N : net_crypto share).
Implicit Types n : network D share sig.

(** A broadcast saves its message, however the sending ends. *)
Lemma broadcast_saves m m' text n :
  nt_catchupBlocks T < nm_blockID (wm_base m) -> nt_badNetwork T = false ->
  signMessage N m = Ok m' -> serializeMessage N m' = Ok text -> text <> ""%string ->
  db_wf (md_db (nw_outgoing n)) ->
  db_lookup (md_db (nw_outgoing n))
    (createKey2 (nt_msgCfg T) (nm_blockID (wm_base m')) (md_counter (nw_outgoing n))) = None ->
  text_added (nt_msgCfg T) (nm_blockID (wm_base m')) (nw_outgoing n) (nw_outgoing (broadcastMessage T N m n).2) text.
Proof.
  intros Hb Hbad Hsign Htext Hne Hwf Hfresh. unfold broadcastMessage, broadcastMessageImpl.
  rewrite (proj2 (Z.leb_gt _ _) Hb), Hbad, andb_false_r.
  destruct (saveMsg_saves (nt_msgCfg T) (serializeMessage N) (fun m => nm_blockID (wm_base m)) m' text (nw_outgoing n)
    Htext Hne Hwf Hfresh) as (db & Hsave & Hsaved).
  assert (saveOutgoing T N m' n = (Ok tt, set_outgoing db n)) as Hs by (unfold saveOutgoing; by rewrite Hsave).
  unfold nested_all, mbind, M_bind, lift_res. rewrite Hsign, Hs. unfold mret, M_ret, get.
  pose proof (sendToTwoThirds_keeps T N (nw_outgoing : network D share sig -> _) m' ∅
    (S (length (nw_sends (set_outgoing db n)))) ltac:(done) ltac:(done) (set_outgoing db n)) as Hk.
  destruct (sendToTwoThirds T N m' ∅ _ (set_outgoing db n)) as [[sent|e] n1]; cbn [fst snd] in Hk |- *; [|by rewrite Hk].
  pose proof (delayRest_keeps T (nw_outgoing : network D share sig -> _) (destinations T) m' sent ltac:(done) n1) as Hk1.
  destruct (delayRest T (destinations T) m' sent n1) as [[u|e] n2]; cbn [fst snd] in Hk1 |- *; by rewrite Hk1, Hk.
Qed.
End Repeated.


(** ** The consensus starts with the proposals that arrived *)
Section ProposalTimeout.
Context {D : Type} `{HealthyStore D}.
Context {share sig : Type}.
Context (C : chain_config) (T : net_config) (N : net_crypto share).
Context (others : nat -> schain D * network D share sig -> schain D * network D share sig).
Local Abbreviation node := (schain D * network D share sig)%type.
Implicit Types s : timeouts D share sig.
Implicit Types c : schain D.
Context (Htotal : 1 <= dc_totalSigners (cc_daProofCfg C) < 2 ^ 63) (Hreq : 1 <= dc_requiredSigners (cc_daProofCfg C)).
Context (b zc zs : Z) (Hb : 2 <= b < 2 ^ 64 - 1) (Hz : 0 <= Z.max zc zs).

(** The proposers of block [b + 1] whose data availability proof is stored. *)
Definition proof_stored c (i : Z) : Prop :=
  is_Some (db_lookup (st_daProof (sc_stores c)) (createKey2 (cc_daProofCfg C) (b + 1) i)).

(** The consensus of block [b + 1] has not started, the proofs do not exceed the
    required number, and no exit is requested. *)
Record awaiting c : Prop := {
  aw_vector : db_wf (st_vector (sc_stores c)) /\ no_empty (st_vector (sc_stores c)) /\
    entry (st_vector (sc_stores c)) (createKey1 (cc_vectorCfg C) (b + 1)) = None;
  aw_proofs : db_wf (st_daProof (sc_stores c)) /\ no_empty (st_daProof (sc_stores c)) /\
    zlen (present (cc_daProofCfg C) (st_daProof (sc_stores c)) (b + 1) (signer_indices (cc_daProofCfg C))) <=
      dc_requiredSigners (cc_daProofCfg C);
  aw_exits : wd_exits (sc_world c) = []
}.

(** The consensus has started in [c'], which was [c], with the proposals whose
    proofs were stored. *)
Definition consensus_started c c' : Prop := exists v,
  co_messages (sc_output c') = co_messages (sc_output c) ++ [(b + 1, v)] /\
  (forall i, 1 <= i <= dc_totalSigners (cc_daProofCfg C) ->
     getProposalValue v i = Ok (bool_decide (proof_stored c i))) /\
  entry (st_vector (sc_stores c')) (createKey1 (cc_vectorCfg C) (b + 1)) <> None.

Lemma proofs_vector c :
  awaiting c -> exists proofs, readSet (cc_daProofCfg C) (b + 1) (st_daProof (sc_stores c)) = (Ok proofs, st_daProof (sc_stores c)) /\
    forall i, 1 <= i <= dc_totalSigners (cc_daProofCfg C) -> is_Some (proofs !! i) <-> proof_stored c i.
Proof.
  intros [_ (Hwf & Hne & Hfew) _].
  pose proof (collect_spec (cc_daProofCfg C) Htotal Hreq (st_daProof (sc_stores c)) (b + 1) (signer_indices (cc_daProofCfg C)) ∅ Hwf) as Hc.
  assert (NoDup (signer_indices (cc_daProofCfg C))) as Hnd by apply NoDup_seqZ.
  specialize (Hc Hnd ltac:(intros; apply lookup_empty) ltac:(intros x v _ Hv ->; by apply (Hne _ Hv)) Hfew).
  unfold wp in Hc. unfold readSet, readSetUnsafe. destruct (collect _ _ _ _ _) as [r d]. cbn in Hc.
  destruct Hc as (-> & proofs & -> & _ & Hl). exists proofs. split; [done|]. intros i Hi. rewrite Hl, decide_True; [done|].
  apply elem_of_seqZ. lia.
Qed.

Lemma timeoutArrived_starts c :
  chain_at b zc zs c -> awaiting c ->
  wp (blockProposalReceiptTimeoutArrived C (b + 1)) c (fun r c' => r = Ok tt /\ consensus_started c c').
Proof.
  intros Ha Hw. destruct (proofs_vector c Hw) as (proofs & Hset & Hproofs). pose proof Hw as [(Hwf & Hne & Hnone) _ Hex].
  unfold blockProposalReceiptTimeoutArrived. rewrite wp_nested, wp_bind. unfold getLastCommittedBlockID. rewrite wp_gets, (ca_last _ _ _ _ Ha).
  rewrite (proj2 (Z.leb_gt (b + 1) b)) by lia. rewrite wp_bind. unfold on_daProofDb, on_stores. rewrite !wp_zoom.
  unfold getCurrentProposalVector. rewrite wp_bind. unfold wp at 1. rewrite Hset. cbn [fst snd]. rewrite wp_ret.
  unfold tryStartingConsensus. rewrite wp_bind. unfold on_vectorDb, on_stores. rewrite !wp_zoom. cbn [sc_stores st_vector].
  destruct (trySavingProposalVector_spec (cc_vectorCfg C) (st_vector (sc_stores c)) (b + 1) (dc_totalSigners (cc_daProofCfg C)) proofs
    Hwf Hne ltac:(lia)) as (t & v & _ & Ht & _ & _ & Hsave).
  eapply wp_mono; [exact Hsave|]. cbn beta. intros r d (_ & (_ & Hent & _) & ->). rewrite Hnone, bool_decide_eq_true_2 by done.
  cbv beta iota. unfold startConsensus. rewrite wp_bind.
  destruct (clock_run (fun _ => True) (mkSchain (sc_info c) (sc_status c)
    (mkStores (st_block (sc_stores c)) (st_price (sc_stores c)) (st_proposal (sc_stores c)) (st_hash (sc_stores c)) d
      (st_daProof (sc_stores c)) (st_daSig (sc_stores c)) (st_pending (sc_stores c)) (st_info (sc_stores c)))
    (sc_output c) (sc_world c))) as (now & w & Hr & _ & Hwx).
  { unfold clock_reads, getCurrentTimeMs, on_world, zoom, mbind, M_bind, get, put, mret, M_ret. cbn.
    destruct (wd_times (sc_world c)) as [|t1 [|t2 ts]]; cbn; eauto. }
  cbn [st_block st_price st_proposal st_hash st_vector st_daProof st_daSig st_pending st_info sc_info sc_status sc_stores sc_output sc_world].
  unfold wp at 1. rewrite Hr. cbn [fst snd]. rewrite wp_bind, wp_gets. cbn [sc_info sc_status sc_stores sc_output sc_world] in Hwx |- *.
  rewrite Hex in Hwx. unfold setStatus, on_status. rewrite wp_bind, wp_zoom, wp_modify. cbn [sc_info sc_status sc_stores sc_output sc_world].
  assert (forall i u t' o, checkForExit (mkSchain i u t' o w : schain D) = (Ok tt, mkSchain i u t' o w)) as Hexit.
  { intros. unfold checkForExit, isExitRequested, on_world, zoom, mbind, M_bind, get. cbn. rewrite Hwx. cbn. by destruct w. }
  rewrite wp_bind. unfold wp at 1. rewrite Hexit. cbn [fst snd]. rewrite wp_bind. unfold getLastCommittedBlockID. rewrite wp_gets.
  cbn [sc_info]. rewrite (ca_last _ _ _ _ Ha), (proj2 (Z.leb_gt (b + 1) b)), u64_small, Z.ltb_irrefl by lia.
  unfold postMessage. rewrite wp_bind. unfold wp at 1. rewrite Hexit. cbn [fst snd]. rewrite wp_bind, wp_check.
  split; [intros _|intros ?%negb_false_iff%Z.eqb_eq; lia]. unfold on_output. rewrite wp_zoom, wp_modify. split; [done|].
  exists (mkVectorFromProofs (dc_totalSigners (cc_daProofCfg C)) proofs). split; [done|]. split.
  - intros i Hi. rewrite getProposalValue_proofs by lia. f_equal. apply bool_decide_ext. by apply Hproofs.
  - cbn. by rewrite Hent.
Qed.
End ProposalTimeout.

(** If the proposals do not arrive in time, the consensus starts with those
    that did.  In a turn more than thirty seconds after the last commit or the
    start, while the consensus of the next block has not started, the node posts
    the vector that is true exactly for the proposers whose data availability
    proofs are stored at that moment, saves it, so that proofs that arrive later
    do not start the consensus again, and notes that the timeout has been
    handled; whatever the other threads do before each step as long as they
    neither commit a block nor start the consensus themselves. *)
Theorem proposal_timeout_starts {D} `{HealthyStore D} {share sig} C T (N : net_crypto share) others b zc zs
    (s : timeouts D share sig) :
  1 <= dc_totalSigners (cc_daProofCfg C) < 2 ^ 63 -> 1 <= dc_requiredSigners (cc_daProofCfg C) -> 2 < cc_nodeCount C ->
  2 <= b < 2 ^ 64 - 1 -> 0 <= Z.max zc zs ->
  let G p := awaiting C b p.1 in
  let P t := Z.max zc zs + BLOCK_PROPOSAL_RECEIVE_TIMEOUT_MS < t < 2 ^ 64 /\
    0 <= t - Z.max (tm_lastRebroadCastTime s) (Z.max zc zs) <= REBROADCAST_TIMEOUT_MS in
  steady b zc zs G (node_of s) -> clock_reads P (tm_chain s) -> tm_proposalReceiptTimedOut s = false ->
  (forall k p, steady b zc zs G p -> steady b zc zs G (others k p) /\ (clock_reads P p.1 -> clock_reads P (others k p).1)) ->
  exists c s', timeoutTurn C T N others s = (Ok true, s') /\ awaiting C b c /\
    consensus_started C b c (tm_chain s') /\ tm_proposalReceiptTimedOut s' = true.
Proof.
  intros Htotal Hreq Hn Hb Hz G P Hs Hc Hflag Hoth. unfold BLOCK_PROPOSAL_RECEIVE_TIMEOUT_MS, REBROADCAST_TIMEOUT_MS in P.
  assert (respects others b zc zs G P) as HR.
  { split; [intros k p Hp; by apply Hoth|intros k p Hp; by apply Hoth|]. intros c w n [? ? Hex] Hw. split; [done|done|cbn in *; congruence]. }
  enough (wp (timeoutWork C T N others) s (fun r s' => r = Ok tt /\ exists c, awaiting C b c /\
    consensus_started C b c (tm_chain s') /\ tm_proposalReceiptTimedOut s' = true)) as Hw.
  { unfold wp in Hw. unfold timeoutTurn. destruct (timeoutWork C T N others s) as [r s']. cbn in Hw. destruct Hw as (-> & c & Hw).
    by exists c, s'. }
  eapply (turn_runs C T N others b zc zs Hb G P HR s); [done|done|done|].
  intros t s' [Hlate Hnot] Hs' Hf Hl. unfold checkProposalTimeout, BLOCK_PROPOSAL_RECEIVE_TIMEOUT_MS, set_proposalReceiptTimedOut.
  rewrite !wp_bind, wp_when, u64_small by lia. split; [intros ?%Z.leb_le; lia|intros _].
  rewrite wp_bind, wp_gets, Hf, Hflag, wp_when. cbn [negb andb].
  split; [intros _|intros [?%Z.ltb_ge|?%Z.ltb_ge]%andb_false_iff; lia].
  unfold ignoring, wp at 1. rewrite (surjective_pairing ((on_chain _ _ ≫= _) s')).
  enough (wp (on_chain others (blockProposalReceiptTimeoutArrived C (b + 1)) ;; modify (fun s => mkTimeouts (tm_chain s) (tm_net s)
    (tm_step s) (tm_lastRebroadCastTime s) true)) s' (fun r s2 => r = Ok tt /\ tm_lastRebroadCastTime s2 = tm_lastRebroadCastTime s' /\
      exists c, awaiting C b c /\ consensus_started C b c (tm_chain s2) /\ tm_proposalReceiptTimedOut s2 = true)) as Hw.
  { unfold wp in Hw. destruct ((on_chain others _ ≫= _) s') as [r s2]. cbn [fst snd] in Hw |- *. destruct Hw as (-> & Hl2 & Hw). cbn [fst snd].
    unfold checkRebroadcast, REBROADCAST_TIMEOUT_MS. rewrite wp_bind, wp_gets, Hl2, Hl, u64_small, wp_when by lia.
    split; [intros [_ ?%Z.ltb_lt]%andb_true_iff; lia|done]. }
  rewrite wp_bind, wp_on_chain. pose proof (seen_steady others b zc zs G P HR s' Hs') as [Ha Haw].
  eapply wp_mono; [by apply (timeoutArrived_starts C Htotal Hreq b zc zs Hb (seen others s').1)|].
  cbn beta. intros r c' (-> & Hst). rewrite wp_modify. cbn. split; [done|]. split; [done|]. by exists (seen others s').1.
Qed.

(** *** Not early *)

(** A turn within thirty seconds does nothing that the other threads do not do. *)
Lemma turn_early {D} `{HealthyStore D} {share sig} C T (N : net_crypto share) others b zc zs G (s : timeouts D share sig) :
  2 <= b < 2 ^ 64 - 1 -> 0 <= Z.max zc zs -> 2 < cc_nodeCount C ->
  let P t := Z.max (tm_lastRebroadCastTime s) (Z.max zc zs) <= t <= Z.max zc zs + BLOCK_PROPOSAL_RECEIVE_TIMEOUT_MS in
  respects others b zc zs G P -> Z.max zc zs + BLOCK_PROPOSAL_RECEIVE_TIMEOUT_MS < 2 ^ 64 ->
  steady b zc zs G (node_of s) -> clock_reads P (tm_chain s) ->
  exists s', timeoutTurn C T N others s = (Ok true, s') /\ steady b zc zs G (node_of s') /\
    tm_proposalReceiptTimedOut s' = false.
Proof.
  intros Hb Hz Hn P HR Hmax Hs Hc. unfold BLOCK_PROPOSAL_RECEIVE_TIMEOUT_MS in *.
  enough (wp (timeoutWork C T N others) s (fun r s' => r = Ok tt /\ steady b zc zs G (node_of s') /\
    tm_proposalReceiptTimedOut s' = false)) as Hw.
  { unfold wp in Hw. unfold timeoutTurn. destruct (timeoutWork C T N others s) as [r s']. cbn in Hw. destruct Hw as (-> & Hw).
    by exists s'. }
  eapply (turn_runs C T N others b zc zs Hb G P HR s); [done|done|done|].
  intros t s' [Hlo Hhi] Hs' Hf Hl. unfold checkProposalTimeout, BLOCK_PROPOSAL_RECEIVE_TIMEOUT_MS, set_proposalReceiptTimedOut.
  rewrite !wp_bind, wp_when, u64_small by lia. split; [intros _|intros ?%Z.leb_gt; lia].
  rewrite wp_modify, wp_bind, wp_gets, wp_when. cbn [tm_proposalReceiptTimedOut negb andb].
  split; [intros [_ ?%Z.ltb_lt]%andb_true_iff; lia|intros _]. unfold checkRebroadcast, REBROADCAST_TIMEOUT_MS.
  rewrite wp_bind, wp_gets. cbn [tm_lastRebroadCastTime]. rewrite Hl, u64_small, wp_when by lia.
  split; [intros [_ ?%Z.ltb_lt]%andb_true_iff; lia|done].
Qed.

(** ** At concrete inputs *)

(** The chain after block 8, committed at 1000000 ms, with one reading of the
    clock. *)
Definition toy_chain_at (t : Z) : schain (gmap string string) :=
  mkSchain (mkInfo 8 {| ts_s := 0; ts_ms := 0 |} 1000000 0 0 0 0 0 900000)
    (mkStatus 0 false true false 0 1000 0) (demo_stores (demo_store (lru_new 3))) (mkOutput [] [] [] [] []) (mkWorld [t] [] [] [] []).

Definition toy_vote9 : WireMessage (Z * Z) := toy_message MSG_BVB_BROADCAST 9 3.

Definition toy_signed9 : WireMessage (Z * Z) :=
  match signMessage toy_crypto toy_vote9 with Ok m => m | Err _ => toy_vote9 end.

Lemma toy_signed9_wf : wire_wf toy_crypto toy_signed9.
Proof.
  constructor; cbn; unfold word; try lia; try done.
  all: try (split; [vm_compute; repeat constructor|done]).
Qed.

(** Four nodes; after block 8 the vote for block 9 was broadcast, and nothing
    happens for more than two minutes. *)
Definition toy_sender : network (gmap string string) (Z * Z) Z :=
  (broadcastMessage toy_config toy_crypto toy_vote9 (toy_network ∅ [SendAccepted; SendAccepted])).2.

(** Between the steps of the turn the peers make room for more messages. *)
Definition toy_others (k : nat) (p : schain (gmap string string) * network (gmap string string) (Z * Z) Z) :
    schain (gmap string string) * network (gmap string string) (Z * Z) Z :=
  (p.1, set_sent (nw_sent p.2) (SendAgain :: SendAccepted :: SendAccepted :: nw_sends p.2) p.2).

Definition toy_stuck : timeouts (gmap string string) (Z * Z) Z :=
  mkTimeouts (toy_chain_at 1130000) toy_sender 0 1000000 true.

Lemma toy_sender_text : text_added demo_config (nm_blockID (wm_base toy_signed9)) (nw_outgoing (toy_network ∅ [SendAccepted; SendAccepted]))
  (nw_outgoing toy_sender)
  (nc_write toy_crypto (messageFields toy_signed9)).
Proof.
  apply (broadcast_saves toy_config toy_crypto toy_vote9 toy_signed9 _ (toy_network ∅ [SendAccepted; SendAccepted])); [done|done|done| | |exact empty_db_wf|done].
  - apply serializeMessage_ok; [apply _|]. apply toy_signed9_wf.
  - by vm_compute.
Qed.

Lemma toy_sender_ready : ready toy_config toy_sender.
Proof.
  destruct (broadcast_run toy_config toy_crypto toy_config_wf toy_vote9 toy_signed9 (toy_network ∅ [SendAccepted; SendAccepted])
    (nc_write toy_crypto (messageFields toy_signed9)) true) as (l & n' & Hr & _ & _ & (Hq & Hl & _) & _).
  - done.
  - done.
  - reflexivity.
  - apply serializeMessage_ok; [apply _|apply toy_signed9_wf].
  - split; [done|]. cbn [nw_sends toy_network]. set_solver.
  - vm_compute. discriminate.
  - done.
  - intros _. exact empty_db_wf.
  - unfold toy_sender, broadcastMessage. rewrite Hr. by split.
Qed.

Lemma toy_sender_texts : texts_ok toy_config toy_crypto 8 toy_sender.
Proof.
  destruct toy_sender_text as (_ & Hwf & Honly). split; [exact Hwf|].
  intros text [-> |(k & _ & Hk)]%Honly.
  - exists toy_signed9. split; [exact (parseMessage_fields toy_crypto toy_signed9 8 toy_signed9_wf)|].
    split; [done|]. eexists. apply serializeMessage_ok; [apply _|apply toy_signed9_wf].
  - exfalso. revert Hk. cbn [nw_outgoing toy_network md_db]. unfold db_lookup, locate. cbn. by rewrite !lookup_empty.
Qed.


(** After 31 seconds without a proof the consensus starts with no proposals. *)
Lemma proposal_timeout_starts_witness :
  exists c s', timeoutTurn demo_chain toy_config toy_crypto (fun _ p => p)
      (mkTimeouts (toy_chain_at 1031000) toy_sender 0 1000000 false) = (Ok true, s') /\
    consensus_started demo_chain 8 c (tm_chain s').
Proof.
  destruct (proposal_timeout_starts demo_chain toy_config toy_crypto (fun _ p => p) 8 1000000 900000
    (mkTimeouts (toy_chain_at 1031000) toy_sender 0 1000000 false)) as (c & s' & Hr & _ & Hc & _).
  - cbn. lia.
  - cbn. lia.
  - cbn. lia.
  - lia.
  - lia.
  - split; [done|]. split; [split; [exact empty_db_wf|split; [|done]]|split; [exact empty_db_wf|split; [|done]]|done].
    all: intros k; unfold db_lookup, locate; cbn; by rewrite !lookup_empty.
  - exists 1031000. split; [done|]. by vm_compute.
  - done.
  - done.
  - exists c, s'. split; [exact Hr|exact Hc].
Defined.

(** A block that is committed between the reading of the clock and that of the
    time of the last commit makes the difference wrap around: the timeouts fire
    although the block is new. *)
Example race_rebroadcasts :
  let commit c := mkSchain (mkInfo 9 {| ts_s := 0; ts_ms := 0 |} 1001000 0 0 0 0 0 900000) (sc_status c) (sc_stores c)
    (sc_output c) (sc_world c) in
  let others k p := if bool_decide (k = 2)%nat then (commit p.1, p.2) else p in
  let '(r, s) := timeoutTurn demo_chain toy_config toy_crypto others
    (mkTimeouts (toy_chain_at 1000999) (toy_network ∅ []) 0 1000000 false) in
  r = Ok true /\ tm_proposalReceiptTimedOut s = true /\ tm_lastRebroadCastTime s = 1000999.
Proof. by vm_compute. Qed.
