(* ===== verification/AgentRuns.v ===== *)
(** * Runs of the block consensus agent

    The agent ([BlockConsensus]) routes every message to one binary consensus per
    block and proposer, which it keeps in caches.  Here the runs of the agent over
    any sequence of messages are related to the protocol of [BinSpec]: whatever is
    routed, every binary consensus that the agent keeps is in a state that the
    protocol reaches with the proposals and messages that were routed, and every
    message is handled to the end. *)

From stdpp Require Import base tactics gmap list strings relations.
From Stdlib Require Import ZArith Lia.
From S2P Require Import Prelude Bytes Messages BinConsensus BinSpec LruCache LevelDb LevelDbSets BlockSigShare.
From S2P Require Import ProposalVector BlockConsensus BlockTheorems.

(** ** Computations that end *)

(** Whatever the state, the bound on the recursion is enough. *)
Definition terminates {S A} (c : M S A) : Prop := forall s, (c s).1 <> Err OutOfFuel.

Section Terminates.
Context {S : Type}.

Lemma terminates_ret {A} (a : A) : terminates (S := S) (mret a).
Proof. done. Qed.

Lemma terminates_throw {A} e : e <> OutOfFuel -> terminates (S := S) (throw (A := A) e).
Proof. intros He s. cbn. congruence. Qed.

Lemma terminates_get : terminates (S := S) get.
Proof. done. Qed.

Lemma terminates_gets {A} (f : S -> A) : terminates (gets f).
Proof. done. Qed.

Lemma terminates_modify (f : S -> S) : terminates (modify f).
Proof. done. Qed.

Lemma terminates_put (x : S) : terminates (put x).
Proof. done. Qed.

Lemma terminates_lift {A} (r : res A) : r <> Err OutOfFuel -> terminates (S := S) (lift_res r).
Proof. intros Hr s. exact Hr. Qed.

Lemma terminates_check e b : e <> OutOfFuel -> terminates (S := S) (check e b).
Proof. intros He s. unfold check. destruct b; cbn; congruence. Qed.

Lemma terminates_bind {A B} (c : M S A) (k : A -> M S B) :
  terminates c -> (forall a, terminates (k a)) -> terminates (c ≫= k).
Proof.
  intros Hc Hk s. unfold mbind, M_bind. specialize (Hc s). destruct (c s) as [[a|e] s']; [apply Hk|]. cbn in *. congruence.
Qed.

Lemma terminates_when b c : terminates c -> terminates (S := S) (when b c).
Proof. by destruct b. Qed.

Lemma terminates_nested {A} e (c : M S A) : e <> OutOfFuel -> terminates c -> terminates (nested e c).
Proof.
  intros He Hc s. unfold nested. specialize (Hc s). destruct (c s) as [[a|e'] s']; [done|]. cbn in *.
  destruct e'; cbn; congruence.
Qed.

Lemma terminates_nested_skale {A} e (c : M S A) : e <> OutOfFuel -> terminates c -> terminates (nested_skale e c).
Proof.
  intros He Hc s. unfold nested_skale. specialize (Hc s). destruct (c s) as [[a|e'] s']; [done|]. cbn in *.
  destruct e'; cbn; congruence.
Qed.

Lemma terminates_zoom {T A} (getf : S -> T) setf (c : M T A) : terminates c -> terminates (zoom getf setf c).
Proof. intros Hc s. unfold zoom. specialize (Hc (getf s)). by destruct (c (getf s)). Qed.
End Terminates.

Create HintDb ends.
#[export] Hint Resolve terminates_ret terminates_throw terminates_get terminates_gets terminates_modify terminates_put
  terminates_lift terminates_check : ends.

(** Splits a method along its structure. *)
Ltac terminates_auto :=
  repeat first
    [ solve [auto with ends] | apply terminates_bind; [|intros ?] | apply terminates_when | apply terminates_nested
    | apply terminates_nested_skale | apply terminates_zoom
    | match goal with |- terminates (match ?x with _ => _ end) => destruct x eqn:? end | done ].

(** *** The caches *)
Section Lru.
Context {K V : Type} `{Countable K}.
Implicit Types k : K.

Lemma lru_get_terminates k : terminates (lru_get (V := V) k).
Proof. intros c. unfold lru_get, mbind, M_bind, get. by destruct (lru_find k c). Qed.

Lemma lru_getIfExists_terminates k : terminates (lru_getIfExists (V := V) k).
Proof. intros c. unfold lru_getIfExists, mbind, M_bind, get. by destruct (lru_find k c). Qed.

Lemma lru_exists_terminates k : terminates (lru_exists (V := V) k).
Proof. done. Qed.

Lemma lru_put_terminates k (v : V) : terminates (lru_put k v).
Proof. done. Qed.

Lemma lru_putIfDoesNotExist_terminates k (v : V) : terminates (lru_putIfDoesNotExist k v).
Proof. intros c. unfold lru_putIfDoesNotExist, mbind, M_bind, get. by destruct (existsUnsafe k c). Qed.
End Lru.
#[export] Hint Resolve lru_get_terminates lru_getIfExists_terminates lru_exists_terminates lru_put_terminates
  lru_putIfDoesNotExist_terminates : ends.

Lemma keeps_nested_skale' {S X A} (f : S -> X) e (c : M S A) : keeps f c -> keeps f (nested_skale e c).
Proof. intros Hc s. unfold nested_skale. specialize (Hc s). by destruct (c s). Qed.

Create HintDb kept.

Lemma getProposalValue_ends vec i : getProposalValue vec i <> Err OutOfFuel.
Proof. unfold getProposalValue, rcheck. repeat case_match; try done; cbn; by repeat case_match. Qed.

Lemma createProtocolKey_ends {share} (m : NetworkMessage share) : createProtocolKey m <> Err OutOfFuel.
Proof. unfold createProtocolKey, rcheck. by repeat (case_match; cbn). Qed.

(** ** The operations beside the binary consensuses end *)
Section Agent.
Context {share shareset sig : Type}.
Context (A : agent_env share shareset sig) (now : Z).
Local Abbreviation state := (agent_state share sig).
Local Abbreviation G := (ae_sig A).
Local Abbreviation E := (sg_bin (ae_sig A)).
Local Abbreviation nodeCount := (be_nodeCount (sg_bin (ae_sig A))).
Implicit Types s : state.

(** The library that parses signature shares throws only its exceptions. *)
Definition parses_end : Prop := forall t b i, sg_createSigShare G t b i <> Err OutOfFuel.
Context (Hparse : parses_end).

Lemma collectInMemory_terminates signers b p acc : terminates (collectInMemory G signers b p acc).
Proof.
  revert acc. induction signers as [|i signers IH]; intros acc; cbn [collectInMemory]; terminates_auto.
Qed.

Lemma addShares_ends items b set : addShares G items b set <> Err OutOfFuel.
Proof.
  revert set. induction items as [|[i t] items IH]; intros set; cbn [addShares]; [done|].
  destruct (sg_hasNodeInfo G i); cbn; [|done]. destruct (bool_decide _); cbn; [|done].
  pose proof (Hparse t b i) as Hp. destruct (sg_createSigShare G t b i); cbn; [apply IH|congruence].
Qed.

Lemma verifyShare_ends sh hash : verifyThresholdSigShare E sh hash <> Err OutOfFuel.
Proof.
  unfold verifyThresholdSigShare. destruct (negb _); cbn; [|done]. destruct (be_isSgxEnabled E); cbn; [|done].
  by destruct (be_verifyBlsSigShare E sh hash).
Qed.

Lemma saveShare_terminates sh p : terminates (checkAndSaveShareInMemory G sh p).
Proof.
  unfold checkAndSaveShareInMemory, writeStringToSetInMemory. apply terminates_nested; [done|].
  destruct sh as [sh|]; [|by apply terminates_throw].
  apply terminates_bind; [apply terminates_lift, verifyShare_ends|intros _].
  apply terminates_bind; [by apply terminates_check|intros _].
  apply terminates_bind; [|intros [set|]; [|apply terminates_ret]].
  - terminates_auto. apply collectInMemory_terminates.
  - apply terminates_bind; [apply terminates_lift, addShares_ends|intros set'].
    terminates_auto.
Qed.

#[local] Hint Resolve saveShare_terminates : ends.

Lemma decideBlock_terminates b i stats : terminates (decideBlock A now b i stats).
Proof.
  unfold decideBlock, mkBlockSignBroadcastMessage, onShares, onDecided. terminates_auto.
Qed.

Lemma buildStats_terminates b : terminates (buildStats A b).
Proof. unfold buildStats, onTrue, onFalse. terminates_auto. Qed.
#[local] Hint Resolve decideBlock_terminates buildStats_terminates : ends.

Lemma chooseProposer_terminates order b : terminates (chooseProposer A now order b).
Proof.
  induction order as [|i order IH]; cbn [chooseProposer]; unfold onTrue, onFalse; terminates_auto.
Qed.
#[local] Hint Resolve chooseProposer_terminates : ends.

Lemma getSeed_ends b : getSeed A b <> Err OutOfFuel.
Proof. unfold getSeed, rcheck. destruct (b <=? 1); [done|]. destruct (_ <=? _); cbn; [|done]. by destruct (ae_blockHash A (b - 1)). Qed.
#[local] Hint Resolve getSeed_ends : ends.

Lemma report_terminates d : terminates (reportConsensusAndDecideIfNeeded A now d).
Proof.
  unfold reportConsensusAndDecideIfNeeded, addDecision, decideDefaultBlock, onTrue, onFalse, onDecided. terminates_auto.
Qed.
End Agent.

(** ** The binary consensuses of an agent *)
Section Children.
Context {share shareset sig : Type}.
Context (A : agent_env share shareset sig) (now : Z).
Local Abbreviation state := (agent_state share sig).
Local Abbreviation message := (NetworkMessage share).
Local Abbreviation G := (ae_sig A).
Local Abbreviation E := (sg_bin (ae_sig A)).
Local Abbreviation nodeCount := (be_nodeCount (sg_bin (ae_sig A))).
Implicit Types s : state.

(** What was proposed to each binary consensus and which messages arrived. *)
Context (own : ProtocolKey -> Z -> Prop) (inp : ProtocolKey -> Z -> message -> Prop).

Definition key_of (i : nat) (b : Z) : ProtocolKey := {| pk_blockID := b; pk_blockProposerIndex := Z.of_nat i + 1 |}.

(** The protocol reaches this state. *)
Definition child_ok (key : ProtocolKey) (c : bin_state share) : Prop :=
  rtc (bin_step (child_env A key) (own key) (inp key)) bin_init c.

Record cache_ok (i : nat) (cache : lru_cache Z (bin_state share)) : Prop := {
  co_inv : lru_inv cache;
  co_max : 1 <= lru_max_size cache;
  co_child : forall b c, lru_lookup cache b = Some c -> child_ok (key_of i b) c
}.

Definition children_ok s : Prop := forall i cache, ag_children s !! i = Some cache -> cache_ok i cache.

Lemma child_round key c : child_ok key c -> 0 <= bs_currentRound c.
Proof.
  unfold child_ok. intros Hc.
  enough (forall x, rtc (bin_step (child_env A key) (own key) (inp key)) x c -> 0 <= bs_currentRound x -> 0 <= bs_currentRound c) as Hx
    by by apply (Hx bin_init Hc).
  clear Hc. induction 1 as [|x y z Hs _ IH]; [done|]. intros Hx. apply IH.
  destruct Hs; unfold add_bvb, add_aux, mark_broadcast, insert_bin; repeat case_match; cbn; lia.
Qed.

(** A method keeps the binary consensuses in states of the protocol, and ends. *)
Definition sound {B} (c : M state B) : Prop := forall s, children_ok s -> children_ok (c s).2 /\ (c s).1 <> Err OutOfFuel.

Lemma sound_keeps {B} (c : M state B) : keeps ag_children c -> terminates c -> sound c.
Proof. intros Hk Ht s Hs. split; [|apply Ht]. unfold children_ok. by rewrite Hk. Qed.

Lemma sound_bind {B B'} (c : M state B) (k : B -> M state B') : sound c -> (forall a, sound (k a)) -> sound (c ≫= k).
Proof.
  intros Hc Hk s Hs. unfold mbind, M_bind. destruct (Hc s Hs) as [H1 H2]. destruct (c s) as [[a|e] s']; cbn in *; [by apply Hk|].
  split; [done|congruence].
Qed.

Lemma sound_nested {B} e (c : M state B) : e <> OutOfFuel -> sound c -> sound (nested e c).
Proof.
  intros He Hc s Hs. unfold nested. destruct (Hc s Hs) as [H1 H2]. destruct (c s) as [[a|e'] s']; cbn in *; [done|].
  split; [done|]. destruct e'; cbn; congruence.
Qed.

Lemma sound_nested_skale {B} e (c : M state B) : e <> OutOfFuel -> sound c -> sound (nested_skale e c).
Proof.
  intros He Hc s Hs. unfold nested_skale. destruct (Hc s Hs) as [H1 H2]. destruct (c s) as [[a|e'] s']; cbn in *; [done|].
  split; [done|]. destruct e'; cbn; congruence.
Qed.

Lemma sound_if {B} (b : bool) (c d : M state B) : sound c -> sound d -> sound (if b then c else d).
Proof. by destruct b. Qed.

Lemma sound_ret {B} (a : B) : sound (mret a).
Proof. by apply sound_keeps. Qed.

Lemma sound_check e b : e <> OutOfFuel -> sound (check e b).
Proof. intros He. apply sound_keeps; [apply keeps_check|by apply terminates_check]. Qed.

Lemma sound_lift {B} (r : res B) : r <> Err OutOfFuel -> sound (lift_res r).
Proof. intros Hr. apply sound_keeps; [apply keeps_lift|by apply terminates_lift]. Qed.

(** *** Access to the caches *)
Lemma onChildren_run {B} i (c : M (lru_cache Z (bin_state share)) B) s cache :
  ag_children s !! i = Some cache ->
  onChildren i c s = ((c cache).1, set_children (<[i := (c cache).2]> (ag_children s)) s).
Proof. intros Hc. unfold onChildren, mbind, M_bind, get, put, lift_res. rewrite Hc. by destruct (c cache). Qed.

Lemma onChildren_none {B} i (c : M (lru_cache Z (bin_state share)) B) s :
  ag_children s !! i = None -> onChildren i c s = (Err StdOutOfRange, s).
Proof. intros Hc. unfold onChildren, mbind, M_bind, get. by rewrite Hc. Qed.

Lemma children_ok_insert i cache s :
  children_ok s -> cache_ok i cache -> children_ok (set_children (<[i := cache]> (ag_children s)) s).
Proof.
  intros Hs Hc j cache' Hj. cbn in Hj. apply list_lookup_insert_Some in Hj as [(-> & -> & _)|[_ Hj]]; [done|by apply Hs].
Qed.

Lemma cache_ok_touch i b cache : cache_ok i cache -> cache_ok i (lru_touch b cache).
Proof.
  intros [Hi Hm Hc]. split; [by apply lru_touch_inv|by rewrite lru_touch_max|]. intros b' c. rewrite lru_lookup_touch by done. apply Hc.
Qed.

Lemma cache_ok_put i b c cache : cache_ok i cache -> child_ok (key_of i b) c -> cache_ok i (putUnsafe b c cache).
Proof.
  intros [Hi Hm Hc] Hb. split; [by apply lru_putUnsafe_inv|by rewrite lru_put_max|]. intros b' c' Hl.
  destruct (decide (b = b')) as [<-|Hne]; [rewrite lru_lookup_put in Hl by done; congruence|]. by apply Hc, (lru_lookup_put_ne _ b c).
Qed.

Lemma cache_ok_modify i b c cache :
  cache_ok i cache -> child_ok (key_of i b) c -> cache_ok i (lru_modify b (fun _ => c) cache).
Proof.
  intros [Hi Hm Hc] Hb. split; [by apply lru_modify_inv|done|]. intros b' c'. rewrite lru_lookup_modify.
  case_decide as Hd; [subst b'|apply Hc]. destruct (lru_lookup cache b); [|done]. cbn. by intros [= <-].
Qed.

(** *** Looking a binary consensus up *)
Lemma getChild_spec key s :
  children_ok s ->
  wp (getChild A key) s (fun r s' => children_ok s' /\ r <> Err OutOfFuel /\ forall c, r = Ok c ->
    1 <= pk_blockProposerIndex key /\ exists cache, ag_children s' !! Z.to_nat (pk_blockProposerIndex key - 1) = Some cache /\
      lru_lookup cache (pk_blockID key) = Some c).
Proof.
  intros Hs. unfold getChild. wp_simpl. split; [intros Hp|intros _; split; [done|by split]].
  wp_simpl. split; [intros _|intros _; split; [done|by split]].
  apply Z.ltb_lt in Hp. wp_simpl. set (i := Z.to_nat (pk_blockProposerIndex key - 1)). set (b := pk_blockID key).
  destruct (ag_children s !! i) as [cache|] eqn:Hc.
  2: { unfold wp. rewrite onChildren_none by done. split; [done|by split]. }
  pose proof (Hs i cache Hc) as Hok. assert (i < length (ag_children s))%nat as Hi by by eapply lookup_lt_Some.
  unfold wp at 1. rewrite (onChildren_run i _ s cache Hc). cbn [fst snd lru_exists gets].
  set (s1 := set_children (<[i := cache]> (ag_children s)) s). assert (ag_children s1 !! i = Some cache) as Hc1
    by (cbn; by rewrite list_lookup_insert_eq).
  assert (children_ok s1) as Hs1 by by apply children_ok_insert.
  assert (forall s2 cache2, children_ok s2 -> ag_children s2 !! i = Some cache2 -> is_Some (lru_lookup cache2 b) ->
    wp (onChildren i (lru_get b)) s2 (fun r s' => children_ok s' /\ rnested InvalidStateException r <> Err OutOfFuel /\
      forall c, rnested InvalidStateException r = Ok c -> 1 <= pk_blockProposerIndex key /\
        exists cache', ag_children s' !! i = Some cache' /\ lru_lookup cache' b = Some c)) as Hget.
  { intros s2 cache2 Hs2 Hc2 [c Hl]. unfold wp. rewrite (onChildren_run i _ s2 cache2 Hc2).
    pose proof (Hs2 i cache2 Hc2) as Hok2. unfold lru_get, mbind, M_bind, get, modify. rewrite lru_find_lookup, Hl by apply Hok2. cbn.
    assert (i < length (ag_children s2))%nat by by eapply lookup_lt_Some.
    split; [by apply children_ok_insert, cache_ok_touch|]. split; [done|]. intros c' [= <-]. split; [lia|].
    exists (lru_touch b cache2). rewrite list_lookup_insert_eq by done. split; [done|]. by rewrite lru_lookup_touch by apply Hok2. }
  rewrite existsUnsafe_lookup by apply Hok. destruct (bool_decide (is_Some (lru_lookup cache b))) eqn:Hex.
  - apply bool_decide_eq_true in Hex. wp_simpl. by apply (Hget s1 cache).
  - wp_simpl. unfold wp at 1. rewrite (onChildren_run i _ s1 cache Hc1).
    unfold lru_putIfDoesNotExist, mbind, M_bind, get, put. rewrite existsUnsafe_lookup, Hex by apply Hok. cbn [fst snd].
    wp_simpl. eapply (Hget _ (putUnsafe b bin_init cache)).
    + apply children_ok_insert; [done|]. apply cache_ok_put; [done|]. apply rtc_refl.
    + cbn. rewrite list_lookup_insert_eq; [done|]. by rewrite length_insert.
    + exists bin_init. apply lru_lookup_put; apply Hok.
Qed.

Lemma getChild_sound key : sound (getChild A key).
Proof. intros s Hs. pose proof (getChild_spec key s Hs) as Hw. unfold wp in Hw. tauto. Qed.

Context (Hparse : parses_end A).

(** *** What does not touch them *)
Ltac keeps_children :=
  repeat first
    [ solve [auto with kept] | apply keeps_ret | apply keeps_throw | apply keeps_lift | apply keeps_get | apply keeps_gets
    | apply keeps_check | apply keeps_when | apply keeps_nested | apply keeps_nested_skale'
    | apply keeps_bind; [|intros ?] | apply keeps_zoom; done
    | match goal with |- keeps _ (match ?x with _ => _ end) => destruct x eqn:? end | done ].

Lemma decideBlock_kept b i stats : keeps ag_children (decideBlock A now b i stats).
Proof. unfold decideBlock, mkBlockSignBroadcastMessage, onShares, onDecided. keeps_children. Qed.

Lemma buildStats_kept b : keeps ag_children (buildStats A b).
Proof. unfold buildStats, onTrue, onFalse. keeps_children. Qed.
#[local] Hint Resolve decideBlock_kept buildStats_kept : kept.

Lemma chooseProposer_kept order b : keeps ag_children (chooseProposer A now order b).
Proof. induction order as [|i order IH]; cbn [chooseProposer]; unfold onTrue, onFalse; keeps_children. Qed.
#[local] Hint Resolve chooseProposer_kept : kept.

Lemma report_kept d : keeps ag_children (reportConsensusAndDecideIfNeeded A now d).
Proof. unfold reportConsensusAndDecideIfNeeded, decideDefaultBlock, onTrue, onFalse, onDecided. keeps_children. Qed.

Lemma report_sound d : sound (reportConsensusAndDecideIfNeeded A now d).
Proof. apply sound_keeps; [apply report_kept|by apply report_terminates]. Qed.

(** *** Messages *)
Lemma routeGuard_sound origin b : sound (routeGuard A origin b).
Proof. unfold routeGuard. repeat (apply sound_bind; [by apply sound_check|intros _]). apply sound_ret. Qed.

Lemma routeChildMessage_sound d : sound (routeChildMessage A now d).
Proof.
  unfold routeChildMessage. apply sound_nested; [done|]. apply sound_bind; [apply routeGuard_sound|intros ok].
  unfold when. apply sound_if; [apply report_sound|apply sound_ret].
Qed.

Lemma handleChildEvent_sound e : sound (handleChildEvent A now e).
Proof.
  destruct e as [m|d]; cbn [handleChildEvent]; [by apply sound_keeps|].
  apply sound_bind; [apply getChild_sound|intros _; apply routeChildMessage_sound].
Qed.

(** A run of a binary consensus by steps of its protocol. *)
Lemma withChild_sound key c :
  (forall child, child_ok key child -> child_ok key (c (child_env A key) child).2 /\ (c (child_env A key) child).1 <> Err OutOfFuel) ->
  sound (withChild A now key c).
Proof.
  intros Hc s Hs. unfold withChild. rewrite mbind_run. pose proof (getChild_spec key s Hs) as Hw. unfold wp in Hw.
  destruct (getChild A key s) as [[child|e] s1]; cbn [fst snd] in Hw; destruct Hw as (Hs1 & Hne & Hget).
  2: { cbn. split; [done|intros [= ->]; by apply Hne]. }
  destruct (Hget child eq_refl) as (Hp & cache & Hcache & Hl). pose proof (Hs1 _ _ Hcache) as Hok.
  set (i := Z.to_nat (pk_blockProposerIndex key - 1)) in *.
  assert (key_of i (pk_blockID key) = key) as Hkey by (unfold key_of; destruct key; cbn in *; f_equal; lia).
  assert (child_ok key child) as Hch by (rewrite <- Hkey; by apply (co_child _ _ Hok)).
  destruct (Hc child Hch) as [Hch' Hr]. destruct (c (child_env A key) child) as [r child']. cbn [fst snd] in Hch', Hr.
  rewrite mbind_run, (onChildren_run i _ s1 cache Hcache). cbn [fst snd].
  set (s2 := set_children _ s1). assert (children_ok s2) as Hs2.
  { apply children_ok_insert; [done|]. apply cache_ok_modify; [done|]. by rewrite Hkey. }
  enough (sound (mapM_ (handleChildEvent A now) (drop (length (bs_out child)) (bs_out child')) ;; lift_res r)) as Hend by by apply Hend.
  apply sound_bind; [|intros _; by apply sound_lift].
  induction (drop _ _) as [|e l IH]; cbn [mapM_]; [apply sound_ret|].
  apply sound_bind; [apply handleChildEvent_sound|by intros _].
Qed.

(** The enclave's shares verify. *)
Context (Hsign : sign_verifies E).

Lemma processMessage_child key me child :
  envelope_ok (child_env A key) me ->
  (forall v, proposes me v -> own key v) -> (forall i m, delivers me i m -> inp key i m) -> child_ok key child ->
  child_ok key (processMessage (child_env A key) now me child).2 /\ (processMessage (child_env A key) now me child).1 <> Err OutOfFuel.
Proof.
  intros Hme Ho Hi Hch.
  pose proof (processMessage_steps (child_env A key) now me child Hsign Hme) as Hw. unfold wp in Hw. destruct Hw as [Hsteps Hf].
  split; [|apply Hf; by eapply child_round]. unfold child_ok. etrans; [exact Hch|]. by eapply rtc_bin_step_mono.
Qed.
(** *** Proposals *)

(** The message that [propose] builds. *)
Definition bvb_message (CE : bin_env share shareset) v (child : bin_state share) : message :=
  {| nm_type := MSG_BVB_BROADCAST; nm_schainID := be_schainID CE; nm_msgID := u64 (bs_messageCounter child + 1);
     nm_blockID := be_blockID CE; nm_blockProposerIndex := be_blockProposerIndex CE; nm_round := 0; nm_value := v;
     nm_timeMs := now; nm_srcSchainIndex := be_schainIndex CE; nm_sigShare := None |}.

Lemma propose_sound (v i b : Z) :
  (1 <= i -> own {| pk_blockID := b; pk_blockProposerIndex := i |} v) -> sound (propose A now v i b).
Proof.
  intros Hv. unfold propose. apply sound_nested; [done|].
  destruct (decide (0 < i)) as [Hi|Hi]; [|intros s Hs; unfold check; rewrite mbind_run; replace (0 <? i) with false by lia; by split].
  apply sound_bind; [by apply sound_check|intros _]. apply sound_bind; [by apply sound_check|intros _].
  apply withChild_sound. intros child Hch. 
  rewrite mbind_run. change (mkBVBroadcastMessage _ _ _ _ child) with
    (Ok (bvb_message (child_env A {| pk_blockID := b; pk_blockProposerIndex := i |}) v child), set_counter (u64 (bs_messageCounter child + 1)) child).
  cbn beta iota. rewrite mbind_run. unfold check. cbn [nm_blockID bvb_message].
  assert (forall n, child_ok {| pk_blockID := b; pk_blockProposerIndex := i |} (set_counter n child)) as Hn
    by (intros n; unfold child_ok; etrans; [exact Hch|apply rtc_once, bst_counter]).
  destruct (negb (_ =? 0)); [cbv beta iota delta [mret M_ret]|split; [apply Hn|done]].
  apply processMessage_child; [by split| |by intros i' m [? _]|apply Hn].
  intros v' [_ ->]. apply Hv. lia.
Qed.

Definition proposes_all (b : Z) (vec : BooleanProposalVector) : Prop := forall i x,
  getProposalValue vec i = Ok x -> own {| pk_blockID := b; pk_blockProposerIndex := i |} (if x then 1 else 0).

Lemma proposeAll_sound indices b vec : proposes_all b vec -> sound (proposeAll A now indices b vec).
Proof.
  intros Hv. induction indices as [|i indices IH]; cbn [proposeAll]; [apply sound_ret|].
  apply sound_if; [apply sound_ret|]. intros s Hs. rewrite mbind_run. unfold lift_res.
  destruct (getProposalValue vec i) as [x|e] eqn:Hx; cbn.
  - apply sound_bind; [|by intros _|done]. apply propose_sound. intros _. by apply Hv.
  - split; [done|]. intros [= ->]. by destruct (getProposalValue_ends vec i).
Qed.

Lemma startConsensusProposal_sound b vec : proposes_all b vec -> sound (startConsensusProposal A now b vec).
Proof. intros Hv. apply sound_nested_skale; [done|by apply proposeAll_sound]. Qed.

(** *** Block signatures *)
Lemma sign_kept m : keeps ag_children (processBlockSignMessage A m).
Proof. unfold processBlockSignMessage, onShares. keeps_children. Qed.

Lemma sign_terminates m : terminates (processBlockSignMessage A m).
Proof.
  apply terminates_nested; [done|]. apply terminates_bind; [|by intros [|]].
  apply terminates_zoom. by apply saveShare_terminates.
Qed.

Lemma processBlockSignMessage_sound m : sound (processBlockSignMessage A m).
Proof. apply sound_keeps; [apply sign_kept|apply sign_terminates]. Qed.

(** *** Routing *)

(** What an input may propose and deliver. *)
Definition input_allowed (origin : MessageOrigin) (src : Z) (msg : agent_message share) : Prop :=
  match msg with
  | AmProposal b vec => proposes_all b vec
  | AmNetwork m => origin = ORIGIN_NETWORK -> nm_schainID m = be_schainID E /\ forall key, createProtocolKey m = Ok key -> inp key src m
  | AmChild _ => True
  end.

Lemma routeAndProcessMessage_sound origin src arrival msg :
  input_allowed origin src msg -> sound (routeAndProcessMessage A now origin src arrival msg).
Proof.
  intros Hin. unfold routeAndProcessMessage. apply sound_nested; [done|].
  destruct (decide (origin = ORIGIN_PARENT)) as [->|Ho].
  { intros s Hs. unfold routeGuard, check. rewrite !mbind_run. destruct (0 <? am_blockId msg); cbn; by split. }
  apply sound_bind; [apply routeGuard_sound|intros ok]. apply sound_if; [apply sound_ret|].
  destruct msg as [b vec|m|d]; cbn in Hin; [by apply startConsensusProposal_sound| |apply report_sound].
  apply sound_if; [apply processBlockSignMessage_sound|]. intros s Hs. rewrite mbind_run. unfold lift_res.
  destruct (createProtocolKey m) as [key|e] eqn:Hk.
  - apply withChild_sound; [|done]. intros child Hch. apply processMessage_child; [split; cbn| | |done].
    + intros Ho0. by apply Hin.
    + done.
    + by intros v [? _].
    + cbn. intros i m' (Ho0 & -> & ->). by apply Hin.
  - split; [done|]. cbn. intros [= ->]. by destruct (createProtocolKey_ends m).
Qed.

Lemma shouldPost_sound m : sound (shouldPost A m).
Proof.
  unfold shouldPost, getRound, decided. apply sound_if; [apply sound_ret|].
  apply sound_bind; [apply sound_lift, createProtocolKey_ends|intros key].
  apply sound_bind; [apply sound_bind; [apply getChild_sound|intros c; apply sound_ret]|intros r].
  apply sound_if; [apply sound_ret|]. apply sound_if; [|apply sound_ret].
  apply sound_bind; [apply getChild_sound|intros c; apply sound_ret].
Qed.

Lemma newAgent_ok last : children_ok (newAgent A last).
Proof.
  intros i cache Hc. cbn in Hc. apply lookup_replicate in Hc as [-> _].
  apply cache_ok_put; [|apply rtc_refl]. split; [by apply lru_new_inv|done|done].
Qed.
End Children.

(** ** Runs *)
Section Runs.
Context {share shareset sig : Type}.
Context (A : agent_env share shareset sig).
Local Abbreviation state := (agent_state share sig).
Local Abbreviation E := (sg_bin (ae_sig A)).

(** One call of [routeAndProcessMessage]: the chain as it is at that moment, the
    time, the envelope. *)
Record agent_input := {
  ai_env : agent_env share shareset sig;
  ai_now : Z;
  ai_origin : MessageOrigin;
  ai_src : Z;
  ai_arrival : Z;
  ai_msg : agent_message share
}.

(** The other entry is [shouldPost], which the threads of the network call before
    they post a message; looking a binary consensus up uses the caches as well. *)
Inductive agent_call :=
  | CallRoute (x : agent_input)
  | CallShouldPost (A' : agent_env share shareset sig) (m : NetworkMessage share).
Implicit Types (x : agent_input) (y : agent_call) (xs : list agent_call) (s : state).

Definition route_input x : M state unit :=
  routeAndProcessMessage (ai_env x) (ai_now x) (ai_origin x) (ai_src x) (ai_arrival x) (ai_msg x).

(** The agent after a sequence of calls; an exception leaves the changes made so
    far. *)
Definition run_call y s : state :=
  match y with
  | CallRoute x => (route_input x s).2
  | CallShouldPost A' m => (shouldPost A' m s).2
  end.

Definition feed xs s : state := foldl (fun s y => run_call y s) s xs.

(** The value proposed to a binary consensus by one of the calls. *)
Definition was_proposed xs (key : ProtocolKey) (v : Z) : Prop := exists x vec b,
  CallRoute x ∈ xs /\ ai_msg x = AmProposal (pk_blockID key) vec /\ getProposalValue vec (pk_blockProposerIndex key) = Ok b /\
  v = if (b : bool) then 1 else 0.

(** The message of a node that one of the calls routes to a binary consensus. *)
Definition was_routed xs (key : ProtocolKey) (src : Z) (m : NetworkMessage share) : Prop := exists x,
  CallRoute x ∈ xs /\ ai_msg x = AmNetwork m /\ ai_origin x = ORIGIN_NETWORK /\ ai_src x = src /\ createProtocolKey m = Ok key.

(** What the callers guarantee: the same node, and messages of its own chain. *)
Definition input_ok x : Prop :=
  ae_sig (ai_env x) = ae_sig A /\ forall m, ai_msg x = AmNetwork m -> ai_origin x = ORIGIN_NETWORK -> nm_schainID m = be_schainID E.

Definition call_ok y : Prop :=
  match y with
  | CallRoute x => input_ok x
  | CallShouldPost A' m => ae_sig A' = ae_sig A
  end.

Lemma children_ok_sig own inp A' s : ae_sig A' = ae_sig A -> children_ok A' own inp s <-> children_ok A own inp s.
Proof.
  intros Hs. assert (forall key, child_env A' key = child_env A key) as He by (intros; unfold child_env; by rewrite Hs).
  split; intros Hok i cache Hc; destruct (Hok i cache Hc) as [H1 H2 H3]; split; try done; intros b c Hl;
    specialize (H3 b c Hl); unfold child_ok in *; [by rewrite <- He|by rewrite He].
Qed.

Context (Hparse : parses_end A) (Hsign : sign_verifies E).

Lemma route_input_sound own inp x s :
  input_ok x -> input_allowed (ai_env x) own inp (ai_origin x) (ai_src x) (ai_msg x) -> children_ok A own inp s ->
  children_ok A own inp (route_input x s).2 /\ (route_input x s).1 <> Err OutOfFuel.
Proof.
  intros [Hsig _] Hin Hs. rewrite <- (children_ok_sig own inp (ai_env x)) in Hs by done.
  destruct (routeAndProcessMessage_sound (ai_env x) (ai_now x) own inp) with
    (origin := ai_origin x) (src := ai_src x) (arrival := ai_arrival x) (msg := ai_msg x) (s := s) as [H1 H2];
    [unfold parses_end; by rewrite Hsig|by rewrite Hsig|done|done|].
  split; [|done]. by rewrite <- (children_ok_sig own inp (ai_env x)).
Qed.

(** What the protocol may see of a call. *)
Definition call_allowed own inp y : Prop :=
  match y with
  | CallRoute x => input_allowed (ai_env x) own inp (ai_origin x) (ai_src x) (ai_msg x)
  | CallShouldPost A' m => True
  end.

Lemma run_call_sound own inp y s : call_ok y -> call_allowed own inp y -> children_ok A own inp s -> children_ok A own inp (run_call y s).
Proof.
  destruct y as [x|A' m]; cbn; [by intros; apply route_input_sound|]. intros Hsig _ Hs.
  rewrite <- (children_ok_sig own inp A') in Hs |- * by done. by apply shouldPost_sound.
Qed.

(** The calls of a run allow what the protocol sees of them. *)
Lemma allowed_of_run xs x :
  CallRoute x ∈ xs -> input_ok x ->
  input_allowed (ai_env x) (was_proposed xs) (was_routed xs) (ai_origin x) (ai_src x) (ai_msg x).
Proof.
  intros Hx [Hsig Hm]. destruct (ai_msg x) as [b vec|m|d] eqn:Hmsg; cbn; [|intros Ho|done].
  - intros i v Hv. by exists x, vec, v.
  - rewrite Hsig. split; [by apply Hm|]. intros key Hk. by exists x.
Qed.

Lemma allowed_calls xs y : y ∈ xs -> call_ok y -> call_allowed (was_proposed xs) (was_routed xs) y.
Proof. destruct y as [x|A' m]; cbn; [|done]. apply allowed_of_run. Qed.

Lemma feed_sound own inp xs s :
  Forall (fun y => call_ok y /\ call_allowed own inp y) xs -> children_ok A own inp s -> children_ok A own inp (feed xs s).
Proof.
  intros Hxs. revert s. induction Hxs as [|y xs [Hy Ha] _ IH]; intros s Hs; [done|]. apply IH. by apply run_call_sound.
Qed.

Lemma run_sound xs last :
  Forall call_ok xs -> children_ok A (was_proposed xs) (was_routed xs) (feed xs (newAgent A last)).
Proof.
  intros Hxs. apply feed_sound; [|apply newAgent_ok]. rewrite Forall_forall in Hxs |- *.
  intros x Hx. specialize (Hxs x Hx). split; [done|by apply allowed_calls].
Qed.

Lemma agent_children_follow_protocol xs last i cache b c :
  Forall call_ok xs ->
  ag_children (feed xs (newAgent A last)) !! i = Some cache -> lru_lookup cache b = Some c ->
  rtc (bin_step (child_env A (key_of i b)) (was_proposed xs (key_of i b)) (was_routed xs (key_of i b))) bin_init c.
Proof. intros Hxs Hc. destruct (run_sound xs last Hxs i cache Hc) as [_ _ Hok]. apply Hok. Qed.

(** C7: every message is handled to the end.  In every state the agent gets into
    by calls of [routeAndProcessMessage] and [shouldPost], no call of
    [routeAndProcessMessage] is cut short by the bound on the rounds that the model
    plays in one call. *)
Theorem agent_handles_to_the_end xs last x :
  Forall call_ok xs -> input_ok x -> (route_input x (feed xs (newAgent A last))).1 <> Err OutOfFuel.
Proof.
  intros Hxs Hx. apply (route_input_sound (was_proposed (xs ++ [CallRoute x])) (was_routed (xs ++ [CallRoute x]))); [done| |].
  - apply allowed_of_run; [set_solver|done].
  - apply feed_sound; [|apply newAgent_ok]. rewrite Forall_forall in Hxs |- *.
    intros y Hy. specialize (Hxs y Hy). split; [done|]. apply allowed_calls; [set_solver|done].
Qed.
End Runs.

(** ** Witness: the node's own proposals *)
Definition demo_input : @agent_input (Z * Z) Z Z :=
  {| ai_env := demo_agent_env; ai_now := 5; ai_origin := ORIGIN_EXTERNAL; ai_src := 1; ai_arrival := 0;
     ai_msg := AmProposal 1 {| bv_nodeCount := 4; bv_proposals := [false; true; true; false; true]; bv_trueCount := 3 |} |}.

Lemma agent_handles_to_the_end_witness :
  length (ag_out (feed [CallRoute demo_input] (newAgent demo_agent_env 0))) = 4%nat /\
  (route_input demo_input (feed [CallRoute demo_input] (newAgent demo_agent_env 0))).1 <> Err OutOfFuel.
Proof.
  split; [by vm_compute|].
  apply (agent_handles_to_the_end demo_agent_env).
  - by intros t b i.
  - by intros hash b r.
  - constructor; [|constructor]. split; [done|by intros m ?].
  - split; [done|by intros m ?].
Defined.

(** ** A consensus that is forgotten *)

(** The agent keeps the last ten consensuses of each proposer, the messages of
    seven blocks are accepted at any time: while the chain grows, one faulty member
    can make the agent forget a block by writing to it about older blocks. *)
Definition demo_env_at (last : Z) : agent_env (Z * Z) Z Z :=
  {| ae_sig := demo_sig_env; ae_lastCommittedBlockID := last; ae_blockHash := fun _ => None;
     ae_isExitRequested := false; ae_signBlockSigShare := fun _ b => (b, 1) |}.

Definition demo_vote_for (last block src value : Z) : @agent_call (Z * Z) Z Z := CallRoute
  {| ai_env := demo_env_at last; ai_now := 5; ai_origin := ORIGIN_NETWORK; ai_src := src; ai_arrival := 0;
     ai_msg := AmNetwork {| nm_type := MSG_BVB_BROADCAST; nm_schainID := 7; nm_msgID := 1; nm_blockID := block;
       nm_blockProposerIndex := 2; nm_round := 0; nm_value := value; nm_timeMs := 0; nm_srcSchainIndex := src;
       nm_sigShare := None |} |}.

Definition aux_sent (block : Z) (s : agent_state (Z * Z) Z) : list (Z * Z) :=
  omap (fun e => match e with
    | AgBroadcast m => if bool_decide (nm_type m = MSG_AUX_BROADCAST) && (nm_blockID m =? block) then Some (nm_round m, nm_value m) else None
    | _ => None
    end) (ag_out s).

(** Then the node sends both values in one round, which no honest node of the
    protocol does. *)
Example forgotten_consensus_votes_twice :
  aux_sent 7 (feed
    ([demo_vote_for 6 7 2 1; demo_vote_for 6 7 3 1; demo_vote_for 6 7 4 1] ++
     ((fun b => demo_vote_for 6 b 4 1) <$> [1; 2; 3; 4; 5; 6]) ++
     ((fun b => demo_vote_for (b - 1) b 4 1) <$> [8; 9; 10; 11; 12]) ++
     [demo_vote_for 12 7 2 0; demo_vote_for 12 7 3 0; demo_vote_for 12 7 4 0])
    (newAgent demo_agent_env 0)) = [(0, 1); (0, 0)].
Proof. by vm_compute. Qed.
