(* ===== verification/ConsensusKept.v ===== *)
(** * No consensus is forgotten

    The agent ([BlockConsensus]) keeps the ten binary consensuses of each proposer
    that were used last.  The network ([Network::postDeferOrDrop]) hands over
    messages of the five blocks up to the next one only.  Shown: while messages
    are routed that lie in this window, and the chain only grows, no consensus of a
    block of the window is ever evicted: it is continued, from the state it had, by
    steps of its protocol, so that the node does not vote a second time. *)

From stdpp Require Import base tactics gmap list strings relations sorting.
From Stdlib Require Import ZArith Lia.
From S2P Require Import Prelude Bytes Messages BinConsensus BinSpec LruCache LevelDb LevelDbSets BlockSigShare.
From S2P Require Import ProposalVector BlockConsensus BlockTheorems AgentRuns.

(** ** The caches *)
Section Cache.
Context {V : Type} (L : Z).
Implicit Types c : lru_cache Z V.

Definition keys c : list Z := (lru_list c).*1.

(** Whatever was used after [y] is at most four blocks older, since [y] was in the
    window then. *)
Definition after (x y : Z) : Prop := y - 4 <= x.

Record in_window c : Prop := {
  iw_inv : lru_inv c;
  iw_max : lru_max_size c = MAX_CONSENSUS_HISTORY;
  iw_sorted : StronglySorted after (keys c);
  iw_next : Forall (fun b => b <= L + 1) (keys c)
}.

Lemma keys_nodup c : lru_inv c -> NoDup (keys c).
Proof. intros [Hi _]. by apply lru_nodup. Qed.


Lemma without_sorted k (l : list (Z * V)) : StronglySorted after l.*1 -> StronglySorted after (without k l).*1.
Proof.
  induction l as [|[x v] l IH]; [done|]. cbn [fmap list_fmap]. intros Hs. apply StronglySorted_inv in Hs as [Hs Hx].
  unfold without in *. rewrite filter_cons. case_decide; [|by apply IH]. cbn. apply SSorted_cons; [by apply IH|].
  rewrite Forall_forall in *. intros y Hy. apply Hx. apply list_elem_of_fmap in Hy as (z & -> & Hz).
  apply list_elem_of_filter in Hz as [_ Hz]. by apply list_elem_of_fmap_2.
Qed.

Lemma without_next k (l : list (Z * V)) (P : Z -> Prop) : Forall P l.*1 -> Forall P (without k l).*1.
Proof.
  rewrite !Forall_forall. intros Hl y Hy. apply Hl. apply list_elem_of_fmap in Hy as (z & -> & Hz).
  apply list_elem_of_filter in Hz as [_ Hz]. by apply list_elem_of_fmap_2.
Qed.

(** Putting a block of the window at the front. *)
Lemma front_sorted b v (l : list (Z * V)) :
  L - 3 <= b -> StronglySorted after l.*1 -> Forall (fun y => y <= L + 1) l.*1 ->
  StronglySorted after ((b, v) :: without b l).*1.
Proof.
  intros Hb Hs Hn. cbn. apply SSorted_cons; [by apply without_sorted|].
  apply (without_next b l) in Hn. eapply Forall_impl; [exact Hn|]. intros y Hy. cbn in *. unfold after. lia.
Qed.

Lemma take_fmap_sorted (j : nat) (l : list (Z * V)) : StronglySorted after l.*1 -> StronglySorted after (take j l).*1.
Proof.
  revert l. induction j as [|j IH]; intros [|x l] Hs; try constructor.
  - apply IH. by apply StronglySorted_inv in Hs as [? _].
  - apply StronglySorted_inv in Hs as [_ Hx]. rewrite Forall_forall in *. intros y Hy. apply Hx.
    apply list_elem_of_fmap in Hy as (z & -> & Hz). apply list_elem_of_fmap_2. by eapply elem_of_take in Hz as (i & Hi & _); eapply list_elem_of_lookup_2.
Qed.

(** A block of the window is among the nine used last. *)
Lemma window_position pre y post b :
  NoDup (pre ++ y :: post) -> StronglySorted after (pre ++ y :: post) -> Forall (fun z => z <= L + 1) (pre ++ y :: post) ->
  b ∉ pre ++ y :: post -> L - 3 <= b <= L + 1 -> L - 3 <= y -> (length pre <= 7)%nat.
Proof.
  intros Hnd Hs Hn Hb HL Hy.
  assert (NoDup (b :: y :: pre)) as Hnd'.
  { apply NoDup_app in Hnd as (H1 & H2 & H3). apply NoDup_cons. split.
    - intros Hin. apply Hb. apply elem_of_cons in Hin as [-> |Hin]; apply elem_of_app; [right; by left|by left].
    - apply NoDup_cons. split; [|done]. intros Hin. apply (H2 y Hin). by left. }
  rewrite Forall_app, Forall_cons in Hn. destruct Hn as (Hpre & Hyn & _). rewrite Forall_forall in Hpre.
  assert (forall x, x ∈ pre -> y - 4 <= x) as Hlow.
  { intros x Hx. clear -Hs Hx. induction pre as [|z pre IH]; [by apply elem_of_nil in Hx|]. cbn in Hs. apply StronglySorted_inv in Hs as [Hs Hz].
    apply elem_of_cons in Hx as [-> |Hx]; [|by apply IH]. rewrite Forall_forall in Hz. apply Hz. apply elem_of_app. right. by left. }
  assert (b :: y :: pre ⊆+ seqZ (y - 4) 9) as Hsub.
  { apply NoDup_submseteq; [done|]. intros x Hx. apply elem_of_seqZ. apply elem_of_cons in Hx as [-> |Hx]; [lia|].
    apply elem_of_cons in Hx as [-> |Hx]; [lia|]. specialize (Hlow x Hx). specialize (Hpre x Hx). cbn in Hpre. lia. }
  apply submseteq_length in Hsub. cbn in Hsub. rewrite length_seqZ in Hsub. lia.
Qed.

Lemma lookup_elem c b v : lru_inv c -> lru_lookup c b = Some v <-> (b, v) ∈ lru_list c.
Proof. intros [Hi _]. apply assoc_Some, lru_nodup, Hi. Qed.

Lemma lookup_none_keys c b : lru_inv c -> lru_lookup c b = None -> b ∉ keys c.
Proof.
  intros Hi Hl Hin. unfold keys in Hin. apply list_elem_of_fmap in Hin as ([b' v] & -> & Hin). apply lookup_elem in Hin; [|done].
  cbn in Hl. congruence.
Qed.

Lemma window_new : in_window (lru_new MAX_CONSENSUS_HISTORY).
Proof. split; [by apply lru_new_inv|done|constructor|constructor]. Qed.

Lemma window_touch b c : L - 3 <= b -> in_window c -> in_window (lru_touch b c).
Proof.
  intros Hb [Hi Hm Hs Hn]. split; [by apply lru_touch_inv|by rewrite lru_touch_max| |]; unfold keys in *;
    rewrite lru_touch_list by apply Hi; unfold spec_touch; destruct (assoc (lru_list c) b) as [v|] eqn:Ha; try done.
  - by apply front_sorted.
  - cbn. apply Forall_cons. split; [|by apply without_next]. rewrite Forall_forall in Hn. apply Hn.
    apply (lookup_elem c b v Hi) in Ha. by apply (list_elem_of_fmap_2 fst _ (b, v)).
Qed.

Lemma window_modify b f c : in_window c -> in_window (lru_modify b f c).
Proof.
  intros [Hi Hm Hs Hn]. assert (keys (lru_modify b f c) = keys c) as Hk.
  { unfold keys. rewrite lru_modify_list. induction (lru_list c) as [|x l IH]; [done|]. cbn. rewrite IH. by case_decide; subst. }
  split; [by apply lru_modify_inv|by rewrite lru_modify_max|by rewrite Hk|by rewrite Hk].
Qed.

Lemma window_put b v c : L - 3 <= b <= L + 1 -> in_window c -> in_window (putUnsafe b v c).
Proof.
  intros Hb [Hi Hm Hs Hn]. destruct (putUnsafe_refines b v c Hi) as (Hi' & Hl & Hm').
  split; [done|by rewrite Hm'| |]; unfold keys; rewrite Hl; unfold spec_put.
  - apply take_fmap_sorted, front_sorted; [lia|done|done].
  - rewrite fmap_take. apply Forall_take. cbn. apply Forall_cons. split; [lia|]. by apply without_next.
Qed.

(** A block of the window is not evicted. *)
Lemma window_put_keeps b v c y w :
  L - 3 <= b <= L + 1 -> in_window c -> lru_lookup c b = None -> L - 3 <= y -> lru_lookup c y = Some w ->
  lru_lookup (putUnsafe b v c) y = Some w.
Proof.
  intros Hb [Hi Hm Hs Hn] Hnone Hy Hl. pose proof (lookup_none_keys c b Hi Hnone) as Hbk.
  apply (lookup_elem c y w Hi) in Hl. apply list_elem_of_split in Hl as (l1 & l2 & Hl).
  assert (keys c = l1.*1 ++ y :: l2.*1) as Hk by (unfold keys; rewrite Hl, fmap_app; done).
  pose proof (keys_nodup c Hi) as Hnd. rewrite Hk in *.
  pose proof (window_position l1.*1 y l2.*1 b Hnd Hs Hn Hbk Hb Hy) as Hlen. rewrite length_fmap in Hlen.
  apply (recent_lookup 9); [by apply putUnsafe_refines|]. apply (recent_put 8); [done| | |rewrite Hm; done].
  - intros ->. apply Hbk. apply elem_of_app. right. by left.
  - unfold recent. rewrite Hl. apply elem_of_take. exists (length l1). split; [by rewrite list_lookup_middle|lia].
Qed.
End Cache.

Lemma window_grows {V} L L' (c : lru_cache Z V) : L <= L' -> in_window L c -> in_window L' c.
Proof. intros HL [H1 H2 H3 H4]. split; [done|done|done|]. eapply Forall_impl; [exact H4|]. intros x Hx. cbn in *. lia. Qed.

Lemma createProtocolKey_key {share} (m : NetworkMessage share) key :
  createProtocolKey m = Ok key -> key = {| pk_blockID := nm_blockID m; pk_blockProposerIndex := nm_blockProposerIndex m |}.
Proof.
  unfold createProtocolKey, rcheck. destruct (bool_decide _); cbn; [|done]. destruct (0 <? nm_blockID m); cbn; [|done].
  by intros [= <-].
Qed.

(** ** The methods of the agent *)
Section Kept.
Context {share shareset sig : Type}.
Context (A : agent_env share shareset sig) (now : Z).
Local Abbreviation state := (agent_state share sig).
Local Abbreviation message := (NetworkMessage share).
Local Abbreviation E := (sg_bin (ae_sig A)).
Local Abbreviation L := (ae_lastCommittedBlockID A).
Implicit Types s : state.
Context (own : ProtocolKey -> Z -> Prop) (inp : ProtocolKey -> Z -> message -> Prop).
Local Abbreviation steps key := (rtc (bin_step (child_env A key) (own key) (inp key))).

Definition windows s : Prop := forall i cache, ag_children s !! i = Some cache -> in_window L cache.

(** The consensuses of the window go on from where they were. *)
Definition continues (low : Z) s s' : Prop := forall i cache b c,
  ag_children s !! i = Some cache -> lru_lookup cache b = Some c -> low <= b ->
  exists cache' c', ag_children s' !! i = Some cache' /\ lru_lookup cache' b = Some c' /\ steps (key_of i b) c c'.

Record good s : Prop := { gd_children : children_ok A own inp s; gd_windows : windows s }.

Lemma continues_refl low s : continues low s s.
Proof. intros i cache b c Hc Hl _. exists cache, c. split; [done|]. split; [done|]. apply rtc_refl. Qed.

Lemma continues_trans low s s1 s2 : continues low s s1 -> continues low s1 s2 -> continues low s s2.
Proof.
  intros H1 H2 i cache b c Hc Hl Hb. destruct (H1 i cache b c Hc Hl Hb) as (cache1 & c1 & Hc1 & Hl1 & Hs1).
  destruct (H2 i cache1 b c1 Hc1 Hl1 Hb) as (cache2 & c2 & Hc2 & Hl2 & Hs2). exists cache2, c2. split; [done|]. split; [done|].
  by etrans.
Qed.

(** A method that forgets nothing. *)
Definition lasting {B} (c : M state B) : Prop := forall s, good s ->
  good (c s).2 /\ continues (L - 3) s (c s).2 /\ (c s).1 <> Err OutOfFuel.

Lemma lasting_keeps {B} (c : M state B) : keeps ag_children c -> terminates c -> lasting c.
Proof.
  intros Hk Ht s [Hs Hw]. specialize (Hk s). split_and!.
  - split; [unfold children_ok|unfold windows]; by rewrite Hk.
  - unfold continues. rewrite Hk. apply continues_refl.
  - apply Ht.
Qed.

Lemma lasting_bind {B B'} (c : M state B) (k : B -> M state B') : lasting c -> (forall a, lasting (k a)) -> lasting (c ≫= k).
Proof.
  intros Hc Hk s Hs. rewrite mbind_run. destruct (Hc s Hs) as (H1 & H2 & H3). destruct (c s) as [[a|e] s']; cbn [fst snd] in *.
  - destruct (Hk a s' H1) as (H4 & H5 & H6). split_and!; [done|by eapply continues_trans|done].
  - split_and!; [done|done|]. intros [= ->]. by apply H3.
Qed.

Lemma lasting_nested {B} e (c : M state B) : e <> OutOfFuel -> lasting c -> lasting (nested e c).
Proof.
  intros He Hc s Hs. unfold nested. destruct (Hc s Hs) as (H1 & H2 & H3). destruct (c s) as [[a|e'] s']; cbn in *; [done|].
  split_and!; [done|done|]. destruct e'; cbn; congruence.
Qed.

Lemma lasting_nested_skale {B} e (c : M state B) : e <> OutOfFuel -> lasting c -> lasting (nested_skale e c).
Proof.
  intros He Hc s Hs. unfold nested_skale. destruct (Hc s Hs) as (H1 & H2 & H3). destruct (c s) as [[a|e'] s']; cbn in *; [done|].
  split_and!; [done|done|]. destruct e'; cbn; congruence.
Qed.

Lemma lasting_if {B} (b : bool) (c d : M state B) : lasting c -> lasting d -> lasting (if b then c else d).
Proof. by destruct b. Qed.

Lemma lasting_ret {B} (a : B) : lasting (mret a).
Proof. by apply lasting_keeps. Qed.

Lemma lasting_check e b : e <> OutOfFuel -> lasting (check e b).
Proof. intros He. apply lasting_keeps; [apply keeps_check|by apply terminates_check]. Qed.

Lemma lasting_lift {B} (r : res B) : r <> Err OutOfFuel -> lasting (lift_res r).
Proof. intros Hr. apply lasting_keeps; [apply keeps_lift|by apply terminates_lift]. Qed.

Lemma lasting_lift_bind {B B'} (r : res B) (k : B -> M state B') :
  r <> Err OutOfFuel -> (forall a, r = Ok a -> lasting (k a)) -> lasting (lift_res r ≫= k).
Proof.
  intros Hr Hk s Hs. rewrite mbind_run. unfold lift_res. destruct r as [a|e]; cbn; [by apply Hk|].
  split_and!; [done|apply continues_refl|]. intros [= ->]. by apply Hr.
Qed.

(** *** The caches *)

(** A call on one cache. *)
Definition cache_lasting {B} (i : nat) (op : M (lru_cache Z (bin_state share)) B) : Prop := forall cache,
  cache_ok A own inp i cache -> in_window L cache ->
  cache_ok A own inp i (op cache).2 /\ in_window L (op cache).2 /\ (op cache).1 <> Err OutOfFuel /\
  forall b c, L - 3 <= b -> lru_lookup cache b = Some c ->
    exists c', lru_lookup (op cache).2 b = Some c' /\ steps (key_of i b) c c'.

Lemma good_insert i cache s :
  good s -> cache_ok A own inp i cache -> in_window L cache -> good (set_children (<[i := cache]> (ag_children s)) s).
Proof.
  intros [Hs Hw] Hc Hiw. split; [by apply children_ok_insert|]. intros j cache' Hj. cbn in Hj.
  apply list_lookup_insert_Some in Hj as [(-> & -> & _)|[_ Hj]]; [done|by eapply Hw].
Qed.

Lemma continues_insert i cache cache' s :
  ag_children s !! i = Some cache ->
  (forall b c, L - 3 <= b -> lru_lookup cache b = Some c -> exists c', lru_lookup cache' b = Some c' /\ steps (key_of i b) c c') ->
  continues (L - 3) s (set_children (<[i := cache']> (ag_children s)) s).
Proof.
  intros Hi Hk j cj b c Hj Hl Hb. destruct (decide (i = j)) as [<-|Hne].
  - rewrite Hi in Hj. injection Hj as <-. destruct (Hk b c Hb Hl) as (c' & Hl' & Hs). exists cache', c'.
    split; [|done]. cbn. rewrite list_lookup_insert_eq; [done|]. by eapply lookup_lt_Some.
  - exists cj, c. split; [cbn; by rewrite list_lookup_insert_ne|]. split; [done|]. apply rtc_refl.
Qed.

Lemma lasting_onChildren {B} i (op : M (lru_cache Z (bin_state share)) B) : cache_lasting i op -> lasting (onChildren i op).
Proof.
  intros Hop s Hs. destruct (ag_children s !! i) as [cache|] eqn:Hc.
  - rewrite (onChildren_run i op s cache Hc). cbn [fst snd].
    destruct (Hop cache (gd_children s Hs i cache Hc) (gd_windows s Hs i cache Hc)) as (H1 & H2 & H3 & H4).
    split_and!; [by apply good_insert|by eapply continues_insert|done].
  - rewrite onChildren_none by done. split_and!; [done|apply continues_refl|done].
Qed.

Lemma exists_lasting i b : cache_lasting i (lru_exists b).
Proof. intros cache Hc Hw. cbn. split_and!; [done|done|done|]. intros b' c _ Hl. exists c. split; [done|apply rtc_refl]. Qed.

Lemma get_lasting i b : L - 3 <= b -> cache_lasting i (lru_get b).
Proof.
  intros Hb cache Hc Hw. pose proof (iw_inv _ _ Hw) as Hi. unfold lru_get. rewrite mbind_run. cbn.
  destruct (lru_find b cache) as [c0|]; [rewrite mbind_run|]; cbn.
  - split_and!; [by apply cache_ok_touch|by apply window_touch|done|]. intros b' c _ Hl. exists c.
    rewrite lru_lookup_touch by done. split; [done|apply rtc_refl].
  - split_and!; [done|done|done|]. intros b' c _ Hl. exists c. split; [done|apply rtc_refl].
Qed.

Lemma put_lasting i b : L - 3 <= b <= L + 1 -> cache_lasting i (lru_putIfDoesNotExist b bin_init).
Proof.
  intros Hb cache Hc Hw. pose proof (iw_inv _ _ Hw) as Hi. unfold lru_putIfDoesNotExist. rewrite mbind_run. cbn.
  rewrite existsUnsafe_lookup by apply Hi. destruct (bool_decide (is_Some (lru_lookup cache b))) eqn:Hex; cbn.
  - split_and!; [done|done|done|]. intros b' c _ Hl. exists c. split; [done|apply rtc_refl].
  - apply bool_decide_eq_false, eq_None_not_Some in Hex. rewrite mbind_run. cbn. split_and!.
    + apply cache_ok_put; [done|apply rtc_refl].
    + by apply window_put.
    + done.
    + intros b' c Hb' Hl. exists c. split; [by apply (window_put_keeps L)|apply rtc_refl].
Qed.

Lemma getChild_lasting key : L - 3 <= pk_blockID key <= L + 1 -> lasting (getChild A key).
Proof.
  intros Hb. unfold getChild. apply lasting_bind; [by apply lasting_check|intros _]. apply lasting_bind; [by apply lasting_check|intros _].
  apply lasting_nested; [done|]. apply lasting_bind; [apply lasting_onChildren, exists_lasting|intros ex].
  apply lasting_bind; [apply lasting_if; [apply lasting_ret|apply lasting_bind; [by apply lasting_onChildren, put_lasting|intros _; apply lasting_ret]]|intros _].
  apply lasting_onChildren, get_lasting. lia.
Qed.

(** *** Events of a consensus name its own key *)
Lemma step_out key O I c c' :
  bin_step (child_env A key) O I c c' ->
  exists new, bs_out c' = bs_out c ++ new /\ forall d, EvDecided d ∈ new -> cd_key d = key.
Proof.
  assert (forall c c', bs_out c' = bs_out c ->
    exists new, bs_out c' = bs_out c ++ new /\ forall d : ChildBVDecidedMessage, EvDecided (share := share) d ∈ new -> cd_key d = key) as Hq.
  { intros x x' ->. exists []. rewrite app_nil_r. split; [done|]. by intros d ?%elem_of_nil. }
  assert (forall (x : bin_state share) m, exists new, bs_out (emit (EvBroadcast m) x) = bs_out x ++ new /\
    forall d : ChildBVDecidedMessage, EvDecided (share := share) d ∈ new -> cd_key d = key) as Hb.
  { intros x m. exists [EvBroadcast m]. split; [done|]. intros d ?%list_elem_of_singleton. done. }
  destruct 1; try (apply Hq; unfold add_bvb, add_aux, insert_bin, enter_round; repeat case_match; reflexivity).
  - unfold mark_broadcast. exists [EvBroadcast m]. split; [done|]. by intros d ?%list_elem_of_singleton.
  - exists [EvBroadcast m]. split; [unfold add_aux, insert_bin; by case_match|]. by intros d ?%list_elem_of_singleton.
  - exists [EvDecided d]. split; [done|]. intros d' [= ->]%list_elem_of_singleton. by destruct key.
Qed.

Lemma steps_out key O I c c' :
  rtc (bin_step (child_env A key) O I) c c' ->
  exists new, bs_out c' = bs_out c ++ new /\ forall d, EvDecided d ∈ new -> cd_key d = key.
Proof.
  induction 1 as [c|c c1 c2 Hs _ (new2 & H2 & K2)].
  - exists []. rewrite app_nil_r. split; [done|]. by intros d ?%elem_of_nil.
  - destruct (step_out _ _ _ _ _ Hs) as (new1 & H1 & K1). exists (new1 ++ new2). rewrite H2, H1, (assoc_L (++)). split; [done|].
    intros d Hd. apply elem_of_app in Hd as [Hd|Hd]; auto.
Qed.

Context (Hparse : parses_end A).

Lemma routeChildMessage_lasting d : lasting (routeChildMessage A now d).
Proof.
  unfold routeChildMessage. apply lasting_nested; [done|]. apply lasting_bind.
  - unfold routeGuard. repeat (apply lasting_bind; [by apply lasting_check|intros _]). apply lasting_ret.
  - intros ok. unfold when. apply lasting_if; [|apply lasting_ret].
    apply lasting_keeps; [apply report_kept|by apply report_terminates].
Qed.

Lemma withChild_lasting key c :
  L - 3 <= pk_blockID key <= L + 1 ->
  (forall child, child_ok A own inp key child ->
    steps key child (c (child_env A key) child).2 /\ (c (child_env A key) child).1 <> Err OutOfFuel) ->
  lasting (withChild A now key c).
Proof.
  intros Hb Hc s Hs. unfold withChild. rewrite mbind_run.
  destruct (getChild_lasting key Hb s Hs) as (Hs1 & Hk1 & Hne).
  pose proof (getChild_spec A own inp key s (gd_children s Hs)) as Hw. unfold wp in Hw.
  destruct (getChild A key s) as [[child|e] s1]; cbn [fst snd] in *; destruct Hw as (_ & _ & Hget).
  2: { split_and!; [done|done|]. intros [= ->]. by apply Hne. }
  destruct (Hget child eq_refl) as (Hp & cache & Hcache & Hl). pose proof (gd_children s1 Hs1 _ _ Hcache) as Hok.
  pose proof (gd_windows s1 Hs1 _ _ Hcache) as Hiw. set (i := Z.to_nat (pk_blockProposerIndex key - 1)) in *.
  assert (key_of i (pk_blockID key) = key) as Hkey by (unfold key_of; destruct key; cbn in *; f_equal; lia).
  assert (child_ok A own inp key child) as Hch by (rewrite <- Hkey; by apply (co_child _ _ _ _ _ Hok)).
  destruct (Hc child Hch) as [Hst Hr]. destruct (steps_out _ _ _ _ _ Hst) as (new & Hout & Hkeys).
  destruct (c (child_env A key) child) as [r child']. cbn [fst snd] in *.
  rewrite Hout, drop_app_length.
  set (store := onChildren i (fun cache0 => (Ok tt, lru_modify (pk_blockID key) (fun _ => child') cache0))).
  assert (lasting (mapM_ (handleChildEvent A now) new ;; lift_res r)) as Hend.
  { apply lasting_bind; [|intros _; by apply lasting_lift]. clear Hout. induction new as [|e new IH]; cbn [mapM_]; [apply lasting_ret|].
    apply lasting_bind; [|intros _; apply IH; intros d Hd; apply Hkeys; by right].
    destruct e as [m|d]; cbn [handleChildEvent]; [by apply lasting_keeps|].
    apply lasting_bind; [apply getChild_lasting; by rewrite (Hkeys d) by left|intros _; apply routeChildMessage_lasting]. }
  rewrite mbind_run. subst store. rewrite (onChildren_run i _ s1 cache Hcache). cbn [fst snd].
  set (s2 := set_children _ s1).
  assert (good s2) as Hs2.
  { apply good_insert; [done| |by apply window_modify]. apply cache_ok_modify; [done|]. rewrite Hkey. unfold child_ok. by etrans. }
  assert (continues (L - 3) s1 s2) as Hk2.
  { apply (continues_insert i cache); [done|]. intros b c0 _ Hl0. rewrite lru_lookup_modify. case_decide as Hd.
    - subst b. rewrite Hl0. cbn. exists child'. split; [done|]. rewrite Hl in Hl0. injection Hl0 as <-. by rewrite Hkey.
    - exists c0. split; [done|apply rtc_refl]. }
  destruct (Hend s2 Hs2) as (H1 & H2 & H3). split_and!; [done| |done].
  eapply continues_trans; [exact Hk1|]. by eapply continues_trans.
Qed.

Context (Hsign : sign_verifies E).

Lemma processMessage_lasts key me child :
  envelope_ok (child_env A key) me ->
  (forall v, proposes me v -> own key v) -> (forall i m, delivers me i m -> inp key i m) -> child_ok A own inp key child ->
  steps key child (processMessage (child_env A key) now me child).2 /\
  (processMessage (child_env A key) now me child).1 <> Err OutOfFuel.
Proof.
  intros Hme Ho Hi Hch.
  pose proof (processMessage_steps (child_env A key) now me child Hsign Hme) as Hw. unfold wp in Hw. destruct Hw as [Hst Hf].
  split; [by eapply rtc_bin_step_mono|]. apply Hf. by eapply child_round.
Qed.

Lemma propose_lasting (v i b : Z) :
  L - 3 <= b <= L + 1 -> (1 <= i -> own {| pk_blockID := b; pk_blockProposerIndex := i |} v) -> lasting (propose A now v i b).
Proof.
  intros Hb Hv. unfold propose. apply lasting_nested; [done|].
  destruct (decide (0 < i)) as [Hi|Hi].
  2: { intros s Hs. unfold check. rewrite mbind_run. replace (0 <? i) with false by lia. split_and!; [done|apply continues_refl|done]. }
  apply lasting_bind; [by apply lasting_check|intros _]. apply lasting_bind; [by apply lasting_check|intros _].
  apply withChild_lasting; [done|]. intros child Hch.
  set (key := {| pk_blockID := b; pk_blockProposerIndex := i |}) in *.
  rewrite mbind_run. change (mkBVBroadcastMessage _ _ _ _ child) with
    (Ok (bvb_message now (child_env A key) v child), set_counter (u64 (bs_messageCounter child + 1)) child).
  cbn beta iota. rewrite mbind_run. unfold check. cbn [nm_blockID bvb_message].
  assert (steps key child (set_counter (u64 (bs_messageCounter child + 1)) child)) as Hn by (apply rtc_once, bst_counter).
  destruct (negb (_ =? 0)); [cbv beta iota delta [mret M_ret]|split; [exact Hn|done]].
  match goal with |- context [processMessage ?CE ?t ?me ?c0] => destruct (processMessage_lasts key me c0) as [H1 H2] end.
  - by split.
  - intros v' [_ ->]. apply Hv. lia.
  - by intros i' m [? _].
  - unfold child_ok. by etrans.
  - split; [by etrans|done].
Qed.

Lemma proposeAll_lasting indices b vec :
  L - 3 <= b <= L + 1 -> proposes_all own b vec -> lasting (proposeAll A now indices b vec).
Proof.
  intros Hb Hv. induction indices as [|i indices IH]; cbn [proposeAll]; [apply lasting_ret|].
  apply lasting_if; [apply lasting_ret|]. intros s Hs. rewrite mbind_run. unfold lift_res.
  destruct (getProposalValue vec i) as [x|e] eqn:Hx; cbn.
  - apply lasting_bind; [|by intros _|done]. apply propose_lasting; [done|]. intros _. by apply Hv.
  - split_and!; [done|apply continues_refl|]. intros [= ->]. by destruct (getProposalValue_ends vec i).
Qed.

Lemma shouldPost_lasting m : L - 3 <= nm_blockID m <= L + 1 -> lasting (shouldPost A m).
Proof.
  intros Hb. unfold shouldPost, getRound, decided. apply lasting_if; [apply lasting_ret|].
  apply lasting_lift_bind; [apply createProtocolKey_ends|intros key ->%createProtocolKey_key].
  apply lasting_bind; [apply lasting_bind; [by apply getChild_lasting|intros c; apply lasting_ret]|intros r].
  apply lasting_if; [apply lasting_ret|]. apply lasting_if; [|apply lasting_ret].
  apply lasting_bind; [by apply getChild_lasting|intros c; apply lasting_ret].
Qed.

Lemma routeAndProcessMessage_lasting origin src arrival msg :
  L - 3 <= am_blockId msg -> input_allowed A own inp origin src msg ->
  lasting (routeAndProcessMessage A now origin src arrival msg).
Proof.
  intros Hlow Hin. unfold routeAndProcessMessage. apply lasting_nested; [done|].
  destruct (decide (origin <> ORIGIN_PARENT /\ am_blockId msg <= L + 1)) as [[Ho Hb]|Hno].
  2: { intros s Hs. unfold routeGuard, check. rewrite !mbind_run. destruct (0 <? am_blockId msg); cbn; [|by split_and!; [|apply continues_refl|]].
    rewrite mbind_run. destruct (bool_decide (origin <> ORIGIN_PARENT)) eqn:Hd; cbn; [|by split_and!; [|apply continues_refl|]].
    rewrite mbind_run. apply bool_decide_eq_true in Hd. destruct (Z.leb_spec (am_blockId msg) (L + 1)); [|by split_and!; [|apply continues_refl|]].
    by destruct Hno. }
  apply lasting_bind; [unfold routeGuard; repeat (apply lasting_bind; [by apply lasting_check|intros _]); apply lasting_ret|intros ok].
  apply lasting_if; [apply lasting_ret|].
  destruct msg as [b vec|m|d]; cbn in Hin, Hlow, Hb.
  - apply lasting_nested_skale; [done|]. by apply proposeAll_lasting.
  - apply lasting_if; [by apply lasting_keeps; [apply sign_kept|apply sign_terminates]|]. intros s Hs. rewrite mbind_run. unfold lift_res.
    destruct (createProtocolKey m) as [key|e] eqn:Hk.
    + apply withChild_lasting; [|intros child Hch|done].
      * apply createProtocolKey_key in Hk as ->. cbn. lia.
      * apply processMessage_lasts; [split; cbn| | |done].
        -- intros Ho0. by apply Hin.
        -- done.
        -- by intros v [? _].
        -- cbn. intros i m' (Ho0 & -> & ->). by apply Hin.
    + split_and!; [done|apply continues_refl|]. cbn. intros [= ->]. by destruct (createProtocolKey_ends m).
  - apply lasting_keeps; [apply report_kept|by apply report_terminates].
Qed.
End Kept.

(** ** Runs *)
Section Runs.
Context {share shareset sig : Type}.
Context (A : agent_env share shareset sig).
Local Abbreviation state := (agent_state share sig).
Local Abbreviation E := (sg_bin (ae_sig A)).
Local Abbreviation call := (@agent_call share shareset sig).
Context (Hparse : parses_end A) (Hsign : sign_verifies E).
Implicit Types (x : call) (xs : list call) (s : state).

(** The last committed block when the call is made. *)
Definition last_of x : Z :=
  match x with
  | CallRoute x => ae_lastCommittedBlockID (ai_env x)
  | CallShouldPost A' m => ae_lastCommittedBlockID A'
  end.

(** The filter of the network; for a message that is routed, its lower bound at the
    moment of routing ([routeAndProcessMessage] checks the upper one). *)
Definition in_time x : Prop :=
  match x with
  | CallRoute x => ae_lastCommittedBlockID (ai_env x) - 3 <= am_blockId (ai_msg x)
  | CallShouldPost A' m => ae_lastCommittedBlockID A' - 3 <= nm_blockID m <= ae_lastCommittedBlockID A' + 1
  end.

(** The length of the chain that the calls of a run see last. *)
Definition last_seen (l : Z) xs : Z := foldl (fun _ x => last_of x) l xs.

(** The chain does not shrink from one call to the next. *)
Fixpoint chain_grows (l : Z) xs : Prop :=
  match xs with
  | [] => True
  | x :: xs => l <= last_of x /\ chain_grows (last_of x) xs
  end.

Lemma chain_grows_app l xs xs' : chain_grows l (xs ++ xs') <-> chain_grows l xs /\ chain_grows (last_seen l xs) xs'.
Proof. revert l. induction xs as [|x xs IH]; intros l; cbn; [tauto|]. rewrite IH. unfold last_seen. tauto. Qed.

Lemma continues_sig own inp A' low s s' :
  ae_sig A' = ae_sig A -> continues A' own inp low s s' -> continues A own inp low s s'.
Proof.
  intros Hs Hc i cache b c H1 H2 H3. destruct (Hc i cache b c H1 H2 H3) as (cache' & c' & H4 & H5 & H6). exists cache', c'.
  split; [done|]. split; [done|]. assert (forall key, child_env A' key = child_env A key) as He by (intros; unfold child_env; by rewrite Hs).
  by rewrite He in H6.
Qed.

Lemma continues_weaken own inp low low' s s' : low <= low' -> continues A own inp low s s' -> continues A own inp low' s s'.
Proof. intros Hl Hc i cache b c H1 H2 H3. apply (Hc i cache b c H1 H2). lia. Qed.

Context (own : ProtocolKey -> Z -> Prop) (inp : ProtocolKey -> Z -> NetworkMessage share -> Prop).

(** The caches hold no block after the next one of a chain of this length. *)
Definition windows_at (l : Z) s : Prop := forall i cache, ag_children s !! i = Some cache -> in_window l cache.

Definition allowed x : Prop := call_ok A x /\ in_time x /\ call_allowed own inp x.

Lemma run_call_lasts x l s :
  allowed x -> l <= last_of x -> children_ok A own inp s -> windows_at l s ->
  children_ok A own inp (run_call x s) /\ windows_at (last_of x) (run_call x s) /\
  continues A own inp (last_of x - 3) s (run_call x s).
Proof.
  intros (Hok & Ht & Hin) HL Hs Hw.
  assert (windows_at (last_of x) s) as Hw' by (intros i cache Hc; eapply window_grows; [exact HL|by eapply Hw]).
  destruct x as [x|A' m]; cbn in *.
  - destruct Hok as [Hsig _]. rewrite <- (children_ok_sig A own inp (ai_env x)) in Hs by done.
    destruct (routeAndProcessMessage_lasting (ai_env x) (ai_now x) own inp) with
      (origin := ai_origin x) (src := ai_src x) (arrival := ai_arrival x) (msg := ai_msg x) (s := s) as ([H1 H2] & H3 & _);
      [unfold parses_end; by rewrite Hsig|by rewrite Hsig|done|done|by split|].
    split; [by rewrite <- (children_ok_sig A own inp (ai_env x))|]. split; [done|]. by eapply continues_sig.
  - rewrite <- (children_ok_sig A own inp A') in Hs by done.
    destruct (shouldPost_lasting A' own inp m Ht s) as ([H1 H2] & H3 & _); [by split|].
    split; [by rewrite <- (children_ok_sig A own inp A')|]. split; [done|]. by eapply continues_sig.
Qed.

Lemma feed_lasts xs low l s :
  Forall allowed xs -> chain_grows l xs -> Forall (fun x => last_of x - 3 <= low) xs ->
  children_ok A own inp s -> windows_at l s ->
  continues A own inp low s (feed xs s).
Proof.
  intros Hxs. revert l s. induction Hxs as [|x xs Hx _ IH]; intros l s Hg Hlow Hs Hw; [apply continues_refl|].
  destruct Hg as [HL Hg]. apply Forall_cons in Hlow as [Hlx Hlow].
  destruct (run_call_lasts x l s Hx HL Hs Hw) as (H1 & H2 & H3).
  eapply continues_trans; [|by apply (IH _ _ Hg Hlow H1 H2)]. by eapply continues_weaken.
Qed.

Lemma feed_windows xs l s :
  Forall allowed xs -> chain_grows l xs -> children_ok A own inp s -> windows_at l s ->
  windows_at (last_seen l xs) (feed xs s).
Proof.
  intros Hxs. revert l s. induction Hxs as [|x xs Hx _ IH]; intros l s Hg Hs Hw; [done|].
  destruct Hg as [HL Hg]. destruct (run_call_lasts x l s Hx HL Hs Hw) as (H1 & H2 & _). by apply IH.
Qed.

Lemma newAgent_windows last : windows_at last (newAgent A last).
Proof.
  intros i cache Hc. cbn in Hc. apply lookup_replicate in Hc as [-> _]. apply window_put; [lia|apply window_new].
Qed.
End Runs.

(** C8: no binary consensus of a block in the network's window is forgotten.  After
    any run, let a consensus of block [b] be kept; then, as long as the node routes
    messages of the window only (from the third block before the last one up to the
    next) and its network threads call [shouldPost] for such messages only, the chain
    does not shrink and [b] is in the window, the consensus is still kept, and what
    it is now came about from what it was by steps of its protocol.  So the ten
    consensuses kept for each proposer are enough, whatever the other members
    send. *)
Theorem consensus_never_forgotten {share shareset sig} (A : agent_env share shareset sig) xs ys last i cache b c :
  parses_end A -> sign_verifies (sg_bin (ae_sig A)) ->
  Forall (call_ok A) (xs ++ ys) -> Forall in_time (xs ++ ys) -> chain_grows last (xs ++ ys) ->
  ag_children (feed xs (newAgent A last)) !! i = Some cache -> lru_lookup cache b = Some c ->
  Forall (fun y => last_of y - 3 <= b) ys ->
  exists cache' c', ag_children (feed ys (feed xs (newAgent A last))) !! i = Some cache' /\
    lru_lookup cache' b = Some c' /\
    rtc (bin_step (child_env A (key_of i b)) (was_proposed (xs ++ ys) (key_of i b)) (was_routed (xs ++ ys) (key_of i b))) c c'.
Proof.
  intros Hparse Hsign Hok Ht Hg Hc Hl Hb.
  assert (Forall (allowed A (was_proposed (xs ++ ys)) (was_routed (xs ++ ys))) (xs ++ ys)) as Ha.
  { rewrite Forall_forall in Hok, Ht |- *. intros x Hx. split; [by apply Hok|]. split; [by apply Ht|].
    apply (allowed_calls A); [done|by apply Hok]. }
  apply Forall_app in Ha as [Hax Hay]. apply chain_grows_app in Hg as [Hgx Hgy].
  assert (children_ok A (was_proposed (xs ++ ys)) (was_routed (xs ++ ys)) (feed xs (newAgent A last))) as Hch.
  { apply feed_sound; [done|done| |apply newAgent_ok]. eapply Forall_impl; [exact Hax|]. intros x (H1 & _ & H2). by split. }
  eapply (feed_lasts A Hparse Hsign _ _ ys b); [exact Hay|exact Hgy|exact Hb|exact Hch| |exact Hc|exact Hl|lia].
  apply (feed_windows A Hparse Hsign (was_proposed (xs ++ ys)) (was_routed (xs ++ ys))); [done|done|apply newAgent_ok|apply newAgent_windows].
Qed.

(** ** Witness: a vote survives while the chain grows by three blocks *)

(** A network thread asks about a message of a round. *)
Definition demo_ask (last block round : Z) : @agent_call (Z * Z) Z Z := CallShouldPost (demo_env_at last)
  {| nm_type := MSG_BVB_BROADCAST; nm_schainID := 7; nm_msgID := 1; nm_blockID := block; nm_blockProposerIndex := 2;
     nm_round := round; nm_value := 1; nm_timeMs := 0; nm_srcSchainIndex := 4; nm_sigShare := None |}.

Definition demo_before : list (@agent_call (Z * Z) Z Z) :=
  [demo_vote_for 6 7 2 1; demo_vote_for 6 7 3 1; demo_vote_for 6 4 4 1; demo_vote_for 6 5 4 1].

Definition demo_after : list (@agent_call (Z * Z) Z Z) :=
  [demo_ask 7 8 1; demo_vote_for 7 8 4 1; demo_vote_for 8 9 4 1; demo_vote_for 9 10 4 1; demo_vote_for 10 11 4 1; demo_ask 10 8 2; demo_vote_for 10 7 4 1].

Definition demo_kept : agent_state (Z * Z) Z := feed demo_before (newAgent demo_agent_env 6).

Lemma demo_kept_child :
  is_Some (ag_children demo_kept !! 1%nat ≫= fun cache => lru_lookup cache 7).
Proof. apply (bool_decide_unpack _). by vm_compute. Qed.

Lemma consensus_never_forgotten_witness :
  exists cache c, ag_children demo_kept !! 1%nat = Some cache /\
    lru_lookup cache 7 = Some c /\
    exists cache' c', ag_children (feed demo_after demo_kept) !! 1%nat = Some cache' /\
      lru_lookup cache' 7 = Some c' /\
      rtc (bin_step (child_env demo_agent_env (key_of 1 7)) (was_proposed (demo_before ++ demo_after) (key_of 1 7))
        (was_routed (demo_before ++ demo_after) (key_of 1 7))) c c'.
Proof.
  destruct demo_kept_child as [c Hcc]. apply bind_Some in Hcc as (cache & Hc & Hl).
  exists cache, c. split; [exact Hc|]. split; [exact Hl|].
  apply (consensus_never_forgotten demo_agent_env demo_before demo_after 6 1%nat cache 7 c).
  - by intros t b i.
  - by intros hash b r.
  - repeat constructor; by intros m [= <-].
  - repeat constructor; unfold in_time; cbn; lia.
  - cbn. lia.
  - exact Hc.
  - exact Hl.
  - repeat constructor; cbn; lia.
Defined.
