(* ===== verification/MessageLoop.v ===== *)
(** * The queue of messages and the thread that routes them

    [Schain::postMessage] puts messages into the queue of the chain, whatever
    thread calls it; [Schain::messageThreadProcessingLoop] is the thread that takes
    them out and routes them to the block consensus agent ([BlockConsensus]).  A
    [messageLoopTurn] is the code of the thread between two places where another
    thread can run, and a [loop_action] is a turn, a message posted by another
    thread, a call of [shouldPost] by a thread of the network, the request to exit, or a wake-up
    that is spurious or given by the exit.  A thread that waits on the condition
    variable goes on only after it has been woken.  Shown: no message is lost, duplicated or reordered on the
    way to the agent, the thread empties the queue, and errors of one message do
    not touch the others. *)

From stdpp Require Import base tactics list relations.
From Stdlib Require Import ZArith Lia.
From S2P Require Import Prelude Messages BinConsensus BinSpec LruCache BlockSigShare ProposalVector BlockConsensus BlockTheorems AgentRuns.

Section MessageLoop.
Context {share shareset sig : Type}.
Local Abbreviation agent := (agent_state share sig).
Local Abbreviation input := (@agent_input share shareset sig).

(** A message with the envelope it travels in. *)
Record posted_envelope := PostedEnvelope {
  me_origin : MessageOrigin;
  me_src : Z;
  me_arrival : Z;
  me_msg : agent_message share
}.

(** Where the thread is: at the condition of the outer loop, at the queue with the
    mutex, waiting on the condition variable, emptying the queue, routing the
    messages taken, done; [PcDied] is an exception that leaves the loop. *)
Inductive loop_pc := PcLoop | PcLock | PcWait | PcPop | PcRoute | PcReturned | PcDied.

#[export] Instance loop_pc_eq : EqDecision loop_pc.
Proof. solve_decision. Defined.

Record loop_state := LoopState {
  ml_pc : loop_pc;
  ml_notified : bool;  (* the waiting thread has been woken *)
  ml_messageQueue : list posted_envelope;
  ml_newQueue : list posted_envelope;
  ml_exit : bool;
  ml_agent : agent
}.

(** What happened in an action: a message entered the queue, or was routed; a
    thread of the network asked whether to post a message. *)
Inductive loop_event :=
  | LePosted (m : posted_envelope)
  | LeRouted (x : input) (r : res unit)
  | LeAsked (A' : agent_env share shareset sig) (m : NetworkMessage share) (r : res bool).

(** The chain and the clock as the thread finds them in its turn. *)
Record loop_view := LoopView { lv_env : agent_env share shareset sig; lv_now : Z }.

Inductive loop_action :=
  | LaPost (m : posted_envelope)
  | LaAsk (A' : agent_env share shareset sig) (m : NetworkMessage share)
  | LaExit
  | LaWake
  | LaTurn (w : loop_view).

(** A wake-up reaches the thread only if it waits at that moment. *)
Definition wakes (l : loop_state) : bool := ml_notified l || bool_decide (ml_pc l = PcWait).

Definition at_pc pc (l : loop_state) : loop_state :=
  LoopState pc false (ml_messageQueue l) (ml_newQueue l) (ml_exit l) (ml_agent l).

(** The message as [routeAndProcessMessage] finds it. *)
Definition input_of (w : loop_view) (m : posted_envelope) : input :=
  {| ai_env := lv_env w; ai_now := lv_now w; ai_origin := me_origin m; ai_src := me_src m;
     ai_arrival := me_arrival m; ai_msg := me_msg m |}.

(** [postMessage].  While the thread empties the queue it holds the mutex, and the
    caller waits. *)
Definition postToQueue (m : posted_envelope) (l : loop_state) : loop_state * list loop_event :=
  if ml_exit l then (l, [])
  else if am_blockId (me_msg m) =? 0 then (l, [])
  else if bool_decide (ml_pc l = PcPop) then (l, [])
  else (LoopState (ml_pc l) (wakes l) (ml_messageQueue l ++ [m]) (ml_newQueue l) (ml_exit l) (ml_agent l), [LePosted m]).

(** [getMessagesCount] *)
Definition getMessagesCount (l : loop_state) : Z := zlen (ml_messageQueue l).

(** A turn of [messageThreadProcessingLoop]. *)
Definition messageLoopTurn (w : loop_view) (l : loop_state) : loop_state * list loop_event :=
  match ml_pc l with
  | PcLoop => (at_pc (if ml_exit l then PcReturned else PcLock) l, [])
  | PcLock =>
      match ml_messageQueue l with
      | [] => (at_pc PcWait l, [])
      | _ => (LoopState PcPop false (ml_messageQueue l) (ml_messageQueue l) (ml_exit l) (ml_agent l), [])
      end
  | PcWait =>
      if ml_notified l then (at_pc (if ml_exit l then PcReturned else PcLock) l, [])
      else (l, [])
  | PcPop =>
      match ml_messageQueue l with
      | [] => (at_pc PcRoute l, [])
      | _ :: rest =>
          if ml_exit l then (at_pc PcReturned l, [])
          else (LoopState PcPop false rest (ml_newQueue l) (ml_exit l) (ml_agent l), [])
      end
  | PcRoute =>
      match ml_newQueue l with
      | [] => (at_pc PcLoop l, [])
      | m :: rest =>
          if ml_exit l then (at_pc PcReturned l, [])
          else if am_blockId (me_msg m) =? 0 then (at_pc PcDied l, [])
          else
            let '(r, agent') := route_input (input_of w m) (ml_agent l) in
            (LoopState PcRoute false (ml_messageQueue l) rest (ml_exit l) agent', [LeRouted (input_of w m) r])
      end
  | PcReturned | PcDied => (l, [])
  end.

Definition act (a : loop_action) (l : loop_state) : loop_state * list loop_event :=
  match a with
  | LaPost m => postToQueue m l
  | LaAsk A' m =>
      let '(r, agent') := shouldPost A' m (ml_agent l) in
      (LoopState (ml_pc l) (ml_notified l) (ml_messageQueue l) (ml_newQueue l) (ml_exit l) agent', [LeAsked A' m r])
  | LaExit => (LoopState (ml_pc l) (ml_notified l) (ml_messageQueue l) (ml_newQueue l) true (ml_agent l), [])
  | LaWake => (LoopState (ml_pc l) (wakes l) (ml_messageQueue l) (ml_newQueue l) (ml_exit l) (ml_agent l), [])
  | LaTurn w => messageLoopTurn w l
  end.

Fixpoint run_actions (acts : list loop_action) (l : loop_state) : loop_state * list loop_event :=
  match acts with
  | [] => (l, [])
  | a :: acts =>
      let '(l1, e1) := act a l in
      let '(l2, e2) := run_actions acts l1 in
      (l2, e1 ++ e2)
  end.

Lemma run_actions_app acts acts' l : (run_actions (acts ++ acts') l).1 = (run_actions acts' (run_actions acts l).1).1.
Proof.
  revert l. induction acts as [|a acts IH]; intros l; [done|]. cbn. destruct (act a l) as [l1 e1]. specialize (IH l1).
  destruct (run_actions (acts ++ acts') l1), (run_actions acts l1). cbn in *. rewrite IH. by destruct (run_actions acts' _).
Qed.

(** The chain as it starts. *)
Definition newLoop (a : agent) : loop_state := LoopState PcLoop false [] [] false a.

(** ** What enters, what is routed, what is left *)
Definition posts (evs : list loop_event) : list posted_envelope :=
  omap (fun e => match e with LePosted m => Some m | _ => None end) evs.

Definition inputs (evs : list loop_event) : list input :=
  omap (fun e => match e with LeRouted x _ => Some x | _ => None end) evs.

(** What the agent was called with. *)
Definition calls (evs : list loop_event) : list (@agent_call share shareset sig) :=
  omap (fun e => match e with
    | LeRouted x _ => Some (CallRoute x)
    | LeAsked A' m _ => Some (CallShouldPost A' m)
    | _ => None
    end) evs.

Definition envelope_of (x : input) : posted_envelope :=
  PostedEnvelope (ai_origin x) (ai_src x) (ai_arrival x) (ai_msg x).

Definition routes (evs : list loop_event) : list posted_envelope := envelope_of <$> inputs evs.

(** While the thread empties the queue, its messages are in the copy already. *)
Definition pending (l : loop_state) : list posted_envelope :=
  ml_newQueue l ++ (if bool_decide (ml_pc l = PcPop) then [] else ml_messageQueue l).

Definition nonzero (m : posted_envelope) : Prop := am_blockId (me_msg m) <> 0.

Record loop_inv (l : loop_state) : Prop := {
  li_alive : ml_pc l <> PcDied;
  li_empty : ml_pc l = PcLoop \/ ml_pc l = PcLock \/ ml_pc l = PcWait -> ml_newQueue l = [];
  li_queue : Forall nonzero (ml_messageQueue l);
  li_taken : Forall nonzero (ml_newQueue l);
  li_woken : ml_pc l = PcWait -> ml_messageQueue l <> [] -> ml_notified l = true
}.

(** What one action does. *)
Definition acts_right (l l' : loop_state) (evs : list loop_event) : Prop :=
  loop_inv l' /\ ml_agent l' = feed (calls evs) (ml_agent l) /\
  (ml_pc l = PcReturned -> ml_pc l' = PcReturned /\ inputs evs = []) /\
  (ml_pc l <> PcReturned -> exists rest, pending l ++ posts evs = routes evs ++ rest /\
    (ml_pc l' <> PcReturned -> rest = pending l')).

Lemma inputs_app evs evs' : inputs (evs ++ evs') = inputs evs ++ inputs evs'.
Proof. apply omap_app. Qed.

Lemma calls_app evs evs' : calls (evs ++ evs') = calls evs ++ calls evs'.
Proof. apply omap_app. Qed.

Lemma routes_app evs evs' : routes (evs ++ evs') = routes evs ++ routes evs'.
Proof. unfold routes. by rewrite inputs_app, fmap_app. Qed.

Lemma posts_app evs evs' : posts (evs ++ evs') = posts evs ++ posts evs'.
Proof. apply omap_app. Qed.

Lemma acts_right_quiet l l' :
  loop_inv l' -> ml_agent l' = ml_agent l -> (ml_pc l = PcReturned -> ml_pc l' = PcReturned) ->
  (ml_pc l <> PcReturned -> ml_pc l' <> PcReturned -> pending l' = pending l) -> acts_right l l' [].
Proof.
  intros Hi Ha Hr Hp. split_and!; [done|done|auto|]. intros Hn. exists (pending l). cbn. rewrite app_nil_r.
  split; [done|]. intros ?. by rewrite Hp.
Qed.

Lemma wakes_waiting l : ml_pc l = PcWait -> wakes l = true.
Proof. intros Hpc. unfold wakes. rewrite bool_decide_eq_true_2 by done. by rewrite orb_true_r. Qed.

Lemma postToQueue_right m l : loop_inv l -> acts_right l (postToQueue m l).1 (postToQueue m l).2.
Proof.
  intros Hl. pose proof Hl as [Ha He Hq Ht Hn]. unfold postToQueue.
  destruct (ml_exit l); [by apply acts_right_quiet|]. destruct (am_blockId (me_msg m) =? 0) eqn:Hb; [by apply acts_right_quiet|].
  destruct (bool_decide (ml_pc l = PcPop)) eqn:Hpc; [by apply acts_right_quiet|]. cbn.
  split_and!; [|done|done|].
  - split; cbn; [done|done| |done|intros; by apply wakes_waiting]. apply Forall_app. split; [done|].
    apply Forall_singleton. unfold nonzero. lia.
  - intros _. exists (pending l ++ [m]). split; [done|]. intros _. unfold pending. cbn. rewrite Hpc. by rewrite (assoc_L (++)).
Qed.

Lemma loop_inv_pc pc l : pc <> PcDied -> pc <> PcWait \/ ml_messageQueue l = [] -> (pc = PcLoop \/ pc = PcLock \/ pc = PcWait -> ml_newQueue l = []) ->
  loop_inv l -> loop_inv (at_pc pc l).
Proof. intros H1 H2 H3 [_ _ Hq Ht _]. split; cbn; [done|done|done|done|]. by destruct H2. Qed.

Lemma messageLoopTurn_right w l : loop_inv l -> acts_right l (messageLoopTurn w l).1 (messageLoopTurn w l).2.
Proof.
  intros Hl. pose proof Hl as [Ha He Hq Ht Hn]. unfold messageLoopTurn.
  destruct (ml_pc l) eqn:Hpc; [| | | | |apply acts_right_quiet; [exact Hl|done|done|done]|done].
  - specialize (He (or_introl eq_refl)). apply acts_right_quiet; rewrite ?Hpc; try done.
    + by apply loop_inv_pc; [destruct (ml_exit l)|left; destruct (ml_exit l)| |].
    + unfold pending. cbn. rewrite Hpc. by destruct (ml_exit l).
  - specialize (He ltac:(auto)). destruct (ml_messageQueue l) eqn:Hm; apply acts_right_quiet; rewrite ?Hpc; try done.
    + by apply loop_inv_pc; [|right| |].
    + unfold pending. cbn. by rewrite Hpc.
    + by split; cbn; [|naive_solver| | |].
    + intros _ _. unfold pending. cbn. by rewrite Hpc, He, Hm, app_nil_r.
  - destruct (ml_notified l); [|by apply acts_right_quiet].
    specialize (He ltac:(auto)). apply acts_right_quiet; rewrite ?Hpc; try done.
    + by apply loop_inv_pc; [destruct (ml_exit l)|left; destruct (ml_exit l)| |].
    + unfold pending. cbn. rewrite Hpc. by destruct (ml_exit l).
  - destruct (ml_messageQueue l) as [|m rest] eqn:Hm; [|destruct (ml_exit l) eqn:Hx]; apply acts_right_quiet; rewrite ?Hpc; try done.
    + apply loop_inv_pc; [done|by left|naive_solver|done].
    + intros _ _. unfold pending. cbn. by rewrite Hpc, Hm.
    + apply loop_inv_pc; [done|by left|naive_solver|done].
    + split; cbn; [done|naive_solver|by inversion Hq|done|done].
    + intros _ _. unfold pending. cbn. by rewrite Hpc.
  - destruct (ml_newQueue l) as [|m rest] eqn:Hm; [|destruct (ml_exit l) eqn:Hx].
    + apply acts_right_quiet; rewrite ?Hpc; try done; [apply loop_inv_pc; [done|by left|by rewrite Hm|done]|].
      intros _ _. unfold pending. cbn. by rewrite Hpc.
    + apply acts_right_quiet; rewrite ?Hpc; try done. apply loop_inv_pc; [done|by left|naive_solver|done].
    + inversion_clear Ht as [|? ? Hnz Ht']. unfold nonzero in Hnz. replace (am_blockId (me_msg m) =? 0) with false by lia.
      destruct (route_input (input_of w m) (ml_agent l)) as [r agent'] eqn:Hr. cbn. split_and!; [|unfold feed; cbn; by rewrite Hr|by rewrite Hpc|].
      * split; cbn; [done|naive_solver|done|done|done].
      * intros _. exists (rest ++ ml_messageQueue l). unfold pending. rewrite Hpc, Hm. cbn. rewrite app_nil_r. by destruct m.
Qed.

Lemma act_right a l : loop_inv l -> acts_right l (act a l).1 (act a l).2.
Proof.
  intros Hl. pose proof Hl as [Ha He Hq Ht Hn]. destruct a as [m|A' m| | |w]; [by apply postToQueue_right| | | |by apply messageLoopTurn_right].
  - cbn. destruct (shouldPost A' m (ml_agent l)) as [r agent'] eqn:Hr. cbn. split_and!; [by split|unfold feed; cbn; by rewrite Hr|done|].
    intros _. exists (pending l). cbn. by rewrite app_nil_r.
  - by apply acts_right_quiet.
  - apply acts_right_quiet; [|done|done|done]. split; cbn; [done|done|done|done|]. intros; by apply wakes_waiting.
Qed.

Lemma acts_right_trans l l1 l2 e1 e2 : acts_right l l1 e1 -> acts_right l1 l2 e2 -> acts_right l l2 (e1 ++ e2).
Proof.
  intros (H1 & A1 & R1 & P1) (H2 & A2 & R2 & P2). split_and!; [done| | |].
  - rewrite calls_app, A2, A1. unfold feed. by rewrite foldl_app.
  - intros Hr. destruct (R1 Hr) as [Hr1 E1]. destruct (R2 Hr1) as [Hr2 E2]. by rewrite inputs_app, E1, E2.
  - intros Hr. destruct (P1 Hr) as (rest & Hp & Hrest). rewrite posts_app, routes_app, (assoc_L (++)), Hp.
    destruct (decide (ml_pc l1 = PcReturned)) as [Hr1|Hr1].
    + destruct (R2 Hr1) as [Hr2 E2]. exists (rest ++ posts e2). replace (routes e2) with (@nil posted_envelope) by (unfold routes; by rewrite E2). rewrite <- !(assoc_L (++)). by cbn.
    + destruct (P2 Hr1) as (rest2 & Hp2 & Hrest2). rewrite (Hrest Hr1). exists rest2. by rewrite <- !(assoc_L (++)), Hp2.
Qed.

Lemma run_right acts l : loop_inv l -> acts_right l (run_actions acts l).1 (run_actions acts l).2.
Proof.
  revert l. induction acts as [|a acts IH]; intros l Hl; cbn [run_actions]; [by apply acts_right_quiet|].
  pose proof (act_right a l Hl) as Ha. destruct (act a l) as [l1 e1]. cbn [fst snd] in Ha.
  specialize (IH l1 (proj1 Ha)). destruct (run_actions acts l1) as [l2 e2]. cbn [fst snd] in *. by eapply acts_right_trans.
Qed.

Lemma newLoop_inv a : loop_inv (newLoop a).
Proof. by split. Qed.

(** ** Emptying the queue *)

(** Bounds the turns until what is pending now has been routed. *)
Definition work (l : loop_state) : nat :=
  let q := length (ml_messageQueue l) in
  let n := length (ml_newQueue l) in
  match ml_pc l with
  | PcLoop | PcWait => 2 * q + 3
  | PcLock => 2 * q + 2
  | PcPop => q + n + 1
  | PcRoute => n + match q with O => 0 | _ => 2 * q + 4 end
  | _ => 0
  end.

Lemma messageLoopTurn_runs w l :
  loop_inv l -> ml_exit l = false -> ml_pc l <> PcReturned ->
  ml_exit (messageLoopTurn w l).1 = false /\ ml_pc (messageLoopTurn w l).1 <> PcReturned /\ posts (messageLoopTurn w l).2 = [] /\
  (pending l = [] \/ (work (messageLoopTurn w l).1 < work l)%nat).
Proof.
  intros [Ha He Hq Ht Hn] Hx Hr. unfold messageLoopTurn, work, pending.
  destruct (ml_pc l) eqn:Hpc; rewrite ?Hx; cbn; try done.
  - split_and!; try done. right. lia.
  - rewrite He by auto. destruct (ml_messageQueue l); cbn; split_and!; try done; [by left|right; lia].
  - destruct (ml_messageQueue l) eqn:Hm; [|rewrite (Hn eq_refl) by done].
    + rewrite He by auto. destruct (ml_notified l); cbn; rewrite ?Hx, ?Hpc; cbn; (split_and!; [done|done|done|by left]).
    + cbn. rewrite Hx. split_and!; try done. right. cbn. rewrite Hm. cbn. lia.
  - destruct (ml_messageQueue l) eqn:Hm; cbn; rewrite ?Hm; cbn; split_and!; try done; right; lia.
  - destruct (ml_newQueue l) as [|m rest] eqn:Hnew; cbn; [destruct (ml_messageQueue l) eqn:Hm; cbn; rewrite ?Hm; cbn; split_and!; try done; [by left|right; lia]|].
    inversion_clear Ht as [|? ? Hnz _]. unfold nonzero in Hnz. replace (am_blockId (me_msg m) =? 0) with false by lia.
    destruct (route_input _ _). cbn. split_and!; try done. right. destruct (ml_messageQueue l); cbn; lia.
Qed.

Lemma pending_turn w l : loop_inv l -> ml_exit l = false -> ml_pc l <> PcReturned -> pending l = [] -> pending (messageLoopTurn w l).1 = [].
Proof.
  intros Hl Hx Hr Hp. destruct (messageLoopTurn_runs w l Hl Hx Hr) as (_ & Hr' & Hn & _).
  destruct (messageLoopTurn_right w l Hl) as (_ & _ & _ & H). destruct (H Hr) as (rest & Heq & Hrest).
  rewrite <- (Hrest Hr'). rewrite Hp, Hn in Heq. symmetry in Heq. by apply app_eq_nil in Heq as [_ ->].
Qed.

Lemma turns_drain ws l :
  loop_inv l -> ml_exit l = false -> ml_pc l <> PcReturned -> pending l = [] \/ (work l <= length ws)%nat ->
  let q := run_actions (LaTurn <$> ws) l in
  ml_pc q.1 <> PcReturned /\ posts q.2 = [] /\ pending q.1 = [].
Proof.
  revert l. induction ws as [|w ws IH]; intros l Hl Hx Hr Hw; cbn [fmap list_fmap run_actions act].
  - cbn. split_and!; [done|done|]. destruct Hw as [Hw|Hw]; [done|]. cbn in Hw. unfold work in Hw.
    unfold pending. destruct (ml_pc l) eqn:Hpc; try lia; try done; [|by destruct (li_alive l Hl)].
    destruct (ml_newQueue l), (ml_messageQueue l); cbn in *; try lia; done.
  - destruct (messageLoopTurn_runs w l Hl Hx Hr) as (Hx' & Hr' & Hn & Hd). pose proof (pending_turn w l Hl Hx Hr) as Hk.
    destruct (messageLoopTurn_right w l Hl) as (Hl' & _). destruct (messageLoopTurn w l) as [l1 e1]. cbn [fst snd] in *.
    assert (pending l1 = [] \/ (work l1 <= length ws)%nat) as Hw'.
    { destruct Hw as [Hw|Hw]; [left; by apply Hk|]. destruct Hd as [Hd|Hd]; [left; by apply Hk|right]. cbn in Hw. lia. }
    specialize (IH l1 Hl' Hx' Hr' Hw'). cbn in IH. destruct (run_actions (LaTurn <$> ws) l1) as [l2 e2]. cbn in *.
    by rewrite posts_app, Hn.
Qed.

(** The thread returns only when the node exits. *)
Lemma act_returns a l : (ml_pc l = PcReturned -> ml_exit l = true) -> ml_pc (act a l).1 = PcReturned -> ml_exit (act a l).1 = true.
Proof.
  intros Hl. destruct a as [m|A' m| | |w]; cbn; [|by destruct (shouldPost A' m (ml_agent l))|done|done|].
  - unfold postToQueue. destruct (ml_exit l) eqn:Hx; cbn; [by rewrite Hx|].
    destruct (_ =? _); cbn; [by rewrite Hx|]. destruct (bool_decide _); cbn; [by rewrite Hx|done].
  - unfold messageLoopTurn. destruct (ml_pc l) eqn:Hpc, (ml_exit l) eqn:Hx; cbn; repeat case_match; cbn; rewrite ?Hx; auto; congruence.
Qed.

Lemma run_returns acts l :
  (ml_pc l = PcReturned -> ml_exit l = true) -> ml_pc (run_actions acts l).1 = PcReturned -> ml_exit (run_actions acts l).1 = true.
Proof.
  revert l. induction acts as [|a acts IH]; intros l Hl; cbn [run_actions]; [done|].
  pose proof (act_returns a l Hl) as Ha. destruct (act a l) as [l1 e1]. cbn in Ha. specialize (IH l1 Ha).
  by destruct (run_actions acts l1).
Qed.

(** ** Theorems *)

(** C9: every posted message is routed at most once and in order.  Whatever the
    other threads post, whatever errors the routing of single messages ends in and
    whenever the node is told to exit, the messages routed to the block consensus
    agent are the first of the messages posted, in the order in which they were
    posted; while the thread has not returned, the others are all still waiting,
    and no exception ends the thread. *)
Theorem messages_routed_in_order acts a l evs :
  run_actions acts (newLoop a) = (l, evs) ->
  ml_pc l <> PcDied /\ ml_agent l = feed (calls evs) a /\
  exists rest, posts evs = routes evs ++ rest /\ (ml_pc l <> PcReturned -> rest = pending l).
Proof.
  intros Hrun. pose proof (run_right acts _ (newLoop_inv a)) as Hr. rewrite Hrun in Hr. destruct Hr as (Hl & Hag & _ & H).
  split; [by apply li_alive|]. split; [done|]. by apply H.
Qed.

(** C10: the queue is emptied.  Unless the node exits, some turns of the thread
    after any moment every message posted until then has been routed, whatever
    errors the routing of the others ends in: at most two turns for a message in
    the queue, one for a message taken from it, and four more.  In particular the
    thread is never left waiting while a message is in the queue: the wake-up of
    [postMessage] is not lost. *)
Theorem message_queue_drained acts a l evs ws l' evs' :
  run_actions acts (newLoop a) = (l, evs) -> ml_exit l = false ->
  (2 * length (ml_messageQueue l) + length (ml_newQueue l) + 4 <= length ws)%nat ->
  run_actions (LaTurn <$> ws) l = (l', evs') ->
  routes (evs ++ evs') = posts evs.
Proof.
  intros Hrun Hx Hw Hrun'. pose proof (run_right acts _ (newLoop_inv a)) as Hr. pose proof (run_returns acts (newLoop a)) as Hret.
  rewrite Hrun in Hr, Hret. cbn in Hret. destruct Hr as (Hl & _ & _ & H). destruct (H ltac:(done)) as (rest & Hp & Hrest). change (posts evs = routes evs ++ rest) in Hp. cbn [fst snd] in Hrest.
  assert (ml_pc l <> PcReturned) as Hnr by (intros Hpc; specialize (Hret ltac:(done) Hpc); congruence).
  specialize (turns_drain ws l Hl Hx Hnr) as (Hnr' & Hn & He); [right; unfold work; destruct (ml_pc l), (ml_messageQueue l); cbn in *; lia|].
  pose proof (run_right (LaTurn <$> ws) l Hl) as (_ & _ & _ & H'). rewrite Hrun' in H', Hnr', Hn, He. cbn [fst snd] in *.
  destruct (H' Hnr) as (rest' & Hp' & Hrest'). rewrite Hn, app_nil_r, (Hrest' Hnr'), He, app_nil_r in Hp'.
  by rewrite routes_app, <- Hp', Hp, (Hrest Hnr).
Qed.

(** C6: the binary consensuses of the chain follow the protocol.  Whatever
    messages are posted and however the threads interleave, every binary consensus
    that the block consensus agent keeps is in a state that the protocol reaches
    from the initial one with the values that were proposed to it and the messages
    of nodes that were routed to it. *)
Theorem chain_consensuses_follow_protocol A acts last l evs i cache b c :
  parses_end A -> sign_verifies (sg_bin (ae_sig A)) ->
  run_actions acts (newLoop (newAgent A last)) = (l, evs) -> Forall (call_ok A) (calls evs) ->
  ag_children (ml_agent l) !! i = Some cache -> lru_lookup cache b = Some c ->
  rtc (bin_step (child_env A (key_of i b)) (was_proposed (calls evs) (key_of i b)) (was_routed (calls evs) (key_of i b)))
    bin_init c.
Proof.
  intros Hparse Hsign Hrun Hin Hc Hl. pose proof (run_right acts _ (newLoop_inv (newAgent A last))) as Hr.
  rewrite Hrun in Hr. destruct Hr as (_ & Hag & _). cbn in Hag. rewrite Hag in Hc.
  by apply (agent_children_follow_protocol A Hparse Hsign (calls evs) last i cache b c).
Qed.
End MessageLoop.

(** ** Witnesses: a proposal, a message from the far future and a vote *)
Definition demo_view : @loop_view (Z * Z) Z Z := {| lv_env := demo_agent_env; lv_now := 5 |}.

Definition demo_vector : BooleanProposalVector :=
  {| bv_nodeCount := 4; bv_proposals := [false; true; true; false; true]; bv_trueCount := 3 |}.

Definition demo_bvb (b : Z) : NetworkMessage (Z * Z) :=
  {| nm_type := MSG_BVB_BROADCAST; nm_schainID := 7; nm_msgID := 1; nm_blockID := b; nm_blockProposerIndex := 2;
     nm_round := 0; nm_value := 1; nm_timeMs := 0; nm_srcSchainIndex := 3; nm_sigShare := None |}.

Definition demo_proposal : @posted_envelope (Z * Z) := PostedEnvelope ORIGIN_EXTERNAL 1 0 (AmProposal 1 demo_vector).
Definition demo_future : @posted_envelope (Z * Z) := PostedEnvelope ORIGIN_NETWORK 3 1 (AmNetwork (demo_bvb 9)).
Definition demo_vote : @posted_envelope (Z * Z) := PostedEnvelope ORIGIN_NETWORK 3 2 (AmNetwork (demo_bvb 1)).

(** The thread waits and is woken by the proposal, which is taken and routed while
    the others are posted. *)
Definition demo_actions : list loop_action :=
  replicate 3 (LaTurn demo_view) ++ [LaPost demo_proposal] ++ replicate 4 (LaTurn demo_view) ++
  [LaAsk demo_agent_env (demo_bvb 1); LaPost demo_future; LaPost demo_vote; LaTurn demo_view].

Definition demo_chain : loop_state := newLoop (newAgent demo_agent_env 0).

Definition demo_turns : list loop_view := replicate 8 demo_view.

Definition demo_run : loop_state * list loop_event := run_actions demo_actions demo_chain.
Definition demo_rest : loop_state * list loop_event := run_actions (LaTurn <$> demo_turns) demo_run.1.
Definition demo_whole : loop_state * list loop_event := run_actions (demo_actions ++ (LaTurn <$> demo_turns)) demo_chain.

(** The messages whose routing ended in an exception. *)
Definition failures {share shareset sig} (evs : list (@loop_event share shareset sig)) : list (@posted_envelope share * exn) :=
  omap (fun e => match e with LeRouted x (Err e) => Some (envelope_of x, e) | _ => None end) evs.

Lemma messages_routed_in_order_witness :
  failures demo_whole.2 = [(demo_future, InvalidStateException)] /\
  posts demo_whole.2 = [demo_proposal; demo_future; demo_vote] /\
  ml_pc demo_whole.1 <> PcDied /\ ml_agent demo_whole.1 = feed (calls demo_whole.2) (newAgent demo_agent_env 0) /\
  exists rest, posts demo_whole.2 = routes demo_whole.2 ++ rest /\ (ml_pc demo_whole.1 <> PcReturned -> rest = pending demo_whole.1).
Proof.
  split; [by vm_compute|]. split; [by vm_compute|].
  apply (messages_routed_in_order (demo_actions ++ (LaTurn <$> demo_turns))), surjective_pairing.
Defined.

Lemma message_queue_drained_witness :
  posts demo_run.2 = [demo_proposal; demo_future; demo_vote] /\ routes (demo_run.2 ++ demo_rest.2) = posts demo_run.2.
Proof.
  split; [by vm_compute|].
  apply (message_queue_drained demo_actions (newAgent demo_agent_env 0) demo_run.1 demo_run.2 demo_turns demo_rest.1 demo_rest.2).
  - apply surjective_pairing.
  - by vm_compute.
  - vm_compute. lia.
  - apply surjective_pairing.
Defined.

(** The wake-up of the exit is given once and without the mutex: when it falls
    between the test of the exit flag and the wait, the thread sleeps on although the
    node exits, and no message is posted any more that would wake it. *)
Example exit_wakeup_lost (turns : list (@loop_view (Z * Z) Z Z)) m :
  let l := (run_actions ([LaTurn demo_view; LaExit; LaWake] ++ [LaTurn demo_view] ++ [LaPost m] ++ (LaTurn <$> turns)) demo_chain).1 in
  ml_exit l = true /\ ml_pc l = PcWait.
Proof.
  cbn zeta. rewrite !(assoc_L (++)), run_actions_app.
  set (l0 := (run_actions _ demo_chain).1). induction turns as [|w ws IH]; [done|]. cbn [fmap list_fmap run_actions act].
  change (messageLoopTurn w l0) with (l0, @nil (@loop_event (Z * Z) Z Z)). cbv beta iota.
  by destruct (run_actions (LaTurn <$> ws) l0).
Qed.

(** The binary consensus of the second proposer after the run. *)
Definition demo_cache : lru_cache Z (bin_state (Z * Z)) := default (lru_new 10) (ag_children (ml_agent demo_whole.1) !! 1%nat).
Definition demo_child : bin_state (Z * Z) := default bin_init (lru_lookup demo_cache 1).

Lemma chain_consensuses_follow_protocol_witness :
  bvbVotes demo_child 1 0 = {[1; 3]} /\
  rtc (bin_step (child_env demo_agent_env (key_of 1 1)) (was_proposed (calls demo_whole.2) (key_of 1 1))
    (was_routed (calls demo_whole.2) (key_of 1 1))) bin_init demo_child.
Proof.
  split; [by vm_compute|].
  apply (chain_consensuses_follow_protocol demo_agent_env (demo_actions ++ (LaTurn <$> demo_turns)) 0 demo_whole.1 demo_whole.2 1
    demo_cache 1 demo_child).
  - by intros t b i.
  - by intros hash b r.
  - apply surjective_pairing.
  - vm_compute. repeat constructor; cbn; intros; by simplify_eq.
  - by vm_compute.
  - by vm_compute.
Defined.
