(* ===== verification/NodeLife.v ===== *)
(** * Starting and stopping a node

    Model of the part of [Node] and [ConsensusEngine] ([src/node]) that stops a
    node: the flags, the exit on a block boundary and the immediate exit, the
    barriers that hold the threads back at the start, and fatal errors.  Every
    flag is an atomic variable; [RETURN_IF_PREVIOUSLY_CALLED] is [onceOnly].  The
    threads are the one that exits, the one that gives a block to the application
    (one at a time, because of [blockProcessMutex]) and all others that may report
    a fatal error; a [life_action] is a piece of one of them. *)

From stdpp Require Import base tactics list sets.
From Stdlib Require Import ZArith Lia.
From S2P Require Import Prelude.

Definition CONSENSUS_WAIT_TIME_BEFORE_HARD_EXIT_MS : Z := 30000.

(** What the node does to the rest of the process. *)
Inductive node_event :=
  | StatusServerStopped
  | AgentsNotified
  | SocketsClosed
  | ServerBarrierReleased
  | ClientBarrierReleased
  | ApplicationTerminated.

#[export] Instance node_event_eq : EqDecision node_event.
Proof. solve_decision. Defined.

Record node_flags := NodeFlags {
  nf_exitGracefullyCalled : bool;
  nf_exitCalled : bool;
  nf_exitOnBlockBoundaryRequested : bool;
  nf_exitRequested : bool;
  nf_closeAllSocketsCalled : bool;
  nf_startedServers : bool;
  nf_startedClients : bool;
  nf_fatalErrorOccured : bool;
  nf_inCreateBlock : bool;
  nf_out : list node_event
}.

(** What does not change: is there an application, are there agents and sockets,
    is the node a sync node. *)
Record node_setup := {
  ns_hasExtFace : bool;
  ns_hasAgents : bool;
  ns_hasSockets : bool;
  ns_isSyncOnlyNode : bool
}.

Section NodeLife.
Context (U : node_setup).
Implicit Types s : node_flags.

Definition set_exitGracefullyCalled b s := NodeFlags b (nf_exitCalled s) (nf_exitOnBlockBoundaryRequested s)
  (nf_exitRequested s) (nf_closeAllSocketsCalled s) (nf_startedServers s) (nf_startedClients s) (nf_fatalErrorOccured s)
  (nf_inCreateBlock s) (nf_out s).
Definition set_exitCalled b s := NodeFlags (nf_exitGracefullyCalled s) b (nf_exitOnBlockBoundaryRequested s)
  (nf_exitRequested s) (nf_closeAllSocketsCalled s) (nf_startedServers s) (nf_startedClients s) (nf_fatalErrorOccured s)
  (nf_inCreateBlock s) (nf_out s).
Definition set_boundary b s := NodeFlags (nf_exitGracefullyCalled s) (nf_exitCalled s) b
  (nf_exitRequested s) (nf_closeAllSocketsCalled s) (nf_startedServers s) (nf_startedClients s) (nf_fatalErrorOccured s)
  (nf_inCreateBlock s) (nf_out s).
Definition set_exitRequested b s := NodeFlags (nf_exitGracefullyCalled s) (nf_exitCalled s) (nf_exitOnBlockBoundaryRequested s)
  b (nf_closeAllSocketsCalled s) (nf_startedServers s) (nf_startedClients s) (nf_fatalErrorOccured s)
  (nf_inCreateBlock s) (nf_out s).
Definition set_closeAllSocketsCalled b s := NodeFlags (nf_exitGracefullyCalled s) (nf_exitCalled s)
  (nf_exitOnBlockBoundaryRequested s) (nf_exitRequested s) b (nf_startedServers s) (nf_startedClients s)
  (nf_fatalErrorOccured s) (nf_inCreateBlock s) (nf_out s).
Definition set_startedServers b s := NodeFlags (nf_exitGracefullyCalled s) (nf_exitCalled s) (nf_exitOnBlockBoundaryRequested s)
  (nf_exitRequested s) (nf_closeAllSocketsCalled s) b (nf_startedClients s) (nf_fatalErrorOccured s)
  (nf_inCreateBlock s) (nf_out s).
Definition set_startedClients b s := NodeFlags (nf_exitGracefullyCalled s) (nf_exitCalled s) (nf_exitOnBlockBoundaryRequested s)
  (nf_exitRequested s) (nf_closeAllSocketsCalled s) (nf_startedServers s) b (nf_fatalErrorOccured s)
  (nf_inCreateBlock s) (nf_out s).
Definition set_fatalErrorOccured b s := NodeFlags (nf_exitGracefullyCalled s) (nf_exitCalled s)
  (nf_exitOnBlockBoundaryRequested s) (nf_exitRequested s) (nf_closeAllSocketsCalled s) (nf_startedServers s)
  (nf_startedClients s) b (nf_inCreateBlock s) (nf_out s).
Definition set_inCreateBlock b s := NodeFlags (nf_exitGracefullyCalled s) (nf_exitCalled s) (nf_exitOnBlockBoundaryRequested s)
  (nf_exitRequested s) (nf_closeAllSocketsCalled s) (nf_startedServers s) (nf_startedClients s) (nf_fatalErrorOccured s)
  b (nf_out s).
Definition node_emit e s := NodeFlags (nf_exitGracefullyCalled s) (nf_exitCalled s) (nf_exitOnBlockBoundaryRequested s)
  (nf_exitRequested s) (nf_closeAllSocketsCalled s) (nf_startedServers s) (nf_startedClients s) (nf_fatalErrorOccured s)
  (nf_inCreateBlock s) (nf_out s ++ [e]).

(** [RETURN_IF_PREVIOUSLY_CALLED( flag )], and what follows it. *)
Definition onceOnly (flag : node_flags -> bool) (set : bool -> node_flags -> node_flags) (body : M node_flags unit) :
    M node_flags unit :=
  previouslyCalled ← gets flag;
  modify (set true) ;;
  if (previouslyCalled : bool) then mret tt else body.

Definition setExitOnBlockBoundaryRequested : M node_flags unit := modify (set_boundary true).

Definition releaseGlobalServerBarrier : M node_flags unit :=
  onceOnly nf_startedServers set_startedServers (modify (node_emit ServerBarrierReleased)).

Definition releaseGlobalClientBarrier : M node_flags unit :=
  onceOnly nf_startedClients set_startedClients (modify (node_emit ClientBarrierReleased)).

(** [Node::waitOnGlobalServerStartBarrier] and its companion: may the thread go on? *)
Definition serverBarrierPassed s : bool := nf_startedServers s || nf_exitRequested s.
Definition clientBarrierPassed s : bool := nf_startedClients s || nf_exitRequested s.

Definition closeAllSocketsAndNotifyAllAgentsAndThreads : M node_flags unit :=
  onceOnly nf_closeAllSocketsCalled set_closeAllSocketsCalled
    (CHECK_STATE (ns_hasAgents U) ;;
     modify (node_emit AgentsNotified) ;;
     if ns_isSyncOnlyNode U then mret tt
     else when (ns_hasSockets U) (modify (node_emit SocketsClosed))).

Definition exitImmediately : M node_flags unit :=
  onceOnly nf_exitRequested set_exitRequested
    (modify (node_emit StatusServerStopped) ;;
     closeAllSocketsAndNotifyAllAgentsAndThreads).

(** [Node::checkForExitOnBlockBoundaryAndExitIfNeeded] *)
Definition exitOnBlockBoundaryIfNeeded : M node_flags unit :=
  requested ← gets nf_exitOnBlockBoundaryRequested;
  if (requested : bool) then exitImmediately ;; throw ExitRequestedException else mret tt.

(** [Node::exitCheck] *)
Definition nodeExitCheck : M node_flags unit :=
  e ← gets nf_exitRequested;
  check ExitRequestedException (negb e).

Definition initiateApplicationExitOnFatalConsensusError : M node_flags unit :=
  onceOnly nf_fatalErrorOccured set_fatalErrorOccured
    (if ns_hasExtFace U then modify (node_emit ApplicationTerminated) else exitImmediately).

(** ** The thread that exits *)

(** Where [doSoftAndThenHardExit] is: not called, called, waiting for the block,
    at the condition of the second loop, in its sleep, done. *)
Inductive exit_pc := ExNone | ExCalled | ExBlock | ExWait (startTimeMs : Z) | ExSleep (startTimeMs : Z) | ExDone.

(** The head of the method up to the first loop. *)
Definition exitBegin : M node_flags exit_pc :=
  called ← gets nf_exitCalled;
  modify (set_exitCalled true) ;;
  if (called : bool) then mret ExDone
  else
    setExitOnBlockBoundaryRequested ;;
    releaseGlobalClientBarrier ;;
    releaseGlobalServerBarrier ;;
    fatal ← gets nf_fatalErrorOccured;
    if (fatal : bool) then exitImmediately ;; mret ExDone else mret ExBlock.

(** A piece of [doSoftAndThenHardExit]; [now] is the clock when it is read. *)
Definition exitStep (now : Z) (pc : exit_pc) : M node_flags exit_pc :=
  match pc with
  | ExNone | ExDone => mret pc
  | ExCalled => exitBegin
  | ExBlock => b ← gets nf_inCreateBlock; mret (if (b : bool) then ExBlock else ExWait now)
  | ExWait start =>
      if now <? u64 (start + CONSENSUS_WAIT_TIME_BEFORE_HARD_EXIT_MS) then mret (ExSleep start)
      else exitImmediately ;; mret ExDone
  | ExSleep start => e ← gets nf_exitRequested; mret (if (e : bool) then ExDone else ExWait start)
  end.

(** [ConsensusEngine::exitGracefully], which starts the thread. *)
Definition exitGracefully (pc : exit_pc) : M node_flags exit_pc :=
  called ← gets nf_exitGracefullyCalled;
  modify (set_exitGracefullyCalled true) ;;
  if (called : bool) then mret pc
  else setExitOnBlockBoundaryRequested ;; mret ExCalled.

(** ** The thread that gives a block to the application *)

(** Where [Schain::pushBlockToExtFace] is: not running, past the first check, in
    [createBlock], behind it. *)
Inductive block_pc := BlIdle | BlChecked | BlCreating | BlCreated.

#[export] Instance block_pc_eq : EqDecision block_pc.
Proof. solve_decision. Defined.

Definition blockStep (pc : block_pc) : M node_flags block_pc :=
  match pc with
  | BlIdle => nodeExitCheck ;; exitOnBlockBoundaryIfNeeded ;; mret BlChecked
  | BlChecked => if ns_hasExtFace U then modify (set_inCreateBlock true) ;; mret BlCreating else mret BlCreated
  | BlCreating => modify (set_inCreateBlock false) ;; mret BlCreated
  | BlCreated => exitOnBlockBoundaryIfNeeded ;; mret BlIdle
  end.

(** ** The node *)
Record life_state := LifeState { lf_flags : node_flags; lf_exit : exit_pc; lf_block : block_pc }.

Inductive life_action :=
  | AcGraceful
  | AcExit (now : Z)
  | AcBlock
  | AcFatal.

(** An exception ends what the thread was doing. *)
Definition life_step (a : life_action) (l : life_state) : life_state :=
  match a with
  | AcGraceful =>
      let '(r, f) := exitGracefully (lf_exit l) (lf_flags l) in
      LifeState f (match r with Ok pc => pc | Err _ => lf_exit l end) (lf_block l)
  | AcExit now =>
      let '(r, f) := exitStep now (lf_exit l) (lf_flags l) in
      LifeState f (match r with Ok pc => pc | Err _ => ExDone end) (lf_block l)
  | AcBlock =>
      let '(r, f) := blockStep (lf_block l) (lf_flags l) in
      LifeState f (lf_exit l) (match r with Ok pc => pc | Err _ => BlIdle end)
  | AcFatal => LifeState (initiateApplicationExitOnFatalConsensusError (lf_flags l)).2 (lf_exit l) (lf_block l)
  end.

Definition life_run (acts : list life_action) (l : life_state) : life_state := foldl (fun l a => life_step a l) l acts.

Definition newNode : life_state :=
  LifeState (NodeFlags false false false false false false false false false []) ExNone BlIdle.

(** ** Invariants *)
Local Abbreviation count e s := (count_occ node_event_eq (nf_out s) e).
Local Abbreviation b2n := Nat.b2n.

(** What has happened matches the flags. *)
Record flags_inv s : Prop := {
  fi_status : count StatusServerStopped s = b2n (nf_exitRequested s);
  fi_close : nf_closeAllSocketsCalled s = nf_exitRequested s;
  fi_agents : count AgentsNotified s = b2n (nf_exitRequested s && ns_hasAgents U);
  fi_sockets : count SocketsClosed s =
    b2n (nf_exitRequested s && ns_hasAgents U && negb (ns_isSyncOnlyNode U) && ns_hasSockets U);
  fi_servers : count ServerBarrierReleased s = b2n (nf_startedServers s);
  fi_clients : count ClientBarrierReleased s = b2n (nf_startedClients s);
  fi_application : count ApplicationTerminated s = b2n (nf_fatalErrorOccured s && ns_hasExtFace U)
}.

(** A method that keeps the invariant, exceptions or not. *)
Definition steady {A} (c : M node_flags A) : Prop := forall s, flags_inv s -> flags_inv (c s).2.

Lemma steady_bind {A B} (c : M node_flags A) (k : A -> M node_flags B) :
  steady c -> (forall a, steady (k a)) -> steady (c ≫= k).
Proof.
  intros Hc Hk s Hs. specialize (Hc s Hs). unfold mbind, M_bind. destruct (c s) as [[a|e] s']; [by apply Hk|done].
Qed.

Lemma steady_if {A} (b : bool) (c d : M node_flags A) : steady c -> steady d -> steady (if b then c else d).
Proof. by destruct b. Qed.

Lemma steady_same {A} (f : node_flags -> node_flags) (r : node_flags -> res A) :
  (forall s, flags_inv s -> flags_inv (f s)) -> steady (fun s => (r s, f s)).
Proof. intros Hf s Hs. by apply Hf. Qed.

(** Runs a method on flags that are known. *)
Ltac run_flags := cbv [onceOnly when check mbind M_bind gets modify mret M_ret throw]; cbn.

Lemma exitImmediately_steady : steady exitImmediately.
Proof.
  intros s [H1 H2 H3 H4 H5 H6 H7]. destruct s as [a b c er ca ss sc fe i out]. cbn in *. subst ca.
  unfold exitImmediately, closeAllSocketsAndNotifyAllAgentsAndThreads; run_flags.
  destruct er; [by split|]. destruct (ns_hasAgents U) eqn:Ea, (ns_isSyncOnlyNode U) eqn:Ey, (ns_hasSockets U) eqn:Ek; cbn in *;
    split; cbn; rewrite ?Ea, ?Ey, ?Ek, ?count_occ_app; cbn; try lia; done.
Qed.

Lemma releaseServers_steady : steady releaseGlobalServerBarrier.
Proof.
  intros s [H1 H2 H3 H4 H5 H6 H7]. destruct s as [a b c er ca ss sc fe i out]. cbn in *.
  unfold releaseGlobalServerBarrier; run_flags. destruct ss; [by split|]. cbn in *. split; cbn; rewrite ?count_occ_app; cbn; try lia; done.
Qed.

Lemma releaseClients_steady : steady releaseGlobalClientBarrier.
Proof.
  intros s [H1 H2 H3 H4 H5 H6 H7]. destruct s as [a b c er ca ss sc fe i out]. cbn in *.
  unfold releaseGlobalClientBarrier; run_flags. destruct sc; [by split|]. cbn in *. split; cbn; rewrite ?count_occ_app; cbn; try lia; done.
Qed.

(** Methods that change a flag without an event. *)
Lemma steady_modify f :
  (forall s, nf_out (f s) = nf_out s /\ nf_exitRequested (f s) = nf_exitRequested s /\
    nf_closeAllSocketsCalled (f s) = nf_closeAllSocketsCalled s /\ nf_startedServers (f s) = nf_startedServers s /\
    nf_startedClients (f s) = nf_startedClients s /\ nf_fatalErrorOccured (f s) = nf_fatalErrorOccured s) ->
  steady (modify f).
Proof.
  intros Hf s [H1 H2 H3 H4 H5 H6 H7]. destruct (Hf s) as (E1 & E2 & E3 & E4 & E5 & E6). cbn.
  split; rewrite ?E1, ?E2, ?E3, ?E4, ?E5, ?E6; done.
Qed.

Lemma steady_gets {A} (f : node_flags -> A) : steady (gets f).
Proof. by intros s. Qed.

Lemma steady_ret {A} (a : A) : steady (mret a).
Proof. by intros s. Qed.

Lemma steady_throw {A} e : steady (throw (A := A) e).
Proof. by intros s. Qed.

Ltac steady_auto :=
  repeat first
    [ apply steady_ret | apply steady_throw | apply steady_gets | apply exitImmediately_steady | apply releaseServers_steady
    | apply releaseClients_steady | apply steady_modify; by intros [] | apply steady_bind; [|intros ?] | apply steady_if ].

Lemma fatal_steady : steady initiateApplicationExitOnFatalConsensusError.
Proof.
  intros s [H1 H2 H3 H4 H5 H6 H7]. destruct s as [a b c er ca ss sc fe i out]. cbn in *.
  unfold initiateApplicationExitOnFatalConsensusError. run_flags. destruct fe; [by split|].
  destruct (ns_hasExtFace U) eqn:Hx; cbn in *.
  - split; cbn; rewrite ?Hx, ?count_occ_app; cbn; try lia; done.
  - apply exitImmediately_steady. by split; cbn; rewrite ?Hx.
Qed.

Lemma exitStep_steady now pc : steady (exitStep now pc).
Proof. destruct pc; unfold exitStep, exitBegin, setExitOnBlockBoundaryRequested; steady_auto. Qed.

Lemma blockStep_steady pc : steady (blockStep pc).
Proof.
  destruct pc; unfold blockStep, nodeExitCheck, exitOnBlockBoundaryIfNeeded, check; steady_auto.
Qed.

Lemma life_step_steady a l : flags_inv (lf_flags l) -> flags_inv (lf_flags (life_step a l)).
Proof.
  intros Hl. destruct a; cbn.
  - assert (steady (exitGracefully (lf_exit l))) as Hs
      by (unfold exitGracefully, setExitOnBlockBoundaryRequested; steady_auto).
    specialize (Hs _ Hl). by destruct (exitGracefully (lf_exit l) (lf_flags l)).
  - pose proof (exitStep_steady now (lf_exit l) _ Hl) as Hs. by destruct (exitStep now (lf_exit l) (lf_flags l)).
  - pose proof (blockStep_steady (lf_block l) _ Hl) as Hs. by destruct (blockStep (lf_block l) (lf_flags l)).
  - by apply fatal_steady.
Qed.

Lemma life_run_steady acts l : flags_inv (lf_flags l) -> flags_inv (lf_flags (life_run acts l)).
Proof. revert l. induction acts as [|a acts IH]; intros l Hl; [done|]. by apply IH, life_step_steady. Qed.

Lemma newNode_steady : flags_inv (lf_flags newNode).
Proof. by split. Qed.

(** How the flags fit the threads. *)
Definition begun (pc : exit_pc) : Prop := match pc with ExNone | ExCalled => False | _ => True end.

Record threads_inv (l : life_state) : Prop := {
  th_called : lf_exit l <> ExNone -> nf_exitGracefullyCalled (lf_flags l) = true;
  th_boundary : nf_exitGracefullyCalled (lf_flags l) = true -> nf_exitOnBlockBoundaryRequested (lf_flags l) = true;
  th_exit : nf_exitRequested (lf_flags l) = true ->
    nf_exitOnBlockBoundaryRequested (lf_flags l) = true \/ nf_fatalErrorOccured (lf_flags l) = true;
  th_create : nf_inCreateBlock (lf_flags l) = true <-> lf_block l = BlCreating;
  th_begun : begun (lf_exit l) -> nf_startedServers (lf_flags l) = true /\ nf_startedClients (lf_flags l) = true;
  th_first : lf_exit l = ExNone \/ lf_exit l = ExCalled -> nf_exitCalled (lf_flags l) = false;
  th_done : lf_exit l = ExDone -> nf_exitRequested (lf_flags l) = true
}.

(** [exitImmediately] sets its flags and changes no other one. *)
Lemma exitImmediately_flags s :
  let s' := (exitImmediately s).2 in
  nf_exitRequested s' = true /\ nf_exitGracefullyCalled s' = nf_exitGracefullyCalled s /\ nf_exitCalled s' = nf_exitCalled s /\
  nf_exitOnBlockBoundaryRequested s' = nf_exitOnBlockBoundaryRequested s /\ nf_startedServers s' = nf_startedServers s /\
  nf_startedClients s' = nf_startedClients s /\ nf_fatalErrorOccured s' = nf_fatalErrorOccured s /\
  nf_inCreateBlock s' = nf_inCreateBlock s.
Proof.
  destruct s as [a b c er ca ss sc fe i out]. unfold exitImmediately, closeAllSocketsAndNotifyAllAgentsAndThreads. run_flags.
  destruct er, ca, (ns_hasAgents U), (ns_isSyncOnlyNode U), (ns_hasSockets U); by cbn.
Qed.

Ltac life_auto := cbn in *; intuition (try done; try congruence).

(** The state of the exiting thread after a method. *)
Definition exit_pc_of (l : life_state) (r : res exit_pc) : exit_pc := match r with Ok pc => pc | Err _ => ExDone end.

Lemma exitImmediately_ends l s :
  ((exitImmediately ;; mret ExDone) s).2 = (exitImmediately s).2 /\ exit_pc_of l ((exitImmediately ;; mret ExDone) s).1 = ExDone.
Proof. unfold mbind, M_bind. by destruct (exitImmediately s) as [[?|?] ?]. Qed.

Lemma exit_step_eq now l :
  life_step (AcExit now) l = LifeState (exitStep now (lf_exit l) (lf_flags l)).2
    (exit_pc_of l (exitStep now (lf_exit l) (lf_flags l)).1) (lf_block l).
Proof. cbn. by destruct (exitStep now (lf_exit l) (lf_flags l)). Qed.

(** The state in which a run that ends the node leaves the flags. *)
Lemma exit_now_threads l s :
  threads_inv l -> begun (lf_exit l) -> lf_flags l = s ->
  threads_inv (LifeState (exitImmediately s).2 ExDone (lf_block l)).
Proof.
  intros [H1 H2 H3 H4 H5 H6 H7] Hb <-. destruct (exitImmediately_flags (lf_flags l)) as (E1 & E2 & E3 & E4 & E5 & E6 & E7 & E8).
  destruct (H5 Hb). assert (lf_exit l <> ExNone) as Hn by (intros Hn; by rewrite Hn in Hb).
  split; cbn; rewrite ?E1, ?E2, ?E3, ?E4, ?E5, ?E6, ?E7, ?E8; life_auto.
Qed.

Lemma exitBegin_run s :
  nf_exitCalled s = false ->
  let s1 := (releaseGlobalServerBarrier (releaseGlobalClientBarrier (set_boundary true (set_exitCalled true s))).2).2 in
  exitBegin s = if nf_fatalErrorOccured s1 then (exitImmediately ;; mret ExDone) s1 else (Ok ExBlock, s1).
Proof.
  intros Hc. destruct s as [a b c er ca ss sc fe i out]. cbn in Hc. subst b.
  unfold exitBegin, setExitOnBlockBoundaryRequested, releaseGlobalServerBarrier, releaseGlobalClientBarrier. run_flags.
  by destruct ss, sc, fe.
Qed.

Lemma exit_step_threads now l : threads_inv l -> threads_inv (life_step (AcExit now) l).
Proof.
  intros Hl. rewrite exit_step_eq. pose proof Hl as [H1 H2 H3 H4 H5 H6 H7].
  destruct (lf_exit l) as [| | |st|st|] eqn:Hpc; cbn [exitStep].
  - cbn. rewrite <- Hpc. by destruct l.
  - assert (nf_exitCalled (lf_flags l) = false) as Hc by auto. rewrite (exitBegin_run _ Hc).
    set (s1 := (releaseGlobalServerBarrier _).2).
    assert (threads_inv (LifeState s1 ExBlock (lf_block l))) as Hs1.
    { subst s1. destruct (lf_flags l) as [a b c er ca ss sc fe i out]. cbn in *. unfold releaseGlobalServerBarrier, releaseGlobalClientBarrier.
      run_flags. destruct ss, sc; split; life_auto. }
    destruct (nf_fatalErrorOccured s1); [|exact Hs1].
    destruct (exitImmediately_ends l s1) as [-> ->]. by apply (exit_now_threads (LifeState s1 ExBlock (lf_block l))).
  - run_flags. destruct (nf_inCreateBlock (lf_flags l)) eqn:Hi; split; life_auto.
  - destruct (now <? _); [|].
    + split; life_auto.
    + destruct (exitImmediately_ends l (lf_flags l)) as [-> ->]. apply (exit_now_threads l); [done|by rewrite Hpc|done].
  - run_flags. destruct (nf_exitRequested (lf_flags l)) eqn:Hi; split; life_auto.
  - cbn. rewrite <- Hpc. by destruct l.
Qed.

Lemma graceful_eq l :
  life_step AcGraceful l =
    if nf_exitGracefullyCalled (lf_flags l) then LifeState (set_exitGracefullyCalled true (lf_flags l)) (lf_exit l) (lf_block l)
    else LifeState (set_boundary true (set_exitGracefullyCalled true (lf_flags l))) ExCalled (lf_block l).
Proof.
  destruct l as [[a b c er ca ss sc fe i out] pc bl]. cbn. unfold exitGracefully, setExitOnBlockBoundaryRequested. run_flags.
  by destruct a.
Qed.

Lemma graceful_threads l : threads_inv l -> threads_inv (life_step AcGraceful l).
Proof.
  intros [H1 H2 H3 H4 H5 H6 H7]. rewrite graceful_eq. destruct (nf_exitGracefullyCalled (lf_flags l)) eqn:Hg; [split; life_auto|].
  assert (lf_exit l = ExNone) as Hn by (destruct (lf_exit l); try done; specialize (H1 ltac:(done)); done).
  split; life_auto.
Qed.

(** The flags after a check at a block boundary. *)
Definition after_boundary s : node_flags :=
  if nf_exitOnBlockBoundaryRequested s then (exitImmediately s).2 else s.

Lemma boundary_run s :
  exists r, exitOnBlockBoundaryIfNeeded s = (r, after_boundary s) /\
    (nf_exitOnBlockBoundaryRequested s = true <-> r <> Ok tt).
Proof.
  unfold exitOnBlockBoundaryIfNeeded, after_boundary. run_flags. destruct (nf_exitOnBlockBoundaryRequested s).
  - destruct (exitImmediately s) as [[?|e] s']; eexists; by split.
  - exists (Ok tt). split; [done|]. split; [done|]. by intros ?.
Qed.

Lemma block_eq l :
  life_step AcBlock l =
    match lf_block l with
    | BlIdle =>
        if nf_exitRequested (lf_flags l) then l
        else LifeState (after_boundary (lf_flags l)) (lf_exit l)
               (if nf_exitOnBlockBoundaryRequested (lf_flags l) then BlIdle else BlChecked)
    | BlChecked =>
        if ns_hasExtFace U then LifeState (set_inCreateBlock true (lf_flags l)) (lf_exit l) BlCreating
        else LifeState (lf_flags l) (lf_exit l) BlCreated
    | BlCreating => LifeState (set_inCreateBlock false (lf_flags l)) (lf_exit l) BlCreated
    | BlCreated => LifeState (after_boundary (lf_flags l)) (lf_exit l) BlIdle
    end.
Proof.
  destruct l as [f pc bl]. destruct (boundary_run f) as (r & Hr & Hb). destruct bl; cbn; unfold nodeExitCheck; run_flags.
  - destruct (nf_exitRequested f); cbn; [done|]. rewrite Hr. destruct r as [[]|e], (nf_exitOnBlockBoundaryRequested f); cbn; try done.
    + by destruct (proj1 Hb eq_refl).
    + by specialize (proj2 Hb ltac:(done)).
  - by destruct (ns_hasExtFace U).
  - done.
  - rewrite Hr. by destruct r.
Qed.

Lemma after_boundary_flags s :
  let s' := after_boundary s in
  (nf_exitRequested s' = nf_exitRequested s \/ nf_exitRequested s' = true /\ nf_exitOnBlockBoundaryRequested s = true) /\
  nf_exitGracefullyCalled s' = nf_exitGracefullyCalled s /\ nf_exitCalled s' = nf_exitCalled s /\
  nf_exitOnBlockBoundaryRequested s' = nf_exitOnBlockBoundaryRequested s /\ nf_startedServers s' = nf_startedServers s /\
  nf_startedClients s' = nf_startedClients s /\ nf_fatalErrorOccured s' = nf_fatalErrorOccured s /\
  nf_inCreateBlock s' = nf_inCreateBlock s.
Proof.
  cbv zeta. unfold after_boundary. destruct (nf_exitOnBlockBoundaryRequested s) eqn:Hb; [|by split; [left|]].
  destruct (exitImmediately_flags s) as (-> & -> & -> & -> & -> & -> & -> & ->). split; [by right|done].
Qed.

Lemma block_threads l : threads_inv l -> threads_inv (life_step AcBlock l).
Proof.
  intros [H1 H2 H3 H4 H5 H6 H7]. rewrite block_eq.
  destruct (after_boundary_flags (lf_flags l)) as (E1 & E2 & E3 & E4 & E5 & E6 & E7 & E8).
  destruct (lf_block l) eqn:Hb.
  - destruct (nf_exitRequested (lf_flags l)) eqn:He; [by split; rewrite ?Hb, ?He|].
    destruct (nf_exitOnBlockBoundaryRequested (lf_flags l)); split; cbn; rewrite ?E2, ?E3, ?E4, ?E5, ?E6, ?E7, ?E8; life_auto.
  - destruct (ns_hasExtFace U); split; life_auto.
  - split; life_auto.
  - split; cbn; rewrite ?E2, ?E3, ?E4, ?E5, ?E6, ?E7, ?E8; life_auto; apply H3; congruence.
Qed.

Lemma fatal_flags s :
  let s' := (initiateApplicationExitOnFatalConsensusError s).2 in
  nf_exitGracefullyCalled s' = nf_exitGracefullyCalled s /\ nf_exitCalled s' = nf_exitCalled s /\
  nf_exitOnBlockBoundaryRequested s' = nf_exitOnBlockBoundaryRequested s /\ nf_startedServers s' = nf_startedServers s /\
  nf_startedClients s' = nf_startedClients s /\ nf_fatalErrorOccured s' = true /\ nf_inCreateBlock s' = nf_inCreateBlock s /\
  (nf_exitRequested s = true -> nf_exitRequested s' = true).
Proof.
  unfold initiateApplicationExitOnFatalConsensusError. run_flags. destruct (nf_fatalErrorOccured s); [by cbn|].
  destruct (ns_hasExtFace U); [by cbn|].
  destruct (exitImmediately_flags (set_fatalErrorOccured true s)) as (-> & -> & -> & -> & -> & -> & -> & ->). by cbn.
Qed.

Lemma fatal_threads l : threads_inv l -> threads_inv (life_step AcFatal l).
Proof.
  intros [H1 H2 H3 H4 H5 H6 H7]. cbn [life_step].
  destruct (fatal_flags (lf_flags l)) as (E1 & E2 & E3 & E4 & E5 & E6 & E7 & E8).
  split; cbn; rewrite ?E1, ?E2, ?E3, ?E4, ?E5, ?E6, ?E7; auto.
Qed.

Lemma life_step_threads a l : threads_inv l -> threads_inv (life_step a l).
Proof. destruct a; [apply graceful_threads|apply exit_step_threads|apply block_threads|apply fatal_threads]. Qed.

Lemma life_run_threads acts l : threads_inv l -> threads_inv (life_run acts l).
Proof. revert l. induction acts as [|a acts IH]; intros l Hl; [done|]. by apply IH, life_step_threads. Qed.

Lemma newNode_threads : threads_inv newNode.
Proof. by split; cbn. Qed.

(** ** Blocks are spared *)

(** The exit was requested while no block had passed only the first check, and
    there was no fatal error. *)
Record spares (l : life_state) : Prop := {
  sp_threads : threads_inv l;
  sp_boundary : nf_exitOnBlockBoundaryRequested (lf_flags l) = true;
  sp_fatal : nf_fatalErrorOccured (lf_flags l) = false;
  sp_checked : lf_block l <> BlChecked;
  sp_exit : nf_exitRequested (lf_flags l) = true -> lf_block l <> BlCreating;
  sp_waits : (exists st, lf_exit l = ExWait st \/ lf_exit l = ExSleep st) -> lf_block l <> BlCreating
}.

Lemma spares_exit now l : spares l -> spares (life_step (AcExit now) l).
Proof.
  intros [Ht Hb Hf Hc He Hw]. pose proof (exit_step_threads now l Ht) as Ht'. revert Ht'. rewrite exit_step_eq.
  pose proof Ht as [H1 H2 H3 H4 H5 H6 H7].
  destruct (lf_exit l) as [| | |st|st|] eqn:Hpc; cbn [exitStep]; intros Ht'.
  - by split; cbn; try done; intros [? [?|?]].
  - revert Ht'. rewrite (exitBegin_run _ ltac:(auto)). set (s1 := (releaseGlobalServerBarrier _).2). intros Ht'.
    assert (nf_fatalErrorOccured s1 = false /\ nf_exitOnBlockBoundaryRequested s1 = true /\
      nf_exitRequested s1 = nf_exitRequested (lf_flags l)) as (E1 & E2 & E3).
    { subst s1. destruct (lf_flags l) as [a b c er ca ss sc fe i out]. cbn in *. unfold releaseGlobalServerBarrier, releaseGlobalClientBarrier.
      run_flags. by destruct ss, sc. }
    rewrite E1 in *. split; cbn; rewrite ?E3; try done. by intros [? [?|?]].
  - revert Ht'. run_flags. destruct (nf_inCreateBlock (lf_flags l)) eqn:Hi; cbn; intros Ht'; split; cbn; try done; intros Hs;
      first [by destruct Hs as [? [?|?]] | intros Hx; apply H4 in Hx; congruence].
  - revert Ht'. destruct (now <? _); cbn; intros Ht'; [split; cbn; try done; intros _; by apply Hw; eauto|].
    revert Ht'. destruct (exitImmediately_ends l (lf_flags l)) as [-> ->]. intros Ht'.
    destruct (exitImmediately_flags (lf_flags l)) as (E1 & E2 & E3 & E4 & E5 & E6 & E7 & E8).
    split; cbn; rewrite ?E4, ?E7; try done; [intros _; by apply Hw; eauto|by intros [? [?|?]]].
  - revert Ht'. run_flags. destruct (nf_exitRequested (lf_flags l)) eqn:Hi; cbn; intros Ht'; split; cbn; try done; intros _; auto;
      apply Hw; eauto.
  - by split; cbn; try done; intros [? [?|?]].
Qed.

Lemma spares_step a l : a <> AcFatal -> spares l -> spares (life_step a l).
Proof.
  intros Ha Hl. destruct a as [|now| |]; [|by apply spares_exit| |done]; destruct Hl as [Ht Hb Hf Hc He Hw].
  - pose proof (graceful_threads l Ht) as Ht'. rewrite graceful_eq in *.
    destruct (nf_exitGracefullyCalled (lf_flags l)); split; cbn; try done. by intros [? [?|?]].
  - pose proof (block_threads l Ht) as Ht'. rewrite block_eq in *.
    destruct (after_boundary_flags (lf_flags l)) as (E1 & E2 & E3 & E4 & E5 & E6 & E7 & E8).
    destruct (lf_block l) eqn:Hbl; [|done| |].
    + destruct (nf_exitRequested (lf_flags l)) eqn:Hx; [by split; rewrite ?Hbl, ?Hx|]. rewrite Hb in *.
      split; cbn; rewrite ?E4, ?E7; done.
    + split; cbn; done.
    + split; cbn; rewrite ?E4, ?E7; done.
Qed.

Lemma spares_run acts l : AcFatal ∉ acts -> spares l -> spares (life_run acts l).
Proof.
  revert l. induction acts as [|a acts IH]; intros l Ha Hl; [done|]. apply not_elem_of_cons in Ha as [Ha Has].
  apply IH; [done|]. apply spares_step; [done|done].
Qed.

Lemma spares_request l :
  threads_inv l -> nf_exitOnBlockBoundaryRequested (lf_flags l) = false -> nf_fatalErrorOccured (lf_flags l) = false ->
  lf_block l <> BlChecked -> spares (life_step AcGraceful l).
Proof.
  intros Ht Hb Hf Hc. pose proof (graceful_threads l Ht) as Ht'. rewrite graceful_eq in *. destruct Ht as [H1 H2 H3 H4 H5 H6 H7].
  destruct (nf_exitGracefullyCalled (lf_flags l)); [specialize (H2 eq_refl); congruence|].
  split; cbn; try done; [|by intros [? [?|?]]]. intros Hx. destruct (H3 Hx); congruence.
Qed.

(** ** The exit is completed *)

(** The exiting thread waits since this time, or has ended the node. *)
Definition waiting start (l : life_state) : Prop :=
  lf_exit l = ExWait start \/ lf_exit l = ExSleep start \/ lf_exit l = ExDone.

Lemma waiting_step start a l : threads_inv l -> waiting start l -> waiting start (life_step a l).
Proof.
  intros Ht Hw. unfold waiting in *. destruct a as [|now| |].
  - rewrite graceful_eq. destruct (nf_exitGracefullyCalled (lf_flags l)) eqn:Hg; [done|].
    assert (lf_exit l <> ExNone) as Hn by (intros Hx; rewrite Hx in Hw; by destruct Hw as [?|[?|?]]). specialize (th_called l Ht Hn). congruence.
  - rewrite exit_step_eq. cbn. destruct Hw as [-> | [-> | ->]]; cbn; [| |by auto].
    + destruct (now <? _); cbn; [by auto|]. destruct (exitImmediately_ends l (lf_flags l)) as [_ ->]. auto.
    + run_flags. destruct (nf_exitRequested (lf_flags l)); cbn; auto.
  - rewrite block_eq. destruct (lf_block l), (nf_exitRequested (lf_flags l)), (ns_hasExtFace U); done.
  - done.
Qed.

Lemma waiting_run start acts l : threads_inv l -> waiting start l -> waiting start (life_run acts l).
Proof.
  revert l. induction acts as [|a acts IH]; intros l Ht Hw; [done|].
  apply IH; [by apply life_step_threads|by apply waiting_step].
Qed.

(** Once the time is over the thread needs at most two more pieces. *)
Lemma waiting_late start now l :
  0 <= start -> start + CONSENSUS_WAIT_TIME_BEFORE_HARD_EXIT_MS < 2 ^ 64 ->
  start + CONSENSUS_WAIT_TIME_BEFORE_HARD_EXIT_MS <= now -> waiting start l ->
  lf_exit (life_step (AcExit now) l) = ExDone \/ lf_exit (life_step (AcExit now) l) = ExWait start /\ lf_exit l = ExSleep start.
Proof.
  intros Hs Hb Hn Hw. rewrite exit_step_eq. cbn [lf_exit].
  destruct Hw as [-> | [-> | ->]]; cbn [exitStep].
  - unfold u64, wrap. rewrite Z.mod_small by (unfold CONSENSUS_WAIT_TIME_BEFORE_HARD_EXIT_MS in *; lia).
    replace (now <? _) with false by lia. left. by destruct (exitImmediately_ends l (lf_flags l)) as [_ ->].
  - run_flags. destruct (nf_exitRequested (lf_flags l)); cbn; auto.
  - by left.
Qed.

Lemma life_run_app acts acts' l : life_run (acts ++ acts') l = life_run acts' (life_run acts l).
Proof. unfold life_run. by rewrite foldl_app. Qed.

(** ** Theorems *)

(** The node is shut down once.  Whatever the application, the exiting
    thread, the block thread and the threads with fatal errors do, in whatever
    order, the status server is stopped exactly once as soon as an exit is
    requested and never before, and so are the agents notified and the sockets
    closed; each barrier is released once, and the application is told to
    terminate at most once. *)
Theorem node_shut_down_once acts :
  let s := lf_flags (life_run acts newNode) in
  count StatusServerStopped s = b2n (nf_exitRequested s) /\
  count AgentsNotified s = b2n (nf_exitRequested s && ns_hasAgents U) /\
  count SocketsClosed s =
    b2n (nf_exitRequested s && ns_hasAgents U && negb (ns_isSyncOnlyNode U) && ns_hasSockets U) /\
  count ServerBarrierReleased s = b2n (nf_startedServers s) /\
  count ClientBarrierReleased s = b2n (nf_startedClients s) /\
  count ApplicationTerminated s = b2n (nf_fatalErrorOccured s && ns_hasExtFace U).
Proof. destruct (life_run_steady acts newNode newNode_steady) as [H1 H2 H3 H4 H5 H6 H7]. by split_and!. Qed.

(** C25: a requested exit spares the block that is being created.  When the
    application asks the node to exit while no block is between the check of the
    block boundary and [createBlock], and no fatal error occurs, then however the
    threads interleave and whatever the clock shows, no thread is told to exit
    while the application creates a block. *)
Theorem soft_exit_spares_block before acts :
  let l := life_run before newNode in
  nf_exitOnBlockBoundaryRequested (lf_flags l) = false -> nf_fatalErrorOccured (lf_flags l) = false ->
  lf_block l <> BlChecked -> AcFatal ∉ acts ->
  let s := lf_flags (life_run (AcGraceful :: acts) l) in
  nf_exitRequested s = true -> nf_inCreateBlock s = false.
Proof.
  intros l Hb Hf Hc Ha s He. pose proof (life_run_threads before newNode newNode_threads) as Ht.
  destruct (spares_run acts _ Ha (spares_request l Ht Hb Hf Hc)) as [Hti _ _ _ Hx _].
  specialize (Hx He). destruct (nf_inCreateBlock s) eqn:Hi; [|done]. by apply (th_create _ Hti) in Hi.
Qed.

(** C26: a requested exit is completed.  Once the exiting thread finds that no
    block is being created, it needs its next two pieces after thirty seconds,
    whatever the other threads do meanwhile: the exit is requested, no thread is
    held back at a barrier, and the exiting thread is done. *)
Theorem requested_exit_completes before start acts late late' :
  let l := life_run before newNode in
  lf_exit l = ExBlock -> nf_inCreateBlock (lf_flags l) = false ->
  0 <= start -> start + CONSENSUS_WAIT_TIME_BEFORE_HARD_EXIT_MS < 2 ^ 64 ->
  start + CONSENSUS_WAIT_TIME_BEFORE_HARD_EXIT_MS <= late -> start + CONSENSUS_WAIT_TIME_BEFORE_HARD_EXIT_MS <= late' ->
  let l' := life_run (AcExit start :: acts ++ [AcExit late; AcExit late']) l in
  lf_exit l' = ExDone /\ nf_exitRequested (lf_flags l') = true /\
  serverBarrierPassed (lf_flags l') = true /\ clientBarrierPassed (lf_flags l') = true.
Proof.
  intros l Hpc Hi Hs Hb Hn Hn' l'. pose proof (life_run_threads before newNode newNode_threads) as Ht.
  assert (waiting start (life_step (AcExit start) l)) as Hw.
  { rewrite exit_step_eq, Hpc. cbn [exitStep]. unfold waiting. run_flags. rewrite Hi. cbn. auto. }
  pose proof (life_step_threads (AcExit start) l Ht) as Ht1.
  pose proof (waiting_run start acts _ Ht1 Hw) as Hw2. pose proof (life_run_threads acts _ Ht1) as Ht2.
  assert (l' = life_step (AcExit late') (life_step (AcExit late) (life_run acts (life_step (AcExit start) l)))) as ->
    by (unfold l', life_run; cbn; by rewrite foldl_app).
  set (l2 := life_run acts _) in *. pose proof (life_step_threads (AcExit late) l2 Ht2) as Ht3.
  pose proof (waiting_step start (AcExit late) l2 Ht2 Hw2) as Hw3.
  assert (lf_exit (life_step (AcExit late') (life_step (AcExit late) l2)) = ExDone) as Hd.
  { destruct (waiting_late start late' _ Hs Hb Hn' Hw3) as [Hd|[_ Hd]]; [done|].
    destruct (waiting_late start late l2 Hs Hb Hn Hw2) as [Hd'|[Hd' _]]; congruence. }
  pose proof (life_step_threads (AcExit late') _ Ht3) as Ht4. split; [done|]. split; [by apply (th_done _ Ht4)|].
  destruct (th_begun _ Ht4) as [Hv Hc]; [by rewrite Hd|]. unfold serverBarrierPassed, clientBarrierPassed. by rewrite Hv, Hc.
Qed.
End NodeLife.

(** ** Witnesses *)
Definition demo_setup : node_setup :=
  {| ns_hasExtFace := true; ns_hasAgents := true; ns_hasSockets := true; ns_isSyncOnlyNode := false |}.

(** The exit is requested while a block is created; it ends the node behind it. *)
Lemma soft_exit_spares_block_witness :
  let l := life_run demo_setup [AcBlock; AcBlock] newNode in
  let acts := [AcExit 0; AcExit 0; AcExit 40000; AcBlock; AcExit 50000; AcBlock; AcExit 60000] in
  nf_inCreateBlock (lf_flags l) = true /\
  nf_exitRequested (lf_flags (life_run demo_setup (AcGraceful :: acts) l)) = true /\
  nf_inCreateBlock (lf_flags (life_run demo_setup (AcGraceful :: acts) l)) = false.
Proof.
  split; [done|]. split; [done|].
  apply (soft_exit_spares_block demo_setup [AcBlock; AcBlock]); [done|done|done|set_solver|done].
Defined.

Lemma requested_exit_completes_witness :
  let l := life_run demo_setup [AcGraceful; AcExit 5] newNode in
  let l' := life_run demo_setup (AcExit 100 :: [AcExit 200; AcBlock; AcExit 300] ++ [AcExit 40000; AcExit 40001]) l in
  lf_exit l' = ExDone /\ nf_exitRequested (lf_flags l') = true /\
  serverBarrierPassed (lf_flags l') = true /\ clientBarrierPassed (lf_flags l') = true.
Proof.
  apply (requested_exit_completes demo_setup [AcGraceful; AcExit 5] 100); try done; unfold CONSENSUS_WAIT_TIME_BEFORE_HARD_EXIT_MS; lia.
Defined.

(** A block that has passed the check when the exit is requested is created
    although the exit thread has found no block; after thirty seconds the node
    exits in the middle of it. *)
Example exit_in_the_middle_of_a_block :
  let l := life_run demo_setup [AcBlock; AcGraceful; AcExit 0; AcExit 0; AcBlock; AcExit 30000] newNode in
  nf_exitRequested (lf_flags l) = true /\ nf_inCreateBlock (lf_flags l) = true /\ nf_fatalErrorOccured (lf_flags l) = false.
Proof. by vm_compute. Qed.
