(* ===== verification/NodeConfig.v ===== *)
(** * Configuration and start of a node

    Model of the part of [JSONFactory] ([src/json]), [NodeInfo], [Node],
    [ConsensusEngine] ([src/node]) and the constructor of [Schain] that turns the
    configuration of a chain into the tables of its members, of the parameters
    that may come from the environment, and of the check before the start that
    enough members can be reached ([Schain::healthCheck]).  The JSON library is
    outside: a configuration is given by what it returns for each field, [None]
    when the field is missing or has another type. *)

From stdpp Require Import base tactics gmap list strings sorting.
From Stdlib Require Import ZArith Lia Ascii.
From S2P Require Import Prelude Bytes.

Definition EMPTY_BLOCK_INTERVAL_MS : Z := 3000.
Definition EMPTY_BLOCK_INTERVAL_AFTER_CATCHUP_MS : Z := 100.
Definition NEVER_MS : Z := 100000000000000.

(** ** Parameters *)

Definition LLONG_MIN : Z := - 2 ^ 63.
Definition LLONG_MAX : Z := 2 ^ 63 - 1.

(** [isspace] in the C locale. *)
Definition is_space (c : Ascii.ascii) : bool :=
  let n := Z.of_N (Ascii.N_of_ascii c) in (n =? 32) || ((9 <=? n) && (n <=? 13)).

Definition digit_of (c : Ascii.ascii) : option Z :=
  let n := Z.of_N (Ascii.N_of_ascii c) in
  if (48 <=? n) && (n <=? 57) then Some (n - 48) else None.

Fixpoint skip_spaces (s : string) : string :=
  match s with
  | String c s' => if is_space c then skip_spaces s' else s
  | EmptyString => s
  end.

(** The digits at the head of a text, on top of what was read already. *)
Fixpoint read_digits (acc : Z) (s : string) : Z :=
  match s with
  | String c s' => match digit_of c with Some d => read_digits (10 * acc + d) s' | None => acc end
  | EmptyString => acc
  end.

(** [strtoll( text, nullptr, 10 )]: the value, and whether [errno] is set. *)
Definition strtoll (s : string) : Z * bool :=
  let s := skip_spaces s in
  let v :=
    match s with
    | String "-"%char s' => - read_digits 0 s'
    | String "+"%char s' => read_digits 0 s'
    | _ => read_digits 0 s
    end in
  if v <? LLONG_MIN then (LLONG_MIN, true)
  else if LLONG_MAX <? v then (LLONG_MAX, true)
  else (v, false).

(** A field of the configuration of the node: missing, of another type, a number. *)
Inductive cfg_field := CfgMissing | CfgBad | CfgNumber (n : Z).

(** [Node::getParamUint64]: the environment goes first. *)
Definition getParamUint64 (env : option string) (cfg : cfg_field) (paramDefault : Z) : res Z :=
  match env with
  | Some text =>
      let '(value, failed) := strtoll text in
      if (failed : bool) then Err InvalidStateException else Ok (u64 value)
  | None =>
      match cfg with
      | CfgMissing => Ok paramDefault
      | CfgBad => Err ParsingException
      | CfgNumber n => Ok (u64 n)
      end
  end.

(** [Node::getParamInt64]: the number is read without a sign. *)
Definition getParamInt64 (cfg : cfg_field) (paramDefault : Z) : res Z :=
  match cfg with
  | CfgMissing => Ok (i64 paramDefault)
  | CfgBad => Err ParsingException
  | CfgNumber n => Ok (i64 n)
  end.

(** ** Members of the chain *)
Record NodeInfo := {
  ni_nodeID : Z;
  ni_ipAddress : string;
  ni_port : Z;
  ni_schainID : Z;
  ni_schainIndex : Z
}.

#[export] Instance NodeInfo_eq : EqDecision NodeInfo.
Proof. solve_decision. Defined.

(** An entry of the list of nodes. *)
Record node_entry := {
  ne_nodeID : option Z;
  ne_ip : option string;
  ne_basePort : option Z;
  ne_schainIndex : option Z
}.

Record chain_config := {
  cf_nodeInfo : bool;
  cf_schainName : option string;
  cf_schainID : option Z;
  cf_emptyBlockIntervalMs : option Z;
  cf_emptyBlockIntervalAfterCatchupMs : option Z;
  cf_nodes : option (list node_entry)
}.

(** The chain that was constructed. *)
Record chain_identity := {
  ch_schainID : Z;
  ch_schainName : string;
  ch_schainIndex : Z;
  ch_thisNodeInfo : option NodeInfo
}.

Record node_tables := NodeTables {
  nt_nodeInfosByIndex : gmap Z NodeInfo;
  nt_nodeInfosById : gmap Z NodeInfo;
  nt_emptyBlockIntervalMs : Z;
  nt_emptyBlockIntervalAfterCatchupMs : Z;
  nt_testNodeInfosById : option (gmap Z NodeInfo);
  nt_testNodeInfosByIndex : option (gmap Z NodeInfo);
  nt_schain : option chain_identity
}.

(** The node itself, and the syntax check of IP addresses. *)
Record node_params := {
  np_nodeID : Z;
  np_isSyncOnlyNode : bool;
  np_validIp : string -> bool
}.

Section NodeConfig.
Context (P : node_params).
Implicit Types t : node_tables.

Definition set_intervals (a b : Z) t : node_tables :=
  NodeTables (nt_nodeInfosByIndex t) (nt_nodeInfosById t) a b (nt_testNodeInfosById t) (nt_testNodeInfosByIndex t) (nt_schain t).
Definition set_tests (a b : option (gmap Z NodeInfo)) t : node_tables :=
  NodeTables (nt_nodeInfosByIndex t) (nt_nodeInfosById t) (nt_emptyBlockIntervalMs t) (nt_emptyBlockIntervalAfterCatchupMs t)
    a b (nt_schain t).
Definition set_schain (c : chain_identity) t : node_tables :=
  NodeTables (nt_nodeInfosByIndex t) (nt_nodeInfosById t) (nt_emptyBlockIntervalMs t) (nt_emptyBlockIntervalAfterCatchupMs t)
    (nt_testNodeInfosById t) (nt_testNodeInfosByIndex t) (Some c).

(** The constructor of [NodeInfo] with [Sockets::createSocketAddress]. *)
Definition mkNodeInfo (nodeID : Z) (ip : string) (port schainID schainIndex : Z) : res NodeInfo :=
  rcheck InvalidStateException (0 <? schainIndex) ;;
  rcheck InvalidArgumentException (negb (bool_decide (ip = ""))) ;;
  rcheck InvalidStateException (np_validIp P ip) ;;
  mret {| ni_nodeID := nodeID; ni_ipAddress := ip; ni_port := port; ni_schainID := schainID; ni_schainIndex := schainIndex |}.

(** The getters check again. *)
Definition getSchainIndex (n : NodeInfo) : res Z := rcheck InvalidStateException (0 <? ni_schainIndex n) ;; mret (ni_schainIndex n).
Definition getPort (n : NodeInfo) : res Z := rcheck InvalidStateException (0 <? ni_port n) ;; mret (ni_port n).
Definition getBaseIP (n : NodeInfo) : res string :=
  rcheck InvalidStateException (negb (bool_decide (ni_ipAddress n = ""))) ;; mret (ni_ipAddress n).

(** [Node::setNodeInfo] *)
Definition setNodeInfo (n : NodeInfo) : M node_tables unit :=
  i ← lift_res (getSchainIndex n);
  modify (fun t => NodeTables (<[i := n]> (nt_nodeInfosByIndex t)) (<[ni_nodeID n := n]> (nt_nodeInfosById t))
    (nt_emptyBlockIntervalMs t) (nt_emptyBlockIntervalAfterCatchupMs t) (nt_testNodeInfosById t) (nt_testNodeInfosByIndex t)
    (nt_schain t)).

(** The loop of [Node::initSchain]. *)
Fixpoint addNodeInfos (ns : list NodeInfo) (ipPortSet : gset string) : M node_tables unit :=
  match ns with
  | [] => mret tt
  | n :: ns =>
      setNodeInfo n ;;
      ip ← lift_res (getBaseIP n);
      port ← lift_res (getPort n);
      let ipPortString := ip +:+ ":" +:+ to_string port in
      if bool_decide (ipPortString ∈ ipPortSet) then throw InvalidStateException
      else addNodeInfos ns ({[ipPortString]} ∪ ipPortSet)
  end.

(** [Node::testNodeInfos]: the nodes of one process must agree. *)
Definition sameNode (m : gmap Z NodeInfo) (item : Z * NodeInfo) : bool :=
  match m !! item.1 with
  | None => false
  | Some n => (ni_nodeID n =? ni_nodeID item.2) && (ni_schainIndex n =? ni_schainIndex item.2)
  end.

Definition sameTable (test m : gmap Z NodeInfo) : bool :=
  (zsize test =? zsize m) && forallb (sameNode m) (map_to_list test).

Definition testNodeInfos : M node_tables unit :=
  t ← get;
  (match nt_testNodeInfosById t with
   | None => put (set_tests (Some (nt_nodeInfosById t)) (nt_testNodeInfosByIndex t) t)
   | Some test => CHECK_STATE (sameTable test (nt_nodeInfosById t))
   end) ;;
  t ← get;
  match nt_testNodeInfosByIndex t with
  | None => put (set_tests (nt_testNodeInfosById t) (Some (nt_nodeInfosByIndex t)) t)
  | Some test => CHECK_STATE (sameTable test (nt_nodeInfosByIndex t))
  end.

(** The loop of the constructor of [Schain] over the members; the result
    does not depend on their order. *)
Fixpoint findThisNode (items : list (Z * NodeInfo)) (found : option NodeInfo) : res (option NodeInfo) :=
  match items with
  | [] => Ok found
  | (_, n) :: items =>
      if ni_nodeID n =? np_nodeID P then
        match found with
        | None => findThisNode items (Some n)
        | Some _ => Err InvalidStateException
        end
      else findThisNode items found
  end.

Definition mkSchain (schainIndex schainID : Z) (schainName : string) : M node_tables chain_identity :=
  t ← get;
  (if np_isSyncOnlyNode P then mret tt
   else CHECK_STATE (0 <? schainIndex) ;; CHECK_STATE (0 <? zsize (nt_nodeInfosByIndex t))) ;;
  nested FatalError
    (found ← lift_res (findThisNode (map_to_list (nt_nodeInfosByIndex t)) None);
     (if negb (np_isSyncOnlyNode P) && negb (bool_decide (is_Some found)) then throw EngineInitException else mret tt) ;;
     CHECK_STATE (0 <? zsize (nt_nodeInfosByIndex t)) ;;
     mret {| ch_schainID := schainID; ch_schainName := schainName; ch_schainIndex := schainIndex; ch_thisNodeInfo := found |}).

(** [Node::initSchain] *)
Definition initSchain (schainIndex schainID : Z) (ns : list NodeInfo) (schainName : string) : M node_tables unit :=
  nested_all FatalError
    (addNodeInfos ns ∅ ;;
     testNodeInfos ;;
     chain ← mkSchain schainIndex schainID schainName;
     t ← get;
     CHECK_STATE (bool_decide (nt_schain t = None)) ;;
     modify (set_schain chain)).

(** ** The configuration *)
Definition field {A} (x : option A) : res A := match x with Some a => Ok a | None => Err InvalidStateException end.

(** An interval in milliseconds, a negative number for never. *)
Definition interval (x : option Z) (default_ : Z) : Z :=
  let v := default default_ x in
  if v <? 0 then NEVER_MS else v.

(** The loop over the entries, with the entry of the node itself. *)
Fixpoint parseNodes (entries : list node_entry) (schainID : Z) (localNodeInfo : option NodeInfo) (acc : list NodeInfo) :
    res (option NodeInfo * list NodeInfo) :=
  match entries with
  | [] => mret (localNodeInfo, acc)
  | e :: entries =>
      nodeID ← field (ne_nodeID e);
      ip ← match ne_ip e with Some ip => Ok ip | None => Err JsonError end;
      port ← field (ne_basePort e);
      schainIndex ← field (ne_schainIndex e);
      rni ← mkNodeInfo nodeID ip (u16 port) schainID schainIndex;
      parseNodes entries schainID (if nodeID =? np_nodeID P then Some rni else localNodeInfo) (acc ++ [rni])
  end.

(** [JSONFactory::createAndAddSChainFromJsonObject] *)
Definition createAndAddSChain (c : chain_config) : M node_tables unit :=
  nested_all FatalError
    (CHECK_STATE (cf_nodeInfo c) ;;
     schainName ← lift_res (field (cf_schainName c));
     schainID ← lift_res (field (cf_schainID c));
     modify (set_intervals (interval (cf_emptyBlockIntervalMs c) EMPTY_BLOCK_INTERVAL_MS)
       (interval (cf_emptyBlockIntervalAfterCatchupMs c) EMPTY_BLOCK_INTERVAL_AFTER_CATCHUP_MS)) ;;
     entries ← lift_res (field (cf_nodes c));
     parsed ← lift_res (parseNodes entries schainID None []);
     let '(localNodeInfo, remoteNodeInfos) := parsed in
     schainIndex ← (if np_isSyncOnlyNode P then mret 0
                    else match localNodeInfo with
                         | None => throw InvalidStateException
                         | Some n => lift_res (getSchainIndex n)
                         end);
     initSchain schainIndex schainID remoteNodeInfos schainName).

Definition newTables : node_tables := NodeTables ∅ ∅ 0 0 None None None.

(** [Schain::getNodeCount] *)
Definition getNodeCount t : res Z :=
  rcheck InvalidStateException (0 <? zsize (nt_nodeInfosByIndex t)) ;; mret (zsize (nt_nodeInfosByIndex t)).
End NodeConfig.

(** * Facts *)
Section Facts.
Context (P : node_params).
Implicit Types (t : node_tables) (ns : list NodeInfo).

Definition endpoint (n : NodeInfo) : string := ni_ipAddress n +:+ ":" +:+ to_string (ni_port n).

(** A member that the getters accept. *)
Definition member_ok (n : NodeInfo) : Prop :=
  0 < ni_schainIndex n /\ 0 < ni_port n /\ ni_ipAddress n <> "".

Definition with_members t ns : node_tables :=
  NodeTables (foldl (fun m n => <[ni_schainIndex n := n]> m) (nt_nodeInfosByIndex t) ns)
    (foldl (fun m n => <[ni_nodeID n := n]> m) (nt_nodeInfosById t) ns)
    (nt_emptyBlockIntervalMs t) (nt_emptyBlockIntervalAfterCatchupMs t) (nt_testNodeInfosById t) (nt_testNodeInfosByIndex t)
    (nt_schain t).

(** The loop accepts exactly the members with distinct addresses. *)
Lemma addNodeInfos_spec ns seen t :
  (Forall member_ok ns /\ NoDup (endpoint <$> ns) /\ (forall n, n ∈ ns -> endpoint n ∉ seen) /\
   addNodeInfos ns seen t = (Ok tt, with_members t ns)) \/
  (~ (Forall member_ok ns /\ NoDup (endpoint <$> ns) /\ forall n, n ∈ ns -> endpoint n ∉ seen) /\
   (addNodeInfos ns seen t).1 = Err InvalidStateException).
Proof.
  revert seen t. induction ns as [|n ns IH]; intros seen t; cbn [addNodeInfos].
  { left. split_and!; [constructor|constructor|set_solver|by destruct t]. }
  unfold setNodeInfo, getSchainIndex, getBaseIP, getPort, rcheck, mbind, M_bind, lift_res, modify, mret, M_ret.
  destruct (0 <? ni_schainIndex n) eqn:Hi; cbn.
  2: { right. split; [|done]. intros (Hm & _). apply Forall_cons in Hm as [[? _] _]. lia. }
  destruct (bool_decide (ni_ipAddress n = "")) eqn:Hip; cbn.
  { right. split; [|done]. intros (Hm & _). apply Forall_cons in Hm as [(_ & _ & Hx) _]. by apply bool_decide_eq_true in Hip. }
  destruct (0 <? ni_port n) eqn:Hp; cbn.
  2: { right. split; [|done]. intros (Hm & _). apply Forall_cons in Hm as [(_ & ? & _) _]. lia. }
  change (ni_ipAddress n +:+ ":" +:+ to_string (ni_port n)) with (endpoint n).
  apply bool_decide_eq_false in Hip. assert (member_ok n) as Hn by (split_and!; [lia|lia|done]).
  destruct (bool_decide (endpoint n ∈ seen)) eqn:Hs; cbn.
  { right. split; [|done]. apply bool_decide_eq_true in Hs. intros (_ & _ & Hx). apply (Hx n); [set_solver|done]. }
  apply bool_decide_eq_false in Hs.
  set (t1 := NodeTables _ _ _ _ _ _ _).
  destruct (IH ({[endpoint n]} ∪ seen) t1) as [(Hm & Hd & Hf & Hr)|[Hno Hr]].
  - left. split_and!; [by constructor| | |rewrite Hr; by destruct t].
    + cbn. apply NoDup_cons. split; [|done]. rewrite list_elem_of_fmap. intros (n' & He & Hn'). specialize (Hf n' Hn'). set_solver.
    + intros n' Hn'. apply elem_of_cons in Hn' as [-> |Hn']; [done|]. specialize (Hf n' Hn'). set_solver.
  - right. split; [|done]. intros (Hm & Hd & Hf). apply Hno. apply Forall_cons in Hm as [_ Hm]. cbn in Hd. apply NoDup_cons in Hd as [Hx Hd].
    split; [done|]. split; [done|]. intros n' Hn'. assert (endpoint n <> endpoint n') by (intros He; apply Hx; rewrite He; by apply list_elem_of_fmap_2).
    specialize (Hf n' ltac:(set_solver)). set_solver.
Qed.

(** *** The node's own entry *)
Definition own (n : NodeInfo) : bool := ni_nodeID n =? np_nodeID P.

Definition owners (m : gmap Z NodeInfo) : list NodeInfo := filter (fun n => own n = true) (map_to_list m).*2.

Lemma findThisNode_spec items found :
  findThisNode P items found =
    match default [] (option_map (fun n => [n]) found) ++ filter (fun n => own n = true) items.*2 with
    | [] => Ok None
    | [n] => Ok (Some n)
    | _ => Err InvalidStateException
    end.
Proof.
  revert found. induction items as [|[i n] items IH]; intros found; cbn [findThisNode].
  { by destruct found. }
  rewrite fmap_cons, filter_cons. cbn [snd]. destruct (ni_nodeID n =? np_nodeID P) eqn:Hn.
  - rewrite decide_True by (unfold own; done). destruct found as [n'|]; cbn; [done|]. by rewrite IH.
  - rewrite decide_False by (unfold own; congruence). by rewrite IH.
Qed.

(** *** Entries *)
Definition entry_info (schainID : Z) (e : node_entry) : option NodeInfo :=
  match ne_nodeID e, ne_ip e, ne_basePort e, ne_schainIndex e with
  | Some nodeID, Some ip, Some port, Some schainIndex =>
      if (0 <? schainIndex) && negb (bool_decide (ip = "")) && np_validIp P ip then
        Some {| ni_nodeID := nodeID; ni_ipAddress := ip; ni_port := u16 port; ni_schainID := schainID;
                ni_schainIndex := schainIndex |}
      else None
  | _, _, _, _ => None
  end.

Definition last_own (ns : list NodeInfo) (found : option NodeInfo) : option NodeInfo :=
  foldl (fun found n => if own n then Some n else found) found ns.

(** An exception that a [catch ( ... )] turns into a fatal error. *)
Definition plain {A} (r : res A) : Prop :=
  match r with Ok _ => False | Err OutOfFuel => False | Err UndefinedBehavior => False | Err _ => True end.

Lemma parseNodes_spec entries schainID found acc :
  match mapM (entry_info schainID) entries with
  | Some ns => parseNodes P entries schainID found acc = Ok (last_own ns found, acc ++ ns)
  | None => plain (parseNodes P entries schainID found acc)
  end.
Proof.
  revert found acc. induction entries as [|e entries IH]; intros found acc; cbn [parseNodes].
  { cbn. by rewrite app_nil_r. }
  cbn [mapM]. set (rest := mapM (entry_info schainID) entries) in *. clearbody rest.
  unfold entry_info, mkNodeInfo, field, rcheck.
  destruct (ne_nodeID e) as [nodeID|]; cbn; [|done]. destruct (ne_ip e) as [ip|]; cbn; [|done].
  destruct (ne_basePort e) as [port|]; cbn; [|done]. destruct (ne_schainIndex e) as [i|]; cbn; [|done].
  destruct (0 <? i); cbn; [|done]. destruct (negb (bool_decide (ip = ""))); cbn; [|done]. destruct (np_validIp P ip); cbn; [|done].
  set (n := {| ni_nodeID := nodeID; ni_ipAddress := ip; ni_port := u16 port; ni_schainID := schainID; ni_schainIndex := i |}).
  specialize (IH (if nodeID =? np_nodeID P then Some n else found) (acc ++ [n])).
  destruct rest as [ns|]; cbn; [|done]. rewrite IH. by rewrite <- (assoc_L (++)).
Qed.

Lemma last_own_spec ns found :
  match last_own ns found with
  | Some n => n ∈ ns /\ own n = true \/ found = Some n
  | None => found = None /\ forall n, n ∈ ns -> own n = false
  end.
Proof.
  revert found. induction ns as [|n ns IH]; intros found; cbn.
  { destruct found; [by right|]. split; [done|set_solver]. }
  specialize (IH (if own n then Some n else found)). change (foldl _ ?x ns) with (last_own ns x).
  destruct (own n) eqn:Hn; destruct (last_own ns _) as [n'|].
  - destruct IH as [[? ?]|[= -> ] ]; left; set_solver.
  - by destruct IH.
  - destruct IH as [[? ?]| ->]; [left; set_solver|by right].
  - destruct IH as [-> IH]. split; [done|]. intros n' Hn'. apply elem_of_cons in Hn' as [-> |?]; auto.
Qed.

(** *** The chain *)
Definition table (ns : list NodeInfo) : gmap Z NodeInfo := foldl (fun m n => <[ni_schainIndex n := n]> m) ∅ ns.
Definition table_by_id (ns : list NodeInfo) : gmap Z NodeInfo := foldl (fun m n => <[ni_nodeID n := n]> m) ∅ ns.

(** What the node becomes from its entries in the table; [None] when it is refused. *)
Definition place (ns : list NodeInfo) : option (option NodeInfo) :=
  match owners (table ns) with
  | [] => if np_isSyncOnlyNode P then Some None else None
  | [n] => Some (Some n)
  | _ => None
  end.

(** The members that make a chain for this node. *)
Record acceptable (ns : list NodeInfo) : Prop := {
  ac_members : Forall member_ok ns;
  ac_endpoints : NoDup (endpoint <$> ns);
  ac_some : ns <> [];
  ac_place : is_Some (place ns)
}.

Definition identity (schainIndex schainID : Z) (schainName : string) (found : option NodeInfo) : chain_identity :=
  {| ch_schainID := schainID; ch_schainName := schainName; ch_schainIndex := schainIndex; ch_thisNodeInfo := found |}.

Definition started (a b : Z) (ns : list NodeInfo) (ch : chain_identity) : node_tables :=
  NodeTables (table ns) (table_by_id ns) a b (Some (table_by_id ns)) (Some (table ns)) (Some ch).

Lemma table_empty ns : table ns = ∅ -> ns = [].
Proof.
  induction ns as [|n ns _] using rev_ind; [done|]. unfold table. rewrite foldl_snoc. intros He. by apply insert_non_empty in He.
Qed.

Lemma table_size ns : 0 < zsize (table ns) <-> ns <> [].
Proof.
  split; [by intros Hs ->|]. intros Hn. unfold zsize. assert (size (table ns) <> 0%nat); [|lia].
  rewrite map_size_non_empty_iff. intros He. by apply Hn, table_empty.
Qed.

Lemma owners_size m n : n ∈ owners m -> 0 < zsize m.
Proof.
  unfold owners. intros Hn. apply list_elem_of_filter in Hn as [_ Hn]. unfold zsize.
  assert (size m <> 0%nat); [|lia]. rewrite map_size_non_empty_iff. intros ->. by rewrite map_to_list_empty in Hn; apply elem_of_nil in Hn.
Qed.

Lemma mkSchain_run schainIndex schainID schainName t :
  0 < schainIndex -> np_isSyncOnlyNode P = false ->
  let r := mkSchain P schainIndex schainID schainName t in
  match owners (nt_nodeInfosByIndex t) with
  | [n] => r = (Ok (identity schainIndex schainID schainName (Some n)), t)
  | _ => plain r.1
  end.
Proof.
  intros Hi Hs. cbv zeta. unfold mkSchain. set (m := nt_nodeInfosByIndex t). rewrite Hs. replace (0 <? schainIndex) with true by lia.
  pose proof (owners_size m) as Hz. pose proof (findThisNode_spec (map_to_list m) None) as Hf. fold (owners m) in Hf.
  cbn [option_map default app] in Hf. unfold when, check, mbind, M_bind, get, nested, lift_res, mret, M_ret, throw. cbn. fold m. rewrite Hf.
  destruct (owners m) as [|n [|n' l]]; cbn.
  - by destruct (0 <? zsize m).
  - specialize (Hz n ltac:(set_solver)). replace (0 <? zsize m) with true by lia. done.
  - by destruct (0 <? zsize m).
Qed.

Lemma mkSchain_sync_run schainIndex schainID schainName t :
  np_isSyncOnlyNode P = true ->
  let r := mkSchain P schainIndex schainID schainName t in
  if 0 <? zsize (nt_nodeInfosByIndex t) then
    match owners (nt_nodeInfosByIndex t) with
    | [] => r = (Ok (identity schainIndex schainID schainName None), t)
    | [n] => r = (Ok (identity schainIndex schainID schainName (Some n)), t)
    | _ => plain r.1
    end
  else plain r.1.
Proof.
  intros Hs. cbv zeta. unfold mkSchain. set (m := nt_nodeInfosByIndex t) in *. rewrite Hs.
  pose proof (findThisNode_spec (map_to_list m) None) as Hf. fold (owners m) in Hf.
  cbn [option_map default app] in Hf. unfold when, check, mbind, M_bind, get, nested, lift_res, mret, M_ret, throw. cbn. fold m. rewrite Hf.
  destruct (0 <? zsize m), (owners m) as [|n [|n' l]]; by cbn.
Qed.

Lemma mkSchain_place schainIndex schainID schainName t ns :
  0 < schainIndex \/ np_isSyncOnlyNode P = true -> nt_nodeInfosByIndex t = table ns ->
  let r := mkSchain P schainIndex schainID schainName t in
  match place ns with
  | Some found => if decide (ns = []) then plain r.1 else r = (Ok (identity schainIndex schainID schainName found), t)
  | None => plain r.1
  end.
Proof.
  intros Hi Ht. unfold place. destruct (np_isSyncOnlyNode P) eqn:Hs.
  - pose proof (mkSchain_sync_run schainIndex schainID schainName t Hs) as Hr. rewrite Ht in Hr. pose proof (table_size ns) as Hz.
    destruct (Z.ltb_spec 0 (zsize (table ns))) as [Hlt|Hge]; cbv zeta in *.
    + destruct (owners (table ns)) as [|n [|n' l]]; try done; (rewrite decide_False; [done|]); by apply Hz.
    + destruct (owners (table ns)) as [|n [|n' l]]; try done; (rewrite decide_True; [done|]); destruct (decide (ns = [])) as [|Hn]; try done;
        apply Hz in Hn; lia.
  - destruct Hi as [Hi|]; [|done]. pose proof (mkSchain_run schainIndex schainID schainName t Hi Hs) as Hr. rewrite Ht in Hr. cbv zeta in *.
    pose proof (owners_size (table ns)) as Hz. destruct (owners (table ns)) as [|n [|n' l]]; try done.
    rewrite decide_False; [done|]. apply table_size, (Hz n). set_solver.
Qed.

Lemma nested_all_plain {S A} (r : res A) (s : S) : plain r -> rnested_all FatalError r = Err FatalError.
Proof. by destruct r as [?|[]]. Qed.

Lemma initSchain_run schainIndex schainID schainName ns a b :
  0 < schainIndex \/ np_isSyncOnlyNode P = true ->
  let r := initSchain P schainIndex schainID ns schainName (set_intervals a b newTables) in
  (exists found, acceptable ns /\ place ns = Some found /\
     r = (Ok tt, started a b ns (identity schainIndex schainID schainName found))) \/
  (~ acceptable ns /\ r.1 = Err FatalError).
Proof.
  intros Hi. cbv zeta. unfold initSchain, nested_all. rewrite mbind_run.
  destruct (addNodeInfos_spec ns ∅ (set_intervals a b newTables)) as [(Hm & Hd & _ & Hr)|[Hno Hr]].
  2: { right. split; [intros [H1 H2 H3 H4]; apply Hno; split_and!; [done|done|set_solver]|].
    destruct (addNodeInfos ns ∅ _) as [[?|e] ?]; cbn in *; [done|]. by injection Hr as ->. }
  rewrite Hr. cbv beta iota. rewrite mbind_run. change (testNodeInfos _) with
    (Ok (A := unit) tt, NodeTables (table ns) (table_by_id ns) a b (Some (table_by_id ns)) (Some (table ns)) None).
  cbv beta iota. rewrite mbind_run. set (t := NodeTables _ _ _ _ _ _ _).
  pose proof (mkSchain_place schainIndex schainID schainName t ns Hi eq_refl) as Hp. cbv zeta in Hp.
  destruct (place ns) as [found|] eqn:Hf; [destruct (decide (ns = [])) as [He|He]|].
  - right. split; [by intros [_ _ ? _]|]. destruct (mkSchain P schainIndex schainID schainName t) as [[?|e] ?]; [done|].
    by apply (nested_all_plain (S := node_tables) (Err (A := unit) e) t).
  - left. exists found. split; [split; [done|done|done|by rewrite Hf]|]. split; [done|]. by rewrite Hp.
  - right. split; [intros [_ _ _ Hx]; rewrite Hf in Hx; by destruct Hx|].
    destruct (mkSchain P schainIndex schainID schainName t) as [[?|e] ?]; [done|].
    by apply (nested_all_plain (S := node_tables) (Err (A := unit) e) t).
Qed.

(** *** The tables *)
Lemma table_lookup ns i n : table ns !! i = Some n -> n ∈ ns /\ ni_schainIndex n = i.
Proof.
  induction ns as [|n' ns IH] using rev_ind; [done|]. unfold table. rewrite foldl_snoc. intros Hl.
  apply lookup_insert_Some in Hl as [[<- <-]|[_ Hl]]; [set_solver|]. destruct (IH Hl). set_solver.
Qed.

Lemma table_lookup_by {F : NodeInfo -> Z} ns n :
  NoDup (F <$> ns) -> n ∈ ns -> foldl (fun (m : gmap Z NodeInfo) n => <[F n := n]> m) ∅ ns !! F n = Some n.
Proof.
  induction ns as [|n' ns IH] using rev_ind; [set_solver|]. rewrite foldl_snoc, fmap_app, NoDup_app.
  intros (Hd & Hx & _) Hn. apply elem_of_app in Hn as [Hn|Hn].
  - rewrite lookup_insert_ne; [by apply IH|]. intros He. apply (Hx (F n)); [by apply list_elem_of_fmap_2|cbn; set_solver].
  - apply list_elem_of_singleton in Hn as ->. by rewrite lookup_insert_eq.
Qed.

Lemma table_count ns : NoDup (ni_schainIndex <$> ns) -> zsize (table ns) = zlen ns.
Proof.
  unfold zsize, zlen, table. intros Hd. f_equal. revert Hd. induction ns as [|n ns IH] using rev_ind; [done|].
  rewrite foldl_snoc, fmap_app, NoDup_app, length_app. intros (Hd & Hx & _). cbn.
  rewrite map_size_insert_None; [rewrite IH by done; lia|].
  destruct (foldl _ ∅ ns !! ni_schainIndex n) as [n'|] eqn:Hl; [|done].
  apply table_lookup in Hl as [Hn He]. exfalso. apply (Hx (ni_schainIndex n)); [rewrite <- He; by apply list_elem_of_fmap_2|cbn; set_solver].
Qed.

Lemma owners_elem ns n : n ∈ owners (table ns) <-> own n = true /\ table ns !! ni_schainIndex n = Some n.
Proof.
  unfold owners. rewrite list_elem_of_filter, list_elem_of_fmap. split.
  - intros (Ho & [i n'] & -> & Hi). apply elem_of_map_to_list in Hi. cbn in *. by destruct (table_lookup ns i n' Hi) as [_ ->].
  - intros [Ho Hl]. split; [done|]. exists (ni_schainIndex n, n). split; [done|]. by apply elem_of_map_to_list.
Qed.

(** One entry of the node itself, and distinct indices: its place is this entry. *)
Lemma place_own ns n :
  NoDup (ni_schainIndex <$> ns) -> n ∈ ns -> own n = true -> (forall n', n' ∈ ns -> own n' = true -> n' = n) ->
  place ns = Some (Some n) /\ last_own ns None = Some n.
Proof.
  intros Hd Hn Ho Hu. split.
  - assert (n ∈ owners (table ns)) as Hin by (apply owners_elem; split; [done|by apply (table_lookup_by (F := ni_schainIndex))]).
    assert (forall n', n' ∈ owners (table ns) -> n' = n) as Hall.
    { intros n' Hn'. apply owners_elem in Hn' as [Ho' Hl]. apply table_lookup in Hl as [Hl _]. by apply Hu. }
    assert (NoDup (owners (table ns))) as Hnd.
    { unfold owners. apply NoDup_filter. apply NoDup_fmap_2_strong; [|apply NoDup_map_to_list].
      intros [i x] [j y] Hi Hj Heq. apply elem_of_map_to_list in Hi, Hj. apply table_lookup in Hi as [_ <-], Hj as [_ <-]. cbn in Heq. by subst. }
    unfold place. destruct (owners (table ns)) as [|x [|y l]].
    + by apply elem_of_nil in Hin.
    + by rewrite (Hall x) by set_solver.
    + exfalso. rewrite (Hall x) in Hnd by set_solver. rewrite (Hall y) in Hnd by set_solver.
      apply NoDup_cons in Hnd as [Hnd _]. set_solver.
  - pose proof (last_own_spec ns None) as Hl. destruct (last_own ns None) as [n'|].
    + destruct Hl as [[Hn' Ho']|]; [|done]. f_equal. by apply Hu.
    + destruct Hl as [_ Hl]. rewrite Hl in Ho by done. done.
Qed.

(** *** The whole configuration *)
Definition own_index (ns : list NodeInfo) : Z :=
  if np_isSyncOnlyNode P then 0 else default 0 (ni_schainIndex <$> last_own ns None).

Lemma entry_info_ok schainID entries ns : mapM (entry_info schainID) entries = Some ns -> Forall (fun n => 0 < ni_schainIndex n) ns.
Proof.
  intros Hm. apply mapM_Some in Hm. induction Hm as [|e n entries ns He _ IH]; constructor; [|done].
  unfold entry_info in He. repeat case_match; simplify_eq. cbn. destruct (0 <? _) eqn:Hi; [lia|done].
Qed.

Lemma createAndAddSChain_run c name schainID entries ns :
  cf_nodeInfo c = true -> cf_schainName c = Some name -> cf_schainID c = Some schainID -> cf_nodes c = Some entries ->
  mapM (entry_info schainID) entries = Some ns ->
  let r := createAndAddSChain P c newTables in
  (exists found, acceptable ns /\ place ns = Some found /\
     r = (Ok tt, started (interval (cf_emptyBlockIntervalMs c) EMPTY_BLOCK_INTERVAL_MS)
            (interval (cf_emptyBlockIntervalAfterCatchupMs c) EMPTY_BLOCK_INTERVAL_AFTER_CATCHUP_MS) ns
            (identity (own_index ns) schainID name found))) \/
  (~ acceptable ns /\ r.1 = Err FatalError).
Proof.
  intros H1 H2 H3 H4 H5. cbv zeta. unfold createAndAddSChain, nested_all. rewrite H1, H2, H3, H4.
  pose proof (parseNodes_spec entries schainID None []) as Hp. rewrite H5 in Hp. cbn [app] in Hp.
  pose proof (entry_info_ok _ _ _ H5) as Hpos. pose proof (last_own_spec ns None) as Hl.
  cbv [check lift_res modify mret M_ret mbind M_bind throw field get put]. rewrite Hp.
  set (a := interval (cf_emptyBlockIntervalMs c) _). set (b := interval (cf_emptyBlockIntervalAfterCatchupMs c) _).
  unfold own_index. destruct (np_isSyncOnlyNode P) eqn:Hs.
  - destruct (initSchain_run 0 schainID name ns a b (or_intror Hs)) as [(found & Ha & Hf & Hr)|[Hno Hr]].
    + left. exists found. by rewrite Hr.
    + right. split; [done|]. destruct (initSchain P 0 schainID ns name _) as [[?|e] ?]; [done|]. cbn in *. by injection Hr as ->.
  - destruct (last_own ns None) as [n|] eqn:Hlast.
    + destruct Hl as [[Hn _]|]; [|done]. rewrite Forall_forall in Hpos. specialize (Hpos n Hn).
      unfold getSchainIndex, rcheck. replace (0 <? ni_schainIndex n) with true by lia. cbn.
      destruct (initSchain_run (ni_schainIndex n) schainID name ns a b (or_introl Hpos)) as [(found & Ha & Hf & Hr)|[Hno Hr]].
      * left. exists found. by rewrite Hr.
      * right. split; [done|]. destruct (initSchain P _ schainID ns name _) as [[?|e] ?]; [done|]. cbn in *. by injection Hr as ->.
    + destruct Hl as [_ Hl]. right. split; [|done]. intros [_ _ _ [found Hf]]. unfold place in Hf. rewrite Hs in Hf.
      destruct (owners (table ns)) as [|n l] eqn:Ho; [done|]. assert (n ∈ owners (table ns)) as Hn by (rewrite Ho; set_solver).
      apply owners_elem in Hn as [Hown Hn]. apply table_lookup in Hn as [Hn _]. rewrite Hl in Hown by done. done.
Qed.

(** ** Theorems *)

(** C28: a sound configuration starts the node.  When the entries of the
    configuration are complete, with distinct addresses, distinct indices, distinct
    node ids and one of them for the node itself, the chain is constructed; it
    counts every entry, every member is found under its index and under its id,
    and the node has the index that its own entry gives it. *)
Theorem sound_config_starts c name schainID entries ns n :
  cf_nodeInfo c = true -> cf_schainName c = Some name -> cf_schainID c = Some schainID -> cf_nodes c = Some entries ->
  mapM (entry_info schainID) entries = Some ns -> Forall member_ok ns ->
  NoDup (endpoint <$> ns) -> NoDup (ni_schainIndex <$> ns) -> NoDup (ni_nodeID <$> ns) ->
  np_isSyncOnlyNode P = false -> n ∈ ns -> ni_nodeID n = np_nodeID P ->
  exists t, createAndAddSChain P c newTables = (Ok tt, t) /\
    nt_schain t = Some (identity (ni_schainIndex n) schainID name (Some n)) /\
    getNodeCount t = Ok (zlen ns) /\
    forall n', n' ∈ ns ->
      nt_nodeInfosByIndex t !! ni_schainIndex n' = Some n' /\ nt_nodeInfosById t !! ni_nodeID n' = Some n'.
Proof.
  intros H1 H2 H3 H4 H5 Hm He Hi Hd Hs Hn Ho.
  assert (forall n', n' ∈ ns -> own n' = true -> n' = n) as Hu.
  { intros n' Hn' Ho'. unfold own in Ho'. 
    pose proof (table_lookup_by (F := ni_nodeID) ns n' Hd Hn') as E1. pose proof (table_lookup_by (F := ni_nodeID) ns n Hd Hn) as E2.
    assert (ni_nodeID n' = ni_nodeID n) as E by lia. rewrite E in E1. congruence. }
  assert (own n = true) as Hown by (unfold own; lia). destruct (place_own ns n Hi Hn Hown Hu) as [Hp Hl].
  assert (ns <> []) as Hne by (intros ->; set_solver).
  destruct (createAndAddSChain_run c name schainID entries ns H1 H2 H3 H4 H5) as [(found & Ha & Hf & Hr)|[Hno _]].
  2: { exfalso. apply Hno. split; [done|done|done|]. rewrite Hp. by eexists. }
  eexists. split; [exact Hr|]. rewrite Hp in Hf. injection Hf as <-. unfold own_index. rewrite Hs, Hl. split; [done|]. split.
  - unfold getNodeCount, rcheck. cbn. rewrite table_count by done. apply table_size in Hne. rewrite table_count in Hne by done.
    by replace (0 <? zlen ns) with true by lia.
  - intros n' Hn'. split; [by apply (table_lookup_by (F := ni_schainIndex))|by apply (table_lookup_by (F := ni_nodeID))].
Qed.

(** What a started node can rely on.  A configuration that is accepted is
    complete, every member has an index, an address and a port of its own, each
    entry of the table is a member under its index, and a node that takes part in
    the consensus is the only entry of the table with its id; every other
    configuration of complete entries ends in a fatal error. *)
Theorem accepted_config_sound c name schainID entries ns :
  cf_nodeInfo c = true -> cf_schainName c = Some name -> cf_schainID c = Some schainID -> cf_nodes c = Some entries ->
  mapM (entry_info schainID) entries = Some ns ->
  let r := createAndAddSChain P c newTables in
  (r.1 = Ok tt \/ r.1 = Err FatalError) /\
  (r.1 = Ok tt ->
    Forall member_ok ns /\ NoDup (endpoint <$> ns) /\
    (forall i n, nt_nodeInfosByIndex r.2 !! i = Some n -> n ∈ ns /\ ni_schainIndex n = i) /\
    (np_isSyncOnlyNode P = false ->
      exists n ch, nt_schain r.2 = Some ch /\ ch_thisNodeInfo ch = Some n /\ ni_nodeID n = np_nodeID P /\
        forall i n', nt_nodeInfosByIndex r.2 !! i = Some n' -> ni_nodeID n' = np_nodeID P -> n' = n)).
Proof.
  intros H1 H2 H3 H4 H5. cbv zeta.
  destruct (createAndAddSChain_run c name schainID entries ns H1 H2 H3 H4 H5) as [(found & [Hm He Hne Hpl] & Hf & Hr)|[_ Hr]].
  2: { rewrite Hr. split; [by right|done]. }
  rewrite Hr. cbn. split; [by left|]. intros _. split; [done|]. split; [done|]. split; [apply table_lookup|]. intros Hs.
  unfold place in Hf. rewrite Hs in Hf. destruct (owners (table ns)) as [|n [|n' l]] eqn:Ho; simplify_eq.
  assert (n ∈ owners (table ns)) as Hn by (rewrite Ho; set_solver). apply owners_elem in Hn as [Hown Hn].
  exists n, (identity (own_index ns) schainID name (Some n)). split; [done|]. split; [done|]. split; [unfold own in Hown; lia|].
  intros i n' Hi Hid. destruct (table_lookup ns i n' Hi) as [_ <-].
  assert (n' ∈ owners (table ns)) as Hn' by (apply owners_elem; split; [unfold own; lia|done]). rewrite Ho in Hn'. set_solver.
Qed.
End Facts.

(** ** Witnesses and examples *)
Definition demo_node : node_params := {| np_nodeID := 12; np_isSyncOnlyNode := false; np_validIp := fun _ => true |}.

Definition demo_entry (id port index : Z) : node_entry :=
  {| ne_nodeID := Some id; ne_ip := Some "127.0.0.1"; ne_basePort := Some port; ne_schainIndex := Some index |}.

Definition demo_chain (entries : list node_entry) : chain_config :=
  {| cf_nodeInfo := true; cf_schainName := Some "demo"; cf_schainID := Some 7; cf_emptyBlockIntervalMs := Some (-1);
     cf_emptyBlockIntervalAfterCatchupMs := None; cf_nodes := Some entries |}.

Definition demo_entries : list node_entry := [demo_entry 11 1231 1; demo_entry 12 1331 2; demo_entry 13 1431 3; demo_entry 14 1531 4].

Definition demo_member (id port index : Z) : NodeInfo :=
  {| ni_nodeID := id; ni_ipAddress := "127.0.0.1"; ni_port := port; ni_schainID := 7; ni_schainIndex := index |}.

Definition demo_members : list NodeInfo :=
  [demo_member 11 1231 1; demo_member 12 1331 2; demo_member 13 1431 3; demo_member 14 1531 4].

Lemma sound_config_starts_witness :
  exists t, createAndAddSChain demo_node (demo_chain demo_entries) newTables = (Ok tt, t) /\
    nt_schain t = Some (identity 2 7 "demo" (Some (demo_member 12 1331 2))) /\
    getNodeCount t = Ok 4 /\
    forall n', n' ∈ demo_members ->
      nt_nodeInfosByIndex t !! ni_schainIndex n' = Some n' /\ nt_nodeInfosById t !! ni_nodeID n' = Some n'.
Proof.
  apply (sound_config_starts demo_node (demo_chain demo_entries) "demo" 7 demo_entries demo_members (demo_member 12 1331 2)).
  - done.
  - done.
  - done.
  - done.
  - done.
  - repeat constructor; done.
  - apply (bool_decide_unpack _). by vm_compute.
  - apply (bool_decide_unpack _). by vm_compute.
  - apply (bool_decide_unpack _). by vm_compute.
  - done.
  - apply elem_of_cons. right. apply elem_of_cons. by left.
  - done.
Defined.

Lemma accepted_config_sound_witness :
  (createAndAddSChain demo_node (demo_chain demo_entries) newTables).1 = Ok tt /\
  (forall i n, nt_nodeInfosByIndex (createAndAddSChain demo_node (demo_chain demo_entries) newTables).2 !! i = Some n ->
    n ∈ demo_members /\ ni_schainIndex n = i).
Proof.
  assert ((createAndAddSChain demo_node (demo_chain demo_entries) newTables).1 = Ok tt) as Hr by (by vm_compute).
  split; [exact Hr|].
  apply (accepted_config_sound demo_node (demo_chain demo_entries) "demo" 7 demo_entries demo_members); done.
Defined.

(** Only addresses are compared: a second entry with the same index takes the
    place of the first one, and the chain has one member fewer. *)
Example duplicate_index_accepted :
  let r := createAndAddSChain demo_node
    (demo_chain [demo_entry 11 1231 1; demo_entry 12 1331 2; demo_entry 13 1431 2; demo_entry 14 1531 3; demo_entry 12 1631 4]) newTables in
  r.1 = Ok tt /\ getNodeCount r.2 = Ok 4 /\ nt_nodeInfosById r.2 !! 12 <> None.
Proof. by vm_compute. Qed.

(** The index that the node works with and its entry in the table differ. *)
Example own_index_differs :
  let r := createAndAddSChain demo_node (demo_chain [demo_entry 12 1231 1; demo_entry 12 1331 2; demo_entry 13 1431 2]) newTables in
  r.1 = Ok tt /\ (ch_schainIndex <$> nt_schain r.2) = Some 2 /\
  (ni_schainIndex <$> (nt_schain r.2 ≫= ch_thisNodeInfo)) = Some 1.
Proof. by vm_compute. Qed.

(** A port that does not fit is cut off. *)
Example port_cut_off :
  let r := createAndAddSChain demo_node (demo_chain [demo_entry 12 (65536 + 1231) 1]) newTables in
  r.1 = Ok tt /\ (ni_port <$> nt_nodeInfosByIndex r.2 !! 1) = Some 1231.
Proof. by vm_compute. Qed.

(** Text in the environment that is no number is read as zero or cut off, and a
    negative number wraps around; only numbers out of range are refused. *)
Example env_not_checked :
  getParamUint64 (Some "fast") (CfgNumber 5) 7 = Ok 0 /\ getParamUint64 (Some " 30s") CfgMissing 7 = Ok 30 /\
  getParamUint64 (Some "-1") CfgMissing 7 = Ok 18446744073709551615 /\
  getParamUint64 (Some "99999999999999999999") CfgMissing 7 = Err InvalidStateException /\
  getParamUint64 None CfgMissing 7 = Ok 7.
Proof. by vm_compute. Qed.
