(* ===== verification/HealthCheck.v ===== *)
(** * The check before the start

    Model of [Schain::healthCheck] ([src/chains/Schain.cpp]) and of
    [Node::startClients]: a node that starts waits until it can reach enough of
    the members, and leaves the process otherwise, so that it is started again.
    What the clock, the exit flag and the connections show is a function of the
    number of readings made so far. *)

From stdpp Require Import base tactics gmap list sets sorting.
From Stdlib Require Import ZArith Lia.
From S2P Require Import Prelude Blocks.

Definition HEALTHCHECK_ON_START_RETRY_TIME_SEC : Z := 1500.
Definition HEALTHCHECK_ON_START_TIME_BETWEEN_WARNINGS_SEC : Z := 5 * 60.
Definition HEALTH_CHECK_TIME_TO_WAIT_FOR_ALL_NODES_SEC : Z := 5.

Record health_world := {
  hw_clockSec : nat -> Z;
  hw_exit : nat -> bool;
  hw_connect : nat -> Z -> bool
}.

(** The written states of the health check file, and the warnings. *)
Inductive health_event := HealthFile (status : Z) | HealthWarning | BarrierOpened.

Record health_state := HealthState { hs_step : nat; hs_out : list health_event }.

(** How the check ends: the node may go on, or [exit( 110 )]. *)
Inductive health_outcome := Healthy | ProcessExit (code : Z).

Section HealthCheck.
Context (W : health_world) (schainIndex nodeCount : Z).
Local Abbreviation state := health_state.

Definition read {A} (f : nat -> A) : M state A :=
  s ← get;
  put (HealthState (S (hs_step s)) (hs_out s)) ;;
  mret (f (hs_step s)).

(** [Time::getCurrentTimeSec] *)
Definition currentSec : M state Z :=
  t ← read (hw_clockSec W);
  CHECK_STATE (t <? MODERN_TIME + 1000000000) ;;
  mret t.

Definition health_emit (e : health_event) : M state unit :=
  modify (fun s => HealthState (hs_step s) (hs_out s ++ [e])).

Definition setHealthCheckFile (status : Z) : M state unit := health_emit (HealthFile status).

(** [int] from an unsigned 64-bit number. *)
Definition to_int (z : Z) : Z := let u := u32 z in if u <? 2 ^ 31 then u else u - 2 ^ 32.

(** The loop over the members. *)
Fixpoint tryMembers (indices : list Z) (connections : gset Z) : M state (gset Z) :=
  match indices with
  | [] => mret connections
  | i :: indices =>
      if negb (i =? schainIndex) && negb (bool_decide (i ∈ connections)) then
        e ← read (hw_exit W);
        if (e : bool) then throw ExitRequestedException
        else
          c ← read (fun n => hw_connect W n i);
          tryMembers indices (if (c : bool) then {[i]} ∪ connections else connections)
      else tryMembers indices connections
  end.

Definition reached_all (connections : gset Z) : bool := nodeCount <=? zsize connections + 1.
Definition reached_two_thirds (connections : gset Z) : bool := 2 * nodeCount <=? 3 * (zsize connections + 1).

(** The warning; the time of the last one is kept in an [int]. *)
Definition warnIfNeeded (lastWarningPrintTimeSec : Z) : M state Z :=
  now ← currentSec;
  if HEALTHCHECK_ON_START_TIME_BETWEEN_WARNINGS_SEC <? u64 (now - lastWarningPrintTimeSec) then
    health_emit HealthWarning ;;
    now ← currentSec;
    mret (to_int now)
  else mret lastWarningPrintTimeSec.

Definition enoughForNow (beginTime : Z) (connections : gset Z) : M state bool :=
  if reached_two_thirds connections then
    now ← currentSec;
    mret (HEALTH_CHECK_TIME_TO_WAIT_FOR_ALL_NODES_SEC <? u64 (now - beginTime))
  else mret false.

Fixpoint healthLoop (beginTime lastWarningPrintTimeSec : Z) (connections : gset Z) (fuel : nat) : M state health_outcome :=
  match fuel with
  | O => throw OutOfFuel
  | S fuel =>
      if reached_all connections then setHealthCheckFile 2 ;; mret Healthy
      else
        enough ← enoughForNow beginTime connections;
        if (enough : bool) then setHealthCheckFile 2 ;; mret Healthy
        else
          now ← currentSec;
          if HEALTHCHECK_ON_START_RETRY_TIME_SEC <? u64 (now - beginTime) then
            setHealthCheckFile 0 ;; mret (ProcessExit 110)
          else
            lastWarning ← warnIfNeeded lastWarningPrintTimeSec;
            e ← read (hw_exit W);
            if (e : bool) then throw ExitRequestedException
            else
              connections ← tryMembers (seqZ 1 nodeCount) connections;
              healthLoop beginTime lastWarning connections fuel
  end.

Definition healthCheck (fuel : nat) : M state health_outcome :=
  setHealthCheckFile 1 ;;
  beginTime ← currentSec;
  healthLoop beginTime 0 ∅ fuel.

(** [Node::startClients] *)
Definition startClients (fuel : nat) : M state health_outcome :=
  e ← read (hw_exit W);
  if (e : bool) then mret Healthy
  else
    outcome ← healthCheck fuel;
    match outcome with
    | ProcessExit code => mret (ProcessExit code)
    | Healthy =>
        e ← read (hw_exit W);
        if (e : bool) then mret Healthy
        else health_emit BarrierOpened ;; mret Healthy
    end.

(** ** Facts *)

(** The other members that have been reached so far. *)
Definition reached (connections : gset Z) : Prop :=
  forall i, i ∈ connections -> 1 <= i <= nodeCount /\ i <> schainIndex /\ exists n, hw_connect W n i = true.

Lemma read_run {A} (f : nat -> A) s : read f s = (Ok (f (hs_step s)), HealthState (S (hs_step s)) (hs_out s)).
Proof. done. Qed.

Lemma tryMembers_spec indices connections s :
  Forall (fun i => 1 <= i <= nodeCount) indices -> reached connections ->
  let r := tryMembers indices connections s in
  (hs_step s <= hs_step r.2)%nat /\ hs_out r.2 = hs_out s /\
  match r.1 with Ok c => reached c | Err e => e = ExitRequestedException end.
Proof.
  revert connections s. induction indices as [|i indices IH]; intros connections s Hi Hc; cbn [tryMembers]; [done|].
  apply Forall_cons in Hi as [Hi His]. destruct (negb (i =? schainIndex) && negb (bool_decide (i ∈ connections))) eqn:Hn; [|by apply IH].
  rewrite mbind_run, read_run. destruct (hw_exit W (hs_step s)); cbn; [split_and!; [lia|done|done]|].
  rewrite mbind_run, read_run. cbn.
  set (s2 := HealthState _ _). set (c2 := if hw_connect W (S (hs_step s)) i then _ else _).
  destruct (IH c2 s2 His) as (H1 & H2 & H3); [|split; [cbn in H1; lia|by split]].
  subst c2. destruct (hw_connect W (S (hs_step s)) i) eqn:Hcon; [|done]. intros j Hj. apply elem_of_union in Hj as [Hj|Hj]; [|by apply Hc].
  apply elem_of_singleton in Hj as ->. apply andb_true_iff in Hn as [Hn _]. split; [done|]. split; [lia|]. by eexists.
Qed.

Definition last_file (s : state) : option Z :=
  last (omap (fun e => match e with HealthFile z => Some z | _ => None end) (hs_out s)).

(** What each outcome means. *)
Definition outcome_ok (r : res health_outcome) (s : state) : Prop :=
  match r with
  | Ok Healthy => last_file s = Some 2 /\ exists c, reached c /\ 2 * nodeCount <= 3 * (zsize c + 1)
  | Ok (ProcessExit code) => code = 110 /\ last_file s = Some 0
  | Err e => e = ExitRequestedException
  end.

Lemma file_last s z : last_file (HealthState (hs_step s) (hs_out s ++ [HealthFile z])) = Some z.
Proof. unfold last_file. cbn. rewrite omap_app. cbn. by rewrite last_snoc. Qed.

Context (Hclock : forall n, 0 <= hw_clockSec W n < MODERN_TIME + 1000000000).

Lemma currentSec_run s : currentSec s = (Ok (hw_clockSec W (hs_step s)), HealthState (S (hs_step s)) (hs_out s)).
Proof.
  unfold currentSec. rewrite mbind_run, read_run. cbn -[MODERN_TIME]. specialize (Hclock (hs_step s)).
  rewrite mbind_run. unfold check. destruct (Z.ltb_spec (hw_clockSec W (hs_step s)) (MODERN_TIME + 1000000000)); [done|lia].
Qed.

Lemma warnIfNeeded_run last s :
  exists last' s', warnIfNeeded last s = (Ok last', s') /\ (hs_step s <= hs_step s')%nat /\ last_file s' = last_file s.
Proof.
  unfold warnIfNeeded. rewrite mbind_run, currentSec_run. cbv beta iota.
  destruct (_ <? _); [|do 2 eexists; split; [reflexivity|split; [cbn; lia|done]]].
  rewrite mbind_run. unfold health_emit at 1, modify at 1. cbv beta iota. rewrite mbind_run, currentSec_run.
  do 2 eexists. split; [reflexivity|]. split; [cbn; lia|]. unfold last_file. cbn. rewrite omap_app. cbn. by rewrite app_nil_r.
Qed.

Lemma reached_all_two_thirds c : reached_all c = true -> reached_two_thirds c = true.
Proof. unfold reached_all, reached_two_thirds, zsize. intros Hc%Z.leb_le. apply Z.leb_le. lia. Qed.

Lemma healthy_ok c s :
  reached c -> reached_two_thirds c = true ->
  let r := (setHealthCheckFile 2 ;; mret Healthy) s in outcome_ok r.1 r.2.
Proof.
  intros Hc Ht. cbn. unfold outcome_ok. split; [apply file_last|]. exists c. split; [done|]. unfold reached_two_thirds in Ht. lia.
Qed.

Lemma enoughForNow_run begin c s :
  exists b s', enoughForNow begin c s = (Ok b, s') /\ (hs_step s <= hs_step s')%nat /\ (b = true -> reached_two_thirds c = true).
Proof.
  unfold enoughForNow. destruct (reached_two_thirds c); [|do 2 eexists; by split_and!].
  rewrite mbind_run, currentSec_run. do 2 eexists. split; [reflexivity|]. split; [cbn; lia|done].
Qed.

Lemma healthLoop_ok N begin last c fuel s :
  (forall k, (N <= k)%nat -> begin + HEALTHCHECK_ON_START_RETRY_TIME_SEC < hw_clockSec W k) -> 0 <= begin ->
  (0 < fuel)%nat -> (N <= hs_step s + (fuel - 1))%nat -> reached c ->
  let r := healthLoop begin last c fuel s in outcome_ok r.1 r.2.
Proof.
  intros Hlate Hb. revert last c s. induction fuel as [|fuel IH]; intros last c s Hf Hn Hc; [lia|]. cbn [healthLoop].
  destruct (reached_all c) eqn:Hall; [by apply (healthy_ok c); [|apply reached_all_two_thirds]|].
  rewrite mbind_run. destruct (enoughForNow_run begin c s) as (b & s1 & -> & H1 & Hb1).
  destruct b; [by apply (healthy_ok c); [|apply Hb1]|]. rewrite mbind_run, currentSec_run. cbv beta iota.
  destruct (HEALTHCHECK_ON_START_RETRY_TIME_SEC <? _) eqn:Hret; [cbn; split; [done|apply file_last]|].
  assert (~ (N <= hs_step s1)%nat) as Hearly.
  { intros Hk. specialize (Hlate _ Hk). specialize (Hclock (hs_step s1)). apply Z.ltb_ge in Hret.
    unfold u64, wrap in Hret. unfold HEALTHCHECK_ON_START_RETRY_TIME_SEC, MODERN_TIME in *. rewrite Z.mod_small in Hret by lia. lia. }
  rewrite mbind_run. destruct (warnIfNeeded_run last (HealthState (S (hs_step s1)) (hs_out s1))) as (last' & s2 & -> & H2 & _).
  rewrite mbind_run, read_run. cbv beta iota. destruct (hw_exit W (hs_step s2)); [done|]. rewrite mbind_run.
  destruct (tryMembers_spec (seqZ 1 nodeCount) c (HealthState (S (hs_step s2)) (hs_out s2))) as (H3 & _ & H4); [|done|].
  { apply Forall_forall. intros i Hi. apply elem_of_seqZ in Hi. lia. }
  destruct (tryMembers _ c _) as [[c'|e] s3]; cbn [fst snd] in *; [|by subst e].
  cbn in H2, H3. apply IH; [lia|lia|done].
Qed.

(** C27: the check before the start decides.  Whatever the clock, the members and
    the exit flag do, the check ends once the clock has passed twenty-five minutes:
    the node goes on, with the health file at 2, only when it has reached so many
    other members that with itself they are two thirds; otherwise it leaves the
    process with code 110 and the health file at 0, or the exit was requested. *)
Theorem health_check_decides N fuel s :
  (forall k, (N <= k)%nat -> hw_clockSec W (hs_step s) + HEALTHCHECK_ON_START_RETRY_TIME_SEC < hw_clockSec W k) ->
  (N + 1 <= fuel)%nat ->
  let r := healthCheck fuel s in outcome_ok r.1 r.2.
Proof.
  intros Hlate Hf. unfold healthCheck. cbv zeta. rewrite mbind_run. cbn [setHealthCheckFile health_emit modify].
  rewrite mbind_run, currentSec_run. cbv beta iota. cbn [hs_step].
  apply (healthLoop_ok N); [done|apply Hclock|lia|cbn; lia|]. by intros i Hi.
Qed.
End HealthCheck.

(** ** Witness: a chain of four members, of which two answer at the third round *)
Definition demo_health : health_world :=
  {| hw_clockSec := fun n => 1700000000 + Z.min (10 * Z.of_nat n) 5000; hw_exit := fun _ => false;
     hw_connect := fun n i => (25 <? Z.of_nat n) && negb (i =? 4) |}.

Lemma health_check_decides_witness :
  (healthCheck demo_health 1 4 200 (HealthState 0 [])).1 = Ok Healthy /\
  outcome_ok demo_health 1 4 (healthCheck demo_health 1 4 200 (HealthState 0 [])).1
    (healthCheck demo_health 1 4 200 (HealthState 0 [])).2.
Proof.
  split; [by vm_compute|].
  apply (health_check_decides demo_health 1 4) with (N := 160%nat).
  - intros n. cbn -[Z.mul Z.add MODERN_TIME]. unfold MODERN_TIME. lia.
  - intros k Hk. cbn -[Z.mul Z.add]. unfold HEALTHCHECK_ON_START_RETRY_TIME_SEC. lia.
  - lia.
Defined.

(** A clock that is set back by a second while the node waits looks like a wait
    without end: the process leaves at once. *)
Example clock_back_exits :
  let W := {| hw_clockSec := fun n => if (n =? 0)%nat then 1700000000 else 1699999999; hw_exit := fun _ => false;
              hw_connect := fun _ _ => true |} in
  (healthCheck W 1 4 10 (HealthState 0 [])).1 = Ok (ProcessExit 110).
Proof. by vm_compute. Qed.
